(* ===== verification/_CoqProject ===== *)
-Q . S2P
Prelude.v
RustStr.v
Confidence.v
DagTypes.v
Kahn.v
DagCycle.v
DagOps.v
DagInv.v
DagGates.v
DagSeed.v
DagSim.v
DagTheorems.v
PlanTypes.v
PlanCycle.v
Plan.v
PlanLemmas.v
Bridge.v
PlanTheorems.v
ShellTokens.v
RiskPaths.v
RiskAssess.v
RiskTheorems.v
Claims.v
ClaimsTheorems.v
RustText.v
Disk.v
Omnis.v
OmnisChain.v
OmnisDisk.v
OmnisTheorems.v
Receipts.v
FileTools.v
PatchTools.v
ReceiptsTheorems.v
PatchTheorems.v
SwarmCore.v
SwarmCoreTheorems.v
SwarmProgress.v
SwarmMembers.v
SwarmMembersTheorems.v
MutationState.v
MutationTheorems.v
PlanStatus.v
Effects.v
GraphHandlers.v
GraphTheorems.v
PlanHandlers.v
PlanHandlersTheorems.v
TaskRun.v
Workers.v
Assign.v
Control.v
Work.v
Server.v
AssignTheorems.v
ControlTheorems.v
WorkersTheorems.v
SwarmStore.v
SwarmStoreTheorems.v
CommFormat.v
Await.v
AwaitTheorems.v
RunPlan.v
SeedRetry.v
RunPlanTheorems.v
CheckpointModel.v
CheckpointStore.v
CheckpointChain.v
CheckpointDisk.v
CheckpointPublish.v
CheckpointIpc.v
CheckpointDaemon.v
CheckpointCli.v
CheckpointClient.v
CheckpointServe.v
CheckpointSample.v
CheckpointTheorems.v
CheckpointClientTheorems.v
Messages.v
MessagesTheorems.v
