(* ===== verification/Prelude.v ===== *)
(** * Verification of the coordination and safety core of OMNIS CODE

    OMNIS CODE is a terminal coding agent: a server runs agents, agents call tools, and
    a swarm of agents works through a shared plan.  This library models the parts of it
    that decide something, and proves what they decide.

    ** The program and what models it

    - Task graph (crates/jcode-plan/src/dag).  A plan in the making is a graph of nodes
      with dependencies, owners, artifacts and, in deep mode, audit gates.
      [DagTypes] has the data of [dag/mod.rs] and its accessors; [Confidence] the
      reading of declared confidence (binary64 scores included); [DagCycle] the cycle
      detector; [DagOps] the scheduler of [dag/schedule.rs] and every validated mutation
      of [dag/ops.rs]; [DagSim] the driver loop of [dag/sim.rs].
    - Swarm plan (crates/jcode-plan/src/lib.rs).  The stored, versioned plan with its
      side maps: [PlanTypes] (items, progress, metadata, status vocabulary, control
      actions, session renames), [PlanCycle] (its own cycle detector), [Plan] (summary,
      next runnable, unassigned or stranded item, reclaim, control target, blocked
      reason, affinities).
    - Bridge (crates/jcode-plan/src/bridge.rs).  [Bridge] lifts a stored plan to a task
      graph and lowers the result; every server operation on a graph is lift, one engine
      operation, lower.
    - Command gate (crates/jcode-command-risk, and its call in the bash tool,
      crates/jcode-app-core/src/tool/bash_destructive_gate.rs).  [ShellTokens] models
      [tokenize.rs], [RiskPaths] [paths.rs] over a model of [std::path] components on
      Unix, [RiskAssess] [lib.rs], [gate.rs] and the call.
    - Claims (crates/jcode-claims, crates/jcode-verifiers).  [Claims] models the typing of
      claims, the verifiers, the pipeline and the hash-chained receipt log.
    - Receipts (crates/jcode-base/src/omnis.rs, crates/jcode-receipts) and the tools that
      leave them (crates/jcode-app-core/src/tool).  [Disk] models a file system whose
      operations can each fail and whose states are traced, so that a theorem can speak of
      a crash between any two of them; [Omnis] is the receipt ledger over it, [Receipts] the
      policy, the evidence and the receipts of agent actions, [FileTools] the edit, write
      and bash tools that call them.
    - Swarm (crates/jcode-swarm-core, crates/jcode-app-core/src/server/swarm.rs).
      [SwarmCore] has roles, states, texts and the channel index; [SwarmProgress] heartbeats,
      staleness and salvage on one plan; [SwarmMembers] the shared tables: members, spawn
      tree, coordinators, status changes, leaving.
    - Requests of the server (crates/jcode-app-core/src/server).  [MutationState]
      ([swarm_mutation_state.rs], [durable_state.rs]) recognizes repeated requests: a
      transition system of interleaved handlers with the lock, the claims, the state files
      and the clock.  [Effects] lists what handlers do to the outside, [GraphHandlers] has
      [comm_graph.rs], [PlanHandlers] [comm_plan.rs] and the shared context of
      [client_comm_context.rs], [Messages] direct messages, channels and broadcasts.
    - The work of a swarm (crates/jcode-app-core/src/server).  [comm_control.rs] is three
      parts: [Assign] chooses the worker of a task, with the claims that keep requests from
      choosing the same one, and writes the assignment into the plan; [Control] has the
      handlers [assign_task], [assign_next], [assign_role] and [task_control]; [TaskRun] the
      steps of an assigned run, heartbeats, progress events and the end of the turn.
      [Workers] is [comm_session.rs] with the registration of [headless.rs]: who may spawn, how
      many, with which model, and who may stop whom.  [PlanStatus] has the snapshots of a plan
      that clients see.  [Work] shows what each of these operations does to plans, and
      [Server] puts every handler and every step of a run into one transition relation,
      [Server.step].  [SwarmStore] is [swarm_persistence.rs] with the part of jcode-storage it
      uses: the snapshot of a swarm on the disk of [Disk], what is written when, what a server
      that starts reads back, and the migration of old snapshots.  [Await] is [comm_await.rs]
      and [await_members_state.rs]: handlers, detached watchers and their resumption as tasks
      that interleave; [CommFormat] the names and texts of crates/jcode-protocol
      ([comm_format.rs]) that they use.
    - The client's side of a plan (crates/jcode-app-core/src/tool/communicate.rs).  [RunPlan] is
      the action run_plan: a driver that asks the server for the status and the members,
      assigns, waits, and begins again.  It is a function from an answer to the next requests
      ([advance_driver]), so what is proved holds whatever the server does in between; the
      registry that keeps a session to one driver in the background is there too.  [SeedRetry]
      is the loop that renames the nodes of a seed whose ids are taken.
    - The patch tools (crates/jcode-app-core/src/tool).  [PatchTools] has the parser and the
      application of [apply_patch.rs], the unified diffs of [patch.rs] and the edits of
      [multiedit.rs], over the disk of [Disk], with the rollback of [omnis_receipts.rs].

    - The checkpoint kernel (crates/jcode-omnis, src/cli/omnis.rs): a daemon under another user
      signs checkpoints of the receipt ledger, so that the owner of the ledger cannot rewrite
      it.  [CheckpointModel] has requests, records, digests, signatures and key files
      ([lib.rs]); [CheckpointStore] the store over the disk of [Disk], a directory of records
      that are linked into place and never replaced; [CheckpointIpc] the messages, frames and
      the client ([protocol.rs], [client.rs]); [CheckpointDaemon] the activation manifest and
      the handling of connections ([daemon.rs]); [CheckpointCli] the commands that anchor the
      ledger and compare it with the last checkpoint.

    [Prelude] holds results, notations, automation and generic lemmas; [RustStr] the
    operations on Rust strings and [RustText] those the later parts add; [Kahn] the interface [Elimination] that both cycle
    detectors fulfil, with the graph theory proved once against it.

    Data follows the code: records for structs, inductive types for enums, [gmap] and
    [gset] for hash maps and sets, lists for vectors, [string] (bytes) for UTF-8 text,
    [N] with its wrap-around for the counters that have a width, [result] for fallible
    operations with [let?] for the question mark, and [option] for panics.  A mutation
    takes the old graph and returns the new one or the error; the caller keeps the old
    graph on an error.  [DagInv.dag_step] is the transition relation of the engine
    (seed, expand, complete, fail, inject, requeue, dispatch), and [reachable] its closure
    from the empty graph.

    A handler of the server is a function from the shared tables to the new tables and the
    list of its effects in order; the locks of the code make the change of a plan atomic, and
    [GraphTheorems.server_step] interleaves whole handlers.  Where the suspension points
    inside a request decide (in [MutationState] and between the two parts of
    [ensure_seeder_can_coordinate]) each part is a step of its own.

    ** What the theorems show

    - [DagTheorems]: the cycle detector is exact; every reachable graph has unique ids,
      known dependencies and no cycle; a finished deep plan is audited level by level,
      gates accept exactly the artifacts that account for everything in scope, no
      composite is synthesised before its gate passed, finished work is stable;
      the ready list is exact and ordered, an idle unfinished plan has a ready node, the
      driver ends and its report is truthful; a seed can be replayed; only owners
      mutate; assembled input is complete; doubt is never promoted.  [DagInv],
      [DagGates] and [DagSeed] carry the invariants behind them.
    - [PlanTheorems]: exact cycle detection whatever the order of hash maps, a summary
      that partitions the items, best-first scheduling, agreement of readiness with the
      blocked reason, recovery of stranded work with a lifetime bound, control actions
      that never touch completed work, renames and pruning; and the refinement: the
      stored plan implements the engine and both schedulers agree.  [PlanLemmas] helps.
    - [RiskTheorems]: the assessor is total and takes the worst level; protected targets
      never run; what runs unquestioned destroys nothing outside the workspace; wrappers
      and inline scripts hide nothing; normal forms are canonical; the gate yields only
      to a substantive justification.
    - [ClaimsTheorems]: a certificate rests on evidence, an appended log verifies, and
      the head hash commits to the digested content of the log up to collisions.

    - [OmnisTheorems]: on a disk that works the file is the abstract chain; whatever fails
      and wherever the process stops, an append happened as a whole or not at all; an
      append that was cut short is recorded once when it is retried.  [OmnisChain] and
      [OmnisDisk] carry the chain, the commitment of its head, and the traces.
    - [ReceiptsTheorems]: an edit or write whose receipt fails is undone, a broken ledger
      stops commands before they run, the tools do not panic.
    - [SwarmCoreTheorems], [SwarmProgress], [SwarmMembersTheorems]: the channel index
      implements a relation, salvage releases exactly the work of the dead member, ownership
      is transitive spawning and survives a member that leaves, a crash at work is reported.
    - [MutationTheorems]: however requests interleave each is answered once, one mutation per
      key executes at a time, keys are file names and collide only where the hash does.
    - [GraphTheorems], [PlanHandlersTheorems], [MessagesTheorems]: the plans of the server
      stay sound under every sequence of requests; a request does what the engine does; only
      free or own nodes change; only the coordinator changes the plan otherwise and never
      to one with a cycle; messages reach the subtree or the channel and nobody else.
    - [Server], over every interleaving of handlers, runs, sweeps and departures: a plan is
      always sound; and an item of a deep plan is completed by an accepted request of its
      worker with a validated artifact, unless the coordinator replaces the items of the plan.
    - [AssignTheorems], [ControlTheorems]: no worker is picked twice while requests overlap, the
      best free one is picked, an assignment moves one task and is recorded before it is sent,
      only drivers dispatch, whoever takes a task over tells the worker that had it, or puts
      the item back, unless somebody else assigns it once more meanwhile, and
      turns without an artifact are requeued for ever.
    - [WorkersTheorems]: spawning keeps the limits, but for one worker more with every
      [assign_next] that finds no other, a worker belongs to its spawner, only its
      owners stop it and then nothing of it is left.
    - [SwarmStoreTheorems]: a write that is cut short anywhere leaves the old snapshot or the
      new one, the version of a plan on disk never falls, and a server that restarts has the
      swarm back as it was saved, members recovered.
    - [AwaitTheorems]: a wait that is reported as over is over, and no request is answered
      twice; what the code can lose, repeat or panic on is shown by schedules.
    - [RunPlanTheorems], whatever the server answers: a run waits for and stops only workers
      of its own, gives a task only to a free slot, comes to an end, and reports success only
      when nothing is left that could run in the status it read last; a session has one
      driver in the background; a repeated seed ends, keeps the shape of the request and says
      what it renamed.
    - [PatchTheorems]: a patch touches the files it names and no protected one, an update
      changes the lines that its chunks match, a patch that is printed is read back, and the
      hunks of a unified diff replace the lines they number.
    - [CheckpointTheorems], on a disk that may fail and with servers that overlap: whoever opens
      an authority sees one receipt chain, linked and signed; an anchor that stops anywhere
      leaves the record whole or absent; a checkpoint that was acknowledged stays; an anchor
      that failed can be repeated; a request is a segment of receipts.  [CheckpointChain],
      [CheckpointDisk] and [CheckpointPublish] carry the chain, the names of the records, the
      traces and the two ends of a publication.
    - [CheckpointClientTheorems]: a client believes only what the trusted key has signed,
      anchoring ends, an anchored ledger cannot be rewritten unnoticed (short of a collision of
      SHA-256), all three whatever answers on the socket; and what the client gets from the
      daemon is what the store does.  [CheckpointClient] and [CheckpointServe]
      carry the sides of the client and of the daemon; [CheckpointSample] is a small authority
      with a session, at which the theorems are applied.

    Where the code departs from its documentation a theorem says so: an excerpt that
    panics inside a character, receipts whose fields can be moved, the unreachable
    exemption of the null device, commands that the tokenizer does not separate, a
    priority without a name that breaks the replay of a seed, an exit code that is never
    read, a replay window that starts too early, a refused seed that changes the mode, a
    second approval that is not applied, a proposal that is forged, a direct update
    without a limit, a count of turns without an artifact that every assignment forgets,
    two swarms that share a file, a leftover temporary file that is loaded as a swarm of its
    own, a failed removal that brings a swarm back, a waiter that is forgotten, a wait that is
    announced twice, a timeout that is replayed when everything is done, a name that panics,
    a driver that is started twice while the table of tasks is locked, a second one that runs
    in the foreground, a coordinator that completes a deep item without an artifact, a worker
    that is not told of a takeover because it was overtaken, a worker that is spawned beyond
    the limit, an insertion that a patch puts a line early or at the end, and a recovery
    that gives up before it reuses workers.

    ** Fuel and bounds

    Loops that are not structural carry fuel and return [None] without it; the theorems
    show that the fuel given is enough.  [kahn_fuel] is the length of the queue plus, for each
    node, the pushes it can cause; [item_visit] uses the queue plus the edges; a turn of the driver
    performs a worker step, so [sim_loop] has one unit more than the step budget; a
    script is strictly shorter than the segment that contains it, so [segment_fuel] is
    the size of the segment; wrappers shorten the segment; [free_suffix] tries one number
    more than there are nodes, and one of them is free; a spawn chain visits a member at most once,
    so [swarm_ancestors] has the number of members plus one.  A request that meets no other
    passes [begin_with_mode] in at most eight steps and [finish_request] in three plus one
    for each waiter.  The loop of a seed has one turn more than the seed has nodes, as in the
    code, and a new name is searched among one candidate more than there are reserved ids.
    A run has at most 200 loops, and the measure of [a_run_ends] is lexicographic: loops, the
    place in a loop, slots and refusals, and what is left to stop.  Anchoring a ledger has
    one turn more than the ledger has receipts, and an accepted answer covers at least one of
    them ([anchoring_ends]).  The counters of reclaims and
    versions are [u32] and [u64]; a ledger has fewer than 2^64 receipts where its
    numbering is stated.

    ** Parameters

    Code outside the repository and the outside world are arguments: the JSON serializer
    of artifacts (the refinement assumes that it reads back what it writes), the runner of
    processes (which threads a world), SHA-256 (64 characters, where the commitment needs
    it), the rendering of JSON values and of quoted strings, the clock of receipts, the
    worker closure of the driver, the iteration order of the hash map in [PlanCycle], the
    environment (home and working directory) of the command gate, the serializers of
    receipts, evidence, proposals and snapshots of swarms, the line differ of the file tools, the run of a
    command, the hash of request keys, whether the client of a session is gone or its agent
    idle, the table of reasoning efforts, and, for the client's side, every answer of the server.  For the checkpoint kernel: Ed25519 (a
    signature that was made verifies), the formats of records and manifests (what is written is
    read back on one line), the order in which a directory is listed, the peer of a socket, the
    identity of the process, and for the client everything that arrives.  Each theorem with
    such an assumption is instantiated at concrete functions.

    ** Not modelled

    Serde attributes and the lenient deserializer of confidence; the files of the claim
    log and failing writes to it; process spawning, and with it the background and
    reload paths of the bash tool; permissions, symbolic links and the lock file of the
    ledger beyond their success or failure; the diagrams of plans ([mermaid.rs]); the
    debounced broadcasts of status and plan; the making of a session (agent, provider,
    window) and the restoring of a closed one; the log and result files of a background run and
    the other actions of the swarm tool, which build one request each; the views of other sessions ([comm_sync.rs], whose
    resynchronization of a plan is in [PlanHandlers])
    and the listings that tools print; which events reach a watcher; of the checkpoint kernel the binding of the socket with
    the recovery and quarantine of a stale one, the lock of the directory, and what owners,
    modes, links and access lists say beyond success and failure, and the commands that only
    print; and everything around them: agent loop, providers, protocol types, memory, terminal
    interface, storage, telemetry, update.  These are input and output, formats that derived
    serializers decide, or drawing: what they decide of their own is little, and a model
    would repeat the environment and not the program. *)

From Stdlib Require Export Ascii.
From stdpp Require Export base tactics list gmap strings sorting pretty relations.
From Stdlib Require Export Lia.

Declare Scope omnis_scope.
Delimit Scope omnis_scope with omnis.
Open Scope omnis_scope.

(** ** Results: the model of Rust's [Result<A, E>] *)

Inductive result (A E : Type) : Type :=
| Ok (val : A)
| Err (err : E).
Arguments Ok {A E} val.
Arguments Err {A E} err.

(** The [?] operator: bind that returns early on an error. *)
Notation "'let?' x := m 'in' k" :=
  (match m with Ok x => k | Err e => Err e end)
  (at level 10, x pattern, m at level 100, k at level 200) : omnis_scope.

(** A guard that returns early with an error value: [if c { return Err(e) }]. *)
Notation "'fail_if' c 'with' e ';;' k" :=
  (if c then Err e else k)
  (at level 10, c at level 99, e at level 99, k at level 200) : omnis_scope.

Definition is_ok {A E} (r : result A E) : bool :=
  match r with Ok _ => true | Err _ => false end.

#[export] Instance result_eq_dec {A E} `{EqDecision A, EqDecision E} :
  EqDecision (result A E).
Proof. solve_decision. Defined.

(** ** Automation shared by the components *)

Create HintDb omnis.
Create Rewrite HintDb omnis.

(** Split every [match] and [if] on a decided term in the goal or a hypothesis. *)
Ltac break_goal :=
  match goal with
  | |- context [match ?x with _ => _ end] => destruct x eqn:?; simplify_eq/=
  end.

Ltac break_hyp H :=
  match type of H with
  | context [match ?x with _ => _ end] => destruct x eqn:?; simplify_eq/=
  end.

Ltac break_in H := repeat break_hyp H.

(** ** Lists *)

Lemma not_not_iff (P : Prop) `{!Decision P} : ¬ ¬ P ↔ P.
Proof. split; [apply dec_stable|tauto]. Qed.

Section lists.
Context {A : Type}.

(** [iter_mut().find(p)] followed by an assignment: the first element that
    satisfies [p] is replaced by its image. *)
Fixpoint update_first (p : A → bool) (f : A → A) (l : list A) : list A :=
  match l with
  | [] => []
  | x :: l => if p x then f x :: l else x :: update_first p f l
  end.

Lemma find_app_first (p : A → bool) (l1 l2 : list A) :
  find p (l1 ++ l2) =
    match find p l1 with Some x => Some x | None => find p l2 end.
Proof. induction l1 as [|x l IH]; simpl; [done|]. by destruct (p x). Qed.

Lemma find_Some_elem (p : A → bool) (l : list A) x :
  find p l = Some x → x ∈ l ∧ p x = true.
Proof. intros H. apply find_some in H. by rewrite list_elem_of_In. Qed.

Lemma find_None_elem (p : A → bool) (l : list A) x :
  find p l = None → x ∈ l → p x = false.
Proof. rewrite list_elem_of_In. intros. by eapply find_none. Qed.

Lemma length_update_first (p : A → bool) f l :
  length (update_first p f l) = length l.
Proof. induction l as [|x l IH]; simpl; [done|]. destruct (p x); simpl; lia. Qed.

(** Membership through a [forallb]/[existsb] test. *)
Lemma forallb_elem (p : A → bool) (l : list A) :
  forallb p l = true ↔ ∀ x, x ∈ l → p x = true.
Proof.
  rewrite forallb_forall. split; intros H x Hx; apply H; by rewrite ?list_elem_of_In in *.
Qed.

Lemma existsb_elem (p : A → bool) (l : list A) :
  existsb p l = true ↔ ∃ x, x ∈ l ∧ p x = true.
Proof.
  rewrite existsb_exists. split; intros (x & Hx & Hp); exists x; split; auto;
    by rewrite ?list_elem_of_In in *.
Qed.

Lemma elem_of_filterb (f : A → bool) (l : list A) x :
  x ∈ List.filter f l ↔ x ∈ l ∧ f x = true.
Proof. by rewrite !list_elem_of_In, filter_In. Qed.

Lemma filterb_nil (f : A → bool) (l : list A) :
  List.filter f l = [] ↔ ∀ x, x ∈ l → f x = false.
Proof.
  split.
  - intros Hnil x Hx. apply not_true_iff_false. intros Hf.
    assert (x ∈ List.filter f l) as Hin by (by apply elem_of_filterb).
    rewrite Hnil in Hin. by apply elem_of_nil in Hin.
  - intros Hall. destruct (List.filter f l) as [|x l'] eqn:E; [done|].
    assert (x ∈ List.filter f l) as [Hx Hf]%elem_of_filterb by (rewrite E; left).
    by rewrite Hall in Hf.
Qed.

(** The result of a [filter(f).collect()] that the code tests for emptiness. *)
Lemma map_filterb_nil {B} (h : A → B) (f : A → bool) (l : list A) :
  map h (List.filter f l) = [] ↔ ∀ x, x ∈ l → f x = false.
Proof. rewrite <- filterb_nil. by destruct (List.filter f l). Qed.

Lemma NoDup_map_filterb {B} (h : A → B) (f : A → bool) (l : list A) :
  NoDup (map h l) → NoDup (map h (List.filter f l)).
Proof.
  induction l as [|a l IH]; simpl; [done|]. intros [Ha Hl]%NoDup_cons.
  destruct (f a); [|auto]. simpl. apply NoDup_cons. split; [|auto].
  intros (b & Hb & [Hin _]%elem_of_filterb)%list_elem_of_fmap. apply Ha, list_elem_of_fmap. eauto.
Qed.
End lists.

(** ** Lexicographic descent *)

Definition lex_lt {A B} (R : relation A) (S : relation B) : relation (A * B) := λ x y,
  R x.1 y.1 ∨ x.1 = y.1 ∧ S x.2 y.2.

Lemma lex_lt_wf {A B} (R : relation A) (S : relation B) : well_founded R → well_founded S → well_founded (lex_lt R S).
Proof.
  intros HR HS [a b]. revert b. induction (HR a) as [a _ IHa]. intros b. induction (HS b) as [b _ IHb].
  constructor. intros [a' b'] [Ha|[Ha Hb]]; simpl in *; [by apply IHa|]. subst. by apply IHb.
Qed.

(** ** Sums, over lists and over the queues of a map *)

Section sums.
Context {A : Type} (f : A → nat).

Lemma sum_list_with_perm l k : l ≡ₚ k → sum_list_with f l = sum_list_with f k.
Proof. induction 1; simpl; lia. Qed.

Lemma sum_list_with_le (g : A → nat) l : (∀ x, f x ≤ g x) → sum_list_with f l ≤ sum_list_with g l.
Proof. intros H. induction l as [|x l IH]; simpl; [done|]. specialize (H x). lia. Qed.

Lemma sum_list_with_pos l : 0 < sum_list_with f l → ∃ before x after, l = before ++ x :: after ∧ 0 < f x.
Proof.
  induction l as [|x l IH]; simpl; [lia|]. intros H.
  destruct (decide (0 < f x)) as [Hx|Hx]; [by exists [], x, l|].
  destruct IH as (before & y & after & -> & Hy); [lia|]. by exists (x :: before), y, after.
Qed.

Lemma sum_list_with_zero l : sum_list_with f l = 0 ↔ ∀ x, x ∈ l → f x = 0.
Proof.
  induction l as [|x l IH]; simpl; [set_solver|]. setoid_rewrite elem_of_cons. split.
  - intros H y [->|Hy]; [lia|]. apply IH; [lia|done].
  - intros H. rewrite (H x), (proj2 IH) by eauto. done.
Qed.

Lemma sum_list_with_filterb (p : A → bool) l :
  sum_list_with f (List.filter p l) ≤ sum_list_with f l
  ∧ ((∀ x, x ∈ l → p x = false → f x = 0) → sum_list_with f (List.filter p l) = sum_list_with f l).
Proof.
  induction l as [|x l [IH1 IH2]]; simpl; [done|]. setoid_rewrite elem_of_cons. destruct (p x) eqn:E; simpl; split.
  - lia.
  - intros H. rewrite IH2; [done|]. eauto.
  - lia.
  - intros H. rewrite IH2, (H x) by eauto. done.
Qed.

(** The sum over all queues of a table. *)
Definition waiting (m : gmap string (list A)) : nat :=
  sum_list_with (λ kv, sum_list_with f kv.2) (map_to_list m).

End sums.

Lemma waiting_delete {A} (f : A → nat) k m :
  waiting f m = sum_list_with f (default [] (m !! k)) + waiting f (delete k m).
Proof.
  unfold waiting. destruct (m !! k) as [ws|] eqn:E; simpl.
  - by rewrite <-(sum_list_with_perm _ _ _ (map_to_list_delete m k ws E)).
  - by rewrite delete_id.
Qed.

Lemma waiting_insert {A} (f : A → nat) k ws m :
  waiting f (<[k := ws]> m) = sum_list_with f ws + waiting f (delete k m).
Proof. rewrite (waiting_delete f k), lookup_insert_eq, delete_insert_eq. done. Qed.

Lemma waiting_push {A} (f : A → nat) k w m :
  waiting f (<[k := default [] (m !! k) ++ [w]]> m) = f w + waiting f m.
Proof. rewrite waiting_insert, sum_list_with_app, (waiting_delete f k m). simpl. lia. Qed.

(** [slice.contains(&x)] on a vector of comparable values. *)
Definition mem {A} `{EqDecision A} (x : A) (l : list A) : bool :=
  bool_decide (x ∈ l).

Lemma mem_true {A} `{EqDecision A} (x : A) l : mem x l = true ↔ x ∈ l.
Proof. apply bool_decide_eq_true. Qed.

Lemma mem_false {A} `{EqDecision A} (x : A) l : mem x l = false ↔ x ∉ l.
Proof. apply bool_decide_eq_false. Qed.

(** Appending to a vector the elements it does not contain yet, one after the
    other: [for d in ds { if !v.contains(&d) { v.push(d) } }]. *)
Definition push_new {A} `{EqDecision A} (v : list A) (x : A) : list A :=
  if mem x v then v else v ++ [x].

Definition push_all_new {A} `{EqDecision A} (v ds : list A) : list A :=
  foldl push_new v ds.

Lemma elem_of_push_new {A} `{EqDecision A} (v : list A) x y :
  y ∈ push_new v x ↔ y ∈ v ∨ y = x.
Proof.
  unfold push_new. destruct (mem x v) eqn:E.
  - apply mem_true in E. naive_solver.
  - set_solver.
Qed.

Lemma elem_of_push_all_new {A} `{EqDecision A} (v ds : list A) y :
  y ∈ push_all_new v ds ↔ y ∈ v ∨ y ∈ ds.
Proof.
  unfold push_all_new. revert v. induction ds as [|d ds IH]; intros v; simpl.
  - set_solver.
  - rewrite IH, elem_of_push_new. set_solver.
Qed.

Lemma NoDup_push_all_new {A} `{EqDecision A} (v ds : list A) :
  NoDup v → NoDup (push_all_new v ds).
Proof.
  unfold push_all_new. revert v. induction ds as [|d ds IH]; intros v Hv; simpl; [done|].
  apply IH. unfold push_new. destruct (mem d v) eqn:E; [done|].
  apply mem_false in E. apply NoDup_app; split; [done|]. split; [set_solver|].
  apply NoDup_singleton.
Qed.

(** Order-preserving de-duplication: [filter(|d| seen.insert(d.clone()))]. *)
Definition dedup {A} `{EqDecision A} (l : list A) : list A := push_all_new [] l.

Lemma elem_of_dedup {A} `{EqDecision A} (l : list A) y : y ∈ dedup l ↔ y ∈ l.
Proof. unfold dedup. rewrite elem_of_push_all_new. set_solver. Qed.

Lemma NoDup_dedup {A} `{EqDecision A} (l : list A) : NoDup (dedup l).
Proof. apply NoDup_push_all_new, NoDup_nil_2. Qed.

#[export] Hint Resolve NoDup_dedup : omnis.
#[export] Hint Rewrite @elem_of_dedup @elem_of_push_all_new : omnis.

(** A list no longer than [k] cannot contain [k + 1] distinct elements. *)
Lemma pigeonhole_not_incl {A} `{EqDecision A} (xs ys : list A) :
  NoDup xs → length ys < length xs → ∃ x, x ∈ xs ∧ x ∉ ys.
Proof.
  intros Hnd Hlen.
  destruct (decide (Forall (λ x, x ∈ ys) xs)) as [Hall|Hnot].
  - assert (xs ⊆+ ys) as Hsub.
    { apply NoDup_submseteq; [done|]. by apply Forall_forall. }
    apply submseteq_length in Hsub. lia.
  - apply not_Forall_Exists in Hnot; [|apply _].
    apply Exists_exists in Hnot as (x & ? & ?). eauto.
Qed.

(** ** Maps *)

(** [for a in l { m.insert(key(a), value(a)) }] with distinct keys. *)
Section insert_all.
Context {A B : Type} (key : A → string) (value : A → B).

Definition insert_all (m : gmap string B) (l : list A) : gmap string B :=
  foldl (λ m a, <[key a := value a]> m) m l.

Lemma insert_all_other m l x : x ∉ map key l → insert_all m l !! x = m !! x.
Proof.
  revert m. induction l as [|a l IH]; intros m Hx; simpl in *; [done|].
  apply not_elem_of_cons in Hx as [Hne Hx]. unfold insert_all in IH.
  rewrite IH by done. by apply lookup_insert_ne.
Qed.

Lemma insert_all_elem m l a :
  NoDup (map key l) → a ∈ l → insert_all m l !! key a = Some (value a).
Proof.
  revert m. induction l as [|b l IH]; intros m Hnd Ha; simpl in *; [by apply elem_of_nil in Ha|].
  apply NoDup_cons in Hnd as [Hb Hnd]. apply elem_of_cons in Ha as [->|Ha]; [|by apply IH].
  fold (insert_all (<[key b := value b]> m) l). rewrite insert_all_other by done.
  by apply lookup_insert_eq.
Qed.
End insert_all.

(** ** Orders *)

(** [a.rank.cmp(&b.rank).then_with(|| a.key.cmp(&b.key))]. *)
Section rank_le.
Context {A : Type} (rank : A → N) (key : A → string).

Definition rank_le (a b : A) : Prop :=
  (rank a < rank b)%N ∨ (rank a = rank b ∧ String.le (key a) (key b)).

#[export] Instance rank_le_dec a b : Decision (rank_le a b).
Proof. unfold rank_le. apply _. Defined.

#[export] Instance rank_le_total : Total rank_le.
Proof.
  intros a b. unfold rank_le.
  destruct (N.lt_trichotomy (rank a) (rank b)) as [?|[?|?]]; [auto| |auto].
  destruct (total String.le (key a) (key b)); auto.
Qed.

#[export] Instance rank_le_trans : Transitive rank_le.
Proof.
  unfold rank_le. intros a b c [?|[? Hab]] [?|[? Hbc]]; [left; lia..|].
  right. split; [congruence|by etrans].
Qed.

(** Two elements in both orders have the same key. *)
Lemma rank_le_antisymm_key a b : rank_le a b → rank_le b a → key a = key b.
Proof.
  unfold rank_le. intros [?|[? H1]] [?|[? H2]]; try lia. by apply (anti_symm String.le).
Qed.
End rank_le.

(** [v.sort_by(cmp)], which keeps the order of equal elements: [leb x y] says that [x] may
    stand before [y]. *)
Section sort_stable.
Context {A : Type} (leb : A → A → bool).

Fixpoint insert_sorted (x : A) (l : list A) : list A :=
  match l with
  | [] => [x]
  | y :: l' => if leb x y then x :: l else y :: insert_sorted x l'
  end.

Definition sort_stable (l : list A) : list A := foldr insert_sorted [] l.

Lemma insert_sorted_perm x l : insert_sorted x l ≡ₚ x :: l.
Proof. induction l as [|y l IH]; simpl; [done|]. destruct (leb x y); [done|]. rewrite IH. apply perm_swap. Qed.

Lemma sort_stable_perm l : sort_stable l ≡ₚ l.
Proof. induction l as [|x l IH]; simpl; [done|]. by rewrite insert_sorted_perm, IH. Qed.
End sort_stable.

(** Comparison of keys, one after the other: [a.k1.cmp(&b.k1).then_with(...)], and at last
    of names.  A descending key is compared by its negation. *)
Section keys_le.
Context {A : Type} (keys : A → list Z) (name : A → string).

Fixpoint lex_compare (a b : list Z) : comparison :=
  match a, b with
  | x :: a, y :: b => match (x ?= y)%Z with Eq => lex_compare a b | c => c end
  | [], [] => Eq
  | [], _ => Lt
  | _, [] => Gt
  end.

Definition keys_le (a b : A) : Prop :=
  match lex_compare (keys a) (keys b) with
  | Lt => True
  | Gt => False
  | Eq => String.le (name a) (name b)
  end.

#[export] Instance keys_le_dec a b : Decision (keys_le a b).
Proof. unfold keys_le. destruct (lex_compare _ _); apply _. Defined.

Lemma lex_compare_antisym a b : lex_compare b a = CompOpp (lex_compare a b).
Proof.
  revert b. induction a as [|x a IH]; intros [|y b]; simpl; try done.
  rewrite Z.compare_antisym, IH. by destruct (x ?= y)%Z.
Qed.

Lemma lex_compare_eq a b : lex_compare a b = Eq ↔ a = b.
Proof.
  revert b. induction a as [|x a IH]; intros [|y b]; simpl; try done.
  destruct (Z.compare_spec x y); subst; [rewrite IH; naive_solver|split; [done|]; intros [=]; lia..].
Qed.

Lemma lex_compare_lt_trans a b c : lex_compare a b = Lt → lex_compare b c = Lt → lex_compare a c = Lt.
Proof.
  revert b c. induction a as [|x a IH]; intros [|y b] [|z c]; simpl; try done.
  destruct (Z.compare_spec x y) as [->|Hxy|]; [| |done].
  - destruct (y ?= z)%Z; eauto.
  - intros _. destruct (Z.compare_spec y z) as [->|Hyz|]; [| |done].
    + by rewrite (proj2 (Z.compare_lt_iff _ _)).
    + intros _. by rewrite (proj2 (Z.compare_lt_iff x z)) by lia.
Qed.

#[export] Instance keys_le_total : Total keys_le.
Proof.
  intros a b. unfold keys_le. rewrite (lex_compare_antisym (keys a)).
  destruct (lex_compare (keys a) (keys b)); simpl; [apply (total String.le)|by left|by right].
Qed.

#[export] Instance keys_le_trans : Transitive keys_le.
Proof.
  intros a b c. unfold keys_le.
  destruct (lex_compare (keys a) (keys b)) eqn:Hab; [|..|done].
  - apply lex_compare_eq in Hab as ->. destruct (lex_compare (keys b) (keys c)); [|done..].
    intros. by etrans.
  - intros _. destruct (lex_compare (keys b) (keys c)) eqn:Hbc; [| |done].
    + apply lex_compare_eq in Hbc as <-. by rewrite Hab.
    + by rewrite (lex_compare_lt_trans _ _ _ Hab Hbc).
Qed.
End keys_le.
