(* ===== verification/RustStr.v ===== *)
(** * Rust strings

    A Rust [String] or [&str] is a sequence of bytes that is valid UTF-8; here it
    is a Rocq [string], whose characters are bytes.  Every operation below is
    byte-wise and agrees with the Rust method on valid UTF-8: the bytes that the
    operations look for are ASCII (never part of a multi-byte character), except
    in [trim], which recognises the encodings of the Unicode white space
    characters. *)

From S2P Require Import Prelude.

Abbreviation chr := Ascii.ascii.

Definition byte_of (c : chr) : N := Ascii.N_of_ascii c.

Definition is_ascii_digit (c : chr) : bool :=
  (48 <=? byte_of c)%N && (byte_of c <=? 57)%N.

Definition is_ascii_alphanumeric (c : chr) : bool :=
  is_ascii_digit c
  || ((65 <=? byte_of c)%N && (byte_of c <=? 90)%N)
  || ((97 <=? byte_of c)%N && (byte_of c <=? 122)%N).

(** [char::to_ascii_lowercase] and its extension to strings. *)
Definition lower_chr (c : chr) : chr :=
  if (65 <=? byte_of c)%N && (byte_of c <=? 90)%N
  then Ascii.ascii_of_N (byte_of c + 32) else c.

Fixpoint to_ascii_lowercase (s : string) : string :=
  match s with
  | EmptyString => EmptyString
  | String c s => String (lower_chr c) (to_ascii_lowercase s)
  end.

(** ** Searching *)

(** [s.strip_prefix(p)]. *)
Fixpoint strip_prefix (p s : string) : option string :=
  match p, s with
  | EmptyString, _ => Some s
  | String a p, String b s => if Ascii.eqb a b then strip_prefix p s else None
  | String _ _, EmptyString => None
  end.

Definition starts_with (p s : string) : bool :=
  match strip_prefix p s with Some _ => true | None => false end.

(** [s.contains(p)] for a string pattern. *)
Fixpoint contains_str (p s : string) : bool :=
  starts_with p s ||
  match s with
  | EmptyString => false
  | String _ s => contains_str p s
  end.

(** [s.contains(c)] and [s.chars().any(f)] for a character pattern. *)
Fixpoint any_chr (f : chr → bool) (s : string) : bool :=
  match s with
  | EmptyString => false
  | String c s => f c || any_chr f s
  end.

Definition contains_chr (c : chr) (s : string) : bool := any_chr (Ascii.eqb c) s.

Fixpoint all_chr (f : chr → bool) (s : string) : bool :=
  match s with
  | EmptyString => true
  | String c s => f c && all_chr f s
  end.

(** [s.split_once(c)]: the parts before and after the first [c]. *)
Fixpoint split_once (c : chr) (s : string) : option (string * string) :=
  match s with
  | EmptyString => None
  | String b s =>
      if Ascii.eqb b c then Some (EmptyString, s)
      else match split_once c s with
           | Some (l, r) => Some (String b l, r)
           | None => None
           end
  end.

(** The longest prefix whose characters satisfy [f], and the rest. *)
Fixpoint span_chr (f : chr → bool) (s : string) : string * string :=
  match s with
  | EmptyString => (EmptyString, EmptyString)
  | String c s' =>
      if f c then let '(l, r) := span_chr f s' in (String c l, r)
      else (EmptyString, s)
  end.

(** [s.split(c)]: the pieces between occurrences of [c], always at least one. *)
Fixpoint split_chr (c : chr) (s : string) : list string :=
  match s with
  | EmptyString => [EmptyString]
  | String b s =>
      if Ascii.eqb b c then EmptyString :: split_chr c s
      else match split_chr c s with
           | piece :: rest => String b piece :: rest
           | [] => [String b EmptyString]
           end
  end.

(** [s.replace(p, r)] for a non-empty [p]; [skip] counts the bytes of the
    current occurrence of [p] that are still to be dropped. *)
Fixpoint replace_go (p r : string) (skip : nat) (s : string) : string :=
  match s with
  | EmptyString => EmptyString
  | String c s' =>
      match skip with
      | S k => replace_go p r k s'
      | O => if starts_with p s then r +:+ replace_go p r (String.length p - 1) s'
             else String c (replace_go p r 0 s')
      end
  end.

Definition replace (p r s : string) : string := replace_go p r 0 s.

(** [v.join(sep)]. *)
Fixpoint join (sep : string) (l : list string) : string :=
  match l with
  | [] => EmptyString
  | [x] => x
  | x :: l => x +:+ sep +:+ join sep l
  end.

(** [s.chars().last()]. *)
Fixpoint last_chr (s : string) : option chr :=
  match s with
  | EmptyString => None
  | String c EmptyString => Some c
  | String _ s => last_chr s
  end.

(** [s.strip_suffix("\r")] or the text itself. *)
Fixpoint strip_cr (s : string) : string :=
  match s with
  | EmptyString => EmptyString
  | String c EmptyString => if Ascii.eqb c "013"%char then EmptyString else s
  | String c s => String c (strip_cr s)
  end.

(** [s.lines()]: the pieces ended by a newline lose a carriage return before it; the
    last piece is a line of its own unless it is empty. *)
Fixpoint lines_of (pieces : list string) : list string :=
  match pieces with
  | [] => []
  | [last] => if bool_decide (last = EmptyString) then [] else [last]
  | piece :: rest => strip_cr piece :: lines_of rest
  end.

Definition lines (s : string) : list string := lines_of (split_chr "010"%char s).

(** [s.split(p).next()]: the text before the first occurrence of [p]. *)
Fixpoint before_str (p s : string) : string :=
  if starts_with p s then EmptyString
  else match s with
       | EmptyString => EmptyString
       | String c s => String c (before_str p s)
       end.

(** [text.chars().take(n).collect()]: whole characters, by their leading bytes. *)
Definition is_continuation (c : chr) : bool := (128 <=? byte_of c)%N && (byte_of c <=? 191)%N.

Fixpoint take_chars (n : nat) (s : string) : string :=
  match s with
  | EmptyString => EmptyString
  | String c s' =>
      if is_continuation c then String c (take_chars n s')
      else match n with
           | O => EmptyString
           | S n => String c (take_chars n s')
           end
  end.

(** ** White space *)

Definition is_byte (n : N) (c : chr) : bool := (byte_of c =? n)%N.

Definition byte_between (lo hi : N) (c : chr) : bool :=
  (lo <=? byte_of c)%N && (byte_of c <=? hi)%N.

(** Encodings of the characters with the Unicode [White_Space] property. *)
Definition ws1 (a : chr) : bool := byte_between 9 13 a || is_byte 32 a.

Definition ws2 (a b : chr) : bool :=
  is_byte 194 a && (is_byte 133 b || is_byte 160 b).

Definition ws3 (a b c : chr) : bool :=
  (is_byte 225 a && is_byte 154 b && is_byte 128 c)
  || (is_byte 226 a && is_byte 128 b
      && (byte_between 128 138 c || is_byte 168 c || is_byte 169 c || is_byte 175 c))
  || (is_byte 226 a && is_byte 129 b && is_byte 159 c)
  || (is_byte 227 a && is_byte 128 b && is_byte 128 c).

Fixpoint trim_start (s : string) : string :=
  match s with
  | EmptyString => EmptyString
  | String a r1 =>
      if ws1 a then trim_start r1 else
      match r1 with
      | EmptyString => s
      | String b r2 =>
          if ws2 a b then trim_start r2 else
          match r2 with
          | EmptyString => s
          | String c r3 => if ws3 a b c then trim_start r3 else s
          end
      end
  end.

(** [trim_end] on the reversed byte sequence. *)
Fixpoint trim_start_rev (s : string) : string :=
  match s with
  | EmptyString => EmptyString
  | String a r1 =>
      if ws1 a then trim_start_rev r1 else
      match r1 with
      | EmptyString => s
      | String b r2 =>
          if ws2 b a then trim_start_rev r2 else
          match r2 with
          | EmptyString => s
          | String c r3 => if ws3 c b a then trim_start_rev r3 else s
          end
      end
  end.

Definition trim_end (s : string) : string := String.rev (trim_start_rev (String.rev s)).

Definition trim (s : string) : string := trim_end (trim_start s).

Definition is_empty (s : string) : bool :=
  match s with EmptyString => true | String _ _ => false end.

(** [s.trim().is_empty()]. *)
Definition is_blank (s : string) : bool := is_empty (trim s).

(** ** Characters that do not fit a literal *)

Definition newline : string := String "010" "".
Definition ellipsis : string := String "226" (String "128" (String "166" "")).
Definition em_dash : string := String "226" (String "128" (String "148" "")).

(** ** Lemmas *)

Lemma last_chr_cons c s : is_Some (last_chr (String c s)).
Proof. revert c. induction s as [|d s IH]; intros c; [by exists c|apply (IH d)]. Qed.

Lemma strip_prefix_spec p s r : strip_prefix p s = Some r ↔ s = p +:+ r.
Proof.
  revert s. induction p as [|a p IH]; intros s; simpl.
  - split; [by intros [= ->]|]. unfold String.app. simpl. by intros ->.
  - destruct s as [|b s]; [split; [done|discriminate]|].
    change (String a p +:+ r) with (String a (p +:+ r)).
    destruct (Ascii.eqb_spec a b) as [->|Hne].
    + rewrite IH. split; [by intros ->|by intros [= ->]].
    + split; [done|]. intros [= ??]. congruence.
Qed.

Lemma starts_with_spec p s : starts_with p s = true ↔ ∃ r, s = p +:+ r.
Proof.
  unfold starts_with. destruct (strip_prefix p s) as [r|] eqn:E.
  - apply strip_prefix_spec in E. naive_solver.
  - split; [done|]. intros [r Hr]. apply strip_prefix_spec in Hr. congruence.
Qed.

Lemma str_app_nil_l s : "" +:+ s = s.
Proof. done. Qed.

Lemma str_app_cons c s t : String c s +:+ t = String c (s +:+ t).
Proof. done. Qed.

Lemma str_app_nil_r s : s +:+ "" = s.
Proof. induction s as [|c s IH]; [done|]. rewrite str_app_cons. by f_equal. Qed.

Lemma str_app_assoc s t u : (s +:+ t) +:+ u = s +:+ t +:+ u.
Proof. induction s as [|c s IH]; [done|]. rewrite !str_app_cons. by f_equal. Qed.

Lemma contains_str_spec p s :
  contains_str p s = true ↔ ∃ pre post, s = pre +:+ p +:+ post.
Proof.
  induction s as [|c s IH]; simpl.
  - rewrite orb_false_r, starts_with_spec. split.
    + intros [r ->]. by exists "", r.
    + intros (pre & post & H). destruct pre; [by exists post|done].
  - rewrite orb_true_iff, starts_with_spec, IH. split.
    + intros [[r ->]|(pre & post & ->)]; [by exists "", r|by exists (String c pre), post].
    + intros (pre & post & H). destruct pre as [|c' pre].
      * left. by exists post.
      * right. rewrite str_app_cons in H. injection H as -> ->. by exists pre, post.
Qed.

Lemma str_length_app s t : String.length (s +:+ t) = String.length s + String.length t.
Proof. induction s as [|c s IH]; [done|]. rewrite str_app_cons. simpl. by rewrite IH. Qed.

Lemma str_app_suffix_inj s1 s2 p1 p2 :
  s1 +:+ p1 = s2 +:+ p2 → String.length p1 = String.length p2 → s1 = s2 ∧ p1 = p2.
Proof.
  revert s2. induction s1 as [|c s1 IH]; intros [|d s2] Heq Hlen; rewrite ?str_app_nil_l, ?str_app_cons in Heq.
  - done.
  - apply (f_equal String.length) in Heq. simpl in Heq. rewrite str_length_app in Heq. lia.
  - apply (f_equal String.length) in Heq. simpl in Heq. rewrite str_length_app in Heq. lia.
  - injection Heq as -> Heq. destruct (IH s2 Heq Hlen) as [-> ->]. done.
Qed.

Lemma to_ascii_lowercase_app s t :
  to_ascii_lowercase (s +:+ t) = to_ascii_lowercase s +:+ to_ascii_lowercase t.
Proof. induction s as [|c s IH]; [done|]. rewrite !str_app_cons. simpl. by rewrite IH. Qed.

Lemma any_chr_app f s t : any_chr f (s +:+ t) = any_chr f s || any_chr f t.
Proof.
  induction s as [|c s IH]; [done|]. rewrite str_app_cons. simpl.
  by rewrite IH, orb_assoc.
Qed.

Lemma all_chr_append f s t : all_chr f (s +:+ t) = all_chr f s && all_chr f t.
Proof. induction s as [|c s IH]; [done|]. rewrite str_app_cons. cbn [all_chr]. by rewrite IH, andb_assoc. Qed.

#[export] Hint Rewrite str_app_nil_r str_app_assoc str_length_app : omnis.
