(* ===== verification/Confidence.v ===== *)
(** * Confidence rungs

    The lenient parser of [ConfidenceLevel] (crates/jcode-plan/src/dag/mod.rs):
    rung words with their negations, then a numeric score.  Numbers are IEEE 754
    binary64 values, computed with the executable specification of floating-point
    arithmetic of the Standard Library ([SpecFloat]); a decimal literal denotes
    the double nearest to it, as Rust's [str::parse::<f64>] does. *)

From Stdlib Require Import SpecFloat ZArith.
From S2P Require Import Prelude RustStr.

(** ** Binary64 *)

Definition f64 := spec_float.

Definition f64_div : f64 → f64 → f64 := SFdiv 53 1024.
Definition f64_mul : f64 → f64 → f64 := SFmul 53 1024.
Definition f64_lt : f64 → f64 → bool := SFltb.
Definition f64_le : f64 → f64 → bool := SFleb.

(** The double nearest to [m / 10 ^ k].  The division rounds an exact quotient
    of integers of any size, and normalises the result. *)
Definition f64_of_decimal (m : N) (k : nat) : f64 :=
  match m with
  | N0 => S754_zero false
  | Npos p =>
      let d := match k with O => 1%positive | S _ => Pos.pow 10 (Pos.of_nat k) end in
      f64_div (S754_finite false p 0) (S754_finite false d 0)
  end.

(** An integer literal of the source used as a double. *)
Definition f64_of_N (n : N) : f64 := f64_of_decimal n 0.

(** ** Number tokens *)

Definition digit_value (c : chr) : N := (byte_of c - 48)%N.

(** Accumulates the digits of a token of digits and dots: the integer they
    spell, the number of digits after the first dot, the number of digits, and
    the number of dots. *)
Fixpoint scan_number (s : string) (m : N) (k digits dots : nat)
  : N * nat * nat * nat :=
  match s with
  | EmptyString => (m, k, digits, dots)
  | String c s =>
      if Ascii.eqb c "."%char then scan_number s m k digits (S dots)
      else scan_number s (m * 10 + digit_value c)%N
             (if decide (dots = 0) then k else S k) (S digits) dots
  end.

(** [token.parse::<f64>().ok()] on a token of digits and dots: at least one
    digit and at most one dot. *)
Definition parse_f64 (token : string) : option f64 :=
  let '(m, k, digits, dots) := scan_number token 0 0 0 0 in
  if decide (digits = 0 ∨ 1 < dots) then None else Some (f64_of_decimal m k).

Definition is_number_chr (c : chr) : bool := is_ascii_digit c || Ascii.eqb c "."%char.

Definition extract_leading_number (s : string) : option (f64 * string * string) :=
  let '(_, rest) := span_chr (λ c, negb (is_number_chr c)) s in
  match rest with
  | EmptyString => None
  | String _ _ =>
      let '(token, after) := span_chr is_number_chr rest in
      match parse_f64 token with
      | Some value => Some (value, token, after)
      | None => None
      end
  end.

(** ** The rungs *)

Inductive ConfidenceLevel := Low | Medium | High.

#[export] Instance ConfidenceLevel_eq_dec : EqDecision ConfidenceLevel.
Proof. solve_decision. Defined.

Definition confidence_as_str (c : ConfidenceLevel) : string :=
  match c with Low => "low" | Medium => "medium" | High => "high" end.

Definition NEGATIONS : list string :=
  ["not high"; "not confident"; "not certain"; "not sure"; "no confidence";
   "unsure"; "uncertain"].

Definition or_else {A} (o1 o2 : option A) : option A :=
  match o1 with Some _ => o1 | None => o2 end.

(** The explicit denominator of a score ("1/10", "7 out of 10", "3 of 5"). *)
Definition score_denominator (after : string) : option f64 :=
  match or_else (strip_prefix "/" after)
          (or_else (strip_prefix "out of " after) (strip_prefix "of " after)) with
  | Some rest =>
      match extract_leading_number (trim_start rest) with
      | Some (d, _, _) => if f64_lt (f64_of_N 0) d then Some d else None
      | None => None
      end
  | None => None
  end.

Definition score_percent (normalized : string) (value : f64) (raw_token : string)
  (denominator : option f64) : f64 :=
  match denominator with
  | Some d => f64_mul (f64_div value d) (f64_of_N 100)
  | None =>
      if contains_chr "%"%char normalized || f64_lt (f64_of_N 10) value then value
      else if f64_le value (f64_of_N 1) && contains_chr "."%char raw_token
      then f64_mul value (f64_of_N 100)
      else f64_mul value (f64_of_N 10)
  end.

Definition percent_rung (percent : f64) : ConfidenceLevel :=
  if f64_lt percent (f64_of_N 50) then Low
  else if f64_lt percent (f64_of_N 80) then Medium
  else High.

(** [ConfidenceLevel::parse]. *)
Definition confidence_parse (raw : string) : option ConfidenceLevel :=
  let normalized := to_ascii_lowercase (trim raw) in
  if is_empty normalized then None
  else if existsb (λ neg, contains_str neg normalized) NEGATIONS then Some Low
  else if contains_str "low" normalized then Some Low
  else if contains_str "med" normalized || contains_str "moderate" normalized
  then Some Medium
  else if contains_str "high" normalized || contains_str "certain" normalized
          || contains_str "confident" normalized
  then Some High
  else
    match extract_leading_number normalized with
    | None => None
    | Some (value, raw_token, after) =>
        let denominator := score_denominator (trim_start after) in
        Some (percent_rung (score_percent normalized value raw_token denominator))
    end.

(** ** Properties *)

Lemma confidence_parse_as_str c : confidence_parse (confidence_as_str c) = Some c.
Proof. destruct c; vm_compute; reflexivity. Qed.

(** A text that carries a negation or the word "low" (in any case, anywhere)
    is never promoted: the doubt is reported. *)
Lemma confidence_parse_doubt raw w pre post :
  w ∈ "low" :: NEGATIONS →
  to_ascii_lowercase (trim raw) = pre +:+ w +:+ post →
  confidence_parse raw = Some Low.
Proof.
  intros Hw Heq. unfold confidence_parse.
  assert (contains_str w (to_ascii_lowercase (trim raw)) = true) as Hc.
  { apply contains_str_spec. eauto. }
  destruct (is_empty (to_ascii_lowercase (trim raw))) eqn:Hempty.
  { destruct (to_ascii_lowercase (trim raw)); [|done].
    exfalso. clear Hempty. destruct pre; [|done].
    rewrite str_app_nil_l in Heq.
    unfold NEGATIONS in Hw. rewrite !elem_of_cons in Hw.
    destruct_or! Hw; subst; try done. by apply elem_of_nil in Hw. }
  destruct (existsb _ NEGATIONS) eqn:Hneg; [done|].
  apply elem_of_cons in Hw as [->|Hw]; [by rewrite Hc|].
  exfalso. apply Bool.not_true_iff_false in Hneg. apply Hneg.
  apply existsb_elem. eauto.
Qed.

(** Integer scores are read on the scale the text announces. *)
Example scores_ten : 
  map confidence_parse ["0"; "4"; "5"; "7"; "8"; "10"]
  = [Some Low; Some Low; Some Medium; Some Medium; Some High; Some High].
Proof. vm_compute. reflexivity. Qed.

Example scores_misc :
  map confidence_parse ["0.9"; "1"; "1/10"; "7 out of 10"; "4 of 5"; "49%"; "80%"; "11"; "soon"; "1.2.3"; "."]
  = [Some High; Some Low; Some Low; Some Medium; Some High; Some Low; Some High; Some Low; None; None; None].
Proof. vm_compute. reflexivity. Qed.
