(* ===== verification/DagTypes.v ===== *)
(** * The task graph: data model

    Types and methods of crates/jcode-plan/src/dag/mod.rs.  Field names carry a
    prefix for the record they belong to: [n_] for [TaskNode], [s_] for
    [NodeSpec], [a_] for [HandoffArtifact], [g_] for [TaskGraph]. *)

From S2P Require Import Prelude RustStr Confidence.

Abbreviation NodeId := string (only parsing).

Inductive Mode := Deep | Light.

Definition requires_gates (m : Mode) : bool :=
  match m with Deep => true | Light => false end.

Inductive NodeOrigin := OSeed | OExpand | OGap | OGate.

Inductive NodeKind := Explore | Implement | Verify | Fix | Synthesize | Critique.

Definition is_gate_kind (k : NodeKind) : bool :=
  match k with Critique | Verify => true | _ => false end.

Definition gate_kind (k : NodeKind) : NodeKind :=
  match k with Implement | Fix => Verify | _ => Critique end.

Inductive NodeStatus := Queued | Running | Done | Failed.

#[export] Instance Mode_eq_dec : EqDecision Mode.
Proof. solve_decision. Defined.
#[export] Instance NodeOrigin_eq_dec : EqDecision NodeOrigin.
Proof. solve_decision. Defined.
#[export] Instance NodeKind_eq_dec : EqDecision NodeKind.
Proof. solve_decision. Defined.
#[export] Instance NodeStatus_eq_dec : EqDecision NodeStatus.
Proof. solve_decision. Defined.

(** ** Handoff artifacts *)

Record HandoffArtifact := {
  a_findings : string;
  a_evidence : list string;
  a_edge_cases_considered : list string;
  a_validation : option string;
  a_open_questions : list string;
  a_confidence : option string;
  a_what_i_did_not_check : list string;
}.

#[export] Instance HandoffArtifact_eq_dec : EqDecision HandoffArtifact.
Proof. solve_decision. Defined.

(** [HandoffArtifact::brief]: the other fields keep their [Default]. *)
Definition brief (findings : string) : HandoffArtifact := {|
  a_findings := findings; a_evidence := []; a_edge_cases_considered := [];
  a_validation := None; a_open_questions := []; a_confidence := None;
  a_what_i_did_not_check := [] |}.

Definition confidence_level (a : HandoffArtifact) : option ConfidenceLevel :=
  match a_confidence a with Some c => confidence_parse c | None => None end.

Definition nl : string := String "010"%char EmptyString.

Definition render_list (label : string) (l : list string) : string :=
  match l with
  | [] => ""
  | _ :: _ => label +:+ join "; " l +:+ nl
  end.

Definition render_opt (label : string) (o : option string) : string :=
  match o with
  | Some x => label +:+ x +:+ nl
  | None => ""
  end.

Definition render_section (a : HandoffArtifact) (id kind : string) : string :=
  "## " +:+ id +:+ " (" +:+ kind +:+ ")" +:+ nl
  +:+ (if is_blank (a_findings a) then "" else a_findings a +:+ nl)
  +:+ render_list "Evidence: " (a_evidence a)
  +:+ render_list "Edge cases considered: " (a_edge_cases_considered a)
  +:+ render_opt "Validation: " (a_validation a)
  +:+ render_list "Open questions: " (a_open_questions a)
  +:+ render_opt "Confidence: " (a_confidence a)
  +:+ render_list "What was not checked: " (a_what_i_did_not_check a).

(** ** Nodes and specs *)

Record TaskNode := {
  n_id : NodeId;
  n_content : string;
  n_kind : NodeKind;
  n_status : NodeStatus;
  n_owner : option string;
  n_parent : option NodeId;
  n_depends_on : list NodeId;
  n_expanded : bool;
  n_is_gate : bool;
  n_planner : option string;
  n_priority : N;
  n_output : option HandoffArtifact;
  n_origin : option NodeOrigin;
}.

#[export] Instance TaskNode_eq_dec : EqDecision TaskNode.
Proof. solve_decision. Defined.

Definition is_composite (n : TaskNode) : bool := n_expanded n.

Definition is_done (n : TaskNode) : bool :=
  match n_status n with Done => true | _ => false end.

Definition is_terminal (n : TaskNode) : bool :=
  match n_status n with Done | Failed => true | _ => false end.

Lemma is_done_iff m : is_done m = true ↔ n_status m = Done.
Proof. unfold is_done. by destruct (n_status m). Qed.

(** Field assignments. *)
Definition set_status (st : NodeStatus) (n : TaskNode) : TaskNode :=
  {| n_id := n_id n; n_content := n_content n; n_kind := n_kind n; n_status := st;
     n_owner := n_owner n; n_parent := n_parent n; n_depends_on := n_depends_on n;
     n_expanded := n_expanded n; n_is_gate := n_is_gate n; n_planner := n_planner n;
     n_priority := n_priority n; n_output := n_output n; n_origin := n_origin n |}.

Definition set_owner (o : option string) (n : TaskNode) : TaskNode :=
  {| n_id := n_id n; n_content := n_content n; n_kind := n_kind n; n_status := n_status n;
     n_owner := o; n_parent := n_parent n; n_depends_on := n_depends_on n;
     n_expanded := n_expanded n; n_is_gate := n_is_gate n; n_planner := n_planner n;
     n_priority := n_priority n; n_output := n_output n; n_origin := n_origin n |}.

Definition set_depends_on (ds : list NodeId) (n : TaskNode) : TaskNode :=
  {| n_id := n_id n; n_content := n_content n; n_kind := n_kind n; n_status := n_status n;
     n_owner := n_owner n; n_parent := n_parent n; n_depends_on := ds;
     n_expanded := n_expanded n; n_is_gate := n_is_gate n; n_planner := n_planner n;
     n_priority := n_priority n; n_output := n_output n; n_origin := n_origin n |}.

Definition set_expanded (b : bool) (n : TaskNode) : TaskNode :=
  {| n_id := n_id n; n_content := n_content n; n_kind := n_kind n; n_status := n_status n;
     n_owner := n_owner n; n_parent := n_parent n; n_depends_on := n_depends_on n;
     n_expanded := b; n_is_gate := n_is_gate n; n_planner := n_planner n;
     n_priority := n_priority n; n_output := n_output n; n_origin := n_origin n |}.

Definition set_planner (o : option string) (n : TaskNode) : TaskNode :=
  {| n_id := n_id n; n_content := n_content n; n_kind := n_kind n; n_status := n_status n;
     n_owner := n_owner n; n_parent := n_parent n; n_depends_on := n_depends_on n;
     n_expanded := n_expanded n; n_is_gate := n_is_gate n; n_planner := o;
     n_priority := n_priority n; n_output := n_output n; n_origin := n_origin n |}.

Definition set_output (o : option HandoffArtifact) (n : TaskNode) : TaskNode :=
  {| n_id := n_id n; n_content := n_content n; n_kind := n_kind n; n_status := n_status n;
     n_owner := n_owner n; n_parent := n_parent n; n_depends_on := n_depends_on n;
     n_expanded := n_expanded n; n_is_gate := n_is_gate n; n_planner := n_planner n;
     n_priority := n_priority n; n_output := o; n_origin := n_origin n |}.

Record NodeSpec := {
  s_id : option NodeId;
  s_content : string;
  s_kind : NodeKind;
  s_depends_on : list NodeId;
  s_priority : N;
}.

#[export] Instance NodeSpec_eq_dec : EqDecision NodeSpec.
Proof. solve_decision. Defined.

(** [NodeSpec::new], [NodeSpec::depends_on] and [NodeSpec::priority]. *)
Definition spec_new (id content : string) (kind : NodeKind) : NodeSpec :=
  {| s_id := Some id; s_content := content; s_kind := kind; s_depends_on := [];
     s_priority := 0 |}.

Definition spec_depends_on (s : NodeSpec) (deps : list string) : NodeSpec :=
  {| s_id := s_id s; s_content := s_content s; s_kind := s_kind s;
     s_depends_on := deps; s_priority := s_priority s |}.

Definition spec_priority (s : NodeSpec) (p : N) : NodeSpec :=
  {| s_id := s_id s; s_content := s_content s; s_kind := s_kind s;
     s_depends_on := s_depends_on s; s_priority := p |}.

(** ** Errors *)

Inductive DagError :=
| UnknownNode (id : NodeId)
| DuplicateNode (id : NodeId)
| UnknownDependency (node dependency : NodeId)
| WouldCreateCycle (ids : list NodeId)
| NotOwner (node : NodeId) (actor : string)
| InvalidState (node : NodeId) (status : NodeStatus)
| ThinArtifact (node : NodeId) (reason : string)
| UnaddressedLowConfidence (gate : NodeId) (nodes : list NodeId)
| UncoveredSiblings (gate : NodeId) (nodes : list NodeId)
| StaleGateScope (gate : NodeId) (pending : list NodeId)
| GateMisuse (msg : string).

#[export] Instance DagError_eq_dec : EqDecision DagError.
Proof. solve_decision. Defined.

(** [{status:?}]. *)
Definition status_debug (st : NodeStatus) : string :=
  match st with
  | Queued => "Queued" | Running => "Running" | Done => "Done" | Failed => "Failed"
  end.

(** [impl Display for DagError]. *)
Definition dag_error_fmt (e : DagError) : string :=
  match e with
  | UnknownNode id => "unknown node '" +:+ id +:+ "'"
  | DuplicateNode id => "duplicate node id '" +:+ id +:+ "'"
  | UnknownDependency node dependency =>
      "node '" +:+ node +:+ "' depends on unknown node '" +:+ dependency +:+ "'"
  | WouldCreateCycle ids =>
      "operation would create a cycle among: " +:+ join ", " ids
  | NotOwner node actor =>
      "actor '" +:+ actor +:+ "' does not own node '" +:+ node +:+ "'"
  | InvalidState node status =>
      "node '" +:+ node +:+ "' is in invalid state " +:+ status_debug status
      +:+ " for this operation"
  | ThinArtifact node reason =>
      "node '" +:+ node +:+ "' artifact rejected: " +:+ reason
  | UnaddressedLowConfidence gate nodes =>
      "gate '" +:+ gate +:+ "' cannot pass: sibling node(s) [" +:+ join ", " nodes
      +:+ "] completed with LOW confidence and the gate artifact does not address them. Either inject_gap with follow-up nodes that shore up that work, or name each id in your findings with why its low confidence is acceptable"
  | UncoveredSiblings gate nodes =>
      "gate '" +:+ gate +:+ "' cannot pass: completed node(s) [" +:+ join ", " nodes
      +:+ "] in its audit scope are not addressed in the gate artifact. A passing deep gate must account for every node it audits: name each id in findings/open_questions with what you checked, or inject_gap with follow-up nodes for anything shaky"
  | StaleGateScope gate pending =>
      "gate '" +:+ gate +:+ "' cannot pass: node(s) [" +:+ join ", " pending
      +:+ "] entered its audit scope after it was dispatched and are not finished. The gate's view is stale; it re-runs after they drain"
  | GateMisuse msg => "gate misuse: " +:+ msg
  end.

(** ** The graph *)

Record TaskGraph := {
  g_mode : Mode;
  g_nodes : list TaskNode;
}.

#[export] Instance TaskGraph_eq_dec : EqDecision TaskGraph.
Proof. solve_decision. Defined.

Definition graph_new (mode : Mode) : TaskGraph := {| g_mode := mode; g_nodes := [] |}.

Definition id_is (id : NodeId) (n : TaskNode) : bool := bool_decide (n_id n = id).

Definition get (g : TaskGraph) (id : NodeId) : option TaskNode :=
  find (id_is id) (g_nodes g).

Definition contains (g : TaskGraph) (id : NodeId) : bool :=
  existsb (id_is id) (g_nodes g).

Definition push (g : TaskGraph) (n : TaskNode) : TaskGraph :=
  {| g_mode := g_mode g; g_nodes := g_nodes g ++ [n] |}.

(** [get_mut(id)] followed by assignments [f] through the reference; nothing
    happens when there is no such node. *)
Definition modify (g : TaskGraph) (id : NodeId) (f : TaskNode → TaskNode) : TaskGraph :=
  {| g_mode := g_mode g; g_nodes := update_first (id_is id) f (g_nodes g) |}.

Definition has_parent (id : NodeId) (n : TaskNode) : bool :=
  bool_decide (n_parent n = Some id).

Definition children_of (g : TaskGraph) (id : NodeId) : list TaskNode :=
  List.filter (λ n, has_parent id n && negb (n_is_gate n)) (g_nodes g).

Definition gate_of (g : TaskGraph) (id : NodeId) : option TaskNode :=
  find (λ n, has_parent id n && n_is_gate n) (g_nodes g).

Definition output_confidence (n : TaskNode) : option ConfidenceLevel :=
  match n_output n with Some a => confidence_level a | None => None end.

Definition low_confidence_done_ids (g : TaskGraph) : list NodeId :=
  map n_id
    (List.filter (λ n, bool_decide (output_confidence n = Some Low))
      (List.filter (λ n, is_done n && negb (n_is_gate n)) (g_nodes g))).

Definition all_terminal (g : TaskGraph) : bool := forallb is_terminal (g_nodes g).

Definition node_ids (g : TaskGraph) : list NodeId := map n_id (g_nodes g).

(** ** Lookup lemmas *)

Lemma id_is_true id n : id_is id n = true ↔ n_id n = id.
Proof. apply bool_decide_eq_true. Qed.

Lemma get_id g id n : get g id = Some n → n_id n = id.
Proof. intros H. apply find_Some_elem in H as [_ H]. by apply id_is_true. Qed.

Lemma get_elem g id n : get g id = Some n → n ∈ g_nodes g.
Proof. intros H. by apply find_Some_elem in H as [? _]. Qed.

Lemma get_None g id : get g id = None ↔ id ∉ node_ids g.
Proof.
  unfold get, node_ids. split.
  - intros H (n & -> & Hn)%list_elem_of_fmap.
    eapply find_None_elem in H; [|done]. by rewrite (proj2 (id_is_true _ n)) in H.
  - intros H. destruct (find _ _) as [n|] eqn:E; [|done].
    exfalso. apply find_Some_elem in E as [? ?%id_is_true].
    apply H, list_elem_of_fmap. eauto.
Qed.

Lemma get_is_Some g id : is_Some (get g id) ↔ id ∈ node_ids g.
Proof.
  destruct (get g id) eqn:E.
  - split; [|eauto]. intros _. apply list_elem_of_fmap.
    eexists; split; [symmetry; by eapply get_id|by eapply get_elem].
  - apply get_None in E. split; [by intros [? ?]|done].
Qed.

Lemma contains_spec g id : contains g id = true ↔ is_Some (get g id).
Proof.
  rewrite get_is_Some. unfold contains, node_ids. rewrite existsb_elem.
  setoid_rewrite id_is_true. rewrite list_elem_of_fmap. naive_solver.
Qed.

Lemma contains_false g id : contains g id = false ↔ get g id = None.
Proof.
  rewrite <- not_true_iff_false, contains_spec. split.
  - intros H. destruct (get g id) eqn:E; [|done]. exfalso; eauto.
  - intros -> [? ?]. done.
Qed.

Lemma get_NoDup g n :
  NoDup (node_ids g) → n ∈ g_nodes g → get g (n_id n) = Some n.
Proof.
  unfold get, node_ids. induction (g_nodes g) as [|m l IH]; intros Hnd Hn; [by apply elem_of_nil in Hn|].
  simpl in *. apply NoDup_cons in Hnd as [Hm Hnd].
  apply elem_of_cons in Hn as [->|Hn]; [by rewrite (proj2 (id_is_true _ _))|].
  destruct (id_is (n_id n) m) eqn:E; [|auto].
  apply id_is_true in E. exfalso. apply Hm, list_elem_of_fmap. eauto.
Qed.

Lemma get_push g n id :
  get (push g n) id =
    match get g id with
    | Some m => Some m
    | None => if decide (n_id n = id) then Some n else None
    end.
Proof.
  unfold get, push. simpl. rewrite find_app_first. destruct (find _ _); [done|].
  simpl. unfold id_is. case_bool_decide; case_decide; done.
Qed.

Lemma get_modify g id f x :
  (∀ n, n_id (f n) = n_id n) →
  get (modify g id f) x = if decide (x = id) then f <$> get g id else get g x.
Proof.
  intros Hf. unfold get, modify. simpl.
  induction (g_nodes g) as [|n l IH]; simpl; [by case_decide|].
  destruct (id_is id n) eqn:E; simpl.
  - apply id_is_true in E. unfold id_is. rewrite Hf, E.
    repeat case_bool_decide; case_decide; simplify_eq; done.
  - assert (n_id n ≠ id) as Hne by (intros ?%id_is_true; congruence).
    destruct (id_is x n) eqn:Ex.
    + apply id_is_true in Ex. by rewrite decide_False by congruence.
    + done.
Qed.

Lemma node_ids_push g n : node_ids (push g n) = node_ids g ++ [n_id n].
Proof. unfold node_ids, push. simpl. by rewrite map_app. Qed.

Lemma node_ids_modify g id f :
  (∀ n, n_id (f n) = n_id n) → node_ids (modify g id f) = node_ids g.
Proof.
  intros Hf. unfold node_ids, modify. simpl.
  induction (g_nodes g) as [|n l IH]; simpl; [done|].
  destruct (id_is id n); simpl; by rewrite ?Hf, ?IH.
Qed.

#[export] Hint Rewrite node_ids_push get_push : omnis.
#[export] Hint Resolve get_id get_elem : omnis.
