(* ===== verification/Kahn.v ===== *)
(** * Topological elimination, abstractly

    Both cycle detectors of the program ([TaskGraph::cycle_nodes] and
    [cycle_item_ids]) compute a set of visited nodes that is closed under "every
    dependency is visited" and whose members have no infinite chain of
    dependencies.  This file shows, for any such set, that its complement is
    exactly the set of nodes that lie on a cycle or downstream of one. *)

From S2P Require Import Prelude.

(** What a cycle detector promises about the set it visited.  [R d x]: node [x]
    depends on node [d]. *)
Class Elimination `{Countable A} (R : relation A) (known visited : gset A) : Prop := {
  elim_known d x : R d x → d ∈ known;
  elim_visited : visited ⊆ known;
  elim_acc x : x ∈ visited → Acc R x;
  elim_pred x : x ∈ known → x ∉ visited → ∃ d, R d x ∧ d ∉ visited;
}.

Section elimination.
Context `{Countable A} (R : relation A) (known visited : gset A).

Lemma tc_last x z : tc R x z → ∃ y, rtc R x y ∧ R y z.
Proof using.
  induction 1 as [x z Hxz|x y z Hxy _ (w & Hyw & Hwz)]; [eauto using rtc_refl|].
  eauto using rtc_l.
Qed.

Lemma acc_no_cycle c : Acc R c → ¬ tc R c c.
Proof using.
  induction 1 as [x _ IH]. intros Hc.
  destruct (tc_last _ _ Hc) as (d & Hxd & Hdx).
  apply (IH d Hdx). eapply tc_rtc_r; [by apply tc_once|done].
Qed.

Lemma acc_rtc c x : rtc R c x → Acc R x → Acc R c.
Proof using.
  intros Hcx Hx. induction Hcx as [|a b d Hab _ IH]; [done|].
  apply IH in Hx. by apply (Acc_inv Hx).
Qed.

Context `{!Elimination R known visited}.

(** Walking backwards from an unvisited node through unvisited dependencies
    must repeat a node, since there are finitely many. *)
Lemma walk_back n y seen :
  size (known ∖ visited) - length seen ≤ n →
  y ∈ known → y ∉ visited → NoDup (y :: seen) →
  (∀ s, s ∈ seen → s ∈ known ∖ visited ∧ tc R y s) →
  ∃ c, tc R c c ∧ rtc R c y.
Proof using All.
  revert y seen. induction n as [|n IH]; intros y seen Hn Hk Hv Hnd Hseen.
  all: destruct (elim_pred y Hk Hv) as (d & Hdy & Hdv).
  all: destruct (decide (d ∈ y :: seen)) as [Hin|Hout].
  1, 3: exists d; split; [|by apply rtc_once];
    apply elem_of_cons in Hin as [->|Hin]; [by apply tc_once|];
    eapply tc_l; [exact Hdy|by apply Hseen].
  - exfalso.
    assert (length (d :: y :: seen) ≤ size (known ∖ visited)) as Hlen.
    { rewrite <- (size_list_to_set (C:=gset A) (d :: y :: seen)) by (by constructor).
      apply subseteq_size. intros s Hs%elem_of_list_to_set.
      rewrite !elem_of_cons in Hs. destruct Hs as [->|[->|Hs]]; [..|by apply Hseen];
        apply elem_of_difference; eauto using elim_known. }
    simpl in Hlen. lia.
  - destruct (IH d (y :: seen)) as (c & Hc & Hcd); eauto using elim_known.
    + simpl. assert (length (y :: seen) ≤ size (known ∖ visited)) as Hlen.
      { rewrite <- (size_list_to_set (C:=gset A) (y :: seen)) by done.
        apply subseteq_size. intros s Hs%elem_of_list_to_set.
        apply elem_of_cons in Hs as [->|Hs]; [|by apply Hseen].
        by apply elem_of_difference. }
      simpl in Hlen. lia.
    + by constructor.
    + intros s Hs. apply elem_of_cons in Hs as [->|Hs].
      * split; [by apply elem_of_difference|by apply tc_once].
      * split; [by apply Hseen|]. eapply tc_l; [exact Hdy|by apply Hseen].
    + exists c. split; [done|]. eapply rtc_r; eauto.
Qed.

Theorem unvisited_iff x :
  x ∈ known →
  x ∉ visited ↔ ∃ c, tc R c c ∧ rtc R c x.
Proof using All.
  intros Hk. split.
  - intros Hv. apply (walk_back (size (known ∖ visited)) x []); 
      [lia|done|done|apply NoDup_singleton|].
    intros s Hs. by apply elem_of_nil in Hs.
  - intros (c & Hc & Hcx) Hv.
    eapply acc_no_cycle; [|exact Hc]. eapply acc_rtc; [exact Hcx|]. by apply elim_acc.
Qed.

Theorem all_visited_iff : known ⊆ visited ↔ ∀ c, ¬ tc R c c.
Proof using All.
  split.
  - intros Hall c Hc.
    assert (c ∈ known) as Hk.
    { inv Hc; by eapply elim_known. }
    eapply (unvisited_iff c); eauto using rtc_refl.
  - intros Hno x Hk. destruct (decide (x ∈ visited)) as [|Hv]; [done|].
    exfalso. apply unvisited_iff in Hv as (c & Hc & _); [|done]. by apply (Hno c).
Qed.
End elimination.
