(* ===== verification/DagCycle.v ===== *)
(** * Cycle detection on the task graph

    [TaskGraph::cycle_nodes] (crates/jcode-plan/src/dag/mod.rs): Kahn's
    algorithm over hash maps, its termination, and its exact specification. *)

From S2P Require Import Prelude RustStr Confidence DagTypes Kahn.

(** ** The algorithm *)

(** The distinct dependencies of a node that are nodes of the graph. *)
Definition unique_deps (known : gset string) (n : TaskNode) : gset string :=
  filter (λ d, d ∈ known) (list_to_set (n_depends_on n)).

(** [indegree.entry(id).or_insert(0)]. *)
Definition or_insert_zero (m : gmap string nat) (id : string) : gmap string nat :=
  match m !! id with Some _ => m | None => <[id := 0]> m end.

(** [*indegree.entry(id).or_insert(0) += k]. *)
Definition entry_add (k : nat) (m : gmap string nat) (id : string) : gmap string nat :=
  <[id := default 0 (m !! id) + k]> m.

Definition known_ids (g : TaskGraph) : gset string := list_to_set (node_ids g).

Definition initial_indegree (g : TaskGraph) : gmap string nat :=
  foldl (λ m n, entry_add (size (unique_deps (known_ids g) n)) m (n_id n))
    (foldl (λ m n, or_insert_zero m (n_id n)) ∅ (g_nodes g)) (g_nodes g).

Definition zero_ids (m : gmap string nat) : list string :=
  omap (λ p, if decide (p.2 = 0) then Some p.1 else None) (map_to_list m).

(** The work list is a vector popped at its end; the model keeps it with its
    last element first. *)
Definition initial_queue (m : gmap string nat) : list string :=
  reverse (merge_sort String.le (zero_ids m)).

(** One pass over the nodes after [id] was removed. *)
Fixpoint relax (id : string) (nodes : list TaskNode)
  (queue : list string) (m : gmap string nat) : list string * gmap string nat :=
  match nodes with
  | [] => (queue, m)
  | n :: nodes =>
      if existsb (λ dep, bool_decide (dep = id)) (n_depends_on n) then
        match m !! n_id n with
        | Some deg =>
            let deg := deg - 1 in
            relax id nodes (if decide (deg = 0) then n_id n :: queue else queue)
              (<[n_id n := deg]> m)
        | None => relax id nodes queue m
        end
      else relax id nodes queue m
  end.

(** The loop; [None] when the fuel is exhausted. *)
Fixpoint kahn_loop (fuel : nat) (nodes : list TaskNode)
  (queue : list string) (visited : gset string) (m : gmap string nat)
  : option (gset string) :=
  match fuel with
  | O => None
  | S fuel =>
      match queue with
      | [] => Some visited
      | id :: queue =>
          if decide (id ∈ visited) then kahn_loop fuel nodes queue visited m
          else
            let '(queue, m) := relax id nodes queue m in
            kahn_loop fuel nodes queue ({[id]} ∪ visited) m
      end
  end.

(** Each node is visited at most once and each visit queues at most one entry
    per node. *)
Definition kahn_fuel (g : TaskGraph) (queue : list string) : nat :=
  S (size (known_ids g) * S (length (g_nodes g)) + length queue).

Definition kahn (g : TaskGraph) : option (gset string) :=
  let m := initial_indegree g in
  let queue := initial_queue m in
  kahn_loop (kahn_fuel g queue) (g_nodes g) queue ∅ m.

Definition cycle_nodes (g : TaskGraph) : list NodeId :=
  let visited := default ∅ (kahn g) in
  merge_sort String.le
    (List.filter (λ id, bool_decide (id ∉ visited)) (node_ids g)).

(** ** The dependency relation *)

(** [dep g d x]: node [x] lists [d] among its dependencies and both are nodes. *)
Definition dep (g : TaskGraph) (d x : string) : Prop :=
  ∃ n, get g x = Some n ∧ d ∈ n_depends_on n ∧ is_Some (get g d).

Definition acyclic (g : TaskGraph) : Prop := ∀ c, ¬ tc (dep g) c c.

Lemma elem_of_known g x : x ∈ known_ids g ↔ is_Some (get g x).
Proof. unfold known_ids. by rewrite elem_of_list_to_set, get_is_Some. Qed.

Lemma elem_of_unique_deps g n d :
  d ∈ unique_deps (known_ids g) n ↔ d ∈ n_depends_on n ∧ is_Some (get g d).
Proof.
  unfold unique_deps. rewrite elem_of_filter, elem_of_known, elem_of_list_to_set. tauto.
Qed.

(** ** Termination *)

Lemma length_relax id nodes queue m :
  length (relax id nodes queue m).1 ≤ length nodes + length queue.
Proof.
  revert queue m. induction nodes as [|n nodes IH]; intros queue m; simpl; [done|].
  destruct (existsb _ _); [|specialize (IH queue m); lia].
  destruct (m !! n_id n) as [deg|]; [|specialize (IH queue m); lia].
  case_decide; etrans; [apply IH| |apply IH|]; simpl; lia.
Qed.

Lemma relax_queue_known id nodes queue m x :
  x ∈ (relax id nodes queue m).1 → x ∈ queue ∨ x ∈ map n_id nodes.
Proof.
  revert queue m. induction nodes as [|n nodes IH]; intros queue m; simpl; [auto|].
  destruct (existsb _ _); [destruct (m !! n_id n) as [deg|]|].
  1: case_decide. all: intros [Hx|Hx]%IH; set_solver.
Qed.

Lemma kahn_loop_total g fuel queue visited m :
  visited ⊆ known_ids g →
  (∀ x, x ∈ queue → x ∈ known_ids g) →
  size (known_ids g ∖ visited) * S (length (g_nodes g)) + length queue < fuel →
  is_Some (kahn_loop fuel (g_nodes g) queue visited m).
Proof.
  revert queue visited m. induction fuel as [|fuel IH];
    intros queue visited m Hv Hq Hf; [lia|simpl].
  destruct queue as [|id queue]; [eauto|]. simpl in Hf.
  case_decide as Hid; [apply IH; [done|set_solver|lia]|].
  pose proof (length_relax id (g_nodes g) queue m) as Hlen.
  pose proof (relax_queue_known id (g_nodes g) queue m) as Hkn.
  destruct (relax _ _ _ _) as [queue' m']; simpl in *.
  assert (id ∈ known_ids g) as Hk by set_solver.
  apply IH.
  - set_solver.
  - intros x [?|Hx]%Hkn; [set_solver|].
    unfold known_ids. by apply elem_of_list_to_set.
  - assert (size (known_ids g ∖ visited)
            = S (size (known_ids g ∖ ({[id]} ∪ visited)))) as Hs; [|rewrite Hs in Hf; lia].
    assert (known_ids g ∖ visited
            = {[id]} ∪ (known_ids g ∖ ({[id]} ∪ visited))) as ->.
    { apply set_eq. intros x. destruct (decide (x = id)); set_solver. }
    rewrite size_union by set_solver. by rewrite size_singleton.
Qed.

(** ** Functional description of the two maps *)

Lemma foldl_or_insert_lookup (l : list TaskNode) m x :
  foldl (λ m n, or_insert_zero m (n_id n)) m l !! x =
    match m !! x with
    | Some k => Some k
    | None => if decide (x ∈ map n_id l) then Some 0 else None
    end.
Proof.
  revert m. induction l as [|n l IH]; intros m; simpl foldl.
  - by destruct (m !! x).
  - rewrite IH. unfold or_insert_zero. rewrite fmap_cons.
    destruct (m !! n_id n) eqn:Hn; [|destruct (decide (x = n_id n)) as [->|Hne]];
      rewrite ?lookup_insert_eq, ?lookup_insert_ne by done.
    + destruct (m !! x) eqn:Hx; [done|]. repeat case_decide; set_solver.
    + rewrite Hn. rewrite decide_True by set_solver. done.
    + destruct (m !! x); [done|]. repeat case_decide; set_solver.
Qed.

Lemma foldl_entry_add_lookup f (l : list TaskNode) m x k :
  NoDup (map n_id l) →
  m !! x = Some k →
  foldl (λ m n, entry_add (f n) m (n_id n)) m l !! x =
    match find (id_is x) l with
    | Some n => Some (k + f n)
    | None => Some k
    end.
Proof.
  revert m k. induction l as [|n l IH]; intros m k Hnd Hx; simpl; [done|].
  simpl in Hnd. apply NoDup_cons in Hnd as [Hn Hnd].
  destruct (id_is x n) eqn:E.
  - apply id_is_true in E as <-. erewrite IH; [|done|apply lookup_insert_eq].
    destruct (find _ l) as [n'|] eqn:Hf; [|by rewrite Hx].
    exfalso. apply find_Some_elem in Hf as [? ?%id_is_true].
    apply Hn, list_elem_of_fmap. eauto.
  - assert (n_id n ≠ x) by (intros ?%id_is_true; congruence).
    apply IH; [done|]. unfold entry_add. by rewrite lookup_insert_ne.
Qed.

Lemma foldl_entry_add_None f (l : list TaskNode) m x :
  x ∉ map n_id l →
  foldl (λ m n, entry_add (f n) m (n_id n)) m l !! x = m !! x.
Proof.
  revert m. induction l as [|n l IH]; intros m Hx; simpl; [done|].
  simpl in Hx. rewrite IH by set_solver. unfold entry_add.
  apply lookup_insert_ne. set_solver.
Qed.

Lemma initial_indegree_lookup g x :
  NoDup (node_ids g) →
  initial_indegree g !! x =
    (λ n, size (unique_deps (known_ids g) n)) <$> get g x.
Proof.
  intros Hnd. unfold initial_indegree.
  destruct (get g x) as [n|] eqn:Hx.
  - rewrite (foldl_entry_add_lookup _ _ _ _ 0); [|done|].
    + unfold get in Hx. by rewrite Hx.
    + rewrite foldl_or_insert_lookup, lookup_empty, decide_True; [done|].
      apply get_is_Some. eauto.
  - apply get_None in Hx. rewrite foldl_entry_add_None by done.
    rewrite foldl_or_insert_lookup, lookup_empty. by rewrite decide_False.
Qed.

Lemma elem_of_initial_queue m x : x ∈ initial_queue m ↔ m !! x = Some 0.
Proof.
  unfold initial_queue, zero_ids.
  rewrite elem_of_reverse, merge_sort_Permutation, list_elem_of_omap. split.
  - intros ([y k] & Hy & Hd). simpl in Hd. case_decide; simplify_eq.
    by apply elem_of_map_to_list.
  - intros Hx. exists (x, 0). split; [by apply elem_of_map_to_list|done].
Qed.

Lemma existsb_dep id n :
  existsb (λ dep, bool_decide (dep = id)) (n_depends_on n) = true ↔ id ∈ n_depends_on n.
Proof.
  rewrite existsb_elem. split.
  - intros (x & Hx & Hid). apply bool_decide_eq_true in Hid. by subst.
  - intros Hid. exists id. split; [done|]. by apply bool_decide_eq_true.
Qed.

(** The effect of one pass: the counter of every dependent of [id] drops by one
    and the dependents whose counter reaches zero are queued. *)
Lemma relax_spec id nodes queue m :
  NoDup (map n_id nodes) →
  (∀ x, (relax id nodes queue m).2 !! x =
     match find (id_is x) nodes with
     | Some n => if decide (id ∈ n_depends_on n) then pred <$> m !! x else m !! x
     | None => m !! x
     end) ∧
  (∀ x, x ∈ (relax id nodes queue m).1 ↔
     x ∈ queue ∨
     ∃ n k, find (id_is x) nodes = Some n ∧ id ∈ n_depends_on n ∧
            m !! x = Some k ∧ pred k = 0).
Proof.
  revert queue m. induction nodes as [|n nodes IH]; intros queue m Hnd; simpl.
  { split; [done|]. intros x. split; [auto|]. naive_solver. }
  simpl in Hnd. apply NoDup_cons in Hnd as [Hn Hnd].
  assert (find (id_is (n_id n)) nodes = None) as Hfn.
  { destruct (find _ _) eqn:E; [|done]. exfalso.
    apply find_Some_elem in E as [? ?%id_is_true]. apply Hn, list_elem_of_fmap. eauto. }
  destruct (existsb _ _) eqn:Hex.
  - apply existsb_dep in Hex. destruct (m !! n_id n) as [deg|] eqn:Hm.
    + destruct (IH (if decide (deg - 1 = 0) then n_id n :: queue else queue)
                  (<[n_id n := deg - 1]> m) Hnd) as [IH1 IH2].
      split; intros x.
      * rewrite IH1. destruct (id_is x n) eqn:E.
        -- apply id_is_true in E as <-. rewrite Hfn, lookup_insert_eq, decide_True, Hm by done.
           simpl. f_equal. lia.
        -- assert (n_id n ≠ x) by (intros ?%id_is_true; congruence).
           by rewrite lookup_insert_ne.
      * rewrite IH2. destruct (id_is x n) eqn:E.
        -- apply id_is_true in E as <-. rewrite Hfn. split.
           ++ intros [Hx|(?&?&?&_)]; [|done]. case_decide as Hd; [|auto].
              right. exists n, deg. repeat split; [done|done|lia].
           ++ intros [Hx|(n' & k & [= <-] & _ & Hk & Hp)]; left.
              ** case_decide; set_solver.
              ** simplify_eq. rewrite decide_True by lia. set_solver.
        -- assert (n_id n ≠ x) by (intros ?%id_is_true; congruence).
           rewrite lookup_insert_ne by done.
           case_decide; set_solver.
    + destruct (IH queue m Hnd) as [IH1 IH2]. split; intros x.
      * rewrite IH1. destruct (id_is x n) eqn:E; [|done].
        apply id_is_true in E as <-. by rewrite Hfn, decide_True, Hm.
      * rewrite IH2. destruct (id_is x n) eqn:E; [|done].
        apply id_is_true in E as <-. rewrite Hfn. naive_solver congruence.
  - assert (id ∉ n_depends_on n) as Hex' by (intros ?%existsb_dep; congruence).
    destruct (IH queue m Hnd) as [IH1 IH2]. split; intros x.
    + rewrite IH1. destruct (id_is x n) eqn:E; [|done].
      apply id_is_true in E as <-. by rewrite Hfn, decide_False.
    + rewrite IH2. destruct (id_is x n) eqn:E; [|done].
      apply id_is_true in E as <-. rewrite Hfn. naive_solver.
Qed.

(** ** The loop invariant *)

Record kahn_inv (g : TaskGraph) (queue : list string) (visited : gset string)
  (m : gmap string nat) : Prop := {
  inv_deg : ∀ x n, get g x = Some n →
    m !! x = Some (size (unique_deps (known_ids g) n ∖ visited));
  inv_queue : ∀ x, x ∈ queue →
    ∃ n, get g x = Some n ∧ unique_deps (known_ids g) n ⊆ visited;
  inv_closed : ∀ x n, get g x = Some n → unique_deps (known_ids g) n ⊆ visited →
    x ∈ visited ∨ x ∈ queue;
  inv_known : visited ⊆ known_ids g;
  inv_acc : ∀ x, x ∈ visited → Acc (dep g) x;
}.

Lemma kahn_inv_init g :
  NoDup (node_ids g) →
  kahn_inv g (initial_queue (initial_indegree g)) ∅ (initial_indegree g).
Proof.
  intros Hnd. split.
  - intros x n Hx. rewrite initial_indegree_lookup, Hx by done. simpl.
    by rewrite difference_empty_L.
  - intros x Hx%elem_of_initial_queue. rewrite initial_indegree_lookup in Hx by done.
    apply fmap_Some in Hx as (n & Hn & Hs). exists n. split; [done|].
    symmetry in Hs. apply size_empty_inv in Hs. set_solver.
  - intros x n Hx Hsub. right. apply elem_of_initial_queue.
    rewrite initial_indegree_lookup, Hx by done. simpl. f_equal.
    apply size_empty_iff. set_solver.
  - set_solver.
  - set_solver.
Qed.

Lemma size_diff_step (X V : gset string) id :
  id ∈ X → id ∉ V → size (X ∖ V) = S (size (X ∖ ({[id]} ∪ V))).
Proof.
  intros HX HV.
  assert (X ∖ V = {[id]} ∪ (X ∖ ({[id]} ∪ V))) as ->.
  { apply set_eq. intros x. destruct (decide (x = id)); set_solver. }
  rewrite size_union by set_solver. by rewrite size_singleton.
Qed.

Lemma kahn_inv_skip g id queue visited m :
  id ∈ visited → kahn_inv g (id :: queue) visited m → kahn_inv g queue visited m.
Proof.
  intros Hid [H1 H2 H3 H4 H5]. split; [done|set_solver| |done|done].
  intros x n Hx Hsub. destruct (H3 x n Hx Hsub) as [?|[->|?]%elem_of_cons]; auto.
Qed.

Lemma unique_deps_subseteq g n V id :
  unique_deps (known_ids g) n ⊆ {[id]} ∪ V → id ∉ n_depends_on n →
  unique_deps (known_ids g) n ⊆ V.
Proof.
  intros Hsub Hid d Hd. specialize (Hsub d Hd). apply elem_of_union in Hsub as [->%elem_of_singleton|?]; [|done].
  by apply elem_of_unique_deps in Hd as [? _].
Qed.

Lemma kahn_inv_visit g id queue visited m :
  NoDup (node_ids g) → id ∉ visited →
  kahn_inv g (id :: queue) visited m →
  kahn_inv g (relax id (g_nodes g) queue m).1 ({[id]} ∪ visited)
    (relax id (g_nodes g) queue m).2.
Proof.
  intros Hnd Hid [H1 H2 H3 H4 H5].
  destruct (relax_spec id (g_nodes g) queue m Hnd) as [Hm Hq].
  destruct (H2 id) as (nid & Hget & Hdeps); [by left|].
  assert (id ∈ known_ids g) as Hk by (apply elem_of_known; eauto).
  assert (∀ x n, get g x = Some n →
    (relax id (g_nodes g) queue m).2 !! x
      = Some (size (unique_deps (known_ids g) n ∖ ({[id]} ∪ visited)))) as Hdeg.
  { intros x n Hx. rewrite Hm. unfold get in Hx. rewrite Hx. rewrite (H1 x n) by done.
    case_decide as Hd; simpl; f_equal.
    - rewrite (size_diff_step _ visited id); [done| |done].
      apply elem_of_unique_deps. eauto.
    - f_equal. apply set_eq. intros y. rewrite !elem_of_difference.
      destruct (decide (y = id)) as [->|]; [|set_solver].
      rewrite elem_of_unique_deps. set_solver. }
  split.
  - done.
  - intros x [Hx|(n & k & Hn & Hd & Hk' & Hp)]%Hq.
    + destruct (H2 x) as (n & ? & Hn); [by right|]. exists n. split; [done|]. clear -Hn. set_solver.
    + exists n. split; [done|]. rewrite (H1 x n Hn) in Hk'. injection Hk' as <-.
      rewrite (size_diff_step _ visited id) in Hp;
        [|apply elem_of_unique_deps; rewrite <- elem_of_known; eauto|done].
      simpl in Hp. apply size_empty_inv in Hp. by apply empty_difference_subseteq.
  - intros x n Hx Hsub. rewrite Hq, elem_of_union, elem_of_singleton.
    destruct (decide (x = id)); [auto|].
    destruct (decide (id ∈ n_depends_on n)) as [Hd|Hd].
    + right; right. exists n, (size (unique_deps (known_ids g) n ∖ visited)).
      split; [done|]. split; [done|]. split; [by apply H1|].
      rewrite (size_diff_step _ visited id);
        [|apply elem_of_unique_deps; rewrite <- elem_of_known; eauto|done].
      simpl. apply size_empty_iff. set_solver.
    + destruct (H3 x n Hx) as [?|[?|?]%elem_of_cons]; [by eapply unique_deps_subseteq|auto|done|auto].
  - clear -H4 Hk. set_solver.
  - intros x [->%elem_of_singleton|Hx]%elem_of_union; [|auto].
    constructor. intros d (n & Hn & Hd & Hdk). simplify_eq.
    apply H5, Hdeps, elem_of_unique_deps. eauto.
Qed.

Lemma kahn_loop_inv g fuel queue visited m v :
  NoDup (node_ids g) →
  kahn_inv g queue visited m →
  kahn_loop fuel (g_nodes g) queue visited m = Some v →
  ∃ m', kahn_inv g [] v m'.
Proof.
  intros Hnd. revert queue visited m. induction fuel as [|fuel IH];
    intros queue visited m Hinv Hrun; simpl in Hrun; [done|].
  destruct queue as [|id queue]; [naive_solver|]. case_decide as Hid.
  - eapply IH; [|done]. by eapply kahn_inv_skip.
  - eapply kahn_inv_visit in Hinv; [|done|done].
    destruct (relax _ _ _ _) as [queue' m']. eauto.
Qed.

Lemma kahn_total g : NoDup (node_ids g) → is_Some (kahn g).
Proof.
  intros Hnd. apply (kahn_loop_total g).
  - set_solver.
  - intros x Hx%elem_of_initial_queue. rewrite initial_indegree_lookup in Hx by done.
    apply elem_of_known. destruct (get g x); [eauto|done].
  - rewrite difference_empty_L. unfold kahn_fuel. lia.
Qed.

(** The traversal fulfils the interface of [Kahn]. *)
Lemma kahn_elimination g v :
  NoDup (node_ids g) → kahn g = Some v → Elimination (dep g) (known_ids g) v.
Proof.
  intros Hnd Hrun.
  destruct (kahn_loop_inv _ _ _ _ _ _ Hnd (kahn_inv_init g Hnd) Hrun) as (m & Hinv).
  destruct Hinv as [_ _ H3 H4 H5]. split; auto.
  - intros d y (n & _ & _ & Hd). by apply elem_of_known.
  - intros y [n Hn]%elem_of_known Hv.
    destruct (decide (unique_deps (known_ids g) n ⊆ v)) as [Hsub|Hsub].
    { destruct (H3 y n Hn Hsub) as [?|?%elem_of_nil]; done. }
    assert (∃ d, d ∈ unique_deps (known_ids g) n ∖ v) as (d & [Hd Hdv]%elem_of_difference).
    { apply set_choose_L. intros Hempty. apply Hsub, empty_difference_subseteq. by rewrite Hempty. }
    apply elem_of_unique_deps in Hd as [? ?]. exists d. split; [|done]. by exists n.
Qed.

Lemma kahn_unvisited g v x :
  NoDup (node_ids g) → kahn g = Some v → is_Some (get g x) →
  x ∉ v ↔ ∃ c, tc (dep g) c c ∧ rtc (dep g) c x.
Proof.
  intros Hnd Hrun Hx. pose proof (kahn_elimination g v Hnd Hrun).
  apply (unvisited_iff (dep g) (known_ids g) v). by apply elem_of_known.
Qed.

Lemma elem_of_cycle_nodes g x :
  NoDup (node_ids g) →
  x ∈ cycle_nodes g ↔
    is_Some (get g x) ∧ ∃ c, tc (dep g) c c ∧ rtc (dep g) c x.
Proof.
  intros Hnd. unfold cycle_nodes. destruct (kahn_total g Hnd) as [v Hv]. rewrite Hv. simpl.
  rewrite merge_sort_Permutation, list_elem_of_In, filter_In, bool_decide_eq_true, <- list_elem_of_In.
  rewrite <- get_is_Some. split.
  - intros [Hx Hxv]. split; [done|]. by apply (kahn_unvisited g v x).
  - intros [Hx Hc]. split; [done|]. by apply (kahn_unvisited g v x).
Qed.

Lemma tc_dep_known g x y : tc (dep g) x y → is_Some (get g x) ∧ is_Some (get g y).
Proof.
  induction 1 as [x y (n & ? & ? & ?)|x y z (n & ? & ? & ?) _ [_ ?]]; eauto.
Qed.

Lemma cycle_nodes_nil g :
  NoDup (node_ids g) → cycle_nodes g = [] ↔ acyclic g.
Proof.
  intros Hnd. split.
  - intros Hnil c Hc.
    assert (c ∈ cycle_nodes g) as Hin.
    { apply elem_of_cycle_nodes; [done|]. split; [by apply (tc_dep_known _ _ _ Hc)|].
      eauto using rtc_refl. }
    rewrite Hnil in Hin. by apply elem_of_nil in Hin.
  - intros Hac. destruct (cycle_nodes g) as [|x l] eqn:E; [done|].
    assert (x ∈ cycle_nodes g) as Hin by (rewrite E; left).
    apply elem_of_cycle_nodes in Hin as (_ & c & Hc & _); [|done]. by apply Hac in Hc.
Qed.
