(* ===== verification/DagOps.v ===== *)
(** * Scheduler and validated mutations of the task graph

    Definitions for crates/jcode-plan/src/dag/schedule.rs and
    crates/jcode-plan/src/dag/ops.rs.  A mutation takes the graph and returns
    either the new graph (with the operation's own result) or the error; on an
    error the caller keeps the old graph, as in the code, where every mutation is
    staged on a clone or happens after the last check. *)

From S2P Require Import Prelude RustStr Confidence DagTypes DagCycle.

(** ** schedule.rs *)

Definition LIGHT_MODE_SUGGESTED_WORKERS : nat := 16.

Definition deps_satisfied (g : TaskGraph) (n : TaskNode) : bool :=
  forallb (λ d, match get g d with Some m => is_done m | None => false end)
    (n_depends_on n).

(** [a.priority.cmp(&b.priority).then_with(|| a.id.cmp(&b.id))]. *)
Definition schedule_le (a b : TaskNode) : Prop :=
  (n_priority a < n_priority b)%N ∨
  (n_priority a = n_priority b ∧ String.le (n_id a) (n_id b)).

#[export] Instance schedule_le_dec a b : Decision (schedule_le a b).
Proof. unfold schedule_le. apply _. Defined.

Definition is_ready (g : TaskGraph) (n : TaskNode) : bool :=
  bool_decide (n_status n = Queued) && deps_satisfied g n.

Definition ready_nodes (g : TaskGraph) : list TaskNode :=
  merge_sort schedule_le (List.filter (is_ready g) (g_nodes g)).

Definition start_node (worker : string) (n : TaskNode) : TaskNode :=
  set_status Running (set_owner (Some worker) n).

Definition dispatch (g : TaskGraph) (node_id worker : string) : bool * TaskGraph :=
  let dispatchable :=
    match get g node_id with Some n => is_ready g n | None => false end in
  if negb dispatchable then (false, g)
  else (true, modify g node_id (start_node worker)).

Definition kind_label (k : NodeKind) : string :=
  match k with
  | Explore => "explore" | Implement => "implement" | Verify => "verify"
  | Fix => "fix" | Synthesize => "synthesize" | Critique => "critique"
  end.

Definition upstream (g : TaskGraph) (n : TaskNode) : list TaskNode :=
  List.filter is_done (omap (get g) (n_depends_on n)).

Definition render_dependency (dep : TaskNode) : string :=
  nl +:+
  match n_output dep with
  | Some artifact => render_section artifact (n_id dep) (kind_label (n_kind dep))
  | None => "## " +:+ n_id dep +:+ " (" +:+ kind_label (n_kind dep) +:+ ")" +:+ nl
  end.

Definition assemble_input (g : TaskGraph) (node_id : string) : string :=
  match get g node_id with
  | None => ""
  | Some n =>
      match upstream g n with
      | [] => n_content n
      | up => n_content n +:+ nl +:+ nl +:+ "# Inputs from completed dependencies" +:+ nl
              +:+ foldr (λ d rest, render_dependency d +:+ rest) "" up
      end
  end.

(** ** ops.rs: helpers *)

Definition validated_spec_id (spec : NodeSpec) (op : string) : result NodeId DagError :=
  match s_id spec with
  | None => Err (GateMisuse (op +:+ " specs must carry explicit ids"))
  | Some id =>
      fail_if is_blank id with GateMisuse (op +:+ " specs must carry non-empty ids") ;;
      Ok id
  end.

Definition spec_to_node (spec : NodeSpec) (parent : option string) (origin : NodeOrigin)
  : TaskNode := {|
  n_id := default "" (s_id spec);
  n_content := s_content spec;
  n_kind := s_kind spec;
  n_status := Queued;
  n_owner := None;
  n_parent := parent;
  n_depends_on := dedup (s_depends_on spec);
  n_expanded := false;
  n_is_gate := false;
  n_planner := None;
  n_priority := s_priority spec;
  n_output := None;
  n_origin := Some origin |}.

(** Search for a free suffix: [base2], [base3], ...; one of the first
    [length nodes + 1] candidates is free. *)
Fixpoint free_suffix (g : TaskGraph) (base : string) (fuel : nat) (n : N) : string :=
  let candidate := base +:+ pretty n in
  match fuel with
  | O => candidate
  | S fuel => if contains g candidate then free_suffix g base fuel (n + 1) else candidate
  end.

Definition unique_gate_id (g : TaskGraph) (node_id : string) : string :=
  let base := node_id +:+ "::gate" in
  if negb (contains g base) then base
  else free_suffix g base (length (g_nodes g)) 2.

Definition is_id_char (c : chr) : bool :=
  is_ascii_alphanumeric c || Ascii.eqb c "-"%char || Ascii.eqb c "_"%char
  || Ascii.eqb c "."%char || Ascii.eqb c ":"%char.

(** The character after an occurrence does not continue the id. *)
Definition after_ok (rest : string) : bool :=
  match rest with
  | EmptyString => true
  | String c rest =>
      if Ascii.eqb c "."%char || Ascii.eqb c ":"%char then
        match rest with
        | EmptyString => true
        | String d _ => negb (is_id_char d)
        end
      else negb (is_id_char c)
  end.

(** Occurrences of [id] are tried from left to right; [before_ok] tells whether
    the character before the current position is a boundary. *)
Fixpoint mentions_from (id : string) (before_ok : bool) (text : string) : bool :=
  match strip_prefix id text with
  | Some rest => before_ok && after_ok rest
  | None => false
  end ||
  match text with
  | EmptyString => false
  | String c text => mentions_from id (negb (is_id_char c)) text
  end.

Definition mentions_node_id (text id : string) : bool :=
  if is_empty id then false else mentions_from id true text.

Definition gate_content (kind : NodeKind) (parent : string) : string :=
  match kind with
  | Verify =>
      "Verify the work of '" +:+ parent +:+ "': run the declared acceptance checks (build, tests, lint). If anything fails, emit fix nodes back into the graph; do not pass until they drain."
  | _ =>
      "Critique the work of '" +:+ parent +:+ "' adversarially. Read every child's 'what_i_did_not_check' and find unexplored gaps given this task's stated scope. For each gap, emit a new child node; do not pass until no gaps remain."
  end.

Definition root_gate_content (kind : NodeKind) : string :=
  match kind with
  | Verify =>
      "Final plan-wide verify: run the acceptance checks for the whole plan's declared scope (build, tests, lint) across everything the plan changed. If anything fails, inject fix nodes; the plan cannot finish until they drain."
  | _ =>
      "Final plan-wide critique: audit the ENTIRE plan adversarially before it may finish. Read every completed node's artifact, especially each 'what_i_did_not_check' and every open question, and hunt for whole facets the plan never covered. For each gap, inject a new node; the plan cannot finish until they drain."
  end.

(** [HashSet] equality of two dependency lists. *)
Definition dependency_sets_equal (left right : list string) : bool :=
  bool_decide (list_to_set left =@{gset string} list_to_set right).

Definition seed_specs_equivalent (left right : NodeSpec) : bool :=
  bool_decide (s_id left = s_id right)
  && bool_decide (s_content left = s_content right)
  && bool_decide (s_kind left = s_kind right)
  && bool_decide (s_priority left = s_priority right)
  && dependency_sets_equal (s_depends_on left) (s_depends_on right).

Definition seed_spec_matches_existing (g : TaskGraph) (n : TaskNode) (spec : NodeSpec)
  : bool :=
  if bool_decide (n_parent n ≠ None)
     || n_is_gate n
     || negb (match n_origin n with None | Some OSeed => true | _ => false end)
     || bool_decide (n_content n ≠ s_content spec)
     || bool_decide (n_kind n ≠ s_kind spec)
     || bool_decide (n_priority n ≠ s_priority spec)
  then false
  else
    let declared :=
      List.filter
        (λ d, match get g d with
              | None => true
              | Some candidate => bool_decide (n_parent candidate ≠ Some (n_id n))
              end) (n_depends_on n) in
    dependency_sets_equal declared (s_depends_on spec).

(** ** ops.rs: the root gate *)

Definition is_root_work (n : TaskNode) : bool :=
  bool_decide (n_parent n = None) && negb (n_is_gate n).

Definition is_root_gate (n : TaskNode) : bool :=
  n_is_gate n && bool_decide (n_parent n = None).

Definition root_ids (g : TaskGraph) : list NodeId :=
  map n_id (List.filter is_root_work (g_nodes g)).

(** Extend the gate to new root nodes; new work re-opens a closed audit. *)
Definition widen_gate (ids : list NodeId) (gate : TaskNode) : TaskNode :=
  let widened := existsb (λ id, negb (mem id (n_depends_on gate))) ids in
  let gate := set_depends_on (push_all_new (n_depends_on gate) ids) gate in
  if widened && is_terminal gate then set_owner None (set_status Queued gate) else gate.

Definition new_gate (id content : string) (kind : NodeKind) (parent : option NodeId)
  (deps : list NodeId) : TaskNode := {|
  n_id := id; n_content := content; n_kind := kind; n_status := Queued;
  n_owner := None; n_parent := parent; n_depends_on := deps; n_expanded := false;
  n_is_gate := true; n_planner := None; n_priority := 0; n_output := None;
  n_origin := Some OGate |}.

Definition ensure_root_gate (g : TaskGraph) : TaskGraph :=
  match root_ids g with
  | [] => g
  | ids =>
      match find is_root_gate (g_nodes g) with
      | Some gate => modify g (n_id gate) (widen_gate ids)
      | None =>
          let all_code :=
            forallb (λ n, match n_kind n with Implement | Fix => true | _ => false end)
              (List.filter is_root_work (g_nodes g)) in
          let kind := if all_code then Verify else Critique in
          push g (new_gate (unique_gate_id g "plan") (root_gate_content kind) kind None ids)
      end
  end.

(** ** ops.rs: seed *)

(** Validation of the ids; exact replays within the batch collapse. *)
Fixpoint collect_seed (specs unique : list NodeSpec) (indexes : gmap string nat)
  : result (list NodeSpec * gmap string nat) DagError :=
  match specs with
  | [] => Ok (unique, indexes)
  | spec :: specs =>
      let? id := validated_spec_id spec "seed" in
      match indexes !! id with
      | Some existing_index =>
          match unique !! existing_index with
          | Some existing =>
              fail_if negb (seed_specs_equivalent existing spec) with DuplicateNode id ;;
              collect_seed specs unique indexes
          | None => Err (DuplicateNode id)
          end
      | None => collect_seed specs (unique ++ [spec]) (<[id := length unique]> indexes)
      end
  end.

(** The first dependency that is neither in the batch nor in the graph. *)
Definition unknown_dep (g : TaskGraph) (known : gset string) (deps : list string)
  : option string :=
  find (λ d, negb (bool_decide (d ∈ known)) && negb (contains g d)) deps.

Fixpoint check_deps (g : TaskGraph) (known : gset string) (specs : list NodeSpec)
  : result unit DagError :=
  match specs with
  | [] => Ok tt
  | spec :: specs =>
      match unknown_dep g known (s_depends_on spec) with
      | Some d => Err (UnknownDependency (default "" (s_id spec)) d)
      | None => check_deps g known specs
      end
  end.

Fixpoint stage_seed (g staged : TaskGraph) (specs : list NodeSpec)
  : result TaskGraph DagError :=
  match specs with
  | [] => Ok staged
  | spec :: specs =>
      let id := default "" (s_id spec) in
      match get g id with
      | Some existing =>
          fail_if negb (seed_spec_matches_existing g existing spec) with DuplicateNode id ;;
          stage_seed g staged specs
      | None => stage_seed g (push staged (spec_to_node spec None OSeed)) specs
      end
  end.

Definition commit_acyclic (staged : TaskGraph) : result TaskGraph DagError :=
  match cycle_nodes staged with
  | [] => Ok staged
  | cycle => Err (WouldCreateCycle cycle)
  end.

Definition seed (g : TaskGraph) (specs : list NodeSpec) : result TaskGraph DagError :=
  let? (unique_specs, indexes) := collect_seed specs [] ∅ in
  let? _ := check_deps g (dom indexes) unique_specs in
  let? staged := stage_seed g g unique_specs in
  let staged := if requires_gates (g_mode staged) then ensure_root_gate staged else staged in
  commit_acyclic staged.

(** ** ops.rs: expand *)

Record ExpandOutcome := {
  child_ids : list string;
  gate_id : option string;
}.

(** Ids of a batch: explicit, non-blank, new to the graph and to the batch. *)
Fixpoint collect_ids (op : string) (g : TaskGraph) (specs : list NodeSpec)
  (seen : gset string) : result (list string) DagError :=
  match specs with
  | [] => Ok []
  | spec :: specs =>
      let? id := validated_spec_id spec op in
      fail_if contains g id || bool_decide (id ∈ seen) with DuplicateNode id ;;
      let? ids := collect_ids op g specs ({[id]} ∪ seen) in
      Ok (id :: ids)
  end.

Definition push_specs (g : TaskGraph) (specs : list NodeSpec) (parent : option string)
  (origin : NodeOrigin) : TaskGraph :=
  foldl (λ g spec, push g (spec_to_node spec parent origin)) g specs.

(** The expanded node becomes a join: queued again, waiting for [synth_deps]. *)
Definition make_composite (synth_deps : list string) (n : TaskNode) : TaskNode :=
  let n := set_status Queued (set_expanded true n) in
  let n := match n_planner n with None => set_planner (n_owner n) n | Some _ => n end in
  let n := set_owner None n in
  set_depends_on (push_all_new (n_depends_on n) synth_deps) n.

Definition expand_node (g : TaskGraph) (node_id actor : string) (children : list NodeSpec)
  : result (TaskGraph * ExpandOutcome) DagError :=
  match get g node_id with
  | None => Err (UnknownNode node_id)
  | Some n =>
      fail_if bool_decide (n_owner n ≠ Some actor) with NotOwner node_id actor ;;
      fail_if n_is_gate n with
        GateMisuse ("gate node '" +:+ node_id +:+ "' cannot be decomposed") ;;
      fail_if n_expanded n || bool_decide (n_status n ≠ Running) with
        InvalidState node_id (n_status n) ;;
      fail_if match children with [] => true | _ => false end with
        GateMisuse "expand requires at least one child" ;;
      let? ids := collect_ids "expand" g children ∅ in
      let? _ := check_deps g (list_to_set ids) children in
      let staged := push_specs g children (Some node_id) OExpand in
      let '(staged, synth_deps, gate) :=
        if requires_gates (g_mode staged) then
          let parent_kind :=
            match get staged node_id with Some n => n_kind n | None => Explore end in
          let kind := gate_kind parent_kind in
          let id := unique_gate_id staged node_id in
          (push staged (new_gate id (gate_content kind node_id) kind (Some node_id) ids),
           ids ++ [id], Some id)
        else (staged, ids, None) in
      let staged := modify staged node_id (make_composite synth_deps) in
      let? staged := commit_acyclic staged in
      Ok (staged, {| child_ids := ids; gate_id := gate |})
  end.

(** ** ops.rs: completion *)

Definition validate_artifact (mode : Mode) (node_id : string) (is_gate : bool)
  (artifact : HandoffArtifact) : result unit DagError :=
  if negb (requires_gates mode) then Ok tt
  else if is_gate then Ok tt
  else
    fail_if is_blank (a_findings artifact) with
      ThinArtifact node_id "deep-mode artifact requires non-empty findings" ;;
    fail_if match a_what_i_did_not_check artifact with [] => true | _ => false end with
      ThinArtifact node_id "deep-mode artifact must list 'what_i_did_not_check' (use an explicit 'nothing, fully covered' entry only when truly exhaustive)" ;;
    match confidence_level artifact with
    | None => Err (ThinArtifact node_id "deep-mode artifact must state a confidence of low, medium, or high (honest 'low' is welcome: it routes follow-up work instead of penalizing you)")
    | Some _ => Ok tt
    end.

Definition GATE_COVERAGE_ENUMERATION_CAP : nat := 20.

Definition gate_audit_scope (g : TaskGraph) (gate : TaskNode) : list TaskNode :=
  List.filter (λ n, negb (n_is_gate n)) (omap (get g) (n_depends_on gate)).

Definition addressed (artifact : HandoffArtifact) (id : string) : bool :=
  mentions_node_id (a_findings artifact) id
  || existsb (λ q, mentions_node_id q id) (a_open_questions artifact).

Definition unaddressed (artifact : HandoffArtifact) (scope : list TaskNode) : list NodeId :=
  map n_id (List.filter (λ n, negb (addressed artifact (n_id n))) scope).

Definition validate_gate_pass (g : TaskGraph) (gate_id : string)
  (artifact : HandoffArtifact) : result unit DagError :=
  match get g gate_id with
  | None => Ok tt
  | Some gate =>
      match gate_audit_scope g gate with
      | [] => Ok tt
      | scope =>
          let pending := map n_id (List.filter (λ n, negb (is_done n)) scope) in
          fail_if match pending with [] => false | _ => true end with
            StaleGateScope gate_id pending ;;
          let confidence_debts := unaddressed artifact
            (List.filter (λ n, bool_decide (output_confidence n = Some Low)) scope) in
          fail_if match confidence_debts with [] => false | _ => true end with
            UnaddressedLowConfidence gate_id confidence_debts ;;
          let audited :=
            if decide (length scope ≤ GATE_COVERAGE_ENUMERATION_CAP) then scope
            else List.filter (λ n, bool_decide (output_confidence n ≠ Some High)) scope in
          let uncovered := unaddressed artifact audited in
          fail_if match uncovered with [] => false | _ => true end with
            UncoveredSiblings gate_id uncovered ;;
          Ok tt
      end
  end.

Definition finish_node (artifact : HandoffArtifact) (n : TaskNode) : TaskNode :=
  set_output (Some artifact) (set_status Done n).

Definition complete_node (g : TaskGraph) (node_id actor : string)
  (artifact : HandoffArtifact) : result TaskGraph DagError :=
  match get g node_id with
  | None => Err (UnknownNode node_id)
  | Some n =>
      fail_if bool_decide (n_owner n ≠ Some actor) with NotOwner node_id actor ;;
      fail_if bool_decide (n_status n ≠ Running) with InvalidState node_id (n_status n) ;;
      let? _ := validate_artifact (g_mode g) node_id (n_is_gate n) artifact in
      let? _ := if n_is_gate n && requires_gates (g_mode g)
                then validate_gate_pass g node_id artifact else Ok tt in
      Ok (modify g node_id (finish_node artifact))
  end.

Definition fail_node (g : TaskGraph) (node_id actor : string) : result TaskGraph DagError :=
  match get g node_id with
  | None => Err (UnknownNode node_id)
  | Some n =>
      fail_if bool_decide (n_owner n ≠ Some actor) with NotOwner node_id actor ;;
      fail_if bool_decide (n_status n ≠ Running) with InvalidState node_id (n_status n) ;;
      Ok (modify g node_id (set_status Failed))
  end.

(** ** ops.rs: gaps and retries *)

Definition requeue_gate (new_ids : list string) (gate : TaskNode) : TaskNode :=
  let gate := set_owner None (set_status Queued gate) in
  set_depends_on (push_all_new (n_depends_on gate) new_ids) gate.

Definition add_deps (new_ids : list string) (n : TaskNode) : TaskNode :=
  set_depends_on (push_all_new (n_depends_on n) new_ids) n.

Definition inject_from_gate (g : TaskGraph) (gate_id actor : string)
  (new_nodes : list NodeSpec) : result (TaskGraph * list string) DagError :=
  match get g gate_id with
  | None => Err (UnknownNode gate_id)
  | Some gate =>
      fail_if bool_decide (n_owner gate ≠ Some actor) with NotOwner gate_id actor ;;
      fail_if negb (n_is_gate gate) with
        GateMisuse ("node '" +:+ gate_id +:+ "' is not a gate; use expand_node to decompose work") ;;
      fail_if bool_decide (n_status gate ≠ Running) with
        InvalidState gate_id (n_status gate) ;;
      fail_if match new_nodes with [] => true | _ => false end with
        GateMisuse "inject_from_gate requires at least one new node" ;;
      let parent := n_parent gate in
      let? new_ids := collect_ids "inject_from_gate" g new_nodes ∅ in
      let? _ := check_deps g (list_to_set new_ids) new_nodes in
      let staged := push_specs g new_nodes parent OGap in
      let staged := modify staged gate_id (requeue_gate new_ids) in
      let staged :=
        match parent with
        | Some parent_id => modify staged parent_id (add_deps new_ids)
        | None => staged
        end in
      let? staged := commit_acyclic staged in
      Ok (staged, new_ids)
  end.

Definition requeue_node (n : TaskNode) : TaskNode := set_owner None (set_status Queued n).

Definition requeue_failed (g : TaskGraph) (node_id : string) : result TaskGraph DagError :=
  match get g node_id with
  | None => Err (UnknownNode node_id)
  | Some n =>
      fail_if bool_decide (n_status n ≠ Failed) with InvalidState node_id (n_status n) ;;
      Ok (modify g node_id requeue_node)
  end.

(** ** The scheduling order *)

#[export] Instance schedule_le_total : Total schedule_le.
Proof. exact (rank_le_total n_priority n_id). Qed.

#[export] Instance schedule_le_trans : Transitive schedule_le.
Proof. exact (rank_le_trans n_priority n_id). Qed.
