(* ===== verification/DagInv.v ===== *)
(** * Well-formed task graphs

    The invariant every validated mutation preserves (unique ids, edges that only
    reference existing nodes, no cycle), stated over the transition relation of
    the engine, together with the inversion lemmas that describe a successful
    mutation. *)

From S2P Require Import Prelude RustStr Confidence DagTypes Kahn DagCycle DagOps.

(** ** Small facts about the helpers *)

Lemma get_modify_eq g id f :
  (∀ n, n_id (f n) = n_id n) → get (modify g id f) id = f <$> get g id.
Proof. intros Hf. rewrite get_modify by done. by rewrite decide_True. Qed.

Lemma get_modify_ne g id f x :
  (∀ n, n_id (f n) = n_id n) → x ≠ id → get (modify g id f) x = get g x.
Proof. intros Hf Hne. rewrite get_modify by done. by rewrite decide_False. Qed.

Definition spec_ids (specs : list NodeSpec) : list string :=
  map (λ s, default "" (s_id s)) specs.

Lemma validated_spec_id_ok spec op id :
  validated_spec_id spec op = Ok id → s_id spec = Some id ∧ is_blank id = false.
Proof.
  unfold validated_spec_id. destruct (s_id spec) as [i|]; [|done].
  destruct (is_blank i) eqn:E; naive_solver.
Qed.

Lemma collect_ids_ok op g specs seen ids :
  collect_ids op g specs seen = Ok ids →
  ids = spec_ids specs ∧ NoDup ids ∧
  (∀ id, id ∈ ids → get g id = None ∧ id ∉ seen).
Proof.
  revert seen ids. induction specs as [|spec specs IH]; intros seen ids H; simpl in H.
  { simplify_eq. split; [done|]. split; [apply NoDup_nil_2|].
    intros id Hid. by apply elem_of_nil in Hid. }
  destruct (validated_spec_id spec op) as [id|] eqn:Hv; [|done].
  destruct (contains g id || bool_decide (id ∈ seen)) eqn:Hc; [done|].
  apply orb_false_iff in Hc as [Hc%contains_false Hs%bool_decide_eq_false].
  destruct (collect_ids op g specs ({[id]} ∪ seen)) as [ids'|] eqn:Hr; [|done].
  simplify_eq. destruct (IH _ _ Hr) as (-> & Hnd & Hids).
  apply validated_spec_id_ok in Hv as [Hid _].
  split; [by simpl; rewrite Hid|]. split.
  - apply NoDup_cons. split; [|done]. intros Hin. apply Hids in Hin as [_ Hin]. set_solver.
  - intros x [->|Hx]%elem_of_cons; [done|]. apply Hids in Hx as [? ?]. set_solver.
Qed.

Lemma check_deps_ok g known specs spec d :
  check_deps g known specs = Ok tt → spec ∈ specs → d ∈ s_depends_on spec →
  d ∈ known ∨ is_Some (get g d).
Proof.
  induction specs as [|s specs IH]; intros H Hs Hd; [by apply elem_of_nil in Hs|].
  simpl in H. destruct (unknown_dep g known (s_depends_on s)) eqn:Hu; [done|].
  apply elem_of_cons in Hs as [->|Hs]; [|auto].
  unfold unknown_dep in Hu. eapply find_None_elem in Hu; [|exact Hd].
  apply andb_false_iff in Hu as [Hu|Hu]; apply negb_false_iff in Hu.
  - left. by apply bool_decide_eq_true in Hu.
  - right. by apply contains_spec.
Qed.

Lemma g_nodes_push_specs g specs parent origin :
  g_nodes (push_specs g specs parent origin)
  = g_nodes g ++ map (λ s, spec_to_node s parent origin) specs.
Proof.
  unfold push_specs. revert g. induction specs as [|s specs IH]; intros g; simpl.
  - by rewrite app_nil_r.
  - rewrite IH. simpl. by rewrite <- app_assoc.
Qed.

Lemma node_ids_push_specs g specs parent origin :
  node_ids (push_specs g specs parent origin) = node_ids g ++ spec_ids specs.
Proof.
  unfold node_ids, spec_ids. rewrite g_nodes_push_specs, map_app, map_map. done.
Qed.

Lemma g_mode_push_specs g specs parent origin :
  g_mode (push_specs g specs parent origin) = g_mode g.
Proof. unfold push_specs. revert g. induction specs as [|s l IH]; intros g; [done|]. by simpl; rewrite IH. Qed.

(** A node of the extended graph is an old node or comes from one of the specs. *)
Lemma get_push_specs g specs parent origin x n :
  get (push_specs g specs parent origin) x = Some n →
  get g x = Some n ∨
  (get g x = None ∧ x ∈ spec_ids specs ∧
   ∃ spec, spec ∈ specs ∧ n = spec_to_node spec parent origin).
Proof.
  unfold push_specs. revert g. induction specs as [|s specs IH]; intros g; simpl; [auto|].
  intros [H|(H & Hx & spec & Hs & ->)]%IH.
  - rewrite get_push in H. destruct (get g x); [auto|]. case_decide as Hid; [|done].
    simplify_eq/=. right. set_solver.
  - rewrite get_push in H. destruct (get g x); [done|]. right. set_solver.
Qed.

Lemma get_push_specs_old g specs parent origin x n :
  get g x = Some n → get (push_specs g specs parent origin) x = Some n.
Proof.
  unfold push_specs. revert g. induction specs as [|s specs IH]; intros g H; simpl; [done|].
  apply IH. by rewrite get_push, H.
Qed.

(** The gate id is always fresh: the candidates are distinct, so one of the
    first [length nodes + 1] is not taken. *)
Lemma free_suffix_fresh g base fuel n :
  (∃ i, n ≤ i ≤ n + N.of_nat fuel ∧ contains g (base +:+ pretty i) = false)%N →
  contains g (free_suffix g base fuel n) = false.
Proof.
  revert n. induction fuel as [|fuel IH]; intros n (i & Hi & Hc); simpl.
  - by replace n with i by lia.
  - destruct (contains g (base +:+ pretty n)) eqn:E; [|done].
    apply IH. exists i. split; [|done].
    assert (i ≠ n) by congruence. lia.
Qed.

Lemma unique_gate_id_fresh g node_id : get g (unique_gate_id g node_id) = None.
Proof.
  apply contains_false. unfold unique_gate_id.
  set (base := node_id +:+ "::gate").
  destruct (contains g base) eqn:E; simpl; [|done].
  apply free_suffix_fresh.
  set (cands := map (λ i, base +:+ pretty (2 + N.of_nat i)%N) (seq 0 (S (length (g_nodes g))))).
  destruct (pigeonhole_not_incl cands (node_ids g)) as (c & Hc & Hout).
  - apply NoDup_fmap_2_strong; [|apply NoDup_seq].
    intros i j _ _ Heq. apply (inj (String.app base)) in Heq. apply (inj pretty) in Heq. lia.
  - unfold cands, node_ids. rewrite !length_map, length_seq. lia.
  - unfold cands in Hc. apply list_elem_of_fmap in Hc as (i & -> & Hi).
    apply elem_of_seq in Hi. exists (2 + N.of_nat i)%N. split; [lia|].
    by apply contains_false, get_None.
Qed.

(** ** The invariant *)

Definition edges_closed (g : TaskGraph) : Prop :=
  ∀ x n d, get g x = Some n → d ∈ n_depends_on n → is_Some (get g d).

Record wf (g : TaskGraph) : Prop := {
  wf_nodup : NoDup (node_ids g);
  wf_closed : edges_closed g;
  wf_acyclic : acyclic g;
}.

Lemma wf_new mode : wf (graph_new mode).
Proof.
  split; [apply NoDup_nil_2|done|].
  by intros c [[n ?] _]%tc_dep_known.
Qed.

(** ** Transitions of the engine *)

Inductive dag_step : TaskGraph → TaskGraph → Prop :=
| step_seed g specs g' : seed g specs = Ok g' → dag_step g g'
| step_dispatch g id worker g' : dispatch g id worker = (true, g') → dag_step g g'
| step_expand g id actor children g' out :
    expand_node g id actor children = Ok (g', out) → dag_step g g'
| step_complete g id actor artifact g' :
    complete_node g id actor artifact = Ok g' → dag_step g g'
| step_fail g id actor g' : fail_node g id actor = Ok g' → dag_step g g'
| step_inject g id actor specs g' ids :
    inject_from_gate g id actor specs = Ok (g', ids) → dag_step g g'
| step_requeue g id g' : requeue_failed g id = Ok g' → dag_step g g'.

Definition reachable (mode : Mode) (g : TaskGraph) : Prop :=
  rtc dag_step (graph_new mode) g.

(** ** Mutations that keep the edges *)

Lemma tc_mono {A} (R1 R2 : relation A) x y :
  (∀ a b, R1 a b → R2 a b) → tc R1 x y → tc R2 x y.
Proof. intros Hsub. induction 1; [by apply tc_once; auto|eapply tc_l; eauto]. Qed.

Lemma tc_flip {A} (R : relation A) x y : tc (flip R) x y → tc R y x.
Proof. induction 1; [by apply tc_once|eapply tc_r; eauto]. Qed.

Definition keeps_edges (f : TaskNode → TaskNode) : Prop :=
  (∀ n, n_id (f n) = n_id n) ∧ (∀ n, n_depends_on (f n) = n_depends_on n).

Lemma modify_dep g id f d x : keeps_edges f → dep (modify g id f) d x → dep g d x.
Proof.
  intros [Hid Hdeps] (n & Hn & Hd & Hk). rewrite get_modify in Hn, Hk by done.
  assert (is_Some (get g d)) as Hk'.
  { destruct (decide (d = id)) as [->|]; [|done]. by rewrite fmap_is_Some in Hk. }
  destruct (decide (x = id)) as [->|]; [|by exists n].
  apply fmap_Some in Hn as (m & Hm & ->). rewrite Hdeps in Hd. by exists m.
Qed.

Lemma wf_modify g id f : keeps_edges f → wf g → wf (modify g id f).
Proof.
  intros Hf [H1 H2 H3]. pose proof Hf as [Hid Hdeps]. split.
  - by rewrite node_ids_modify.
  - intros x n d Hn Hd. rewrite get_modify in Hn |- * by done.
    assert (is_Some (get g d)) as Hk.
    { destruct (decide (x = id)); [|eauto]. apply fmap_Some in Hn as (m & Hm & ->).
      rewrite Hdeps in Hd. eauto. }
    destruct (decide (d = id)); [subst; by rewrite fmap_is_Some|done].
  - intros c Hc. apply (H3 c). eapply tc_mono; [|exact Hc].
    intros a b. by apply modify_dep.
Qed.

Lemma keeps_edges_start w : keeps_edges (start_node w).
Proof. by split. Qed.
Lemma keeps_edges_finish a : keeps_edges (finish_node a).
Proof. by split. Qed.
Lemma keeps_edges_status st : keeps_edges (set_status st).
Proof. by split. Qed.
Lemma keeps_edges_requeue : keeps_edges requeue_node.
Proof. by split. Qed.
#[export] Hint Resolve keeps_edges_start keeps_edges_finish keeps_edges_status
  keeps_edges_requeue : omnis.

(** ** Shapes of successful mutations *)

Lemma dispatch_ok g id w g' :
  dispatch g id w = (true, g') →
  ∃ n, get g id = Some n ∧ is_ready g n = true ∧ g' = modify g id (start_node w).
Proof.
  unfold dispatch. destruct (get g id) as [n|]; [|done]. simpl.
  destruct (is_ready g n) eqn:E; simpl; [|done]. intros [= <-]. eauto.
Qed.

Lemma complete_node_ok g id actor a g' :
  complete_node g id actor a = Ok g' →
  ∃ n, get g id = Some n ∧ n_owner n = Some actor ∧ n_status n = Running ∧
    validate_artifact (g_mode g) id (n_is_gate n) a = Ok tt ∧
    (n_is_gate n = true → g_mode g = Deep → validate_gate_pass g id a = Ok tt) ∧
    g' = modify g id (finish_node a).
Proof.
  unfold complete_node. destruct (get g id) as [n|]; [|done].
  case_bool_decide as Ho; [done|]. case_bool_decide as Hs; [done|].
  destruct (validate_artifact _ _ _ _) as [[]|] eqn:Hv; [|done].
  destruct (if n_is_gate n && _ then _ else _) as [[]|] eqn:Hg; [|done].
  intros [= <-]. exists n. split; [done|]. split; [by destruct (decide (n_owner n = Some actor))|].
  split; [by destruct (decide (n_status n = Running))|].
  split; [done|]. split; [|done]. intros Hgate Hm. by rewrite Hgate, Hm in Hg.
Qed.

Lemma fail_node_ok g id actor g' :
  fail_node g id actor = Ok g' →
  ∃ n, get g id = Some n ∧ n_owner n = Some actor ∧ n_status n = Running ∧
    g' = modify g id (set_status Failed).
Proof.
  unfold fail_node. destruct (get g id) as [n|]; [|done].
  case_bool_decide as Ho; [done|]. case_bool_decide as Hs; [done|].
  intros [= <-]. exists n.
  destruct (decide (n_owner n = Some actor)); [|done].
  by destruct (decide (n_status n = Running)).
Qed.

Lemma requeue_failed_ok g id g' :
  requeue_failed g id = Ok g' →
  ∃ n, get g id = Some n ∧ n_status n = Failed ∧ g' = modify g id requeue_node.
Proof.
  unfold requeue_failed. destruct (get g id) as [n|]; [|done].
  case_bool_decide as Hs; [done|]. intros [= <-]. exists n.
  by destruct (decide (n_status n = Failed)).
Qed.

Lemma commit_acyclic_ok g g' :
  commit_acyclic g = Ok g' → g' = g ∧ cycle_nodes g = [].
Proof. unfold commit_acyclic. destruct (cycle_nodes g); naive_solver. Qed.

(** The staged graph of an expansion, in the two modes. *)
Definition expand_staged (g : TaskGraph) (node_id : string) (n : TaskNode)
  (children : list NodeSpec) : TaskGraph :=
  let staged := push_specs g children (Some node_id) OExpand in
  match g_mode g with
  | Deep =>
      let gid := unique_gate_id staged node_id in
      modify
        (push staged (new_gate gid (gate_content (gate_kind (n_kind n)) node_id)
           (gate_kind (n_kind n)) (Some node_id) (spec_ids children)))
        node_id (make_composite (spec_ids children ++ [gid]))
  | Light => modify staged node_id (make_composite (spec_ids children))
  end.

Lemma expand_node_ok g id actor children g' out :
  expand_node g id actor children = Ok (g', out) →
  ∃ n, get g id = Some n ∧ n_owner n = Some actor ∧ n_is_gate n = false ∧
    n_expanded n = false ∧ n_status n = Running ∧ children ≠ [] ∧
    NoDup (spec_ids children) ∧
    (∀ x, x ∈ spec_ids children → get g x = None) ∧
    check_deps g (list_to_set (spec_ids children)) children = Ok tt ∧
    g' = expand_staged g id n children ∧ cycle_nodes g' = [] ∧
    child_ids out = spec_ids children.
Proof.
  unfold expand_node. destruct (get g id) as [n|] eqn:Hn; [|done].
  case_bool_decide as Ho; [done|]. destruct (n_is_gate n) eqn:Hgate; [done|].
  destruct (n_expanded n) eqn:Hexp; [done|]. simpl.
  case_bool_decide as Hst; [done|].
  destruct (match children with [] => true | _ => false end) eqn:Hch; [done|].
  destruct (collect_ids "expand" g children ∅) as [ids|] eqn:Hids; [|done].
  destruct (collect_ids_ok _ _ _ _ _ Hids) as (-> & Hnd & Hfresh).
  destruct (check_deps _ _ _) as [[]|] eqn:Hdeps; [|done].
  rewrite g_mode_push_specs, (get_push_specs_old _ _ _ _ _ _ Hn).
  intros H. exists n.
  split; [done|]. split; [by destruct (decide (n_owner n = Some actor))|].
  split; [done|]. split; [done|].
  split; [by destruct (decide (n_status n = Running))|].
  split; [by destruct children|]. split; [done|].
  split; [intros x Hx; by apply Hfresh|]. split; [done|].
  unfold expand_staged.
  destruct (g_mode g); simpl in H;
    (destruct (commit_acyclic _) as [g2|] eqn:Hc; [|done]);
    apply commit_acyclic_ok in Hc as [-> ?]; by simplify_eq.
Qed.

Definition inject_staged (g : TaskGraph) (gate_id : string) (gate : TaskNode)
  (specs : list NodeSpec) : TaskGraph :=
  let staged := modify (push_specs g specs (n_parent gate) OGap) gate_id
                  (requeue_gate (spec_ids specs)) in
  match n_parent gate with
  | Some p => modify staged p (add_deps (spec_ids specs))
  | None => staged
  end.

Lemma inject_from_gate_ok g id actor specs g' ids :
  inject_from_gate g id actor specs = Ok (g', ids) →
  ∃ gate, get g id = Some gate ∧ n_owner gate = Some actor ∧ n_is_gate gate = true ∧
    n_status gate = Running ∧ specs ≠ [] ∧ ids = spec_ids specs ∧
    NoDup (spec_ids specs) ∧
    (∀ x, x ∈ spec_ids specs → get g x = None) ∧
    check_deps g (list_to_set (spec_ids specs)) specs = Ok tt ∧
    g' = inject_staged g id gate specs ∧ cycle_nodes g' = [].
Proof.
  unfold inject_from_gate. destruct (get g id) as [gate|] eqn:Hn; [|done].
  case_bool_decide as Ho; [done|]. destruct (n_is_gate gate) eqn:Hgate; simpl; [|done].
  case_bool_decide as Hst; [done|].
  destruct (match specs with [] => true | _ => false end) eqn:Hch; [done|].
  destruct (collect_ids _ g specs ∅) as [ids'|] eqn:Hids; [|done].
  destruct (collect_ids_ok _ _ _ _ _ Hids) as (-> & Hnd & Hfresh).
  destruct (check_deps _ _ _) as [[]|] eqn:Hdeps; [|done].
  intros H. exists gate.
  split; [done|]. split; [by destruct (decide (n_owner gate = Some actor))|].
  split; [done|]. split; [by destruct (decide (n_status gate = Running))|].
  split; [by destruct specs|].
  unfold inject_staged.
  destruct (commit_acyclic _) as [g2|] eqn:Hc; [|done].
  apply commit_acyclic_ok in Hc as [-> ?]. simplify_eq.
  split; [done|]. split; [done|]. split; [intros x Hx; by apply Hfresh|]. done.
Qed.

(** ** Seeding *)

Record seed_inv (unique : list NodeSpec) (indexes : gmap string nat) : Prop := {
  si_nodup : NoDup (spec_ids unique);
  si_dom : ∀ id, is_Some (indexes !! id) ↔ id ∈ spec_ids unique;
  si_index : ∀ id i, indexes !! id = Some i → spec_ids unique !! i = Some id;
}.

Lemma seed_inv_empty : seed_inv [] ∅.
Proof.
  split; [apply NoDup_nil_2| |done]. intros id. rewrite lookup_empty.
  split; [by intros []|by intros ?%elem_of_nil].
Qed.

Lemma spec_ids_app l1 l2 : spec_ids (l1 ++ l2) = spec_ids l1 ++ spec_ids l2.
Proof. apply map_app. Qed.

Lemma collect_seed_ok specs unique indexes unique' indexes' :
  seed_inv unique indexes →
  collect_seed specs unique indexes = Ok (unique', indexes') →
  seed_inv unique' indexes'.
Proof.
  revert unique indexes. induction specs as [|spec specs IH];
    intros unique indexes Hinv H; simpl in H; [by simplify_eq|].
  destruct (validated_spec_id spec "seed") as [id|] eqn:Hv; [|done].
  apply validated_spec_id_ok in Hv as [Hid _].
  destruct (indexes !! id) as [i|] eqn:Hi.
  - destruct (unique !! i); [|done]. destruct (negb _); [done|]. eauto.
  - destruct Hinv as [H1 H2 H3].
    assert (spec_ids (unique ++ [spec]) = spec_ids unique ++ [id]) as Hids.
    { rewrite spec_ids_app. simpl. by rewrite Hid. }
    assert (id ∉ spec_ids unique) as Hout.
    { intros [? Hin]%H2. congruence. }
    eapply IH; [|exact H]. split; rewrite Hids.
    + apply NoDup_app. split; [done|]. split; [|apply NoDup_singleton]. set_solver.
    + intros x. rewrite elem_of_app, list_elem_of_singleton, <- H2.
      destruct (decide (x = id)) as [->|];
        rewrite ?lookup_insert_eq, ?lookup_insert_ne by done; naive_solver.
    + intros x j. destruct (decide (x = id)) as [->|];
        rewrite ?lookup_insert_eq, ?lookup_insert_ne by done.
      * intros [= <-]. rewrite lookup_app_r by (unfold spec_ids; rewrite length_map; lia).
        unfold spec_ids. by rewrite length_map, Nat.sub_diag.
      * intros Hj%H3. by apply lookup_app_l_Some.
Qed.

(** The batch index always points into the collected specs: the indexing in the
    replay test cannot go out of bounds. *)
Lemma seed_index_in_range unique indexes id i :
  seed_inv unique indexes → indexes !! id = Some i →
  ∃ existing, unique !! i = Some existing.
Proof.
  intros [_ _ H3] Hi. apply H3 in Hi. unfold spec_ids in Hi.
  rewrite list_lookup_fmap in Hi. destruct (unique !! i); [eauto|done].
Qed.

Definition seed_fresh (g : TaskGraph) (specs : list NodeSpec) : list NodeSpec :=
  List.filter (λ s, negb (contains g (default "" (s_id s)))) specs.

Lemma elem_of_seed_fresh g specs s :
  s ∈ seed_fresh g specs ↔ s ∈ specs ∧ get g (default "" (s_id s)) = None.
Proof.
  unfold seed_fresh. rewrite !list_elem_of_In, filter_In, negb_true_iff, contains_false.
  done.
Qed.

Lemma stage_seed_ok g staged specs staged' :
  stage_seed g staged specs = Ok staged' →
  staged' = push_specs staged (seed_fresh g specs) None OSeed.
Proof.
  revert staged. induction specs as [|s specs IH]; intros staged H; simpl in *; [by simplify_eq|].
  destruct (get g (default "" (s_id s))) as [n|] eqn:Hg.
  - destruct (negb (seed_spec_matches_existing _ _ _)); [done|].
    unfold seed_fresh. simpl. rewrite (proj2 (contains_spec g _)) by eauto. simpl. by apply IH.
  - unfold seed_fresh. simpl. rewrite (proj2 (contains_false g _)) by done. simpl. by apply IH.
Qed.

Lemma spec_ids_fresh g specs x :
  x ∈ spec_ids (seed_fresh g specs) ↔ x ∈ spec_ids specs ∧ get g x = None.
Proof.
  unfold spec_ids. rewrite !list_elem_of_fmap. setoid_rewrite elem_of_seed_fresh.
  naive_solver.
Qed.

Lemma NoDup_spec_ids_fresh g specs :
  NoDup (spec_ids specs) → NoDup (spec_ids (seed_fresh g specs)).
Proof.
  induction specs as [|s specs IH]; intros Hnd; [done|].
  simpl in Hnd. apply NoDup_cons in Hnd as [Hs Hnd]. unfold seed_fresh. simpl.
  destruct (negb _); simpl; [|by apply IH]. apply NoDup_cons. split; [|by apply IH].
  intros [Hin _]%spec_ids_fresh. done.
Qed.

Lemma seed_ok g specs g' :
  seed g specs = Ok g' →
  ∃ unique staged,
    NoDup (spec_ids unique) ∧
    check_deps g (list_to_set (spec_ids unique)) unique = Ok tt ∧
    staged = push_specs g (seed_fresh g unique) None OSeed ∧
    g' = (if requires_gates (g_mode g) then ensure_root_gate staged else staged) ∧
    cycle_nodes g' = [].
Proof.
  unfold seed. destruct (collect_seed specs [] ∅) as [[unique indexes]|] eqn:Hc; [|done].
  apply collect_seed_ok in Hc as [H1 H2 _]; [|apply seed_inv_empty].
  assert (dom indexes = list_to_set (spec_ids unique)) as ->.
  { apply set_eq. intros x. by rewrite elem_of_dom, H2, elem_of_list_to_set. }
  destruct (check_deps _ _ _) as [[]|] eqn:Hd; [|done].
  destruct (stage_seed g g unique) as [staged|] eqn:Hs; [|done].
  apply stage_seed_ok in Hs as ->. rewrite g_mode_push_specs.
  intros [-> ?]%commit_acyclic_ok. eauto 10.
Qed.

(** ** Structural preservation *)

Definition structured (g : TaskGraph) : Prop := NoDup (node_ids g) ∧ edges_closed g.

Lemma wf_commit g : structured g → cycle_nodes g = [] → wf g.
Proof. intros [H1 H2] Hc. split; [done|done|]. by apply cycle_nodes_nil. Qed.

Lemma wf_structured g : wf g → structured g.
Proof. intros []. by split. Qed.

Lemma structured_push g n :
  structured g → get g (n_id n) = None →
  (∀ d, d ∈ n_depends_on n → is_Some (get g d)) →
  structured (push g n).
Proof.
  intros [H1 H2] Hn Hd. split.
  - rewrite node_ids_push. apply NoDup_app. split; [done|]. split; [|apply NoDup_singleton].
    apply get_None in Hn. set_solver.
  - intros x m d. rewrite !get_push. intros Hx Hdm.
    assert (is_Some (get g d)) as [m' ->]; [|eauto].
    destruct (get g x) eqn:E; [simplify_eq; eauto|]. case_decide; [|done]. simplify_eq; eauto.
Qed.

Lemma structured_push_specs g specs parent origin :
  structured g → NoDup (spec_ids specs) →
  (∀ x, x ∈ spec_ids specs → get g x = None) →
  (∀ s d, s ∈ specs → d ∈ s_depends_on s → d ∈ spec_ids specs ∨ is_Some (get g d)) →
  structured (push_specs g specs parent origin).
Proof.
  intros [H1 H2] Hnd Hfresh Hdeps. split.
  - rewrite node_ids_push_specs. apply NoDup_app. split; [done|]. split; [|done].
    intros x Hx Hin. apply Hfresh, get_None in Hin. done.
  - assert (∀ d, d ∈ spec_ids specs ∨ is_Some (get g d) →
              is_Some (get (push_specs g specs parent origin) d)) as Hk.
    { intros d Hd. rewrite get_is_Some, node_ids_push_specs, elem_of_app, <- get_is_Some. tauto. }
    intros x n d [Hx|(_ & _ & s & Hs & ->)]%get_push_specs Hd; apply Hk; [by eauto|].
    simpl in Hd. rewrite elem_of_dedup in Hd. eauto.
Qed.

Lemma structured_modify g id f :
  structured g → (∀ n, n_id (f n) = n_id n) →
  (∀ n d, d ∈ n_depends_on (f n) → d ∈ n_depends_on n ∨ is_Some (get g d)) →
  structured (modify g id f).
Proof.
  intros [H1 H2] Hid Hd. split; [by rewrite node_ids_modify|].
  assert (∀ d, is_Some (get g d) → is_Some (get (modify g id f) d)) as Hk.
  { intros d. by rewrite !get_is_Some, node_ids_modify. }
  intros x n d Hx Hdn. apply Hk. rewrite get_modify in Hx by done. case_decide; [|eauto].
  apply fmap_Some in Hx as (m & Hm & ->). apply Hd in Hdn as [?|?]; eauto.
Qed.

Lemma make_composite_id ds n : n_id (make_composite ds n) = n_id n.
Proof. unfold make_composite. simpl. by destruct (n_planner n). Qed.

Lemma make_composite_deps ds n :
  n_depends_on (make_composite ds n) = push_all_new (n_depends_on n) ds.
Proof. unfold make_composite. simpl. by destruct (n_planner n). Qed.

Lemma make_composite_gate ds n : n_is_gate (make_composite ds n) = n_is_gate n.
Proof. unfold make_composite. simpl. by destruct (n_planner n). Qed.

Lemma make_composite_parent ds n : n_parent (make_composite ds n) = n_parent n.
Proof. unfold make_composite. simpl. by destruct (n_planner n). Qed.

Lemma make_composite_expanded ds n : n_expanded (make_composite ds n) = true.
Proof. unfold make_composite. simpl. by destruct (n_planner n). Qed.

Lemma make_composite_status ds n : n_status (make_composite ds n) = Queued.
Proof. unfold make_composite. simpl. by destruct (n_planner n). Qed.

#[export] Hint Rewrite make_composite_gate make_composite_parent make_composite_expanded
  make_composite_status make_composite_deps make_composite_id : omnis.

Lemma structured_make_composite g id ds :
  structured g → (∀ d, d ∈ ds → is_Some (get g d)) →
  structured (modify g id (make_composite ds)).
Proof.
  intros Hg Hds. apply structured_modify; [done|by intros; apply make_composite_id|].
  intros n d. rewrite make_composite_deps, elem_of_push_all_new. naive_solver.
Qed.

Lemma widen_gate_id ids n : n_id (widen_gate ids n) = n_id n.
Proof. unfold widen_gate. by destruct (_ && _). Qed.

Lemma widen_gate_deps ids n :
  n_depends_on (widen_gate ids n) = push_all_new (n_depends_on n) ids.
Proof. unfold widen_gate. by destruct (_ && _). Qed.

Lemma elem_of_root_ids g x :
  x ∈ root_ids g → ∃ n, n ∈ g_nodes g ∧ n_id n = x ∧ n_parent n = None ∧ n_is_gate n = false.
Proof.
  unfold root_ids. intros (n & -> & Hn)%list_elem_of_fmap.
  rewrite list_elem_of_In, filter_In, <- list_elem_of_In in Hn.
  destruct Hn as [Hn Hr]. unfold is_root_work in Hr.
  apply andb_true_iff in Hr as [Hp%bool_decide_eq_true Hg%negb_true_iff]. eauto.
Qed.

Lemma root_ids_known g x : x ∈ root_ids g → is_Some (get g x).
Proof.
  intros (n & Hn & <- & _)%elem_of_root_ids. apply get_is_Some, list_elem_of_fmap. eauto.
Qed.

Lemma structured_ensure_root_gate g : structured g → structured (ensure_root_gate g).
Proof.
  intros Hg. unfold ensure_root_gate. pose proof (root_ids_known g) as Hk.
  destruct (root_ids g) as [|r rs] eqn:Hr; [done|]. rewrite <- Hr in *.
  destruct (find is_root_gate (g_nodes g)) as [gate|].
  - apply structured_modify; [done|by intros; apply widen_gate_id|].
    intros n d. rewrite widen_gate_deps, elem_of_push_all_new. naive_solver.
  - apply structured_push; [done|apply unique_gate_id_fresh|done].
Qed.

Lemma structured_expand g id n children :
  structured g → get g id = Some n →
  NoDup (spec_ids children) → (∀ x, x ∈ spec_ids children → get g x = None) →
  check_deps g (list_to_set (spec_ids children)) children = Ok tt →
  structured (expand_staged g id n children).
Proof.
  intros Hg Hn Hnd Hfresh Hdeps. unfold expand_staged.
  set (staged := push_specs g children (Some id) OExpand).
  assert (structured staged) as Hst.
  { apply structured_push_specs; [done..|]. intros s d Hs Hd.
    rewrite <- (elem_of_list_to_set (C:=gset string)). by eapply check_deps_ok. }
  assert (∀ x, x ∈ spec_ids children → is_Some (get staged x)) as Hk.
  { intros x Hx. apply get_is_Some. unfold staged. rewrite node_ids_push_specs. set_solver. }
  destruct (g_mode g).
  - apply structured_make_composite.
    + apply structured_push; [done|apply unique_gate_id_fresh|done].
    + intros d Hd. rewrite get_push. destruct (get staged d) eqn:E; [eauto|].
      apply elem_of_app in Hd as [Hd|Hd]; [apply Hk in Hd as [? ?]; congruence|].
      apply list_elem_of_singleton in Hd as ->. simpl. rewrite decide_True by done. eauto.
  - apply structured_make_composite; done.
Qed.

Lemma structured_inject g id gate specs :
  structured g → NoDup (spec_ids specs) → (∀ x, x ∈ spec_ids specs → get g x = None) →
  check_deps g (list_to_set (spec_ids specs)) specs = Ok tt →
  structured (inject_staged g id gate specs).
Proof.
  intros Hg Hnd Hfresh Hdeps. unfold inject_staged.
  set (staged := push_specs g specs (n_parent gate) OGap).
  assert (structured staged) as Hst.
  { apply structured_push_specs; [done..|]. intros s d Hs Hd.
    rewrite <- (elem_of_list_to_set (C:=gset string)). by eapply check_deps_ok. }
  assert (∀ x, x ∈ spec_ids specs → is_Some (get staged x)) as Hk.
  { intros x Hx. apply get_is_Some. unfold staged. rewrite node_ids_push_specs. set_solver. }
  assert (structured (modify staged id (requeue_gate (spec_ids specs)))) as Hst2.
  { apply structured_modify; [done|done|]. intros n d. simpl.
    rewrite elem_of_push_all_new. naive_solver. }
  destruct (n_parent gate) as [p|]; [|done].
  apply structured_modify; [done|done|]. intros n d. simpl.
  rewrite elem_of_push_all_new, !get_is_Some, node_ids_modify, <- get_is_Some by done.
  naive_solver.
Qed.

Lemma structured_seed g unique :
  structured g → NoDup (spec_ids unique) →
  check_deps g (list_to_set (spec_ids unique)) unique = Ok tt →
  structured (push_specs g (seed_fresh g unique) None OSeed).
Proof.
  intros Hg Hnd Hdeps.
  apply structured_push_specs; [done|by apply NoDup_spec_ids_fresh| |].
  - by intros x [_ ?]%spec_ids_fresh.
  - intros s d [Hs _]%elem_of_seed_fresh Hd.
    destruct (check_deps_ok _ _ _ _ _ Hdeps Hs Hd) as [Hin|?]; [|auto].
    apply elem_of_list_to_set in Hin. destruct (get g d) eqn:E; [eauto|].
    left. by apply spec_ids_fresh.
Qed.

Lemma wf_step g g' : dag_step g g' → wf g → wf g'.
Proof.
  intros Hstep Hwf. pose proof (wf_structured _ Hwf) as Hst.
  destruct Hstep as [g specs g' H|g id w g' H|g id actor children g' out H
    |g id actor a g' H|g id actor g' H|g id actor specs g' ids H|g id g' H].
  - apply seed_ok in H as (unique & staged & Hnd & Hdeps & -> & -> & Hc).
    apply wf_commit; [|done].
    pose proof (structured_seed _ _ Hst Hnd Hdeps).
    destruct (requires_gates _); [by apply structured_ensure_root_gate|done].
  - apply dispatch_ok in H as (n & _ & _ & ->). apply wf_modify; auto with omnis.
  - apply expand_node_ok in H as (n & Hn & _ & _ & _ & _ & _ & Hnd & Hf & Hd & -> & Hc & _).
    apply wf_commit; [|done]. by apply structured_expand.
  - apply complete_node_ok in H as (n & _ & _ & _ & _ & _ & ->). apply wf_modify; auto with omnis.
  - apply fail_node_ok in H as (n & _ & _ & _ & ->). apply wf_modify; auto with omnis.
  - apply inject_from_gate_ok in H as (gate & _ & _ & _ & _ & _ & _ & Hnd & Hf & Hd & -> & Hc).
    apply wf_commit; [|done]. by apply structured_inject.
  - apply requeue_failed_ok in H as (n & _ & _ & ->). apply wf_modify; auto with omnis.
Qed.

Lemma wf_reachable mode g : reachable mode g → wf g.
Proof.
  unfold reachable. intros H. cut (wf (graph_new mode)); [|apply wf_new].
  induction H as [|x y z Hxy _ IH]; [done|]. intros Hx. eauto using wf_step.
Qed.

Lemma mode_step g g' : dag_step g g' → g_mode g' = g_mode g.
Proof.
  destruct 1 as [g specs g' H|g id w g' H|g id actor children g' out H
    |g id actor a g' H|g id actor g' H|g id actor specs g' ids H|g id g' H].
  - apply seed_ok in H as (u & st & _ & _ & -> & -> & _).
    destruct (requires_gates _); [|by rewrite g_mode_push_specs].
    unfold ensure_root_gate. destruct (root_ids _); [by rewrite g_mode_push_specs|].
    destruct (find _ _); simpl; by rewrite g_mode_push_specs.
  - by apply dispatch_ok in H as (n & _ & _ & ->).
  - apply expand_node_ok in H as (n & _ & _ & _ & _ & _ & _ & _ & _ & _ & -> & _).
    unfold expand_staged. destruct (g_mode g) eqn:E; simpl; by rewrite g_mode_push_specs.
  - by apply complete_node_ok in H as (n & _ & _ & _ & _ & _ & ->).
  - by apply fail_node_ok in H as (n & _ & _ & _ & ->).
  - apply inject_from_gate_ok in H as (gate & _ & _ & _ & _ & _ & _ & _ & _ & _ & -> & _).
    unfold inject_staged. destruct (n_parent gate); simpl; by rewrite g_mode_push_specs.
  - by apply requeue_failed_ok in H as (n & _ & _ & ->).
Qed.
