(* ===== verification/DagGates.v ===== *)
(** * Gates of a deep plan

    In deep mode every piece of work is audited: the invariant of this file ties
    each non-gate node to the gate of its level, and each closed node or gate to
    its closed dependencies and to the artifact it was closed with. *)

From S2P Require Import Prelude RustStr Confidence DagTypes Kahn DagCycle DagOps DagInv.

(** ** The shape of a deep graph *)

Record deep_shape (g : TaskGraph) : Prop := {
  (** A level (the root, or the children of a composite) has at most one gate. *)
  sh_gate_unique : ∀ x y n m,
    get g x = Some n → get g y = Some m → n_is_gate n = true → n_is_gate m = true →
    n_parent n = n_parent m → x = y;
  (** A graph that has a node has a root gate. *)
  sh_root : ∀ x n, get g x = Some n →
    ∃ rg gate, get g rg = Some gate ∧ n_is_gate gate = true ∧ n_parent gate = None;
  (** The gate of a level waits for all the work of that level. *)
  sh_cover : ∀ x n, get g x = Some n → n_is_gate n = false →
    ∃ y gate, get g y = Some gate ∧ n_is_gate gate = true ∧
      n_parent gate = n_parent n ∧ x ∈ n_depends_on gate;
  (** A composite waits for its children and its gate. *)
  sh_parent : ∀ x n p, get g x = Some n → n_parent n = Some p →
    ∃ pn, get g p = Some pn ∧ n_expanded pn = true ∧ x ∈ n_depends_on pn;
  (** A composite has a gate and is not one. *)
  sh_composite : ∀ p pn, get g p = Some pn → n_expanded pn = true →
    n_is_gate pn = false ∧
    ∃ y gate, get g y = Some gate ∧ n_is_gate gate = true ∧ n_parent gate = Some p;
  (** A gate waits for work only. *)
  sh_gate_deps : ∀ x gate d m, get g x = Some gate → n_is_gate gate = true →
    d ∈ n_depends_on gate → get g d = Some m → n_is_gate m = false;
}.

(** ** Nothing waits for the root gate *)

Lemma dep_downstream_wf g x : acyclic g → sn (dep g) x.
Proof.
  intros Hac. apply tc_finite_sn.
  - intros y Hy. by apply (Hac y).
  - exists (node_ids g). intros y [_ Hy]%tc_dep_known. by apply get_is_Some.
Qed.

Lemma upstream_of_root_gate g rg gate x n :
  wf g → deep_shape g →
  get g rg = Some gate → n_is_gate gate = true → n_parent gate = None →
  get g x = Some n → x ≠ rg → tc (dep g) x rg.
Proof.
  intros Hwf Hsh Hrg Hg Hp. revert n.
  induction (dep_downstream_wf g x (wf_acyclic _ Hwf)) as [x _ IH]. intros n Hx Hne.
  destruct (n_parent n) as [p|] eqn:Hpar.
  - destruct (sh_parent _ Hsh _ _ _ Hx Hpar) as (pn & Hpn & Hexp & Hin).
    assert (dep g x p) as Hd by (exists pn; eauto).
    apply tc_l with p; [done|]. apply (IH p) with pn; [done|done|].
    intros ->. destruct (sh_composite _ Hsh _ _ Hpn Hexp) as [? _]. congruence.
  - destruct (n_is_gate n) eqn:Hgate.
    + exfalso. apply Hne. eapply (sh_gate_unique _ Hsh); eauto. congruence.
    + destruct (sh_cover _ Hsh _ _ Hx Hgate) as (y & gt & Hy & Hgt & Hpp & Hin).
      assert (y = rg) as -> by (eapply (sh_gate_unique _ Hsh); eauto; congruence).
      apply tc_once. exists gt. eauto.
Qed.

Lemma nothing_waits_for_root_gate g rg gate x n :
  wf g → deep_shape g →
  get g rg = Some gate → n_is_gate gate = true → n_parent gate = None →
  get g x = Some n → rg ∉ n_depends_on n.
Proof.
  intros Hwf Hsh Hrg Hg Hp Hx Hin.
  assert (dep g rg x) as Hd by (exists n; eauto).
  destruct (decide (x = rg)) as [->|Hne].
  - by apply (wf_acyclic _ Hwf rg), tc_once.
  - apply (wf_acyclic _ Hwf rg). eapply tc_l; [exact Hd|].
    by eapply upstream_of_root_gate.
Qed.

(** ** Status of a deep graph *)

Definition root_gate (n : TaskNode) : Prop := n_is_gate n = true ∧ n_parent n = None.

#[export] Instance root_gate_dec n : Decision (root_gate n).
Proof. unfold root_gate. apply _. Defined.

(** Started (or closed) nodes; the root gate counts only once closed, since a
    later seed may widen it while it runs. *)
Definition started (n : TaskNode) : Prop :=
  n_status n = Done ∨ (n_status n = Running ∧ ¬ root_gate n).

Definition done_in (g : TaskGraph) (d : string) : Prop :=
  ∃ m, get g d = Some m ∧ n_status m = Done.

Record deep_status (g : TaskGraph) : Prop := {
  (** A started node has all its dependencies closed. *)
  st_settled : ∀ x n d, get g x = Some n → started n → d ∈ n_depends_on n → done_in g d;
  (** A closed node carries an artifact that passed validation. *)
  st_output : ∀ x n, get g x = Some n → n_status n = Done →
    ∃ a, n_output n = Some a ∧ validate_artifact Deep x (n_is_gate n) a = Ok tt ∧
      (n_is_gate n = true → validate_gate_pass g x a = Ok tt);
}.

Lemma omap_get_ext g g' (ds : list string) :
  (∀ d, d ∈ ds → get g' d = get g d) → omap (get g') ds = omap (get g) ds.
Proof.
  induction ds as [|d ds IH]; intros H; [done|]. simpl.
  rewrite H by set_solver. destruct (get g d); [f_equal|]; apply IH; set_solver.
Qed.

Lemma validate_gate_pass_ext g g' x n n' a :
  get g x = Some n → get g' x = Some n' → n_depends_on n' = n_depends_on n →
  (∀ d, d ∈ n_depends_on n → get g' d = get g d) →
  validate_gate_pass g' x a = validate_gate_pass g x a.
Proof.
  intros Hn Hn' Hds Hext. unfold validate_gate_pass. rewrite Hn, Hn'.
  unfold gate_audit_scope. by rewrite Hds, (omap_get_ext g g').
Qed.

(** ** Mutations of status only *)

Record keeps_shape (f : TaskNode → TaskNode) : Prop := {
  ks_edges : keeps_edges f;
  ks_parent : ∀ n, n_parent (f n) = n_parent n;
  ks_gate : ∀ n, n_is_gate (f n) = n_is_gate n;
  ks_expanded : ∀ n, n_expanded (f n) = n_expanded n;
}.

(** The node behind a lookup in the modified graph. *)
Lemma get_keeps_shape g id f x n' :
  keeps_shape f → get (modify g id f) x = Some n' →
  ∃ n, get g x = Some n ∧ n_depends_on n' = n_depends_on n ∧ n_parent n' = n_parent n ∧
    n_is_gate n' = n_is_gate n ∧ n_expanded n' = n_expanded n.
Proof.
  intros [[Hid Hd] Hp Hg He] H. rewrite get_modify in H by done.
  destruct (decide (x = id)) as [->|]; [|eauto 10].
  apply fmap_Some in H as (n & Hn & ->). eauto 10.
Qed.

Lemma get_keeps_shape_fwd g id f x n :
  keeps_shape f → get g x = Some n →
  ∃ n', get (modify g id f) x = Some n' ∧ n_depends_on n' = n_depends_on n ∧
    n_parent n' = n_parent n ∧ n_is_gate n' = n_is_gate n ∧ n_expanded n' = n_expanded n.
Proof.
  intros [[Hid Hd] Hp Hg He] H. rewrite get_modify by done.
  destruct (decide (x = id)) as [->|]; [|eauto 10]. rewrite H. simpl. eauto 10.
Qed.

Lemma deep_shape_modify g id f :
  keeps_shape f → deep_shape g → deep_shape (modify g id f).
Proof.
  intros Hk [H1 H2 H3 H4 H5 H6].
  pose proof (λ x n', get_keeps_shape g id f x n' Hk) as Hbwd.
  pose proof (λ x n, get_keeps_shape_fwd g id f x n Hk) as Hfwd.
  split.
  - intros x y n m (n0 & Hn & _ & ? & ? & _)%Hbwd (m0 & Hm & _ & ? & ? & _)%Hbwd ???.
    apply (H1 x y n0 m0); congruence.
  - intros x n (n0 & Hn & _)%Hbwd. destruct (H2 _ _ Hn) as (rg & gt & Hg & ? & ?).
    destruct (Hfwd _ _ Hg) as (gt' & ? & ? & ? & ? & ?). exists rg, gt'. repeat split; congruence.
  - intros x n (n0 & Hn & _ & ? & ? & _)%Hbwd Hgate.
    destruct (H3 _ _ Hn) as (y & gt & Hg & ? & ? & ?); [congruence|].
    destruct (Hfwd _ _ Hg) as (gt' & ? & Hds & ? & ? & ?). exists y, gt'.
    rewrite Hds. repeat split; congruence.
  - intros x n p (n0 & Hn & _ & ? & _)%Hbwd Hp.
    destruct (H4 _ _ p Hn) as (pn & Hpn & ? & ?); [congruence|].
    destruct (Hfwd _ _ Hpn) as (pn' & ? & Hds & ? & ? & ?). exists pn'.
    rewrite Hds. repeat split; congruence.
  - intros p pn (n0 & Hn & _ & ? & ? & ?)%Hbwd Hexp.
    destruct (H5 _ _ Hn) as (? & y & gt & Hg & ? & ?); [congruence|]. split; [congruence|].
    destruct (Hfwd _ _ Hg) as (gt' & ? & ? & ? & ? & ?). exists y, gt'. repeat split; congruence.
  - intros x gate d m (gt & Hg & Hds & _ & ? & _)%Hbwd Hgate Hd (m0 & Hm & _ & _ & ? & _)%Hbwd.
    rewrite Hds in Hd. pose proof (H6 x gt d m0 Hg). naive_solver congruence.
Qed.

(** Changing one node that is not closed disturbs no closed neighbourhood. *)
Lemma deep_status_modify g id f n :
  wf g → keeps_shape f → deep_status g → get g id = Some n → n_status n ≠ Done →
  (started (f n) → ∀ d, d ∈ n_depends_on n → done_in g d) →
  (n_status (f n) = Done →
     ∃ a, n_output (f n) = Some a ∧ validate_artifact Deep id (n_is_gate n) a = Ok tt ∧
       (n_is_gate n = true → validate_gate_pass g id a = Ok tt)) →
  deep_status (modify g id f).
Proof.
  intros Hwf Hk [H1 H2] Hn Hnd Hset Hout.
  pose proof (ks_edges _ Hk) as [Hid Hds].
  assert (∀ d, done_in g d → get (modify g id f) d = get g d) as Hdone.
  { intros d (m & Hm & Hs). apply get_modify_ne; [done|]. intros ->. congruence. }
  assert (∀ d, done_in g d → done_in (modify g id f) d) as Hdone'.
  { intros d Hd. pose proof (Hdone d Hd) as Heq. destruct Hd as (m & Hm & Hs).
    exists m. by rewrite Heq. }
  split.
  - intros x n' d Hx Hs Hd. apply Hdone'. rewrite get_modify in Hx by done.
    destruct (decide (x = id)) as [->|]; [|by eapply H1].
    rewrite Hn in Hx. simplify_eq/=. rewrite Hds in Hd. auto.
  - intros x n' Hx Hs. pose proof Hx as Hx'. rewrite get_modify in Hx by done.
    destruct (decide (x = id)) as [->|].
    + rewrite Hn in Hx. simplify_eq/=. destruct (Hout Hs) as (a & Ha & Hv & Hp).
      exists a. rewrite (ks_gate _ Hk). split; [done|]. split; [done|]. intros Hg.
      rewrite <- (Hp Hg). eapply validate_gate_pass_ext; eauto.
      intros d Hd. apply Hdone, Hset; [by left|done].
    + destruct (H2 _ _ Hx Hs) as (a & Ha & Hv & Hp). exists a. split; [done|]. split; [done|].
      intros Hg. rewrite <- (Hp Hg). eapply validate_gate_pass_ext; eauto.
      intros d Hd. apply Hdone. eapply H1; [exact Hx|by left|done].
Qed.

(** A structural change: every node is queued, or as it was, or the running root
    gate; and the closed nodes other than the root gate stay. *)
Lemma deep_status_grow g g' :
  wf g → deep_shape g → deep_status g →
  (∀ x n', get g' x = Some n' →
     n_status n' = Queued ∨ get g x = Some n' ∨ (n_status n' = Running ∧ root_gate n')) →
  (∀ x n, get g x = Some n → n_status n = Done → ¬ root_gate n → get g' x = Some n) →
  deep_status g'.
Proof.
  intros Hwf Hsh [H1 H2] Hnew Hold.
  assert (∀ x n d, get g x = Some n → d ∈ n_depends_on n → done_in g d →
            get g' d = get g d ∧ done_in g' d) as Hkeep.
  { intros x n d Hx Hd (m & Hm & Hs). assert (get g' d = Some m) as Hm'.
    { apply Hold; [done|done|]. intros [Hg Hp].
      by eapply (nothing_waits_for_root_gate g d m x n). }
    split; [congruence|by exists m]. }
  split.
  - intros x n' d Hx Hs Hd. destruct (Hnew x n' Hx) as [Hq|[Hx'|[Hr Hrg]]].
    + exfalso. destruct Hs as [|[? _]]; congruence.
    + eapply Hkeep; eauto.
    + exfalso. destruct Hs as [|[_ ?]]; [congruence|done].
  - intros x n' Hx Hs. destruct (Hnew x n' Hx) as [Hq|[Hx'|[Hr Hrg]]]; [congruence| |congruence].
    destruct (H2 _ _ Hx' Hs) as (a & Ha & Hv & Hp). exists a. split; [done|]. split; [done|].
    intros Hg. rewrite <- (Hp Hg). eapply validate_gate_pass_ext; eauto.
    intros d Hd. eapply Hkeep; eauto. eapply H1; [exact Hx'|by left|done].
Qed.

(** ** Expansion in deep mode *)

Section expand.
Context (g : TaskGraph) (p : string) (pn : TaskNode) (children : list NodeSpec).
Context (Hmode : g_mode g = Deep) (Hp : get g p = Some pn).
Context (Hgate : n_is_gate pn = false) (Hexp : n_expanded pn = false)
  (Hrun : n_status pn = Running).
Context (Hfresh : ∀ x, x ∈ spec_ids children → get g x = None).

Let staged := push_specs g children (Some p) OExpand.
Let gid := unique_gate_id staged p.
Let ids := spec_ids children.

Lemma expand_get_parent :
  get (expand_staged g p pn children) p = Some (make_composite (ids ++ [gid]) pn).
Proof using Hmode Hp.
  unfold expand_staged. rewrite Hmode. rewrite get_modify_eq by apply make_composite_id.
  rewrite get_push. by rewrite (get_push_specs_old _ _ _ _ _ _ Hp).
Qed.

Lemma expand_get_old x n :
  x ≠ p → get g x = Some n → get (expand_staged g p pn children) x = Some n.
Proof using Hmode.
  intros Hne Hx. unfold expand_staged. rewrite Hmode.
  rewrite get_modify_ne by (done || apply make_composite_id).
  rewrite get_push. by rewrite (get_push_specs_old _ _ _ _ _ _ Hx).
Qed.

Lemma expand_gid_fresh : get g gid = None ∧ gid ∉ ids.
Proof using.
  pose proof (unique_gate_id_fresh staged p) as Hf. apply get_None in Hf.
  unfold staged at 2 in Hf. rewrite node_ids_push_specs in Hf. fold gid ids in Hf.
  rewrite not_elem_of_app in Hf. by rewrite get_None.
Qed.

Lemma expand_get_gate :
  ∃ gate, get (expand_staged g p pn children) gid = Some gate ∧
    n_is_gate gate = true ∧ n_parent gate = Some p ∧ n_depends_on gate = ids.
Proof using Hmode Hp.
  destruct expand_gid_fresh as [Hg _].
  assert (gid ≠ p) by (intros Heq; congruence).
  unfold expand_staged. rewrite Hmode.
  rewrite get_modify_ne by (done || apply make_composite_id).
  rewrite get_push. fold staged gid. unfold gid at 1. rewrite unique_gate_id_fresh. simpl.
  rewrite decide_True by done. eexists. split; [done|]. done.
Qed.

(** Every node of the expanded graph is one of four. *)
Lemma expand_get_inv x n' :
  get (expand_staged g p pn children) x = Some n' →
  (x = p ∧ n' = make_composite (ids ++ [gid]) pn) ∨
  (x ≠ p ∧ get g x = Some n') ∨
  (get g x = None ∧ x ∈ ids ∧ n_status n' = Queued ∧ n_is_gate n' = false ∧
     n_parent n' = Some p ∧ n_expanded n' = false) ∨
  (get g x = None ∧ x = gid ∧ n_status n' = Queued ∧ n_is_gate n' = true ∧
     n_parent n' = Some p ∧ n_expanded n' = false ∧ n_depends_on n' = ids).
Proof using Hmode Hp.
  intros Hx. destruct (decide (x = p)) as [->|Hne].
  { left. rewrite expand_get_parent in Hx. by simplify_eq. }
  unfold expand_staged in Hx. rewrite Hmode in Hx.
  rewrite get_modify_ne in Hx by (done || apply make_composite_id).
  rewrite get_push in Hx. fold staged gid in Hx. right.
  destruct (get staged x) as [n|] eqn:Hs.
  - simplify_eq. apply get_push_specs in Hs as [?|(? & ? & s & ? & ->)]; [auto|].
    right; left. done.
  - case_decide as Heq; [|done]. injection Hx as <-. right; right.
    pose proof expand_gid_fresh as [Hgid _]. simpl in Heq. rewrite <- Heq. done.
Qed.

Lemma expand_get_child x :
  x ∈ ids → ∃ n', get (expand_staged g p pn children) x = Some n' ∧
    n_is_gate n' = false ∧ n_parent n' = Some p.
Proof using Hmode Hp Hfresh.
  intros Hx. assert (get g x = None) as Hn by auto.
  assert (is_Some (get (expand_staged g p pn children) x)) as [n' Hn'].
  { apply get_is_Some. unfold expand_staged. rewrite Hmode.
    rewrite node_ids_modify by apply make_composite_id.
    rewrite node_ids_push, node_ids_push_specs, !elem_of_app. auto. }
  exists n'. split; [done|]. destruct expand_gid_fresh as [_ Hout].
  apply expand_get_inv in Hn' as [[-> _]|[[_ ?]|[(_ & _ & _ & ? & ? & _)|(_ & -> & _)]]];
    [congruence..|done|done].
Qed.

Lemma deep_shape_expand :
  wf g → deep_shape g → deep_shape (expand_staged g p pn children).
Proof using All.
  intros Hwf [H1 H2 H3 H4 H5 H6].
  assert (∀ x n, get g x = Some n → n_parent n ≠ Some p) as Hnochild.
  { intros x n Hx Hpar. destruct (H4 _ _ _ Hx Hpar) as (pn' & ? & ? & _). congruence. }
  assert (∀ x n, get g x = Some n → ∃ n',
      get (expand_staged g p pn children) x = Some n' ∧ n_is_gate n' = n_is_gate n ∧
      n_parent n' = n_parent n ∧ (n_expanded n = true → n_expanded n' = true) ∧
      (∀ d, d ∈ n_depends_on n → d ∈ n_depends_on n')) as Hold.
  { intros x n Hx. destruct (decide (x = p)) as [->|Hne].
    - simplify_eq. eexists. split; [apply expand_get_parent|].
      autorewrite with omnis. repeat split. intros d Hd. rewrite elem_of_push_all_new. auto.
    - exists n. split; [by apply expand_get_old|]. auto. }
  destruct expand_get_gate as (ng & Hng & Hngg & Hngp & Hngd).
  assert (n_is_gate (make_composite (ids ++ [gid]) pn) = false) as Hcg.
  { by rewrite make_composite_gate. }
  split.
  - intros x y n m Hx Hy Hn Hm Hpar.
    apply expand_get_inv in Hx as [[-> ->]|[[_ Hx]|[(_ & _ & _ & ? & _)|(_ & -> & _ & _ & Hpx & _)]]];
      [congruence| |congruence|];
      apply expand_get_inv in Hy as [[-> ->]|[[_ Hy]|[(_ & _ & _ & ? & _)|(_ & -> & _ & _ & Hpy & _)]]];
      try congruence.
    + eapply H1; eauto.
    + exfalso. apply (Hnochild _ _ Hx). congruence.
    + exfalso. apply (Hnochild _ _ Hy). congruence.
  - intros x n _. destruct (H2 _ _ Hp) as (rg & gt & Hg & ? & ?).
    destruct (Hold _ _ Hg) as (gt' & ? & ? & ? & _). exists rg, gt'. repeat split; congruence.
  - intros x n Hx Hng'.
    assert (∃ n0, get g x = Some n0 ∧ n_is_gate n0 = false ∧ n_parent n0 = n_parent n ∨
            x ∈ ids ∧ n_parent n = Some p) as (n0 & [(Hn0 & Hg0 & Hpar)|[Hin Hpar]]).
    { apply expand_get_inv in Hx as [[-> ->]|[[_ Hx]|[(_ & ? & _ & _ & ? & _)|(_ & -> & _ & ? & _)]]].
      - exists pn. left. by autorewrite with omnis.
      - exists n. auto.
      - exists pn. auto.
      - congruence. }
    + destruct (H3 _ _ Hn0 Hg0) as (y & gt & Hg & ? & ? & ?).
      destruct (Hold _ _ Hg) as (gt' & ? & ? & ? & _ & ?). exists y, gt'.
      repeat split; [done|congruence|congruence|auto].
    + exists gid, ng. rewrite Hngd. repeat split; [done..|congruence|done].
  - intros x n q Hx Hq.
    assert (∃ n0, get g x = Some n0 ∧ n_parent n0 = Some q ∨
            x ∈ ids ++ [gid] ∧ q = p) as (n0 & [(Hn0 & Hpar)|[Hin ->]]).
    { apply expand_get_inv in Hx as [[-> ->]|[[_ Hx]|[(_ & ? & _ & _ & ? & _)|(_ & -> & _ & _ & ? & _)]]].
      - exists pn. left. by rewrite make_composite_parent in Hq.
      - exists n. auto.
      - exists pn. right. split; [set_solver|congruence].
      - exists pn. right. split; [set_solver|congruence]. }
    + destruct (H4 _ _ _ Hn0 Hpar) as (qn & Hqn & ? & ?).
      destruct (Hold _ _ Hqn) as (qn' & ? & ? & ? & ? & ?). exists qn'. auto.
    + eexists. split; [apply expand_get_parent|].
      autorewrite with omnis. auto.
  - intros q qn Hq Hqe.
    apply expand_get_inv in Hq as [[-> ->]|[[Hne Hq]|[(_ & _ & _ & _ & _ & ?)|(_ & _ & _ & _ & _ & ? & _)]]];
      [|..|congruence|congruence].
    + split; [done|]. eauto.
    + destruct (H5 _ _ Hq Hqe) as (? & y & gt & Hg & ? & ?). split; [done|].
      destruct (Hold _ _ Hg) as (gt' & ? & ? & ? & _). exists y, gt'. repeat split; congruence.
  - intros x gt d m Hx Hg Hd Hm.
    apply expand_get_inv in Hx as [[-> ->]|[[_ Hx]|[(_ & _ & _ & ? & _)|(_ & -> & _ & _ & _ & _ & Hds)]]];
      [congruence| |congruence|].
    + destruct (wf_closed _ Hwf _ _ _ Hx Hd) as [m0 Hm0].
      destruct (Hold _ _ Hm0) as (m' & ? & ? & _). pose proof (H6 _ _ _ _ Hx Hg Hd Hm0). congruence.
    + rewrite Hds in Hd. apply expand_get_child in Hd as (m' & ? & ? & _). congruence.
Qed.

Lemma deep_status_expand :
  wf g → deep_shape g → deep_status g → deep_status (expand_staged g p pn children).
Proof using All.
  intros Hwf Hsh Hst. apply (deep_status_grow g); [done..| |].
  - intros x n' [[-> ->]|[[_ Hx]|[(_ & _ & ? & _)|(_ & _ & ? & _)]]]%expand_get_inv; auto.
    left. apply make_composite_status.
  - intros x n Hx Hs _. apply expand_get_old; [|done]. intros ->. congruence.
Qed.
End expand.

(** ** Growing one level

    Injection and re-seeding add work to a level that already has its gate: the
    gate (and the composite that owns the level) wait for the new nodes, old
    nodes keep their place, and dependencies only grow. *)

Section level_grow.
Context (g g' : TaskGraph) (gid : string) (gate : TaskNode) (ids : list string).
Context (Hwf : wf g) (Hsh : deep_shape g).
Context (Hg : get g gid = Some gate) (Hgate : n_is_gate gate = true).
Context (Hkeeps : ∀ x n, get g x = Some n → ∃ n', get g' x = Some n' ∧
  n_is_gate n' = n_is_gate n ∧ n_parent n' = n_parent n ∧ n_expanded n' = n_expanded n ∧
  (∀ d, d ∈ n_depends_on n → d ∈ n_depends_on n')).
Context (Horigin : ∀ x n', get g' x = Some n' →
  (∃ n, get g x = Some n ∧ n_is_gate n' = n_is_gate n ∧ n_parent n' = n_parent n ∧
     n_expanded n' = n_expanded n) ∨
  (x ∈ ids ∧ n_is_gate n' = false ∧ n_parent n' = n_parent gate ∧ n_expanded n' = false)).
Context (Hgate' : ∃ gate', get g' gid = Some gate' ∧ ∀ x, x ∈ ids → x ∈ n_depends_on gate').
Context (Hparent' : ∀ p, n_parent gate = Some p →
  ∃ pn', get g' p = Some pn' ∧ ∀ x, x ∈ ids → x ∈ n_depends_on pn').
Context (Hdeps : ∀ x gt d, get g' x = Some gt → n_is_gate gt = true → d ∈ n_depends_on gt →
  (∃ m, get g' d = Some m ∧ n_is_gate m = false) ∨
  ∃ gt0, get g x = Some gt0 ∧ n_is_gate gt0 = true ∧ d ∈ n_depends_on gt0).

Lemma deep_shape_grow : deep_shape g'.
Proof using All.
  pose proof Hsh as [H1 H2 H3 H4 H5 H6]. split.
  - intros x y n m [(n0 & Hn0 & ? & ? & _)|(_ & ? & _)]%Horigin
      [(m0 & Hm0 & ? & ? & _)|(_ & ? & _)]%Horigin ???; try congruence.
    apply (H1 x y n0 m0); congruence.
  - intros x n _. destruct (H2 _ _ Hg) as (rg & gt & Hrg & ? & ?).
    destruct (Hkeeps _ _ Hrg) as (gt' & ? & ? & ? & _). exists rg, gt'.
    repeat split; congruence.
  - intros x n Hx Hng. pose proof (Horigin _ _ Hx) as [(n0 & Hn0 & ? & ? & _)|(Hin & _ & Hp & _)].
    + destruct (H3 _ _ Hn0) as (y & gt & Hy & ? & ? & ?); [congruence|].
      destruct (Hkeeps _ _ Hy) as (gt' & ? & ? & ? & _ & ?). exists y, gt'.
      repeat split; [done|congruence|congruence|auto].
    + destruct Hgate' as (gt' & Hgt & Hds). destruct (Hkeeps _ _ Hg) as (gt2 & ? & ? & ? & _).
      exists gid, gt'. repeat split; [done|congruence|congruence|auto].
  - intros x n p Hx Hp. pose proof (Horigin _ _ Hx) as [(n0 & Hn0 & _ & ? & _)|(Hin & _ & Hp' & _)].
    + destruct (H4 _ _ p Hn0) as (pn & Hpn & ? & ?); [congruence|].
      destruct (Hkeeps _ _ Hpn) as (pn' & ? & _ & _ & ? & ?). exists pn'.
      repeat split; [done|congruence|auto].
    + rewrite Hp in Hp'. symmetry in Hp'.
      destruct (H4 _ _ p Hg Hp') as (pn & Hpn & ? & _).
      destruct (Hkeeps _ _ Hpn) as (pn2 & ? & _ & _ & ? & _).
      destruct (Hparent' p Hp') as (pn' & ? & Hds). exists pn'.
      repeat split; [done|congruence|auto].
  - intros p pn [(n0 & Hn0 & ? & ? & ?)|(_ & _ & _ & ?)]%Horigin He; [|congruence].
    destruct (H5 _ _ Hn0) as (? & y & gt & Hy & ? & ?); [congruence|]. split; [congruence|].
    destruct (Hkeeps _ _ Hy) as (gt' & ? & ? & ? & _). exists y, gt'.
    repeat split; congruence.
  - intros x gt d m Hx Hgt Hd Hm.
    destruct (Hdeps _ _ _ Hx Hgt Hd) as [(m' & ? & ?)|(gt0 & Hx0 & Hg0 & Hd0)]; [congruence|].
    destruct (wf_closed _ Hwf _ _ _ Hx0 Hd0) as [m0 Hm0].
    destruct (Hkeeps _ _ Hm0) as (m' & ? & ? & _).
    pose proof (H6 _ _ _ _ Hx0 Hg0 Hd0 Hm0). congruence.
Qed.
End level_grow.

(** ** Gap injection *)

Section inject.
Context (g : TaskGraph) (gid : string) (gate : TaskNode) (specs : list NodeSpec).
Context (Hwf : wf g) (Hsh : deep_shape g).
Context (Hg : get g gid = Some gate) (Hgate : n_is_gate gate = true)
  (Hrun : n_status gate = Running).
Context (Hfresh : ∀ x, x ∈ spec_ids specs → get g x = None).

Let ids := spec_ids specs.
Let g' := inject_staged g gid gate specs.

(** The composite that owns the gate, if any, is another node. *)
Lemma inject_parent_ne : n_parent gate ≠ Some gid.
Proof using Hsh Hg Hgate.
  intros Hp. destruct (sh_parent _ Hsh _ _ _ Hg Hp) as (pn & Hpn & He & _).
  destruct (sh_composite _ Hsh _ _ Hpn He) as [? _]. congruence.
Qed.

Lemma inject_get_gate : get g' gid = Some (requeue_gate ids gate).
Proof using Hsh Hg Hgate.
  unfold g', inject_staged. pose proof inject_parent_ne as Hne.
  assert (get (modify (push_specs g specs (n_parent gate) OGap) gid (requeue_gate (spec_ids specs))) gid
          = Some (requeue_gate ids gate)) as Hgot.
  { rewrite get_modify_eq by done. by rewrite (get_push_specs_old _ _ _ _ _ _ Hg). }
  destruct (n_parent gate) as [p|]; [|done]. rewrite get_modify_ne; [done|done|congruence].
Qed.

Lemma inject_get_parent p pn :
  n_parent gate = Some p → get g p = Some pn → get g' p = Some (add_deps ids pn).
Proof using Hsh Hg Hgate.
  intros Hp Hpn. unfold g', inject_staged. pose proof inject_parent_ne as Hne. rewrite Hp in *.
  rewrite get_modify_eq by done. rewrite get_modify_ne; [|done|congruence].
  by rewrite (get_push_specs_old _ _ _ _ _ _ Hpn).
Qed.

Lemma inject_get_old x n :
  x ≠ gid → n_parent gate ≠ Some x → get g x = Some n → get g' x = Some n.
Proof using.
  intros Hx Hp Hn. unfold g', inject_staged.
  assert (get (modify (push_specs g specs (n_parent gate) OGap) gid (requeue_gate (spec_ids specs))) x
          = Some n) as Hgot.
  { rewrite get_modify_ne by done. by apply get_push_specs_old. }
  destruct (n_parent gate) as [p|]; [|done]. rewrite get_modify_ne; [done|done|congruence].
Qed.

Lemma inject_get_inv x n' :
  get g' x = Some n' →
  (x = gid ∧ n' = requeue_gate ids gate) ∨
  (x ≠ gid ∧ n_parent gate = Some x ∧ ∃ pn, get g x = Some pn ∧ n' = add_deps ids pn) ∨
  (x ≠ gid ∧ n_parent gate ≠ Some x ∧ get g x = Some n') ∨
  (get g x = None ∧ x ∈ ids ∧ n_status n' = Queued ∧ n_is_gate n' = false ∧
     n_parent n' = n_parent gate ∧ n_expanded n' = false).
Proof using Hsh Hg Hgate.
  intros Hx. destruct (decide (x = gid)) as [->|Hne].
  { left. rewrite inject_get_gate in Hx. by simplify_eq. }
  destruct (decide (n_parent gate = Some x)) as [Hp|Hp].
  { right; left. destruct (sh_parent _ Hsh _ _ _ Hg Hp) as (pn & Hpn & _).
    rewrite (inject_get_parent x pn Hp Hpn) in Hx. simplify_eq. eauto. }
  right; right. unfold g', inject_staged in Hx.
  assert (get (push_specs g specs (n_parent gate) OGap) x = Some n') as Hpush.
  { destruct (n_parent gate) as [p|]; [rewrite get_modify_ne in Hx by (done || congruence)|];
      by rewrite get_modify_ne in Hx. }
  apply get_push_specs in Hpush as [?|(? & ? & s & _ & ->)]; [auto|right; done].
Qed.

Lemma inject_get_new x :
  x ∈ ids → ∃ n', get g' x = Some n' ∧ n_is_gate n' = false.
Proof using Hsh Hg Hgate Hfresh.
  intros Hx. assert (get g x = None) as Hn by auto.
  assert (is_Some (get g' x)) as [n' Hn'].
  { apply get_is_Some. unfold g', inject_staged.
    destruct (n_parent gate); rewrite !node_ids_modify by done;
      rewrite node_ids_push_specs, elem_of_app; auto. }
  exists n'. split; [done|].
  apply inject_get_inv in Hn' as [[-> _]|[(_ & _ & pn & ? & _)|[(_ & _ & ?)|(_ & _ & _ & ? & _)]]];
    congruence.
Qed.

(** Old nodes keep their place; dependencies only grow. *)
Lemma inject_keeps x n :
  get g x = Some n → ∃ n', get g' x = Some n' ∧ n_is_gate n' = n_is_gate n ∧
    n_parent n' = n_parent n ∧ n_expanded n' = n_expanded n ∧
    (∀ d, d ∈ n_depends_on n → d ∈ n_depends_on n').
Proof using Hsh Hg Hgate.
  intros Hx. destruct (decide (x = gid)) as [->|Hne].
  { simplify_eq. eexists. split; [apply inject_get_gate|]. simpl. repeat split.
    intros d Hd. rewrite elem_of_push_all_new. auto. }
  destruct (decide (n_parent gate = Some x)) as [Hp|Hp].
  { eexists. split; [by eapply inject_get_parent|]. simpl. repeat split.
    intros d Hd. rewrite elem_of_push_all_new. auto. }
  exists n. split; [by apply inject_get_old|]. auto.
Qed.

(** What an old or new node looks like, seen from the graph before. *)
Lemma inject_origin x n' :
  get g' x = Some n' →
  (∃ n, get g x = Some n ∧ n_is_gate n' = n_is_gate n ∧ n_parent n' = n_parent n ∧
     n_expanded n' = n_expanded n) ∨
  (x ∈ ids ∧ n_is_gate n' = false ∧ n_parent n' = n_parent gate ∧ n_expanded n' = false).
Proof using Hsh Hg Hgate.
  intros [[-> ->]|[(_ & _ & pn & ? & ->)|[(_ & _ & ?)|(_ & ? & _ & ? & ? & ?)]]]%inject_get_inv;
    [left..|right]; eauto 10.
Qed.

Lemma deep_shape_inject : deep_shape g'.
Proof using Hwf Hsh Hg Hgate Hfresh.
  apply (deep_shape_grow g g' gid gate ids); auto using inject_keeps, inject_origin.
  - eexists. split; [apply inject_get_gate|]. intros x Hx. simpl.
    rewrite elem_of_push_all_new. auto.
  - intros p Hp. destruct (sh_parent _ Hsh _ _ _ Hg Hp) as (pn & Hpn & _).
    eexists. split; [by apply (inject_get_parent p pn)|]. intros x Hx. simpl.
    rewrite elem_of_push_all_new. auto.
  - intros x gt d Hx Hgt Hd.
    apply inject_get_inv in Hx as [[-> ->]|[(_ & _ & pn & ? & ->)|[(_ & _ & ?)|(_ & _ & _ & ? & _)]]];
      [..|congruence]; simpl in Hd; [rewrite elem_of_push_all_new in Hd..|]; [..|by eauto].
    all: destruct Hd; [by eauto|left; by apply inject_get_new].
Qed.

(** The owning composite waits for the gate, which runs, so it is not started. *)
Lemma inject_parent_waiting p pn :
  deep_status g → n_parent gate = Some p → get g p = Some pn → ¬ started pn.
Proof using Hsh Hg Hrun.
  intros [Hset _] Hp Hpn Hs. destruct (sh_parent _ Hsh _ _ _ Hg Hp) as (pn' & ? & _ & Hin).
  simplify_eq. destruct (Hset _ _ _ Hpn Hs Hin) as (m & ? & ?). congruence.
Qed.

Lemma deep_status_inject : deep_status g → deep_status g'.
Proof using All.
  intros Hst. 
  assert (∀ x pn, n_parent gate = Some x → get g x = Some pn → n_is_gate pn = false) as Hng.
  { intros x pn Hp Hpn. destruct (sh_parent _ Hsh _ _ _ Hg Hp) as (pn' & ? & He & _).
    simplify_eq. by destruct (sh_composite _ Hsh _ _ Hpn He). }
  split.
  - intros x n' d Hx Hs Hd. pose proof (inject_get_inv _ _ Hx)
      as [[-> ->]|[(_ & Hp & pn & Hpn & ->)|[(Hne & Hp & Hx0)|(_ & _ & Hq & _)]]].
    + destruct Hs as [|[? _]]; done.
    + exfalso. apply (inject_parent_waiting x pn); [done..|].
      destruct Hs as [|[? Hr]]; [by left|]. right. split; [done|].
      intros [? ?]. rewrite (Hng x pn) in *; done.
    + destruct (st_settled _ Hst _ _ _ Hx0 Hs Hd) as (m & Hm & Hms).
      exists m. split; [|done]. apply inject_get_old; [| |done].
      * intros ->. congruence.
      * intros Hp'. apply (inject_parent_waiting d m); [done..|]. by left.
    + destruct Hs as [|[? _]]; congruence.
  - intros x n' Hx Hs. pose proof (inject_get_inv _ _ Hx)
      as [[-> ->]|[(_ & Hp & pn & Hpn & ->)|[(Hne & Hp & Hx0)|(_ & _ & Hq & _)]]].
    + done.
    + exfalso. apply (inject_parent_waiting x pn); [done..|]. by left.
    + destruct (st_output _ Hst _ _ Hx0 Hs) as (a & Ha & Hv & Hpass).
      exists a. split; [done|]. split; [done|]. intros Hgx. rewrite <- (Hpass Hgx).
      eapply validate_gate_pass_ext; eauto. intros d Hd.
      destruct (st_settled _ Hst _ _ _ Hx0 (or_introl Hs) Hd) as (m & Hm & Hms).
      rewrite Hm. apply inject_get_old; [| |done].
      * intros ->. congruence.
      * intros Hp'. apply (inject_parent_waiting d m); [done..|]. by left.
    + congruence.
Qed.
End inject.

(** ** Seeding *)

Lemma elem_of_root_ids_intro g n :
  n ∈ g_nodes g → n_parent n = None → n_is_gate n = false → n_id n ∈ root_ids g.
Proof.
  intros Hn Hp Hg. unfold root_ids. apply list_elem_of_fmap. exists n. split; [done|].
  rewrite list_elem_of_In, filter_In, <- list_elem_of_In. split; [done|].
  unfold is_root_work. rewrite Hg. by rewrite bool_decide_eq_true_2.
Qed.

Lemma is_root_gate_true n : is_root_gate n = true ↔ root_gate n.
Proof. unfold is_root_gate, root_gate. by rewrite andb_true_iff, bool_decide_eq_true. Qed.

Lemma widen_gate_covered ids n :
  (∀ id, id ∈ ids → id ∈ n_depends_on n) → widen_gate ids n = n.
Proof.
  intros Hall. unfold widen_gate.
  assert (existsb (λ id, negb (mem id (n_depends_on n))) ids = false) as ->.
  { apply not_true_iff_false. intros (id & Hid & Hn%negb_true_iff%mem_false)%existsb_elem. auto. }
  simpl. assert (push_all_new (n_depends_on n) ids = n_depends_on n) as ->; [|by destruct n].
  unfold push_all_new. induction ids as [|id ids IH]; [done|]. simpl.
  unfold push_new at 2. rewrite (proj2 (mem_true id _)) by (apply Hall; left).
  apply IH. intros; apply Hall; by right.
Qed.

(** Widening leaves the gate alone when there is nothing new, and otherwise
    re-opens a closed one. *)
Lemma widen_gate_status ids n :
  widen_gate ids n = n ∨ n_status (widen_gate ids n) = Queued ∨
  (n_status n = Running ∧ n_status (widen_gate ids n) = Running).
Proof.
  destruct (existsb (λ id, negb (mem id (n_depends_on n))) ids) eqn:He.
  - unfold widen_gate, is_terminal. rewrite He. simpl.
    destruct (n_status n) eqn:E; simpl; rewrite ?E; auto.
  - left. apply widen_gate_covered.
    intros id Hid. destruct (decide (id ∈ n_depends_on n)) as [|Hout]; [done|].
    apply not_true_iff_false in He. exfalso. apply He, existsb_elem. exists id.
    split; [done|]. by apply negb_true_iff, mem_false.
Qed.

Lemma widen_gate_fields ids n :
  n_is_gate (widen_gate ids n) = n_is_gate n ∧ n_parent (widen_gate ids n) = n_parent n ∧
  n_expanded (widen_gate ids n) = n_expanded n.
Proof. unfold widen_gate. by destruct (_ && _). Qed.

Section seed.
Context (g : TaskGraph) (specs : list NodeSpec).
Context (Hwf : wf g) (Hsh : deep_shape g).
Let g1 := push_specs g specs None OSeed.
Context (Hst1 : structured g1).
Context (Hfresh : ∀ x, x ∈ spec_ids specs → get g x = None).

Lemma seed_get_inv x n :
  get g1 x = Some n →
  get g x = Some n ∨
  (get g x = None ∧ x ∈ root_ids g1 ∧ n_status n = Queued ∧ n_is_gate n = false ∧
     n_parent n = None ∧ n_expanded n = false).
Proof using.
  intros Hx. pose proof Hx as Hx'.
  apply get_push_specs in Hx as [?|(? & ? & s & _ & ->)]; [auto|right].
  split; [done|]. split; [|done]. rewrite <- (get_id _ _ _ Hx').
  by apply elem_of_root_ids_intro; [eapply get_elem|..].
Qed.

(** The root gate of the old graph is the one the code finds. *)
Lemma seed_find_gate gate :
  find is_root_gate (g_nodes g1) = Some gate →
  get g (n_id gate) = Some gate ∧ root_gate gate.
Proof using Hst1.
  intros [Hin Hr%is_root_gate_true]%find_Some_elem. split; [|done].
  apply get_NoDup in Hin; [|apply Hst1].
  apply seed_get_inv in Hin as [?|(_ & _ & _ & ? & _)]; [done|].
  destruct Hr. congruence.
Qed.

Lemma seed_find_none :
  find is_root_gate (g_nodes g1) = None → ∀ x, get g x = None.
Proof using Hsh.
  intros Hnone x. destruct (get g x) as [n|] eqn:Hx; [|done]. exfalso.
  destruct (sh_root _ Hsh _ _ Hx) as (rg & gt & Hrg & Hgt & Hp).
  eapply find_None_elem in Hnone; [|eapply get_elem, get_push_specs_old; exact Hrg].
  rewrite (proj2 (is_root_gate_true gt)) in Hnone; done.
Qed.

Section widen.
Context (gate : TaskNode).
Let rg := n_id gate.
Context (Hgate : get g rg = Some gate) (Hroot : root_gate gate).
Let g' := modify g1 rg (widen_gate (root_ids g1)).

Lemma widen_get_staged : get g1 rg = Some gate.
Proof using Hgate. by apply get_push_specs_old. Qed.

Lemma widen_get_inv x n :
  get g' x = Some n →
  (x = rg ∧ n = widen_gate (root_ids g1) gate) ∨
  (x ≠ rg ∧ get g x = Some n) ∨
  (get g x = None ∧ x ∈ root_ids g1 ∧ n_status n = Queued ∧ n_is_gate n = false ∧
     n_parent n = None ∧ n_expanded n = false).
Proof using Hgate.
  unfold g'. rewrite get_modify by apply widen_gate_id.
  destruct (decide (x = rg)) as [->|Hne].
  - rewrite widen_get_staged. intros [= <-]. auto.
  - intros [?|?]%seed_get_inv; auto.
Qed.

Lemma widen_get_gate : get g' rg = Some (widen_gate (root_ids g1) gate).
Proof using Hgate.
  unfold g'. rewrite get_modify_eq by apply widen_gate_id. by rewrite widen_get_staged.
Qed.

Lemma widen_get_old x n : x ≠ rg → get g x = Some n → get g' x = Some n.
Proof using.
  intros Hne Hx. unfold g'. rewrite get_modify_ne by (done || apply widen_gate_id).
  by apply get_push_specs_old.
Qed.

Lemma deep_shape_widen : deep_shape g'.
Proof using Hwf Hsh Hgate Hroot Hst1.
  destruct Hroot as [Hgt Hpar].
  destruct (widen_gate_fields (root_ids g1) gate) as (Hf1 & Hf2 & Hf3).
  apply (deep_shape_grow g g' rg gate (root_ids g1)); [done..| | | | |].
  - intros x n Hx. destruct (decide (x = rg)) as [->|Hne].
    + simplify_eq. eexists. split; [apply widen_get_gate|]. rewrite Hf1, Hf2, Hf3.
      repeat split. intros d Hd. rewrite widen_gate_deps, elem_of_push_all_new. auto.
    + exists n. split; [by apply widen_get_old|]. auto.
  - intros x n' [[-> ->]|[[_ ?]|(_ & ? & _ & ? & ? & ?)]]%widen_get_inv;
      [left; eauto 10|left; eauto 10|right]. rewrite Hpar. auto.
  - eexists. split; [apply widen_get_gate|]. intros x Hx.
    rewrite widen_gate_deps, elem_of_push_all_new. auto.
  - intros p Hp. congruence.
  - intros x gt d [[-> ->]|[[_ ?]|(_ & _ & _ & ? & _)]]%widen_get_inv Hg Hd;
      [|by eauto|congruence].
    rewrite widen_gate_deps, elem_of_push_all_new in Hd. destruct Hd as [Hd|Hd]; [by eauto|left].
    pose proof (elem_of_root_ids _ _ Hd) as (m & Hm & <- & _ & Hmg).
    destruct (root_ids_known _ _ Hd) as [m2 Hm2].
    destruct (decide (n_id m = rg)) as [Heq|Hne].
    + exfalso. pose proof (seed_get_inv _ _ Hm2) as Hinv.
      rewrite Heq in Hm2, Hinv. rewrite Hgate in Hinv. apply get_elem in Hm2 as Hm2'.
      apply get_NoDup in Hm; [|apply Hst1]. rewrite Heq in Hm.
      destruct Hinv as [?|[? _]]; congruence.
    + exists m. split; [|done]. unfold g'. rewrite get_modify_ne by (done || apply widen_gate_id).
      apply get_NoDup; [apply Hst1|done].
Qed.

Lemma deep_status_widen : deep_status g → deep_status g'.
Proof using Hwf Hsh Hgate Hroot.
  intros Hst. apply (deep_status_grow g); [done..| |].
  - intros x n' [[-> ->]|[[_ ?]|(_ & _ & ? & _)]]%widen_get_inv; auto.
    destruct (widen_gate_fields (root_ids g1) gate) as (Hf1 & Hf2 & _).
    destruct (widen_gate_status (root_ids g1) gate) as [->|[?|[_ ?]]]; auto.
    right; right. split; [done|]. unfold root_gate. by rewrite Hf1, Hf2.
  - intros x n Hx _ Hnr. apply widen_get_old; [|done]. intros ->. congruence.
Qed.
End widen.

(** The first seed of an empty plan creates the root gate over the whole batch. *)
Lemma deep_shape_first kind content :
  (∀ x, get g x = None) → root_ids g1 ≠ [] →
  deep_shape (push g1 (new_gate (unique_gate_id g1 "plan") content kind None (root_ids g1))).
Proof using Hst1.
  intros Hempty Hne. set (rg := unique_gate_id g1 "plan").
  set (gate := new_gate rg content kind None (root_ids g1)).
  pose proof (unique_gate_id_fresh g1 "plan" : get g1 rg = None) as Hrg.
  assert (∀ x n, get (push g1 gate) x = Some n →
    (x = rg ∧ n = gate) ∨
    (get g1 x = Some n ∧ x ∈ root_ids g1 ∧ n_is_gate n = false ∧ n_parent n = None ∧
       n_expanded n = false)) as Hinv.
  { intros x n. rewrite get_push. destruct (get g1 x) as [m|] eqn:Hm.
    - intros [= <-]. pose proof (seed_get_inv _ _ Hm) as Hm'.
      rewrite Hempty in Hm'. destruct Hm' as [|(_ & ? & _ & ? & ? & ?)]; [done|by right].
    - case_decide as Heq; [|done]. intros [= <-]. by left. }
  assert (get (push g1 gate) rg = Some gate) as Hgot.
  { rewrite get_push, Hrg. simpl. by rewrite decide_True. }
  split.
  - intros x y n m [[-> _]|(_ & _ & ? & _)]%Hinv [[-> _]|(_ & _ & ? & _)]%Hinv ??; congruence.
  - intros x n _. by exists rg, gate.
  - intros x n [[-> ->]|(_ & ? & _ & ? & _)]%Hinv Hg; [done|]. exists rg, gate. auto.
  - intros x n p [[-> ->]|(_ & _ & _ & ? & _)]%Hinv Hp; simplify_eq/=; congruence.
  - intros p pn [[-> ->]|(_ & _ & _ & _ & ?)]%Hinv Hp; simplify_eq/=; congruence.
  - intros x gt d m [[-> ->]|(_ & _ & ? & _)]%Hinv Hg Hd Hm; [|congruence].
    apply Hinv in Hm as [[-> _]|(_ & _ & ? & _)]; [|done].
    exfalso. simpl in Hd. apply root_ids_known in Hd as [? ?]. congruence.
Qed.

Lemma deep_status_first kind content :
  (∀ x, get g x = None) →
  deep_status (push g1 (new_gate (unique_gate_id g1 "plan") content kind None (root_ids g1))).
Proof using.
  intros Hempty.
  assert (∀ x n, get (push g1 (new_gate (unique_gate_id g1 "plan") content kind None (root_ids g1))) x
            = Some n → n_status n = Queued) as Hq.
  { intros x n. rewrite get_push. destruct (get g1 x) as [m|] eqn:Hm.
    - intros [= <-]. apply seed_get_inv in Hm. rewrite Hempty in Hm.
      by destruct Hm as [|(_ & _ & ? & _)].
    - case_decide; [|done]. by intros [= <-]. }
  split.
  - intros x n d Hx%Hq Hs. destruct Hs as [|[? _]]; congruence.
  - intros x n Hx%Hq Hs. congruence.
Qed.
End seed.

(** ** The invariant of deep plans *)

Record deep_inv (g : TaskGraph) : Prop := {
  di_mode : g_mode g = Deep;
  di_wf : wf g;
  di_shape : deep_shape g;
  di_status : deep_status g;
}.

Lemma deep_inv_new : deep_inv (graph_new Deep).
Proof. split; [done|apply wf_new|by split|by split]. Qed.

Lemma push_specs_no_root g specs :
  root_ids (push_specs g specs None OSeed) = [] → specs = [].
Proof.
  destruct specs as [|s specs]; [done|]. intros Hr. exfalso.
  assert (spec_to_node s None OSeed ∈ g_nodes (push_specs g (s :: specs) None OSeed)) as Hin.
  { rewrite g_nodes_push_specs. apply elem_of_app. right. by left. }
  apply elem_of_root_ids_intro in Hin; [|done..]. rewrite Hr in Hin. by apply elem_of_nil in Hin.
Qed.

Lemma deep_seed g specs g' :
  seed g specs = Ok g' → deep_inv g → deep_shape g' ∧ deep_status g'.
Proof.
  intros (unique & staged & Hnd & Hdeps & -> & -> & _)%seed_ok [Hm Hwf Hsh Hst].
  rewrite Hm. simpl requires_gates.
  pose proof (structured_seed _ _ (wf_structured _ Hwf) Hnd Hdeps) as Hst1.
  set (fresh := seed_fresh g unique) in *. unfold ensure_root_gate.
  destruct (root_ids (push_specs g fresh None OSeed)) as [|r rs] eqn:Hr.
  - apply push_specs_no_root in Hr as ->. done.
  - rewrite <- Hr. destruct (find is_root_gate _) as [gate|] eqn:Hf.
    + destruct (seed_find_gate g fresh Hst1 gate Hf) as [Hg Hroot].
      split; [by apply deep_shape_widen|by apply deep_status_widen].
    + pose proof (seed_find_none g fresh Hsh Hf) as Hempty.
      split; [apply deep_shape_first; [done|done|by rewrite Hr]|by apply deep_status_first].
Qed.

Lemma is_ready_spec g n :
  is_ready g n = true ↔ n_status n = Queued ∧ ∀ d, d ∈ n_depends_on n → done_in g d.
Proof.
  unfold is_ready. rewrite andb_true_iff, bool_decide_eq_true.
  unfold deps_satisfied. rewrite forallb_elem. unfold done_in.
  split; intros [Hq Hd]; (split; [done|]); intros d Hin; specialize (Hd d Hin).
  - destruct (get g d) as [m|]; [|done]. exists m. split; [done|].
    unfold is_done in Hd. by destruct (n_status m).
  - destruct Hd as (m & -> & Hs). unfold is_done. by rewrite Hs.
Qed.

Lemma keeps_shape_start w : keeps_shape (start_node w).
Proof. split; auto with omnis. Qed.
Lemma keeps_shape_finish a : keeps_shape (finish_node a).
Proof. split; auto with omnis. Qed.
Lemma keeps_shape_status st : keeps_shape (set_status st).
Proof. split; auto with omnis. Qed.
Lemma keeps_shape_requeue : keeps_shape requeue_node.
Proof. split; auto with omnis. Qed.
#[export] Hint Resolve keeps_shape_start keeps_shape_finish keeps_shape_status
  keeps_shape_requeue deep_shape_modify : omnis.

(** A gate that passes validation has its whole scope closed. *)
Lemma gate_pass_deps_done g x gate a :
  wf g → deep_shape g → get g x = Some gate → n_is_gate gate = true →
  validate_gate_pass g x a = Ok tt → ∀ d, d ∈ n_depends_on gate → done_in g d.
Proof.
  intros Hwf Hsh Hx Hg Hv d Hd.
  destruct (wf_closed _ Hwf _ _ _ Hx Hd) as [m Hm]. exists m. split; [done|].
  assert (m ∈ gate_audit_scope g gate) as Hin.
  { unfold gate_audit_scope. rewrite list_elem_of_In, filter_In, <- list_elem_of_In.
    rewrite (sh_gate_deps _ Hsh _ _ _ _ Hx Hg Hd Hm). split; [|done].
    apply list_elem_of_omap. eauto. }
  unfold validate_gate_pass in Hv. rewrite Hx in Hv.
  destruct (gate_audit_scope g gate) as [|m0 scope] eqn:Hs; [by apply elem_of_nil in Hin|].
  rewrite <- Hs in *. clear m0 scope Hs.
  destruct (map n_id (List.filter _ _)) as [|y ys] eqn:Hp; [|done]. clear Hv.
  destruct (is_done m) eqn:Hdone.
  - unfold is_done in Hdone. by destruct (n_status m).
  - exfalso. assert (n_id m ∈ map n_id (List.filter (λ n, negb (is_done n)) (gate_audit_scope g gate))) as Hpend.
    { apply list_elem_of_fmap. exists m. split; [done|].
      rewrite list_elem_of_In, filter_In, <- list_elem_of_In. by rewrite Hdone. }
    rewrite Hp in Hpend. by apply elem_of_nil in Hpend.
Qed.

Lemma deep_inv_step g g' : dag_step g g' → deep_inv g → deep_inv g'.
Proof.
  intros Hstep Hinv. pose proof Hinv as [Hm Hwf Hsh Hst].
  assert (deep_shape g' ∧ deep_status g') as [Hsh' Hst'];
    [|split; [by rewrite (mode_step _ _ Hstep)|by eapply wf_step|done|done]].
  destruct Hstep as [g specs g' H|g id w g' H|g id actor children g' out H
    |g id actor a g' H|g id actor g' H|g id actor specs g' ids H|g id g' H].
  - by eapply deep_seed.
  - apply dispatch_ok in H as (n & Hn & [Hq Hd]%is_ready_spec & ->).
    split; [auto with omnis|]. apply (deep_status_modify _ _ _ n); auto with omnis; [congruence|].
    intros Hs. done.
  - apply expand_node_ok in H as (n & Hn & _ & Hg & He & Hr & _ & _ & Hf & _ & -> & _).
    split; [by apply deep_shape_expand|by apply deep_status_expand].
  - apply complete_node_ok in H as (n & Hn & _ & Hr & Hv & Hp & ->). rewrite Hm in Hv.
    split; [auto with omnis|]. apply (deep_status_modify _ _ _ n); auto with omnis; [congruence| |].
    + intros _. destruct (decide (root_gate n)) as [[Hg Hpar]|Hnr].
      * eapply gate_pass_deps_done; eauto.
      * intros d Hd. eapply st_settled; eauto. by right.
    + intros _. exists a. auto.
  - apply fail_node_ok in H as (n & Hn & _ & Hr & ->).
    split; [auto with omnis|]. apply (deep_status_modify _ _ _ n); auto with omnis; [congruence| |done].
    intros [|[? _]]; done.
  - apply inject_from_gate_ok in H as (gate & Hn & _ & Hg & Hr & _ & _ & _ & Hf & _ & -> & _).
    split; [by apply deep_shape_inject|by apply deep_status_inject].
  - apply requeue_failed_ok in H as (n & Hn & Hf & ->).
    split; [auto with omnis|]. apply (deep_status_modify _ _ _ n); auto with omnis; [congruence| |done].
    intros [|[? _]]; done.
Qed.

Lemma deep_inv_reachable g : reachable Deep g → deep_inv g.
Proof.
  unfold reachable. intros H. cut (deep_inv (graph_new Deep)); [|apply deep_inv_new].
  induction H as [|x y z Hxy _ IH]; [done|]. intros Hx. eauto using deep_inv_step.
Qed.
