(* ===== verification/DagSeed.v ===== *)
(** * Replaying a seed

    A seed that was accepted can be sent again: the second run finds every
    declaration in place and leaves the plan unchanged.  This is what makes
    retries of the tool call safe. *)

From S2P Require Import Prelude RustStr Confidence DagTypes Kahn DagCycle DagOps DagInv DagGates.

(** ** Parents exist *)

Definition parents_known (g : TaskGraph) : Prop :=
  ∀ x n p, get g x = Some n → n_parent n = Some p → is_Some (get g p).

Lemma parents_known_modify g id f :
  (∀ n, n_id (f n) = n_id n) → (∀ n, n_parent (f n) = n_parent n) →
  parents_known g → parents_known (modify g id f).
Proof.
  intros Hid Hp Hg x n p Hx Hn.
  rewrite get_is_Some, node_ids_modify, <- get_is_Some by done.
  rewrite get_modify in Hx by done. destruct (decide (x = id)); [|by eauto].
  apply fmap_Some in Hx as (m & Hm & ->). rewrite Hp in Hn. eauto.
Qed.

Lemma is_Some_get_push g n d : is_Some (get g d) → is_Some (get (push g n) d).
Proof. intros [m Hm]. rewrite get_push, Hm. eauto. Qed.

Lemma is_Some_get_push_specs g specs parent origin d :
  is_Some (get g d) → is_Some (get (push_specs g specs parent origin) d).
Proof. intros [m Hm]. eexists. by apply get_push_specs_old. Qed.

Lemma parents_known_push g n :
  parents_known g → (∀ p, n_parent n = Some p → is_Some (get g p)) →
  parents_known (push g n).
Proof.
  intros Hg Hn x m p Hx Hp. apply is_Some_get_push. rewrite get_push in Hx.
  destruct (get g x) eqn:E; [simplify_eq; eauto|]. case_decide; [|done]. simplify_eq. eauto.
Qed.

Lemma parents_known_push_specs g specs parent origin :
  parents_known g → (∀ p, parent = Some p → is_Some (get g p)) →
  parents_known (push_specs g specs parent origin).
Proof.
  intros Hg Hp x n p Hx Hn. apply is_Some_get_push_specs.
  apply get_push_specs in Hx as [?|(_ & _ & s & _ & ->)]; eauto.
Qed.

Lemma parents_known_ensure g : parents_known g → parents_known (ensure_root_gate g).
Proof.
  intros Hg. unfold ensure_root_gate. destruct (root_ids g); [done|].
  destruct (find _ _); [|by apply parents_known_push].
  apply parents_known_modify; [apply widen_gate_id| |done].
  intros n. apply widen_gate_fields.
Qed.

Lemma parents_known_step g g' : dag_step g g' → parents_known g → parents_known g'.
Proof.
  destruct 1 as [g specs g' H|g id w g' H|g id actor children g' out H
    |g id actor a g' H|g id actor g' H|g id actor specs g' ids H|g id g' H]; intros Hg.
  - apply seed_ok in H as (u & st & _ & _ & -> & -> & _).
    assert (parents_known (push_specs g (seed_fresh g u) None OSeed))
      by (by apply parents_known_push_specs).
    destruct (requires_gates _); [by apply parents_known_ensure|done].
  - apply dispatch_ok in H as (n & _ & _ & ->). by apply parents_known_modify.
  - apply expand_node_ok in H as (n & Hn & _ & _ & _ & _ & _ & _ & _ & _ & -> & _).
    assert (parents_known (push_specs g children (Some id) OExpand)).
    { apply parents_known_push_specs; [done|]. intros p [= <-]. eauto. }
    unfold expand_staged. destruct (g_mode g); apply parents_known_modify;
      auto using make_composite_id, make_composite_parent.
    apply parents_known_push; [done|]. intros p [= <-]. apply is_Some_get_push_specs. eauto.
  - apply complete_node_ok in H as (n & _ & _ & _ & _ & _ & ->). by apply parents_known_modify.
  - apply fail_node_ok in H as (n & _ & _ & _ & ->). by apply parents_known_modify.
  - apply inject_from_gate_ok in H as (gate & Hn & _ & _ & _ & _ & _ & _ & _ & _ & -> & _).
    assert (parents_known (push_specs g specs (n_parent gate) OGap)).
    { apply parents_known_push_specs; [done|]. eauto. }
    unfold inject_staged. destruct (n_parent gate); repeat apply parents_known_modify; done.
  - apply requeue_failed_ok in H as (n & _ & _ & ->). by apply parents_known_modify.
Qed.

Lemma parents_known_reachable mode g : reachable mode g → parents_known g.
Proof.
  unfold reachable. intros H. cut (parents_known (graph_new mode)); [|done].
  induction H as [|x y z Hxy _ IH]; [done|]. eauto using parents_known_step.
Qed.

(** ** The second run *)

Lemma update_first_id {A} (p : A → bool) f (l : list A) :
  (∀ x, find p l = Some x → f x = x) → update_first p f l = l.
Proof.
  induction l as [|x l IH]; intros H; simpl in *; [done|].
  destruct (p x) eqn:E; [by rewrite H|]. by rewrite IH.
Qed.

Lemma ensure_root_gate_noop g : wf g → deep_shape g → ensure_root_gate g = g.
Proof.
  intros Hwf Hsh. unfold ensure_root_gate. destruct (root_ids g) as [|r rs] eqn:Hr; [done|].
  assert (r ∈ root_ids g) as Hin by (rewrite Hr; left). rewrite <- Hr. clear Hr rs.
  apply root_ids_known in Hin as [n Hn].
  destruct (sh_root _ Hsh _ _ Hn) as (rg & gt & Hrg & Hgt & Hpar).
  destruct (find is_root_gate (g_nodes g)) as [gate|] eqn:Hf.
  2: { eapply find_None_elem in Hf; [|by eapply get_elem].
       by rewrite (proj2 (is_root_gate_true gt)) in Hf. }
  apply find_Some_elem in Hf as [Hgin [Hgg Hgp]%is_root_gate_true].
  apply get_NoDup in Hgin; [|apply Hwf].
  unfold modify. destruct g as [mode nodes]. simpl. f_equal. apply update_first_id.
  intros gate' Hg'. apply widen_gate_covered. intros id Hid.
  change (get {| g_mode := mode; g_nodes := nodes |} (n_id gate) = Some gate') in Hg'.
  assert (gate' = gate) as -> by congruence.
  apply elem_of_root_ids in Hid as (m & Hm & <- & Hmp & Hmg).
  apply get_NoDup in Hm; [|apply Hwf].
  destruct (sh_cover _ Hsh _ _ Hm Hmg) as (y & gt2 & Hy & ? & ? & ?).
  assert (y = n_id gate) as -> by (eapply (sh_gate_unique _ Hsh); eauto; congruence).
  congruence.
Qed.

Lemma check_deps_mono g g' known specs :
  (∀ d, is_Some (get g d) → is_Some (get g' d)) →
  check_deps g known specs = Ok tt → check_deps g' known specs = Ok tt.
Proof.
  intros Hmono. induction specs as [|s specs IH]; simpl; [done|].
  destruct (unknown_dep g known (s_depends_on s)) eqn:Hu; [done|]. intros Hc.
  destruct (unknown_dep g' known (s_depends_on s)) as [d|] eqn:Hu'; [|auto].
  exfalso. unfold unknown_dep in *. apply find_Some_elem in Hu' as [Hd Hk].
  eapply find_None_elem in Hu; [|exact Hd].
  apply andb_true_iff in Hk as [Hk Hc'%negb_true_iff%contains_false].
  rewrite Hk in Hu. simpl in Hu. apply negb_false_iff, contains_spec, Hmono in Hu as [? ?].
  congruence.
Qed.

Lemma stage_seed_noop g staged specs :
  (∀ s, s ∈ specs → ∃ e, get g (default "" (s_id s)) = Some e ∧
     seed_spec_matches_existing g e s = true) →
  stage_seed g staged specs = Ok staged.
Proof.
  induction specs as [|s specs IH]; intros H; simpl; [done|].
  destruct (H s) as (e & -> & ->); [by left|]. simpl. apply IH. intros; apply H; by right.
Qed.

Lemma stage_seed_matches g staged specs staged' s e :
  stage_seed g staged specs = Ok staged' → s ∈ specs →
  get g (default "" (s_id s)) = Some e → seed_spec_matches_existing g e s = true.
Proof.
  revert staged. induction specs as [|s' specs IH]; intros staged H Hs He; [by apply elem_of_nil in Hs|].
  simpl in H. apply elem_of_cons in Hs as [->|Hs].
  - rewrite He in H. by destruct (seed_spec_matches_existing g e s').
  - destruct (get g (default "" (s_id s'))); [|by eapply IH].
    destruct (negb _); [done|]. by eapply IH.
Qed.

(** The replay test only looks at the parents of the declared dependencies. *)
Lemma matches_existing_ext g g' e s :
  (∀ d, d ∈ n_depends_on e → n_parent <$> get g' d = n_parent <$> get g d) →
  seed_spec_matches_existing g' e s = seed_spec_matches_existing g e s.
Proof.
  intros Hext. unfold seed_spec_matches_existing. destruct (_ || _); [done|]. f_equal.
  induction (n_depends_on e) as [|d ds IH]; [done|]. simpl.
  rewrite IH by (intros; apply Hext; by right).
  specialize (Hext d ltac:(by left)).
  destruct (get g' d), (get g d); simpl in Hext; simplify_eq; [by rewrite Hext|done].
Qed.

Lemma matches_fresh g s origin_none :
  origin_none = None →
  (∀ d m, get g d = Some m → n_parent m ≠ Some (default "" (s_id s))) →
  seed_spec_matches_existing g (spec_to_node s origin_none OSeed) s = true.
Proof.
  intros -> Hno. unfold seed_spec_matches_existing. simpl.
  rewrite !bool_decide_eq_false_2 by naive_solver. simpl.
  unfold dependency_sets_equal. apply bool_decide_eq_true, set_eq. intros x.
  rewrite !elem_of_list_to_set, elem_of_filterb, elem_of_dedup.
  split; [by intros [? _]|]. intros Hx. split; [done|].
  destruct (get g x) as [m|] eqn:E; [|done]. apply bool_decide_eq_true. eauto.
Qed.

(** Sealing the staged graph with its root gate keeps the work nodes, and the
    place of every node. *)
Definition seal (g : TaskGraph) : TaskGraph :=
  if requires_gates (g_mode g) then ensure_root_gate g else g.

Lemma seal_work g x n :
  structured g → get g x = Some n → n_is_gate n = false → get (seal g) x = Some n.
Proof.
  intros [Hnd _] Hx Hg. unfold seal, ensure_root_gate. destruct (requires_gates _); [|done].
  destruct (root_ids g); [done|]. destruct (find _ _) as [gate|] eqn:Hf.
  - apply find_Some_elem in Hf as [Hin [Hgg _]%is_root_gate_true].
    apply get_NoDup in Hin; [|done].
    rewrite get_modify_ne; [done|apply widen_gate_id|]. intros ->. congruence.
  - by rewrite get_push, Hx.
Qed.

Lemma seal_parent g x n :
  get g x = Some n → ∃ n', get (seal g) x = Some n' ∧ n_parent n' = n_parent n.
Proof.
  intros Hx. unfold seal, ensure_root_gate. destruct (requires_gates _); [|by eauto].
  destruct (root_ids g); [by eauto|]. destruct (find _ _) as [gate|] eqn:Hf.
  - rewrite get_modify by apply widen_gate_id. destruct (decide (x = n_id gate)) as [->|]; [|by eauto].
    rewrite Hx. simpl. eexists. split; [done|]. apply widen_gate_fields.
  - rewrite get_push, Hx. eauto.
Qed.

Lemma seal_parent_inv g x n' p :
  get (seal g) x = Some n' → n_parent n' = Some p → ∃ n, get g x = Some n ∧ n_parent n = Some p.
Proof.
  unfold seal, ensure_root_gate. destruct (requires_gates _); [|by eauto].
  destruct (root_ids g); [by eauto|]. destruct (find _ _) as [gate|] eqn:Hf.
  - rewrite get_modify by apply widen_gate_id. destruct (decide (x = n_id gate)) as [->|]; [|by eauto].
    intros (n & Hn & ->)%fmap_Some Hp. exists n. split; [done|].
    by rewrite (proj1 (proj2 (widen_gate_fields _ n))) in Hp.
  - rewrite get_push. destruct (get g x); [naive_solver|]. case_decide; [|done].
    intros [= <-]. done.
Qed.

(** A freshly seeded spec is found again under its own id. *)
Lemma get_seeded g unique s :
  NoDup (spec_ids unique) → s ∈ unique → get g (default "" (s_id s)) = None →
  get (push_specs g (seed_fresh g unique) None OSeed) (default "" (s_id s))
  = Some (spec_to_node s None OSeed).
Proof.
  intros Hnd Hs Hg.
  assert (s ∈ seed_fresh g unique) as Hf by (by apply elem_of_seed_fresh).
  assert (is_Some (get (push_specs g (seed_fresh g unique) None OSeed) (default "" (s_id s)))) as [n Hn].
  { apply get_is_Some. rewrite node_ids_push_specs. apply elem_of_app. right.
    apply list_elem_of_fmap. eauto. }
  rewrite Hn. apply get_id in Hn as Hid.
  apply get_push_specs in Hn as [?|(_ & _ & s' & [Hs' _]%elem_of_seed_fresh & ->)]; [congruence|].
  simpl in Hid. f_equal. f_equal.
  apply list_elem_of_lookup in Hs as [i Hi]. apply list_elem_of_lookup in Hs' as [j Hj].
  assert (i = j) as ->; [|congruence].
  eapply (NoDup_lookup (spec_ids unique)); [done|..];
    unfold spec_ids; rewrite list_lookup_fmap; [rewrite Hi|rewrite Hj]; simpl; by rewrite ?Hid.
Qed.

(** Each collected spec matches the node it finds in the sealed graph. *)
Lemma seal_matches g unique staged s :
  structured g → parents_known g → structured staged → NoDup (spec_ids unique) →
  stage_seed g g unique = Ok staged → s ∈ unique →
  ∃ e, get (seal staged) (default "" (s_id s)) = Some e ∧
    seed_spec_matches_existing (seal staged) e s = true.
Proof.
  intros [Hnd0 Hcl] Hpk Hst Hnd Hs Hin. pose proof (stage_seed_ok _ _ _ _ Hs) as ->.
  destruct (get g (default "" (s_id s))) as [e|] eqn:He.
  - pose proof (stage_seed_matches _ _ _ _ _ _ Hs Hin He) as Hm. exists e. split.
    + apply seal_work; [done|by apply get_push_specs_old|].
      unfold seed_spec_matches_existing in Hm. destruct (n_is_gate e); [|done].
      by rewrite orb_true_r in Hm.
    + rewrite <- Hm. apply matches_existing_ext. intros d Hd.
      destruct (Hcl _ _ _ He Hd) as [m Hm']. rewrite Hm'.
      destruct (seal_parent _ _ _ (get_push_specs_old g (seed_fresh g unique) None OSeed _ _ Hm'))
        as (m' & -> & Hp). simpl. by rewrite Hp.
  - exists (spec_to_node s None OSeed). split.
    + apply seal_work; [done|by apply get_seeded|done].
    + apply matches_fresh; [done|]. intros d m Hm Hp.
      destruct (seal_parent_inv _ _ _ _ Hm Hp) as (m0 & Hm0 & Hp0).
      apply get_push_specs in Hm0 as [Hm0|(_ & _ & s' & _ & ->)]; [|done].
      destruct (Hpk _ _ _ Hm0 Hp0) as [? ?]. congruence.
Qed.

Lemma seed_replay g specs g' :
  wf g → parents_known g → (g_mode g = Deep → deep_inv g) →
  seed g specs = Ok g' → seed g' specs = Ok g'.
Proof.
  intros Hwf Hpk Hdeep Hseed. pose proof (step_seed _ _ _ Hseed) as Hstep.
  pose proof (wf_step _ _ Hstep Hwf) as Hwf'. pose proof (mode_step _ _ Hstep) as Hmode.
  revert Hseed. unfold seed.
  destruct (collect_seed specs [] ∅) as [[unique indexes]|] eqn:Hc; [|done].
  apply collect_seed_ok in Hc as [Hnd Hdom _]; [|apply seed_inv_empty].
  assert (dom indexes = list_to_set (spec_ids unique)) as Hdom'.
  { apply set_eq. intros x. by rewrite elem_of_dom, Hdom, elem_of_list_to_set. }
  destruct (check_deps g (dom indexes) unique) as [[]|] eqn:Hd; [|done].
  destruct (stage_seed g g unique) as [staged|] eqn:Hs; [|done].
  intros [Heq Hcyc]%commit_acyclic_ok. change (g' = seal staged) in Heq.
  assert (structured staged) as Hst.
  { rewrite (stage_seed_ok _ _ _ _ Hs). rewrite Hdom' in Hd.
    apply structured_seed; [by apply wf_structured|done|done]. }
  rewrite (check_deps_mono g g'); [|..|done].
  2: { intros d [m Hm]. rewrite Heq, (stage_seed_ok _ _ _ _ Hs).
       destruct (seal_parent _ _ _ (get_push_specs_old g (seed_fresh g unique) None OSeed _ _ Hm))
         as (m' & ? & _). eauto. }
  rewrite stage_seed_noop.
  2: { intros s Hin. rewrite Heq. apply (seal_matches g unique); auto using wf_structured. }
  assert ((if requires_gates (g_mode g') then ensure_root_gate g' else g') = g') as ->.
  { destruct (g_mode g') eqn:Hm; [|done]. simpl. apply ensure_root_gate_noop; [done|].
    apply (deep_inv_step g g'); [done|]. apply Hdeep. congruence. }
  unfold commit_acyclic. by rewrite (proj2 (cycle_nodes_nil g' (wf_nodup _ Hwf')) (wf_acyclic _ Hwf')).
Qed.
