(* ===== verification/DagSim.v ===== *)
(** * The task-graph driver

    The simulator of [dag/sim.rs]: the loop that dispatches ready nodes to a pool of
    workers and applies what each worker decides.  A worker is a closure with
    captured state, so it is a state-passing function here.  The loop runs with
    fuel; every turn of it performs at least one worker step, so [max_steps] turns
    always suffice. *)

From S2P Require Import Prelude RustStr Confidence DagTypes Kahn DagCycle DagOps DagInv DagGates.

Inductive WorkerAction :=
  | Complete (artifact : HandoffArtifact)
  | Expand (children : list NodeSpec)
  | InjectGap (new_nodes : list NodeSpec)
  | Fail_.

Record SimReport := {
  r_steps : nat;
  r_completed : nat;
  r_failed : nat;
  r_stalled : bool;
}.

Definition report (g : TaskGraph) (steps : nat) (stalled : bool) : SimReport := {|
  r_steps := steps;
  r_completed := length (List.filter is_done (g_nodes g));
  r_failed := length (List.filter (λ n, bool_decide (n_status n = Failed)) (g_nodes g));
  r_stalled := stalled;
|}.

Definition deep_artifact (findings : string) : HandoffArtifact := {|
  a_findings := findings; a_evidence := []; a_edge_cases_considered := [];
  a_validation := None; a_open_questions := []; a_confidence := Some "high";
  a_what_i_did_not_check := ["nothing material; covered the stated scope"] |}.

Definition gate_pass_artifact (input : string) : HandoffArtifact :=
  let audited := map (before_str " (") (omap (strip_prefix "## ") (lines input)) in
  let findings :=
    match audited with
    | [] => "gate passed: no audited nodes in scope"
    | _ => "gate passed; audited each node: " +:+ join ", " audited +:+ ". No gaps remain."
    end in
  brief findings.

Definition apply_action (g : TaskGraph) (node_id worker_name : string) (action : WorkerAction)
  : result TaskGraph DagError :=
  match action with
  | Complete artifact => complete_node g node_id worker_name artifact
  | Expand children => let? (g', _) := expand_node g node_id worker_name children in Ok g'
  | InjectGap new_nodes => let? (g', _) := inject_from_gate g node_id worker_name new_nodes in Ok g'
  | Fail_ => fail_node g node_id worker_name
  end.

Section run.
Context {W : Type}.
(** The worker closure: it sees the node id, kind and assembled input. *)
Variable worker : W → string → NodeKind → string → WorkerAction * W.

Definition worker_name (max_workers idx : nat) : string :=
  "w" +:+ pretty (N.of_nat (idx mod max_workers)).

(** The [for] loop over one batch; an error leaves the loop and keeps the graph as
    the failed operation left it. *)
Fixpoint run_batch (max_workers idx : nat) (batch : list (string * NodeKind))
  (g : TaskGraph) (w : W) (steps : nat) : TaskGraph * W * result nat DagError :=
  match batch with
  | [] => (g, w, Ok steps)
  | (node_id, kind) :: batch =>
      let name := worker_name max_workers idx in
      match dispatch g node_id name with
      | (false, g) => run_batch max_workers (S idx) batch g w steps
      | (true, g) =>
          let input := assemble_input g node_id in
          let '(action, w) := worker w node_id kind input in
          match apply_action g node_id name action with
          | Err e => (g, w, Err e)
          | Ok g => run_batch max_workers (S idx) batch g w (S steps)
          end
      end
  end.

Definition ready_batch (max_workers : nat) (g : TaskGraph) : list (string * NodeKind) :=
  map (λ n, (n_id n, n_kind n)) (take max_workers (ready_nodes g)).

Fixpoint sim_loop (fuel max_workers max_steps : nat) (g : TaskGraph) (w : W) (steps : nat)
  : option (TaskGraph * W * result SimReport DagError) :=
  match fuel with
  | O => None
  | S fuel =>
      if all_terminal g then Some (g, w, Ok (report g steps false))
      else if bool_decide (max_steps ≤ steps) then Some (g, w, Ok (report g steps true))
      else match ready_batch max_workers g with
           | [] => Some (g, w, Ok (report g steps true))
           | ready =>
               match run_batch max_workers 0 ready g w steps with
               | (g, w, Err e) => Some (g, w, Err e)
               | (g, w, Ok steps) => sim_loop fuel max_workers max_steps g w steps
               end
           end
  end.

Definition run (g : TaskGraph) (max_workers max_steps : nat) (w : W)
  : option (TaskGraph * W * result SimReport DagError) :=
  sim_loop (S max_steps) max_workers max_steps g w 0.

(** ** Every turn is a run of engine operations *)

Lemma apply_action_step g id name action g' :
  apply_action g id name action = Ok g' → dag_step g g'.
Proof.
  destruct action; simpl; intros H.
  - by eapply step_complete.
  - destruct (expand_node _ _ _ _) as [[g2 out]|] eqn:E; simplify_eq. by eapply step_expand.
  - destruct (inject_from_gate _ _ _ _) as [[g2 out]|] eqn:E; simplify_eq. by eapply step_inject.
  - by eapply step_fail.
Qed.

Lemma run_batch_steps mw idx batch g w steps g' w' r :
  run_batch mw idx batch g w steps = (g', w', r) → rtc dag_step g g'.
Proof.
  revert idx g w steps. induction batch as [|[id kind] batch IH]; intros idx g w steps H; simpl in H.
  { simplify_eq. apply rtc_refl. }
  destruct (dispatch g id _) as [[] g1] eqn:Hd.
  - destruct (worker w id kind _) as [action w1].
    apply rtc_l with g1; [by eapply step_dispatch|].
    destruct (apply_action g1 _ _ _) as [g2|e] eqn:Ha; [|simplify_eq; apply rtc_refl].
    eapply rtc_l; [by eapply apply_action_step|eauto].
  - unfold dispatch in Hd. destruct (negb _); simplify_eq. eauto.
Qed.

(** The step counter grows by at most one per node of the batch. *)
Lemma run_batch_count mw idx batch g w steps g' w' steps' :
  run_batch mw idx batch g w steps = (g', w', Ok steps') →
  steps ≤ steps' ≤ steps + length batch.
Proof.
  revert idx g w steps. induction batch as [|[id kind] batch IH]; intros idx g w steps H; simpl in *.
  { simplify_eq. lia. }
  destruct (dispatch g id _) as [[] g1] eqn:Hd.
  - destruct (worker w id kind _) as [action w1].
    destruct (apply_action g1 _ _ _) as [g2|e] eqn:Ha; [|simplify_eq].
    apply IH in H. lia.
  - apply IH in H. lia.
Qed.

Lemma ready_batch_cons mw g id kind batch :
  wf g → ready_batch mw g = (id, kind) :: batch → ∃ n, get g id = Some n ∧ is_ready g n = true.
Proof.
  unfold ready_batch. intros Hwf H. destruct (take mw (ready_nodes g)) as [|n l] eqn:Ht; simplify_eq/=.
  assert (n ∈ ready_nodes g) as Hn.
  { rewrite <- (take_drop mw (ready_nodes g)), Ht. set_solver. }
  unfold ready_nodes in Hn. rewrite merge_sort_Permutation, elem_of_filterb in Hn.
  destruct Hn as [Hn Hr]. exists n. split; [|done]. apply get_NoDup; [apply Hwf|done].
Qed.

(** A turn that finds ready nodes performs at least one worker step: the first node
    of the batch is still ready when it is dispatched. *)
Lemma run_batch_progress mw g w steps g' w' steps' :
  wf g → ready_batch mw g ≠ [] →
  run_batch mw 0 (ready_batch mw g) g w steps = (g', w', Ok steps') → steps < steps'.
Proof.
  intros Hwf Hne H. destruct (ready_batch mw g) as [|[id kind] batch] eqn:Hb; [done|].
  destruct (ready_batch_cons _ _ _ _ _ Hwf Hb) as (n & Hn & Hr).
  simpl in H. unfold dispatch in H. rewrite Hn, Hr in H. simpl in H.
  destruct (worker w id kind _) as [action w1].
  destruct (apply_action _ _ _ _) as [g2|e]; [|done].
  apply run_batch_count in H. lia.
Qed.

Lemma wf_steps g g' : rtc dag_step g g' → wf g → wf g'.
Proof. induction 1; eauto using wf_step. Qed.

Lemma sim_loop_total fuel mw ms g w steps :
  wf g → ms - steps < fuel → is_Some (sim_loop fuel mw ms g w steps).
Proof.
  revert g w steps. induction fuel as [|fuel IH]; intros g w steps Hwf Hf; [lia|].
  cbn [sim_loop]. destruct (all_terminal g); [eauto|]. case_bool_decide; [eauto|].
  destruct (ready_batch mw g) as [|p l] eqn:Hb; [eauto|]. rewrite <- Hb.
  destruct (run_batch mw 0 _ g w steps) as [[g1 w1] [steps1|e]] eqn:Hr; [|eauto].
  apply IH.
  - eapply wf_steps; [by eapply run_batch_steps|done].
  - apply run_batch_progress in Hr; [lia|done|by rewrite Hb].
Qed.

(** ** Nothing keeps running between turns *)

Definition idle_but (P : string → Prop) (g : TaskGraph) : Prop :=
  ∀ x n, get g x = Some n → ¬ P x → n_status n ≠ Running.

Definition nothing_runs : TaskGraph → Prop := idle_but (λ _, False).

Lemma idle_but_push P g n : n_status n = Queued → idle_but P g → idle_but P (push g n).
Proof.
  intros Hq Hi x m Hm Hx. rewrite get_push in Hm. destruct (get g x) eqn:E.
  - simplify_eq. eauto.
  - case_decide; simplify_eq. by rewrite Hq.
Qed.

Lemma idle_but_push_specs P g specs parent origin :
  idle_but P g → idle_but P (push_specs g specs parent origin).
Proof.
  intros Hi x m Hm Hx. apply get_push_specs in Hm as [Hm|(_ & _ & spec & _ & ->)]; [eauto|done].
Qed.

(** A change of one node keeps the others idle, and the node itself when its new
    status is not [Running]. *)
Lemma idle_but_modify P g id f :
  (∀ n, n_id (f n) = n_id n) → (∀ n, n_status n ≠ Running → n_status (f n) ≠ Running) →
  idle_but P g → idle_but P (modify g id f).
Proof.
  intros Hid Hst Hi x m Hm Hx. rewrite get_modify in Hm by done.
  case_decide; [|eauto]. subst. apply fmap_Some in Hm as (n & Hn & ->). eauto.
Qed.

Lemma idle_modify g id f :
  (∀ n, n_id (f n) = n_id n) → (∀ n, n_status (f n) ≠ Running) →
  idle_but (λ x, x = id) g → nothing_runs (modify g id f).
Proof.
  intros Hid Hst Hi x m Hm _. rewrite get_modify in Hm by done.
  case_decide; [|eauto]. subst. apply fmap_Some in Hm as (n & Hn & ->). eauto.
Qed.

Lemma idle_start g id name : nothing_runs g → idle_but (λ x, x = id) (modify g id (start_node name)).
Proof.
  intros Hi x m Hm Hx. rewrite get_modify_ne in Hm by done. eapply Hi; eauto.
Qed.

Lemma apply_action_idle g id name action g' :
  idle_but (λ x, x = id) g → apply_action g id name action = Ok g' → nothing_runs g'.
Proof.
  intros Hi H. destruct action as [a|children|specs|]; simpl in H.
  - apply complete_node_ok in H as (n & _ & _ & _ & _ & _ & ->). by apply idle_modify.
  - destruct (expand_node _ _ _ _) as [[g2 out]|] eqn:E; simplify_eq.
    apply expand_node_ok in E as (n & _ & _ & _ & _ & _ & _ & _ & _ & _ & -> & _).
    unfold expand_staged. destruct (g_mode g); apply idle_modify;
      eauto using make_composite_id, idle_but_push_specs, idle_but_push;
      intros; by rewrite make_composite_status.
  - destruct (inject_from_gate _ _ _ _) as [[g2 out]|] eqn:E; simplify_eq.
    apply inject_from_gate_ok in E as (gate & _ & _ & _ & _ & _ & _ & _ & _ & _ & -> & _).
    assert (nothing_runs (modify (push_specs g specs (n_parent gate) OGap) id
              (requeue_gate (spec_ids specs)))) by (apply idle_modify; auto using idle_but_push_specs).
    unfold inject_staged. destruct (n_parent gate); [by apply idle_but_modify|done].
  - apply fail_node_ok in H as (n & _ & _ & _ & ->). by apply idle_modify.
Qed.

Lemma run_batch_idle mw idx batch g w steps g' w' steps' :
  nothing_runs g → run_batch mw idx batch g w steps = (g', w', Ok steps') → nothing_runs g'.
Proof.
  revert idx g w steps. induction batch as [|[id kind] batch IH]; intros idx g w steps Hi H; simpl in H.
  { by simplify_eq. }
  destruct (dispatch g id _) as [[] g1] eqn:Hd.
  - destruct (worker w id kind _) as [action w1].
    destruct (apply_action g1 _ _ _) as [g2|e] eqn:Ha; [|done].
    eapply IH; [|exact H]. eapply apply_action_idle; [|exact Ha].
    apply dispatch_ok in Hd as (n & _ & _ & ->). by apply idle_start.
  - unfold dispatch in Hd. destruct (negb _); simplify_eq. eauto.
Qed.

(** ** What a finished run looks like *)

(** A queued node of an acyclic graph leads back to a ready one or to a blocker. *)
Lemma ready_upstream g x n :
  wf g → get g x = Some n → n_status n = Queued →
  (∀ y m, get g y = Some m → n_status m = Queued ∨ n_status m = Done) →
  ∃ r, r ∈ g_nodes g ∧ is_ready g r = true.
Proof.
  intros Hwf Hx Hq Hall.
  assert (Acc (dep g) x) as Hacc.
  { assert (∀ c, ¬ tc (dep g) c c) as Hac by apply (wf_acyclic _ Hwf).
    assert (sn (flip (dep g)) x) as Hsn; [|exact Hsn].
    apply tc_finite_sn.
    - intros y Hy%tc_flip. by apply (Hac y).
    - exists (node_ids g). intros y Hy%tc_flip.
      apply tc_dep_known in Hy as [Hy _]. by apply get_is_Some. }
  revert n Hx Hq. induction Hacc as [x _ IH]. intros n Hx Hq.
  destruct (is_ready g n) eqn:Hr; [exists n; eauto with omnis|].
  assert (¬ Forall (λ d, match get g d with Some m => is_done m | None => false end = true)
            (n_depends_on n)) as Hnot.
  { intros Hfa. rewrite Forall_forall in Hfa. unfold is_ready in Hr.
    rewrite bool_decide_eq_true_2 in Hr by done. simpl in Hr.
    apply not_true_iff_false in Hr. apply Hr. by apply forallb_elem. }
  apply not_Forall_Exists in Hnot; [|apply _].
  apply Exists_exists in Hnot as (d & Hd & Hnd).
  destruct (wf_closed _ Hwf _ _ _ Hx Hd) as [m Hm]. simpl in Hnd. rewrite Hm in Hnd.
  destruct (Hall _ _ Hm) as [Hmq|Hmd].
  - apply (IH d) with m; [|done|done]. exists n. eauto.
  - exfalso. apply Hnd. by apply is_done_iff.
Qed.


(** The report describes the final graph; a stall has one of three causes. *)
Record sim_ok (mw ms : nat) (steps : nat) (g' : TaskGraph) (r : SimReport) : Prop := {
  so_report : r = report g' (r_steps r) (r_stalled r);
  so_budget : r_steps r < ms + mw ∨ r_steps r = steps;
  so_finished : r_stalled r = false → all_terminal g' = true;
  so_stalled : r_stalled r = true →
    all_terminal g' = false ∧ (ms ≤ r_steps r ∨ mw = 0 ∨ ready_nodes g' = []);
}.

Lemma sim_loop_ok fuel mw ms g w steps g' w' r :
  sim_loop fuel mw ms g w steps = Some (g', w', Ok r) → sim_ok mw ms steps g' r.
Proof.
  revert g w steps. induction fuel as [|fuel IH]; intros g w steps H; [done|].
  cbn [sim_loop] in H. destruct (all_terminal g) eqn:Ht; [simplify_eq; by split; auto|].
  case_bool_decide; [simplify_eq; by split; auto|].
  destruct (ready_batch mw g) as [|p l] eqn:Hb.
  - simplify_eq. split; auto; [done|]. intros _. split; [done|]. simpl.
    unfold ready_batch in Hb. apply map_eq_nil in Hb.
    destruct mw; [auto|]. destruct (ready_nodes g'); [auto|done].
  - rewrite <- Hb in H.
    destruct (run_batch mw 0 _ g w steps) as [[g1 w1] [steps1|e]] eqn:Hr; [|done].
    apply IH in H as [H1 H2 H3 H4]. split; auto.
    destruct H2 as [|H2]; [auto|]. apply run_batch_count in Hr.
    assert (length (ready_batch mw g) ≤ mw) by (unfold ready_batch; rewrite length_map, length_take; lia).
    left. rewrite H2. lia.
Qed.

Lemma sim_loop_steps fuel mw ms g w steps g' w' r :
  sim_loop fuel mw ms g w steps = Some (g', w', r) → rtc dag_step g g'.
Proof.
  revert g w steps. induction fuel as [|fuel IH]; intros g w steps H; [done|].
  cbn [sim_loop] in H. destruct (all_terminal g); [simplify_eq; apply rtc_refl|].
  case_bool_decide; [simplify_eq; apply rtc_refl|].
  destruct (ready_batch mw g) as [|p l] eqn:Hb; [simplify_eq; apply rtc_refl|]. rewrite <- Hb in H.
  destruct (run_batch mw 0 _ g w steps) as [[g1 w1] [steps1|e]] eqn:Hr.
  - etrans; [by eapply run_batch_steps|eauto].
  - simplify_eq. by eapply run_batch_steps.
Qed.

Lemma sim_loop_idle fuel mw ms g w steps g' w' r :
  nothing_runs g → sim_loop fuel mw ms g w steps = Some (g', w', Ok r) → nothing_runs g'.
Proof.
  revert g w steps. induction fuel as [|fuel IH]; intros g w steps Hi H; [done|].
  cbn [sim_loop] in H. destruct (all_terminal g); [by simplify_eq|].
  case_bool_decide; [by simplify_eq|].
  destruct (ready_batch mw g) as [|p l] eqn:Hb; [by simplify_eq|]. rewrite <- Hb in H.
  destruct (run_batch mw 0 _ g w steps) as [[g1 w1] [steps1|e]] eqn:Hr; [|done].
  eapply IH; [|exact H]. by eapply run_batch_idle.
Qed.

(** With nothing running, a plan without ready nodes is finished or has a failure. *)
Lemma no_ready_explained g :
  wf g → nothing_runs g → ready_nodes g = [] → all_terminal g = false →
  ∃ x n, get g x = Some n ∧ n_status n = Failed.
Proof.
  intros Hwf Hi Hr Ht.
  destruct (existsb (λ n, bool_decide (n_status n = Failed)) (g_nodes g)) eqn:Hf.
  { apply existsb_elem in Hf as (n & Hn & Hs%bool_decide_eq_true).
    exists (n_id n), n. split; [|done]. apply get_NoDup; [apply Hwf|done]. }
  exfalso.
  assert (∀ y m, get g y = Some m → n_status m = Queued ∨ n_status m = Done) as Hall.
  { intros y m Hm. assert (n_status m ≠ Failed).
    { intros Hs. apply not_true_iff_false in Hf. apply Hf, existsb_elem. exists m.
      split; [by eapply get_elem|by apply bool_decide_eq_true]. }
    pose proof (Hi y m Hm (λ H, H)). by destruct (n_status m); auto. }
  assert (∃ n, n ∈ g_nodes g ∧ n_status n = Queued) as (n & Hn & Hq).
  { apply not_true_iff_false in Ht. unfold all_terminal in Ht.
    destruct (existsb (λ n, bool_decide (n_status n = Queued)) (g_nodes g)) eqn:He.
    - apply existsb_elem in He as (n & Hn & ?%bool_decide_eq_true). eauto.
    - destruct Ht. apply forallb_elem. intros n Hn. apply not_true_iff_false in He.
      destruct (Hall (n_id n) n) as [Hq|Hd].
      + apply get_NoDup; [apply Hwf|done].
      + destruct He. apply existsb_elem. exists n. split; [done|by apply bool_decide_eq_true].
      + unfold is_terminal. by rewrite Hd. }
  destruct (ready_upstream g (n_id n) n Hwf) as (r & Hin & Hready); [|done..|].
  { apply get_NoDup; [apply Hwf|done]. }
  assert (r ∈ ready_nodes g) as Hin'.
  { unfold ready_nodes. by rewrite merge_sort_Permutation, elem_of_filterb. }
  rewrite Hr in Hin'. by apply elem_of_nil in Hin'.
Qed.
End run.
