(* ===== verification/DagTheorems.v ===== *)
(** * What the task graph guarantees

    The properties of the DAG engine, each with a concrete instance. *)

From S2P Require Import Prelude RustStr Confidence DagTypes Kahn DagCycle DagOps DagInv DagGates DagSeed DagSim.

(** ** Sample plans for the instances *)

Definition spec_a : NodeSpec := spec_new "a" "survey the parser" Explore.
Definition spec_b : NodeSpec := spec_depends_on (spec_new "b" "fix the parser" Implement) ["a"].
Definition spec_c : NodeSpec := spec_new "a.1" "read the lexer" Explore.

Definition unwrap (g : TaskGraph) (r : result TaskGraph DagError) : TaskGraph :=
  match r with Ok g' => g' | Err _ => g end.

Definition plan0 : TaskGraph := unwrap (graph_new Deep) (seed (graph_new Deep) [spec_a; spec_b]).
Definition plan1 : TaskGraph := (dispatch plan0 "a" "w0").2.
Definition plan2 : TaskGraph :=
  match expand_node plan1 "a" "w0" [spec_c] with Ok (g, _) => g | Err _ => plan1 end.

(** Dispatch a node and complete it at once. *)
Definition work (g : TaskGraph) (id : string) (a : HandoffArtifact) : TaskGraph :=
  let g1 := (dispatch g id "w0").2 in unwrap g1 (complete_node g1 id "w0" a).

Definition plan3 : TaskGraph := work plan2 "a.1" (deep_artifact "the lexer is fine").
Definition plan4 : TaskGraph := work plan3 "a::gate" (brief "audited a.1: covered").
Definition plan5 : TaskGraph := work plan4 "a" (deep_artifact "parser surveyed").
Definition plan6 : TaskGraph := work plan5 "b" (deep_artifact "parser fixed").
Definition plan7 : TaskGraph := work plan6 "plan::gate" (brief "audited a and b; no gaps remain").

(** One step of a run, decided by evaluation. *)
Ltac step_by c := eapply rtc_r; [|eapply c; vm_compute; reflexivity].

Lemma plan0_reachable : reachable Deep plan0.
Proof. eapply rtc_r; [apply rtc_refl|]. apply (step_seed _ [spec_a; spec_b]). vm_compute. reflexivity. Qed.

Lemma plan1_reachable : reachable Deep plan1.
Proof. eapply rtc_r; [apply plan0_reachable|]. apply (step_dispatch _ "a" "w0"). vm_compute. reflexivity. Qed.

Lemma plan2_reachable : reachable Deep plan2.
Proof.
  eapply rtc_r; [apply plan1_reachable|].
  eapply (step_expand _ "a" "w0" [spec_c]). vm_compute. reflexivity.
Qed.

Lemma work_reachable g id a :
  reachable Deep g → (dispatch g id "w0").1 = true →
  is_ok (complete_node (dispatch g id "w0").2 id "w0" a) = true →
  reachable Deep (work g id a).
Proof.
  unfold work. destruct (dispatch g id "w0") as [b g1] eqn:Hd. simpl. intros Hg -> Hc.
  destruct (complete_node g1 id "w0" a) as [g2|] eqn:Hc'; [|done]. simpl.
  eapply rtc_r; [|by eapply step_complete]. eapply rtc_r; [exact Hg|by eapply step_dispatch].
Qed.

Lemma plan7_reachable : reachable Deep plan7.
Proof.
  unfold plan7, plan6, plan5, plan4, plan3.
  do 5 (apply work_reachable; [|vm_compute; reflexivity|vm_compute; reflexivity]).
  apply plan2_reachable.
Qed.

(** ** Cycle detection *)

(** C1 (functional). For a graph with unique ids the work-list loop of [cycle_nodes]
    finishes, and the result is exactly the nodes that lie on a dependency cycle or
    downstream of one, in sorted order; in particular it is empty exactly when the
    graph is acyclic. *)
Theorem cycle_nodes_exact g :
  NoDup (node_ids g) →
  is_Some (kahn g) ∧
  (∀ x, x ∈ cycle_nodes g ↔
     is_Some (get g x) ∧ ∃ c, tc (dep g) c c ∧ rtc (dep g) c x) ∧
  Sorted String.le (cycle_nodes g) ∧
  (cycle_nodes g = [] ↔ acyclic g).
Proof.
  intros Hnd. split; [by apply kahn_total|]. split; [|split].
  - intros x. by apply elem_of_cycle_nodes.
  - apply Sorted_merge_sort, _.
  - by apply cycle_nodes_nil.
Qed.

Definition cyclic_plan : TaskGraph :=
  push_specs (graph_new Light)
    [spec_depends_on (spec_new "x" "" Explore) ["y"; "y"];
     spec_depends_on (spec_new "y" "" Explore) ["x"];
     spec_depends_on (spec_new "z" "" Explore) ["y"];
     spec_new "u" "" Explore] None OSeed.

Lemma cycle_nodes_exact_witness :
  cycle_nodes cyclic_plan = ["x"; "y"; "z"] ∧ ¬ acyclic cyclic_plan.
Proof.
  assert (NoDup (node_ids cyclic_plan)) as Hnd.
  { apply (bool_decide_unpack _). vm_compute. exact I. }
  pose proof (cycle_nodes_exact cyclic_plan Hnd) as (_ & _ & _ & Hiff).
  split; [vm_compute; reflexivity|]. intros Hac. apply Hiff in Hac.
  vm_compute in Hac. discriminate.
Defined.

(** ** Invariants of every plan *)

(** C2 (invariant). Starting from the empty graph, whatever sequence of successful
    engine operations runs, node ids stay unique, every dependency names an
    existing node and the graph stays acyclic. *)
Theorem engine_preserves_well_formedness mode g :
  reachable mode g →
  NoDup (node_ids g) ∧
  (∀ x n d, get g x = Some n → d ∈ n_depends_on n → is_Some (get g d)) ∧
  acyclic g.
Proof. intros [H1 H2 H3]%wf_reachable. done. Qed.

Lemma engine_preserves_well_formedness_witness :
  node_ids plan2 = ["a"; "b"; "plan::gate"; "a.1"; "a::gate"] ∧ acyclic plan2.
Proof.
  split; [vm_compute; reflexivity|].
  by destruct (engine_preserves_well_formedness Deep plan2 plan2_reachable) as (_ & _ & ?).
Defined.

(** ** Gates *)

Lemma unaddressed_nil a scope :
  unaddressed a scope = [] ↔ ∀ m, m ∈ scope → addressed a (n_id m) = true.
Proof. unfold unaddressed. rewrite map_filterb_nil. by setoid_rewrite negb_false_iff. Qed.

(** What the gate's artifact must say about one node of its audit scope. *)
Definition accounted (scope : list TaskNode) (a : HandoffArtifact) (m : TaskNode) : Prop :=
  n_status m = Done ∧
  (output_confidence m = Some Low → addressed a (n_id m) = true) ∧
  (length scope ≤ GATE_COVERAGE_ENUMERATION_CAP ∨ output_confidence m ≠ Some High →
   addressed a (n_id m) = true).


(** A check of the form "collect the offenders, fail when there are any". *)
Lemma fail_if_any {A E} (l : list A) (e : list A → E) (k : result unit E) :
  (if match l with [] => false | _ => true end then Err (e l) else k) = Ok tt ↔
  l = [] ∧ k = Ok tt.
Proof. destruct l; naive_solver. Qed.

Lemma gate_pass_iff g x gate a :
  get g x = Some gate →
  validate_gate_pass g x a = Ok tt ↔
  ∀ m, m ∈ gate_audit_scope g gate → accounted (gate_audit_scope g gate) a m.
Proof.
  intros Hx. unfold validate_gate_pass. rewrite Hx.
  destruct (gate_audit_scope g gate) as [|m0 l] eqn:Hs.
  { split; [|done]. intros _ m Hm. by apply elem_of_nil in Hm. }
  rewrite <- Hs. set (scope := gate_audit_scope g gate). unfold accounted.
  rewrite (fail_if_any (map n_id _)), (fail_if_any (unaddressed a _)), (fail_if_any (unaddressed a _)).
  rewrite map_filterb_nil, !unaddressed_nil. setoid_rewrite negb_false_iff.
  setoid_rewrite is_done_iff. setoid_rewrite elem_of_filterb. setoid_rewrite bool_decide_eq_true.
  split.
  - intros (Hd & Hl & Hc & _) m Hm. split; [auto|]. split; [auto|].
    intros Hor. apply Hc. case_decide; [done|]. apply elem_of_filterb.
    rewrite bool_decide_eq_true. split; [done|]. by destruct Hor.
  - intros Hall. split; [intros m Hm; by destruct (Hall m Hm)|].
    split; [intros m [Hm ?]; destruct (Hall m Hm) as (_ & Ha & _); auto|].
    split; [|done]. intros m Hm. case_decide.
    + destruct (Hall m Hm) as (_ & _ & Ha). auto.
    + apply elem_of_filterb in Hm as [Hm Hc%bool_decide_eq_true].
      destruct (Hall m Hm) as (_ & _ & Ha). auto.
Qed.

(** C4 (functional). A deep gate passes validation exactly when every work node it
    waits for is done, every low-confidence one is named in the artifact, and
    every one of them (or, past the enumeration cap, every one that did not
    report high confidence) is named. *)
Theorem gate_pass_exact g x gate a :
  get g x = Some gate →
  validate_gate_pass g x a = Ok tt ↔
  ∀ m, m ∈ gate_audit_scope g gate → accounted (gate_audit_scope g gate) a m.
Proof. apply gate_pass_iff. Qed.

Lemma gate_pass_exact_witness :
  validate_gate_pass plan3 "a::gate" (brief "audited a.1: covered") = Ok tt ∧
  validate_gate_pass plan3 "a::gate" (brief "all good, no gaps") ≠ Ok tt ∧
  ∀ m gate, get plan3 "a::gate" = Some gate → m ∈ gate_audit_scope plan3 gate →
    accounted (gate_audit_scope plan3 gate) (brief "audited a.1: covered") m.
Proof.
  split; [vm_compute; reflexivity|]. split; [vm_compute; discriminate|].
  intros m gate Hg. apply (gate_pass_exact plan3 "a::gate" gate); [exact Hg|].
  vm_compute. reflexivity.
Defined.

(** C3 (safety). When a deep plan has finished (every node is done), every piece of
    work has been audited: the gate of its level is done, waited for it, and
    carries an artifact that accounts for it. *)
Theorem finished_deep_plan_is_audited g :
  reachable Deep g →
  (∀ x n, get g x = Some n → n_status n = Done) →
  ∀ x n, get g x = Some n → n_is_gate n = false →
  ∃ y gate a,
    get g y = Some gate ∧ n_is_gate gate = true ∧ n_status gate = Done ∧
    n_parent gate = n_parent n ∧ x ∈ n_depends_on gate ∧
    n_output gate = Some a ∧ accounted (gate_audit_scope g gate) a n.
Proof.
  intros [_ Hwf Hsh Hst]%deep_inv_reachable Hall x n Hx Hg.
  destruct (sh_cover _ Hsh _ _ Hx Hg) as (y & gate & Hy & Hgg & Hp & Hin).
  destruct (st_output _ Hst _ _ Hy (Hall _ _ Hy)) as (a & Ha & _ & Hv).
  exists y, gate, a. repeat (split; [by eauto|]).
  apply (gate_pass_iff g y gate a Hy); [by apply Hv|].
  apply elem_of_filterb. split; [|by rewrite Hg].
  apply list_elem_of_omap. eauto.
Qed.

Lemma finished_deep_plan_is_audited_witness :
  ∃ y gate a,
    get plan7 y = Some gate ∧ n_is_gate gate = true ∧ n_status gate = Done ∧
    n_parent gate = Some "a" ∧ "a.1" ∈ n_depends_on gate ∧ n_output gate = Some a ∧
    addressed a "a.1" = true.
Proof.
  destruct (get plan7 "a.1") as [n|] eqn:Hn; [|vm_compute in Hn; discriminate].
  assert (∀ x m, get plan7 x = Some m → n_status m = Done) as Hall.
  { intros x m Hx%get_elem.
    assert (forallb (λ m, bool_decide (n_status m = Done)) (g_nodes plan7) = true) as Hb
      by (vm_compute; reflexivity).
    rewrite forallb_elem in Hb. by apply Hb, bool_decide_eq_true in Hx. }
  destruct (finished_deep_plan_is_audited plan7 plan7_reachable Hall "a.1" n Hn)
    as (y & gate & a & H1 & H2 & H3 & H4 & H5 & H6 & H7).
  { vm_compute in Hn. by injection Hn as <-. }
  exists y, gate, a. rewrite H4. vm_compute in Hn. injection Hn as <-.
  repeat (split; [assumption || reflexivity|]).
  destruct H7 as (_ & _ & H7). apply H7. left.
  assert (y = "a::gate") as ->.
  { destruct (deep_inv_reachable plan7 plan7_reachable) as [_ _ Hsh _].
    eapply (sh_gate_unique _ Hsh y "a::gate"); [exact H1|vm_compute; reflexivity|exact H2|reflexivity|exact H4]. }
  vm_compute in H1. injection H1 as <-. vm_compute. lia.
Defined.

(** In a deep plan a composite that runs or is closed has its gate and
    all its children closed: no synthesis starts before its audit passed. *)
Theorem composite_waits_for_its_gate g p pn :
  reachable Deep g → get g p = Some pn → n_expanded pn = true →
  n_status pn = Running ∨ n_status pn = Done →
  (∃ y gate, get g y = Some gate ∧ n_is_gate gate = true ∧ n_parent gate = Some p ∧
     n_status gate = Done) ∧
  (∀ c cn, get g c = Some cn → n_parent cn = Some p → n_status cn = Done).
Proof.
  intros [_ Hwf Hsh Hst]%deep_inv_reachable Hp He Hs.
  destruct (sh_composite _ Hsh _ _ Hp He) as (Hng & y & gate & Hy & Hg & Hgp).
  assert (∀ c cn, get g c = Some cn → n_parent cn = Some p → n_status cn = Done) as Hall.
  { intros c cn Hc Hcp. destruct (sh_parent _ Hsh _ _ _ Hc Hcp) as (pn' & ? & _ & Hin).
    simplify_eq. destruct (st_settled _ Hst p pn c Hp) as (m & ? & ?); [|done|congruence].
    destruct Hs; [right|by left]. split; [done|]. intros [? _]. congruence. }
  split; [|done]. exists y, gate. eauto 10.
Qed.

Lemma composite_waits_for_its_gate_witness :
  ∃ pn, get plan5 "a" = Some pn ∧ n_expanded pn = true ∧ n_status pn = Done ∧
    ∃ y gate, get plan5 y = Some gate ∧ n_parent gate = Some "a" ∧ n_status gate = Done.
Proof.
  assert (reachable Deep plan5) as Hr.
  { unfold plan5, plan4, plan3.
    do 3 (apply work_reachable; [|vm_compute; reflexivity|vm_compute; reflexivity]).
    apply plan2_reachable. }
  destruct (get plan5 "a") as [pn|] eqn:Hp; [|vm_compute in Hp; discriminate].
  pose proof Hp as Hp'. vm_compute in Hp'. injection Hp' as <-. eexists.
  split; [reflexivity|]. split; [reflexivity|]. split; [reflexivity|].
  destruct (composite_waits_for_its_gate plan5 "a" _ Hr Hp eq_refl) as [(y & gate & ? & ? & ? & ?) _];
    [right; reflexivity|]. eauto 10.
Defined.

(** Finished work is never undone: in a deep plan no operation
    changes a done node, except that new root work re-queues the root gate. *)
Theorem done_work_is_stable g g' x n :
  reachable Deep g → dag_step g g' → get g x = Some n → n_status n = Done →
  get g' x = Some n ∨ (is_root_gate n = true ∧ ∃ n', get g' x = Some n').
Proof.
  intros Hr Hstep Hx Hs. pose proof (deep_inv_reachable _ Hr) as [Hm Hwf Hsh Hst].
  assert (∀ id f m, get g id = Some m → n_status m ≠ Done → (∀ k, n_id (f k) = n_id k) →
            get (modify g id f) x = Some n) as Hmod.
  { intros id f m Hid Hms Hf. rewrite get_modify_ne; [done|done|]. intros ->. congruence. }
  destruct Hstep as [g specs g' H|g id w g' H|g id actor children g' out H
    |g id actor a g' H|g id actor g' H|g id actor specs g' ids H|g id g' H].
  - apply seed_ok in H as (u & st & Hnd & Hd & -> & -> & _). rewrite Hm. simpl.
    unfold ensure_root_gate. destruct (root_ids _) eqn:Hroots; [left; by apply get_push_specs_old|].
    rewrite <- Hroots. destruct (find is_root_gate _) as [gate|] eqn:Hf.
    + pose proof (structured_seed _ _ (wf_structured _ Hwf) Hnd Hd) as Hst1.
      destruct (seed_find_gate _ _ Hst1 _ Hf) as [Hgate Hroot].
      destruct (decide (x = n_id gate)) as [->|Hne]; [|left; by apply widen_get_old].
      right. simplify_eq. rewrite is_root_gate_true. split; [done|].
      eexists. by apply widen_get_gate.
    + left. rewrite get_push. by rewrite (get_push_specs_old _ _ _ _ _ _ Hx).
  - apply dispatch_ok in H as (m & Hid & [Hq _]%is_ready_spec & ->). left.
    apply (Hmod _ _ m); [done|congruence|done].
  - apply expand_node_ok in H as (m & Hid & _ & _ & _ & Hrun & _ & _ & _ & _ & -> & _). left.
    apply expand_get_old; [done| |done]. intros ->. congruence.
  - apply complete_node_ok in H as (m & Hid & _ & Hrun & _ & _ & ->). left.
    apply (Hmod _ _ m); [done|congruence|done].
  - apply fail_node_ok in H as (m & Hid & _ & Hrun & ->). left.
    apply (Hmod _ _ m); [done|congruence|done].
  - apply inject_from_gate_ok in H as (m & Hid & _ & Hg & Hrun & _ & _ & _ & _ & _ & -> & _). left.
    apply inject_get_old; [| |done].
    + intros ->. congruence.
    + intros Hp. eapply (inject_parent_waiting g id m Hsh Hid Hrun x n); [done..|by left].
  - apply requeue_failed_ok in H as (m & Hid & Hf & ->). left.
    apply (Hmod _ _ m); [done|congruence|done].
Qed.

Lemma done_work_is_stable_witness :
  ∃ n n', get plan3 "a.1" = Some n ∧ n_status n = Done ∧
    get (dispatch plan3 "a::gate" "w1").2 "a.1" = Some n' ∧ n' = n.
Proof.
  assert (reachable Deep plan3) as Hr.
  { apply work_reachable; [apply plan2_reachable|vm_compute; reflexivity..]. }
  assert (dag_step plan3 (dispatch plan3 "a::gate" "w1").2) as Hstep.
  { apply (step_dispatch _ "a::gate" "w1"). vm_compute. reflexivity. }
  destruct (get plan3 "a.1") as [n|] eqn:Hn; [|vm_compute in Hn; discriminate].
  assert (n_status n = Done) as Hs by (vm_compute in Hn; by injection Hn as <-).
  destruct (done_work_is_stable _ _ _ _ Hr Hstep Hn Hs) as [Hg|[Hg _]].
  - exists n, n. auto.
  - vm_compute in Hn. injection Hn as <-. discriminate.
Defined.

(** ** Scheduling *)

(** The ready set is exactly the queued nodes whose dependencies
    are all done, each once, ordered by priority and then by id. *)
Theorem ready_nodes_exact g :
  (∀ n, n ∈ ready_nodes g ↔
     n ∈ g_nodes g ∧ n_status n = Queued ∧ ∀ d, d ∈ n_depends_on n → done_in g d) ∧
  StronglySorted schedule_le (ready_nodes g) ∧
  (NoDup (node_ids g) → NoDup (ready_nodes g)).
Proof.
  unfold ready_nodes. split; [|split].
  - intros n. rewrite merge_sort_Permutation, elem_of_filterb, is_ready_spec. done.
  - apply StronglySorted_merge_sort; apply _.
  - intros Hnd. rewrite merge_sort_Permutation. apply NoDup_ListNoDup, List.NoDup_filter, NoDup_ListNoDup.
    by eapply NoDup_fmap_1.
Qed.

(** A plan never wedges by itself: if no node is running or failed
    and some node is not finished, a node is ready and can be dispatched. *)
Theorem idle_plan_has_ready_node mode g x n :
  reachable mode g → get g x = Some n → n_status n = Queued →
  (∀ y m, get g y = Some m → n_status m = Queued ∨ n_status m = Done) →
  ∃ r, r ∈ ready_nodes g ∧ ∀ worker, (dispatch g (n_id r) worker).1 = true.
Proof.
  intros Hr Hx Hq Hall. pose proof (wf_reachable _ _ Hr) as Hwf.
  destruct (ready_upstream g x n Hwf Hx Hq Hall) as (r & Hin & Hready).
  exists r. split.
  - unfold ready_nodes. by rewrite merge_sort_Permutation, elem_of_filterb.
  - intros w. unfold dispatch. rewrite (get_NoDup _ _ (wf_nodup _ Hwf) Hin), Hready. done.
Qed.

Lemma idle_plan_has_ready_node_witness :
  ∃ r, r ∈ ready_nodes plan2 ∧ (dispatch plan2 (n_id r) "w").1 = true.
Proof.
  destruct (get plan2 "b") as [n|] eqn:Hn; [|vm_compute in Hn; discriminate].
  destruct (idle_plan_has_ready_node Deep plan2 "b" n plan2_reachable Hn) as (r & ? & Hd).
  - vm_compute in Hn. by injection Hn as <-.
  - intros y m Hy%get_elem.
    assert (forallb (λ m, bool_decide (n_status m = Queued ∨ n_status m = Done)) (g_nodes plan2) = true)
      as Hb by (vm_compute; reflexivity).
    rewrite forallb_elem in Hb. by apply Hb, bool_decide_eq_true in Hy.
  - exists r. split; [done|apply Hd].
Defined.

(** ** Retries and ownership *)

(** Replaying an accepted seed is a no-op, in both modes: the same
    request sent again succeeds and leaves the plan exactly as it is. *)
Theorem seed_is_idempotent mode g specs g' :
  reachable mode g → seed g specs = Ok g' → seed g' specs = Ok g'.
Proof.
  intros Hr Hs. eapply seed_replay; eauto using wf_reachable, parents_known_reachable.
  intros Hm. apply deep_inv_reachable. replace Deep with mode; [done|].
  rewrite <- Hm. clear -Hr. unfold reachable in Hr.
  assert (g_mode (graph_new mode) = mode) as Hnew by done. rewrite <- Hnew at 1. clear Hnew.
  induction Hr as [|x y z Hxy _ IH]; [done|]. rewrite <- IH. symmetry. by apply mode_step.
Qed.

Lemma seed_is_idempotent_witness :
  seed plan0 [spec_a; spec_b; spec_a] = Ok plan0.
Proof.
  apply (seed_is_idempotent Deep (graph_new Deep)); [apply rtc_refl|]. vm_compute. reflexivity.
Defined.

(** Writes are partitioned by owner: expanding, completing, failing or
    injecting under a node the actor does not own is refused with [NotOwner],
    whatever else the request contains. *)
Theorem only_the_owner_mutates g id actor n :
  get g id = Some n → n_owner n ≠ Some actor →
  (∀ children, expand_node g id actor children = Err (NotOwner id actor)) ∧
  (∀ artifact, complete_node g id actor artifact = Err (NotOwner id actor)) ∧
  fail_node g id actor = Err (NotOwner id actor) ∧
  (∀ specs, inject_from_gate g id actor specs = Err (NotOwner id actor)).
Proof.
  intros Hn Ho. unfold expand_node, complete_node, fail_node, inject_from_gate. rewrite Hn.
  rewrite bool_decide_eq_true_2 by done. done.
Qed.

Lemma only_the_owner_mutates_witness :
  complete_node plan1 "a" "intruder" (deep_artifact "done") = Err (NotOwner "a" "intruder").
Proof.
  destruct (get plan1 "a") as [n|] eqn:Hn; [|vm_compute in Hn; discriminate].
  destruct (only_the_owner_mutates plan1 "a" "intruder" n Hn) as (_ & Hc & _).
  - vm_compute in Hn. injection Hn as <-. discriminate.
  - apply Hc.
Defined.

(** ** Mentions of a node id *)

(** The character before the occurrence is not an id character. *)
Definition before_ok (b : bool) (pre : string) : bool :=
  match last_chr pre with None => b | Some c => negb (is_id_char c) end.

Lemma before_ok_cons b c pre : before_ok b (String c pre) = before_ok (negb (is_id_char c)) pre.
Proof.
  unfold before_ok. destruct pre as [|d pre]; [done|]. change (last_chr (String c (String d pre))) with (last_chr (String d pre)).
  by destruct (last_chr_cons d pre) as [e ->].
Qed.

Lemma mentions_from_spec id b text :
  mentions_from id b text = true ↔
  ∃ pre post, text = pre +:+ id +:+ post ∧ before_ok b pre = true ∧ after_ok post = true.
Proof.
  revert b. induction text as [|c text IH]; intros b; simpl.
  - rewrite orb_false_r. split.
    + destruct (strip_prefix id "") as [post|] eqn:E; [|done].
      apply strip_prefix_spec in E. intros [-> ?]%andb_true_iff. by exists "", post.
    + intros (pre & post & Heq & Hb & Ha). destruct pre; [|done].
      rewrite (proj2 (strip_prefix_spec id "" post) Heq). unfold before_ok in Hb. simpl in Hb.
      by rewrite Hb, Ha.
  - rewrite orb_true_iff, IH. split.
    + intros [H|(pre & post & -> & Hb & Ha)].
      * destruct (strip_prefix id (String c text)) as [post|] eqn:E; [|done].
        apply strip_prefix_spec in E. apply andb_true_iff in H as [-> ?]. by exists "", post.
      * exists (String c pre), post. rewrite before_ok_cons. done.
    + intros (pre & post & Heq & Hb & Ha). destruct pre as [|c' pre].
      * left. rewrite (proj2 (strip_prefix_spec id _ post) Heq). unfold before_ok in Hb. simpl in Hb.
        by rewrite Hb, Ha.
      * right. rewrite str_app_cons in Heq. injection Heq as -> ->.
        rewrite before_ok_cons in Hb. eauto.
Qed.

(** A text mentions a node id exactly when the id occurs in it as
    a whole token: not empty, not preceded by an id character, and followed by the
    end, by a character that is not part of ids, or by a '.' or ':' that is itself
    not followed by an id character. *)
Theorem mentions_node_id_exact text id :
  mentions_node_id text id = true ↔
  id ≠ "" ∧ ∃ pre post, text = pre +:+ id +:+ post ∧
    (∀ c, last_chr pre = Some c → is_id_char c = false) ∧ after_ok post = true.
Proof.
  unfold mentions_node_id. destruct id as [|c id]; simpl is_empty; cbv iota.
  { split; [done|]. by intros [? _]. }
  rewrite mentions_from_spec. split.
  - intros (pre & post & Heq & Hb & Ha). split; [done|]. exists pre, post. repeat split; [done| |done].
    intros d Hd. unfold before_ok in Hb. rewrite Hd in Hb. by apply negb_true_iff.
  - intros (_ & pre & post & Heq & Hb & Ha). exists pre, post. repeat split; [done| |done].
    unfold before_ok. destruct (last_chr pre) as [d|]; [|done]. by rewrite (Hb d).
Qed.

(** ** Dataflow *)

Lemma contains_str_app_l p s t : contains_str p s = true → contains_str p (s +:+ t) = true.
Proof.
  rewrite !contains_str_spec. intros (pre & post & ->). exists pre, (post +:+ t).
  by rewrite !str_app_assoc.
Qed.

Lemma contains_str_app_r p s t : contains_str p t = true → contains_str p (s +:+ t) = true.
Proof.
  rewrite !contains_str_spec. intros (pre & post & ->). exists (s +:+ pre), post.
  by rewrite !str_app_assoc.
Qed.

Lemma contains_str_refl p : contains_str p p = true.
Proof. apply contains_str_spec. exists "", "". by rewrite str_app_nil_r. Qed.

Lemma contains_join sep l x : x ∈ l → contains_str x (join sep l) = true.
Proof.
  induction l as [|y l IH]; intros Hx; [by apply elem_of_nil in Hx|].
  simpl. destruct l as [|z l]; [apply elem_of_cons in Hx as [->|?%elem_of_nil]; [apply contains_str_refl|done]|].
  apply elem_of_cons in Hx as [->|Hx]; [apply contains_str_app_l, contains_str_refl|].
  do 2 apply contains_str_app_r. auto.
Qed.

Lemma contains_rendered ds d :
  d ∈ ds → contains_str (render_dependency d) (foldr (λ d rest, render_dependency d +:+ rest) "" ds) = true.
Proof.
  induction ds as [|d' ds IH]; intros Hd; [by apply elem_of_nil in Hd|]. cbn [foldr].
  apply elem_of_cons in Hd as [->|Hd]; [apply contains_str_app_l, contains_str_refl|].
  apply contains_str_app_r. auto.
Qed.

Lemma contains_str_trans p q s :
  contains_str p q = true → contains_str q s = true → contains_str p s = true.
Proof.
  rewrite !contains_str_spec. intros (a & b & ->) (c & d & ->). exists (c +:+ a), (b +:+ d).
  by rewrite !str_app_assoc.
Qed.

(** Forward dataflow is complete: the input assembled for a node
    contains, for every done dependency, its whole rendered artifact, and with it
    every entry its author listed as not checked. *)
Theorem assembled_input_carries_artifacts g x n d m a :
  get g x = Some n → d ∈ n_depends_on n → get g d = Some m → n_status m = Done →
  n_output m = Some a →
  contains_str (render_section a d (kind_label (n_kind m))) (assemble_input g x) = true ∧
  ∀ w, w ∈ a_what_i_did_not_check a → contains_str w (assemble_input g x) = true.
Proof.
  intros Hx Hd Hm Hs Ha.
  assert (contains_str (render_section a d (kind_label (n_kind m))) (assemble_input g x) = true) as Hsec.
  { unfold assemble_input. rewrite Hx.
    assert (m ∈ upstream g n) as Hin.
    { apply elem_of_filterb. split; [|by apply is_done_iff]. apply list_elem_of_omap. eauto. }
    pose proof (contains_rendered _ _ Hin) as Hr.
    destruct (upstream g n) as [|u us] eqn:Hu; [by apply elem_of_nil in Hin|]. rewrite <- Hu in *.
    apply contains_str_trans with (render_dependency m).
    - unfold render_dependency. rewrite Ha, (get_id _ _ _ Hm). apply contains_str_app_r, contains_str_refl.
    - do 5 apply contains_str_app_r. exact Hr. }
  split; [done|]. intros w Hw. eapply contains_str_trans; [|exact Hsec].
  unfold render_section. do 12 apply contains_str_app_r. unfold render_list.
  destruct (a_what_i_did_not_check a) as [|v vs]; [by apply elem_of_nil in Hw|].
  by apply contains_str_app_r, contains_str_app_l, contains_join.
Qed.

Lemma assembled_input_carries_artifacts_witness :
  contains_str "nothing material; covered the stated scope" (assemble_input plan3 "a::gate") = true.
Proof.
  destruct (get plan3 "a::gate") as [n|] eqn:Hn; [|vm_compute in Hn; discriminate].
  destruct (get plan3 "a.1") as [m|] eqn:Hm; [|vm_compute in Hm; discriminate].
  apply (assembled_input_carries_artifacts plan3 "a::gate" n "a.1" m (deep_artifact "the lexer is fine"));
    [exact Hn| |exact Hm| | |left];
    [vm_compute in Hn; injection Hn as <-; left|vm_compute in Hm; injection Hm as <-; reflexivity..].
Defined.

(** ** The driver *)

Lemma terminal_partition l :
  forallb is_terminal l = true →
  length (List.filter is_done l) +
  length (List.filter (λ n, bool_decide (n_status n = Failed)) l) = length l.
Proof.
  induction l as [|n l IH]; [done|]. simpl. unfold is_terminal at 1, is_done at 1.
  intros [Hn Hl]%andb_true_iff. specialize (IH Hl).
  destruct (n_status n) eqn:Hs; try done; simpl; lia.
Qed.

(** From any reachable plan with nothing running, the driver loop
    ends for every worker, pool size and step budget, in a plan reached by engine
    operations only. When no operation is refused its report is truthful: a run that
    is not stalled leaves every node done or failed and counts each of them once; a
    stalled run used up its budget, had no workers, or left a failed node behind;
    and the budget is exceeded by less than one batch. *)
Theorem driver_run_explained {W} (worker : W → string → NodeKind → string → WorkerAction * W)
    mode g max_workers max_steps w :
  reachable mode g → nothing_runs g →
  ∃ g' w' out,
    run worker g max_workers max_steps w = Some (g', w', out) ∧ reachable mode g' ∧
    ∀ r, out = Ok r →
      r = report g' (r_steps r) (r_stalled r) ∧
      (r_steps r = 0 ∨ r_steps r < max_steps + max_workers) ∧
      (r_stalled r = false → r_completed r + r_failed r = length (g_nodes g')) ∧
      (r_stalled r = true →
         max_steps ≤ r_steps r ∨ max_workers = 0 ∨
         ∃ x n, get g' x = Some n ∧ n_status n = Failed).
Proof.
  intros Hr Hi. pose proof (wf_reachable _ _ Hr) as Hwf. unfold run.
  destruct (sim_loop_total worker (S max_steps) max_workers max_steps g w 0) as [[[g' w'] out] Hs];
    [done|lia|].
  assert (reachable mode g') as Hr'.
  { unfold reachable in *. etrans; [exact Hr|by eapply sim_loop_steps]. }
  exists g', w', out. split; [done|]. split; [done|]. intros r ->.
  destruct (sim_loop_ok _ _ _ _ _ _ _ _ _ _ Hs) as [H1 H2 H3 H4].
  split; [done|]. split; [naive_solver|]. split.
  - intros Hns. rewrite H1. simpl. by apply terminal_partition, H3.
  - intros Hst. destruct (H4 Hst) as [Ht [?|[?|Hready]]]; [auto|auto|].
    right; right. eapply no_ready_explained; eauto using wf_reachable, sim_loop_idle.
Qed.

(** A worker that expands [a] once, audits with the simulator's gate artifact and
    completes everything else. *)
Definition sample_worker (expanded : bool) (id : string) (kind : NodeKind) (input : string)
  : WorkerAction * bool :=
  if bool_decide (id = "a") && negb expanded then (Expand [spec_c], true)
  else if bool_decide (id = "a::gate" ∨ id = "plan::gate")
       then (Complete (gate_pass_artifact input), expanded)
  else (Complete (deep_artifact "checked"), expanded).

Lemma driver_run_explained_witness :
  ∃ g' w' r, run sample_worker plan0 2 20 false = Some (g', w', Ok r) ∧
    r_completed r + r_failed r = length (g_nodes g').
Proof.
  destruct (driver_run_explained sample_worker Deep plan0 2 20 false plan0_reachable)
    as (g' & w' & out & Hrun & _ & Hout).
  - intros x n Hn%get_elem _.
    assert (forallb (λ m, bool_decide (n_status m = Queued)) (g_nodes plan0) = true) as Hb
      by (vm_compute; reflexivity).
    rewrite forallb_elem in Hb. apply Hb, bool_decide_eq_true in Hn. congruence.
  - exists g', w'. destruct out as [r|e].
    + exists r. split; [exact Hrun|]. apply (Hout r eq_refl).
      vm_compute in Hrun. injection Hrun as _ _ <-. reflexivity.
    + exfalso. vm_compute in Hrun. discriminate.
Defined.

(** ** Confidence *)

(** Reported doubt is never promoted: the rung names are read back
    as themselves, and a text that contains "low" or one of the listed negations, in
    any case and anywhere, reads as low. *)
Theorem confidence_is_read_pessimistically :
  (∀ c, confidence_parse (confidence_as_str c) = Some c) ∧
  (∀ raw w pre post, w ∈ "low" :: NEGATIONS → to_ascii_lowercase (trim raw) = pre +:+ w +:+ post →
     confidence_parse raw = Some Low).
Proof. split; [apply confidence_parse_as_str|apply confidence_parse_doubt]. Qed.

(** A negation with a word in between is not in the list, and reads as high. *)
Theorem qualified_negation_reads_high :
  map confidence_parse ["not confident"; "not very confident"; "not at all certain"]
  = [Some Low; Some High; Some High].
Proof. vm_compute. reflexivity. Qed.
