(* ===== verification/PlanTypes.v ===== *)
(** * Swarm plans: data, statuses and control actions

    The shared plan of crates/jcode-plan/src/lib.rs: items, per-task progress, node
    metadata, the versioned plan with its own operations, the status vocabulary and
    the task-control actions.  Hash maps and hash sets are [gmap] and [gset]; the
    order in which the program iterates over them never reaches a result, except
    through a sort. *)

From S2P Require Import Prelude RustStr.

(** ** Data *)

Record PlanItem := {
  i_content : string;
  i_status : string;
  i_priority : string;
  i_id : string;
  i_subsystem : option string;
  i_file_scope : list string;
  i_blocked_by : list string;
  i_assigned_to : option string;
}.

Record SwarmTaskProgress := {
  p_assigned_session_id : option string;
  p_assignment_summary : option string;
  p_assigned_at_unix_ms : option N;
  p_started_at_unix_ms : option N;
  p_last_heartbeat_unix_ms : option N;
  p_last_detail : option string;
  p_last_checkpoint_unix_ms : option N;
  p_checkpoint_summary : option string;
  p_completed_at_unix_ms : option N;
  p_stale_since_unix_ms : option N;
  p_heartbeat_count : option N;
  p_checkpoint_count : option N;
  p_no_artifact_requeues : option N;
  p_dead_assignee_reclaims : option N;
}.

Definition progress_default : SwarmTaskProgress := {|
  p_assigned_session_id := None; p_assignment_summary := None; p_assigned_at_unix_ms := None;
  p_started_at_unix_ms := None; p_last_heartbeat_unix_ms := None; p_last_detail := None;
  p_last_checkpoint_unix_ms := None; p_checkpoint_summary := None;
  p_completed_at_unix_ms := None; p_stale_since_unix_ms := None; p_heartbeat_count := None;
  p_checkpoint_count := None; p_no_artifact_requeues := None; p_dead_assignee_reclaims := None |}.

Record NodeMeta := {
  m_kind : option string;
  m_parent : option string;
  m_expanded : bool;
  m_is_gate : bool;
  m_planner : option string;
  m_artifact_json : option string;
  m_origin : option string;
}.

Definition meta_default : NodeMeta := {|
  m_kind := None; m_parent := None; m_expanded := false; m_is_gate := false;
  m_planner := None; m_artifact_json := None; m_origin := None |}.

Record VersionedPlan := {
  v_items : list PlanItem;
  v_version : N;
  v_participants : gset string;
  v_task_progress : gmap string SwarmTaskProgress;
  v_mode : string;
  v_node_meta : gmap string NodeMeta;
}.

Record SwarmPlanItemSpec := {
  ps_id : string;
  ps_content : string;
  ps_priority : string;
  ps_subsystem : option string;
  ps_file_scope : list string;
  ps_blocked_by : list string;
}.

Record SwarmPlanDefinition := {
  pd_version : N;
  pd_participants : list string;
  pd_items : list SwarmPlanItemSpec;
}.

Record SwarmExecutionItemState := {
  es_task_id : string;
  es_status : string;
  es_assigned_to : option string;
  es_progress : option SwarmTaskProgress;
}.

#[export] Instance PlanItem_eq_dec : EqDecision PlanItem.
Proof. solve_decision. Defined.
#[export] Instance SwarmTaskProgress_eq_dec : EqDecision SwarmTaskProgress.
Proof. solve_decision. Defined.
#[export] Instance NodeMeta_eq_dec : EqDecision NodeMeta.
Proof. solve_decision. Defined.

(** ** Field updates *)

Definition set_assigned_to (o : option string) (i : PlanItem) : PlanItem := {|
  i_content := i_content i; i_status := i_status i; i_priority := i_priority i;
  i_id := i_id i; i_subsystem := i_subsystem i; i_file_scope := i_file_scope i;
  i_blocked_by := i_blocked_by i; i_assigned_to := o |}.

Definition set_assigned_session (o : option string) (p : SwarmTaskProgress) : SwarmTaskProgress := {|
  p_assigned_session_id := o; p_assignment_summary := p_assignment_summary p;
  p_assigned_at_unix_ms := p_assigned_at_unix_ms p;
  p_started_at_unix_ms := p_started_at_unix_ms p;
  p_last_heartbeat_unix_ms := p_last_heartbeat_unix_ms p; p_last_detail := p_last_detail p;
  p_last_checkpoint_unix_ms := p_last_checkpoint_unix_ms p;
  p_checkpoint_summary := p_checkpoint_summary p;
  p_completed_at_unix_ms := p_completed_at_unix_ms p;
  p_stale_since_unix_ms := p_stale_since_unix_ms p; p_heartbeat_count := p_heartbeat_count p;
  p_checkpoint_count := p_checkpoint_count p;
  p_no_artifact_requeues := p_no_artifact_requeues p;
  p_dead_assignee_reclaims := p_dead_assignee_reclaims p |}.

Definition set_reclaims (n : option N) (summary : option string) (p : SwarmTaskProgress)
  : SwarmTaskProgress := {|
  p_assigned_session_id := p_assigned_session_id p; p_assignment_summary := p_assignment_summary p;
  p_assigned_at_unix_ms := p_assigned_at_unix_ms p;
  p_started_at_unix_ms := p_started_at_unix_ms p;
  p_last_heartbeat_unix_ms := p_last_heartbeat_unix_ms p; p_last_detail := p_last_detail p;
  p_last_checkpoint_unix_ms := p_last_checkpoint_unix_ms p;
  p_checkpoint_summary := summary;
  p_completed_at_unix_ms := p_completed_at_unix_ms p;
  p_stale_since_unix_ms := p_stale_since_unix_ms p; p_heartbeat_count := p_heartbeat_count p;
  p_checkpoint_count := p_checkpoint_count p;
  p_no_artifact_requeues := p_no_artifact_requeues p;
  p_dead_assignee_reclaims := n |}.

Definition set_planner_meta (o : option string) (m : NodeMeta) : NodeMeta := {|
  m_kind := m_kind m; m_parent := m_parent m; m_expanded := m_expanded m;
  m_is_gate := m_is_gate m; m_planner := o; m_artifact_json := m_artifact_json m;
  m_origin := m_origin m |}.

Definition set_items (items : list PlanItem) (p : VersionedPlan) : VersionedPlan := {|
  v_items := items; v_version := v_version p; v_participants := v_participants p;
  v_task_progress := v_task_progress p; v_mode := v_mode p; v_node_meta := v_node_meta p |}.

(** ** The versioned plan *)

Definition plan_new : VersionedPlan := {|
  v_items := []; v_version := 0; v_participants := ∅; v_task_progress := ∅;
  v_mode := "light"; v_node_meta := ∅ |}.

Definition item_ids (items : list PlanItem) : gset string := list_to_set (map i_id items).

Definition prune_side_maps (p : VersionedPlan) : VersionedPlan :=
  let ids := item_ids (v_items p) in {|
  v_items := v_items p; v_version := v_version p; v_participants := v_participants p;
  v_task_progress := filter (λ kv, kv.1 ∈ ids) (v_task_progress p);
  v_mode := v_mode p;
  v_node_meta := filter (λ kv, kv.1 ∈ ids) (v_node_meta p) |}.

Definition replace_items (items : list PlanItem) (p : VersionedPlan) : VersionedPlan :=
  prune_side_maps (set_items items p).

(** [if r == Some(old) { r = Some(new) }]. *)
Definition rename_ref (old new : string) (r : option string) : option string :=
  if bool_decide (r = Some old) then Some new else r.

Definition rename_session (old new : string) (p : VersionedPlan) : VersionedPlan := {|
  v_items := map (λ i, set_assigned_to (rename_ref old new (i_assigned_to i)) i) (v_items p);
  v_version := v_version p;
  v_participants :=
    if bool_decide (old ∈ v_participants p) then {[new]} ∪ (v_participants p ∖ {[old]})
    else v_participants p;
  v_task_progress :=
    (λ t, set_assigned_session (rename_ref old new (p_assigned_session_id t)) t)
      <$> v_task_progress p;
  v_mode := v_mode p;
  v_node_meta :=
    (λ m, set_planner_meta (rename_ref old new (m_planner m)) m) <$> v_node_meta p |}.

Definition plan_definition (p : VersionedPlan) : SwarmPlanDefinition := {|
  pd_version := v_version p;
  pd_participants := merge_sort String.le (elements (v_participants p));
  pd_items := map (λ i, {|
    ps_id := i_id i; ps_content := i_content i; ps_priority := i_priority i;
    ps_subsystem := i_subsystem i; ps_file_scope := i_file_scope i;
    ps_blocked_by := i_blocked_by i |}) (v_items p) |}.

Definition execution_state (p : VersionedPlan) : list SwarmExecutionItemState :=
  map (λ i, {|
    es_task_id := i_id i; es_status := i_status i; es_assigned_to := i_assigned_to i;
    es_progress := v_task_progress p !! i_id i |}) (v_items p).

(** ** Status vocabulary *)

Definition is_completed_status (status : string) : bool := mem status ["completed"; "done"].

Definition is_terminal_status (status : string) : bool :=
  mem status ["completed"; "done"; "failed"; "stopped"; "crashed"].

Definition is_active_status (status : string) : bool := mem status ["running"; "running_stale"].

Definition is_failed_status (status : string) : bool :=
  is_terminal_status status && negb (is_completed_status status).

Definition is_runnable_status (status : string) : bool :=
  mem status ["queued"; "ready"; "pending"; "todo"].

(** ** Task control *)

Inductive TaskControlAction := Start | Wake | Resume | Retry | Reassign | Replace | Salvage.

#[export] Instance TaskControlAction_eq_dec : EqDecision TaskControlAction.
Proof. solve_decision. Defined.

Definition action_parse (action : string) : option TaskControlAction :=
  if bool_decide (action = "start") then Some Start
  else if bool_decide (action = "wake") then Some Wake
  else if bool_decide (action = "resume") then Some Resume
  else if bool_decide (action = "retry") then Some Retry
  else if bool_decide (action = "reassign") then Some Reassign
  else if bool_decide (action = "replace") then Some Replace
  else if bool_decide (action = "salvage") then Some Salvage
  else None.

Definition action_as_str (a : TaskControlAction) : string :=
  match a with
  | Start => "start" | Wake => "wake" | Resume => "resume" | Retry => "retry"
  | Reassign => "reassign" | Replace => "replace" | Salvage => "salvage"
  end.

Definition nl2 : string := String "010" (String "010" "").
Definition nl1 : string := String "010" "".

Definition combine_assignment_text (content : string) (message : option string) : string :=
  match message with
  | Some extra => content +:+ nl2 +:+ "Additional coordinator instructions:" +:+ nl1 +:+ extra
  | None => content
  end.

Definition restart_instruction_prefix (a : TaskControlAction) : option string :=
  match a with
  | Resume => Some "Resume your assigned task from the current session context and continue the work."
  | Retry => Some "Retry your assigned task. Fix any earlier issues and continue toward completion."
  | _ => None
  end.

Definition build_control_assignment_text (a : TaskControlAction) (content : string)
  (message : option string) : string :=
  let parts := match restart_instruction_prefix a with Some p => [p] | None => [] end in
  let parts := parts ++ [content] in
  let parts := parts ++ match message with
    | Some extra => ["Additional coordinator instructions:" +:+ nl1 +:+ extra]
    | None => []
    end in
  join nl2 parts.

Definition task_control_action_allows_status (a : TaskControlAction) (status : string) : bool :=
  match a with
  | Start | Wake => bool_decide (status = "queued")
  | Resume => mem status ["queued"; "running"; "running_stale"]
  | Retry => mem status ["failed"; "running_stale"]
  | Reassign | Replace | Salvage => negb (is_completed_status status)
  end.

Definition task_control_status_error (a : TaskControlAction) (status task_id : string) : string :=
  let task := "Task '" +:+ task_id +:+ "' is " in
  let quoted := task +:+ "'" +:+ status +:+ "' and cannot be " in
  match a with
  | Start => quoted +:+ "started. Use start only for queued assignments."
  | Wake => quoted +:+ "woken. Use wake only for queued assignments."
  | Resume => quoted +:+ "resumed safely."
  | Retry => quoted +:+ "retried. Retry is only for failed or stale work."
  | Reassign => task +:+ "already complete. Reassign unfinished work instead."
  | Replace => task +:+ "already complete. Replace is only for unfinished work."
  | Salvage => task +:+ "already complete. Salvage is only for unfinished or failed work."
  end.

Definition priority_rank (priority : string) : N :=
  if mem priority ["high"; "urgent"; "p0"] then 0
  else if mem priority ["medium"; "normal"; "p1"] then 1
  else if mem priority ["low"; "p2"] then 2
  else 1.

(** ** Facts about the vocabulary *)

(** The four status classes the scheduler branches on do not overlap. *)
Lemma runnable_not_terminal s : is_runnable_status s = true → is_terminal_status s = false.
Proof.
  unfold is_runnable_status, is_terminal_status. rewrite mem_true, mem_false. intros H1 H2.
  set_solver.
Qed.

Lemma runnable_not_active s : is_runnable_status s = true → is_active_status s = false.
Proof.
  unfold is_runnable_status, is_active_status. rewrite mem_true, mem_false. intros H1 H2.
  set_solver.
Qed.

Lemma active_not_terminal s : is_active_status s = true → is_terminal_status s = false.
Proof.
  unfold is_active_status, is_terminal_status. rewrite mem_true, mem_false. intros H1 H2.
  set_solver.
Qed.

Lemma completed_terminal s : is_completed_status s = true → is_terminal_status s = true.
Proof. unfold is_completed_status, is_terminal_status. rewrite !mem_true. set_solver. Qed.

Lemma allows_not_completed a s :
  task_control_action_allows_status a s = true → is_completed_status s = false.
Proof.
  destruct a; simpl; rewrite ?mem_true, ?bool_decide_eq_true, ?negb_true_iff; try done.
  1,2: by intros ->.
  all: unfold is_completed_status; rewrite mem_false; intros H1 H2; set_solver.
Qed.

#[export] Hint Resolve runnable_not_terminal runnable_not_active active_not_terminal
  completed_terminal : omnis.
