(* ===== verification/PlanCycle.v ===== *)
(** * Cycle detection on plan items

    [cycle_item_ids] of crates/jcode-plan/src/lib.rs.  Unlike the detector of the task
    graph it counts every occurrence of a dependency and keeps reverse edges in a
    map, accepts duplicate item ids, and starts from the keys of a hash map, whose
    order is unspecified.  The model takes that order as an argument, and the result
    is shown not to depend on it. *)

From S2P Require Import Prelude RustStr Confidence DagTypes Kahn DagCycle PlanTypes.

(** ** The algorithm *)

Definition known_deps (ids : gset string) (i : PlanItem) : list string :=
  filter (λ d, d ∈ ids) (i_blocked_by i).

(** [indegree[item] += 1; dependents[dependency].push(item)]. *)
Definition add_edge (item : string) (st : gmap string nat * gmap string (list string))
  (dependency : string) : gmap string nat * gmap string (list string) :=
  (entry_add 1 st.1 item, <[dependency := default [] (st.2 !! dependency) ++ [item]]> st.2).

Definition zero_degrees (items : list PlanItem) : gmap string nat :=
  foldl (λ m i, or_insert_zero m (i_id i)) ∅ items.

Definition edge_maps (items : list PlanItem) : gmap string nat * gmap string (list string) :=
  foldl (λ st i, foldl (add_edge (i_id i)) st (known_deps (item_ids items) i))
    (zero_degrees items, ∅) items.

Fixpoint relax_children (children queue : list string) (m : gmap string nat)
  : list string * gmap string nat :=
  match children with
  | [] => (queue, m)
  | child :: children =>
      match m !! child with
      | Some degree =>
          let degree := degree - 1 in
          relax_children children (if decide (degree = 0) then child :: queue else queue)
            (<[child := degree]> m)
      | None => relax_children children queue m
      end
  end.

(** The work list is popped at its end; it is kept with its last element first. *)
Fixpoint item_loop (fuel : nat) (dependents : gmap string (list string))
  (queue : list string) (visited : gset string) (m : gmap string nat)
  : option (gset string * gmap string nat) :=
  match fuel with
  | O => None
  | S fuel =>
      match queue with
      | [] => Some (visited, m)
      | id :: queue =>
          if decide (id ∈ visited) then item_loop fuel dependents queue visited m
          else
            let '(queue, m) :=
              match dependents !! id with
              | Some children => relax_children children queue m
              | None => (queue, m)
              end in
            item_loop fuel dependents queue ({[id]} ∪ visited) m
      end
  end.

(** Every occurrence of a dependency, in program order. *)
Definition edges (items : list PlanItem) : list (string * string) :=
  flat_map (λ i, map (λ d, (d, i_id i)) (known_deps (item_ids items) i)) items.

Definition item_visit (queue : list string) (items : list PlanItem)
  : option (gset string * gmap string nat) :=
  let '(m, dependents) := edge_maps items in
  item_loop (S (length queue + length (edges items))) dependents queue ∅ m.

Definition start_ids (items : list PlanItem) : list string := zero_ids (edge_maps items).1.

(** The result for a given order of the initial work list. *)
Definition cycle_item_ids_from (queue : list string) (items : list PlanItem) : list string :=
  match item_visit queue items with
  | Some (visited, m) =>
      merge_sort String.le
        (omap (λ p, if decide (0 < p.2 ∧ p.1 ∉ visited) then Some p.1 else None) (map_to_list m))
  | None => []
  end.

Definition cycle_item_ids (items : list PlanItem) : list string :=
  cycle_item_ids_from (start_ids items) items.

(** ** The relation and the counters *)

Definition item_dep (items : list PlanItem) (d x : string) : Prop :=
  ∃ i, i ∈ items ∧ i_id i = x ∧ d ∈ i_blocked_by i ∧ d ∈ item_ids items.

Lemma elem_of_item_ids items x : x ∈ item_ids items ↔ ∃ i, i ∈ items ∧ i_id i = x.
Proof.
  unfold item_ids. rewrite elem_of_list_to_set, list_elem_of_fmap. naive_solver.
Qed.

Lemma elem_of_edges items d x : (d, x) ∈ edges items ↔ item_dep items d x.
Proof.
  unfold edges, item_dep, known_deps. rewrite list_elem_of_In, in_flat_map. split.
  - intros (i & Hi & He). apply list_elem_of_In in Hi, He.
    apply list_elem_of_fmap in He as (d' & [= -> ->] & [Hd Hb]%list_elem_of_filter). eauto.
  - intros (i & Hi & <- & Hb & Hd). exists i. rewrite <- !list_elem_of_In. split; [done|].
    apply list_elem_of_fmap. exists d. split; [done|]. by apply list_elem_of_filter.
Qed.

Lemma edges_known items d x : (d, x) ∈ edges items → d ∈ item_ids items ∧ x ∈ item_ids items.
Proof.
  intros (i & Hi & <- & _ & Hd)%elem_of_edges. split; [done|]. apply elem_of_item_ids. eauto.
Qed.

(** Number of edges of a kind. *)
Definition count (P : string * string → Prop) `{∀ e, Decision (P e)}
  (es : list (string * string)) : nat := length (filter P es).

Lemma count_cons P `{∀ e, Decision (P e)} e es :
  count P (e :: es) = (if decide (P e) then 1 else 0) + count P es.
Proof. unfold count. rewrite filter_cons. case_decide; done. Qed.

Lemma count_zero P `{∀ e, Decision (P e)} es : count P es = 0 ↔ ∀ e, e ∈ es → ¬ P e.
Proof.
  induction es as [|e es IH]; [split; [intros _ e He; by apply elem_of_nil in He|done]|].
  rewrite count_cons. case_decide as Hp.
  - split; [lia|]. intros Hall. by destruct (Hall e); [left|].
  - simpl. rewrite IH. split.
    + intros Hall x [->|Hx]%elem_of_cons; auto.
    + intros Hall x Hx. apply Hall. by right.
Qed.

Lemma count_split P Q R `{∀ e, Decision (P e)} `{∀ e, Decision (Q e)} `{∀ e, Decision (R e)} es :
  (∀ e, P e ↔ Q e ∨ R e) → (∀ e, ¬ (Q e ∧ R e)) → count P es = count Q es + count R es.
Proof.
  intros Hor Hand. induction es as [|e es IH]; [done|]. rewrite !count_cons, IH.
  specialize (Hor e). specialize (Hand e). repeat case_decide; try lia; tauto.
Qed.

Lemma foldl_flat_map {A B C} (f : C → B → C) (g : A → list B) (l : list A) c :
  foldl f c (flat_map g l) = foldl (λ c a, foldl f c (g a)) c l.
Proof. revert c. induction l as [|a l IH]; intros c; simpl; [done|]. by rewrite foldl_app, IH. Qed.

Lemma foldl_map_arg {A B C} (f : C → B → C) (g : A → B) (l : list A) c :
  foldl f c (map g l) = foldl (λ c a, f c (g a)) c l.
Proof. revert c. induction l as [|a l IH]; intros c; simpl; [done|]. by rewrite IH. Qed.

Lemma edge_maps_edges items :
  edge_maps items = foldl (λ st e, add_edge e.2 st e.1) (zero_degrees items, ∅) (edges items).
Proof.
  unfold edge_maps, edges. rewrite foldl_flat_map.
  generalize (zero_degrees items, ∅ : gmap string (list string)).
  generalize (item_ids items). intros ids. induction items as [|i l IH]; intros st; simpl; [done|].
  rewrite IH. f_equal. by rewrite foldl_map_arg.
Qed.

Lemma zero_degrees_lookup items x :
  zero_degrees items !! x = if decide (x ∈ item_ids items) then Some 0 else None.
Proof.
  unfold zero_degrees, item_ids.
  enough (∀ m, foldl (λ m i, or_insert_zero m (i_id i)) m items !! x =
    match m !! x with
    | Some k => Some k
    | None => if decide (x ∈@{gset string} list_to_set (map i_id items)) then Some 0 else None
    end) as Hgen by (by rewrite Hgen, lookup_empty).
  induction items as [|i l IH]; intros m; simpl foldl.
  - by destruct (m !! x).
  - rewrite IH. unfold or_insert_zero. rewrite fmap_cons, list_to_set_cons.
    destruct (m !! i_id i) eqn:Hn; [|destruct (decide (x = i_id i)) as [->|Hne]];
      rewrite ?lookup_insert_eq, ?lookup_insert_ne by done.
    + destruct (m !! x) eqn:Hx; [done|]. repeat case_decide; set_solver.
    + rewrite Hn. by rewrite decide_True by set_solver.
    + destruct (m !! x); [done|]. repeat case_decide; set_solver.
Qed.

Lemma foldl_add_edge es st x :
  is_Some (st.1 !! x) →
  (foldl (λ st e, add_edge e.2 st e.1) st es).1 !! x =
    Some (default 0 (st.1 !! x) + count (λ e, e.2 = x) es).
Proof.
  revert st. induction es as [|[d y] es IH]; intros st [k Hk]; simpl.
  - rewrite Hk. simpl. f_equal. unfold count. simpl. lia.
  - rewrite count_cons. simpl. destruct (decide (y = x)) as [->|Hne].
    + rewrite IH; unfold add_edge, entry_add; simpl; rewrite lookup_insert_eq, Hk; [|eauto].
      simpl. f_equal. lia.
    + rewrite IH; unfold add_edge, entry_add; simpl; rewrite lookup_insert_ne by done; [done|eauto].
Qed.

Lemma foldl_add_edge_dependents es st d :
  default [] ((foldl (λ st e, add_edge e.2 st e.1) st es).2 !! d) =
    default [] (st.2 !! d) ++ map snd (filter (λ e, e.1 = d) es).
Proof.
  revert st. induction es as [|[d' y] es IH]; intros st; simpl; [by rewrite app_nil_r|].
  rewrite IH. unfold add_edge. simpl. rewrite filter_cons. simpl.
  destruct (decide (d' = d)) as [->|Hne].
  - rewrite lookup_insert_eq. simpl. by rewrite <- app_assoc.
  - by rewrite lookup_insert_ne.
Qed.

Lemma indegree_lookup items x :
  x ∈ item_ids items → (edge_maps items).1 !! x = Some (count (λ e, e.2 = x) (edges items)).
Proof.
  intros Hx. rewrite edge_maps_edges, foldl_add_edge; simpl; rewrite zero_degrees_lookup, decide_True by done;
    [done|eauto].
Qed.

Lemma indegree_dom items x : is_Some ((edge_maps items).1 !! x) ↔ x ∈ item_ids items.
Proof.
  split; [|intros ?%indegree_lookup; eauto]. rewrite edge_maps_edges.
  assert (∀ d y, (d, y) ∈ edges items → y ∈ item_ids items) as Hk
    by (intros d y H; by apply edges_known in H as [_ ?]).
  assert (∀ st, (∀ y, is_Some (st.1 !! y) → y ∈ item_ids items) →
    is_Some ((foldl (λ st e, add_edge e.2 st e.1) st (edges items)).1 !! x) → x ∈ item_ids items) as Hgen.
  { induction (edges items) as [|[d y] es IH]; intros st Hst; simpl; [apply Hst|].
    apply IH; [intros d' y' H; apply (Hk d' y'); by right|].
    intros z. unfold add_edge, entry_add. simpl. destruct (decide (y = z)) as [->|Hne].
    - intros _. apply (Hk d z). by left.
    - rewrite lookup_insert_ne by done. apply Hst. }
  apply Hgen. intros y. simpl. rewrite zero_degrees_lookup. case_decide; [done|]. by intros [? ?].
Qed.

Lemma dependents_lookup items d :
  default [] ((edge_maps items).2 !! d) = map snd (filter (λ e, e.1 = d) (edges items)).
Proof. by rewrite edge_maps_edges, foldl_add_edge_dependents. Qed.

(** ** One relaxation pass *)

Definition occurrences (x : string) (l : list string) : nat := length (filter (λ y, y = x) l).

Lemma occurrences_cons x y l :
  occurrences x (y :: l) = (if decide (y = x) then 1 else 0) + occurrences x l.
Proof. unfold occurrences. rewrite filter_cons. case_decide; done. Qed.

Lemma occurrences_elem x l : 0 < occurrences x l ↔ x ∈ l.
Proof.
  induction l as [|y l IH]; [unfold occurrences; simpl; split; [lia|intros H; by apply elem_of_nil in H]|].
  rewrite occurrences_cons, elem_of_cons. case_decide; [naive_solver lia|].
  simpl. rewrite IH. naive_solver.
Qed.

Lemma relax_children_degree children queue m x :
  (relax_children children queue m).2 !! x = (λ k, k - occurrences x children) <$> m !! x.
Proof.
  revert queue m. induction children as [|c cs IH]; intros queue m; simpl.
  - destruct (m !! x) as [k|]; [|done]. simpl. f_equal. unfold occurrences. simpl. lia.
  - rewrite occurrences_cons. destruct (m !! c) as [deg|] eqn:Hc; rewrite IH.
    + destruct (decide (c = x)) as [->|Hne].
      * rewrite lookup_insert_eq, Hc. simpl. f_equal. lia.
      * by rewrite lookup_insert_ne.
    + destruct (decide (c = x)) as [->|Hne]; [|done]. by rewrite Hc.
Qed.

Lemma relax_children_queue children queue m x :
  x ∈ (relax_children children queue m).1 ↔
  x ∈ queue ∨ (x ∈ children ∧ ∃ k, m !! x = Some k ∧ k ≤ occurrences x children).
Proof.
  revert queue m. induction children as [|c cs IH]; intros queue m; simpl.
  - split; [auto|]. intros [?|[H%elem_of_nil _]]; done.
  - rewrite occurrences_cons, elem_of_cons. destruct (m !! c) as [deg|] eqn:Hc; rewrite IH.
    + destruct (decide (c = x)) as [->|Hne].
      * rewrite lookup_insert_eq, Hc. split.
        -- intros [Hq|(Hx & k & [= <-] & Hk)].
           ++ case_decide; [|auto]. right. split; [auto|]. exists deg. split; [done|lia].
           ++ right. split; [auto|]. exists deg. split; [done|lia].
        -- intros [Hq|(_ & k & [= <-] & Hk)]; [left; case_decide; set_solver|].
           case_decide as Hz; [left; set_solver|].
           right. split; [apply occurrences_elem; lia|]. exists (deg - 1). split; [done|lia].
      * rewrite lookup_insert_ne by done. simpl. split.
        -- intros [Hq|(Hx & Hk)]; [|auto]. case_decide; [|auto]. set_solver.
        -- intros [Hq|([->|Hx] & Hk)]; [left; case_decide; set_solver|done|auto].
    + destruct (decide (c = x)) as [->|Hne]; [|naive_solver].
      rewrite Hc. split; [intros [?|(_ & k & ? & _)]|intros [?|(_ & k & ? & _)]]; auto; done.
Qed.

Lemma length_relax_children children queue m :
  length (relax_children children queue m).1 ≤ length children + length queue.
Proof.
  revert queue m. induction children as [|c cs IH]; intros queue m; simpl; [done|].
  destruct (m !! c) as [deg|]; [|specialize (IH queue m); lia].
  case_decide; etrans; [apply IH| |apply IH|]; simpl; lia.
Qed.

(** ** The loop invariant *)

(** Edges into [x] whose source is not visited yet. *)
Definition open_degree (es : list (string * string)) (visited : gset string) (x : string) : nat :=
  count (λ e, e.2 = x ∧ e.1 ∉ visited) es.

Definition item_children (items : list PlanItem) (id : string) : list string :=
  map snd (filter (λ e, e.1 = id) (edges items)).

Lemma occurrences_item_children items id x :
  occurrences x (item_children items id) = count (λ e, e.1 = id ∧ e.2 = x) (edges items).
Proof.
  unfold item_children. induction (edges items) as [|[d y] es IH]; [done|].
  rewrite count_cons, filter_cons. simpl.
  destruct (decide (d = id)) as [->|Hne]; simpl.
  - rewrite occurrences_cons, IH. repeat case_decide; try done; tauto.
  - rewrite IH. case_decide; [tauto|done].
Qed.

Lemma open_degree_visit items visited id x :
  id ∉ visited →
  open_degree (edges items) visited x
  = occurrences x (item_children items id) + open_degree (edges items) ({[id]} ∪ visited) x.
Proof.
  intros Hid. rewrite occurrences_item_children. apply count_split.
  - intros [d y]. simpl. split.
    + intros [-> Hd]. destruct (decide (d = id)); [auto|]. right. set_solver.
    + intros [[-> ->]|[-> Hd]]; [done|]. set_solver.
  - intros [d y]. simpl. set_solver.
Qed.

Record item_inv (items : list PlanItem) (queue : list string) (visited : gset string)
  (m : gmap string nat) : Prop := {
  ii_degree : ∀ x, x ∈ item_ids items → m !! x = Some (open_degree (edges items) visited x);
  ii_dom : ∀ x, is_Some (m !! x) → x ∈ item_ids items;
  ii_queue : ∀ x, x ∈ queue → x ∈ item_ids items ∧ open_degree (edges items) visited x = 0;
  ii_closed : ∀ x, x ∈ item_ids items → open_degree (edges items) visited x = 0 →
    x ∈ visited ∨ x ∈ queue;
  ii_known : visited ⊆ item_ids items;
  ii_acc : ∀ x, x ∈ visited → Acc (item_dep items) x;
}.

Lemma open_degree_zero items visited x :
  open_degree (edges items) visited x = 0 ↔ ∀ d, item_dep items d x → d ∈ visited.
Proof.
  unfold open_degree. rewrite count_zero. split.
  - intros Hall d Hd%elem_of_edges. destruct (decide (d ∈ visited)); [done|].
    exfalso. by apply (Hall (d, x)).
  - intros Hall [d y] He [Hy Hd]. simpl in *. subst y. by apply Hd, Hall, elem_of_edges.
Qed.

Lemma elem_of_zero_ids m x : x ∈ zero_ids m ↔ m !! x = Some 0.
Proof.
  rewrite <- (elem_of_initial_queue m x). unfold initial_queue.
  by rewrite elem_of_reverse, merge_sort_Permutation.
Qed.

Lemma open_degree_empty items x :
  open_degree (edges items) ∅ x = count (λ e, e.2 = x) (edges items).
Proof.
  unfold open_degree. induction (edges items) as [|e es IH]; [done|].
  rewrite !count_cons, IH. repeat case_decide; try done; set_solver.
Qed.

Lemma elem_of_start_ids items x :
  x ∈ start_ids items ↔ x ∈ item_ids items ∧ open_degree (edges items) ∅ x = 0.
Proof.
  unfold start_ids. rewrite elem_of_zero_ids, open_degree_empty. split.
  - intros Hm. assert (x ∈ item_ids items) as Hx by (apply indegree_dom; eauto).
    rewrite indegree_lookup in Hm by done. by injection Hm.
  - intros [Hx <-]. by apply indegree_lookup.
Qed.

Lemma item_inv_init items queue :
  queue ≡ₚ start_ids items → item_inv items queue ∅ (edge_maps items).1.
Proof.
  intros Hq. split.
  - intros x Hx. by rewrite indegree_lookup, open_degree_empty.
  - intros x. apply indegree_dom.
  - intros x. rewrite Hq. apply elem_of_start_ids.
  - intros x Hx Hz. right. rewrite Hq. by apply elem_of_start_ids.
  - set_solver.
  - set_solver.
Qed.

Lemma item_inv_visit items id queue visited m :
  id ∉ visited → item_inv items (id :: queue) visited m →
  item_inv items (relax_children (item_children items id) queue m).1 ({[id]} ∪ visited)
    (relax_children (item_children items id) queue m).2.
Proof.
  intros Hid [H1 H2 H3 H4 H5 H6].
  assert (∀ x, open_degree (edges items) visited x = 0 → open_degree (edges items) ({[id]} ∪ visited) x = 0)
    as Hmono by (intros x; rewrite (open_degree_visit items visited id x) by done; lia).
  assert (id ∈ item_ids items ∧ open_degree (edges items) visited id = 0) as [Hk Hz] by (apply H3; left).
  split.
  - intros x Hx. rewrite relax_children_degree, (H1 x Hx). simpl. f_equal.
    rewrite (open_degree_visit items visited id x) by done. lia.
  - intros x. rewrite relax_children_degree, fmap_is_Some. apply H2.
  - intros x. rewrite relax_children_queue. intros [Hx|(_ & k & Hm & Hle)].
    + destruct (H3 x) as [? ?]; [by right|]. auto.
    + assert (x ∈ item_ids items) as Hx by (apply H2; eauto). split; [done|].
      rewrite H1 in Hm by done. injection Hm as <-.
      rewrite (open_degree_visit items visited id x) in Hle by done. lia.
  - intros x Hx Hz'. rewrite relax_children_queue, elem_of_union, elem_of_singleton.
    destruct (decide (x = id)) as [|Hne]; [auto|].
    destruct (decide (x ∈ item_children items id)) as [Hc|Hc].
    + right; right. split; [done|]. eexists. split; [by apply H1|].
      rewrite (open_degree_visit items visited id x) by done. lia.
    + destruct (H4 x Hx) as [?|[?|?]%elem_of_cons]; [|auto|done|auto].
      rewrite (open_degree_visit items visited id x), Hz' by done.
      destruct (occurrences x (item_children items id)) eqn:Ho; [done|].
      destruct Hc. apply occurrences_elem. lia.
  - clear -H5 Hk. set_solver.
  - intros x [->%elem_of_singleton|Hx]%elem_of_union; [|auto].
    constructor. intros d Hd. apply H6. by apply (proj1 (open_degree_zero items visited id) Hz).
Qed.

Lemma item_inv_skip items id queue visited m :
  id ∈ visited → item_inv items (id :: queue) visited m → item_inv items queue visited m.
Proof.
  intros Hid [H1 H2 H3 H4 H5 H6]. split; try done.
  - intros x Hx. apply H3. by right.
  - intros x Hx Hz. destruct (H4 x Hx Hz) as [?|[->|?]%elem_of_cons]; auto.
Qed.

Lemma relax_dependents items id queue m :
  match (edge_maps items).2 !! id with
  | Some children => relax_children children queue m
  | None => (queue, m)
  end = relax_children (item_children items id) queue m.
Proof.
  pose proof (dependents_lookup items id) as Hd. fold (item_children items id) in Hd.
  destruct ((edge_maps items).2 !! id) as [cs|]; simpl in Hd; by rewrite <- Hd.
Qed.

(** ** Termination *)

(** Each edge is traversed once, when its source is visited. *)
Lemma item_loop_total items fuel queue visited m :
  length queue + count (λ e, e.1 ∉ visited) (edges items) < fuel →
  is_Some (item_loop fuel (edge_maps items).2 queue visited m).
Proof.
  revert queue visited m. induction fuel as [|fuel IH]; intros queue visited m Hf; [lia|]. cbn [item_loop].
  destruct queue as [|id queue]; [eauto|]. simpl in Hf. case_decide as Hid; [apply IH; lia|].
  rewrite relax_dependents.
  pose proof (length_relax_children (item_children items id) queue m) as Hlen.
  destruct (relax_children _ _ _) as [queue' m']. simpl in Hlen. apply IH.
  unfold item_children in Hlen. rewrite length_map in Hlen. fold (count (λ e, e.1 = id) (edges items)) in Hlen.
  assert (count (λ e, e.1 ∉ visited) (edges items) = count (λ e, e.1 = id) (edges items)
          + count (λ e, e.1 ∉ {[id]} ∪ visited) (edges items)) as Hs; [|lia].
  apply count_split; intros [d y]; simpl; [|set_solver].
  destruct (decide (d = id)); set_solver.
Qed.

Lemma item_visit_total queue items : is_Some (item_visit queue items).
Proof.
  unfold item_visit. pose proof (item_loop_total items) as Ht.
  destruct (edge_maps items) as [m dependents]. apply Ht.
  apply le_n_S, Nat.add_le_mono_l, length_filter.
Qed.

(** ** Exactness *)

Lemma item_loop_inv items fuel queue visited m v m' :
  item_inv items queue visited m →
  item_loop fuel (edge_maps items).2 queue visited m = Some (v, m') →
  item_inv items [] v m'.
Proof.
  revert queue visited m. induction fuel as [|fuel IH]; intros queue visited m Hinv Hrun; [done|].
  cbn [item_loop] in Hrun. destruct queue as [|id queue]; [by simplify_eq|]. case_decide as Hid.
  - eapply IH; [|done]. by eapply item_inv_skip.
  - rewrite relax_dependents in Hrun. apply item_inv_visit in Hinv; [|done].
    destruct (relax_children _ _ _) as [queue' m2]. eauto.
Qed.

Lemma item_visit_inv queue items v m :
  queue ≡ₚ start_ids items → item_visit queue items = Some (v, m) → item_inv items [] v m.
Proof.
  intros Hq Hrun. unfold item_visit in Hrun.
  pose proof (item_inv_init items queue Hq) as Hinv.
  pose proof (item_loop_inv items) as Hloop.
  destruct (edge_maps items) as [m0 dependents]. cbn [fst snd] in *. eauto.
Qed.

(** The traversal fulfils the interface of [Kahn]. *)
Lemma item_visit_elimination queue items v m :
  queue ≡ₚ start_ids items → item_visit queue items = Some (v, m) →
  Elimination (item_dep items) (item_ids items) v.
Proof.
  intros Hq Hrun. destruct (item_visit_inv _ _ _ _ Hq Hrun) as [_ _ _ H4 H5 H6]. split; auto.
  - intros d y (i & _ & _ & _ & ?). done.
  - intros y Hy Hv. destruct (decide (open_degree (edges items) v y = 0)) as [Hz|Hz].
    { destruct (H4 y Hy Hz) as [?|?%elem_of_nil]; done. }
    unfold open_degree, count in Hz.
    destruct (filter (λ e, e.2 = y ∧ e.1 ∉ v) (edges items)) as [|[d z] es] eqn:He; [done|].
    assert ((d, z) ∈ filter (λ e, e.2 = y ∧ e.1 ∉ v) (edges items)) as Hin by (rewrite He; left).
    apply list_elem_of_filter in Hin as [[Hz' Hd] Hin]. simpl in *. subst z.
    exists d. split; [by apply elem_of_edges|done].
Qed.

Lemma item_visit_unvisited queue items v m x :
  queue ≡ₚ start_ids items → item_visit queue items = Some (v, m) → x ∈ item_ids items →
  x ∉ v ↔ ∃ c, tc (item_dep items) c c ∧ rtc (item_dep items) c x.
Proof.
  intros Hq Hrun Hx. pose proof (item_visit_elimination _ _ _ _ Hq Hrun).
  by apply (unvisited_iff (item_dep items) (item_ids items) v).
Qed.

Lemma elem_of_cycle_item_ids_from queue items x :
  queue ≡ₚ start_ids items →
  x ∈ cycle_item_ids_from queue items ↔
    x ∈ item_ids items ∧ ∃ c, tc (item_dep items) c c ∧ rtc (item_dep items) c x.
Proof.
  intros Hq. unfold cycle_item_ids_from.
  destruct (item_visit_total queue items) as [[v m] Hrun]. rewrite Hrun.
  destruct (item_visit_inv _ _ _ _ Hq Hrun) as [H1 H2 _ H4 _ _].
  rewrite merge_sort_Permutation, list_elem_of_omap. split.
  - intros ([y k] & Hy%elem_of_map_to_list & Hd). simpl in Hd. case_decide as Hc; [|done].
    injection Hd as ->. destruct Hc as [_ Hc]. assert (x ∈ item_ids items) as Hx by eauto.
    split; [done|]. by apply (item_visit_unvisited queue items v m x).
  - intros [Hx Hc]. exists (x, open_degree (edges items) v x).
    split; [by apply elem_of_map_to_list, H1|]. simpl. rewrite decide_True; [done|].
    assert (x ∉ v) as Hv by (by apply (item_visit_unvisited queue items v m x)).
    split; [|done]. destruct (open_degree (edges items) v x) eqn:Hz; [|lia].
    destruct (H4 x Hx Hz) as [?|?%elem_of_nil]; done.
Qed.

Lemma NoDup_omap_keys {A} (P : string * A → Prop) `{∀ p, Decision (P p)} (l : list (string * A)) :
  NoDup l.*1 → NoDup (omap (λ p, if decide (P p) then Some p.1 else None) l).
Proof.
  induction l as [|[k a] l IH]; simpl; [constructor|]. intros [Hk Hl]%NoDup_cons.
  case_decide; [|auto]. apply NoDup_cons. split; [|auto].
  intros ([k' a'] & Hin & Hs)%list_elem_of_omap. case_decide; simplify_eq/=.
  apply Hk, list_elem_of_fmap. exists (k, a'). done.
Qed.

Lemma sorted_cycle_item_ids queue items :
  Sorted String.le (cycle_item_ids_from queue items) ∧ NoDup (cycle_item_ids_from queue items).
Proof.
  unfold cycle_item_ids_from. destruct (item_visit queue items) as [[v m]|].
  - split; [apply Sorted_merge_sort, _|]. rewrite merge_sort_Permutation.
    apply NoDup_omap_keys, NoDup_fst_map_to_list.
  - split; constructor.
Qed.

(** The order of the hash map the work list starts from does not matter. *)
Lemma cycle_item_ids_order queue items :
  queue ≡ₚ start_ids items → cycle_item_ids_from queue items = cycle_item_ids items.
Proof.
  intros Hq. unfold cycle_item_ids.
  destruct (sorted_cycle_item_ids queue items) as [Hs1 Hn1].
  destruct (sorted_cycle_item_ids (start_ids items) items) as [Hs2 Hn2].
  apply (Sorted_unique String.le); [done|done|].
  apply NoDup_Permutation; [done|done|]. intros x.
  by rewrite !elem_of_cycle_item_ids_from.
Qed.

Lemma elem_of_cycle_item_ids items x :
  x ∈ cycle_item_ids items ↔
    x ∈ item_ids items ∧ ∃ c, tc (item_dep items) c c ∧ rtc (item_dep items) c x.
Proof. by apply elem_of_cycle_item_ids_from. Qed.
