(* ===== verification/Plan.v ===== *)
(** * Scheduling, assignment and control on plans

    The functions of crates/jcode-plan/src/lib.rs that read a plan: dependency status,
    the graph summary, the next runnable, unassigned or stranded item, the reclaim of
    a dead assignment, the target of a control action, the reason a task is blocked,
    assignment affinities. *)

From S2P Require Import Prelude RustStr Confidence DagTypes DagCycle PlanTypes PlanCycle.

(** ** Dependencies *)

Definition completed_item_ids (items : list PlanItem) : gset string :=
  list_to_set (map i_id (List.filter (λ i, is_completed_status (i_status i)) items)).

Definition unresolved_dependencies (i : PlanItem) (known completed : gset string) : list string :=
  List.filter (λ d, bool_decide (d ∈ known) && negb (bool_decide (d ∈ completed))) (i_blocked_by i).

Definition missing_dependencies (i : PlanItem) (known : gset string) : list string :=
  List.filter (λ d, negb (bool_decide (d ∈ known))) (i_blocked_by i).

Definition is_nil {A} (l : list A) : bool := match l with [] => true | _ => false end.

Definition is_unblocked (i : PlanItem) (known completed : gset string) : bool :=
  is_nil (missing_dependencies i known) && is_nil (unresolved_dependencies i known completed).

(** ** The summary *)

Record PlanGraphSummary := {
  g_ready_ids : list string;
  g_blocked_ids : list string;
  g_active_ids : list string;
  g_completed_ids : list string;
  g_failed_ids : list string;
  g_terminal_ids : list string;
  g_unresolved_dependency_ids : list string;
  g_cycle_ids : list string;
}.

(** The accumulators of the loop: three vectors and four ordered sets. *)
Record SummaryAcc := {
  c_ready : list string;
  c_blocked : list string;
  c_active : list string;
  c_completed : gset string;
  c_failed : gset string;
  c_terminal : gset string;
  c_unresolved : gset string;
}.

Definition acc_empty : SummaryAcc := {|
  c_ready := []; c_blocked := []; c_active := []; c_completed := ∅; c_failed := ∅;
  c_terminal := ∅; c_unresolved := ∅ |}.

Definition insert_if (b : bool) (x : string) (s : gset string) : gset string :=
  if b then {[x]} ∪ s else s.

Definition push_if (b : bool) (x : string) (l : list string) : list string :=
  if b then l ++ [x] else l.

(** The two mutually exclusive branches at the end of the loop body. *)
Definition counts_as_ready (known completed cyclic : gset string) (i : PlanItem) : bool :=
  let missing := missing_dependencies i known in
  let has_dependency_blocker :=
    negb (is_nil (unresolved_dependencies i known completed)) || bool_decide (i_id i ∈ cyclic) in
  is_runnable_status (i_status i) && is_nil missing && negb has_dependency_blocker.

Definition counts_as_blocked (known completed cyclic : gset string) (i : PlanItem) : bool :=
  let missing := missing_dependencies i known in
  let has_dependency_blocker :=
    negb (is_nil (unresolved_dependencies i known completed)) || bool_decide (i_id i ∈ cyclic) in
  negb (is_terminal_status (i_status i)) && negb (is_active_status (i_status i))
  && (negb (is_nil missing) || has_dependency_blocker || bool_decide (i_status i = "blocked")).

Definition summarize_item (known completed cyclic : gset string) (acc : SummaryAcc) (i : PlanItem)
  : SummaryAcc :=
  let missing := missing_dependencies i known in
  let ready := counts_as_ready known completed cyclic i in
  let blocked := negb ready && counts_as_blocked known completed cyclic i in {|
  c_ready := push_if ready (i_id i) (c_ready acc);
  c_blocked := push_if blocked (i_id i) (c_blocked acc);
  c_active := push_if (is_active_status (i_status i)) (i_id i) (c_active acc);
  c_completed := insert_if (is_completed_status (i_status i)) (i_id i) (c_completed acc);
  c_failed := insert_if (is_failed_status (i_status i)) (i_id i) (c_failed acc);
  c_terminal := insert_if (is_terminal_status (i_status i)) (i_id i) (c_terminal acc);
  c_unresolved := list_to_set missing ∪ c_unresolved acc |}.

(** A [BTreeSet] iterates in order. *)
Definition sorted_set (s : gset string) : list string := merge_sort String.le (elements s).

Definition summarize_plan_graph (items : list PlanItem) : PlanGraphSummary :=
  let known := item_ids items in
  let completed := completed_item_ids items in
  let cycle_ids := cycle_item_ids items in
  let cyclic := list_to_set cycle_ids in
  let acc := foldl (summarize_item known completed cyclic) acc_empty items in {|
  g_ready_ids := merge_sort String.le (c_ready acc);
  g_blocked_ids := merge_sort String.le (c_blocked acc);
  g_active_ids := merge_sort String.le (c_active acc);
  g_completed_ids := sorted_set (c_completed acc);
  g_failed_ids := sorted_set (c_failed acc);
  g_terminal_ids := sorted_set (c_terminal acc);
  g_unresolved_dependency_ids := sorted_set (c_unresolved acc);
  g_cycle_ids := cycle_ids |}.

Definition plan_le : relation PlanItem := rank_le (λ i, priority_rank (i_priority i)) i_id.

Definition next_runnable_item_ids (items : list PlanItem) (limit : option nat) : list string :=
  let ready_ids : gset string := list_to_set (g_ready_ids (summarize_plan_graph items)) in
  let ready_items :=
    merge_sort plan_le (List.filter (λ i, bool_decide (i_id i ∈ ready_ids)) items) in
  let ids := map i_id ready_items in
  match limit with Some limit => take limit ids | None => ids end.

Definition newly_ready_item_ids (before after : list PlanItem) : list string :=
  let before_ready : gset string := list_to_set (g_ready_ids (summarize_plan_graph before)) in
  List.filter (λ id, negb (bool_decide (id ∈ before_ready)))
    (g_ready_ids (summarize_plan_graph after)).

(** ** Assignment *)

Definition find_item (items : list PlanItem) (id : string) : option PlanItem :=
  find (λ i, bool_decide (i_id i = id)) items.

Definition assignment_loads (p : VersionedPlan) : gmap string nat :=
  foldl (λ loads i,
    if is_terminal_status (i_status i) then loads
    else match i_assigned_to i with
         | Some assignee => entry_add 1 loads assignee
         | None => loads
         end) ∅ (v_items p).

Definition is_unassigned (p : VersionedPlan) (id : string) : bool :=
  match find_item (v_items p) id with
  | Some i => match i_assigned_to i with None => true | Some _ => false end
  | None => false
  end.

Definition next_unassigned_runnable_item_id (p : VersionedPlan) : option string :=
  find (is_unassigned p) (next_runnable_item_ids (v_items p) None).

Definition MAX_DEAD_ASSIGNEE_RECLAIMS : N := 3.

Definition reclaims (p : VersionedPlan) (id : string) : N :=
  default 0%N (v_task_progress p !! id ≫= p_dead_assignee_reclaims).

Definition is_stranded (p : VersionedPlan) (assignee_is_dead : string → bool) (id : string) : bool :=
  match find_item (v_items p) id with
  | None => false
  | Some i =>
      match i_assigned_to i with
      | None => false
      | Some assignee =>
          if negb (assignee_is_dead assignee) then false
          else (reclaims p id <? MAX_DEAD_ASSIGNEE_RECLAIMS)%N
      end
  end.

Definition next_stranded_runnable_item_id (p : VersionedPlan) (assignee_is_dead : string → bool)
  : option string :=
  find (is_stranded p assignee_is_dead) (next_runnable_item_ids (v_items p) None).

(** Machine increments, at their width. *)
Definition u32_succ (n : N) : N := ((n + 1) mod 2 ^ 32)%N.
Definition u64_succ (n : N) : N := ((n + 1) mod 2 ^ 64)%N.

Definition reclaim_progress (previous : option string) (t : SwarmTaskProgress) : SwarmTaskProgress :=
  let t := set_assigned_session None t in
  set_reclaims (Some (u32_succ (default 0%N (p_dead_assignee_reclaims t))))
    (Some ("assignment reclaimed: previous assignee "
           +:+ default "<unknown>" previous +:+ " is dead")) t.

Definition reclaim_stranded_assignment (p : VersionedPlan) (task_id : string)
  : bool * VersionedPlan :=
  match find_item (v_items p) task_id with
  | None => (false, p)
  | Some i =>
      match i_assigned_to i with
      | None => (false, p)
      | Some previous =>
          (true, {|
             v_items := update_first (λ i, bool_decide (i_id i = task_id))
                          (set_assigned_to None) (v_items p);
             v_version := u64_succ (v_version p);
             v_participants := v_participants p;
             v_task_progress :=
               <[task_id := reclaim_progress (Some previous)
                              (default progress_default (v_task_progress p !! task_id))]>
                 (v_task_progress p);
             v_mode := v_mode p;
             v_node_meta := v_node_meta p |})
      end
  end.

(** ** Control *)

Definition control_rank (status : string) : nat :=
  if mem status ["running"; "running_stale"] then 0
  else if mem status ["queued"; "ready"; "pending"; "todo"] then 1
  else if mem status ["failed"; "stopped"; "crashed"] then 2
  else if mem status ["completed"; "done"] then 3
  else 4.

(** A stable sort by a key with values 0 to 4. *)
Definition sort_by_control_rank (l : list PlanItem) : list PlanItem :=
  flat_map (λ r, List.filter (λ i, bool_decide (control_rank (i_status i) = r)) l) [0; 1; 2; 3; 4].

Definition control_candidates (items : list PlanItem) (target_session : string)
  (action : TaskControlAction) : list PlanItem :=
  List.filter (λ i, task_control_action_allows_status action (i_status i))
    (List.filter (λ i, bool_decide (i_assigned_to i = Some target_session)) items).

Definition task_control_target_item_id (items : list PlanItem) (target_session : string)
  (action : TaskControlAction) : result string string :=
  let candidates := sort_by_control_rank (control_candidates items target_session action) in
  let several :=
    Err ("Multiple tasks assigned to '" +:+ target_session +:+ "' can be "
         +:+ action_as_str action +:+ ": " +:+ join ", " (map i_id candidates)
         +:+ ". Provide task_id explicitly.") in
  match candidates with
  | [] => Err ("No task assigned to '" +:+ target_session +:+ "' can be "
               +:+ action_as_str action
               +:+ ". Provide task_id explicitly, or assign a task first.")
  | [i] => Ok (i_id i)
  | first :: second :: _ =>
      if bool_decide (i_status first ≠ i_status second) then Ok (i_id first) else several
  end.

Definition explicit_task_blocked_reason (p : VersionedPlan) (task_id : string) : option string :=
  let known := item_ids (v_items p) in
  let completed := completed_item_ids (v_items p) in
  let cyclic : gset string := list_to_set (cycle_item_ids (v_items p)) in
  match find_item (v_items p) task_id with
  | None => None
  | Some i =>
      let missing := missing_dependencies i known in
      let unresolved := unresolved_dependencies i known completed in
      if negb (is_nil missing) then
        Some ("Task '" +:+ i_id i +:+ "' has missing dependencies: " +:+ join ", " missing)
      else if negb (is_nil unresolved) then
        Some ("Task '" +:+ i_id i +:+ "' is still blocked by: " +:+ join ", " unresolved)
      else if bool_decide (i_id i ∈ cyclic) then
        Some ("Task '" +:+ i_id i +:+ "' is part of a dependency cycle and is not runnable")
      else None
  end.

(** ** Affinities *)

Record AssignmentAffinities := {
  af_loads : gmap string nat;
  af_dependency_carryover : gmap string nat;
  af_metadata_carryover : gmap string nat;
}.

(** [if let Some(owner) = o { *m.entry(owner).or_default() += k }]. *)
Definition credit (k : nat) (o : option string) (m : gmap string nat) : gmap string nat :=
  match o with Some owner => entry_add k m owner | None => m end.

Definition dependency_carryover (p : VersionedPlan) (task : PlanItem) : gmap string nat :=
  foldl (λ m d,
    credit 1 (v_task_progress p !! d ≫= p_assigned_session_id)
      (credit 1 (find_item (v_items p) d ≫= i_assigned_to) m)) ∅ (i_blocked_by task).

Definition same_subsystem (a b : PlanItem) : bool :=
  match i_subsystem a, i_subsystem b with
  | Some l, Some r => bool_decide (l = r)
  | _, _ => false
  end.

Definition scope_overlap (task i : PlanItem) : nat :=
  length (List.filter (λ path, mem path (i_file_scope i)) (i_file_scope task)).

Definition metadata_step (task : PlanItem) (m : gmap string nat) (i : PlanItem) : gmap string nat :=
  match i_assigned_to i with
  | None => m
  | Some owner =>
      if bool_decide (i_id i = i_id task) then m
      else
        let m := if same_subsystem task i then entry_add 2 m owner else m in
        if negb (is_nil (i_file_scope task)) && negb (is_nil (i_file_scope i)) then
          let overlap := scope_overlap task i in
          if bool_decide (0 < overlap) then entry_add overlap m owner else m
        else m
  end.

Definition assignment_affinities_for_task (p : VersionedPlan) (task_id : string)
  : result AssignmentAffinities string :=
  match find_item (v_items p) task_id with
  | None => Err ("Task '" +:+ task_id +:+ "' not found in swarm plan")
  | Some task => Ok {|
      af_loads := assignment_loads p;
      af_dependency_carryover := dependency_carryover p task;
      af_metadata_carryover := foldl (metadata_step task) ∅ (v_items p) |}
  end.
