(* ===== verification/PlanLemmas.v ===== *)
(** * Lemmas about plan scheduling

    What the summary loop collects, what it means to be ready, and how assignment
    changes leave readiness alone. *)

From S2P Require Import Prelude RustStr Confidence DagTypes Kahn DagCycle PlanTypes PlanCycle Plan.

(** ** Dependencies *)

Lemma elem_of_completed items x :
  x ∈ completed_item_ids items ↔ ∃ i, i ∈ items ∧ i_id i = x ∧ is_completed_status (i_status i) = true.
Proof.
  unfold completed_item_ids. rewrite elem_of_list_to_set, list_elem_of_fmap.
  setoid_rewrite elem_of_filterb. naive_solver.
Qed.

Lemma completed_known items x : x ∈ completed_item_ids items → x ∈ item_ids items.
Proof. intros (i & Hi & Hx & _)%elem_of_completed. apply elem_of_item_ids. eauto. Qed.

Lemma is_nil_true {A} (l : list A) : is_nil l = true ↔ l = [].
Proof. by destruct l. Qed.

(** Nothing missing and nothing unresolved: every dependency is completed. *)
Lemma is_unblocked_spec items i :
  is_unblocked i (item_ids items) (completed_item_ids items) = true ↔
  ∀ d, d ∈ i_blocked_by i → d ∈ completed_item_ids items.
Proof.
  unfold is_unblocked, missing_dependencies, unresolved_dependencies.
  rewrite andb_true_iff, !is_nil_true, !filterb_nil. split.
  - intros [Hm Hu] d Hd. specialize (Hm d Hd). specialize (Hu d Hd).
    apply negb_false_iff in Hm. rewrite Hm in Hu. simpl in Hu.
    by apply negb_false_iff, bool_decide_eq_true in Hu.
  - intros Hall. split; intros d Hd; specialize (Hall d Hd).
    + by rewrite bool_decide_eq_true_2 by (by apply completed_known).
    + by rewrite (bool_decide_eq_true_2 (d ∈ completed_item_ids items)), andb_false_r by done.
Qed.

Definition on_cycle (items : list PlanItem) (x : string) : Prop := x ∈ cycle_item_ids items.

(** [ready items i]: the item can be started now. *)
Definition item_ready (items : list PlanItem) (i : PlanItem) : Prop :=
  is_runnable_status (i_status i) = true ∧
  (∀ d, d ∈ i_blocked_by i → d ∈ completed_item_ids items) ∧
  ¬ on_cycle items (i_id i).

Definition is_item_ready (items : list PlanItem) (i : PlanItem) : bool :=
  counts_as_ready (item_ids items) (completed_item_ids items)
    (list_to_set (cycle_item_ids items)) i.

Lemma is_item_ready_spec items i : is_item_ready items i = true ↔ item_ready items i.
Proof.
  unfold is_item_ready, counts_as_ready, item_ready, on_cycle.
  rewrite <- (is_unblocked_spec items i). unfold is_unblocked.
  rewrite !andb_true_iff, negb_true_iff, orb_false_iff, negb_false_iff, bool_decide_eq_false,
    elem_of_list_to_set. tauto.
Qed.

(** ** The loop *)

Section summary.
Context (known completed cyclic : gset string).

Lemma fold_ready items acc :
  c_ready (foldl (summarize_item known completed cyclic) acc items)
  = c_ready acc ++ map i_id (List.filter (counts_as_ready known completed cyclic) items).
Proof.
  revert acc. induction items as [|i l IH]; intros acc; simpl; [by rewrite app_nil_r|].
  rewrite IH. simpl. unfold push_if. destruct (counts_as_ready _ _ _ i); [|done].
  by rewrite <- app_assoc.
Qed.

Lemma fold_blocked items acc :
  c_blocked (foldl (summarize_item known completed cyclic) acc items)
  = c_blocked acc ++ map i_id (List.filter
      (λ i, negb (counts_as_ready known completed cyclic i)
            && counts_as_blocked known completed cyclic i) items).
Proof.
  revert acc. induction items as [|i l IH]; intros acc; simpl; [by rewrite app_nil_r|].
  rewrite IH. simpl. unfold push_if. destruct (negb _ && _); [|done].
  by rewrite <- app_assoc.
Qed.

Lemma fold_active items acc :
  c_active (foldl (summarize_item known completed cyclic) acc items)
  = c_active acc ++ map i_id (List.filter (λ i, is_active_status (i_status i)) items).
Proof.
  revert acc. induction items as [|i l IH]; intros acc; simpl; [by rewrite app_nil_r|].
  rewrite IH. simpl. unfold push_if. destruct (is_active_status _); [|done].
  by rewrite <- app_assoc.
Qed.

Lemma fold_terminal items acc x :
  x ∈ c_terminal (foldl (summarize_item known completed cyclic) acc items) ↔
  x ∈ c_terminal acc ∨ ∃ i, i ∈ items ∧ i_id i = x ∧ is_terminal_status (i_status i) = true.
Proof.
  revert acc. induction items as [|i l IH]; intros acc; simpl.
  - split; [auto|]. intros [?|(i & Hi%elem_of_nil & _)]; done.
  - rewrite IH. simpl. unfold insert_if. setoid_rewrite elem_of_cons.
    destruct (is_terminal_status (i_status i)) eqn:Ht.
    + rewrite elem_of_union, elem_of_singleton. naive_solver.
    + naive_solver congruence.
Qed.

Lemma fold_completed items acc x :
  x ∈ c_completed (foldl (summarize_item known completed cyclic) acc items) ↔
  x ∈ c_completed acc ∨ ∃ i, i ∈ items ∧ i_id i = x ∧ is_completed_status (i_status i) = true.
Proof.
  revert acc. induction items as [|i l IH]; intros acc; simpl.
  - split; [auto|]. intros [?|(i & Hi%elem_of_nil & _)]; done.
  - rewrite IH. simpl. unfold insert_if. setoid_rewrite elem_of_cons.
    destruct (is_completed_status (i_status i)) eqn:Ht.
    + rewrite elem_of_union, elem_of_singleton. naive_solver.
    + naive_solver congruence.
Qed.
End summary.

Definition is_item_blocked (items : list PlanItem) (i : PlanItem) : bool :=
  negb (is_item_ready items i) &&
  counts_as_blocked (item_ids items) (completed_item_ids items)
    (list_to_set (cycle_item_ids items)) i.

Lemma elem_of_map_id_filter (f : PlanItem → bool) items x :
  x ∈ map i_id (List.filter f items) ↔ ∃ i, i ∈ items ∧ i_id i = x ∧ f i = true.
Proof. rewrite list_elem_of_fmap. setoid_rewrite elem_of_filterb. naive_solver. Qed.

Lemma elem_of_ready items x :
  x ∈ g_ready_ids (summarize_plan_graph items) ↔ ∃ i, i ∈ items ∧ i_id i = x ∧ item_ready items i.
Proof.
  simpl. rewrite merge_sort_Permutation, fold_ready. simpl. rewrite elem_of_map_id_filter.
  by setoid_rewrite is_item_ready_spec.
Qed.

Lemma elem_of_blocked items x :
  x ∈ g_blocked_ids (summarize_plan_graph items) ↔
  ∃ i, i ∈ items ∧ i_id i = x ∧ is_item_blocked items i = true.
Proof.
  simpl. rewrite merge_sort_Permutation, fold_blocked. simpl. by rewrite elem_of_map_id_filter.
Qed.

Lemma elem_of_active items x :
  x ∈ g_active_ids (summarize_plan_graph items) ↔
  ∃ i, i ∈ items ∧ i_id i = x ∧ is_active_status (i_status i) = true.
Proof.
  simpl. rewrite merge_sort_Permutation, fold_active. simpl. by rewrite elem_of_map_id_filter.
Qed.

Lemma elem_of_terminal items x :
  x ∈ g_terminal_ids (summarize_plan_graph items) ↔
  ∃ i, i ∈ items ∧ i_id i = x ∧ is_terminal_status (i_status i) = true.
Proof.
  simpl. unfold sorted_set. rewrite merge_sort_Permutation, elem_of_elements, fold_terminal.
  simpl. set_solver.
Qed.

Lemma elem_of_summary_completed items x :
  x ∈ g_completed_ids (summarize_plan_graph items) ↔ x ∈ completed_item_ids items.
Proof.
  simpl. unfold sorted_set. rewrite merge_sort_Permutation, elem_of_elements, fold_completed.
  rewrite elem_of_completed. simpl. set_solver.
Qed.

(** ** Unique ids *)

Lemma same_item items i j :
  NoDup (map i_id items) → i ∈ items → j ∈ items → i_id i = i_id j → i = j.
Proof.
  intros Hnd Hi Hj Hid. apply list_elem_of_lookup in Hi as [a Ha], Hj as [b Hb].
  assert (a = b) as ->; [|congruence].
  eapply NoDup_lookup; [exact Hnd|..]; rewrite list_lookup_fmap, ?Ha, ?Hb; simpl; by rewrite ?Hid.
Qed.

(** Membership in a bucket is decided by the item itself. *)
Lemma bucket_of_item items (P : PlanItem → Prop) i :
  NoDup (map i_id items) → i ∈ items →
  (∃ j, j ∈ items ∧ i_id j = i_id i ∧ P j) ↔ P i.
Proof.
  intros Hnd Hi. split; [|eauto]. intros (j & Hj & Hid & HP).
  by rewrite (same_item items i j).
Qed.

Lemma find_item_Some items x i : find_item items x = Some i → i ∈ items ∧ i_id i = x.
Proof. unfold find_item. intros [? ?%bool_decide_eq_true]%find_Some_elem. done. Qed.

Lemma find_item_None items x : find_item items x = None ↔ x ∉ item_ids items.
Proof.
  rewrite elem_of_item_ids. unfold find_item. split.
  - intros Hf (i & Hi & <-). eapply find_None_elem in Hf; [|done].
    by apply bool_decide_eq_false in Hf.
  - intros Hno. destruct (find _ _) as [i|] eqn:E; [|done]. exfalso.
    apply find_Some_elem in E as [? ?%bool_decide_eq_true]. eauto.
Qed.

Lemma find_item_NoDup items i :
  NoDup (map i_id items) → i ∈ items → find_item items (i_id i) = Some i.
Proof.
  intros Hnd Hi. destruct (find_item items (i_id i)) as [j|] eqn:E.
  - apply find_item_Some in E as [Hj Hid]. f_equal. by apply (same_item items).
  - apply find_item_None in E. destruct E. apply elem_of_item_ids. eauto.
Qed.

Lemma ready_id_item items i :
  NoDup (map i_id items) → i ∈ items →
  i_id i ∈ g_ready_ids (summarize_plan_graph items) ↔ item_ready items i.
Proof. intros Hnd Hi. rewrite elem_of_ready. by apply bucket_of_item. Qed.

(** ** The runnable list *)

Lemma next_runnable_sorted items :
  NoDup (map i_id items) →
  ∃ l, next_runnable_item_ids items None = map i_id l ∧
    StronglySorted plan_le l ∧ NoDup (map i_id l) ∧
    ∀ i, i ∈ l ↔ i ∈ items ∧ item_ready items i.
Proof.
  intros Hnd. unfold next_runnable_item_ids.
  set (f := λ i, bool_decide (i_id i ∈ (list_to_set (g_ready_ids (summarize_plan_graph items)) : gset string))).
  exists (merge_sort plan_le (List.filter f items)). split; [done|].
  split; [apply StronglySorted_merge_sort; apply _|]. split.
  - rewrite merge_sort_Permutation. by apply NoDup_map_filterb.
  - intros i. rewrite merge_sort_Permutation, elem_of_filterb. unfold f.
    rewrite bool_decide_eq_true, elem_of_list_to_set. split.
    + intros [Hi Hr]. by apply ready_id_item in Hr.
    + intros [Hi Hr]. split; [done|]. by apply ready_id_item.
Qed.

(** The first element of a sorted list that satisfies a test is below every other. *)
Lemma find_sorted {A} (R : relation A) (f : A → bool) (l : list A) x y :
  Reflexive R → StronglySorted R l → find f l = Some x → y ∈ l → f y = true → R x y.
Proof.
  intros HR. induction 1 as [|z l Hl IH Hz]; [done|]. simpl.
  destruct (f z) eqn:Hf.
  - intros [= ->] [->|Hy]%elem_of_cons _; [done|]. rewrite Forall_forall in Hz. auto.
  - intros Hx [->|Hy]%elem_of_cons Hfy; [congruence|auto].
Qed.

#[export] Instance plan_le_refl : Reflexive plan_le.
Proof. intros i. right. split; [done|]. reflexivity. Qed.

Lemma find_map_ids (f : string → bool) (l : list PlanItem) :
  find f (map i_id l) = i_id <$> find (λ i, f (i_id i)) l.
Proof. induction l as [|i l IH]; simpl; [done|]. by destruct (f (i_id i)). Qed.

(** The specification shared by the two automatic pickers: the best ready item that
    passes the test, or none when no ready item does. *)
Lemma pick_spec items (f : string → bool) :
  NoDup (map i_id items) →
  match find f (next_runnable_item_ids items None) with
  | Some x => ∃ i, i ∈ items ∧ i_id i = x ∧ item_ready items i ∧ f x = true ∧
      ∀ j, j ∈ items → item_ready items j → f (i_id j) = true → plan_le i j
  | None => ∀ j, j ∈ items → item_ready items j → f (i_id j) = false
  end.
Proof.
  intros Hnd. destruct (next_runnable_sorted items Hnd) as (l & -> & Hs & _ & Hl).
  rewrite find_map_ids. destruct (find (λ i, f (i_id i)) l) as [i|] eqn:Hf; simpl.
  - destruct (find_Some_elem _ _ _ Hf) as [Hi Hfi]. apply Hl in Hi as [Hi Hr].
    exists i. repeat split; try done; [apply Hr..|]. intros j Hj Hrj Hfj.
    eapply find_sorted; [apply _|exact Hs|exact Hf|by apply Hl|done].
  - intros j Hj Hrj. eapply find_None_elem in Hf; [exact Hf|]. by apply Hl.
Qed.

(** ** Changes that scheduling does not see *)

Lemma foldl_ext_elem {A B} (f g : B → A → B) (l : list A) b :
  (∀ b a, a ∈ l → f b a = g b a) → foldl f b l = foldl g b l.
Proof.
  revert b. induction l as [|a l IH]; intros b Hfg; simpl; [done|].
  rewrite Hfg by left. apply IH. intros. apply Hfg. by right.
Qed.

Lemma filterb_map {A B} (p : B → bool) (f : A → B) (l : list A) :
  List.filter p (map f l) = map f (List.filter (λ a, p (f a)) l).
Proof. induction l as [|a l IH]; simpl; [done|]. rewrite IH. by destruct (p (f a)). Qed.

(** A rewrite of items that keeps id, status, dependencies and priority. *)
Record keeps_plan (f : PlanItem → PlanItem) : Prop := {
  kp_id : ∀ i, i_id (f i) = i_id i;
  kp_status : ∀ i, i_status (f i) = i_status i;
  kp_blocked_by : ∀ i, i_blocked_by (f i) = i_blocked_by i;
  kp_priority : ∀ i, i_priority (f i) = i_priority i;
}.

Lemma keeps_plan_assigned o : keeps_plan (λ i, set_assigned_to (o i) i).
Proof. by split. Qed.

Section keeps_plan.
Context (f : PlanItem → PlanItem) (Hf : keeps_plan f).

Lemma map_ids_keeps items : map i_id (map f items) = map i_id items.
Proof using Hf. rewrite map_map. apply map_ext. apply Hf. Qed.

Lemma item_ids_keeps items : item_ids (map f items) = item_ids items.
Proof using Hf. unfold item_ids. by rewrite map_ids_keeps. Qed.

Lemma completed_keeps items : completed_item_ids (map f items) = completed_item_ids items.
Proof using Hf.
  unfold completed_item_ids. rewrite filterb_map, map_ids_keeps. do 2 f_equal.
  apply List.filter_ext. intros i. by rewrite (kp_status _ Hf).
Qed.

Lemma edge_maps_keeps items : edge_maps (map f items) = edge_maps items.
Proof using Hf.
  unfold edge_maps, zero_degrees, known_deps. rewrite item_ids_keeps, !foldl_map_arg.
  rewrite (foldl_ext_elem (λ m i, or_insert_zero m (i_id (f i))) (λ m i, or_insert_zero m (i_id i)))
    by (intros; by rewrite (kp_id _ Hf)).
  apply foldl_ext_elem. intros. by rewrite (kp_id _ Hf), (kp_blocked_by _ Hf).
Qed.

Lemma cycle_item_ids_keeps items : cycle_item_ids (map f items) = cycle_item_ids items.
Proof using Hf.
  unfold cycle_item_ids, cycle_item_ids_from, item_visit, start_ids.
  rewrite edge_maps_keeps. enough (edges (map f items) = edges items) as -> by done.
  unfold edges, known_deps. rewrite item_ids_keeps. generalize (item_ids items). intros ids.
  induction items as [|i l IH]; simpl; [done|]. by rewrite IH, (kp_id _ Hf), (kp_blocked_by _ Hf).
Qed.

Lemma item_ready_keeps items i : item_ready (map f items) (f i) ↔ item_ready items i.
Proof using Hf.
  unfold item_ready, on_cycle.
  by rewrite completed_keeps, cycle_item_ids_keeps, (kp_id _ Hf), (kp_status _ Hf), (kp_blocked_by _ Hf).
Qed.

Lemma next_runnable_keeps items :
  NoDup (map i_id items) →
  next_runnable_item_ids (map f items) None = next_runnable_item_ids items None.
Proof using Hf.
  intros Hnd. destruct (next_runnable_sorted items Hnd) as (l & -> & Hs & Hndl & Hl).
  destruct (next_runnable_sorted (map f items)) as (l' & -> & Hs' & Hndl' & Hl');
    [by rewrite map_ids_keeps|].
  enough (l' = map f l) as -> by apply map_ids_keeps.
  apply (StronglySorted_unique_strong plan_le).
  - intros i j Hi Hj Hij Hji. apply Hl' in Hi as [Hi _].
    apply list_elem_of_fmap in Hj as (j' & -> & [Hj' _]%Hl).
    apply (same_item (map f items)); [by rewrite map_ids_keeps|done|apply list_elem_of_fmap; eauto|].
    exact (rank_le_antisymm_key _ i_id _ _ Hij Hji).
  - done.
  - clear -Hs Hf. induction Hs as [|i l Hl IH Hi]; simpl; constructor; [done|].
    rewrite Forall_fmap. eapply Forall_impl; [exact Hi|]. intros j. unfold plan_le, rank_le. simpl.
    by rewrite !(kp_id _ Hf), !(kp_priority _ Hf).
  - apply NoDup_Permutation; [by eapply NoDup_fmap_1| |].
    + eapply (NoDup_fmap_1 i_id). change (NoDup (map i_id (map f l))). by rewrite map_ids_keeps.
    + intros i. rewrite Hl', !list_elem_of_fmap. split.
      * intros [(j & -> & Hj) Hr]. exists j. split; [done|]. apply Hl. split; [done|].
        by apply item_ready_keeps.
      * intros (j & -> & [Hj Hr]%Hl). split; [eauto|]. by apply item_ready_keeps.
Qed.
End keeps_plan.

(** With unique ids, updating the first item with an id is a rewrite of all items. *)
Lemma update_first_map x (f : PlanItem → PlanItem) items :
  NoDup (map i_id items) →
  update_first (λ i, bool_decide (i_id i = x)) f items
  = map (λ i, if bool_decide (i_id i = x) then f i else i) items.
Proof.
  induction items as [|i l IH]; simpl; [done|]. intros [Hi Hl]%NoDup_cons.
  case_bool_decide as Hx; f_equal; [|auto].
  rewrite <- (map_id l) at 1. apply map_ext_in. intros j Hj%list_elem_of_In.
  case_bool_decide as Hj'; [|done]. exfalso. apply Hi, list_elem_of_fmap. exists j. split; [congruence|done].
Qed.

(** ** Loads *)

Definition busy_for (a : string) (i : PlanItem) : bool :=
  negb (is_terminal_status (i_status i)) && bool_decide (i_assigned_to i = Some a).

Lemma assignment_loads_lookup p a :
  default 0 (assignment_loads p !! a) = length (List.filter (busy_for a) (v_items p)).
Proof.
  unfold assignment_loads.
  assert (∀ l m, default 0 (foldl (λ loads i,
      if is_terminal_status (i_status i) then loads
      else match i_assigned_to i with
           | Some assignee => entry_add 1 loads assignee
           | None => loads
           end) m l !! a) = default 0 (m !! a) + length (List.filter (busy_for a) l)) as Hgen;
    [|by rewrite Hgen, lookup_empty].
  induction l as [|i l IH]; intros m; simpl; [lia|]. rewrite IH. unfold busy_for at 2.
  destruct (is_terminal_status (i_status i)); simpl; [done|].
  destruct (i_assigned_to i) as [b|]; [|by rewrite bool_decide_eq_false_2].
  unfold entry_add. destruct (decide (b = a)) as [->|Hne].
  - rewrite lookup_insert_eq, bool_decide_eq_true_2 by done. simpl. lia.
  - rewrite lookup_insert_ne, bool_decide_eq_false_2 by congruence. done.
Qed.

(** ** Control targets *)

Lemma control_rank_le s : control_rank s ≤ 4.
Proof. unfold control_rank. repeat destruct (mem s _); lia. Qed.

Lemma elem_of_sort_by_control_rank l i : i ∈ sort_by_control_rank l ↔ i ∈ l.
Proof.
  unfold sort_by_control_rank. rewrite list_elem_of_In, in_flat_map. split.
  - intros (r & _ & Hi). by apply list_elem_of_In, elem_of_filterb in Hi as [? _].
  - intros Hi. exists (control_rank (i_status i)). split.
    + pose proof (control_rank_le (i_status i)). simpl. lia.
    + apply list_elem_of_In, elem_of_filterb. split; [done|by apply bool_decide_eq_true].
Qed.

Definition control_le (i j : PlanItem) : Prop :=
  control_rank (i_status i) ≤ control_rank (i_status j).

Lemma sorted_control_rank l : StronglySorted control_le (sort_by_control_rank l).
Proof.
  unfold sort_by_control_rank.
  assert (StronglySorted lt [0; 1; 2; 3; 4]) as Hs by (repeat constructor).
  induction Hs as [|r rs Hrs IH Hr]; [constructor|]. cbn [flat_map].
  apply StronglySorted_app; repeat split.
  - intros i j Hi Hj. unfold control_le.
    apply elem_of_filterb in Hi as [_ Hi%bool_decide_eq_true]. rewrite Hi.
    apply list_elem_of_In, in_flat_map in Hj as (r' & Hr' & Hj).
    apply list_elem_of_In, elem_of_filterb in Hj as [_ Hj%bool_decide_eq_true]. rewrite Hj.
    rewrite Forall_forall in Hr. apply Nat.lt_le_incl, Hr. by apply list_elem_of_In.
  - clear. induction l as [|i l IH]; simpl; [constructor|]. case_bool_decide as Hi; [|done].
    constructor; [done|]. apply Forall_forall. intros j [_ Hj%bool_decide_eq_true]%elem_of_filterb.
    unfold control_le. lia.
  - done.
Qed.

Lemma elem_of_control_candidates items target action i :
  i ∈ control_candidates items target action ↔
  i ∈ items ∧ i_assigned_to i = Some target ∧ task_control_action_allows_status action (i_status i) = true.
Proof.
  unfold control_candidates. rewrite !elem_of_filterb, bool_decide_eq_true. tauto.
Qed.
