(* ===== verification/Bridge.v ===== *)
(** * Bridge between plans and the task-graph engine

    crates/jcode-plan/src/bridge.rs: a stored plan is lifted to a [TaskGraph], an engine
    operation runs, and the result is lowered back.  Artifacts are stored as JSON
    text; the serializer is a parameter. *)

From S2P Require Import Prelude RustStr Confidence DagTypes Kahn DagCycle DagOps DagInv PlanTypes PlanCycle Plan PlanLemmas.

Definition parse_mode (mode : string) : Mode :=
  if bool_decide (to_ascii_lowercase (trim mode) = "deep") then Deep else Light.

Definition mode_str (m : Mode) : string :=
  match m with Deep => "deep" | Light => "light" end.

Definition parse_kind (kind : option string) : NodeKind :=
  match (λ k, to_ascii_lowercase (trim k)) <$> kind with
  | Some k =>
      if bool_decide (k = "implement") then Implement
      else if bool_decide (k = "verify") then Verify
      else if bool_decide (k = "fix") then Fix
      else if bool_decide (k = "synthesize") then Synthesize
      else if bool_decide (k = "critique") then Critique
      else Explore
  | None => Explore
  end.

Definition kind_str (k : NodeKind) : string :=
  match k with
  | Explore => "explore" | Implement => "implement" | Verify => "verify"
  | Fix => "fix" | Synthesize => "synthesize" | Critique => "critique"
  end.

Definition parse_origin (origin : option string) : option NodeOrigin :=
  match (λ o, to_ascii_lowercase (trim o)) <$> origin with
  | Some o =>
      if bool_decide (o = "seed") then Some OSeed
      else if bool_decide (o = "expand") then Some OExpand
      else if bool_decide (o = "gap") then Some OGap
      else if bool_decide (o = "gate") then Some OGate
      else None
  | None => None
  end.

Definition origin_str (o : NodeOrigin) : string :=
  match o with OSeed => "seed" | OExpand => "expand" | OGap => "gap" | OGate => "gate" end.

Definition status_from_plan (status : string) : NodeStatus :=
  if mem status ["running"; "running_stale"] then Running
  else if mem status ["completed"; "done"] then Done
  else if mem status ["failed"; "stopped"; "crashed"] then Failed
  else Queued.

Definition status_to_plan (s : NodeStatus) : string :=
  match s with
  | Queued => "queued" | Running => "running" | Done => "completed" | Failed => "failed"
  end.

Definition priority_string (rank : N) : string :=
  if (rank =? 0)%N then "high" else if (rank =? 2)%N then "low" else "medium".

Section bridge.
(** [serde_json::to_string(a).ok()] and [serde_json::from_str(json).ok()]. *)
Context (to_json : HandoffArtifact → option string).
Context (from_json : string → option HandoffArtifact).

Definition lift_item (p : VersionedPlan) (i : PlanItem) : TaskNode :=
  let meta := default meta_default (v_node_meta p !! i_id i) in {|
  n_id := i_id i;
  n_content := i_content i;
  n_kind := parse_kind (m_kind meta);
  n_status := status_from_plan (i_status i);
  n_owner := i_assigned_to i;
  n_parent := m_parent meta;
  n_depends_on := i_blocked_by i;
  n_expanded := m_expanded meta;
  n_is_gate := m_is_gate meta;
  n_planner := m_planner meta;
  n_priority := priority_rank (i_priority i);
  n_output := m_artifact_json meta ≫= from_json;
  n_origin := parse_origin (m_origin meta) |}.

Definition to_task_graph (p : VersionedPlan) : TaskGraph :=
  foldl (λ g i, push g (lift_item p i)) (graph_new (parse_mode (v_mode p))) (v_items p).

(** The prior items by id; a later item with the same id wins. *)
Definition prior_items (items : list PlanItem) : gmap string PlanItem :=
  insert_all i_id (λ i, i) ∅ items.

Definition lower_node (prior : gmap string PlanItem) (n : TaskNode) : PlanItem :=
  let prev := prior !! n_id n in {|
  i_content := n_content n;
  i_status := status_to_plan (n_status n);
  i_priority := match prev with Some p => i_priority p | None => priority_string (n_priority n) end;
  i_id := n_id n;
  i_subsystem := prev ≫= i_subsystem;
  i_file_scope := match prev with Some p => i_file_scope p | None => [] end;
  i_blocked_by := n_depends_on n;
  i_assigned_to := n_owner n |}.

Definition lower_meta (n : TaskNode) : NodeMeta := {|
  m_kind := Some (kind_str (n_kind n));
  m_parent := n_parent n;
  m_expanded := n_expanded n;
  m_is_gate := n_is_gate n;
  m_planner := n_planner n;
  m_artifact_json := n_output n ≫= to_json;
  m_origin := origin_str <$> n_origin n |}.

Definition set_mode_meta (mode : string) (meta : gmap string NodeMeta) (p : VersionedPlan)
  : VersionedPlan := {|
  v_items := v_items p; v_version := v_version p; v_participants := v_participants p;
  v_task_progress := v_task_progress p; v_mode := mode; v_node_meta := meta |}.

Definition apply_task_graph (p : VersionedPlan) (g : TaskGraph) : VersionedPlan :=
  let prior := prior_items (v_items p) in
  let items := map (lower_node prior) (g_nodes g) in
  let node_meta := insert_all n_id lower_meta ∅ (g_nodes g) in
  set_mode_meta (mode_str (g_mode g)) node_meta (replace_items items p).

(** One section per completed dependency with a readable artifact. *)
Definition upstream_section (p : VersionedPlan) (dep_id : string) : option string :=
  match find_item (v_items p) dep_id with
  | None => None
  | Some dep =>
      if negb (is_completed_status (i_status dep)) then None
      else match v_node_meta p !! dep_id with
           | None => None
           | Some meta =>
               match m_artifact_json meta ≫= from_json with
               | None => None
               | Some artifact =>
                   Some (render_section artifact dep_id (default "task" (m_kind meta)))
               end
           end
  end.

Definition upstream_context (p : VersionedPlan) (task_id : string) : option string :=
  match find_item (v_items p) task_id with
  | None => None
  | Some i =>
      if is_nil (i_blocked_by i) then None
      else match omap (upstream_section p) (i_blocked_by i) with
           | [] => None
           | sections =>
               Some ("# Inputs from completed dependencies" +:+ nl2 +:+ join nl1 sections)
           end
  end.

Definition hydrate_assignment (p : VersionedPlan) (task_id content : string) : string :=
  match upstream_context p task_id with
  | Some context => content +:+ nl2 +:+ context
  | None => content
  end.

(** ** Accounting *)

Record GrowthStats := {
  gs_seeded : nat;
  gs_from_expansion : nat;
  gs_from_gaps : nat;
  gs_gates : nat;
}.

Definition growth_total (s : GrowthStats) : nat :=
  gs_seeded s + gs_from_expansion s + gs_from_gaps s + gs_gates s.

Definition growth_grown (s : GrowthStats) : nat :=
  gs_from_expansion s + gs_from_gaps s + gs_gates s.

Definition show_nat (n : nat) : string := pretty (N.of_nat n).

Definition summary_line (s : GrowthStats) : string :=
  show_nat (gs_seeded s) +:+ " seeded -> " +:+ show_nat (growth_total s) +:+ " nodes (+"
  +:+ show_nat (gs_from_expansion s) +:+ " expansion, +" +:+ show_nat (gs_from_gaps s)
  +:+ " gap, +" +:+ show_nat (gs_gates s) +:+ " gates)".

Definition count_origin (s : GrowthStats) (o : option NodeOrigin) : GrowthStats :=
  let '(Build_GrowthStats a b c d) := s in
  match o with
  | Some OExpand => Build_GrowthStats a (S b) c d
  | Some OGap => Build_GrowthStats a b (S c) d
  | Some OGate => Build_GrowthStats a b c (S d)
  | Some OSeed | None => Build_GrowthStats (S a) b c d
  end.

Definition growth_stats (p : VersionedPlan) : GrowthStats :=
  foldl (λ s i, count_origin s (v_node_meta p !! i_id i ≫= λ m, parse_origin (m_origin m)))
    (Build_GrowthStats 0 0 0 0) (v_items p).

Definition low_confidence_item (p : VersionedPlan) (i : PlanItem) : bool :=
  match v_node_meta p !! i_id i with
  | None => false
  | Some meta =>
      if m_is_gate meta then false
      else bool_decide ((m_artifact_json meta ≫= from_json) ≫= confidence_level = Some Low)
  end.

Definition low_confidence_completed_ids (p : VersionedPlan) : list string :=
  map i_id (List.filter (low_confidence_item p)
    (List.filter (λ i, is_completed_status (i_status i)) (v_items p))).
End bridge.

(** ** Lifting *)

Section lifting.
Context (from_json : string → option HandoffArtifact).

Lemma to_task_graph_eq p :
  to_task_graph from_json p
  = {| g_mode := parse_mode (v_mode p); g_nodes := map (lift_item from_json p) (v_items p) |}.
Proof.
  unfold to_task_graph.
  assert (∀ l g, foldl (λ g i, push g (lift_item from_json p i)) g l
            = {| g_mode := g_mode g; g_nodes := g_nodes g ++ map (lift_item from_json p) l |}) as Hgen.
  { induction l as [|i l IH]; intros g; simpl; [rewrite app_nil_r; by destruct g|].
    rewrite IH. simpl. by rewrite <- app_assoc. }
  by rewrite Hgen.
Qed.

Lemma node_ids_lift p : node_ids (to_task_graph from_json p) = map i_id (v_items p).
Proof. rewrite to_task_graph_eq. unfold node_ids. simpl. by rewrite map_map. Qed.

Lemma get_lift p x : get (to_task_graph from_json p) x = lift_item from_json p <$> find_item (v_items p) x.
Proof.
  rewrite to_task_graph_eq. unfold get, find_item. simpl.
  induction (v_items p) as [|i l IH]; simpl; [done|].
  unfold id_is at 1. simpl. case_bool_decide; done.
Qed.

Lemma status_from_plan_done s : status_from_plan s = Done ↔ is_completed_status s = true.
Proof.
  unfold status_from_plan, is_completed_status.
  destruct (mem s ["running"; "running_stale"]) eqn:H1.
  { apply mem_true in H1. rewrite mem_true. split; [done|]. set_solver. }
  destruct (mem s ["completed"; "done"]); [done|].
  destruct (mem s ["failed"; _; _]); split; intros [=].
Qed.

(** The statuses the plan and the engine agree on. *)
Definition plain_status (s : string) : bool :=
  is_runnable_status s || is_active_status s || is_terminal_status s.

Lemma status_from_plan_queued s :
  plain_status s = true → status_from_plan s = Queued ↔ is_runnable_status s = true.
Proof.
  unfold plain_status, is_runnable_status, is_active_status, is_terminal_status, status_from_plan.
  rewrite !orb_true_iff, !mem_true. intros Hp. split.
  - destruct (mem s ["running"; _]) eqn:H1; [done|]. destruct (mem s ["completed"; _]) eqn:H2; [done|].
    destruct (mem s ["failed"; _; _]) eqn:H3; [done|]. intros _. apply mem_false in H1, H2, H3.
    set_solver.
  - intros Hq. repeat (rewrite (proj2 (mem_false s _)) by set_solver). done.
Qed.

Lemma done_lift p d :
  NoDup (map i_id (v_items p)) →
  match get (to_task_graph from_json p) d with Some m => is_done m | None => false end = true ↔
  d ∈ completed_item_ids (v_items p).
Proof.
  intros Hnd. rewrite get_lift, elem_of_completed. destruct (find_item (v_items p) d) as [i|] eqn:Hf; simpl.
  - apply find_item_Some in Hf as [Hi <-]. rewrite is_done_iff. simpl. rewrite status_from_plan_done.
    symmetry. apply (bucket_of_item (v_items p) (λ j, is_completed_status (i_status j) = true)); done.
  - apply find_item_None in Hf. split; [done|]. intros (i & Hi & Hid & _). destruct Hf.
    apply elem_of_item_ids. eauto.
Qed.

Lemma dep_lift p d x :
  NoDup (map i_id (v_items p)) →
  dep (to_task_graph from_json p) d x ↔ item_dep (v_items p) d x.
Proof.
  intros Hnd. unfold dep, item_dep. split.
  - intros (n & Hn & Hd & Hk). rewrite get_lift in Hn, Hk. apply fmap_Some in Hn as (i & Hi & ->).
    rewrite fmap_is_Some in Hk. destruct Hk as [j Hj].
    apply find_item_Some in Hi as [Hi <-], Hj as [Hj <-].
    exists i. repeat split; try done. apply elem_of_item_ids. eauto.
  - intros (i & Hi & <- & Hd & Hk). exists (lift_item from_json p i).
    rewrite !get_lift, fmap_is_Some.
    rewrite (find_item_NoDup (v_items p) i) by done. split; [done|]. split; [done|].
    destruct (find_item (v_items p) d) eqn:E; [eauto|]. by apply find_item_None in E.
Qed.

Lemma acyclic_no_cycle_ids p x :
  NoDup (map i_id (v_items p)) → acyclic (to_task_graph from_json p) → ¬ on_cycle (v_items p) x.
Proof.
  unfold on_cycle. rewrite elem_of_cycle_item_ids. intros Hnd Hac (_ & c & Hc & _).
  apply (Hac c). eapply tc_mono; [|exact Hc]. intros a b. by apply dep_lift.
Qed.

Lemma ready_lift p i :
  NoDup (map i_id (v_items p)) → acyclic (to_task_graph from_json p) →
  plain_status (i_status i) = true →
  is_ready (to_task_graph from_json p) (lift_item from_json p i) = true ↔ item_ready (v_items p) i.
Proof.
  intros Hnd Hac Hs. unfold is_ready, deps_satisfied, item_ready.
  rewrite andb_true_iff, bool_decide_eq_true, forallb_elem. simpl.
  rewrite (status_from_plan_queued _ Hs). split.
  - intros [Hr Hd]. split; [done|]. split; [|by apply acyclic_no_cycle_ids].
    intros d Hin. apply done_lift; auto.
  - intros (Hr & Hd & _). split; [done|]. intros d Hin. apply done_lift; auto.
Qed.

Lemma lift_item_inj p i j : lift_item from_json p i = lift_item from_json p j → i_id i = i_id j.
Proof. by intros [=]. Qed.

(** The engine and the plan schedule the same items in the same order. *)
Lemma schedulers_agree p :
  NoDup (map i_id (v_items p)) → acyclic (to_task_graph from_json p) →
  (∀ i, i ∈ v_items p → plain_status (i_status i) = true) →
  map n_id (ready_nodes (to_task_graph from_json p)) = next_runnable_item_ids (v_items p) None.
Proof.
  intros Hnd Hac Hs. destruct (next_runnable_sorted (v_items p) Hnd) as (l & -> & Hsort & Hndl & Hl).
  enough (ready_nodes (to_task_graph from_json p) = map (lift_item from_json p) l) as -> by (by rewrite map_map).
  assert (∀ n, n ∈ ready_nodes (to_task_graph from_json p) ↔ n ∈ map (lift_item from_json p) l) as Helem.
  { intros n. unfold ready_nodes. rewrite merge_sort_Permutation, elem_of_filterb, to_task_graph_eq.
    simpl. rewrite !list_elem_of_fmap. rewrite <- to_task_graph_eq. split.
    - intros [(i & -> & Hi) Hr]. exists i. split; [done|]. apply Hl. split; [done|]. by apply ready_lift; auto.
    - intros (i & -> & [Hi Hr]%Hl). split; [eauto|]. by apply ready_lift; auto. }
  assert (NoDup (map n_id (ready_nodes (to_task_graph from_json p)))) as Hnd1.
  { unfold ready_nodes. rewrite merge_sort_Permutation. apply NoDup_map_filterb.
    fold (node_ids (to_task_graph from_json p)). by rewrite node_ids_lift. }
  apply (StronglySorted_unique_strong schedule_le).
  - intros n1 n2 Hn1 Hn2 H12 H21. apply Helem, list_elem_of_fmap in Hn1 as (i & -> & Hi).
    apply list_elem_of_fmap in Hn2 as (j & -> & Hj). f_equal.
    apply Hl in Hi as [Hi _], Hj as [Hj _]. apply (same_item (v_items p)); [done..|].
    exact (rank_le_antisymm_key n_priority n_id _ _ H12 H21).
  - apply StronglySorted_merge_sort; apply _.
  - clear -Hsort. induction Hsort as [|i l Hl IH Hi]; simpl; constructor; [done|].
    rewrite Forall_fmap. eapply Forall_impl; [exact Hi|]. intros j Hj. exact Hj.
  - apply NoDup_Permutation; [by eapply NoDup_fmap_1| |done].
    eapply (NoDup_fmap_1 n_id). rewrite <- list_fmap_compose. exact Hndl.
Qed.
End lifting.

(** ** Priorities survive the engine *)

(** Every node of [g] is still in [g'] with the same priority. *)
Definition priority_kept (g g' : TaskGraph) : Prop :=
  ∀ x n, get g x = Some n → ∃ n', get g' x = Some n' ∧ n_priority n' = n_priority n.

#[export] Instance priority_kept_preorder : PreOrder priority_kept.
Proof.
  split.
  - intros g x n Hn. eauto.
  - intros g1 g2 g3 H12 H23 x n Hn. destruct (H12 x n Hn) as (n2 & Hn2 & E2).
    destruct (H23 x n2 Hn2) as (n3 & Hn3 & E3). exists n3. split; [done|congruence].
Qed.

Lemma priority_kept_push g n : priority_kept g (push g n).
Proof. intros x m Hm. exists m. by rewrite get_push, Hm. Qed.

Lemma priority_kept_push_specs g specs parent origin :
  priority_kept g (push_specs g specs parent origin).
Proof. intros x m Hm. exists m. split; [by apply get_push_specs_old|done]. Qed.

Lemma priority_kept_modify g id f :
  (∀ n, n_id (f n) = n_id n) → (∀ n, n_priority (f n) = n_priority n) →
  priority_kept g (modify g id f).
Proof.
  intros Hid Hp x m Hm. rewrite get_modify by done. case_decide as Hx; [subst|eauto].
  exists (f m). by rewrite Hm.
Qed.

Lemma make_composite_priority ds n : n_priority (make_composite ds n) = n_priority n.
Proof. unfold make_composite. by destruct (n_planner _). Qed.

Lemma widen_gate_priority ids n : n_priority (widen_gate ids n) = n_priority n.
Proof. unfold widen_gate. by destruct (_ && _). Qed.

Lemma priority_kept_root_gate g : priority_kept g (ensure_root_gate g).
Proof.
  unfold ensure_root_gate. destruct (root_ids g); [reflexivity|].
  destruct (find _ _); [|apply priority_kept_push].
  apply priority_kept_modify; [apply widen_gate_id|apply widen_gate_priority].
Qed.

Lemma priority_step g g' : dag_step g g' → priority_kept g g'.
Proof.
  intros [h specs h' H|h id w h' H|h id actor children h' out H
    |h id actor a h' H|h id actor h' H|h id actor specs h' ids H|h id h' H].
  - apply seed_ok in H as (unique & staged & _ & _ & -> & -> & _).
    etrans; [apply priority_kept_push_specs|].
    destruct (requires_gates _); [apply priority_kept_root_gate|reflexivity].
  - apply dispatch_ok in H as (n & _ & _ & ->). by apply priority_kept_modify.
  - apply expand_node_ok in H as (n & _ & _ & _ & _ & _ & _ & _ & _ & _ & -> & _).
    unfold expand_staged. destruct (g_mode h).
    all: etrans; [apply priority_kept_push_specs|].
    1: etrans; [apply priority_kept_push|].
    all: apply priority_kept_modify; [apply make_composite_id|apply make_composite_priority].
  - apply complete_node_ok in H as (n & _ & _ & _ & _ & _ & ->). by apply priority_kept_modify.
  - apply fail_node_ok in H as (n & _ & _ & _ & ->). by apply priority_kept_modify.
  - apply inject_from_gate_ok in H as (gate & _ & _ & _ & _ & _ & _ & _ & _ & _ & -> & _).
    unfold inject_staged. etrans; [apply (priority_kept_push_specs h specs (n_parent gate) OGap)|].
    destruct (n_parent gate); [etrans; [|by apply priority_kept_modify]|]; by apply priority_kept_modify.
  - apply requeue_failed_ok in H as (n & _ & _ & ->). by apply priority_kept_modify.
Qed.

Lemma priority_steps g g' : rtc dag_step g g' → priority_kept g g'.
Proof. induction 1 as [|x y z Hxy _ IH]; [reflexivity|]. etrans; [by apply priority_step|done]. Qed.

(** ** Lowering *)

Section lowering.
Context (to_json : HandoffArtifact → option string).
Context (from_json : string → option HandoffArtifact).
(** Serializing an artifact succeeds and reading it back gives the artifact. *)
Context (json_roundtrip : ∀ a, ∃ s, to_json a = Some s ∧ from_json s = Some a).

Lemma parse_mode_str m : parse_mode (mode_str m) = m.
Proof. by destruct m; vm_compute. Qed.

Lemma parse_kind_str k : parse_kind (Some (kind_str k)) = k.
Proof. by destruct k; vm_compute. Qed.

Lemma parse_origin_str o : parse_origin (origin_str <$> o) = o.
Proof. by destruct o as [[]|]; vm_compute. Qed.

Lemma status_roundtrip s : status_from_plan (status_to_plan s) = s.
Proof. by destruct s; vm_compute. Qed.

Lemma priority_string_rank r : (r ≤ 2)%N → priority_rank (priority_string r) = r.
Proof. intros Hr. assert (r = 0 ∨ r = 1 ∨ r = 2)%N as [-> | [-> | ->]] by lia; by vm_compute. Qed.

Lemma output_roundtrip (o : option HandoffArtifact) : (o ≫= to_json) ≫= from_json = o.
Proof using json_roundtrip.
  destruct o as [a|]; [|done]. simpl. destruct (json_roundtrip a) as (s & -> & Hs). by simpl.
Qed.

(** The priority of the stored item names the rank of the node. *)
Definition priority_matches (p : VersionedPlan) (n : TaskNode) : Prop :=
  priority_rank (i_priority (lower_node (prior_items (v_items p)) n)) = n_priority n.

Lemma v_items_apply p g :
  v_items (apply_task_graph to_json p g) = map (lower_node (prior_items (v_items p))) (g_nodes g).
Proof. done. Qed.

Lemma find_item_lower prior l x :
  find_item (map (lower_node prior) l) x = lower_node prior <$> find (id_is x) l.
Proof.
  unfold find_item. induction l as [|n l IH]; simpl; [done|]. unfold id_is at 1.
  by case_bool_decide.
Qed.

Lemma meta_apply p g n :
  NoDup (node_ids g) → n ∈ g_nodes g →
  v_node_meta (apply_task_graph to_json p g) !! n_id n = Some (lower_meta to_json n).
Proof. intros Hnd Hn. simpl. by apply insert_all_elem. Qed.

Lemma lift_lower p g n :
  NoDup (node_ids g) → n ∈ g_nodes g → priority_matches p n →
  lift_item from_json (apply_task_graph to_json p g) (lower_node (prior_items (v_items p)) n) = n.
Proof using json_roundtrip.
  intros Hnd Hn Hp. unfold lift_item. change (i_id (lower_node _ n)) with (n_id n).
  rewrite meta_apply by done. simpl default. unfold priority_matches in Hp. rewrite Hp.
  unfold lower_meta. cbn [m_kind m_parent m_expanded m_is_gate m_planner m_artifact_json m_origin].
  rewrite parse_kind_str, parse_origin_str, output_roundtrip. simpl. rewrite status_roundtrip.
  by destruct n.
Qed.

Lemma lower_lift_roundtrip p g :
  NoDup (node_ids g) → (∀ n, n ∈ g_nodes g → priority_matches p n) →
  to_task_graph from_json (apply_task_graph to_json p g) = g.
Proof using json_roundtrip.
  intros Hnd Hp. rewrite to_task_graph_eq, v_items_apply. destruct g as [mode nodes] eqn:Hg.
  f_equal; [apply parse_mode_str|]. simpl. rewrite map_map, <- Hg.
  rewrite <- (map_id nodes) at 2. apply map_ext_in. intros n Hn%list_elem_of_In.
  apply lift_lower; [by rewrite Hg|by rewrite Hg|by apply Hp].
Qed.

(** Nodes that come from the plan keep its priority string; new ones get the name
    of their rank. *)
Lemma priority_matches_steps p g' n :
  NoDup (map i_id (v_items p)) →
  rtc dag_step (to_task_graph from_json p) g' → NoDup (node_ids g') →
  n ∈ g_nodes g' → (n_priority n ≤ 2)%N → priority_matches p n.
Proof.
  intros Hnd Hsteps Hnd' Hn Hle. unfold priority_matches. simpl.
  destruct (prior_items (v_items p) !! n_id n) as [i|] eqn:Hi; [|by apply priority_string_rank].
  unfold prior_items in Hi. destruct (decide (n_id n ∈ map i_id (v_items p))) as [Hin|Hin].
  - apply list_elem_of_fmap in Hin as (j & Hid & Hj). rewrite Hid in Hi.
    rewrite insert_all_elem in Hi by done. injection Hi as ->.
    destruct (priority_steps _ _ Hsteps (n_id n) (lift_item from_json p i)) as (n' & Hn' & Hp).
    { rewrite get_lift, Hid, find_item_NoDup by done. done. }
    rewrite (get_NoDup _ _ Hnd' Hn) in Hn'. injection Hn' as <-. by rewrite Hp.
  - rewrite insert_all_other in Hi by done. by rewrite lookup_empty in Hi.
Qed.
End lowering.
