(* ===== verification/PlanTheorems.v ===== *)
(** * What plans guarantee

    The properties of the shared plan (crates/jcode-plan/src/lib.rs) and of its bridge
    to the task-graph engine (bridge.rs), each with a concrete instance. *)

From S2P Require Import Prelude RustStr Confidence DagTypes Kahn DagCycle DagOps DagInv DagSim DagTheorems PlanTypes PlanCycle Plan PlanLemmas Bridge.

(** ** Sample plans *)

Definition mk_item (id status priority : string) (deps : list string) (owner : option string)
  : PlanItem := {|
  i_content := "do " +:+ id; i_status := status; i_priority := priority; i_id := id;
  i_subsystem := None; i_file_scope := []; i_blocked_by := deps; i_assigned_to := owner |}.

Definition sample_items : list PlanItem :=
  [mk_item "a" "completed" "high" [] (Some "s1");
   mk_item "b" "queued" "low" ["a"; "a"] (Some "dead");
   mk_item "c" "todo" "p0" ["a"] None;
   mk_item "d" "pending" "medium" ["b"] None;
   mk_item "e" "running" "medium" ["a"] (Some "s2");
   mk_item "f" "failed" "medium" [] (Some "s2");
   mk_item "x" "queued" "medium" ["y"] None;
   mk_item "y" "queued" "medium" ["x"; "x"] None;
   mk_item "z" "queued" "medium" ["y"; "gone"] None].

Definition sample_plan : VersionedPlan := {|
  v_items := sample_items; v_version := 7; v_participants := {["s1"; "s2"]};
  v_task_progress := {["b" := progress_default; "old" := progress_default]};
  v_mode := "light"; v_node_meta := ∅ |}.

Lemma sample_items_NoDup : NoDup (map i_id sample_items).
Proof. apply (bool_decide_unpack _). vm_compute. exact I. Qed.

(** ** Cycles and readiness *)

(** The plan's cycle detector always finishes and returns, in
    sorted order and without repetition, exactly the items that lie on a dependency
    cycle or downstream of one; duplicate ids and repeated dependencies are allowed,
    and the order in which the hash map yields the initial items is irrelevant. *)
Theorem cycle_item_ids_exact items :
  (∀ x, x ∈ cycle_item_ids items ↔
     x ∈ item_ids items ∧ ∃ c, tc (item_dep items) c c ∧ rtc (item_dep items) c x) ∧
  Sorted String.le (cycle_item_ids items) ∧ NoDup (cycle_item_ids items) ∧
  (∀ queue, queue ≡ₚ start_ids items →
     is_Some (item_visit queue items) ∧ cycle_item_ids_from queue items = cycle_item_ids items).
Proof.
  destruct (sorted_cycle_item_ids (start_ids items) items) as [Hs Hn].
  split; [apply elem_of_cycle_item_ids|]. split; [done|]. split; [done|].
  intros queue Hq. split; [apply item_visit_total|by apply cycle_item_ids_order].
Qed.

Lemma cycle_item_ids_exact_witness :
  cycle_item_ids sample_items = ["x"; "y"; "z"] ∧
  cycle_item_ids_from (reverse (start_ids sample_items)) sample_items = ["x"; "y"; "z"].
Proof.
  assert (cycle_item_ids sample_items = ["x"; "y"; "z"]) as H by (vm_compute; reflexivity).
  split; [exact H|]. rewrite <- H.
  apply (cycle_item_ids_exact sample_items). apply reverse_Permutation.
Defined.

(** The status words the plan understands. *)
Definition known_status (s : string) : bool := plain_status s || bool_decide (s = "blocked").

Definition buckets (s : PlanGraphSummary) : list (list string) :=
  [g_ready_ids s; g_blocked_ids s; g_active_ids s; g_terminal_ids s].

Lemma counts_as_blocked_not_ready items i :
  is_item_ready items i = false → is_runnable_status (i_status i) = true →
  counts_as_blocked (item_ids items) (completed_item_ids items)
    (list_to_set (cycle_item_ids items)) i = true.
Proof.
  unfold is_item_ready, counts_as_ready, counts_as_blocked. intros Hn Hr.
  rewrite Hr in Hn. rewrite (runnable_not_terminal _ Hr), (runnable_not_active _ Hr). simpl in *.
  destruct (is_nil (missing_dependencies _ _)); simpl in *; [|done].
  apply negb_false_iff in Hn. by rewrite Hn.
Qed.

(** The bucket an item falls in, by its status and readiness. *)
Lemma bucket_flags items i :
  known_status (i_status i) = true →
  length (List.filter id [is_item_ready items i; is_item_blocked items i;
            is_active_status (i_status i); is_terminal_status (i_status i)]) = 1.
Proof.
  intros Hk. unfold is_item_blocked.
  destruct (is_item_ready items i) eqn:Hready.
  - assert (is_runnable_status (i_status i) = true) as Hr by (by apply is_item_ready_spec in Hready as [? _]).
    simpl. by rewrite (runnable_not_terminal _ Hr), (runnable_not_active _ Hr).
  - simpl. destruct (is_runnable_status (i_status i)) eqn:Hr.
    + rewrite counts_as_blocked_not_ready by done.
      by rewrite (runnable_not_terminal _ Hr), (runnable_not_active _ Hr).
    + unfold known_status, plain_status in Hk. rewrite Hr in Hk. simpl in Hk. unfold counts_as_blocked.
      destruct (is_active_status (i_status i)) eqn:Ha.
      { by rewrite (active_not_terminal _ Ha). }
      destruct (is_terminal_status (i_status i)) eqn:Ht; [done|]. simpl in *. rewrite Hk.
      by rewrite orb_true_r.
Qed.

(** With unique ids the summary partitions the plan: every item
    whose status is in the vocabulary is in exactly one of the ready, blocked,
    active and terminal lists. *)
Theorem summary_partitions_items items i :
  NoDup (map i_id items) → i ∈ items → known_status (i_status i) = true →
  length (List.filter (mem (i_id i)) (buckets (summarize_plan_graph items))) = 1.
Proof.
  intros Hnd Hi Hk. rewrite <- (bucket_flags items i Hk). unfold buckets.
  assert (∀ (P : PlanItem → bool) l, (∀ x, x ∈ l ↔ ∃ j, j ∈ items ∧ i_id j = x ∧ P j = true) →
            mem (i_id i) l = P i) as Hmem.
  { intros P l Hl. apply eq_true_iff_eq. rewrite mem_true, Hl.
    apply (bucket_of_item items (λ j, P j = true) i Hnd Hi). }
  cbn [List.filter].
  rewrite (Hmem (is_item_ready items)), (Hmem (is_item_blocked items)),
    (Hmem (λ j, is_active_status (i_status j))), (Hmem (λ j, is_terminal_status (i_status j))).
  - unfold id. destruct (is_item_ready _ _), (is_item_blocked _ _), (is_active_status _), (is_terminal_status _); done.
  - apply elem_of_terminal.
  - apply elem_of_active.
  - apply elem_of_blocked.
  - intros x. rewrite elem_of_ready. by setoid_rewrite is_item_ready_spec.
Qed.

Lemma summary_partitions_items_witness :
  length (List.filter (mem "z") (buckets (summarize_plan_graph sample_items))) = 1 ∧
  g_blocked_ids (summarize_plan_graph sample_items) = ["d"; "x"; "y"; "z"].
Proof.
  split; [|vm_compute; reflexivity].
  apply (summary_partitions_items sample_items (mk_item "z" "queued" "medium" ["y"; "gone"] None)).
  - apply sample_items_NoDup.
  - apply (bool_decide_unpack _). vm_compute. exact I.
  - vm_compute. reflexivity.
Defined.

(** For a runnable item with unique ids three answers coincide:
    it is listed as ready, its dependencies are all completed and it is not behind a
    cycle, and an explicit request to run it has no blocked reason. *)
Theorem ready_iff_no_blocked_reason p i :
  NoDup (map i_id (v_items p)) → i ∈ v_items p → is_runnable_status (i_status i) = true →
  (i_id i ∈ g_ready_ids (summarize_plan_graph (v_items p)) ↔
     (∀ d, d ∈ i_blocked_by i → d ∈ completed_item_ids (v_items p)) ∧
     i_id i ∉ cycle_item_ids (v_items p)) ∧
  (explicit_task_blocked_reason p (i_id i) = None ↔
     i_id i ∈ g_ready_ids (summarize_plan_graph (v_items p))).
Proof.
  intros Hnd Hi Hr. rewrite ready_id_item by done.
  split; [unfold item_ready, on_cycle; tauto|].
  rewrite <- is_item_ready_spec. unfold explicit_task_blocked_reason, is_item_ready, counts_as_ready.
  rewrite find_item_NoDup, Hr by done. simpl.
  destruct (is_nil (missing_dependencies _ _)); simpl; [|done].
  destruct (is_nil (unresolved_dependencies _ _ _)); simpl; [|done].
  by case_bool_decide.
Qed.

Lemma ready_iff_no_blocked_reason_witness :
  explicit_task_blocked_reason sample_plan "b" = None ∧
  explicit_task_blocked_reason sample_plan "d" ≠ None.
Proof.
  split; [|vm_compute; discriminate].
  apply (ready_iff_no_blocked_reason sample_plan (mk_item "b" "queued" "low" ["a"; "a"] (Some "dead"))).
  - apply sample_items_NoDup.
  - apply (bool_decide_unpack _). vm_compute. exact I.
  - vm_compute. reflexivity.
  - apply (bool_decide_unpack _). vm_compute. exact I.
Defined.

(** ** Picking work *)

(** The list of runnable items holds ready items only, ordered by
    priority and then by id; a limit cuts it to the best ones: whatever is ready and
    left out is not better than anything listed. *)
Theorem next_runnable_best_first items limit :
  NoDup (map i_id items) →
  ∃ l, next_runnable_item_ids items limit = map i_id l ∧ StronglySorted plan_le l ∧
    (∀ i, i ∈ l → i ∈ items ∧ item_ready items i) ∧
    (∀ j, j ∈ items → item_ready items j →
       j ∈ l ∨ (∃ k, limit = Some k ∧ length l = k) ∧ ∀ i, i ∈ l → plan_le i j).
Proof.
  intros Hnd. destruct (next_runnable_sorted items Hnd) as (l & Heq & Hs & _ & Hl).
  destruct limit as [k|].
  - exists (take k l). split.
    { unfold next_runnable_item_ids in *. rewrite Heq. by rewrite fmap_take. }
    assert (StronglySorted plan_le (take k l ++ drop k l)) as Hs' by (by rewrite take_drop).
    apply StronglySorted_app in Hs' as (Hcross & Htake & _). split; [done|]. split.
    + intros i Hi. apply Hl. rewrite <- (take_drop k l). set_solver.
    + intros j Hj Hr. assert (j ∈ take k l ++ drop k l) as Hin by (rewrite take_drop; by apply Hl).
      apply elem_of_app in Hin as [?|Hin]; [by left|]. right. split; [|eauto].
      exists k. split; [done|]. rewrite length_take. destruct (decide (k ≤ length l)); [lia|].
      rewrite drop_ge in Hin by lia. by apply elem_of_nil in Hin.
  - exists l. split; [done|]. split; [done|]. split; [intros; by apply Hl|].
    intros j Hj Hr. left. by apply Hl.
Qed.

Lemma next_runnable_best_first_witness :
  next_runnable_item_ids sample_items None = ["c"; "b"] ∧
  ∃ l, next_runnable_item_ids sample_items (Some 1) = map i_id l ∧ StronglySorted plan_le l.
Proof.
  split; [vm_compute; reflexivity|].
  destruct (next_runnable_best_first sample_items (Some 1) sample_items_NoDup) as (l & Hl & Hs & _).
  exists l. split; [exact Hl|exact Hs].
Defined.

Lemma is_unassigned_item p i :
  NoDup (map i_id (v_items p)) → i ∈ v_items p → is_unassigned p (i_id i) = true ↔ i_assigned_to i = None.
Proof.
  intros Hnd Hi. unfold is_unassigned. rewrite find_item_NoDup by done. by destruct (i_assigned_to i).
Qed.

(** Automatic assignment takes the best ready item without an
    assignee, and finds none only when every ready item is assigned. *)
Theorem next_unassigned_is_best p :
  NoDup (map i_id (v_items p)) →
  match next_unassigned_runnable_item_id p with
  | Some x => ∃ i, i ∈ v_items p ∧ i_id i = x ∧ item_ready (v_items p) i ∧ i_assigned_to i = None ∧
      ∀ j, j ∈ v_items p → item_ready (v_items p) j → i_assigned_to j = None → plan_le i j
  | None => ∀ j, j ∈ v_items p → item_ready (v_items p) j → i_assigned_to j ≠ None
  end.
Proof.
  intros Hnd. unfold next_unassigned_runnable_item_id.
  pose proof (pick_spec (v_items p) (is_unassigned p) Hnd) as Hp.
  destruct (find _ _) as [x|].
  - destruct Hp as (i & Hi & <- & Hr & Hu & Hbest). exists i.
    apply is_unassigned_item in Hu; [|done|done]. repeat split; try done; [apply Hr..|].
    intros j Hj Hrj Hn. apply Hbest; [done|done|]. by apply is_unassigned_item.
  - intros j Hj Hr Hn. specialize (Hp j Hj Hr).
    by rewrite (proj2 (is_unassigned_item p j Hnd Hj) Hn) in Hp.
Qed.

Lemma next_unassigned_is_best_witness :
  next_unassigned_runnable_item_id sample_plan = Some "c" ∧
  ∃ i, i ∈ sample_items ∧ i_id i = "c" ∧ i_assigned_to i = None.
Proof.
  assert (next_unassigned_runnable_item_id sample_plan = Some "c") as H by (vm_compute; reflexivity).
  split; [exact H|]. pose proof (next_unassigned_is_best sample_plan sample_items_NoDup) as Hb.
  rewrite H in Hb. destruct Hb as (i & Hi & Hid & _ & Ha & _). exists i. auto.
Defined.

(** ** Stranded assignments *)

(** What a successful reclaim of [x] leaves behind. *)
Lemma reclaim_ok p x p' :
  NoDup (map i_id (v_items p)) →
  reclaim_stranded_assignment p x = (true, p') →
  v_items p' = map (λ i, if bool_decide (i_id i = x) then set_assigned_to None i else i) (v_items p) ∧
  reclaims p' x = u32_succ (reclaims p x) ∧
  (∀ y, y ≠ x → v_task_progress p' !! y = v_task_progress p !! y).
Proof.
  unfold reclaim_stranded_assignment. intros Hnd H.
  destruct (find_item (v_items p) x) as [i|]; [|done]. destruct (i_assigned_to i); [|done].
  injection H as <-. simpl. split; [by apply update_first_map|]. split.
  - unfold reclaims. simpl. rewrite lookup_insert_eq. simpl.
    by destruct (v_task_progress p !! x).
  - intros y Hy. by rewrite lookup_insert_ne.
Qed.

Lemma keeps_plan_at x o :
  keeps_plan (λ i, if bool_decide (i_id i = x) then set_assigned_to o i else i).
Proof. split; intros i; by case_bool_decide. Qed.

Lemma stranded_spec p dead x :
  NoDup (map i_id (v_items p)) → next_stranded_runnable_item_id p dead = Some x →
  ∃ i a, i ∈ v_items p ∧ i_id i = x ∧ item_ready (v_items p) i ∧ i_assigned_to i = Some a ∧
    dead a = true ∧ (reclaims p x < 3)%N.
Proof.
  intros Hnd H. pose proof (pick_spec (v_items p) (is_stranded p dead) Hnd) as Hp.
  unfold next_stranded_runnable_item_id in H. rewrite H in Hp.
  destruct Hp as (i & Hi & <- & Hr & Hs & _). unfold is_stranded in Hs.
  rewrite find_item_NoDup in Hs by done. destruct (i_assigned_to i) as [a|] eqn:Ha; [|done].
  destruct (dead a) eqn:Hd; [|done]. simpl in Hs. exists i, a. repeat split; try done; [apply Hr..|].
  by apply N.ltb_lt.
Qed.

(** Reclaiming the item that the stranded search returns always
    succeeds, and the item becomes visible to automatic assignment: it is still
    ready and now unassigned, so some unassigned item is found. Its reclaim counter
    goes up by exactly one and stays within the cap; the schedule is unchanged. *)
Theorem stranded_item_is_recovered p dead x :
  NoDup (map i_id (v_items p)) → next_stranded_runnable_item_id p dead = Some x →
  ∃ p', reclaim_stranded_assignment p x = (true, p') ∧
    reclaims p' x = (reclaims p x + 1)%N ∧ (reclaims p' x ≤ MAX_DEAD_ASSIGNEE_RECLAIMS)%N ∧
    next_runnable_item_ids (v_items p') None = next_runnable_item_ids (v_items p) None ∧
    is_unassigned p' x = true ∧ is_Some (next_unassigned_runnable_item_id p').
Proof.
  intros Hnd Hnext. destruct (stranded_spec p dead x Hnd Hnext) as (i & a & Hi & Hid & Hr & Ha & _ & Hlt).
  destruct (reclaim_stranded_assignment p x) as [b p'] eqn:Hrec.
  assert (b = true) as ->.
  { unfold reclaim_stranded_assignment in Hrec. rewrite <- Hid, find_item_NoDup, Ha in Hrec by done.
    by injection Hrec. }
  destruct (reclaim_ok p x p' Hnd Hrec) as (Hitems & Hcount & _).
  set (f := λ i, if bool_decide (i_id i = x) then set_assigned_to None i else i) in *.
  pose proof (keeps_plan_at x None : keeps_plan f) as Hf.
  exists p'. split; [done|].
  assert (reclaims p' x = (reclaims p x + 1)%N) as Hc.
  { rewrite Hcount. unfold u32_succ. apply N.mod_small. lia. }
  split; [done|]. split; [unfold MAX_DEAD_ASSIGNEE_RECLAIMS; lia|].
  rewrite Hitems. split; [by apply next_runnable_keeps|].
  assert (NoDup (map i_id (v_items p'))) as Hnd' by (rewrite Hitems, map_ids_keeps; done).
  assert (f i ∈ v_items p') as Hfi by (rewrite Hitems; apply list_elem_of_fmap; eauto).
  assert (i_assigned_to (f i) = None) as Hnone by (unfold f; by rewrite bool_decide_eq_true_2).
  assert (i_id (f i) = x) as Hfid by (by rewrite (kp_id _ Hf)).
  split; [rewrite <- Hfid; by apply is_unassigned_item|].
  destruct (next_unassigned_runnable_item_id p') as [y|] eqn:Hy; [eauto|]. exfalso.
  pose proof (pick_spec (v_items p') (is_unassigned p') Hnd') as Hp.
  unfold next_unassigned_runnable_item_id in Hy. rewrite Hy in Hp.
  specialize (Hp (f i) Hfi). rewrite (proj2 (is_unassigned_item p' (f i) Hnd' Hfi)) in Hp by done.
  assert (item_ready (v_items p') (f i)) as Hr' by (rewrite Hitems; by apply item_ready_keeps).
  by specialize (Hp Hr').
Qed.

Definition is_dead (s : string) : bool := bool_decide (s = "dead").

Lemma stranded_item_is_recovered_witness :
  next_stranded_runnable_item_id sample_plan is_dead = Some "b" ∧
  ∃ p', reclaim_stranded_assignment sample_plan "b" = (true, p') ∧ reclaims p' "b" = 1%N.
Proof.
  assert (next_stranded_runnable_item_id sample_plan is_dead = Some "b") as H by (vm_compute; reflexivity).
  split; [exact H|].
  destruct (stranded_item_is_recovered sample_plan is_dead "b" sample_items_NoDup H) as (p' & Hr & Hc & _).
  exists p'. split; [exact Hr|]. rewrite Hc. vm_compute. reflexivity.
Defined.

(** A history of a plan as seen by the reclaim counter of [x]: automatic reclaims of
    [x] are counted; between them the plan may change in any way that keeps its ids
    unique and does not lower the counter (a re-dispatch keeps it). *)
Inductive reclaim_history (x : string) : nat → VersionedPlan → VersionedPlan → Prop :=
| rh_start p : reclaim_history x 0 p p
| rh_other k p q r :
    reclaim_history x k p q → NoDup (map i_id (v_items r)) →
    (reclaims q x ≤ reclaims r x)%N → reclaim_history x k p r
| rh_reclaim k p q r dead :
    reclaim_history x k p q → NoDup (map i_id (v_items q)) →
    next_stranded_runnable_item_id q dead = Some x →
    reclaim_stranded_assignment q x = (true, r) →
    reclaim_history x (S k) p r.

(** A task whose workers keep dying is automatically re-dispatched at
    most three times over the whole life of the plan, whatever happens in between. *)
Theorem automatic_reclaims_are_bounded x k p q :
  reclaim_history x k p q → k ≤ N.to_nat MAX_DEAD_ASSIGNEE_RECLAIMS.
Proof.
  intros Hh.
  assert (N.of_nat k ≤ reclaims q x ∧ N.of_nat k ≤ 3)%N as [_ H3].
  { induction Hh as [p|k p q r _ [IH1 IH2] _ Hle|k p q r dead _ [IH1 IH2] Hnd Hnext Hrec]; [lia|lia|].
    destruct (stranded_spec q dead x Hnd Hnext) as (_ & _ & _ & _ & _ & _ & _ & Hlt).
    destruct (reclaim_ok q x r Hnd Hrec) as (_ & -> & _). unfold u32_succ.
    rewrite N.mod_small by lia. lia. }
  unfold MAX_DEAD_ASSIGNEE_RECLAIMS. simpl. lia.
Qed.

Lemma automatic_reclaims_are_bounded_witness :
  ∃ p', reclaim_history "b" 1 sample_plan p' ∧ 1 ≤ N.to_nat MAX_DEAD_ASSIGNEE_RECLAIMS.
Proof.
  destruct (reclaim_stranded_assignment sample_plan "b") as [b p'] eqn:H.
  assert (reclaim_history "b" 1 sample_plan p') as Hh.
  { eapply (rh_reclaim "b" 0 sample_plan sample_plan p' is_dead); [apply rh_start|apply sample_items_NoDup| |].
    - vm_compute. reflexivity.
    - vm_compute in H. injection H as <- <-. vm_compute. reflexivity. }
  exists p'. split; [exact Hh|]. apply (automatic_reclaims_are_bounded "b" 1 sample_plan p' Hh).
Defined.

(** ** Control actions *)

(** No control action ever targets finished work: the status test of
    every action refuses completed items, and when a session is named instead of a
    task, the task that is picked belongs to the session, is not completed, accepts
    the action, and no other candidate of the session is in a more urgent class
    (running, then runnable, then failed). *)
Theorem control_never_reopens_completed_work items target action x :
  (∀ status, task_control_action_allows_status action status = true → is_completed_status status = false) ∧
  (task_control_target_item_id items target action = Ok x →
   ∃ i, i ∈ items ∧ i_id i = x ∧ i_assigned_to i = Some target ∧
     task_control_action_allows_status action (i_status i) = true ∧
     is_completed_status (i_status i) = false ∧
     ∀ j, j ∈ items → i_assigned_to j = Some target →
       task_control_action_allows_status action (i_status j) = true → control_le i j).
Proof.
  split; [intros s; apply allows_not_completed|].
  unfold task_control_target_item_id. intros H.
  pose proof (sorted_control_rank (control_candidates items target action)) as Hs.
  pose proof (elem_of_sort_by_control_rank (control_candidates items target action)) as He.
  assert (∃ i rest, sort_by_control_rank (control_candidates items target action) = i :: rest ∧ i_id i = x)
    as (i & rest & Hsort & <-).
  { destruct (sort_by_control_rank _) as [|i [|j rest]]; [done|by injection H; eauto|].
    case_bool_decide; [|done]. injection H; eauto. }
  rewrite Hsort in Hs, He. inv Hs.
  assert (i ∈ control_candidates items target action) as (Hi & Ha & Hst)%elem_of_control_candidates
    by (apply He; left).
  exists i. repeat split; try done; [by eapply allows_not_completed|].
  intros j Hj Haj Hsj.
  assert (j ∈ i :: rest) as [->|Hj']%elem_of_cons by (apply He, elem_of_control_candidates; auto).
  - unfold control_le. lia.
  - by eapply Forall_forall.
Qed.

Lemma control_never_reopens_completed_work_witness :
  ∃ i, i ∈ sample_items ∧ i_id i = "e" ∧ is_completed_status (i_status i) = false.
Proof.
  destruct (control_never_reopens_completed_work sample_items "s2" Reassign "e") as [_ H].
  destruct H as (i & Hi & Hid & _ & _ & Hc & _); [vm_compute; reflexivity|]. exists i. auto.
Defined.

(** The seven control actions are read back from their names, and
    no other word is an action. *)
Theorem control_action_names action_word a :
  action_parse action_word = Some a ↔ action_word = action_as_str a.
Proof.
  unfold action_parse. split.
  - repeat case_bool_decide; subst; by intros [= <-].
  - intros ->. by destruct a; vm_compute.
Qed.

(** ** Sessions and side maps *)

Definition mentions_session (s : string) (p : VersionedPlan) : Prop :=
  s ∈ v_participants p ∨ (∃ i, i ∈ v_items p ∧ i_assigned_to i = Some s) ∨
  (∃ x t, v_task_progress p !! x = Some t ∧ p_assigned_session_id t = Some s) ∨
  (∃ x m, v_node_meta p !! x = Some m ∧ m_planner m = Some s).

Lemma rename_ref_old old new r : old ≠ new → rename_ref old new r ≠ Some old.
Proof. intros Hne. unfold rename_ref. case_bool_decide; congruence. Qed.

Lemma rename_ref_back old new r : r ≠ Some new → rename_ref new old (rename_ref old new r) = r.
Proof. intros Hr. unfold rename_ref. repeat case_bool_decide; congruence. Qed.

Lemma rename_forgets old new p : old ≠ new → ¬ mentions_session old (rename_session old new p).
Proof.
  intros Hne [H|[(i & Hi & Ha)|[(x & t & Ht & Ha)|(x & m & Hm & Ha)]]]; simpl in *.
  - case_bool_decide; set_solver.
  - apply list_elem_of_fmap in Hi as (j & -> & _). by apply rename_ref_old in Ha.
  - rewrite lookup_fmap in Ht. apply fmap_Some in Ht as (t' & _ & ->). by apply rename_ref_old in Ha.
  - rewrite lookup_fmap in Hm. apply fmap_Some in Hm as (m' & _ & ->). by apply rename_ref_old in Ha.
Qed.

Lemma rename_back old new p :
  ¬ mentions_session new p → rename_session new old (rename_session old new p) = p.
Proof.
  intros Hnew. unfold mentions_session in Hnew. destruct p as [items v parts prog mode meta]. simpl in *.
  unfold rename_session. simpl. f_equal.
  - rewrite map_map. rewrite <- (map_id items) at 2. apply map_ext_in. intros i Hi%list_elem_of_In.
    destruct i as [c st pr id sub fs bb a]. unfold set_assigned_to. simpl. f_equal. apply rename_ref_back.
    intros ->. apply Hnew. right; left. eexists. split; [exact Hi|done].
  - apply leibniz_equiv. destruct (decide (old ∈ parts)) as [Ho|Ho].
    + rewrite (bool_decide_eq_true_2 (old ∈ parts)) by done. rewrite bool_decide_eq_true_2 by set_solver.
      intros y. destruct (decide (y = old)), (decide (y = new)); set_solver.
    + rewrite (bool_decide_eq_false_2 (old ∈ parts)) by done. rewrite bool_decide_eq_false_2 by tauto. done.
  - rewrite <- map_fmap_compose. rewrite <- (map_fmap_id prog) at 2. apply map_fmap_ext.
    intros x t Ht. destruct t. unfold set_assigned_session. simpl. f_equal. apply rename_ref_back.
    intros ->. apply Hnew. right; right; left. eexists _, _. split; [exact Ht|done].
  - rewrite <- map_fmap_compose. rewrite <- (map_fmap_id meta) at 2. apply map_fmap_ext.
    intros x t Ht. destruct t. unfold set_planner_meta. simpl. f_equal. apply rename_ref_back.
    intros ->. apply Hnew. right; right; right. eexists _, _. split; [exact Ht|done].
Qed.

(** Renaming a session leaves no reference to the old id, keeps the
    schedule, moves the whole load of the old id to the new one, and is undone by
    the opposite renaming; the new id must not be in use. *)
Theorem rename_session_moves_every_reference old new p :
  old ≠ new → ¬ mentions_session new p → NoDup (map i_id (v_items p)) →
  ¬ mentions_session old (rename_session old new p) ∧
  rename_session new old (rename_session old new p) = p ∧
  next_runnable_item_ids (v_items (rename_session old new p)) None
    = next_runnable_item_ids (v_items p) None ∧
  default 0 (assignment_loads (rename_session old new p) !! new)
    = default 0 (assignment_loads p !! old).
Proof.
  intros Hne Hnew Hnd. split; [by apply rename_forgets|]. split; [by apply rename_back|]. split.
  - apply next_runnable_keeps; [apply keeps_plan_assigned|done].
  - rewrite !assignment_loads_lookup. simpl. rewrite filterb_map, length_map. f_equal.
    apply filter_ext_in. intros i Hi%list_elem_of_In. unfold busy_for. simpl. f_equal.
    apply bool_decide_ext. unfold rename_ref. case_bool_decide as Ho; [naive_solver|].
    split; [|congruence]. intros Hi'. exfalso. apply Hnew. right; left. eauto.
Qed.

Lemma rename_session_moves_every_reference_witness :
  rename_session "s9" "s2" (rename_session "s2" "s9" sample_plan) = sample_plan ∧
  assignment_loads (rename_session "s2" "s9" sample_plan) !! "s9" = Some 1.
Proof.
  assert (¬ mentions_session "s9" sample_plan) as Hnew.
  { intros [H|[(i & Hi & Ha)|[(x & t & Ht & Ha)|(x & m & Hm & Ha)]]].
    - revert H. apply (bool_decide_unpack _). vm_compute. exact I.
    - assert (forallb (λ i, negb (bool_decide (i_assigned_to i = Some "s9"))) sample_items = true) as Hb
        by (vm_compute; reflexivity).
      rewrite forallb_elem in Hb. apply Hb in Hi. by rewrite bool_decide_eq_true_2 in Hi.
    - apply elem_of_map_to_list in Ht. vm_compute in Ht. repeat (apply elem_of_cons in Ht as [Ht|Ht]);
        [simplify_eq; discriminate..|by apply elem_of_nil in Ht].
    - done. }
  destruct (rename_session_moves_every_reference "s2" "s9" sample_plan) as (_ & Hback & _);
    [discriminate|exact Hnew|apply sample_items_NoDup|].
  split; [exact Hback|vm_compute; reflexivity].
Defined.

(** Replacing the items of a plan leaves no progress or metadata for
    removed tasks, keeps both untouched for the tasks that remain, and doing it twice
    changes nothing more. *)
Theorem replace_items_prunes_side_maps items p :
  let p' := replace_items items p in
  v_items p' = items ∧
  (∀ x, v_task_progress p' !! x = if decide (x ∈ item_ids items) then v_task_progress p !! x else None) ∧
  (∀ x, v_node_meta p' !! x = if decide (x ∈ item_ids items) then v_node_meta p !! x else None) ∧
  replace_items items p' = p'.
Proof.
  assert (∀ {A} (m : gmap string A) x,
    filter (λ kv : string * A, kv.1 ∈ item_ids items) m !! x
    = if decide (x ∈ item_ids items) then m !! x else None) as Hf.
  { intros A m x. rewrite map_lookup_filter. destruct (m !! x); simpl; [|by case_decide].
    unfold guard. by case_decide. }
  simpl. split; [done|]. split; [intros; apply Hf|]. split; [intros; apply Hf|].
  unfold replace_items, prune_side_maps, set_items. simpl. f_equal; apply map_eq; intros x;
    rewrite !Hf; by case_decide.
Qed.

(** ** The bridge *)

(** A serializer for the instances: artifacts are countable, and their codes are
    written in binary. *)
Definition artifact_fields (a : HandoffArtifact) :=
  (a_findings a, a_evidence a, a_edge_cases_considered a, a_validation a,
   a_open_questions a, a_confidence a, a_what_i_did_not_check a).

Definition artifact_of_fields
  (t : string * list string * list string * option string * list string * option string * list string)
  : HandoffArtifact :=
  let '(a, b, c, d, e, f, g) := t in {|
  a_findings := a; a_evidence := b; a_edge_cases_considered := c; a_validation := d;
  a_open_questions := e; a_confidence := f; a_what_i_did_not_check := g |}.

Fixpoint write_code (p : positive) : string :=
  match p with
  | xI p => String "1" (write_code p)
  | xO p => String "0" (write_code p)
  | xH => ""
  end.

Fixpoint read_code (s : string) : positive :=
  match s with
  | EmptyString => xH
  | String c s => if Ascii.eqb c "1" then xI (read_code s) else xO (read_code s)
  end.

Definition sample_to_json (a : HandoffArtifact) : option string :=
  Some (write_code (encode (artifact_fields a))).

Definition sample_from_json (s : string) : option HandoffArtifact :=
  artifact_of_fields <$> decode (read_code s).

Lemma sample_json_roundtrip a : ∃ s, sample_to_json a = Some s ∧ sample_from_json s = Some a.
Proof.
  eexists. split; [done|]. unfold sample_from_json.
  assert (∀ p, read_code (write_code p) = p) as -> by (induction p as [p IH|p IH|]; simpl; by rewrite ?IH).
  rewrite decode_encode. by destruct a.
Qed.

Lemma prior_items_lookup items i :
  NoDup (map i_id items) → i ∈ items → prior_items items !! i_id i = Some i.
Proof. intros Hnd Hi. unfold prior_items. by rewrite insert_all_elem. Qed.

(** C30 (refinement). The stored plan implements the engine state: after any sequence
    of engine operations on the lifted plan, lowering the result and lifting it again
    gives exactly the engine's graph, and every item that was in the plan keeps the
    fields the engine does not own. Priorities of new nodes must be ranks with a name
    (0 to 2), and the serializer must read back what it writes. *)
Theorem bridge_implements_engine to_json from_json p g' :
  (∀ a, ∃ s, to_json a = Some s ∧ from_json s = Some a) →
  wf (to_task_graph from_json p) → rtc dag_step (to_task_graph from_json p) g' →
  (∀ n, n ∈ g_nodes g' → n_priority n ≤ 2)%N →
  to_task_graph from_json (apply_task_graph to_json p g') = g' ∧
  ∀ x i, find_item (v_items p) x = Some i →
    ∃ i', find_item (v_items (apply_task_graph to_json p g')) x = Some i' ∧
      i_priority i' = i_priority i ∧ i_subsystem i' = i_subsystem i ∧ i_file_scope i' = i_file_scope i.
Proof.
  intros Hjson Hwf Hsteps Hpr.
  assert (NoDup (map i_id (v_items p))) as Hnd by (rewrite <- (node_ids_lift from_json); apply Hwf).
  pose proof (wf_nodup _ (wf_steps _ _ Hsteps Hwf)) as Hnd'. split.
  - apply lower_lift_roundtrip; [done|done|]. intros n Hn.
    by eapply priority_matches_steps; eauto.
  - intros x i Hi. destruct (priority_steps _ _ Hsteps x (lift_item from_json p i)) as (n & Hn & _).
    { by rewrite get_lift, Hi. }
    exists (lower_node (prior_items (v_items p)) n).
    rewrite v_items_apply, find_item_lower. unfold get in Hn. rewrite Hn. split; [done|].
    apply find_item_Some in Hi as [Hi <-]. simpl.
    rewrite (get_id _ _ _ (Hn : get g' (i_id i) = Some n)), prior_items_lookup by done. done.
Qed.

(** A stored plan of two items, and the engine graph after its first task started. *)
Definition small_plan : VersionedPlan :=
  set_items [mk_item "a" "queued" "urgent" [] None; mk_item "b" "pending" "low" ["a"] None] plan_new.

Definition small_graph : TaskGraph := (dispatch (to_task_graph sample_from_json small_plan) "a" "w0").2.

Lemma small_plan_wf : wf (to_task_graph sample_from_json small_plan).
Proof.
  apply wf_commit; [split|].
  - apply (bool_decide_unpack _). vm_compute. exact I.
  - intros x n d Hx Hd. apply get_elem in Hx.
    assert (forallb (λ n, forallb (contains (to_task_graph sample_from_json small_plan)) (n_depends_on n))
              (g_nodes (to_task_graph sample_from_json small_plan)) = true) as Hb by (vm_compute; reflexivity).
    rewrite forallb_elem in Hb. apply Hb in Hx. rewrite forallb_elem in Hx.
    by apply contains_spec, Hx.
  - vm_compute. reflexivity.
Qed.

Lemma bridge_implements_engine_witness :
  to_task_graph sample_from_json (apply_task_graph sample_to_json small_plan small_graph) = small_graph.
Proof.
  apply (bridge_implements_engine sample_to_json sample_from_json small_plan small_graph).
  - apply sample_json_roundtrip.
  - apply small_plan_wf.
  - apply rtc_once. apply (step_dispatch _ "a" "w0"). vm_compute. reflexivity.
  - intros n Hn. assert (forallb (λ n, (n_priority n <=? 2)%N) (g_nodes small_graph) = true) as Hb
      by (vm_compute; reflexivity).
    rewrite forallb_elem in Hb. by apply N.leb_le, Hb.
Defined.

(** The plan-level scheduler and the engine's scheduler agree: on a
    well-formed plan whose statuses both sides understand, the runnable list of the
    plan is the list of ready nodes of the lifted graph, in the same order. *)
Theorem plan_and_engine_schedule_alike from_json p :
  wf (to_task_graph from_json p) →
  (∀ i, i ∈ v_items p → plain_status (i_status i) = true) →
  map n_id (ready_nodes (to_task_graph from_json p)) = next_runnable_item_ids (v_items p) None.
Proof.
  intros Hwf Hs. apply schedulers_agree; [|apply Hwf|done].
  rewrite <- (node_ids_lift from_json). apply Hwf.
Qed.

Lemma plan_and_engine_schedule_alike_witness :
  map n_id (ready_nodes (to_task_graph sample_from_json small_plan)) = ["a"] ∧
  next_runnable_item_ids (v_items small_plan) None = ["a"].
Proof.
  assert (next_runnable_item_ids (v_items small_plan) None = ["a"]) as H by (vm_compute; reflexivity).
  split; [|exact H]. rewrite <- H.
  apply (plan_and_engine_schedule_alike sample_from_json small_plan small_plan_wf).
  intros i Hi. assert (forallb (λ i, plain_status (i_status i)) (v_items small_plan) = true) as Hb
    by (vm_compute; reflexivity).
  rewrite forallb_elem in Hb. by apply Hb.
Defined.

(** ** A priority without a name is lost in storage *)

Definition spec_p5 : NodeSpec := spec_priority (spec_new "a" "survey" Explore) 5.

Definition stored (specs : list NodeSpec) : option VersionedPlan :=
  match seed (to_task_graph sample_from_json plan_new) specs with
  | Ok g => Some (apply_task_graph sample_to_json plan_new g)
  | Err _ => None
  end.

(** Replaying a seed is a no-op in the engine, but not through storage
    when a priority is above 2: rank 5 is stored as "medium", read back as 1, and the
    same request is refused as a conflicting node. With rank 2 the replay succeeds. *)
Theorem unnamed_priority_breaks_replay :
  (∃ p, stored [spec_p5] = Some p ∧
     is_ok (seed (to_task_graph sample_from_json p) [spec_p5]) = false) ∧
  (∃ p, stored [spec_priority spec_p5 2] = Some p ∧
     is_ok (seed (to_task_graph sample_from_json p) [spec_priority spec_p5 2]) = true).
Proof. split; eexists; (split; [reflexivity|vm_compute; reflexivity]). Qed.
