(* ===== verification/ShellTokens.v ===== *)
(** * Shell tokenizer

    crates/jcode-command-risk/src/tokenize.rs: words, operators and redirect targets of
    a command line, and its split into command segments.  The scanner reads bytes;
    every character it distinguishes is ASCII and all others are copied, so reading
    bytes instead of characters gives the same tokens. *)

From S2P Require Import Prelude RustStr.

Record Token := {
  t_text : string;
  t_receives_pipe : bool;
  t_is_redirect_target : bool;
  t_is_operator : bool;
}.

#[export] Instance Token_eq_dec : EqDecision Token.
Proof. solve_decision. Defined.

Definition word (text : string) : Token := {|
  t_text := text; t_receives_pipe := false; t_is_redirect_target := false; t_is_operator := false |}.

(** [text.rsplit('/').next()]: the part after the last slash. *)
Definition basename (t : Token) : string := default (t_text t) (last (split_chr "/" (t_text t))).

Definition is_flag (t : Token) : bool :=
  starts_with "-" (t_text t) && (1 <? String.length (t_text t)).

Definition is_recursive_flag (t : Token) : bool :=
  if negb (is_flag t) then false
  else if starts_with "--" (t_text t) then bool_decide (t_text t = "--recursive")
  else contains_chr "r" (t_text t) || contains_chr "R" (t_text t).

Definition chr_newline : chr := "010"%char.
Definition chr_tab : chr := "009"%char.
Definition chr_dquote : chr := "034"%char.
Definition chr_squote : chr := "039"%char.
Definition chr_backslash : chr := "092"%char.

Definition SEGMENT_SEPARATORS : list string := ["&&"; "||"; ";"; "|"; String chr_newline ""].

(** ** The scanner *)

Record Scan := {
  k_tokens : list Token;
  k_current : string;
  k_has_content : bool;
  k_pending_redirect : bool;
}.

Definition scan_start : Scan := {|
  k_tokens := []; k_current := ""; k_has_content := false; k_pending_redirect := false |}.

Definition push_chr (c : chr) (k : Scan) : Scan := {|
  k_tokens := k_tokens k; k_current := k_current k +:+ String c ""; k_has_content := true;
  k_pending_redirect := k_pending_redirect k |}.

Definition open_word (k : Scan) : Scan := {|
  k_tokens := k_tokens k; k_current := k_current k; k_has_content := true;
  k_pending_redirect := k_pending_redirect k |}.

Definition flush (k : Scan) : Scan :=
  if k_has_content k then {|
    k_tokens := k_tokens k ++ [{|
      t_text := k_current k; t_receives_pipe := false;
      t_is_redirect_target := k_pending_redirect k; t_is_operator := false |}];
    k_current := ""; k_has_content := false; k_pending_redirect := false |}
  else k.

Definition push_operator (text : string) (k : Scan) : Scan := {|
  k_tokens := k_tokens k ++ [{|
    t_text := text; t_receives_pipe := false; t_is_redirect_target := false;
    t_is_operator := true |}];
  k_current := k_current k; k_has_content := k_has_content k;
  k_pending_redirect := k_pending_redirect k |}.

Definition await_redirect (k : Scan) : Scan := {|
  k_tokens := k_tokens k; k_current := k_current k; k_has_content := k_has_content k;
  k_pending_redirect := true |}.

Inductive ScanMode := Plain | SingleQuoted | DoubleQuoted.

(** The characters a backslash escapes inside double quotes. *)
Definition escapable (c : chr) : bool :=
  Ascii.eqb c chr_dquote || Ascii.eqb c chr_backslash || Ascii.eqb c "$" || Ascii.eqb c "`".

(** The loop over the characters; the quoted loops are its other two modes. *)
Fixpoint scan (mode : ScanMode) (s : string) (k : Scan) : Scan :=
  match s with
  | EmptyString => k
  | String c s1 =>
      match mode with
      | SingleQuoted =>
          if Ascii.eqb c chr_squote then scan Plain s1 k
          else scan SingleQuoted s1 (push_chr c k)
      | DoubleQuoted =>
          if Ascii.eqb c chr_dquote then scan Plain s1 k
          else match s1 with
               | String next s2 =>
                   if Ascii.eqb c chr_backslash && escapable next
                   then scan DoubleQuoted s2 (push_chr next k)
                   else scan DoubleQuoted s1 (push_chr c k)
               | EmptyString => scan DoubleQuoted s1 (push_chr c k)
               end
      | Plain =>
          if Ascii.eqb c chr_squote then scan SingleQuoted s1 (open_word k)
          else if Ascii.eqb c chr_dquote then scan DoubleQuoted s1 (open_word k)
          else if Ascii.eqb c chr_backslash then
            match s1 with
            | String next s2 => scan Plain s2 (push_chr next k)
            | EmptyString => k
            end
          else if Ascii.eqb c " " || Ascii.eqb c chr_tab then scan Plain s1 (flush k)
          else if Ascii.eqb c chr_newline || Ascii.eqb c ";" then
            scan Plain s1 (push_operator (String c "") (flush k))
          else if Ascii.eqb c "&" || Ascii.eqb c "|" then
            match s1 with
            | String next s2 =>
                if Ascii.eqb next c
                then scan Plain s2 (push_operator (String c (String c "")) (flush k))
                else scan Plain s1 (push_operator (String c "") (flush k))
            | EmptyString => scan Plain s1 (push_operator (String c "") (flush k))
            end
          else if Ascii.eqb c ">" then
            match s1 with
            | String next s2 =>
                if Ascii.eqb next ">" then scan Plain s2 (flush k)
                else if Ascii.eqb next "|" then scan Plain s2 (await_redirect (flush k))
                else scan Plain s1 (await_redirect (flush k))
            | EmptyString => scan Plain s1 (await_redirect (flush k))
            end
          else if Ascii.eqb c "<" then scan Plain s1 (flush k)
          else scan Plain s1 (push_chr c k)
      end
  end.

Definition tokenize (command : string) : list Token :=
  k_tokens (flush (scan Plain command scan_start)).

(** ** Segments *)

Definition set_pipe (b : bool) (t : Token) : Token := {|
  t_text := t_text t; t_receives_pipe := b; t_is_redirect_target := t_is_redirect_target t;
  t_is_operator := t_is_operator t |}.

Definition is_separator (t : Token) : bool := t_is_operator t && mem (t_text t) SEGMENT_SEPARATORS.

Definition close_segment (segments : list (list Token)) (current : list Token) : list (list Token) :=
  match current with [] => segments | _ => segments ++ [current] end.

Fixpoint segment_loop (tokens : list Token) (segments : list (list Token)) (current : list Token)
  (next_receives_pipe : bool) : list (list Token) :=
  match tokens with
  | [] => close_segment segments current
  | t :: tokens =>
      if is_separator t then
        segment_loop tokens (close_segment segments current) [] (bool_decide (t_text t = "|"))
      else segment_loop tokens segments (current ++ [set_pipe next_receives_pipe t]) next_receives_pipe
  end.

Definition split_segments (command : string) : list (list Token) :=
  segment_loop (tokenize command) [] [] false.

(** ** The tokens are no longer than the command *)

Definition text_size (ts : list Token) : nat := sum_list_with (λ t, String.length (t_text t)) ts.

Lemma text_size_app ts us : text_size (ts ++ us) = text_size ts + text_size us.
Proof. apply sum_list_with_app. Qed.

Definition scan_size (k : Scan) : nat := text_size (k_tokens k) + String.length (k_current k).

Lemma scan_size_push c k : scan_size (push_chr c k) = S (scan_size k).
Proof. unfold scan_size. simpl. rewrite str_length_app. simpl. lia. Qed.

Lemma scan_size_open k : scan_size (open_word k) = scan_size k.
Proof. done. Qed.

Lemma scan_size_flush k : scan_size (flush k) ≤ scan_size k.
Proof.
  unfold scan_size, flush. destruct (k_has_content k); simpl; [|lia].
  rewrite text_size_app. unfold text_size at 2. simpl. lia.
Qed.

Lemma scan_size_operator text k :
  scan_size (push_operator text k) = scan_size k + String.length text.
Proof. unfold scan_size. simpl. rewrite text_size_app. unfold text_size at 2. simpl. lia. Qed.

Lemma scan_size_await k : scan_size (await_redirect k) = scan_size k.
Proof. done. Qed.

(** Strong induction on the length, since the scanner may read two characters. *)
Lemma scan_size_le mode s k : scan_size (scan mode s k) ≤ scan_size k + String.length s.
Proof.
  remember (String.length s) as n eqn:Hn. revert mode s k Hn.
  induction (lt_wf n) as [n _ IH]. intros mode s k ->.
  assert (∀ mode s' k', String.length s' < String.length s →
    scan_size k' + String.length s' ≤ scan_size k + String.length s →
    scan_size (scan mode s' k') ≤ scan_size k + String.length s) as Hrec.
  { intros mode' s' k' Hlt Hle. etrans; [by eapply IH|done]. }
  pose proof (scan_size_flush k).
  destruct s as [|c s1]; [simpl; lia|].
  destruct mode; cbn [scan]; repeat case_match; try (simpl; lia);
    apply Hrec; rewrite ?scan_size_push, ?scan_size_open, ?scan_size_operator, ?scan_size_await;
    simpl; lia.
Qed.

Lemma tokenize_size command : text_size (tokenize command) ≤ String.length command.
Proof.
  unfold tokenize. pose proof (scan_size_le Plain command scan_start) as H1.
  pose proof (scan_size_flush (scan Plain command scan_start)) as H2.
  unfold scan_size in *. simpl in *. lia.
Qed.

Lemma text_size_set_pipe b t : text_size [set_pipe b t] = text_size [t].
Proof. done. Qed.

Lemma close_segment_size segments current seg n :
  (∀ s, s ∈ segments → text_size s ≤ n) → text_size current ≤ n →
  seg ∈ close_segment segments current → text_size seg ≤ n.
Proof.
  intros Hs Hc. unfold close_segment. destruct current as [|t l]; [apply Hs|].
  intros [?|Hin]%elem_of_app; [auto|]. apply list_elem_of_singleton in Hin as ->. done.
Qed.

Lemma segment_loop_size n tokens segments current pipe seg :
  (∀ s, s ∈ segments → text_size s ≤ n) → text_size current + text_size tokens ≤ n →
  seg ∈ segment_loop tokens segments current pipe → text_size seg ≤ n.
Proof.
  revert segments current pipe. induction tokens as [|t tokens IH]; intros segments current pipe Hs Hc; simpl.
  - apply close_segment_size; [done|lia].
  - assert (text_size (t :: tokens) = text_size [t] + text_size tokens) as Ht
      by (apply (text_size_app [t] tokens)).
    destruct (is_separator t); apply IH.
    + intros s Hin. eapply close_segment_size; [exact Hs| |exact Hin]. lia.
    + unfold text_size at 1. simpl. lia.
    + done.
    + rewrite text_size_app, text_size_set_pipe. lia.
Qed.

Lemma split_segments_size command seg :
  seg ∈ split_segments command → text_size seg ≤ String.length command.
Proof.
  apply segment_loop_size; [intros s H; by apply elem_of_nil in H|].
  pose proof (tokenize_size command). unfold text_size at 1. simpl. lia.
Qed.

(** No segment is empty. *)
Lemma segment_loop_nonempty tokens segments current pipe :
  (∀ s, s ∈ segments → s ≠ []) → ∀ s, s ∈ segment_loop tokens segments current pipe → s ≠ [].
Proof.
  assert (∀ segs cur, (∀ s, s ∈ segs → s ≠ []) → ∀ s, s ∈ close_segment segs cur → s ≠ []) as Hclose.
  { intros segs cur Hs s. unfold close_segment. destruct cur; [auto|].
    intros [?|Hin]%elem_of_app; [auto|]. by apply list_elem_of_singleton in Hin as ->. }
  revert segments current pipe. induction tokens as [|t tokens IH]; intros segments current pipe Hs; simpl.
  - by apply Hclose.
  - destruct (is_separator t); apply IH; [|done]. by apply Hclose.
Qed.
