(* ===== verification/RiskPaths.v ===== *)
(** * Path classification

    crates/jcode-command-risk/src/paths.rs.  A path is its text; the standard library's
    view of it as a sequence of components (on Unix) is [components].  Comparison,
    prefix tests, parent and file name work on components, as [std::path] does. *)

From S2P Require Import Prelude RustStr.

(** ** Risk levels and findings *)

Inductive RiskLevel := Safe | LowRisk | Confirm | Catastrophic.

#[export] Instance RiskLevel_eq_dec : EqDecision RiskLevel.
Proof. solve_decision. Defined.

Record RiskFinding := {
  f_level : RiskLevel;
  f_reason : string;
  f_target : option string;
}.

Record RiskContext := {
  x_working_dir : option string;
  x_home_dir : option string;
}.

(** ** [std::path] *)

Inductive Component := RootDir | CurDir | ParentDir | Normal (name : string).

#[export] Instance Component_eq_dec : EqDecision Component.
Proof. solve_decision. Defined.

Definition is_absolute (p : string) : bool := starts_with "/" p.

(** Empty pieces and [.] are dropped, except a leading [.] of a relative path. *)
Definition piece_component (piece : string) : option Component :=
  if bool_decide (piece = "" ∨ piece = ".") then None
  else if bool_decide (piece = "..") then Some ParentDir
  else Some (Normal piece).

Definition components (p : string) : list Component :=
  if is_absolute p then RootDir :: omap piece_component (split_chr "/" p)
  else match split_chr "/" p with
       | [] => []
       | first :: rest =>
           if bool_decide (first = ".") then CurDir :: omap piece_component rest
           else omap piece_component (first :: rest)
       end.

Definition path_eq (p q : string) : bool := bool_decide (components p = components q).

Fixpoint is_prefix (short long : list Component) : bool :=
  match short, long with
  | [], _ => true
  | c :: short, d :: long => bool_decide (c = d) && is_prefix short long
  | _ :: _, [] => false
  end.

Definition path_starts_with (p base : string) : bool := is_prefix (components base) (components p).

(** [PathBuf::push]: an absolute argument replaces the path. *)
Definition path_join (base p : string) : string :=
  if is_absolute p then p
  else match last_chr base with
       | Some c => if Ascii.eqb c "/" then base +:+ p else base +:+ "/" +:+ p
       | None => base +:+ p
       end.

(** The components of [path.parent()]. *)
Definition parent_components (cs : list Component) : option (list Component) :=
  match last cs with
  | None | Some RootDir => None
  | Some _ => Some (removelast cs)
  end.

Definition file_name (cs : list Component) : option string :=
  match last cs with Some (Normal name) => Some name | _ => None end.

(** ** Normalization *)

(** The buffer under construction: whether it starts at the root, and its names with
    the last one first. *)
Definition NormBuf : Type := bool * list string.

Definition norm_step (out : NormBuf) (c : Component) : NormBuf :=
  match c with
  | ParentDir => (out.1, tail out.2)
  | CurDir => out
  | RootDir => (true, [])
  | Normal name => (out.1, name :: out.2)
  end.

Definition buf_text (out : NormBuf) : string :=
  (if out.1 then "/" else "") +:+ join "/" (rev out.2).

Definition normalize_components (cs : list Component) : string :=
  let out := buf_text (foldl norm_step (false, []) cs) in
  if is_empty out then "/" else out.

Definition normalize (path : string) : string := normalize_components (components path).

(** ** Policy *)

Definition PROTECTED_CREDENTIAL_SUBPATHS : list string := [".ssh"; ".gnupg"; ".aws"; ".kube"; ".docker"].

Definition PROTECTED_HOME_SUBPATHS : list string :=
  [".config"; ".jcode"; ".claude"; ".local"; ".local/share"; "Documents"; "Desktop"].

Definition PROTECTED_SYSTEM_PATHS : list string :=
  ["/"; "/bin"; "/boot"; "/dev"; "/etc"; "/lib"; "/lib64"; "/opt"; "/proc"; "/root"; "/sbin";
   "/srv"; "/sys"; "/usr"; "/var"; "/Applications"; "/System"; "/Library"; "/Users"; "/home"].

Definition SYSTEM_PATHS_PROTECTED_RECURSIVELY : list string :=
  ["/bin"; "/boot"; "/dev"; "/etc"; "/lib"; "/lib64"; "/proc"; "/sbin"; "/sys"; "/usr";
   "/var/lib"; "/System"; "/Library"].

Definition expand_home (home text : string) : string :=
  let text := replace "${HOME}" home text in
  let text := replace "$HOME" home text in
  if bool_decide (text = "~") then home
  else match strip_prefix "~/" text with
       | Some rest => home +:+ "/" +:+ rest
       | None => text
       end.

Definition expand (raw : string) (ctx : RiskContext) : string :=
  let text := match x_home_dir ctx with Some home => expand_home home raw | None => raw end in
  if is_absolute text then normalize text
  else match x_working_dir ctx with
       | Some cwd => normalize (path_join cwd text)
       | None => text
       end.

Definition is_catastrophic_components (cs : list Component) (ctx : RiskContext) : bool :=
  let path := normalize_components cs in
  if existsb (λ p, path_eq path p) PROTECTED_SYSTEM_PATHS then true
  else if existsb (λ p, path_starts_with path p) SYSTEM_PATHS_PROTECTED_RECURSIVELY then true
  else match x_home_dir ctx with
       | None => false
       | Some home =>
           let home := normalize home in
           if path_eq path home then true
           else if existsb (λ sub, path_starts_with path (path_join home sub))
                     PROTECTED_CREDENTIAL_SUBPATHS then true
           else existsb (λ sub, path_eq path (path_join home sub)) PROTECTED_HOME_SUBPATHS
       end.

Definition is_catastrophic_target (path : string) (ctx : RiskContext) : bool :=
  is_catastrophic_components (components path) ctx.

Definition is_temp_path (path : string) : bool :=
  existsb (path_starts_with path) ["/tmp"; "/var/tmp"; "/private/tmp"].

Definition inside_cwd (expanded : string) (ctx : RiskContext) : bool :=
  match x_working_dir ctx with
  | Some cwd => path_starts_with expanded (normalize cwd)
  | None => false
  end.

Definition has_glob (raw : string) : bool := contains_chr "*" raw || contains_chr "?" raw.

Definition is_computed (raw : string) : bool := contains_chr "$" raw || contains_chr "`" raw.

(** A glob over everything in a protected directory. *)
Definition glob_of_protected (expanded : string) (ctx : RiskContext) : bool :=
  match parent_components (components expanded) with
  | Some parent =>
      is_catastrophic_components parent ctx
      && bool_decide (file_name (components expanded) = Some "*")
  | None => false
  end.

Definition classify_target (expanded raw : string) (recursive : bool) (ctx : RiskContext)
  : option RiskFinding :=
  if has_glob raw then
    if glob_of_protected expanded ctx then
      Some {| f_level := Catastrophic;
              f_reason := "would destroy the entire contents of a protected directory";
              f_target := Some raw |}
    else
      Some {| f_level := Confirm;
              f_reason := "target contains a glob, so the exact set of affected files is not known before execution";
              f_target := Some raw |}
  else if is_catastrophic_target expanded ctx then
    Some {| f_level := Catastrophic;
            f_reason := "targets a protected system or home path that must never be destroyed";
            f_target := Some expanded |}
  else if is_computed raw then
    Some {| f_level := Confirm;
            f_reason := "target is computed at runtime (variable or command substitution), so its value cannot be checked in advance";
            f_target := Some raw |}
  else if path_starts_with expanded "/dev" && negb (path_starts_with expanded "/dev/null")
       && negb (path_starts_with expanded "/dev/stdout") && negb (path_starts_with expanded "/dev/stderr") then
    Some {| f_level := Catastrophic;
            f_reason := "writes directly to a device node, which can destroy a filesystem or disk";
            f_target := Some expanded |}
  else if inside_cwd expanded ctx then
    if recursive then
      Some {| f_level := LowRisk;
              f_reason := "recursive delete inside the working directory";
              f_target := Some expanded |}
    else None
  else if is_temp_path expanded then None
  else
    Some {| f_level := Confirm;
            f_reason := "targets a path outside the working directory";
            f_target := Some expanded |}.

(** ** Names and their text *)

(** A name that can be a component: not empty, not a dot name, without a slash. *)
Definition proper_name (s : string) : Prop :=
  s ≠ "" ∧ s ≠ "." ∧ s ≠ ".." ∧ contains_chr "/" s = false.

Lemma split_chr_app (c : chr) (s t : string) :
  contains_chr c s = false → split_chr c (s +:+ String c t) = s :: split_chr c t.
Proof.
  induction s as [|b s IH]; intros Hs.
  - rewrite str_app_nil_l. cbn [split_chr]. by rewrite Ascii.eqb_refl.
  - unfold contains_chr in *. simpl in Hs. apply orb_false_iff in Hs as [Hb Hs].
    rewrite str_app_cons. cbn [split_chr]. rewrite Ascii.eqb_sym, Hb. by rewrite IH.
Qed.

Lemma split_chr_none (c : chr) (s : string) : contains_chr c s = false → split_chr c s = [s].
Proof.
  induction s as [|b s IH]; intros Hs; [done|].
  unfold contains_chr in *. simpl in Hs. apply orb_false_iff in Hs as [Hb Hs].
  cbn [split_chr]. rewrite Ascii.eqb_sym, Hb. by rewrite IH.
Qed.

Lemma split_join (c : chr) (l : list string) :
  l ≠ [] → (∀ s, s ∈ l → contains_chr c s = false) → split_chr c (join (String c "") l) = l.
Proof.
  induction l as [|s l IH]; intros Hne Hl; [done|].
  destruct l as [|s' l].
  - simpl. apply split_chr_none, Hl. by left.
  - change (join (String c "") (s :: s' :: l)) with (s +:+ String c "" +:+ join (String c "") (s' :: l)).
    rewrite str_app_cons, str_app_nil_l, split_chr_app by (apply Hl; by left).
    rewrite IH; [done|done|]. intros t Ht. apply Hl. by right.
Qed.

Lemma split_chr_pieces (c : chr) (s piece : string) :
  piece ∈ split_chr c s → contains_chr c piece = false.
Proof.
  revert piece. induction s as [|b s IH]; intros piece; cbn [split_chr].
  - by intros ->%list_elem_of_singleton.
  - destruct (Ascii.eqb b c) eqn:Hb.
    + intros [->|?]%elem_of_cons; [done|auto].
    + destruct (split_chr c s) as [|p ps].
      * intros ->%list_elem_of_singleton. unfold contains_chr. simpl. by rewrite Ascii.eqb_sym, Hb.
      * intros [->|Hp]%elem_of_cons.
        -- unfold contains_chr. simpl. rewrite Ascii.eqb_sym, Hb. apply (IH p). by left.
        -- apply IH. by right.
Qed.

Lemma piece_proper piece name :
  contains_chr "/" piece = false → piece_component piece = Some (Normal name) → proper_name name.
Proof.
  unfold piece_component. intros Hc. case_bool_decide as H1; [done|]. case_bool_decide as H2; [done|].
  intros [= <-]. unfold proper_name. naive_solver.
Qed.

Lemma piece_of_proper name : proper_name name → piece_component name = Some (Normal name).
Proof.
  intros (H1 & H2 & H3 & _). unfold piece_component.
  rewrite bool_decide_eq_false_2 by naive_solver. by rewrite bool_decide_eq_false_2.
Qed.

Lemma omap_proper names : Forall proper_name names → omap piece_component names = map Normal names.
Proof. induction 1 as [|n l Hn _ IH]; [done|]. cbn. rewrite piece_of_proper by done. f_equal. exact IH. Qed.

Lemma components_proper p name : Normal name ∈ components p → proper_name name.
Proof.
  assert (∀ pieces : list string, (∀ q, q ∈ pieces → contains_chr "/" q = false) →
    Normal name ∈ omap piece_component pieces → proper_name name) as Hgen.
  { intros pieces Hp (q & Hq & Hc)%list_elem_of_omap. eauto using piece_proper. }
  pose proof (split_chr_pieces "/" p) as Hpieces. unfold components.
  destruct (is_absolute p).
  - intros [?|H]%elem_of_cons; [done|]. eapply Hgen; [|exact H]. auto.
  - destruct (split_chr "/" p) as [|q qs]; [by intros ?%elem_of_nil|].
    assert (Normal name ∈ CurDir :: omap piece_component qs → proper_name name) as Hdot.
    { intros [?|H]%elem_of_cons; [done|]. eapply Hgen; [|exact H]. intros. apply Hpieces. by right. }
    assert (Normal name ∈ omap piece_component (q :: qs) → proper_name name) as Hany.
    { intros H. eapply Hgen; [|exact H]. auto. }
    repeat case_match; auto.
Qed.

(** ** Normal forms *)

(** The buffer of a normalized path; the empty relative path becomes the root. *)
Definition norm_buf (cs : list Component) : NormBuf :=
  match foldl norm_step (false, []) cs with
  | (false, []) => (true, [])
  | out => out
  end.

Definition buf_components (out : NormBuf) : list Component :=
  (if out.1 then [RootDir] else []) ++ map Normal (rev out.2).

Definition proper_components (cs : list Component) : Prop := ∀ name, Normal name ∈ cs → proper_name name.

Lemma norm_fold_proper cs out :
  proper_components cs → Forall proper_name out.2 → Forall proper_name (foldl norm_step out cs).2.
Proof.
  revert out. induction cs as [|c cs IH]; intros out Hcs Hout; simpl; [done|].
  apply IH; [intros name Hn; apply Hcs; by right|].
  destruct c as [| | |name]; simpl; [constructor|done|by apply Forall_tail|].
  constructor; [apply Hcs; by left|done].
Qed.

Lemma norm_buf_proper cs : proper_components cs → Forall proper_name (norm_buf cs).2.
Proof.
  intros Hcs. pose proof (norm_fold_proper cs (false, []) Hcs (Forall_nil_2 _)) as H.
  unfold norm_buf. destruct (foldl _ _ _) as [[] [|n l]]; simpl in *; done.
Qed.

Lemma join_proper_head n l :
  proper_name n → ∃ c s, join "/" (n :: l) = String c s ∧ Ascii.eqb "/" c = false.
Proof.
  intros (Hne & _ & _ & Hc). destruct n as [|c n]; [done|].
  unfold contains_chr in Hc. simpl in Hc. apply orb_false_iff in Hc as [Hc _].
  destruct l; simpl join; [|rewrite str_app_cons]; eauto.
Qed.

Lemma rev_Forall_proper names : Forall proper_name names → Forall proper_name (rev names).
Proof. intros H. rewrite Forall_forall in *. intros x Hx. apply H, list_elem_of_In, in_rev, list_elem_of_In, Hx. Qed.

Lemma no_slash names s : Forall proper_name names → s ∈ names → contains_chr "/" s = false.
Proof. rewrite Forall_forall. intros H Hs. by destruct (H s Hs) as (_ & _ & _ & ?). Qed.

Lemma components_buf_text out :
  Forall proper_name out.2 → components (buf_text out) = buf_components out.
Proof.
  destruct out as [root names]. simpl. intros Hp%rev_Forall_proper. unfold buf_text, buf_components. simpl.
  destruct (rev names) as [|n l] eqn:Hr; [by destruct root|].
  assert (split_chr "/" (join "/" (n :: l)) = n :: l) as Hsplit.
  { apply (split_join "/"); [done|]. intros s. by apply no_slash. }
  destruct root; simpl app.
  - rewrite str_app_cons, str_app_nil_l. unfold components, is_absolute.
    replace (starts_with "/" (String "/" (join "/" (n :: l)))) with true by done.
    cbn [split_chr]. rewrite Ascii.eqb_refl, Hsplit. f_equal. exact (omap_proper (n :: l) Hp).
  - rewrite str_app_nil_l. apply Forall_cons in Hp as Hp'. destruct Hp' as [Hn _].
    destruct (join_proper_head n l Hn) as (c & s & Hj & Hc).
    unfold components, is_absolute, starts_with. rewrite Hsplit, Hj. cbn [strip_prefix]. rewrite Hc.
    rewrite bool_decide_eq_false_2 by apply Hn. by apply omap_proper.
Qed.

Lemma buf_text_empty out : Forall proper_name out.2 → is_empty (buf_text out) = true ↔ out = (false, []).
Proof.
  destruct out as [[] names]; simpl; intros Hp%rev_Forall_proper; [done|]. unfold buf_text. simpl.
  rewrite str_app_nil_l. destruct (rev names) as [|n l] eqn:Hr.
  - rewrite <- (rev_involutive names), Hr. done.
  - apply Forall_cons in Hp as [Hn _]. destruct (join_proper_head n l Hn) as (c & s & -> & _).
    split; [done|]. intros [= ->]. done.
Qed.

Lemma normalize_components_buf cs :
  proper_components cs → normalize_components cs = buf_text (norm_buf cs).
Proof.
  intros Hcs. pose proof (norm_fold_proper cs (false, []) Hcs (Forall_nil_2 _)) as Hp.
  unfold normalize_components, norm_buf. destruct (foldl _ _ _) as [root names] eqn:Hf. simpl in Hp.
  destruct (is_empty (buf_text (root, names))) eqn:He.
  - apply buf_text_empty in He; [|done]. by injection He as -> ->.
  - destruct root, names; try done.
Qed.

Lemma proper_components_of p : proper_components (components p).
Proof. intros name. apply components_proper. Qed.

Lemma components_normalize cs :
  proper_components cs → components (normalize_components cs) = buf_components (norm_buf cs).
Proof.
  intros Hcs. rewrite normalize_components_buf by done. by apply components_buf_text, norm_buf_proper.
Qed.

Lemma norm_fold_names out names :
  foldl norm_step out (map Normal names) = (out.1, rev names ++ out.2).
Proof.
  revert out. induction names as [|n l IH]; intros [root ns]; simpl; [done|].
  rewrite IH. simpl. by rewrite <- app_assoc.
Qed.

Lemma norm_buf_components cs : norm_buf (buf_components (norm_buf cs)) = norm_buf cs.
Proof.
  assert (norm_buf cs ≠ (false, [])) as Hne.
  { unfold norm_buf. by destruct (foldl _ _ _) as [[] []]. }
  destruct (norm_buf cs) as [root names] eqn:E. unfold norm_buf, buf_components. simpl.
  destruct root; simpl; rewrite norm_fold_names; simpl; rewrite rev_involutive, app_nil_r; [done|].
  by destruct names.
Qed.

Lemma buf_components_proper out : Forall proper_name out.2 → proper_components (buf_components out).
Proof.
  intros Hp%rev_Forall_proper name Hin. unfold buf_components in Hin.
  apply elem_of_app in Hin as [Hin|Hin].
  - destruct out.1; [by apply list_elem_of_singleton in Hin|by apply elem_of_nil in Hin].
  - apply list_elem_of_fmap in Hin as (n & [= ->] & Hn). rewrite Forall_forall in Hp. auto.
Qed.

(** A path and its normal form have the same normal form. *)
Lemma normalize_idem cs :
  proper_components cs → normalize (normalize_components cs) = normalize_components cs.
Proof.
  intros Hcs. unfold normalize. rewrite components_normalize by done.
  rewrite !normalize_components_buf, norm_buf_components; [done|done|].
  by apply buf_components_proper, norm_buf_proper.
Qed.

Lemma catastrophic_normalize p ctx :
  is_catastrophic_target (normalize p) ctx = is_catastrophic_target p ctx.
Proof.
  unfold is_catastrophic_target, is_catastrophic_components.
  pose proof (normalize_idem (components p) (proper_components_of p)) as H.
  unfold normalize in *. by rewrite H.
Qed.
