(* ===== verification/RiskAssess.v ===== *)
(** * Risk assessment and the reflection gate

    crates/jcode-command-risk/src/lib.rs (segments, wrappers, shells, findings), gate.rs
    (what happens to an assessed command) and the seam of the bash tool
    (crates/jcode-app-core/src/tool/bash_destructive_gate.rs). *)

From S2P Require Import Prelude RustStr ShellTokens RiskPaths.

(** ** Levels and assessments *)

Definition level_rank (l : RiskLevel) : nat :=
  match l with Safe => 0 | LowRisk => 1 | Confirm => 2 | Catastrophic => 3 end.

Definition level_max (a b : RiskLevel) : RiskLevel :=
  if level_rank a <=? level_rank b then b else a.

Definition runs_immediately (l : RiskLevel) : bool :=
  match l with Safe | LowRisk => true | _ => false end.

Definition is_absolute_deny (l : RiskLevel) : bool :=
  match l with Catastrophic => true | _ => false end.

Record RiskAssessment := {
  s_level : RiskLevel;
  s_findings : list RiskFinding;
}.

Definition assessment_safe : RiskAssessment := {| s_level := Safe; s_findings := [] |}.

Definition from_findings (findings : list RiskFinding) : RiskAssessment := {|
  s_level := foldl level_max Safe (map f_level findings); s_findings := findings |}.

Definition explain_finding (f : RiskFinding) : string :=
  "- " +:+ f_reason f
  +:+ match f_target f with Some target => " (target: " +:+ target +:+ ")" | None => "" end
  +:+ newline.

Definition explanation (a : RiskAssessment) : string :=
  foldl (λ out f, out +:+ explain_finding f) "" (s_findings a).

(** ** Vocabulary *)

Definition DESTRUCTIVE_COMMANDS : list string :=
  ["rm"; "rmdir"; "shred"; "unlink"; "truncate"; "dd"; "mkfs"; "fdisk"; "parted"; "wipefs"; "srm"].

Definition WRAPPER_COMMANDS : list string :=
  ["sudo"; "doas"; "env"; "nice"; "ionice"; "time"; "timeout"; "nohup"; "xargs"; "command";
   "builtin"; "exec"; "setsid"; "stdbuf"; "chroot"; "su"; "watch"; "eval"].

Definition WRAPPER_FLAGS_WITH_VALUES : list string :=
  ["-n"; "-u"; "-s"; "-c"; "-k"; "--signal"; "--adjustment"; "--user"].

Definition SHELL_COMMANDS : list string := ["sh"; "bash"; "zsh"; "dash"; "ksh"; "fish"].

Definition CONDITIONALLY_DESTRUCTIVE : list (string * list string) :=
  [("find", ["-delete"; "-exec"]); ("git", ["clean"]); ("chmod", ["-R"]); ("chown", ["-R"])].

(** ** Wrappers *)

Definition is_wrapper (t : Token) : bool := mem (basename t) WRAPPER_COMMANDS.

Definition is_digit_or_dot (c : chr) : bool := byte_between 48 57 c || Ascii.eqb c ".".

(** The options, assignments and numbers that belong to the wrapper itself. *)
Fixpoint skip_wrapper_args (rest : list Token) : list Token :=
  match rest with
  | [] => []
  | t :: rest1 =>
      if t_is_operator t || contains_chr "=" (t_text t) then skip_wrapper_args rest1
      else if is_flag t then
        if mem (t_text t) WRAPPER_FLAGS_WITH_VALUES then
          match rest1 with
          | [] => []
          | _ :: rest2 => skip_wrapper_args rest2
          end
        else skip_wrapper_args rest1
      else if all_chr is_digit_or_dot (t_text t) then skip_wrapper_args rest1
      else t :: rest1
  end.

(** The loop that strips wrappers: the program with its arguments, or the last
    wrapper when nothing is left. *)
Fixpoint unwrap_loop (fuel : nat) (tokens : list Token) (wrapped_by : option string)
  : list Token * option string :=
  match fuel with
  | O => (tokens, wrapped_by)
  | S fuel =>
      match tokens with
      | [] => ([], wrapped_by)
      | first :: rest =>
          if negb (is_wrapper first) then (tokens, wrapped_by)
          else unwrap_loop fuel (skip_wrapper_args rest) (Some (basename first))
      end
  end.

Definition unwrap_segment (tokens : list Token) : list Token * option string :=
  unwrap_loop (S (length tokens)) tokens None.

(** ** One segment *)

Definition finding (l : RiskLevel) (reason : string) : RiskFinding := {|
  f_level := l; f_reason := reason; f_target := None |}.

Definition hidden_payload (wrapped_by : option string) : list RiskFinding :=
  match wrapped_by with
  | Some wrapper =>
      [finding Confirm ("`" +:+ wrapper +:+ "` runs another command that could not be identified statically")]
  | None => []
  end.

Definition is_triggered (program_name : string) (tokens : list Token) : bool :=
  if mem program_name DESTRUCTIVE_COMMANDS then true
  else match find (λ p, bool_decide (p.1 = program_name)) CONDITIONALLY_DESTRUCTIVE with
       | Some (_, flags) => existsb (λ t, mem (t_text t) flags) tokens
       | None => false
       end.

Definition redirect_targets (tokens : list Token) : list Token :=
  List.filter t_is_redirect_target tokens.

Definition all_targets (tokens : list Token) : list Token :=
  List.filter (λ t, negb (is_flag t) && negb (t_is_operator t)) (tail tokens)
  ++ redirect_targets tokens.

(** [dd]-style [key=value] operands. *)
Definition operand (text : string) : string :=
  match split_once "=" text with
  | Some (key, value) => if mem key ["of"; "if"; "seek"; "conv"] then value else text
  | None => text
  end.

Definition classify_token (recursive : bool) (ctx : RiskContext) (t : Token) : option RiskFinding :=
  let raw := operand (t_text t) in classify_target (expand raw ctx) raw recursive ctx.

(** The findings of a program that is not a shell. *)
Definition program_findings (program : Token) (tokens : list Token) (ctx : RiskContext)
  : list RiskFinding :=
  let name := basename program in
  let triggered := is_triggered name tokens in
  match triggered, redirect_targets tokens with
  | false, [] => []
  | _, _ =>
      let targets := all_targets tokens in
      let piped :=
        if triggered && t_receives_pipe program then
          [finding Confirm ("`" +:+ name +:+ "` deletes paths supplied by a pipe, so the set of affected files cannot be checked before it runs")]
        else [] in
      if triggered && match targets with [] => true | _ => false end then
        piped ++ [finding Confirm ("`" +:+ name +:+ "` is destructive but its target could not be determined statically, so its blast radius is unknown")]
      else
        let recursive := existsb is_recursive_flag tokens in
        piped ++ omap (classify_token recursive ctx) targets
  end.

(** Concatenation of fuelled results. *)
Fixpoint collect_findings (l : list (option (list RiskFinding))) : option (list RiskFinding) :=
  match l with
  | [] => Some []
  | None :: _ => None
  | Some f :: l => match collect_findings l with Some g => Some (f ++ g) | None => None end
  end.

(** The scripts a shell is given: its words that are not flags. *)
Definition shell_scripts (args : list Token) : list string :=
  map t_text (List.filter (λ t, negb (is_flag t)) args).

(** [None] when the fuel does not cover the nesting of shell scripts. *)
Fixpoint assess_segment (fuel : nat) (tokens : list Token) (ctx : RiskContext)
  : option (list RiskFinding) :=
  match fuel with
  | O => None
  | S fuel =>
      let '(tokens, wrapped_by) := unwrap_segment tokens in
      match tokens with
      | [] => Some (hidden_payload wrapped_by)
      | program :: args =>
          if mem (basename program) SHELL_COMMANDS then
            collect_findings
              (map (λ segment, assess_segment fuel segment ctx)
                 (flat_map split_segments (shell_scripts args)))
          else Some (program_findings program (program :: args) ctx)
      end
  end.

(** A shell script is shorter than the segment that contains it. *)
Definition segment_fuel (tokens : list Token) : nat := S (text_size tokens).

Definition segment_findings (ctx : RiskContext) (tokens : list Token) : option (list RiskFinding) :=
  assess_segment (segment_fuel tokens) tokens ctx.

Definition assess_findings (command : string) (ctx : RiskContext) : option (list RiskFinding) :=
  collect_findings (map (segment_findings ctx) (split_segments command)).

Definition assess (command : string) (ctx : RiskContext) : RiskAssessment :=
  match default [] (assess_findings command ctx) with
  | [] => assessment_safe
  | findings => from_findings findings
  end.

(** ** The gate *)

Inductive GateOutcome := Allow | Reflect (prompt : string) | Deny (reason : string).

Definition MIN_JUSTIFICATION_LEN : nat := 25.

Definition EMPTY_AFFIRMATIONS : list string :=
  ["yes"; "ok"; "okay"; "sure"; "confirmed"; "proceed"; "do it"; "continue"; "y"; "approved"; "go ahead"].

(** [to_lowercase] as far as a comparison with ASCII words can see it: besides the
    ASCII letters only the Kelvin sign has an ASCII lower case. *)
Fixpoint lower_to_ascii (s : string) : string :=
  match s with
  | EmptyString => EmptyString
  | String a r1 =>
      match r1 with
      | String b (String c r3) =>
          if is_byte 226 a && is_byte 132 b && is_byte 170 c then String "k" (lower_to_ascii r3)
          else String (lower_chr a) (lower_to_ascii r1)
      | _ => String (lower_chr a) (lower_to_ascii r1)
      end
  end.

(** [trim_end_matches(['.', '!', '?'])]. *)
Definition is_end_mark (c : chr) : bool := Ascii.eqb c "." || Ascii.eqb c "!" || Ascii.eqb c "?".

Definition trim_end_marks (s : string) : string :=
  String.rev (snd (span_chr is_end_mark (String.rev s))).

Definition is_substantive (justification : option string) : bool :=
  match trim <$> justification with
  | None => false
  | Some text =>
      if String.length text <? MIN_JUSTIFICATION_LEN then false
      else negb (mem (trim (trim_end_marks (lower_to_ascii text))) EMPTY_AFFIRMATIONS)
  end.

Definition deny_reason (a : RiskAssessment) : string :=
  "This command is blocked and cannot be confirmed." +:+ newline +:+ newline +:+ explanation a +:+ newline
  +:+ "If the user genuinely wants this, they must run it themselves outside the agent.".

Definition reflection_prompt (a : RiskAssessment) : string :=
  "This command was not run. It is irreversible:" +:+ newline +:+ newline +:+ explanation a +:+ newline
  +:+ "Before it can proceed, stop and check it against the user's actual request:" +:+ newline
  +:+ "- Which specific thing the user asked for requires deleting this?" +:+ newline
  +:+ "- Did the user name this path, or did you infer it?" +:+ newline
  +:+ "- If you inferred it, is a narrower target enough?" +:+ newline
  +:+ "- If this is wrong, nothing here can be recovered." +:+ newline +:+ newline
  +:+ "If it is genuinely what the user asked for, re-issue the same call with a `justification` field explaining which request it serves. If you are not sure, ask the user instead: that costs one message, and being wrong costs their data.".

Definition gate (a : RiskAssessment) (justification : option string) : GateOutcome :=
  match s_level a with
  | Safe | LowRisk => Allow
  | Catastrophic => Deny (deny_reason a)
  | Confirm =>
      if is_substantive justification then Allow else Reflect (reflection_prompt a)
  end.

(** The refusal text of the bash tool, or [None] when the command may run; the home
    directory comes from the environment. *)
Definition destructive_command_refusal (home : option string) (command : string)
  (justification working_dir : option string) : option string :=
  let ctx := {| x_working_dir := working_dir;
                x_home_dir := match home with
                              | Some h => if is_empty h then None else Some h
                              | None => None
                              end |} in
  let a := assess command ctx in
  if runs_immediately (s_level a) then None
  else match gate a justification with
       | Allow => None
       | Deny reason => Some reason
       | Reflect prompt => Some prompt
       end.
