(* ===== verification/RiskTheorems.v ===== *)
(** * What the command gate guarantees

    Properties of the tokenizer, the path policy, the assessor and the gate, each with
    a concrete instance, and the inputs on which the gate does not do what its
    documentation says. *)

From S2P Require Import Prelude RustStr ShellTokens RiskPaths RiskAssess.

(** ** Levels *)

Lemma level_max_rank a b : level_rank (level_max a b) = Nat.max (level_rank a) (level_rank b).
Proof. by destruct a, b. Qed.

Lemma foldl_level_max ls l :
  level_rank l ≤ level_rank (foldl level_max l ls) ∧
  (∀ x, x ∈ ls → level_rank x ≤ level_rank (foldl level_max l ls)) ∧
  (foldl level_max l ls = l ∨ foldl level_max l ls ∈ ls).
Proof.
  revert l. induction ls as [|x ls IH]; intros l; simpl.
  { split; [done|]. split; [|by left]. intros x H. by apply elem_of_nil in H. }
  destruct (IH (level_max l x)) as (H1 & H2 & H3). rewrite level_max_rank in H1. split; [lia|]. split.
  - intros y [->|Hy]%elem_of_cons; [lia|auto].
  - destruct H3 as [H3|H3]; [|right; by right]. rewrite H3. unfold level_max.
    destruct (_ <=? _); [right; by left|by left].
Qed.

Lemma level_rank_inj a b : level_rank a = level_rank b → a = b.
Proof. by destruct a, b. Qed.

(** The level of an assessment is the highest level among its findings. *)
Lemma assess_level command ctx findings :
  assess_findings command ctx = Some findings →
  s_findings (assess command ctx) = findings ∧
  (∀ f, f ∈ findings → level_rank (f_level f) ≤ level_rank (s_level (assess command ctx))) ∧
  (s_level (assess command ctx) = Safe ∨ ∃ f, f ∈ findings ∧ f_level f = s_level (assess command ctx)).
Proof.
  intros H. unfold assess. rewrite H. simpl. destruct findings as [|f0 fs] eqn:Hf.
  { split; [done|]. split; [|by left]. intros f Hin. by apply elem_of_nil in Hin. }
  rewrite <- Hf. unfold from_findings. cbn [s_level s_findings].
  destruct (foldl_level_max (map f_level findings) Safe) as (_ & H2 & H3).
  split; [done|]. split.
  - intros f Hin. apply H2, list_elem_of_fmap. eauto.
  - destruct H3 as [H3|H3]; [by left|]. right.
    apply list_elem_of_fmap in H3 as (f & Hl & Hin). eauto.
Qed.

(** ** Termination *)

Lemma collect_findings_total l :
  (∀ o, o ∈ l → is_Some o) → is_Some (collect_findings l).
Proof.
  induction l as [|o l IH]; intros Hall; simpl; [eauto|].
  destruct (Hall o) as [f ->]; [by left|]. destruct IH as [g ->]; [|eauto].
  intros. apply Hall. by right.
Qed.

Lemma elem_of_collect l findings f :
  collect_findings l = Some findings →
  f ∈ findings ↔ ∃ fs, Some fs ∈ l ∧ f ∈ fs.
Proof.
  revert findings. induction l as [|[fs|] l IH]; intros findings H; simpl in H; [..|done].
  - simplify_eq. split; [intros Hf; by apply elem_of_nil in Hf|]. intros (fs & Hl%elem_of_nil & _). done.
  - destruct (collect_findings l) as [g|]; [|done]. simplify_eq.
    rewrite elem_of_app, (IH g) by done. setoid_rewrite elem_of_cons. naive_solver.
Qed.

Lemma skip_wrapper_suffix rest : ∃ pre, rest = pre ++ skip_wrapper_args rest.
Proof.
  remember (length rest) as n eqn:Hn. revert rest Hn.
  induction (lt_wf n) as [n _ IH]. intros rest ->.
  destruct rest as [|t rest1]; [by exists []|]. cbn [skip_wrapper_args].
  assert (∀ r, length r < length (t :: rest1) → ∃ pre, r = pre ++ skip_wrapper_args r) as Hrec
    by (intros r Hr; by eapply IH).
  assert (∃ pre, t :: rest1 = pre ++ skip_wrapper_args rest1) as Hone.
  { destruct (Hrec rest1) as [pre Hpre]; [simpl; lia|]. exists (t :: pre). simpl. by f_equal. }
  destruct (t_is_operator t || _); [done|]. destruct (is_flag t).
  - destruct (mem _ _); [|done]. destruct rest1 as [|u rest2]; [by exists [t]|].
    destruct (Hrec rest2) as [pre Hpre]; [simpl; lia|]. exists (t :: u :: pre). simpl. by do 2 f_equal.
  - destruct (all_chr _ _); [done|]. by exists [].
Qed.

Lemma unwrap_loop_suffix fuel tokens w : ∃ pre, tokens = pre ++ (unwrap_loop fuel tokens w).1.
Proof.
  revert tokens w. induction fuel as [|fuel IH]; intros tokens w; simpl; [by exists []|].
  destruct tokens as [|t rest]; [by exists []|]. destruct (is_wrapper t); simpl; [|by exists []].
  destruct (skip_wrapper_suffix rest) as [pre1 H1].
  destruct (IH (skip_wrapper_args rest) (Some (basename t))) as [pre2 H2].
  exists (t :: pre1 ++ pre2). simpl. f_equal. rewrite <- app_assoc, <- H2. done.
Qed.

Lemma unwrap_size tokens : text_size (unwrap_segment tokens).1 ≤ text_size tokens.
Proof.
  unfold unwrap_segment. destruct (unwrap_loop_suffix (S (length tokens)) tokens None) as [pre H].
  apply (f_equal text_size) in H. rewrite text_size_app in H. lia.
Qed.

Lemma script_size args script : script ∈ shell_scripts args → String.length script ≤ text_size args.
Proof.
  unfold shell_scripts. intros (t & -> & [Ht _]%elem_of_filterb)%list_elem_of_fmap.
  apply list_elem_of_split in Ht as (l1 & l2 & ->). rewrite text_size_app. unfold text_size at 2.
  simpl. lia.
Qed.

(** A program whose name is a shell has a name that is not empty. *)
Lemma shell_text_size program :
  mem (basename program) SHELL_COMMANDS = true → 0 < String.length (t_text program).
Proof.
  intros H. destruct program as [[|c s] p r o]; [|simpl; lia]. by vm_compute in H.
Qed.

Lemma nested_size program args seg :
  mem (basename program) SHELL_COMMANDS = true →
  seg ∈ flat_map split_segments (shell_scripts args) → text_size seg < text_size (program :: args).
Proof.
  intros Hs (script & Hscript & Hseg)%list_elem_of_In%in_flat_map.
  apply list_elem_of_In in Hscript, Hseg.
  apply split_segments_size in Hseg. apply script_size in Hscript. apply shell_text_size in Hs.
  unfold text_size in *. simpl. lia.
Qed.

Lemma assess_segment_total fuel tokens ctx :
  text_size tokens < fuel → is_Some (assess_segment fuel tokens ctx).
Proof.
  revert tokens. induction fuel as [|fuel IH]; intros tokens Hf; [lia|]. cbn [assess_segment].
  pose proof (unwrap_size tokens) as Hu. destruct (unwrap_segment tokens) as [[|program args] w]; [eauto|].
  simpl fst in Hu. destruct (mem (basename program) SHELL_COMMANDS) eqn:Hs; [|eauto].
  apply collect_findings_total. intros o (seg & -> & Hseg)%list_elem_of_fmap.
  apply IH. apply (nested_size program args seg) in Hseg; [|done]. lia.
Qed.

(** More fuel gives the same findings. *)
Lemma assess_segment_fuel fuel fuel' tokens ctx :
  text_size tokens < fuel → text_size tokens < fuel' →
  assess_segment fuel tokens ctx = assess_segment fuel' tokens ctx.
Proof.
  revert fuel' tokens. induction fuel as [|fuel IH]; intros fuel' tokens H1 H2; [lia|].
  destruct fuel' as [|fuel']; [lia|]. cbn [assess_segment].
  pose proof (unwrap_size tokens) as Hu. destruct (unwrap_segment tokens) as [[|program args] w]; [done|].
  simpl fst in Hu. destruct (mem (basename program) SHELL_COMMANDS) eqn:Hs; [|done].
  f_equal. apply map_ext_in. intros seg Hseg%list_elem_of_In.
  apply (nested_size program args seg) in Hseg; [|done]. apply IH; lia.
Qed.

Lemma segment_findings_total ctx seg : is_Some (segment_findings ctx seg).
Proof. apply assess_segment_total. unfold segment_fuel. lia. Qed.

Lemma assess_findings_total command ctx : is_Some (assess_findings command ctx).
Proof.
  apply collect_findings_total. intros o (seg & -> & _)%list_elem_of_fmap. apply segment_findings_total.
Qed.

(** Every finding of every segment is in the assessment. *)
Lemma finding_in_assessment command ctx seg fs f :
  seg ∈ split_segments command → segment_findings ctx seg = Some fs → f ∈ fs →
  level_rank (f_level f) ≤ level_rank (s_level (assess command ctx)).
Proof.
  intros Hseg Hfs Hf. destruct (assess_findings_total command ctx) as [findings Hall].
  destruct (assess_level command ctx findings Hall) as (_ & Hmax & _). apply Hmax.
  eapply elem_of_collect; [exact Hall|]. exists fs. split; [|done].
  apply list_elem_of_fmap. eauto.
Qed.

(** The assessor is total: shell scripts nested in shell scripts
    are unfolded to any depth within the fuel the model gives, more fuel changes
    nothing, and the verdict is the highest level found, in any segment. *)
Theorem assessment_is_total_and_maximal command ctx :
  ∃ findings, assess_findings command ctx = Some findings ∧
    s_findings (assess command ctx) = findings ∧
    (∀ f, f ∈ findings → level_rank (f_level f) ≤ level_rank (s_level (assess command ctx))) ∧
    (s_level (assess command ctx) = Safe ∨
     ∃ f, f ∈ findings ∧ f_level f = s_level (assess command ctx)) ∧
    (∀ seg fuel, seg ∈ split_segments command → segment_fuel seg ≤ fuel →
       assess_segment fuel seg ctx = segment_findings ctx seg).
Proof.
  destruct (assess_findings_total command ctx) as [findings Hall]. exists findings.
  destruct (assess_level command ctx findings Hall) as (H1 & H2 & H3). repeat split; try done.
  intros seg fuel _ Hf. apply assess_segment_fuel; unfold segment_fuel in *; lia.
Qed.

Definition sample_ctx : RiskContext := {|
  x_working_dir := Some "/home/u/proj"; x_home_dir := Some "/home/u" |}.

(** A script inside a script, behind a wrapper. *)
Example nested_scripts_are_unfolded :
  s_level (assess "echo hi && sudo bash -c 'sh -c rm\ -rf\ ~'" sample_ctx) = Catastrophic.
Proof. vm_compute. reflexivity. Qed.

(** ** What a segment destroys *)

(** The words a command segment destroys: the operands of a program that deletes
    (always, or because of one of its flags) and the files a redirect truncates. *)
Definition destroys (program : Token) (args : list Token) (t : Token) : bool :=
  is_triggered (basename program) (program :: args)
  && bool_decide (t ∈ args) && negb (is_flag t) && negb (t_is_operator t)
  || bool_decide (t ∈ args) && t_is_redirect_target t.

(** The segments that a command runs: its own, and, at any depth, those of the words that it
    gives to a shell. *)
Inductive runs_segment (command : string) : list Token → Prop :=
  | runs_own seg : seg ∈ split_segments command → runs_segment command seg
  | runs_script seg shell args script inner :
      runs_segment command seg → (unwrap_segment seg).1 = shell :: args → mem (basename shell) SHELL_COMMANDS = true →
      script ∈ shell_scripts args → inner ∈ split_segments script →
      runs_segment command inner.

(** What a segment of a script reports, the segment of the shell reports. *)
Lemma script_findings ctx seg shell args script inner gs f :
  (unwrap_segment seg).1 = shell :: args → mem (basename shell) SHELL_COMMANDS = true →
  script ∈ shell_scripts args → inner ∈ split_segments script → segment_findings ctx inner = Some gs → f ∈ gs →
  ∃ hs, segment_findings ctx seg = Some hs ∧ f ∈ hs.
Proof.
  intros Hu Hs Hscript Hinner Hgs Hf. destruct (segment_findings_total ctx seg) as [hs Hhs]. exists hs. split; [done|].
  unfold segment_findings, segment_fuel in Hhs. cbn [assess_segment] in Hhs.
  pose proof (unwrap_size seg) as Hsize.
  destruct (unwrap_segment seg) as [tokens w]. simpl in Hu, Hsize. subst tokens. rewrite Hs in Hhs.
  assert (inner ∈ flat_map split_segments (shell_scripts args)) as Hin.
  { apply list_elem_of_In, in_flat_map. exists script. by rewrite <- !list_elem_of_In. }
  apply (elem_of_collect _ _ f) in Hhs. apply Hhs. exists gs. split; [|done].
  apply list_elem_of_fmap. exists inner. split; [|done].
  pose proof (nested_size shell args inner Hs Hin). unfold segment_findings in Hgs. rewrite <-Hgs.
  apply assess_segment_fuel; unfold segment_fuel; lia.
Qed.

(** Every finding of every segment that a command runs is in its assessment. *)
Lemma finding_of_run command ctx seg fs f :
  runs_segment command seg → segment_findings ctx seg = Some fs → f ∈ fs →
  level_rank (f_level f) ≤ level_rank (s_level (assess command ctx)).
Proof.
  intros Hr. revert fs. induction Hr as [seg Hseg|seg shell args script inner _ IH Hu Hs Hscript Hinner]; intros fs Hfs Hf.
  - by eapply finding_in_assessment.
  - destruct (script_findings ctx seg shell args script inner fs f) as (hs & Hhs & Hin); [done..|]. by eapply IH.
Qed.

Lemma destroys_target program args t :
  destroys program args t = true →
  t ∈ all_targets (program :: args) ∧
  (is_triggered (basename program) (program :: args) = true ∨ redirect_targets (program :: args) ≠ []).
Proof.
  unfold destroys, all_targets. intros H.
  apply orb_true_iff in H as [H|H]; rewrite !andb_true_iff, bool_decide_eq_true in H.
  - destruct H as [[[Htr Ht] Hflag] Hop]. split; [|by left].
    apply elem_of_app. left. apply elem_of_filterb. simpl. by rewrite Hflag, Hop.
  - destruct H as [Ht Hr].
    assert (t ∈ redirect_targets (program :: args)) as Hin
      by (apply elem_of_filterb; split; [by right|done]).
    split; [by apply elem_of_app; right|]. right. intros Hnil. rewrite Hnil in Hin.
    by apply elem_of_nil in Hin.
Qed.

(** What a segment reports about one word it destroys. *)
Lemma destroyed_operand ctx seg program args t :
  (unwrap_segment seg).1 = program :: args → mem (basename program) SHELL_COMMANDS = false → destroys program args t = true →
  ∃ fs, segment_findings ctx seg = Some fs ∧
    ∀ f, classify_token (existsb is_recursive_flag (program :: args)) ctx t = Some f → f ∈ fs.
Proof.
  intros Hu Hsh Hd. destruct (destroys_target _ _ _ Hd) as (Hin & Htr).
  unfold segment_findings, segment_fuel. cbn [assess_segment].
  destruct (unwrap_segment seg) as [tokens w]. simpl in Hu. subst tokens.
  rewrite Hsh. eexists. split; [done|]. intros f Hf. unfold program_findings.
  destruct (all_targets (program :: args)) as [|u us] eqn:Hts; [by apply elem_of_nil in Hin|].
  rewrite andb_false_r.
  assert (f ∈ omap (classify_token (existsb is_recursive_flag (program :: args)) ctx) (u :: us))
    by (apply list_elem_of_omap; eauto).
  destruct (is_triggered _ _), (redirect_targets _); try (apply elem_of_app; by right).
  by destruct Htr.
Qed.

Definition tool_context (home working_dir : option string) : RiskContext := {|
  x_working_dir := working_dir;
  x_home_dir := match home with
                | Some h => if is_empty h then None else Some h
                | None => None
                end |}.

Lemma catastrophic_refused home command justification working_dir :
  s_level (assess command (tool_context home working_dir)) = Catastrophic →
  destructive_command_refusal home command justification working_dir
  = Some (deny_reason (assess command (tool_context home working_dir))).
Proof.
  intros H. unfold destructive_command_refusal. fold (tool_context home working_dir).
  unfold gate. by rewrite H.
Qed.

Lemma classified_refused home command justification working_dir seg program args t :
  let ctx := tool_context home working_dir in
  runs_segment command seg → (unwrap_segment seg).1 = program :: args → mem (basename program) SHELL_COMMANDS = false →
  destroys program args t = true →
  (∀ recursive, f_level <$> classify_token recursive ctx t = Some Catastrophic) →
  destructive_command_refusal home command justification working_dir
  = Some (deny_reason (assess command ctx)).
Proof.
  intros ctx Hseg Hu Hsh Hd Hcat. apply catastrophic_refused. fold ctx.
  destruct (destroyed_operand ctx seg program args t Hu Hsh Hd) as (fs & Hfs & Hin).
  specialize (Hcat (existsb is_recursive_flag (program :: args))).
  apply fmap_Some in Hcat as (f & Hf & Hl).
  pose proof (finding_of_run command ctx seg fs f Hseg Hfs (Hin f Hf)) as Hle.
  rewrite <- Hl in Hle. by destruct (s_level (assess command ctx)); simpl in Hle; [lia..|].
Qed.



(** A command that runs without a question destroys nothing outside the
    workspace: every word that one of its segments deletes or truncates has no glob and
    no runtime part, is not protected, and lies inside the working directory or in a
    temporary directory. *)
Theorem unquestioned_deletes_stay_local command ctx seg program args t :
  runs_immediately (s_level (assess command ctx)) = true →
  runs_segment command seg → (unwrap_segment seg).1 = program :: args → mem (basename program) SHELL_COMMANDS = false →
  destroys program args t = true →
  let raw := operand (t_text t) in
  let path := expand raw ctx in
  has_glob raw = false ∧ is_computed raw = false ∧ is_catastrophic_target path ctx = false ∧
  (inside_cwd path ctx = true ∨ is_temp_path path = true).
Proof.
  intros Hrun Hseg Hu Hsh Hd raw path.
  destruct (destroyed_operand ctx seg program args t Hu Hsh Hd) as (fs & Hfs & Hin).
  assert (∀ f, classify_token (existsb is_recursive_flag (program :: args)) ctx t = Some f →
    level_rank (f_level f) ≤ 1) as Hlow.
  { intros f Hf. pose proof (finding_of_run command ctx seg fs f Hseg Hfs (Hin f Hf)) as Hle.
    destruct (s_level (assess command ctx)); simpl in *; try done; lia. }
  unfold classify_token in Hlow. fold raw in Hlow. fold path in Hlow. unfold classify_target in Hlow.
  destruct (has_glob raw).
  { destruct (glob_of_protected path ctx); specialize (Hlow _ eq_refl); simpl in Hlow; lia. }
  destruct (is_catastrophic_target path ctx); [specialize (Hlow _ eq_refl); simpl in Hlow; lia|].
  destruct (is_computed raw); [specialize (Hlow _ eq_refl); simpl in Hlow; lia|].
  destruct (_ && negb _ && negb _ && negb _); [specialize (Hlow _ eq_refl); simpl in Hlow; lia|].
  destruct (inside_cwd path ctx); [auto|]. destruct (is_temp_path path); [auto|].
  specialize (Hlow _ eq_refl). simpl in Hlow. lia.
Qed.

Lemma unquestioned_deletes_stay_local_witness :
  inside_cwd (expand "./build/../target" sample_ctx) sample_ctx = true ∨
  is_temp_path (expand "./build/../target" sample_ctx) = true.
Proof.
  apply (unquestioned_deletes_stay_local "make; rm -r ./build/../target" sample_ctx
    [word "rm"; word "-r"; word "./build/../target"] (word "rm") [word "-r"; word "./build/../target"]
    (word "./build/../target")).
  - vm_compute. reflexivity.
  - apply runs_own, (bool_decide_unpack _). vm_compute. exact I.
  - vm_compute. reflexivity.
  - vm_compute. reflexivity.
  - vm_compute. reflexivity.
Defined.

(** ** Wrappers and shells *)

Lemma unwrap_loop_program fuel program args w :
  is_wrapper program = false → unwrap_loop (S fuel) (program :: args) w = (program :: args, w).
Proof. intros H. simpl. by rewrite H. Qed.

(** [w] options program: the options are the wrapper's own words. *)
Lemma skip_wrapper_program program args :
  t_is_operator program = false → contains_chr "=" (t_text program) = false →
  is_flag program = false → all_chr is_digit_or_dot (t_text program) = false →
  skip_wrapper_args (program :: args) = program :: args.
Proof. intros H1 H2 H3 H4. simpl. by rewrite H1, H2, H3, H4. Qed.

(** Wrappers are transparent: putting any number of wrapper
    programs in front of a command changes none of its findings, as long as the
    command starts with a program word (not a flag, number, assignment or operator). *)
Theorem wrappers_are_transparent ctx wrappers program args :
  Forall (λ w, is_wrapper w = true ∧ t_is_operator w = false ∧ contains_chr "=" (t_text w) = false ∧
     is_flag w = false ∧ all_chr is_digit_or_dot (t_text w) = false) wrappers →
  is_wrapper program = false → t_is_operator program = false →
  contains_chr "=" (t_text program) = false → is_flag program = false →
  all_chr is_digit_or_dot (t_text program) = false →
  segment_findings ctx (wrappers ++ program :: args) = segment_findings ctx (program :: args).
Proof.
  intros Hws Hw Hop Heq Hflag Hnum.
  assert (∀ fuel w, length wrappers < fuel →
    (unwrap_loop fuel (wrappers ++ program :: args) w).1 = program :: args) as Hloop.
  { induction Hws as [|w ws (Hw1 & _) Hws IH]; intros fuel w0 Hf.
    - destruct fuel as [|fuel]; [simpl in Hf; lia|]. simpl app. by rewrite unwrap_loop_program.
    - destruct fuel as [|fuel]; [simpl in Hf; lia|]. simpl. rewrite Hw1. simpl.
      assert (skip_wrapper_args (ws ++ program :: args) = ws ++ program :: args) as ->.
      { destruct Hws as [|v vs (_ & Hv1 & Hv2 & Hv3 & Hv4) _]; apply skip_wrapper_program; done. }
      apply IH. simpl in Hf. lia. }
  assert (∀ seg, (unwrap_segment seg).1 = program :: args → text_size (program :: args) ≤ text_size seg →
    segment_findings ctx seg = assess_segment (S (text_size seg)) (program :: args) ctx) as Hseg.
  { intros seg Hu _. unfold segment_findings, segment_fuel. cbn [assess_segment].
    unfold unwrap_segment at 2. rewrite unwrap_loop_program by done.
    destruct (unwrap_segment seg) as [tokens w]. simpl in Hu. by subst tokens. }
  rewrite (Hseg (wrappers ++ program :: args)).
  - unfold segment_findings, segment_fuel. apply assess_segment_fuel; [|lia].
    rewrite text_size_app. lia.
  - unfold unwrap_segment. apply Hloop. rewrite length_app. simpl. lia.
  - rewrite text_size_app. lia.
Qed.

Lemma wrappers_are_transparent_witness :
  segment_findings sample_ctx [word "sudo"; word "nice"; word "rm"; word "-rf"; word "/etc"]
  = segment_findings sample_ctx [word "rm"; word "-rf"; word "/etc"].
Proof.
  apply (wrappers_are_transparent sample_ctx [word "sudo"; word "nice"] (word "rm") [word "-rf"; word "/etc"]).
  - repeat constructor; vm_compute; reflexivity.
  - vm_compute. reflexivity.
  - vm_compute. reflexivity.
  - vm_compute. reflexivity.
  - vm_compute. reflexivity.
  - vm_compute. reflexivity.
Defined.

(** An inline script is no hiding place: everything found in a script
    given to a shell (behind any wrappers) is found in the command that runs the
    shell, so its level is at least that of the script run directly. *)
Theorem inline_scripts_are_assessed ctx command seg shell args script :
  seg ∈ split_segments command → (unwrap_segment seg).1 = shell :: args →
  mem (basename shell) SHELL_COMMANDS = true → script ∈ shell_scripts args →
  level_rank (s_level (assess script ctx)) ≤ level_rank (s_level (assess command ctx)).
Proof.
  intros Hseg Hu Hs Hscript.
  destruct (assess_findings_total script ctx) as [fs Hfs].
  destruct (assess_level script ctx fs Hfs) as (_ & _ & [Hsafe|(f & Hf & Hl)]); [rewrite Hsafe; simpl; lia|].
  rewrite <- Hl. apply (elem_of_collect _ _ f) in Hfs. apply Hfs in Hf as (gs & Hgs & Hf).
  apply list_elem_of_fmap in Hgs as (inner & Hgs & Hinner).
  destruct (script_findings ctx seg shell args script inner gs f) as (hs & Hhs & Hin); [done..|].
  by eapply finding_in_assessment.
Qed.

Lemma inline_scripts_are_assessed_witness :
  level_rank (s_level (assess "rm -rf ~" sample_ctx))
  ≤ level_rank (s_level (assess "env sh -c 'rm -rf ~'" sample_ctx)).
Proof.
  apply (inline_scripts_are_assessed sample_ctx "env sh -c 'rm -rf ~'"
    [word "env"; word "sh"; word "-c"; word "rm -rf ~"] (word "sh") [word "-c"; word "rm -rf ~"]).
  - apply (bool_decide_unpack _). vm_compute. exact I.
  - vm_compute. reflexivity.
  - vm_compute. reflexivity.
  - apply (bool_decide_unpack _). vm_compute. exact I.
Defined.

(** ** Paths *)

(** Normalization removes every [.], [..] and repeated slash: the
    result consists of an optional root followed by proper names, normalizing again
    changes nothing, and a path is protected exactly when its normal form is. *)
Theorem normalize_is_canonical path ctx :
  (∃ root names, components (normalize path) = (if root : bool then [RootDir] else []) ++ map Normal names ∧
     Forall proper_name names) ∧
  normalize (normalize path) = normalize path ∧
  is_catastrophic_target (normalize path) ctx = is_catastrophic_target path ctx.
Proof.
  pose proof (proper_components_of path) as Hp. split; [|split].
  - exists (norm_buf (components path)).1, (rev (norm_buf (components path)).2). split.
    + unfold normalize. by rewrite components_normalize.
    + by apply rev_Forall_proper, norm_buf_proper.
  - by apply normalize_idem.
  - apply catastrophic_normalize.
Qed.

(** ** The gate *)

(** The gate cannot be worn down: it lets a command run only when its
    level is at most low, or it needs confirmation and comes with a substantive
    justification; a protected target is denied with any justification; a missing
    justification or one of fewer than 25 bytes never helps. *)
Theorem gate_is_not_satisfied_by_repetition a justification :
  (gate a justification = Allow ↔
     runs_immediately (s_level a) = true ∨
     s_level a = Confirm ∧ is_substantive justification = true) ∧
  (s_level a = Catastrophic → gate a justification = Deny (deny_reason a)) ∧
  (is_substantive justification = true →
     ∃ text, justification = Some text ∧ MIN_JUSTIFICATION_LEN ≤ String.length (trim text)).
Proof.
  split; [|split].
  - unfold gate. destruct (s_level a); simpl; try (destruct (is_substantive justification)); naive_solver.
  - intros H. unfold gate. by rewrite H.
  - unfold is_substantive. destruct justification as [text|]; [|done]. simpl.
    destruct (_ <? _) eqn:Hlen; [done|]. intros _. exists text. split; [done|].
    apply Nat.ltb_ge in Hlen. done.
Qed.

(** ** Where the gate differs from its documentation *)

Lemma devices_protected p ctx :
  path_starts_with (normalize p) "/dev" = true → is_catastrophic_target (normalize p) ctx = true.
Proof.
  intros H. rewrite catastrophic_normalize. unfold is_catastrophic_target, is_catastrophic_components.
  fold (normalize p). destruct (existsb _ PROTECTED_SYSTEM_PATHS); [done|].
  assert (existsb (λ q, path_starts_with (normalize p) q) SYSTEM_PATHS_PROTECTED_RECURSIVELY = true)
    as ->; [|done].
  apply existsb_exists. exists "/dev". split; [|done]. simpl. auto.
Qed.

(** The exemption of the null device is unreachable: every path inside
    [/dev] is protected recursively before the device test is reached, so a command
    with a segment (of a program that is not a shell) that redirects its output to the
    null device is refused permanently, like an overwritten disk. *)
Theorem null_device_is_denied home working_dir justification :
  (∀ p ctx, path_starts_with (normalize p) "/dev" = true → is_catastrophic_target (normalize p) ctx = true) ∧
  (∀ command seg program args t,
     seg ∈ split_segments command → (unwrap_segment seg).1 = program :: args →
     mem (basename program) SHELL_COMMANDS = false →
     t ∈ args → t_is_redirect_target t = true → t_text t = "/dev/null" →
     destructive_command_refusal home command justification working_dir
     = Some (deny_reason (assess command (tool_context home working_dir)))) ∧
  destructive_command_refusal (Some "/home/u") "make > /dev/null" justification (Some "/home/u/proj")
  = Some (deny_reason (assess "make > /dev/null" sample_ctx)).
Proof.
  split; [exact devices_protected|]. split.
  - intros command seg program args t Hseg Hu Hsh Ht Hr Htext.
    eapply classified_refused; [by apply runs_own|done|done| |].
    + unfold destroys. rewrite Hr, (bool_decide_eq_true_2 _ Ht). simpl. by rewrite orb_true_r.
    + intros recursive. unfold classify_token. rewrite Htext.
      destruct home as [[|]|]; vm_compute; reflexivity.
  - apply catastrophic_refused. vm_compute. reflexivity.
Qed.

(** A background operator, an assignment in front of the program, a
    subshell or a shell's own redirect hides a destructive command: each of these
    lines deletes or truncates a protected path and is assessed as safe. *)
Theorem unseparated_commands_escape :
  map (λ c, s_level (assess c sample_ctx))
    ["sleep 1 & rm -rf ~"; "LANG=C rm -rf ~"; "(rm -rf ~)"; "bash x.sh > ~/.ssh/id_ed25519"]
  = [Safe; Safe; Safe; Safe] ∧
  map (λ c, s_level (assess c sample_ctx))
    ["sleep 1 && rm -rf ~"; "env LANG=C rm -rf ~"; "rm -rf ~"; "cat x > ~/.ssh/id_ed25519"]
  = [Catastrophic; Catastrophic; Catastrophic; Catastrophic].
Proof. split; vm_compute; reflexivity. Qed.
