(* ===== verification/Claims.v ===== *)
(** * The claim ledger

    Typed claims (crates/jcode-claims/src/types.rs), the verifiers that decide them
    (crates/jcode-verifiers/src/lib.rs), the pipeline that turns a claim into a verdict
    and a receipt (pipeline.rs), and the hash-chained log of receipts (ledger.rs).

    Outside the source: the processes a verifier starts ([run_command], which reads
    and changes a world), the JSON rendering of a result, the hash and the clock. A
    slice at a byte that is not a character boundary panics; the operations that
    slice return [None] there. *)

From S2P Require Import Prelude RustStr.

(** ** types.rs *)

Inductive ClaimVerdict := Certified | Refuted | RefusedNoVerifier | RefusedUnresolved | Ungrounded.

#[export] Instance ClaimVerdict_eq_dec : EqDecision ClaimVerdict.
Proof. solve_decision. Defined.

Definition verdict_as_str (v : ClaimVerdict) : string :=
  match v with
  | Certified => "CERTIFIED" | Refuted => "REFUTED"
  | RefusedNoVerifier => "REFUSED_NO_VERIFIER" | RefusedUnresolved => "REFUSED_UNRESOLVED"
  | Ungrounded => "UNGROUNDED"
  end.

Definition is_integrity_success (v : ClaimVerdict) : bool :=
  match v with Refuted => false | _ => true end.

Definition is_refuted (v : ClaimVerdict) : bool := match v with Refuted => true | _ => false end.

Inductive ClaimKind :=
  | FilesChanged (declared : gset string) (base : option string)
  | BuildPasses (command : list string)
  | TestsPass (command : list string)
  | PerformanceFaster (note : option string)
  | MatchesSpec (note : option string)
  | SecureNow (note : option string)
  | MoreIdiomatic (note : option string)
  | Prose (text : string).

Record ClaimInput := {
  ci_id : string;
  ci_kind : ClaimKind;
  ci_surface : option string;
}.

Inductive TypedClaim :=
  | Verifiable (id : string) (kind : ClaimKind) (surface : option string)
  | NeverVerifiable (id kind_name reason : string) (surface : option string) (verdict : ClaimVerdict).

Definition type_claim (input : ClaimInput) : TypedClaim :=
  let never kind_name reason verdict :=
    NeverVerifiable (ci_id input) kind_name reason (ci_surface input) verdict in
  match ci_kind input with
  | FilesChanged declared _ =>
      if bool_decide (declared = ∅) then
        never "files_changed" "empty declared file set is not a falsifiable change claim" Ungrounded
      else Verifiable (ci_id input) (ci_kind input) (ci_surface input)
  | BuildPasses _ | TestsPass _ => Verifiable (ci_id input) (ci_kind input) (ci_surface input)
  | PerformanceFaster note =>
      never "performance_faster"
        (default "we do not benchmark; speed claims are REFUSED_NO_VERIFIER" note) RefusedNoVerifier
  | MatchesSpec note =>
      never "matches_spec"
        (default "spec is not machine-readable in this product; REFUSED_NO_VERIFIER" note) RefusedNoVerifier
  | SecureNow note =>
      never "secure_now"
        (default "absence of vulnerability is unprovable; REFUSED_NO_VERIFIER" note) RefusedNoVerifier
  | MoreIdiomatic note =>
      never "more_idiomatic" (default "idiomatic is not falsifiable; UNGROUNDED" note) Ungrounded
  | Prose text =>
      never "prose" ("not a typed falsifiable claim shape: " +:+ take_chars 120 text) Ungrounded
  end.

(** ** Verifiers *)

Inductive Facts :=
  | GitDiffFailed
  | FileFacts (base : string) (declared actual extra missing : gset string)
  | ExitFacts (cwd : string) (exit_code : Z).

Record VerificationEvidence := {
  e_verifier : string;
  e_command : list string;
  e_exit_code : Z;
  e_stdout_excerpt : string;
  e_stderr_excerpt : string;
  e_facts : Facts;
}.

Inductive VerifierDecision := ProvedTrue | ProvedFalse | Unresolved.

#[export] Instance VerifierDecision_eq_dec : EqDecision VerifierDecision.
Proof. solve_decision. Defined.

Record VerifierResult := {
  r_decision : VerifierDecision;
  r_evidence : VerificationEvidence;
  r_bound : option string;
}.

Inductive VerifierError := GitError (e : string) | SpawnError (e : string) | Invalid (e : string).

Definition verifier_error_fmt (e : VerifierError) : string :=
  match e with
  | GitError e => "git unavailable or not a repository: " +:+ e
  | SpawnError e => "command failed to spawn: " +:+ e
  | Invalid e => "invalid claim input: " +:+ e
  end.

(** [&t[..max]]: [None] when byte [max] is in the middle of a character. *)
Fixpoint slice_to (max : nat) (t : string) : option string :=
  match max, t with
  | O, EmptyString => Some ""
  | O, String c _ => if is_continuation c then None else Some ""
  | S max, String c t => String c <$> slice_to max t
  | S _, EmptyString => None
  end.

Definition excerpt (s : string) (max : nat) : option string :=
  let t := trim s in
  if String.length t <=? max then Some t
  else (λ head, head +:+ ellipsis) <$> slice_to max t.

(** Two slices that both succeed. *)
Definition both {A} (f : string → string → A) (x y : option string) : option A :=
  match x, y with Some a, Some b => Some (f a b) | _, _ => None end.

(** [trim_start_matches("./")]. *)
Fixpoint trim_dot_slash (s : string) : string :=
  match s with
  | String a (String b rest) =>
      if Ascii.eqb a "." && Ascii.eqb b "/" then trim_dot_slash rest else s
  | _ => s
  end.

Definition forward_slashes (s : string) : string := replace (String "092" "") "/" s.

(** The paths a git listing names, one per line. *)
Definition listed_paths (stdout : string) : gset string :=
  list_to_set (List.filter (λ p, negb (is_empty p))
    (map (λ line, forward_slashes (trim line)) (lines stdout))).

Definition declared_paths (declared : gset string) : gset string :=
  list_to_set (List.filter (λ p, negb (is_empty p))
    (map (λ s, forward_slashes (trim_dot_slash (trim s))) (elements declared))).

Section pipeline.
Context {W : Type}.
(** Runs a program in a directory: exit code, standard output, standard error. *)
Context (run_command : W → string → string → list string → result (Z * string * string) VerifierError * W).
(** The [Debug] rendering of a string: quoted, with its escapes. *)
Context (debug_str : string → string).

(** The [Debug] rendering of an ordered set of strings. *)
Definition debug_set (l : list string) : string := "{" +:+ join ", " (map debug_str l) +:+ "}".

Definition Verified : Type := option (result VerifierResult VerifierError) * W.

Definition verify_files_changed (w : W) (repo : string) (declared : gset string) (base : option string)
  : Verified :=
  if bool_decide (declared = ∅) then
    (Some (Err (Invalid "files-changed claim requires a non-empty declared set")), w)
  else
    let base := default "HEAD" base in
    match run_command w repo "git" ["diff"; "--name-only"; base] with
    | (Err e, w) => (Some (Err e), w)
    | (Ok (code, stdout, stderr), w) =>
        if bool_decide (code ≠ 0%Z) then
          (both (λ out err, Ok {|
             r_decision := Unresolved;
             r_evidence := {|
               e_verifier := "files_changed";
               e_command := ["git"; "diff"; "--name-only"; base];
               e_exit_code := code; e_stdout_excerpt := out; e_stderr_excerpt := err;
               e_facts := GitDiffFailed |};
             r_bound := Some "requires a git worktree with the named base ref" |})
             (excerpt stdout 800) (excerpt stderr 800), w)
        else
          match run_command w repo "git" ["ls-files"; "--others"; "--exclude-standard"] with
          | (Err e, w) => (Some (Err e), w)
          | (Ok (ucode, ustdout, _), w) =>
              let actual :=
                listed_paths stdout ∪ (if bool_decide (ucode = 0%Z) then listed_paths ustdout else ∅) in
              let declared := declared_paths declared in
              let extra := actual ∖ declared in
              let missing := declared ∖ actual in
              let decision :=
                if bool_decide (extra = ∅ ∧ missing = ∅) then ProvedTrue else ProvedFalse in
              (both (λ out err, Ok {|
                 r_decision := decision;
                 r_evidence := {|
                   e_verifier := "files_changed";
                   e_command := ["git"; "diff"; "--name-only"; base;
                                 "+ ls-files --others --exclude-standard"];
                   e_exit_code := 0; e_stdout_excerpt := out; e_stderr_excerpt := err;
                   e_facts := FileFacts base declared actual extra missing |};
                 r_bound := Some "compares git worktree+untracked (not ignored) against declared set; does not expand renames beyond git's name-only view" |})
                 (excerpt ("actual=" +:+ debug_set (merge_sort String.le (elements actual))) 800)
                 (excerpt stderr 200), w)
          end
    end.

Definition verify_exit_zero (w : W) (cwd : string) (command : list string) (verifier : string) : Verified :=
  match command with
  | [] => (Some (Err (Invalid (verifier +:+ " claim requires a non-empty command"))), w)
  | program :: args =>
      match run_command w cwd program args with
      | (Err e, w) => (Some (Err e), w)
      | (Ok (code, stdout, stderr), w) =>
          (both (λ out err, Ok {|
             r_decision := if bool_decide (code = 0%Z) then ProvedTrue else ProvedFalse;
             r_evidence := {|
               e_verifier := verifier; e_command := command; e_exit_code := code;
               e_stdout_excerpt := out; e_stderr_excerpt := err;
               e_facts := ExitFacts cwd code |};
             r_bound := Some ("exit code only — does not interpret " +:+ verifier
                              +:+ " output semantics beyond process status") |})
             (excerpt stdout 1200) (excerpt stderr 1200), w)
      end
  end.

Definition verify_build (w : W) (cwd : string) (command : list string) : Verified :=
  verify_exit_zero w cwd command "build".

Definition verify_tests (w : W) (cwd : string) (command : list string) : Verified :=
  verify_exit_zero w cwd command "tests".

(** ** ledger.rs

    The log is the list of receipts its lines parse to. *)

Context {J : Type}.
(** [serde_json::to_value(&result).ok()] and the compact text of a JSON value. *)
Context (to_value : VerifierResult → option J) (json_text : J → string).
(** The hexadecimal SHA-256 digest of a byte string. *)
Context (sha256_hex : string → string).

Record ClaimReceipt := {
  rc_seq : N;
  rc_ts : string;
  rc_claim_id : string;
  rc_verdict : ClaimVerdict;
  rc_kind_name : string;
  rc_verification : option J;
  rc_prev_hash : string;
  rc_entry_hash : string;
}.

Fixpoint zeros (n : nat) : string := match n with O => "" | S n => String "0" (zeros n) end.

Definition genesis_hash : string := zeros 64.

(** The bytes fed to the hasher, one update after the other. *)
Definition digest_input (r : ClaimReceipt) (prev_hash : string) : string :=
  pretty (rc_seq r) +:+ rc_ts r +:+ rc_claim_id r +:+ verdict_as_str (rc_verdict r)
  +:+ rc_kind_name r
  +:+ match rc_verification r with Some v => json_text v | None => "<no-verification>" end
  +:+ prev_hash.

Definition hash_receipt (r : ClaimReceipt) (prev_hash : string) : string :=
  sha256_hex (digest_input r prev_hash).

Definition head_hash (entries : list ClaimReceipt) : string :=
  match last entries with Some e => rc_entry_hash e | None => genesis_hash end.

(** [e.seq + 1] on a 64-bit counter. *)
Definition next_seq (entries : list ClaimReceipt) : N :=
  match last entries with Some e => ((rc_seq e + 1) mod 2 ^ 64)%N | None => 1%N end.

(** The receipt that [append] writes at time [ts]. *)
Definition new_receipt (entries : list ClaimReceipt) (ts claim_id : string) (verdict : ClaimVerdict)
  (kind_name : string) (verification : option J) : ClaimReceipt :=
  let prev_hash := head_hash entries in
  let receipt entry_hash := {|
    rc_seq := next_seq entries; rc_ts := ts; rc_claim_id := claim_id; rc_verdict := verdict;
    rc_kind_name := kind_name; rc_verification := verification; rc_prev_hash := prev_hash;
    rc_entry_hash := entry_hash |} in
  receipt (hash_receipt (receipt "") prev_hash).

Definition append (entries : list ClaimReceipt) (ts claim_id : string) (verdict : ClaimVerdict)
  (kind_name : string) (verification : option J) : list ClaimReceipt :=
  entries ++ [new_receipt entries ts claim_id verdict kind_name verification].

Fixpoint verify_from (prev : string) (entries : list ClaimReceipt) : bool :=
  match entries with
  | [] => true
  | e :: entries =>
      if bool_decide (rc_prev_hash e ≠ prev) then false
      else if bool_decide (rc_entry_hash e ≠ hash_receipt e prev) then false
      else verify_from (rc_entry_hash e) entries
  end.

Definition verify_chain (entries : list ClaimReceipt) : bool := verify_from genesis_hash entries.

(** ** pipeline.rs *)

Record ClaimOutcome := {
  o_claim_id : string;
  o_verdict : ClaimVerdict;
  o_kind_name : string;
  o_surface : option string;
  o_verification : option J;
  o_reason : option string;
  o_receipt : option ClaimReceipt;
}.

Definition kind_name (kind : ClaimKind) : string :=
  match kind with
  | FilesChanged _ _ => "files_changed" | BuildPasses _ => "build_passes"
  | TestsPass _ => "tests_pass" | PerformanceFaster _ => "performance_faster"
  | MatchesSpec _ => "matches_spec" | SecureNow _ => "secure_now"
  | MoreIdiomatic _ => "more_idiomatic" | Prose _ => "prose"
  end.

Definition Stage3 : Type := ClaimVerdict * option J * option string * string.

Definition map_verifier (vr : VerifierResult) : Stage3 :=
  let verdict := match r_decision vr with
    | ProvedTrue => Certified | ProvedFalse => Refuted | Unresolved => RefusedUnresolved
    end in
  (verdict, to_value vr, r_bound vr, e_verifier (r_evidence vr)).

(** [{other:?}]: the derived [Debug] rendering of a claim kind. *)
Definition debug_kind (kind : ClaimKind) : string :=
  let opt (o : option string) :=
    match o with None => "None" | Some s => "Some(" +:+ debug_str s +:+ ")" end in
  let seq (l : list string) := "[" +:+ join ", " (map debug_str l) +:+ "]" in
  match kind with
  | FilesChanged declared base =>
      "FilesChanged { declared: " +:+ debug_set (merge_sort String.le (elements declared))
      +:+ ", base: " +:+ opt base +:+ " }"
  | BuildPasses command => "BuildPasses { command: " +:+ seq command +:+ " }"
  | TestsPass command => "TestsPass { command: " +:+ seq command +:+ " }"
  | PerformanceFaster note => "PerformanceFaster { note: " +:+ opt note +:+ " }"
  | MatchesSpec note => "MatchesSpec { note: " +:+ opt note +:+ " }"
  | SecureNow note => "SecureNow { note: " +:+ opt note +:+ " }"
  | MoreIdiomatic note => "MoreIdiomatic { note: " +:+ opt note +:+ " }"
  | Prose text => "Prose { text: " +:+ debug_str text +:+ " }"
  end.

(** The arm for kinds that typing never lets through. *)
Definition no_stage3 (other : ClaimKind) : Stage3 :=
  (RefusedNoVerifier, None, Some ("no stage-3 path for " +:+ debug_kind other), "unknown").

Definition run_stage3 (w : W) (kind : ClaimKind) (repo : string) : option Stage3 * W :=
  let finish (v : Verified) :=
    (match v.1 with
     | None => None
     | Some (Ok vr) => Some (map_verifier vr)
     | Some (Err e) => Some (RefusedUnresolved, None, Some (verifier_error_fmt e), kind_name kind)
     end, v.2) in
  match kind with
  | FilesChanged declared base => finish (verify_files_changed w repo declared base)
  | BuildPasses command => finish (verify_build w repo command)
  | TestsPass command => finish (verify_tests w repo command)
  | other => (Some (no_stage3 other), w)
  end.

(** The open ledger: [None] when no path was given or it could not be opened. *)
Definition Ledger : Type := option (list ClaimReceipt).

Definition append_receipt (ledger : Ledger) (ts claim_id : string) (verdict : ClaimVerdict)
  (kind : string) (verification : option J) : option ClaimReceipt * Ledger :=
  match ledger with
  | None => (None, None)
  | Some entries =>
      (Some (new_receipt entries ts claim_id verdict kind verification),
       Some (append entries ts claim_id verdict kind verification))
  end.

(** One claim, evaluated at time [ts]; [None] is a panic. *)
Definition evaluate_claim (w : W) (ledger : Ledger) (repo ts : string) (input : ClaimInput)
  : option (ClaimOutcome * Ledger) * W :=
  match type_claim input with
  | NeverVerifiable id kind reason surface verdict =>
      let '(receipt, ledger) := append_receipt ledger ts id verdict kind None in
      (Some ({| o_claim_id := id; o_verdict := verdict; o_kind_name := kind; o_surface := surface;
                o_verification := None; o_reason := Some reason; o_receipt := receipt |}, ledger), w)
  | Verifiable id kind surface =>
      match run_stage3 w kind repo with
      | (None, w) => (None, w)
      | (Some (verdict, verification, reason, name), w) =>
          let '(receipt, ledger) := append_receipt ledger ts id verdict name verification in
          (Some ({| o_claim_id := id; o_verdict := verdict; o_kind_name := name;
                    o_surface := surface; o_verification := verification; o_reason := reason;
                    o_receipt := receipt |}, ledger), w)
      end
  end.

Record ClaimsBatchResult := {
  b_outcomes : list ClaimOutcome;
  b_any_refuted : bool;
  b_certified_count : nat;
  b_refused_count : nat;
  b_ungrounded_count : nat;
}.

Definition strict_exit_code (b : ClaimsBatchResult) : Z := if b_any_refuted b then 2 else 0.

Definition count_verdicts (f : ClaimVerdict → bool) (outcomes : list ClaimOutcome) : nat :=
  length (List.filter (λ o, f (o_verdict o)) outcomes).

Definition batch_result (outcomes : list ClaimOutcome) : ClaimsBatchResult := {|
  b_outcomes := outcomes;
  b_any_refuted := existsb (λ o, is_refuted (o_verdict o)) outcomes;
  b_certified_count := count_verdicts (λ v, bool_decide (v = Certified)) outcomes;
  b_refused_count :=
    count_verdicts (λ v, match v with RefusedNoVerifier | RefusedUnresolved => true | _ => false end) outcomes;
  b_ungrounded_count := count_verdicts (λ v, bool_decide (v = Ungrounded)) outcomes |}.

(** The claims of a batch, one after the other; each has the time of its receipt. *)
Fixpoint evaluate_each (w : W) (ledger : Ledger) (repo : string) (inputs : list (string * ClaimInput))
  : option (list ClaimOutcome * Ledger) * W :=
  match inputs with
  | [] => (Some ([], ledger), w)
  | (ts, input) :: inputs =>
      match evaluate_claim w ledger repo ts input with
      | (None, w) => (None, w)
      | (Some (outcome, ledger), w) =>
          match evaluate_each w ledger repo inputs with
          | (None, w) => (None, w)
          | (Some (outcomes, ledger), w) => (Some (outcome :: outcomes, ledger), w)
          end
      end
  end.

Definition evaluate_claims (w : W) (ledger : Ledger) (repo : string) (inputs : list (string * ClaimInput))
  : option (ClaimsBatchResult * Ledger) * W :=
  match evaluate_each w ledger repo inputs with
  | (None, w) => (None, w)
  | (Some (outcomes, ledger), w) => (Some (batch_result outcomes, ledger), w)
  end.
End pipeline.
