(* ===== verification/ClaimsTheorems.v ===== *)
(** * What the claim ledger guarantees

    Verdicts follow from what a verifier saw, the receipt log is a hash chain, and
    where the chain and the verifiers fall short of their documentation. *)

From S2P Require Import Prelude RustStr Claims.

(** ** The chain *)

Section chain.
Context {J : Type} (json_text : J → string) (sha256_hex : string → string).
Abbreviation receipt := (@ClaimReceipt J).
Abbreviation verify_from := (verify_from json_text sha256_hex).
Abbreviation verify_chain := (verify_chain json_text sha256_hex).
Abbreviation append := (append json_text sha256_hex).
Abbreviation new_receipt := (new_receipt json_text sha256_hex).
Abbreviation hash_receipt := (hash_receipt json_text sha256_hex).

(** The hash a chain that starts at [prev] ends with. *)
Definition head_from (prev : string) (entries : list receipt) : string :=
  match last entries with Some e => rc_entry_hash e | None => prev end.

Lemma head_from_cons prev e entries : head_from prev (e :: entries) = head_from (rc_entry_hash e) entries.
Proof.
  unfold head_from. destruct entries as [|d l]; [done|]. simpl.
  destruct (last (d :: l)) eqn:E; [done|]. by apply last_None in E.
Qed.

Lemma verify_from_snoc prev entries e :
  verify_from prev (entries ++ [e]) = true ↔
  verify_from prev entries = true ∧ rc_prev_hash e = head_from prev entries ∧
  rc_entry_hash e = hash_receipt e (head_from prev entries).
Proof.
  revert prev. induction entries as [|d l IH]; intros prev; simpl.
  - repeat case_bool_decide; unfold head_from; simpl; naive_solver.
  - rewrite head_from_cons. repeat case_bool_decide; [naive_solver..|]. apply IH.
Qed.

Lemma verify_append entries ts id verdict kind v :
  verify_chain entries = true → verify_chain (append entries ts id verdict kind v) = true.
Proof. intros H. apply verify_from_snoc. split; [done|]. done. Qed.

(** A request to the ledger: time, claim id, verdict, kind name, evidence. *)
Definition Request : Type := string * string * ClaimVerdict * string * option J.

Definition append_all (entries : list receipt) (rs : list Request) : list receipt :=
  foldl (λ es '(ts, id, verdict, kind, v), append es ts id verdict kind v) entries rs.

Lemma append_all_snoc entries rs ts id verdict kind v :
  append_all entries (rs ++ [(ts, id, verdict, kind, v)])
  = append (append_all entries rs) ts id verdict kind v.
Proof. unfold append_all. by rewrite foldl_app. Qed.

Lemma length_append_all rs : length (append_all [] rs) = length rs.
Proof.
  induction rs as [|[[[[ts id] verdict] kind] v] rs IH] using rev_ind; [done|].
  rewrite append_all_snoc. unfold Claims.append. rewrite !length_app, IH. done.
Qed.

Lemma append_all_seq rs :
  (N.of_nat (length rs) < 2 ^ 64)%N →
  map rc_seq (append_all [] rs) = map (λ i, N.of_nat (S i)) (seq 0 (length rs)).
Proof.
  induction rs as [|[[[[ts id] verdict] kind] v] rs IH] using rev_ind; [done|]. intros Hlen.
  rewrite length_app in *. simpl in Hlen. specialize (IH ltac:(lia)).
  rewrite append_all_snoc. unfold Claims.append. rewrite map_app, IH, seq_app, map_app. f_equal.
  simpl. f_equal. unfold next_seq.
  destruct (last (append_all [] rs)) as [e|] eqn:Hlast.
  - apply last_Some in Hlast as [l' Hl]. pose proof (length_append_all rs) as Hn.
    rewrite Hl in IH, Hn. rewrite length_app in Hn. simpl in Hn.
    rewrite <- Hn, map_app, seq_app, map_app in IH. simpl in IH.
    apply app_inj_tail in IH as [_ ->]. rewrite <- Hn. rewrite N.mod_small; lia.
  - apply last_None in Hlast. pose proof (length_append_all rs) as Hn. rewrite Hlast in Hn.
    simpl in Hn. rewrite <- Hn. done.
Qed.

Lemma verify_append_all rs : verify_chain (append_all [] rs) = true.
Proof.
  induction rs as [|[[[[ts id] verdict] kind] v] rs IH] using rev_ind; [done|].
  rewrite append_all_snoc. by apply verify_append.
Qed.

(** What the hashes of a log cover. *)
Definition digests (entries : list receipt) : list string :=
  map (λ e, digest_input json_text e (rc_prev_hash e)) entries.

(** A hexadecimal digest has 64 characters. *)
Context (sha_length : ∀ x, String.length (sha256_hex x) = 64).

Lemma head_length entries :
  verify_chain entries = true → String.length (head_from genesis_hash entries) = 64.
Proof using sha_length.
  destruct entries as [|e l _] using rev_ind; [done|]. intros (_ & _ & He)%verify_from_snoc.
  unfold head_from. rewrite last_snoc, He. apply sha_length.
Qed.

(** The end of a digest input is the previous hash. *)
Lemma digest_input_prev e1 e2 prev1 prev2 :
  digest_input json_text e1 prev1 = digest_input json_text e2 prev2 →
  String.length prev1 = String.length prev2 → prev1 = prev2.
Proof.
  unfold digest_input. rewrite <- !str_app_assoc. intros Heq Hlen.
  by apply str_app_suffix_inj in Heq as [_ ?].
Qed.

Lemma same_head_same_digests l1 l2 :
  verify_chain l1 = true → verify_chain l2 = true → head_hash l1 = head_hash l2 →
  digests l1 = digests l2 ∨
  (∃ x y, x ≠ y ∧ sha256_hex x = sha256_hex y) ∨ (∃ x, sha256_hex x = genesis_hash).
Proof using sha_length.
  revert l2. induction l1 as [|e1 l1 IH] using rev_ind; intros l2 H1 H2 Hh.
  - destruct l2 as [|e2 l2 _] using rev_ind; [by left|]. apply verify_from_snoc in H2 as (_ & _ & H2).
    unfold head_hash in Hh. rewrite last_snoc in Hh. simpl in Hh. right; right. eexists.
    rewrite Hh, H2. done.
  - apply verify_from_snoc in H1 as (H1 & Hp1 & He1).
    destruct l2 as [|e2 l2 _] using rev_ind.
    { unfold head_hash in Hh. rewrite last_snoc in Hh. simpl in Hh. right; right. eexists.
      rewrite <- Hh, He1. done. }
    apply verify_from_snoc in H2 as (H2 & Hp2 & He2).
    unfold head_hash in Hh. rewrite !last_snoc, He1, He2 in Hh.
    destruct (decide (digest_input json_text e1 (head_from genesis_hash l1)
                    = digest_input json_text e2 (head_from genesis_hash l2))) as [Heq|Hne];
      [|right; left; eauto].
    assert (head_from genesis_hash l1 = head_from genesis_hash l2) as Hprev.
    { eapply digest_input_prev; [exact Heq|]. by rewrite !head_length. }
    destruct (IH l2 H1 H2 Hprev) as [Hd|?]; [|auto]. left.
    unfold digests in *. rewrite !map_app, Hd. f_equal. simpl. rewrite Hp1, Hp2. by f_equal.
Qed.
End chain.

(** A digest for the instances: the first [n] bytes, padded with zeros. *)
Fixpoint pad_to (n : nat) (s : string) : string :=
  match n with
  | O => ""
  | S n => match s with
           | EmptyString => String "0" (pad_to n "")
           | String c s => String c (pad_to n s)
           end
  end.

Definition sample_sha (s : string) : string := pad_to 64 s.

Lemma sample_sha_length s : String.length (sample_sha s) = 64.
Proof.
  unfold sample_sha. generalize 64. intros n. revert s.
  induction n as [|n IH]; intros [|c s]; simpl; by rewrite ?IH.
Qed.

(** A ledger filled by appending always verifies, for every hash
    function, and its receipts are numbered 1, 2, 3, ... without gaps. *)
Theorem appended_ledger_verifies {J} (json_text : J → string) sha256_hex (rs : list Request) :
  (N.of_nat (length rs) < 2 ^ 64)%N →
  let ledger := append_all json_text sha256_hex [] rs in
  verify_chain json_text sha256_hex ledger = true ∧ length ledger = length rs ∧
  map rc_seq ledger = map (λ i, N.of_nat (S i)) (seq 0 (length rs)).
Proof.
  intros Hlen. split; [apply verify_append_all|]. split; [apply length_append_all|].
  by apply append_all_seq.
Qed.

Definition sample_requests : list (@Request string) :=
  [("2026-01-01", "c1", Certified, "files_changed", None);
   ("2026-01-02", "c2", RefusedNoVerifier, "performance_faster", None)].

Lemma appended_ledger_verifies_witness :
  map rc_seq (append_all id sample_sha [] sample_requests) = [1%N; 2%N].
Proof.
  apply (appended_ledger_verifies (@id string) sample_sha sample_requests). vm_compute. reflexivity.
Defined.

(** The chain is tamper-evident up to its hash: two logs that verify and
    have the same head hash carry the same digested content, receipt by receipt and
    in the same number, unless two different texts with the same hash, or a text with
    the hash of the empty log, are at hand. *)
Theorem head_hash_commits_to_log {J} (json_text : J → string) sha256_hex l1 l2 :
  (∀ x, String.length (sha256_hex x) = 64) →
  verify_chain json_text sha256_hex l1 = true → verify_chain json_text sha256_hex l2 = true →
  head_hash l1 = head_hash l2 →
  digests json_text l1 = digests json_text l2 ∨
  (∃ x y, x ≠ y ∧ sha256_hex x = sha256_hex y) ∨ (∃ x, sha256_hex x = genesis_hash).
Proof. intros Hlen. by apply same_head_same_digests. Qed.

Lemma head_hash_commits_to_log_witness :
  let l := append_all id sample_sha [] sample_requests in
  digests id l = digests id l ∨
  (∃ x y, x ≠ y ∧ sample_sha x = sample_sha y) ∨ (∃ x, sample_sha x = genesis_hash).
Proof.
  apply (head_hash_commits_to_log (@id string) sample_sha).
  - apply sample_sha_length.
  - vm_compute. reflexivity.
  - vm_compute. reflexivity.
  - reflexivity.
Defined.

Definition relabel {J} (claim_id : string) (verdict : ClaimVerdict) (kind : string)
  (e : @ClaimReceipt J) : ClaimReceipt := {|
  rc_seq := rc_seq e; rc_ts := rc_ts e; rc_claim_id := claim_id; rc_verdict := verdict;
  rc_kind_name := kind; rc_verification := rc_verification e; rc_prev_hash := rc_prev_hash e;
  rc_entry_hash := rc_entry_hash e |}.

(** The fields are hashed without separators, so content can move between them: a
    receipt that refutes the claim "<id>CERTIFIED" can be rewritten in place into one
    that certifies "<id>", and the log still verifies with the same hashes. *)
Theorem receipts_can_be_relabelled {J} (json_text : J → string) sha256_hex ts claim_id kind v :
  let e := new_receipt json_text sha256_hex [] ts (claim_id +:+ "CERTIFIED") Refuted kind v in
  let forged := relabel claim_id Certified ("REFUTED" +:+ kind) e in
  verify_chain json_text sha256_hex [e] = true ∧ verify_chain json_text sha256_hex [forged] = true ∧
  rc_entry_hash forged = rc_entry_hash e ∧ rc_verdict forged = Certified ∧ rc_verdict e = Refuted.
Proof.
  simpl. unfold verify_chain. simpl. rewrite !bool_decide_eq_false_2 by auto. split; [done|].
  split; [|done]. rewrite bool_decide_eq_false_2; [done|].
  intros Hne. apply Hne. unfold hash_receipt. f_equal. unfold digest_input. simpl.
  by rewrite !str_app_assoc.
Qed.

(** ** Verdicts *)

Section verdicts.
Context {W : Type}.
Context (run_command : W → string → string → list string → result (Z * string * string) VerifierError * W).
Context (debug_str : string → string).
Context {J : Type} (to_value : VerifierResult → option J) (json_text : J → string).
Context (sha256_hex : string → string).
Abbreviation evaluate_claim := (evaluate_claim run_command debug_str to_value json_text sha256_hex).
Abbreviation run_stage3 := (run_stage3 run_command debug_str to_value).

(** What a certified claim rests on. *)
Definition evidence_for (w : W) (repo : string) (kind : ClaimKind) : Prop :=
  match kind with
  | BuildPasses (program :: args) | TestsPass (program :: args) =>
      ∃ out err, (run_command w repo program args).1 = Ok (0%Z, out, err)
  | FilesChanged declared base =>
      ∃ out err w1 ucode uout uerr w2,
        run_command w repo "git" ["diff"; "--name-only"; default "HEAD" base] = (Ok (0%Z, out, err), w1) ∧
        run_command w1 repo "git" ["ls-files"; "--others"; "--exclude-standard"] = (Ok (ucode, uout, uerr), w2) ∧
        listed_paths out ∪ (if bool_decide (ucode = 0%Z) then listed_paths uout else ∅) = declared_paths declared
  | _ => False
  end.

Lemma both_Some {A} (f : string → string → A) x y z :
  both f x y = Some z → ∃ a b, x = Some a ∧ y = Some b ∧ z = f a b.
Proof. destruct x, y; simpl; naive_solver. Qed.

Lemma exit_zero_certified w repo command verifier vr w' :
  verify_exit_zero run_command w repo command verifier = (Some (Ok vr), w') →
  ∃ program args out err code, command = program :: args ∧
    run_command w repo program args = (Ok (code, out, err), w') ∧
    (r_decision vr = ProvedTrue ↔ code = 0%Z) ∧ r_decision vr ≠ Unresolved.
Proof.
  unfold verify_exit_zero. destruct command as [|program args]; [done|].
  destruct (run_command w repo program args) as [[[[code out] err]|e] w1] eqn:Hr; [|done].
  intros [= Hb <-]. apply both_Some in Hb as (a & b & _ & _ & [= ->]).
  exists program, args, out, err, code. split; [done|]. split; [done|]. simpl.
  case_bool_decide; split; naive_solver.
Qed.

Lemma files_changed_certified w repo declared base vr w' :
  verify_files_changed run_command debug_str w repo declared base = (Some (Ok vr), w') →
  r_decision vr = ProvedTrue → evidence_for w repo (FilesChanged declared base).
Proof.
  unfold verify_files_changed. case_bool_decide; [done|].
  destruct (run_command w repo "git" _) as [[[[code out] err]|e] w1] eqn:Hr; [|done].
  case_bool_decide as Hc.
  { intros [= Hb _]. apply both_Some in Hb as (a & b & _ & _ & [= ->]). done. }
  assert (code = 0%Z) as -> by (destruct (decide (code = 0%Z)); naive_solver).
  destruct (run_command w1 repo "git" _) as [[[[ucode uout] uerr]|e] w2] eqn:Hu; [|done].
  intros [= Hb _]. apply both_Some in Hb as (a & b & _ & _ & [= ->]). simpl.
  case_bool_decide as Heq; [|done]. intros _. exists out, err, w1, ucode, uout, uerr, w2.
  split; [done|]. split; [done|]. destruct Heq as [Hextra Hmissing]. apply leibniz_equiv.
  intros x. split; intros Hx.
  - destruct (decide (x ∈ declared_paths declared)); [done|]. exfalso.
    assert (x ∈ (∅ : gset string)) as Hin by (rewrite <- Hextra; by apply elem_of_difference). set_solver.
  - destruct (decide (x ∈ listed_paths out ∪ (if bool_decide (ucode = 0%Z) then listed_paths uout else ∅)));
      [done|]. exfalso.
    assert (x ∈ (∅ : gset string)) as Hin by (rewrite <- Hmissing; by apply elem_of_difference). set_solver.
Qed.

Lemma stage3_certified w repo kind verdict v reason name w' :
  run_stage3 w kind repo = (Some (verdict, v, reason, name), w') →
  verdict = Certified → evidence_for w repo kind.
Proof.
  intros H Hv. subst verdict. unfold run_stage3 in H. destruct kind as [declared base|command|command| | | | | ];
    simpl in H; try done.
  - destruct (verify_files_changed _ _ w repo declared base) as [[[vr|e]|] w1] eqn:E; simpl in H; try done.
    injection H as Hd _ _ _ _. eapply files_changed_certified; [exact E|]. by destruct (r_decision vr).
  - destruct (verify_build _ w repo command) as [[[vr|e]|] w1] eqn:E; simpl in H; try done.
    injection H as Hd _ _ _ _. apply exit_zero_certified in E as (p & args & out & err & code & -> & Hr & Hiff & _).
    destruct (r_decision vr); [|done..]. simpl. rewrite Hr. simpl.
    rewrite (proj1 Hiff eq_refl). eauto.
  - destruct (verify_tests _ w repo command) as [[[vr|e]|] w1] eqn:E; simpl in H; try done.
    injection H as Hd _ _ _ _. apply exit_zero_certified in E as (p & args & out & err & code & -> & Hr & Hiff & _).
    destruct (r_decision vr); [|done..]. simpl. rewrite Hr. simpl.
    rewrite (proj1 Hiff eq_refl). eauto.
Qed.

Lemma typed_never input id kind reason surface verdict :
  type_claim input = NeverVerifiable id kind reason surface verdict →
  id = ci_id input ∧ (verdict = RefusedNoVerifier ∨ verdict = Ungrounded).
Proof.
  unfold type_claim. destruct (ci_kind input); try case_bool_decide; try done; intros [=]; subst; auto.
Qed.

Lemma typed_kind input id kind surface :
  type_claim input = Verifiable id kind surface → kind = ci_kind input ∧ id = ci_id input.
Proof.
  unfold type_claim. destruct (ci_kind input); try case_bool_decide; try done; intros [=]; subst; auto.
Qed.
End verdicts.

(** C20 (safety). A claim is certified only on evidence: its command ran and exited
    with zero, or the files git lists are exactly the declared ones. A claim that has
    no verifier runs nothing, carries no verification and is refused or ungrounded;
    and every evaluated claim adds one receipt with its verdict to the log, which
    keeps verifying. *)
Theorem certified_only_on_evidence {W J}
    (run_command : W → string → string → list string → result (Z * string * string) VerifierError * W)
    debug_str (to_value : VerifierResult → option J) json_text sha256_hex
    w entries repo ts input o ledger' w' :
  verify_chain json_text sha256_hex entries = true →
  evaluate_claim run_command debug_str to_value json_text sha256_hex w (Some entries) repo ts input
    = (Some (o, ledger'), w') →
  (o_verdict o = Certified → evidence_for run_command w repo (ci_kind input)) ∧
  ((∃ id kind reason surface verdict, type_claim input = NeverVerifiable id kind reason surface verdict) →
     w' = w ∧ o_verification o = None ∧ (o_verdict o = RefusedNoVerifier ∨ o_verdict o = Ungrounded)) ∧
  ∃ receipt, o_receipt o = Some receipt ∧ ledger' = Some (entries ++ [receipt]) ∧
    rc_verdict receipt = o_verdict o ∧ rc_claim_id receipt = ci_id input ∧
    verify_chain json_text sha256_hex (entries ++ [receipt]) = true.
Proof.
  intros Hchain H. unfold evaluate_claim in H.
  destruct (type_claim input) as [id kind surface|id kind reason surface verdict] eqn:Ht.
  - destruct (run_stage3 _ _ _ w kind repo) as [[[[[verdict v] reason] name]|] w1] eqn:Hs; [|done].
    injection H as <- <- <-. simpl. destruct (typed_kind _ _ _ _ Ht) as [-> ->].
    split; [intros ->; by eapply stage3_certified|]. split; [naive_solver|].
    eexists. split; [done|]. split; [done|]. split; [done|]. split; [done|].
    by apply (verify_append json_text sha256_hex).
  - injection H as <- <- <-. simpl. destruct (typed_never _ _ _ _ _ _ Ht) as [-> Hv].
    split; [intros ->; by destruct Hv|]. split; [done|].
    eexists. split; [done|]. split; [done|]. split; [done|]. split; [done|].
    by apply (verify_append json_text sha256_hex).
Qed.

(** A world in which every command succeeds and git lists one changed file. *)
Definition sample_run (w : nat) (repo program : string) (args : list string)
  : result (Z * string * string) VerifierError * nat :=
  (Ok (0%Z, if mem "diff" args then "src/a.rs" +:+ String "010" "" else "", ""), S w).

Definition sample_input : ClaimInput := {|
  ci_id := "c1"; ci_kind := FilesChanged {["./src/a.rs"]} None; ci_surface := None |}.

Lemma certified_only_on_evidence_witness :
  ∃ o ledger w', evaluate_claim sample_run id (λ _, Some "{}") id sample_sha 0 (Some [])
    "/repo" "2026-01-01" sample_input = (Some (o, ledger), w') ∧
    o_verdict o = Certified ∧ evidence_for sample_run 0 "/repo" (ci_kind sample_input).
Proof.
  destruct (evaluate_claim sample_run id (λ _, Some "{}") id sample_sha 0 (Some [])
    "/repo" "2026-01-01" sample_input) as [[[o ledger]|] w'] eqn:H.
  - exists o, ledger, w'. split; [reflexivity|].
    assert (o_verdict o = Certified) as Hv by (vm_compute in H; injection H as <- _ _; reflexivity).
    split; [exact Hv|].
    apply (certified_only_on_evidence sample_run id (λ _, Some "{}") id sample_sha 0 []
             "/repo" "2026-01-01" sample_input o ledger w'); [reflexivity|exact H|exact Hv].
  - exfalso. vm_compute in H. discriminate.
Defined.

(** ** Batches *)

Lemma verdict_counts {J} (outcomes : list (@ClaimOutcome J)) :
  let b := batch_result outcomes in
  b_certified_count b + b_refused_count b + b_ungrounded_count b + count_verdicts is_refuted outcomes
  = length outcomes.
Proof.
  simpl. unfold count_verdicts. induction outcomes as [|o l IH]; [done|].
  simpl. destruct (o_verdict o); simpl; lia.
Qed.

(** A batch accounts for every claim exactly once, and the strict
    exit code is 2 exactly when some claim was refuted. *)
Theorem batch_accounts_for_every_claim {J} (outcomes : list (@ClaimOutcome J)) :
  let b := batch_result outcomes in
  b_certified_count b + b_refused_count b + b_ungrounded_count b + count_verdicts is_refuted outcomes
    = length outcomes ∧
  (strict_exit_code b = 2%Z ↔ ∃ o, o ∈ outcomes ∧ o_verdict o = Refuted) ∧
  (strict_exit_code b = 0%Z ↔ ∀ o, o ∈ outcomes → o_verdict o ≠ Refuted).
Proof.
  split; [apply verdict_counts|]. unfold strict_exit_code. simpl.
  destruct (existsb (λ o, is_refuted (o_verdict o)) outcomes) eqn:He.
  - apply existsb_elem in He as (o & Ho & Hr). assert (o_verdict o = Refuted) by (by destruct (o_verdict o)).
    split; [split; [eauto|done]|]. split; [done|]. intros Hall. by destruct (Hall o Ho).
  - assert (∀ o, o ∈ outcomes → o_verdict o ≠ Refuted) as Hall.
    { intros o Ho Hr. apply not_true_iff_false in He. apply He, existsb_elem. exists o. by rewrite Hr. }
    split; [split; [done|]|done]. intros (o & Ho & Hr). by destruct (Hall o Ho).
Qed.

(** ** Excerpts *)

Fixpoint byte_at (n : nat) (s : string) : option chr :=
  match n, s with
  | O, String c _ => Some c
  | S n, String _ s => byte_at n s
  | _, EmptyString => None
  end.

Lemma slice_to_spec max t :
  max < String.length t →
  (slice_to max t = None ↔ ∃ c, byte_at max t = Some c ∧ is_continuation c = true) ∧
  (∀ head, slice_to max t = Some head → String.length head = max ∧ ∃ rest, t = head +:+ rest).
Proof.
  revert t. induction max as [|max IH]; intros [|c t] Hlen; simpl in *; [lia| |lia|].
  - destruct (is_continuation c) eqn:Hc.
    + split; [naive_solver|done].
    + split; [naive_solver congruence|]. intros head [= <-]. split; [done|]. by exists (String c t).
  - destruct (IH t) as [H1 H2]; [lia|]. split.
    + rewrite <- H1. by destruct (slice_to max t).
    + intros head Hh. apply fmap_Some in Hh as (h & Hh & ->).
      destruct (H2 h Hh) as [Hl (rest & ->)]. simpl. split; [lia|]. by exists rest.
Qed.

(** Cutting an excerpt panics exactly when the trimmed output is too long
    and the cut falls inside a multi-byte character; otherwise the excerpt is the whole
    trimmed output, or its first [max] bytes and an ellipsis. *)
Theorem excerpt_panics_inside_characters s max :
  (excerpt s max = None ↔
     max < String.length (trim s) ∧ ∃ c, byte_at max (trim s) = Some c ∧ is_continuation c = true) ∧
  (∀ e, excerpt s max = Some e →
     e = trim s ∨ ∃ head rest, trim s = head +:+ rest ∧ String.length head = max ∧ e = head +:+ ellipsis).
Proof.
  unfold excerpt. destruct (String.length (trim s) <=? max) eqn:Hle.
  - apply Nat.leb_le in Hle. split; [split; [done|intros [? _]; lia]|]. naive_solver.
  - apply Nat.leb_gt in Hle. destruct (slice_to_spec max (trim s) Hle) as [H1 H2]. split.
    + rewrite fmap_None, H1. naive_solver.
    + intros e He. apply fmap_Some in He as (head & Hh & ->). right.
      destruct (H2 head Hh) as [Hl (rest & Hr)]. eauto.
Qed.

(** A passing test run whose long output has an accent at the cut ends in a panic
    instead of a verdict. *)
Fixpoint repeat_chr (n : nat) (c : chr) : string :=
  match n with O => "" | S n => String c (repeat_chr n c) end.

Definition accented_run (w : nat) (repo program : string) (args : list string)
  : result (Z * string * string) VerifierError * nat :=
  (Ok (0%Z, repeat_chr 1199 "." +:+ String "195" (String "169" "s"), ""), S w).

Theorem accented_output_panics :
  (evaluate_claim accented_run id (λ _, Some "{}") id sample_sha 0 (Some [])
     "/repo" "2026-01-01" {| ci_id := "c1"; ci_kind := TestsPass ["cargo"; "test"]; ci_surface := None |}).1
  = None.
Proof. vm_compute. reflexivity. Qed.

(** A declared set that names no file at all passes typing when it is not literally
    empty, and is certified in a clean tree. *)
Definition clean_run (w : nat) (repo program : string) (args : list string)
  : result (Z * string * string) VerifierError * nat := (Ok (0%Z, "", ""), S w).

Theorem blank_declaration_is_certified :
  match (evaluate_claim clean_run id (λ _, Some "{}") id sample_sha 0 (Some [])
     "/repo" "2026-01-01" {| ci_id := "c1"; ci_kind := FilesChanged {["./"]} None; ci_surface := None |}).1 with
  | Some (o, _) => o_verdict o = Certified
  | None => False
  end.
Proof. vm_compute. reflexivity. Qed.
