(* ===== verification/RustText.v ===== *)
(** * More on Rust text

    Operations of [str] that the receipt, swarm and server components use: characters
    counted and cut, words, matches, trimming by a set of characters, and decimal
    numbers.  As in [RustStr], text is a sequence of UTF-8 bytes. *)

From S2P Require Import Prelude RustStr.

(** ** Characters *)

(** [s.chars().count()]: every byte that does not continue a character starts one. *)
Fixpoint char_count (s : string) : nat :=
  match s with
  | EmptyString => 0
  | String c s => if is_continuation c then char_count s else S (char_count s)
  end.

(** [s.trim_start_matches(f)] for a predicate on ASCII characters. *)
Fixpoint trim_start_matches (f : chr → bool) (s : string) : string :=
  match s with
  | EmptyString => EmptyString
  | String c s' => if f c then trim_start_matches f s' else s
  end.

Definition trim_end_matches (f : chr → bool) (s : string) : string :=
  String.rev (trim_start_matches f (String.rev s)).

Definition trim_matches (f : chr → bool) (s : string) : string :=
  trim_end_matches f (trim_start_matches f s).

(** ** Words *)

(** [s.split_whitespace()]; [cur] is the word under construction. *)
Definition push_word (cur : string) (ws : list string) : list string :=
  if is_empty cur then ws else cur :: ws.

Fixpoint words_from (cur s : string) : list string :=
  match s with
  | EmptyString => push_word cur []
  | String a r1 =>
      if ws1 a then push_word cur (words_from EmptyString r1) else
      match r1 with
      | EmptyString => [cur +:+ String a EmptyString]
      | String b r2 =>
          if ws2 a b then push_word cur (words_from EmptyString r2) else
          match r2 with
          | EmptyString => words_from (cur +:+ String a EmptyString) r1
          | String c r3 =>
              if ws3 a b c then push_word cur (words_from EmptyString r3)
              else words_from (cur +:+ String a EmptyString) r1
          end
      end
  end.

Definition split_whitespace (s : string) : list string := words_from EmptyString s.

(** [s.split_whitespace().collect::<Vec<_>>().join(" ")]. *)
Definition collapse_whitespace (s : string) : string := join " " (split_whitespace s).

(** ** Matches of a pattern *)

(** [s.matches(p).count()] for a non-empty [p]: occurrences that do not overlap, from
    the left; [skip] counts the bytes of the current one that are still to be passed. *)
Fixpoint count_go (p : string) (skip : nat) (s : string) : nat :=
  match s with
  | EmptyString => 0
  | String _ s' =>
      match skip with
      | S k => count_go p k s'
      | O => if starts_with p s then S (count_go p (String.length p - 1) s')
             else count_go p 0 s'
      end
  end.

(** An empty pattern matches before every character and at the end. *)
Definition count_matches (p s : string) : nat :=
  if is_empty p then S (char_count s) else count_go p 0 s.

(** [s.replacen(p, r, 1)] for a pattern that may be empty. *)
Fixpoint replace_first (p r s : string) : string :=
  match strip_prefix p s with
  | Some rest => r +:+ rest
  | None => match s with
            | EmptyString => EmptyString
            | String c s => String c (replace_first p r s)
            end
  end.

(** [s.replace("", r)]: the replacement before every character and at the end. *)
Fixpoint intersperse (r s : string) : string :=
  match s with
  | EmptyString => EmptyString
  | String c s =>
      if is_continuation c then String c (intersperse r s) else r +:+ String c (intersperse r s)
  end.

Definition replace_all (p r s : string) : string :=
  if is_empty p then intersperse r s +:+ r else replace p r s.

(** The text after the last occurrence of [p], if there is one. *)
Fixpoint after_last (p s : string) : option string :=
  match s with
  | EmptyString => strip_prefix p EmptyString
  | String _ s' =>
      match after_last p s' with
      | Some r => Some r
      | None => strip_prefix p s
      end
  end.

(** [s[..s.find(p)]]: the text before the first occurrence, when there is one. *)
Definition split_at_first (p s : string) : option string :=
  if contains_str p s then Some (before_str p s) else None.

(** ** Decimal numbers *)

Fixpoint digits_value (acc : N) (s : string) : option N :=
  match s with
  | EmptyString => Some acc
  | String c s =>
      if is_ascii_digit c then digits_value (acc * 10 + (byte_of c - 48))%N s else None
  end.

(** [s.parse::<i32>().ok()] for a text of digits and minus signs. *)
Definition parse_i32 (s : string) : option Z :=
  let in_range z := if bool_decide (- 2 ^ 31 ≤ z < 2 ^ 31)%Z then Some z else None in
  match s with
  | EmptyString => None
  | String c rest =>
      if Ascii.eqb c "-" then
        (if is_empty rest then None else digits_value 0 rest ≫= λ n, in_range (- Z.of_N n)%Z)
      else digits_value 0 s ≫= λ n, in_range (Z.of_N n)
  end.

Definition pretty_nat (n : nat) : string := pretty (N.of_nat n).

(** ** Bytes *)

(** [v.to_be_bytes()] of a [u64]. *)
Fixpoint be_bytes (n : nat) (v : N) : string :=
  match n with
  | O => EmptyString
  | S n => String (Ascii.ascii_of_N ((v / 256 ^ N.of_nat n) mod 256)) (be_bytes n v)
  end.

Definition be64 (v : N) : string := be_bytes 8 (v mod 2 ^ 64).

(** A quotation mark inside a text. *)
Definition dquote : string := String "034" "".

(** ** Character boundaries *)

(** [s.is_char_boundary(i)]. *)
Definition is_char_boundary (s : string) (i : nat) : bool :=
  (i =? 0) || (i =? String.length s)
  || match String.get i s with Some c => negb (is_continuation c) | None => false end.

(** The largest boundary at or before [i]. *)
Fixpoint floor_char_boundary (s : string) (i : nat) : nat :=
  match i with
  | O => 0
  | S j => if is_char_boundary s i then i else floor_char_boundary s j
  end.

(** crates/jcode-core/src/util.rs: at most [max_bytes] bytes of [s], cut between
    characters. *)
Definition truncate_str (s : string) (max_bytes : nat) : string :=
  if String.length s <=? max_bytes then s
  else String.substring 0 (floor_char_boundary s max_bytes) s.

(** [std::str::from_utf8(bytes).is_ok()]. *)
Fixpoint valid_utf8 (s : string) : bool :=
  match s with
  | EmptyString => true
  | String a r =>
      if (byte_of a <=? 127)%N then valid_utf8 r
      else match r with
      | EmptyString => false
      | String b r =>
          if byte_between 194 223 a then byte_between 128 191 b && valid_utf8 r
          else match r with
          | EmptyString => false
          | String c r =>
              let second :=
                if is_byte 224 a then byte_between 160 191 b
                else if is_byte 237 a then byte_between 128 159 b
                else byte_between 225 239 a && byte_between 128 191 b in
              if second then byte_between 128 191 c && valid_utf8 r
              else match r with
              | EmptyString => false
              | String d r =>
                  let second :=
                    if is_byte 240 a then byte_between 144 191 b
                    else if is_byte 244 a then byte_between 128 143 b
                    else byte_between 241 243 a && byte_between 128 191 b in
                  second && byte_between 128 191 c && byte_between 128 191 d && valid_utf8 r
              end
          end
      end
  end.

Lemma floor_char_boundary_le s i : floor_char_boundary s i ≤ i.
Proof. induction i as [|i IH]; cbn [floor_char_boundary]; [done|]. destruct (is_char_boundary s (S i)); lia. Qed.

Lemma floor_is_char_boundary s i : is_char_boundary s (floor_char_boundary s i) = true.
Proof.
  induction i as [|i IH]; [done|]. cbn [floor_char_boundary].
  by destruct (is_char_boundary s (S i)) eqn:E.
Qed.

Lemma substring_length n s : String.length (String.substring 0 n s) = Nat.min n (String.length s).
Proof. revert n. induction s as [|c s IH]; intros [|n]; simpl; try done. by rewrite IH. Qed.

Lemma truncate_str_bound s n : String.length (truncate_str s n) ≤ n.
Proof.
  unfold truncate_str. destruct (Nat.leb_spec (String.length s) n); [done|].
  rewrite substring_length. pose proof (floor_char_boundary_le s n). lia.
Qed.

(** [s.trim_start_matches("./")]. *)
Fixpoint trim_dot_slashes (s : string) : string :=
  match s with
  | String a (String b r) => if Ascii.eqb a "." && Ascii.eqb b "/" then trim_dot_slashes r else s
  | _ => s
  end.

(** What [trim_start] leaves of the reversed text is the end of it. *)
Lemma trim_start_rev_suffix s : ∃ p, s = p +:+ trim_start_rev s.
Proof.
  remember (String.length s) as n eqn:Hn. revert s Hn. induction (lt_wf n) as [n _ IH]. intros s ->.
  assert (∀ p r, p ≠ "" → s = p +:+ r → ∃ q, s = q +:+ trim_start_rev r) as Hcut.
  { intros p r Hp ->. destruct (IH (String.length r)) with r as [q Hq]; [|done|].
    - rewrite str_length_app. destruct p; [done|simpl; lia].
    - exists (p +:+ q). by rewrite str_app_assoc, <- Hq. }
  destruct s as [|a r1]; [by exists ""|]. cbn [trim_start_rev].
  destruct (ws1 a); [by apply (Hcut (String a ""))|]. destruct r1 as [|b r2]; [by exists ""|].
  destruct (ws2 b a); [by apply (Hcut (String a (String b "")))|]. destruct r2 as [|c r3]; [by exists ""|].
  destruct (ws3 c b a); [by apply (Hcut (String a (String b (String c ""))))|by exists ""].
Qed.
