(* ===== verification/Disk.v ===== *)
(** * A file system that can fail

    The receipt ledger and the file tools read and write files, and every system call
    may fail.  A [Disk] is the contents of the files, the outcomes that the coming
    system calls will have, and the contents of the files after each call so far: what
    a reader, or the next start of a process that died, would find.  Programs are
    state-passing functions over it, with errors as texts. *)

From S2P Require Import Prelude RustStr.

Abbreviation Files := (gmap string string).

(** How a coming call ends: it works, or it fails after so many bytes were written. *)
Inductive Fault := Works | FailsAfter (bytes : nat).

Record Disk := {
  d_files : Files;
  d_faults : list Fault;
  d_trace : list Files;
}.

Definition Io (A : Type) : Type := Disk → result A string * Disk.

Definition io_ret {A} (x : A) : Io A := λ d, (Ok x, d).
Definition io_err {A} (e : string) : Io A := λ d, (Err e, d).
Definition io_of {A} (r : result A string) : Io A := λ d, (r, d).

Definition io_bind {A B} (m : Io A) (k : A → Io B) : Io B := λ d,
  match m d with
  | (Ok x, d) => k x d
  | (Err e, d) => (Err e, d)
  end.

Notation "'let!' x := m 'in' k" := (io_bind m (λ x, k))
  (at level 10, x pattern, m at level 100, k at level 200) : omnis_scope.
Notation "m ';!' k" := (io_bind m (λ _, k)) (at level 100, right associativity) : omnis_scope.

(** [m.with_context(..)]: the context in front of the error. *)
Definition io_context {A} (context : string) (m : Io A) : Io A := λ d,
  match m d with
  | (Ok x, d) => (Ok x, d)
  | (Err e, d) => (Err (context +:+ ": " +:+ e), d)
  end.

(** The result of a program that is not allowed to fail the caller: [let _ = ..]. *)
Definition io_try {A} (m : Io A) : Io (result A string) := λ d, let '(r, d) := m d in (Ok r, d).

(** ** System calls *)

Definition os_error : string := "operating system error".

(** Takes the next outcome. *)
Definition next_fault (d : Disk) : Fault * Disk :=
  match d_faults d with
  | [] => (Works, d)
  | f :: fs => (f, {| d_files := d_files d; d_faults := fs; d_trace := d_trace d |})
  end.

Definition put_files (fs : Files) (d : Disk) : Disk :=
  {| d_files := fs; d_faults := d_faults d; d_trace := d_trace d ++ [fs] |}.

(** A call without an effect on the files: a check, a lock, a flush. *)
Definition sys_check : Io unit := λ d,
  match next_fault d with
  | (Works, d) => (Ok tt, d)
  | (FailsAfter _, d) => (Err os_error, d)
  end.

(** A call that changes the files when it works, and not at all when it fails. *)
Definition sys_change (change : Files → Files) : Io unit := λ d,
  match next_fault d with
  | (Works, d) => (Ok tt, put_files (change (d_files d)) d)
  | (FailsAfter _, d) => (Err os_error, d)
  end.

Definition sys_get {A} (get : Files → A) : Io A := λ d,
  match next_fault d with
  | (Works, d) => (Ok (get (d_files d)), d)
  | (FailsAfter _, d) => (Err os_error, d)
  end.

(** [path.exists()] does not fail: it answers no when the file cannot be examined. *)
Definition exists_file (path : string) : Io bool := λ d,
  (Ok (bool_decide (is_Some (d_files d !! path))), d).

(** [read_to_string]: the whole file, which must exist. *)
Definition read_file (path : string) : Io string :=
  let! content := sys_get (λ fs, fs !! path) in
  match content with Some text => io_ret text | None => io_err os_error end.

(** [OpenOptions::create(true)]: an empty file where there is none. *)
Definition create_file (path : string) : Io unit :=
  sys_change (λ fs, match fs !! path with Some _ => fs | None => <[path := ""]> fs end).

(** [OpenOptions::create_new(true)]: fails when the file exists. *)
Definition create_new_file (path : string) : Io unit :=
  let! there := exists_file path in
  if there : bool then io_err os_error else sys_change (<[path := ""]>).

(** [file.write_all(bytes)] at the end of an open file; a failing call may have written
    any prefix. *)
Definition append_file (path bytes : string) : Io unit := λ d,
  let written b := alter (λ old, old +:+ b) path (d_files d) in
  match next_fault d with
  | (Works, d) => (Ok tt, put_files (written bytes) d)
  | (FailsAfter n, d) => (Err os_error, put_files (written (String.substring 0 n bytes)) d)
  end.

(** [fs::write(path, bytes)]: truncates the file, then writes. *)
Definition write_file (path bytes : string) : Io unit := λ d,
  match next_fault d with
  | (Works, d') => (Ok tt, put_files (<[path := bytes]> (d_files d)) (put_files (<[path := ""]> (d_files d)) d'))
  | (FailsAfter O, d') => (Err os_error, d')
  | (FailsAfter (S n), d') =>
      (Err os_error, put_files (<[path := String.substring 0 n bytes]> (d_files d)) d')
  end.

(** [fs::rename(from, to)]: atomic. *)
Definition rename_file (from to : string) : Io unit :=
  let! there := exists_file from in
  if there : bool then
    sys_change (λ fs, match fs !! from with
                      | Some text => <[to := text]> (delete from fs)
                      | None => fs
                      end)
  else io_err os_error.

(** [fs::remove_file(path)]; the inner result tells "not found" apart. *)
Inductive RemoveError := NotFound | RemoveFailed.

Definition remove_file (path : string) : Io (result unit RemoveError) := λ d,
  match d_files d !! path with
  | None => (Ok (Err NotFound), d)
  | Some _ =>
      match next_fault d with
      | (Works, d) => (Ok (Ok tt), put_files (delete path (d_files d)) d)
      | (FailsAfter _, d) => (Ok (Err RemoveFailed), d)
      end
  end.

(** ** Runs in which anything may fail *)

(** The states seen between two traces. *)
Definition seen_between (I : Files → Prop) (before after : list Files) : Prop :=
  ∃ seen, after = before ++ seen ∧ Forall I seen.

Lemma seen_none I t : seen_between I t t.
Proof. exists []. by rewrite app_nil_r. Qed.

Lemma seen_one I t fs : I fs → seen_between I t (t ++ [fs]).
Proof. intros H. exists [fs]. auto. Qed.

Lemma seen_trans I t1 t2 t3 : seen_between I t1 t2 → seen_between I t2 t3 → seen_between I t1 t3.
Proof.
  intros (a & -> & Ha) (b & -> & Hb). exists (a ++ b). rewrite app_assoc. split; [done|]. by apply Forall_app.
Qed.

(** [guarded I P m Q E]: started in files that satisfy [P], the program leaves files that
    satisfy [Q] when it returns and [E] when it fails, and every state of the files that
    it goes through satisfies [I], whatever fails on the way. *)
Definition guarded {A} (I P : Files → Prop) (m : Io A) (Q : A → Files → Prop) (E : Files → Prop) : Prop :=
  ∀ d, P (d_files d) →
  seen_between I (d_trace d) (d_trace (m d).2) ∧
  match (m d).1 with Ok x => Q x (d_files (m d).2) | Err _ => E (d_files (m d).2) end.

Lemma next_fault_files d : d_files (next_fault d).2 = d_files d ∧ d_trace (next_fault d).2 = d_trace d.
Proof. unfold next_fault. by destruct (d_faults d). Qed.

Ltac fault_cases d :=
  let Hf := fresh "Hfiles" in let Ht := fresh "Htrace" in
  destruct (next_fault_files d) as [Hf Ht];
  let b := fresh "bytes" in destruct (next_fault d) as [[|b] ?d']; cbn [fst snd d_files d_trace put_files] in *;
  rewrite ?Hf, ?Ht in *.

Section guarded.
Context {A : Type} (I P : Files → Prop).
Implicit Types (Q : A → Files → Prop) (E : Files → Prop).

Lemma guarded_weaken (P' : Files → Prop) (m : Io A) Q Q' E E' :
  guarded I P m Q E → (∀ fs, P' fs → P fs) → (∀ x fs, Q x fs → Q' x fs) → (∀ fs, E fs → E' fs) →
  guarded I P' m Q' E'.
Proof.
  intros Hm HP HQ HE d Hd. destruct (Hm d (HP _ Hd)) as [H1 H2]. split; [done|].
  destruct ((m d).1); auto.
Qed.

(** A fact about values, learnt on the way. *)
Lemma guarded_fact (φ : Prop) (m : Io A) Q E :
  (φ → guarded I P m Q E) → guarded I (λ fs, P fs ∧ φ) m Q E.
Proof. intros H d [Hd Hφ]. by apply H. Qed.

Lemma guarded_of (r : result A string) Q E :
  (∀ fs, P fs → match r with Ok x => Q x fs | Err _ => E fs end) → guarded I P (io_of r) Q E.
Proof. intros H d Hd. split; [apply seen_none|exact (H _ Hd)]. Qed.

Lemma guarded_ret (x : A) Q E : (∀ fs, P fs → Q x fs) → guarded I P (io_ret x) Q E.
Proof. apply (guarded_of (Ok x)). Qed.

Lemma guarded_err e Q E : (∀ fs, P fs → E fs) → guarded I P (io_err e) Q E.
Proof. apply (guarded_of (Err e)). Qed.

Lemma guarded_bind {B} (m : Io B) (k : B → Io A) R Q E :
  guarded I P m R E → (∀ x, guarded I (R x) (k x) Q E) → guarded I P (io_bind m k) Q E.
Proof.
  intros Hm Hk d Hd. unfold io_bind. destruct (Hm d Hd) as [H1 H2].
  destruct (m d) as [[x|e] d']; simpl in *; [|done]. destruct (Hk x d' H2) as [H3 H4].
  split; [by eapply seen_trans|done].
Qed.

Lemma guarded_context c (m : Io A) Q E : guarded I P m Q E → guarded I P (io_context c m) Q E.
Proof.
  intros Hm d Hd. unfold io_context. specialize (Hm d Hd). by destruct (m d) as [[x|e] d'].
Qed.

Lemma guarded_try (m : Io A) Q E E' :
  guarded I P m Q E →
  guarded I P (io_try m) (λ r fs, match r with Ok x => Q x fs | Err _ => E fs end) E'.
Proof. intros Hm d Hd. unfold io_try. specialize (Hm d Hd). by destruct (m d) as [[x|e] d']. Qed.

Lemma guarded_get (get : Files → A) Q E :
  (∀ fs, P fs → Q (get fs) fs ∧ E fs) → guarded I P (sys_get get) Q E.
Proof. intros H d Hd. unfold sys_get. destruct (H _ Hd). fault_cases d; (split; [apply seen_none|done]). Qed.
End guarded.

Lemma guarded_invariant {A} (I I' P : Files → Prop) (m : Io A) Q E :
  guarded I P m Q E → (∀ fs, I fs → I' fs) → guarded I' P m Q E.
Proof.
  intros Hm HI d Hd. destruct (Hm d Hd) as [(seen & Ht & Hs) H]. split; [|done]. exists seen.
  split; [done|]. by eapply Forall_impl.
Qed.

Section guarded_calls.
Context (I P : Files → Prop).
Implicit Types (Q : unit → Files → Prop) (E : Files → Prop).

Lemma guarded_check Q E : (∀ fs, P fs → Q tt fs ∧ E fs) → guarded I P sys_check Q E.
Proof. intros H d Hd. unfold sys_check. destruct (H _ Hd). fault_cases d; (split; [apply seen_none|done]). Qed.

Lemma guarded_change change Q E :
  (∀ fs, P fs → I (change fs) ∧ Q tt (change fs) ∧ E fs) → guarded I P (sys_change change) Q E.
Proof.
  intros H d Hd. unfold sys_change. destruct (H _ Hd) as (? & ? & ?).
  fault_cases d; (split; [|done]); [by apply seen_one|apply seen_none].
Qed.

Lemma guarded_exists p (Q : bool → Files → Prop) E :
  (∀ fs, P fs → Q (bool_decide (is_Some (fs !! p))) fs) → guarded I P (exists_file p) Q E.
Proof. intros H d Hd. split; [apply seen_none|exact (H _ Hd)]. Qed.

Lemma guarded_read p (Q : string → Files → Prop) E :
  (∀ fs, P fs → E fs ∧ ∀ t, fs !! p = Some t → Q t fs) → guarded I P (read_file p) Q E.
Proof.
  intros H. eapply guarded_bind.
  - apply (guarded_get _ _ _ (λ o fs, P fs ∧ o = fs !! p)). intros fs Hfs. split; [done|]. by apply H.
  - intros [t|]; [apply guarded_ret|apply guarded_err]; intros fs [Hfs Heq]; by apply H.
Qed.

Lemma guarded_append p b Q E :
  (∀ fs, P fs → Q tt (alter (λ old, old +:+ b) p fs)) →
  (∀ fs b', P fs → I (alter (λ old, old +:+ b') p fs) ∧ E (alter (λ old, old +:+ b') p fs)) →
  guarded I P (append_file p b) Q E.
Proof.
  intros HQ HE d Hd. unfold append_file.
  fault_cases d; (split; [apply seen_one; by apply HE|]); [by apply HQ|by apply HE].
Qed.

Lemma guarded_remove p (Q : result unit RemoveError → Files → Prop) E :
  (∀ fs, P fs → I (delete p fs) ∧ Q (Ok tt) (delete p fs) ∧ Q (Err RemoveFailed) fs ∧
     (fs !! p = None → Q (Err NotFound) fs)) →
  guarded I P (remove_file p) Q E.
Proof.
  intros H d Hd. unfold remove_file. destruct (H _ Hd) as (? & ? & ? & ?).
  destruct (d_files d !! p) eqn:Hp; [|split; [apply seen_none|]; simpl; auto].
  fault_cases d; (split; [|done]); [by apply seen_one|apply seen_none].
Qed.

Lemma guarded_write p b Q E :
  (∀ fs, P fs → Q tt (<[p := b]> fs) ∧ E fs) →
  (∀ fs b', P fs → I (<[p := b']> fs) ∧ E (<[p := b']> fs)) →
  guarded I P (write_file p b) Q E.
Proof.
  intros HQ HE d Hd. unfold write_file. fault_cases d.
  - split; [|by apply HQ]. eapply seen_trans; apply seen_one; by apply HE.
  - destruct (HQ _ Hd) as [_ ?]. destruct bytes; simpl; rewrite ?Hfiles, ?Htrace; (split; [|by auto; apply HE]);
      [apply seen_none|apply seen_one; by apply HE].
Qed.
End guarded_calls.

(** ** Runs in which nothing fails *)

Definition healthy (d : Disk) : Prop := d_faults d = [].

(** [total P m Q]: started on a healthy disk in files that satisfy [P], the program
    returns, with files that satisfy [Q]. *)
Definition total {A} (P : Files → Prop) (m : Io A) (Q : A → Files → Prop) : Prop :=
  ∀ d, healthy d → P (d_files d) →
  ∃ x d', m d = (Ok x, d') ∧ healthy d' ∧ Q x (d_files d').

Lemma next_fault_healthy d : healthy d → next_fault d = (Works, d).
Proof. unfold healthy, next_fault. by intros ->. Qed.

Section total.
Context {A : Type} (P : Files → Prop).
Implicit Types (Q : A → Files → Prop).

Lemma total_ret (x : A) Q : (∀ fs, P fs → Q x fs) → total P (io_ret x) Q.
Proof. intros H d Hh Hd. exists x, d. auto. Qed.

Lemma total_fact (φ : Prop) (m : Io A) Q : (φ → total P m Q) → total (λ fs, P fs ∧ φ) m Q.
Proof. intros H d Hh [Hd Hφ]. by apply H. Qed.

Lemma total_bind {B} (m : Io B) (k : B → Io A) R Q :
  total P m R → (∀ x, total (R x) (k x) Q) → total P (io_bind m k) Q.
Proof.
  intros Hm Hk d Hh Hd. destruct (Hm d Hh Hd) as (x & d' & Hx & Hh' & Hd').
  unfold io_bind. rewrite Hx. by apply Hk.
Qed.

Lemma total_context c (m : Io A) Q : total P m Q → total P (io_context c m) Q.
Proof.
  intros Hm d Hh Hd. destruct (Hm d Hh Hd) as (x & d' & Hx & ?).
  exists x, d'. unfold io_context. by rewrite Hx.
Qed.

Lemma total_try (m : Io A) Q :
  total P m Q → total P (io_try m) (λ r fs, ∃ x, r = Ok x ∧ Q x fs).
Proof.
  intros Hm d Hh Hd. destruct (Hm d Hh Hd) as (x & d' & Hx & ? & ?).
  exists (Ok x), d'. unfold io_try. rewrite Hx. eauto.
Qed.

Lemma total_get (get : Files → A) Q : (∀ fs, P fs → Q (get fs) fs) → total P (sys_get get) Q.
Proof.
  intros H d Hh Hd. unfold sys_get. rewrite next_fault_healthy by done. eauto 6.
Qed.
End total.

Section total_calls.
Context (P : Files → Prop).
Implicit Types (Q : unit → Files → Prop).

Lemma total_check Q : (∀ fs, P fs → Q tt fs) → total P sys_check Q.
Proof. intros H d Hh Hd. unfold sys_check. rewrite next_fault_healthy by done. eauto 6. Qed.

Lemma total_change change Q : (∀ fs, P fs → Q tt (change fs)) → total P (sys_change change) Q.
Proof.
  intros H d Hh Hd. unfold sys_change. rewrite next_fault_healthy by done.
  eexists tt, _. split; [done|]. split; [done|]. simpl. auto.
Qed.

Lemma total_exists p (Q : bool → Files → Prop) :
  (∀ fs, P fs → Q (bool_decide (is_Some (fs !! p))) fs) → total P (exists_file p) Q.
Proof. intros H d Hh Hd. unfold exists_file. eauto 6. Qed.

Lemma total_read p (Q : string → Files → Prop) :
  (∀ fs, P fs → ∃ t, fs !! p = Some t ∧ Q t fs) → total P (read_file p) Q.
Proof.
  intros H. eapply total_bind; [apply (total_get _ _ (λ o fs, P fs ∧ o = fs !! p)); eauto|].
  intros o d Hh [Hd Ho]. destruct (H _ Hd) as (t & Ht & HQ). rewrite Ht in Ho. subst o.
  exists t, d. auto.
Qed.

Lemma total_append p b Q :
  (∀ fs, P fs → Q tt (alter (λ old, old +:+ b) p fs)) → total P (append_file p b) Q.
Proof.
  intros H d Hh Hd. unfold append_file. rewrite next_fault_healthy by done.
  eexists tt, _. split; [done|]. split; [done|]. simpl. auto.
Qed.

Lemma total_write p b Q : (∀ fs, P fs → Q tt (<[p := b]> fs)) → total P (write_file p b) Q.
Proof.
  intros H d Hh Hd. unfold write_file. rewrite next_fault_healthy by done.
  eexists tt, _. split; [done|]. split; [done|]. simpl. auto.
Qed.
End total_calls.

Lemma total_remove P p (Q : result unit RemoveError → Files → Prop) :
  (∀ fs, P fs → Q (Ok tt) (delete p fs) ∧ (fs !! p = None → Q (Err NotFound) fs)) → total P (remove_file p) Q.
Proof.
  intros H d Hh Hd. unfold remove_file. destruct (H _ Hd) as [H1 H2]. destruct (d_files d !! p) as [t|] eqn:E.
  - rewrite next_fault_healthy by done. eexists _, _. split; [reflexivity|]. split; [exact Hh|exact H1].
  - eexists _, _. split; [reflexivity|]. split; [exact Hh|by apply H2].
Qed.

(** [refused P m e E]: on a healthy disk the program fails with [e], and leaves files
    that satisfy [E]. *)
Definition refused {A} (P : Files → Prop) (m : Io A) (e : string) (E : Files → Prop) : Prop :=
  ∀ d, healthy d → P (d_files d) → ∃ d', m d = (Err e, d') ∧ healthy d' ∧ E (d_files d').

Lemma refused_bind {A B} P (m : Io B) (k : B → Io A) R e E :
  total P m R → (∀ x, refused (R x) (k x) e E) → refused P (io_bind m k) e E.
Proof.
  intros Hm Hk d Hh Hd. destruct (Hm d Hh Hd) as (x & d' & Hx & Hh' & Hd').
  unfold io_bind. rewrite Hx. by apply Hk.
Qed.

Lemma refused_err {A} P e (E : Files → Prop) : (∀ fs, P fs → E fs) → refused P (io_err (A:=A) e) e E.
Proof. intros H d Hh Hd. exists d. auto. Qed.

Lemma refused_fact {A} P (φ : Prop) (m : Io A) e E :
  (φ → refused P m e E) → refused (λ fs, P fs ∧ φ) m e E.
Proof. intros H d Hh [Hd Hφ]. by apply H. Qed.

(** ** What a program can reach

    [confined S m]: whatever happens, the program changes no file outside of [S]; and it
    does not break a healthy disk. *)
Definition confined {A} (S : gset string) (m : Io A) : Prop :=
  ∀ d, (∀ p, p ∉ S → d_files (m d).2 !! p = d_files d !! p) ∧ (healthy d → healthy (m d).2).

Create HintDb confined.

Lemma healthy_next_fault d : healthy d → healthy (next_fault d).2.
Proof. intros H. by rewrite next_fault_healthy. Qed.

Section confined.
Context (S : gset string).

Lemma confined_of {A} (r : result A string) : confined S (io_of r).
Proof. by intros d. Qed.

Lemma confined_ret {A} (x : A) : confined S (io_ret x).
Proof. by intros d. Qed.

Lemma confined_err {A} e : confined S (io_err (A:=A) e).
Proof. by intros d. Qed.

Lemma confined_bind {A B} (m : Io A) (k : A → Io B) :
  confined S m → (∀ x, confined S (k x)) → confined S (io_bind m k).
Proof.
  intros Hm Hk d. unfold io_bind. destruct (Hm d) as [H1 H2]. destruct (m d) as [[x|e] d']; simpl in *; [|done].
  destruct (Hk x d') as [H3 H4]. split; [intros p Hp; by rewrite H3, H1|auto].
Qed.

(** A step whose value is known. *)
Lemma confined_known {A B} c (x : A) (k : A → Io B) :
  confined S (k x) → confined S (io_bind (io_context c (io_of (Ok x))) k).
Proof. done. Qed.

Lemma confined_context {A} c (m : Io A) : confined S m → confined S (io_context c m).
Proof. intros H d. unfold io_context. specialize (H d). by destruct (m d) as [[x|e] d']. Qed.

Lemma confined_try {A} (m : Io A) : confined S m → confined S (io_try m).
Proof. intros H d. unfold io_try. specialize (H d). by destruct (m d) as [r d']. Qed.

Lemma confined_get {A} (get : Files → A) : confined S (sys_get get).
Proof.
  intros d. pose proof (healthy_next_fault d). unfold sys_get. fault_cases d; (split; [intros; simpl; by rewrite ?Hfiles|done]).
Qed.

Lemma confined_check : confined S sys_check.
Proof.
  intros d. pose proof (healthy_next_fault d). unfold sys_check. fault_cases d; (split; [intros; simpl; by rewrite ?Hfiles|done]).
Qed.

Lemma confined_exists p : confined S (exists_file p).
Proof. by intros d. Qed.

Lemma confined_change change :
  (∀ fs p, p ∉ S → change fs !! p = fs !! p) → confined S (sys_change change).
Proof.
  intros Hc d. pose proof (healthy_next_fault d). unfold sys_change.
  fault_cases d; (split; [intros p Hp; simpl; rewrite ?Hc by done; by rewrite ?Hfiles|done]).
Qed.

Lemma confined_read p : confined S (read_file p).
Proof. apply confined_bind; [apply confined_get|]. by intros [t|]. Qed.

Lemma confined_create p : p ∈ S → confined S (create_file p).
Proof.
  intros Hp. apply confined_change. intros fs q Hq. destruct (fs !! p) eqn:E; [done|].
  rewrite lookup_insert_ne; [done|set_solver].
Qed.

Lemma confined_create_new p : p ∈ S → confined S (create_new_file p).
Proof.
  intros Hp. apply confined_bind; [apply confined_exists|]. intros [|]; [by apply confined_err|].
  apply confined_change. intros fs q Hq. rewrite lookup_insert_ne; [done|set_solver].
Qed.

Lemma confined_rename p q : p ∈ S → q ∈ S → confined S (rename_file p q).
Proof.
  intros Hp Hq. apply confined_bind; [apply confined_exists|]. intros [|]; [|by apply confined_err].
  apply confined_change. intros fs r Hr. destruct (fs !! p); [|done].
  rewrite lookup_insert_ne, lookup_delete_ne; [done|set_solver..].
Qed.

Lemma confined_append p b : p ∈ S → confined S (append_file p b).
Proof.
  intros Hp d. pose proof (healthy_next_fault d). unfold append_file.
  fault_cases d; (split; [intros q Hq; simpl; rewrite lookup_alter_ne; [done|set_solver]|done]).
Qed.

Lemma confined_write p b : p ∈ S → confined S (write_file p b).
Proof.
  intros Hp d. pose proof (healthy_next_fault d). unfold write_file. fault_cases d.
  - split; [intros q Hq; simpl; rewrite lookup_insert_ne; [done|set_solver]|done].
  - destruct bytes; (split; [intros q Hq; simpl; rewrite ?Hfiles, ?lookup_insert_ne; [done|set_solver..]|done]).
Qed.

Lemma confined_remove p : p ∈ S → confined S (remove_file p).
Proof.
  intros Hp d. pose proof (healthy_next_fault d). unfold remove_file. destruct (d_files d !! p); [|done].
  fault_cases d; (split; [intros q Hq; simpl; rewrite ?Hfiles, ?lookup_delete_ne; [done|set_solver..]|done]).
Qed.
End confined.

#[export] Hint Resolve confined_of confined_ret confined_err confined_bind confined_context confined_try confined_get
  confined_check confined_exists confined_read confined_create confined_create_new confined_rename
  confined_append confined_write confined_remove : confined.

(** Walks through a program, with a case for each branch. *)
Ltac confine :=
  repeat (intros; match goal with
    | |- confined _ (io_bind _ _) => apply confined_bind
    | |- confined _ (io_context _ _) => apply confined_context
    | |- confined _ (io_try _) => apply confined_try
    | |- confined _ (match ?x with _ => _ end) => destruct x
    | |- confined _ _ => solve [eauto with confined]
    end).

(** ** Runs that only read *)

(** [reads fs m R]: started in [fs], the program leaves the files alone, and what it returns
    satisfies [R]. *)
Definition reads {A} (fs : Files) (m : Io A) (R : A → Prop) : Prop :=
  ∀ d, d_files d = fs →
  d_files (m d).2 = fs ∧ d_trace (m d).2 = d_trace d ∧ ∀ x, (m d).1 = Ok x → R x.

Lemma reads_of {A} fs (r : result A string) R : (∀ x, r = Ok x → R x) → reads fs (io_of r) R.
Proof. by intros H d <-. Qed.

Lemma reads_ret {A} fs (x : A) (R : A → Prop) : R x → reads fs (io_ret x) R.
Proof. intros H. apply (reads_of fs (Ok x)). by intros ? [= <-]. Qed.

Lemma reads_err {A} fs e (R : A → Prop) : reads fs (io_err e) R.
Proof. by apply (reads_of fs (Err e)). Qed.

Lemma reads_bind {A B} fs (m : Io A) (k : A → Io B) R Q :
  reads fs m R → (∀ x, R x → reads fs (k x) Q) → reads fs (io_bind m k) Q.
Proof.
  intros Hm Hk d Hd. destruct (Hm d Hd) as (Hf & Ht & Hx). unfold io_bind.
  destruct (m d) as [[x|e] d']; simpl in *; [|done]. rewrite <-Ht. by apply Hk; [apply Hx|].
Qed.

Lemma reads_get {A} fs (get : Files → A) (R : A → Prop) : R (get fs) → reads fs (sys_get get) R.
Proof. intros H d <-. unfold sys_get. fault_cases d; split_and!; try done. by intros x [= <-]. Qed.

Lemma reads_check fs (R : unit → Prop) : R tt → reads fs sys_check R.
Proof. intros H d <-. unfold sys_check. fault_cases d; split_and!; try done. by intros x [= <-]. Qed.

Lemma reads_exists fs p (R : bool → Prop) : R (bool_decide (is_Some (fs !! p))) → reads fs (exists_file p) R.
Proof. intros H d <-. split_and!; try done. by intros x [= <-]. Qed.

Lemma reads_read fs p : reads fs (read_file p) (λ text, fs !! p = Some text).
Proof.
  eapply reads_bind; [by apply (reads_get _ _ (λ o, o = fs !! p))|]. intros [t|] Ht; [by apply reads_ret|apply reads_err].
Qed.

(** What was true of the files is true after reading. *)
Lemma guarded_reading {A} (I P : Files → Prop) (m : Io A) (R : Files → A → Prop) :
  (∀ fs, P fs → reads fs m (R fs)) → guarded I P m (λ x fs, P fs ∧ R fs x) P.
Proof.
  intros H d Hd. destruct (H _ Hd d eq_refl) as (Hf & Ht & Hx). rewrite Ht, Hf. split; [apply seen_none|].
  destruct ((m d).1); auto.
Qed.

(** ** Reading a successful run backwards *)

Lemma io_bind_Ok {A B} (m : Io A) (k : A → Io B) d y d' :
  io_bind m k d = (Ok y, d') → ∃ x d1, m d = (Ok x, d1) ∧ k x d1 = (Ok y, d').
Proof. unfold io_bind. destruct (m d) as [[x|e] d1]; [eauto|done]. Qed.

Lemma io_context_Ok {A} c (m : Io A) d y d' : io_context c m d = (Ok y, d') → m d = (Ok y, d').
Proof. unfold io_context. destruct (m d) as [[x|e] d1]; [done|by intros [=]]. Qed.

Lemma io_of_Ok {A} (r : result A string) d y d' : io_of r d = (Ok y, d') → r = Ok y ∧ d' = d.
Proof. by intros [=]. Qed.

Lemma sys_check_Ok d y d' : sys_check d = (Ok y, d') → d_files d' = d_files d.
Proof. unfold sys_check. by fault_cases d; intros [= <- <-]. Qed.

Lemma write_file_Ok p b d y d' : write_file p b d = (Ok y, d') → d_files d' !! p = Some b.
Proof. unfold write_file. fault_cases d; [|by destruct bytes]. intros [= <- <-]. apply lookup_insert_eq. Qed.

Lemma write_file_other p b q d : q ≠ p → d_files (write_file p b d).2 !! q = d_files d !! q.
Proof. intros Hq. apply (confined_write {[p]} p b); set_solver. Qed.

(** ** Runs on a healthy disk *)

Lemma write_file_healthy p b d :
  healthy d → ∃ d', write_file p b d = (Ok tt, d') ∧ healthy d' ∧ d_files d' = <[p := b]> (d_files d).
Proof. intros H. unfold write_file. rewrite next_fault_healthy by done. by eexists. Qed.

Lemma remove_file_healthy p d :
  healthy d → healthy (remove_file p d).2 ∧ d_files (remove_file p d).2 = delete p (d_files d).
Proof.
  intros H. unfold remove_file. destruct (d_files d !! p) eqn:Hp; [by rewrite next_fault_healthy|].
  split; [done|]. simpl. by rewrite delete_id.
Qed.

Lemma read_file_healthy p d :
  healthy d → read_file p d = (match d_files d !! p with Some t => Ok t | None => Err os_error end, d).
Proof.
  intros H. unfold read_file, io_bind, sys_get. rewrite next_fault_healthy by done.
  by destruct (d_files d !! p).
Qed.

Lemma sys_check_healthy d : healthy d → sys_check d = (Ok tt, d).
Proof. intros H. unfold sys_check. by rewrite next_fault_healthy. Qed.

Lemma io_bind_run {A B} (m : Io A) (k : A → Io B) d x d1 : m d = (Ok x, d1) → io_bind m k d = k x d1.
Proof. intros H. unfold io_bind. by rewrite H. Qed.

Lemma io_bind_fail {A B} (m : Io A) (k : A → Io B) d e d1 : m d = (Err e, d1) → io_bind m k d = (Err e, d1).
Proof. intros H. unfold io_bind. by rewrite H. Qed.
