(* ===== verification/Omnis.v ===== *)
(** * The OMNIS receipt chain

    crates/jcode-base/src/omnis.rs: receipts chained by their hashes, stored one JSON
    line each, verified as a whole before every append, and published by writing a
    replacement file and renaming it over the ledger.

    Outside the source: SHA-256, the JSON serializer (of receipts and of evidence
    payloads) and the operating system, whose calls are those of [Disk].  Path
    resolution, the lock file and the checks of owner and mode only look at the file
    system; each of them is a call that can fail. *)

From S2P Require Import Prelude RustStr RustText Disk.

Definition PROTOCOL : string := "jourdanlabs.omnis-receipt.v1".

Inductive ClaimCeiling := LocalRecord | LocalVerification.

#[export] Instance ClaimCeiling_eq_dec : EqDecision ClaimCeiling.
Proof. solve_decision. Defined.

Record Receipt {J : Type} := {
  r_protocol : string;
  r_sequence : N;
  r_parent_hash : option string;
  r_event_id : option string;
  r_kind : string;
  r_subject : string;
  r_evidence_sha256 : string;
  r_evidence : option J;
  r_claim_ceiling : ClaimCeiling;
  r_receipt_hash : string;
}.
Arguments Receipt : clear implicits.

Inductive AppendDisposition := Appended | Existing.

Record AppendOutcome {J : Type} := {
  ao_disposition : AppendDisposition;
  ao_receipt : Receipt J;
}.
Arguments AppendOutcome : clear implicits.

Record Verification := {
  v_valid : bool;
  v_entries : nat;
  v_head : option string;
  v_errors : list string;
}.

(** ** Field checks *)

Definition is_ascii_hexdigit (c : chr) : bool :=
  is_ascii_digit c || byte_between 97 102 c || byte_between 65 70 c.

Definition normalize_digest (value : string) : result string string :=
  let raw := default value (strip_prefix "sha256:" value) in
  fail_if negb (String.length raw =? 64) || negb (all_chr is_ascii_hexdigit raw) with
    "evidence_sha256 must be exactly 64 hexadecimal characters" ;;
  Ok ("sha256:" +:+ to_ascii_lowercase raw).

Definition kind_chr (c : chr) : bool :=
  is_ascii_alphanumeric c || Ascii.eqb c "." || Ascii.eqb c "-" || Ascii.eqb c "_".

Definition validate_kind (value : string) : result unit string :=
  fail_if is_empty value || (128 <? String.length value) || negb (all_chr kind_chr value) with
    "kind must be 1-128 ASCII letters, digits, '.', '-', or '_'" ;;
  Ok tt.

Definition event_id_chr (c : chr) : bool := kind_chr c || Ascii.eqb c ":" || Ascii.eqb c "/".

Definition validate_event_id (value : string) : result unit string :=
  fail_if is_empty value || (256 <? String.length value) || negb (all_chr event_id_chr value) with
    "event_id must be 1-256 ASCII letters, digits, '.', '-', '_', ':', or '/'" ;;
  Ok tt.

Definition validate_subject (value : string) : result unit string :=
  fail_if is_blank value || (4096 <? String.length value)
          || contains_chr "010" value || contains_chr "013" value with
    "subject must be non-empty, single-line, and at most 4096 bytes" ;;
  Ok tt.

Section omnis.
Context {J : Type} `{!EqDecision J}.
(** [serde_json::to_vec] on a payload, SHA-256 in hexadecimal, and the [Debug] rendering
    of a text. *)
Context (json_bytes : J → result string string) (sha256_hex debug_str : string → string).

Abbreviation receipt := (Receipt J).

(** ** Hashes *)

Definition length_prefixed (field : string) : string :=
  be64 (N.of_nat (String.length field)) +:+ field.

Definition digest_fields (fields : list string) : string :=
  "sha256:" +:+ sha256_hex (foldr (λ field rest, length_prefixed field +:+ rest) "" fields).

Definition ceiling_name (c : ClaimCeiling) : string :=
  match c with LocalRecord => "local-record" | LocalVerification => "local-verification" end.

Definition receipt_fields (r : receipt) : list string :=
  [r_protocol r; pretty (r_sequence r); default "" (r_parent_hash r); r_kind r; r_subject r;
   r_evidence_sha256 r; ceiling_name (r_claim_ceiling r)]
  ++ match r_event_id r with Some id => ["event-id"; id] | None => [] end.

Definition receipt_hash (r : receipt) : string := digest_fields (receipt_fields r).

Definition evidence_payload_digest (payload : J) : result string string :=
  let? bytes := json_bytes payload in
  Ok ("sha256:" +:+ sha256_hex bytes).

(** ** Verification *)

(** [index as u64 + 1]. *)
Definition sequence_at (index : nat) : N := ((N.of_nat index + 1) mod 2 ^ 64)%N.

Definition entry_error (index : nat) (what : string) : string :=
  "entry " +:+ pretty (N.of_nat (S index)) +:+ " " +:+ what.

Definition error_if (bad : bool) (e : string) : list string := if bad then [e] else [].

Definition invalid_field (index : nat) (name : string) (r : result unit string) : list string :=
  match r with Ok _ => [] | Err e => [entry_error index ("invalid " +:+ name +:+ ": " +:+ e)] end.

Definition evidence_errors (index : nat) (r : receipt) : list string :=
  match r_evidence r with
  | None => []
  | Some payload =>
      match evidence_payload_digest payload with
      | Ok digest =>
          error_if (bool_decide (digest ≠ r_evidence_sha256 r))
            (entry_error index "evidence payload does not match evidence_sha256")
      | Err e => [entry_error index ("evidence payload unhashable: " +:+ e)]
      end
  end.

(** The errors of an event id, and the ids seen so far. *)
Definition event_id_errors (index : nat) (seen : gset string) (r : receipt) : list string * gset string :=
  match r_event_id r with
  | None => ([], seen)
  | Some id =>
      match validate_event_id id with
      | Err e => ([entry_error index ("invalid event id: " +:+ e)], seen)
      | Ok _ => (error_if (bool_decide (id ∈ seen)) (entry_error index "duplicate event id"), {[id]} ∪ seen)
      end
  end.

Definition entry_errors (index : nat) (parent : option string) (seen : gset string) (r : receipt)
  : list string * gset string :=
  let '(id_errors, seen) := event_id_errors index seen r in
  (error_if (bool_decide (r_protocol r ≠ PROTOCOL)) (entry_error index "protocol mismatch")
   ++ error_if (bool_decide (r_sequence r ≠ sequence_at index)) (entry_error index "sequence mismatch")
   ++ error_if (bool_decide (r_parent_hash r ≠ parent)) (entry_error index "parent hash mismatch")
   ++ error_if (bool_decide (r_receipt_hash r ≠ receipt_hash r)) (entry_error index "receipt hash mismatch")
   ++ invalid_field index "kind" (validate_kind (r_kind r))
   ++ invalid_field index "subject" (validate_subject (r_subject r))
   ++ error_if (bool_decide (normalize_digest (r_evidence_sha256 r) ≠ Ok (r_evidence_sha256 r)))
        (entry_error index "invalid evidence digest")
   ++ evidence_errors index r
   ++ id_errors, seen).

Fixpoint verify_loop (index : nat) (parent : option string) (seen : gset string) (rs : list receipt)
  : list string * option string :=
  match rs with
  | [] => ([], parent)
  | r :: rs =>
      let '(errors, seen) := entry_errors index parent seen r in
      let '(rest, head) := verify_loop (S index) (Some (r_receipt_hash r)) seen rs in
      (errors ++ rest, head)
  end.

Definition verify_receipts (rs : list receipt) : Verification :=
  let '(errors, head) := verify_loop 0 None ∅ rs in
  {| v_valid := bool_decide (errors = []); v_entries := length rs; v_head := head; v_errors := errors |}.

(** ** The file *)

Context (receipt_json : receipt → result string string) (receipt_parse : string → result receipt string).

Definition parse_line (index : nat) (line : string) : result receipt string :=
  match receipt_parse line with
  | Ok r => Ok r
  | Err e => Err ("OMNIS_RECEIPT_INVALID_JSON at line " +:+ pretty (N.of_nat (S index)) +:+ ": " +:+ e)
  end.

Fixpoint parse_lines (index : nat) (ls : list string) : result (list receipt) string :=
  match ls with
  | [] => Ok []
  | l :: ls =>
      let? r := parse_line index l in
      let? rs := parse_lines (S index) ls in
      Ok (r :: rs)
  end.

Definition parse_ledger (contents : string) : result (list receipt) string :=
  fail_if negb (is_empty contents) && negb (bool_decide (last_chr contents = Some "010"%char)) with
    "OMNIS_RECEIPT_PARTIAL_TAIL" ;;
  parse_lines 0 (lines contents).

Definition read_receipts_from (path : string) : Io (list receipt) :=
  let! contents := io_context ("read OMNIS receipt ledger " +:+ path) (read_file path) in
  io_of (parse_ledger contents).

Definition chain_invalid (code : string) (errors : list string) : string :=
  code +:+ ": [" +:+ join ", " (map debug_str errors) +:+ "]".

Definition verify (path : string) : Io Verification :=
  sys_check ;!
  let! there := exists_file path in
  if negb there then io_ret (verify_receipts [])
  else let! rs := read_receipts_from path in io_ret (verify_receipts rs).

Definition verified_receipts (path : string) : Io (list receipt) :=
  sys_check ;!
  let! there := exists_file path in
  if negb there then io_ret []
  else
    let! rs := read_receipts_from path in
    let v := verify_receipts rs in
    if negb (v_valid v) then io_err (chain_invalid "OMNIS_RECEIPT_CHAIN_INVALID" (v_errors v))
    else io_ret rs.

Definition sync_ledger (path : string) : Io unit :=
  io_context ("sync OMNIS receipt ledger " +:+ path) sys_check ;!
  io_context ("sync OMNIS receipt directory " +:+ path) sys_check.

(** The replacement file, from its creation to the flush of the directory. *)
Definition write_replacement (path temporary existing line : string) : Io unit :=
  io_context ("create OMNIS receipt temp " +:+ temporary) (create_new_file temporary) ;!
  sys_check ;!
  io_context ("copy OMNIS receipt ledger " +:+ path) (append_file temporary existing) ;!
  io_context ("append OMNIS receipt temp " +:+ temporary) (append_file temporary line) ;!
  io_context ("sync OMNIS receipt temp " +:+ temporary) sys_check ;!
  io_context ("atomically publish OMNIS receipt ledger " +:+ temporary +:+ " -> " +:+ path)
    (rename_file temporary path) ;!
  io_context ("sync OMNIS receipt directory " +:+ path) sys_check.

Definition publish_with_appended_line (path temporary line : string) : Io unit :=
  let! existing := io_context ("read OMNIS receipt ledger " +:+ path) (read_file path) in
  let! result := io_try (write_replacement path temporary existing line) in
  match result with
  | Ok _ => io_ret tt
  | Err error =>
      let! removed := remove_file temporary in
      match removed with
      | Err RemoveFailed =>
          io_err ("OMNIS_RECEIPT_PUBLISH_AND_CLEANUP_FAILED: publish=" +:+ error
                  +:+ "; cleanup=" +:+ os_error)
      | Ok _ | Err NotFound => io_err error
      end
  end.

(** What is appended: the request. *)
Record AppendRequest := {
  q_event_id : option string;
  q_kind : string;
  q_subject : string;
  q_evidence_sha256 : string;
  q_claim_ceiling : ClaimCeiling;
  q_evidence : option J;
}.

(** The checks before any file is touched, and the normalized digest. *)
Definition check_request (q : AppendRequest) : result string string :=
  let? _ := match q_event_id q with Some id => validate_event_id id | None => Ok tt end in
  let? _ := validate_kind (q_kind q) in
  let? _ := validate_subject (q_subject q) in
  let? digest := normalize_digest (q_evidence_sha256 q) in
  match q_evidence q with
  | None => Ok digest
  | Some payload =>
      let? bound := evidence_payload_digest payload in
      fail_if bool_decide (bound ≠ digest) with "OMNIS_RECEIPT_EVIDENCE_DIGEST_MISMATCH" ;;
      Ok digest
  end.

Definition same_content (q : AppendRequest) (digest : string) (r : receipt) : bool :=
  bool_decide (r_kind r = q_kind q) && bool_decide (r_subject r = q_subject q)
  && bool_decide (r_evidence_sha256 r = digest)
  && bool_decide (r_claim_ceiling r = q_claim_ceiling q)
  && bool_decide (r_evidence r = q_evidence q).

Definition find_event (id : option string) (rs : list receipt) : option receipt :=
  match id with
  | None => None
  | Some id => find (λ r, bool_decide (r_event_id r = Some id)) rs
  end.

Definition with_hash (h : string) (r : receipt) : receipt := {|
  r_protocol := r_protocol r; r_sequence := r_sequence r; r_parent_hash := r_parent_hash r;
  r_event_id := r_event_id r; r_kind := r_kind r; r_subject := r_subject r;
  r_evidence_sha256 := r_evidence_sha256 r; r_evidence := r_evidence r;
  r_claim_ceiling := r_claim_ceiling r; r_receipt_hash := h |}.

Definition next_receipt (q : AppendRequest) (digest : string) (before : Verification) : receipt :=
  let r := {|
    r_protocol := PROTOCOL; r_sequence := sequence_at (v_entries before);
    r_parent_hash := v_head before; r_event_id := q_event_id q; r_kind := q_kind q;
    r_subject := q_subject q; r_evidence_sha256 := digest; r_evidence := q_evidence q;
    r_claim_ceiling := q_claim_ceiling q; r_receipt_hash := "" |} in
  with_hash (receipt_hash r) r.

(** What [append_inner] does once the ledger is open and read. *)
Definition append_read (path temporary : string) (q : AppendRequest) (digest : string) (rs : list receipt)
  : Io (AppendOutcome J) :=
  let before := verify_receipts rs in
  if negb (v_valid before) then
    io_err (chain_invalid "OMNIS_RECEIPT_CHAIN_INVALID_BEFORE_APPEND" (v_errors before))
  else match find_event (q_event_id q) rs with
  | Some existing =>
      if same_content q digest existing then
        sync_ledger path ;! io_ret {| ao_disposition := Existing; ao_receipt := existing |}
      else io_err ("OMNIS_RECEIPT_IDEMPOTENCY_COLLISION: " +:+ default "" (q_event_id q))
  | None =>
      let r := next_receipt q digest before in
      let! line := io_of (receipt_json r) in
      publish_with_appended_line path temporary (line +:+ String "010" "") ;!
      io_ret {| ao_disposition := Appended; ao_receipt := r |}
  end.

Definition append_inner (path temporary : string) (q : AppendRequest) : Io (AppendOutcome J) :=
  let! digest := io_of (check_request q) in
  sys_check ;!                          (* resolved_ledger_path *)
  sys_check ;!                          (* open_lock *)
  io_context ("open OMNIS receipt ledger " +:+ path) (create_file path) ;!
  sys_check ;!                          (* file.metadata *)
  sys_check ;!                          (* validate_private_file *)
  let! rs := read_receipts_from path in
  append_read path temporary q digest rs.

Definition append (path temporary kind subject evidence_sha256 : string) (claim_ceiling : ClaimCeiling)
  : Io receipt :=
  let! outcome := append_inner path temporary {|
    q_event_id := None; q_kind := kind; q_subject := subject;
    q_evidence_sha256 := evidence_sha256; q_claim_ceiling := claim_ceiling; q_evidence := None |} in
  io_ret (ao_receipt outcome).

Definition append_idempotent (path temporary event_id kind subject evidence_sha256 : string)
  (claim_ceiling : ClaimCeiling) : Io (AppendOutcome J) :=
  append_inner path temporary {|
    q_event_id := Some event_id; q_kind := kind; q_subject := subject;
    q_evidence_sha256 := evidence_sha256; q_claim_ceiling := claim_ceiling; q_evidence := None |}.

Definition append_idempotent_with_evidence (path temporary event_id kind subject evidence_sha256 : string)
  (claim_ceiling : ClaimCeiling) (evidence : J) : Io (AppendOutcome J) :=
  append_inner path temporary {|
    q_event_id := Some event_id; q_kind := kind; q_subject := subject;
    q_evidence_sha256 := evidence_sha256; q_claim_ceiling := claim_ceiling;
    q_evidence := Some evidence |}.
End omnis.
Arguments AppendRequest : clear implicits.
