(* ===== verification/OmnisChain.v ===== *)
(** * Valid receipt chains, and what their head commits to

    What verification checks, as a predicate on chains, how a valid chain grows, and how the
    ledger's text grows with it.  Receipts are hashed over their fields, each prefixed with
    its length, and each receipt names the hash of the one before it.  So two valid chains
    with the same head are the same chain, up to the recoverable evidence payloads, which the
    hash leaves out, or else a collision of SHA-256 can be read off the two. *)

From S2P Require Import Prelude RustStr RustText Disk Omnis.

(** ** Line-oriented text *)

Lemma split_chr_ne c s : split_chr c s ≠ [].
Proof. induction s as [|b s IH]; simpl; [done|]. destruct (Ascii.eqb b c); [done|]. by destruct (split_chr c s). Qed.

Lemma split_chr_join c s t : split_chr c (s +:+ String c t) = split_chr c s ++ split_chr c t.
Proof.
  induction s as [|b s IH].
  - rewrite str_app_nil_l. cbn [split_chr]. by rewrite Ascii.eqb_refl.
  - rewrite str_app_cons. cbn [split_chr]. destruct (Ascii.eqb b c); rewrite IH; [done|].
    pose proof (split_chr_ne c s). by destruct (split_chr c s).
Qed.

Lemma split_chr_free c s : contains_chr c s = false → split_chr c s = [s].
Proof.
  induction s as [|b s IH]; intros Hs; [done|].
  unfold contains_chr in *. simpl in Hs. apply orb_false_iff in Hs as [Hb Hs].
  cbn [split_chr]. rewrite Ascii.eqb_sym, Hb. by rewrite IH.
Qed.

Lemma lines_of_terminated ps : lines_of (ps ++ [""]) = map strip_cr ps.
Proof.
  induction ps as [|p ps IH]; [done|]. simpl.
  destruct ps as [|q ps]; [done|]. simpl in *. by rewrite IH.
Qed.

Lemma lines_terminated s : lines (s +:+ newline) = map strip_cr (split_chr "010" s).
Proof. unfold lines, newline. rewrite split_chr_join. apply lines_of_terminated. Qed.

Lemma last_chr_app_one s c : last_chr (s +:+ String c "") = Some c.
Proof.
  induction s as [|b s IH]; [done|]. rewrite str_app_cons. simpl.
  by destruct (s +:+ String c "") eqn:E; [destruct s|].
Qed.

Lemma last_chr_Some s c : last_chr s = Some c → ∃ s', s = s' +:+ String c "".
Proof.
  induction s as [|b s IH]; [done|]. simpl. destruct s as [|d s].
  - intros [= ->]. by exists "".
  - intros H. destruct (IH H) as [s' ->]. by exists (String b s').
Qed.

(** A text of complete lines. *)
Definition complete (s : string) : Prop := s = "" ∨ ∃ s', s = s' +:+ newline.

Lemma lines_snoc s l :
  complete s → contains_chr "010" l = false → strip_cr l = l →
  lines (s +:+ l +:+ newline) = lines s ++ [l].
Proof.
  intros [->|[s' ->]] Hl Hcr.
  - rewrite str_app_nil_l, lines_terminated, split_chr_free by done. simpl. by rewrite Hcr.
  - rewrite str_app_assoc. unfold newline at 1. rewrite str_app_cons, str_app_nil_l.
    unfold lines at 1, newline. rewrite !split_chr_join. simpl. rewrite app_assoc, lines_of_terminated.
    fold newline. rewrite map_app, lines_terminated, (split_chr_free _ l Hl). simpl. by rewrite Hcr.
Qed.

Section chain.
Context {J : Type} `{!EqDecision J}.
Context (json_bytes : J → result string string) (sha256_hex : string → string).
Abbreviation receipt := (Receipt J).
Abbreviation receipt_hash := (@receipt_hash J sha256_hex).
Abbreviation verify_receipts := (verify_receipts json_bytes sha256_hex).
Abbreviation evidence_payload_digest := (evidence_payload_digest json_bytes sha256_hex).

(** ** What a valid entry is *)

Record entry_ok (index : nat) (parent : option string) (seen : gset string) (r : receipt) : Prop := {
  ok_protocol : r_protocol r = PROTOCOL;
  ok_sequence : r_sequence r = sequence_at index;
  ok_parent : r_parent_hash r = parent;
  ok_hash : r_receipt_hash r = receipt_hash r;
  ok_kind : validate_kind (r_kind r) = Ok tt;
  ok_subject : validate_subject (r_subject r) = Ok tt;
  ok_digest : normalize_digest (r_evidence_sha256 r) = Ok (r_evidence_sha256 r);
  ok_evidence p : r_evidence r = Some p → evidence_payload_digest p = Ok (r_evidence_sha256 r);
  ok_event id : r_event_id r = Some id → validate_event_id id = Ok tt ∧ id ∉ seen;
}.

Definition ids_of (r : receipt) : gset string :=
  match r_event_id r with Some id => {[id]} | None => ∅ end.

Fixpoint chain_ok (index : nat) (parent : option string) (seen : gset string) (rs : list receipt) : Prop :=
  match rs with
  | [] => True
  | r :: rs => entry_ok index parent seen r ∧ chain_ok (S index) (Some (r_receipt_hash r)) (ids_of r ∪ seen) rs
  end.

Lemma error_if_nil b e : error_if b e = [] ↔ b = false.
Proof. by destruct b. Qed.

Lemma error_if_ne_nil {A} `{!EqDecision A} (a b : A) e : error_if (bool_decide (a ≠ b)) e = [] ↔ a = b.
Proof. rewrite error_if_nil, bool_decide_eq_false. split; [apply dec_stable|intros -> H; by apply H]. Qed.

Lemma invalid_field_nil i n (r : result unit string) : invalid_field i n r = [] ↔ r = Ok tt.
Proof. destruct r as [[]|e]; simpl; split; congruence. Qed.

Lemma entry_errors_nil index parent seen r :
  (entry_errors json_bytes sha256_hex index parent seen r).1 = [] ↔ entry_ok index parent seen r.
Proof.
  unfold entry_errors. destruct (event_id_errors index seen r) as [es seen'] eqn:Hid. simpl.
  rewrite !app_nil, !error_if_ne_nil, !invalid_field_nil.
  assert (es = [] ↔ ∀ id, r_event_id r = Some id → validate_event_id id = Ok tt ∧ id ∉ seen) as ->.
  { unfold event_id_errors in Hid. destruct (r_event_id r) as [id|]; [|naive_solver].
    destruct (validate_event_id id) as [[]|e] eqn:He; injection Hid as <- <-.
    - rewrite error_if_nil, bool_decide_eq_false. naive_solver.
    - split; [done|]. intros H. destruct (H id eq_refl). congruence. }
  assert (evidence_errors json_bytes sha256_hex index r = [] ↔
    ∀ p, r_evidence r = Some p → evidence_payload_digest p = Ok (r_evidence_sha256 r)) as ->.
  { unfold evidence_errors. destruct (r_evidence r) as [p|]; [|naive_solver].
    destruct (evidence_payload_digest p) as [d|e] eqn:He.
    - rewrite error_if_ne_nil. split; [intros -> ? [= <-]; done|].
      intros H. specialize (H p eq_refl). congruence.
    - split; [done|]. intros H. specialize (H p eq_refl). congruence. }
  split; [intros (?&?&?&?&?&?&?&?&?); by split|intros []; tauto].
Qed.

Lemma entry_errors_seen index parent seen r :
  entry_ok index parent seen r →
  (entry_errors json_bytes sha256_hex index parent seen r).2 = ids_of r ∪ seen.
Proof.
  intros H. unfold entry_errors, event_id_errors, ids_of.
  destruct (r_event_id r) as [id|] eqn:Hid; [|simpl; set_solver].
  by destruct (ok_event _ _ _ _ H id Hid) as [-> _].
Qed.

(** The head of a chain that continues [parent]. *)
Definition head_from (parent : option string) (rs : list receipt) : option string :=
  match last rs with Some r => Some (r_receipt_hash r) | None => parent end.

Lemma omnis_head_from_cons parent r rs : head_from parent (r :: rs) = head_from (Some (r_receipt_hash r)) rs.
Proof.
  unfold head_from. destruct rs as [|q rs]; [done|]. simpl.
  destruct (last (q :: rs)) eqn:E; [done|]. by apply last_None in E.
Qed.

Lemma verify_loop_spec index parent seen rs :
  ((verify_loop json_bytes sha256_hex index parent seen rs).1 = [] ↔ chain_ok index parent seen rs) ∧
  (verify_loop json_bytes sha256_hex index parent seen rs).2 = head_from parent rs.
Proof.
  revert index parent seen. induction rs as [|r rs IH]; intros index parent seen; [by split|].
  cbn [verify_loop]. destruct (entry_errors _ _ _ _ _ _) as [es seen'] eqn:He.
  destruct (IH (S index) (Some (r_receipt_hash r)) seen') as [IH1 IH2].
  destruct (verify_loop _ _ _ _ _ _) as [rest head] eqn:Hv. cbn [fst snd] in *.
  split; [|by rewrite IH2, omnis_head_from_cons].
  rewrite app_nil, IH1. simpl. pose proof (entry_errors_nil index parent seen r) as Hn.
  pose proof (entry_errors_seen index parent seen r) as Hs. rewrite He in Hn, Hs. cbn [fst snd] in Hn, Hs.
  rewrite Hn. split; intros [H1 H2]; (split; [done|]); [by rewrite <- Hs|by rewrite Hs].
Qed.

Definition valid_chain (rs : list receipt) : Prop := v_valid (verify_receipts rs) = true.

Lemma valid_chain_ok rs : valid_chain rs ↔ chain_ok 0 None ∅ rs.
Proof.
  unfold valid_chain, Omnis.verify_receipts. pose proof (proj1 (verify_loop_spec 0 None ∅ rs)) as H.
  destruct (verify_loop _ _ _ _ _ _). simpl in *. by rewrite bool_decide_eq_true.
Qed.

Lemma verify_head rs : v_head (verify_receipts rs) = head_from None rs.
Proof.
  unfold Omnis.verify_receipts. pose proof (proj2 (verify_loop_spec 0 None ∅ rs)) as H.
  by destruct (verify_loop _ _ _ _ _ _).
Qed.

Lemma verify_entries rs : v_entries (verify_receipts rs) = length rs.
Proof. unfold Omnis.verify_receipts. by destruct (verify_loop _ _ _ _ _ _). Qed.

(** ** Growth *)

Definition all_ids (rs : list receipt) : gset string := list_to_set (omap r_event_id rs).

Lemma chain_ok_snoc index parent seen rs r :
  chain_ok index parent seen (rs ++ [r]) ↔
  chain_ok index parent seen rs ∧
  entry_ok (index + length rs) (head_from parent rs) (all_ids rs ∪ seen) r.
Proof.
  revert index parent seen. induction rs as [|q rs IH]; intros index parent seen.
  - simpl. rewrite Nat.add_0_r. unfold all_ids, head_from. simpl. rewrite union_empty_l_L. tauto.
  - rewrite omnis_head_from_cons. simpl. rewrite IH.
    replace (S index + length rs) with (index + S (length rs)) by lia.
    assert (all_ids rs ∪ (ids_of q ∪ seen) = all_ids (q :: rs) ∪ seen) as ->; [|tauto].
    unfold all_ids, ids_of. simpl. destruct (r_event_id q); set_solver.
Qed.

Lemma find_event_None id rs :
  find_event (Some id) rs = None ↔ id ∉ all_ids rs.
Proof.
  unfold all_ids. rewrite elem_of_list_to_set, list_elem_of_omap. simpl. split.
  - intros H (r & Hr & Hid). eapply find_None_elem in H; [|done]. by rewrite bool_decide_eq_false in H.
  - intros H. destruct (find _ _) as [r|] eqn:E; [|done]. apply find_Some_elem in E as [Hr Hid].
    apply bool_decide_eq_true in Hid. by destruct H; eauto.
Qed.

Lemma receipt_hash_with_hash h (r : receipt) : receipt_hash (with_hash h r) = receipt_hash r.
Proof. done. Qed.

Lemma normalize_digest_idem v d : normalize_digest v = Ok d → normalize_digest d = Ok d.
Proof.
  unfold normalize_digest. intros H. cbv zeta in *. set (raw := default v (strip_prefix "sha256:" v)) in *.
  destruct (negb (String.length raw =? 64) || negb (all_chr is_ascii_hexdigit raw)) eqn:E; [done|].
  injection H as <-. apply orb_false_iff in E as [E1 E2]. apply negb_false_iff in E1, E2.
  assert (strip_prefix "sha256:" ("sha256:" +:+ to_ascii_lowercase raw) = Some (to_ascii_lowercase raw)) as ->
    by (by apply strip_prefix_spec).
  simpl.
  assert (String.length (to_ascii_lowercase raw) = String.length raw) as ->
    by (clear; induction raw as [|c s IH]; simpl; congruence).
  assert (∀ s, all_chr is_ascii_hexdigit s = true →
    all_chr is_ascii_hexdigit (to_ascii_lowercase s) = true ∧
    to_ascii_lowercase (to_ascii_lowercase s) = to_ascii_lowercase s) as Hlow.
  { clear. assert (∀ c, is_ascii_hexdigit c = true →
      is_ascii_hexdigit (lower_chr c) = true ∧ lower_chr (lower_chr c) = lower_chr c) as Hc.
    { intros [[] [] [] [] [] [] [] []]; vm_compute; intuition congruence. }
    induction s as [|c s IH]; [done|]. simpl. intros [H1 H2]%andb_true_iff.
    destruct (Hc c H1) as [-> ->]. by destruct (IH H2) as [-> ->]. }
  destruct (Hlow raw E2) as [-> ->]. by rewrite E1.
Qed.

(** A checked request extends a valid chain. *)
Lemma next_receipt_valid rs q digest :
  valid_chain rs → check_request json_bytes sha256_hex q = Ok digest → find_event (q_event_id q) rs = None →
  valid_chain (rs ++ [next_receipt sha256_hex q digest (verify_receipts rs)]).
Proof.
  rewrite !valid_chain_ok. intros Hrs Hq Hnew. apply chain_ok_snoc. split; [done|]. simpl.
  unfold check_request in Hq.
  destruct (match q_event_id q with Some id => _ | None => _ end) as [[]|] eqn:Hid; [|done].
  destruct (validate_kind (q_kind q)) as [[]|] eqn:Hk; [|done].
  destruct (validate_subject (q_subject q)) as [[]|] eqn:Hs; [|done].
  destruct (normalize_digest (q_evidence_sha256 q)) as [d|] eqn:Hd; [|done].
  assert (d = digest ∧ ∀ p, q_evidence q = Some p → evidence_payload_digest p = Ok digest) as [-> Hp].
  { destruct (q_evidence q) as [p|]; [|by simplify_eq].
    destruct (evidence_payload_digest p) as [b|] eqn:Hb; [|done].
    case_bool_decide as Hbd; [done|]. simplify_eq. split; [done|]. by intros ? [= <-]. }
  split; simpl; try done.
  - by rewrite verify_entries.
  - by rewrite verify_head.
  - by eapply normalize_digest_idem.
  - intros id Hid'. rewrite Hid' in Hid. rewrite Hid' in Hnew. split; [done|].
    rewrite union_empty_r_L. by apply find_event_None.
Qed.

Lemma next_receipt_found rs (q : AppendRequest J) digest id :
  q_event_id q = Some id → find_event (Some id) rs = None →
  find_event (Some id) (rs ++ [next_receipt sha256_hex q digest (verify_receipts rs)])
  = Some (next_receipt sha256_hex q digest (verify_receipts rs)).
Proof.
  intros Hid Hnone. simpl in *. rewrite find_app_first, Hnone. simpl. rewrite Hid.
  by rewrite bool_decide_eq_true_2.
Qed.

Lemma next_receipt_same rs (q : AppendRequest J) digest :
  same_content q digest (next_receipt sha256_hex q digest (verify_receipts rs)) = true.
Proof. unfold same_content. simpl. by rewrite !bool_decide_eq_true_2. Qed.
End chain.

(** ** Length prefixes *)

Lemma be_bytes_length n v : String.length (be_bytes n v) = n.
Proof. revert v. induction n as [|n IH]; intros v; simpl; by rewrite ?IH. Qed.

Lemma be_bytes_inj n v w : be_bytes n v = be_bytes n w → (v mod 256 ^ N.of_nat n = w mod 256 ^ N.of_nat n)%N.
Proof.
  induction n as [|n IH]; intros H; [by rewrite !N.mod_1_r|].
  cbn [be_bytes] in H. injection H as Hb Hr. apply IH in Hr.
  assert (∀ a, a < 256 → Ascii.N_of_ascii (Ascii.ascii_of_N a) = a)%N as Hid by (intros; by apply Ascii.N_ascii_embedding).
  apply (f_equal Ascii.N_of_ascii) in Hb. rewrite !Hid in Hb by (apply N.mod_lt; lia).
  rewrite Nat2N.inj_succ, N.pow_succ_r', (N.mul_comm 256).
  rewrite !N.Div0.mod_mul_r by (try apply N.pow_nonzero; lia). by rewrite Hb, Hr.
Qed.

Lemma be64_inj v w : (v < 2 ^ 64)%N → (w < 2 ^ 64)%N → be64 v = be64 w → v = w.
Proof.
  intros Hv Hw H. apply be_bytes_inj in H. change (256 ^ N.of_nat 8)%N with (2 ^ 64)%N in H.
  by rewrite !N.Div0.mod_mod, !N.mod_small in H.
Qed.

Lemma str_app_inj s1 s2 t1 t2 :
  String.length s1 = String.length s2 → s1 +:+ t1 = s2 +:+ t2 → s1 = s2 ∧ t1 = t2.
Proof.
  revert s2. induction s1 as [|c s1 IH]; intros [|c2 s2] Hl H; try done.
  rewrite !str_app_cons in H. injection H as -> H. injection Hl as Hl. by destruct (IH s2 Hl H) as [-> ->].
Qed.

Lemma length_lowercase s : String.length (to_ascii_lowercase s) = String.length s.
Proof. induction s; simpl; congruence. Qed.

Lemma normalize_digest_length v d : normalize_digest v = Ok d → String.length d = 71.
Proof.
  unfold normalize_digest. intros H. cbv zeta in *. set (raw := default v (strip_prefix "sha256:" v)) in *.
  destruct (negb (String.length raw =? 64) || negb (all_chr is_ascii_hexdigit raw)) eqn:E; [done|].
  injection H as <-. apply orb_false_iff in E as [E _]. apply negb_false_iff, Nat.eqb_eq in E.
  by rewrite str_length_app, length_lowercase, E.
Qed.

(** A text whose length fits its prefix. *)
Definition short (s : string) : Prop := (N.of_nat (String.length s) < 2 ^ 64)%N.

Definition prefixed (fields : list string) : string := foldr (λ field rest, length_prefixed field +:+ rest) "" fields.

Lemma prefixed_inj fs gs : Forall short fs → Forall short gs → prefixed fs = prefixed gs → fs = gs.
Proof.
  assert (∀ f fs, prefixed (f :: fs) ≠ "") as Hne.
  { intros f l H. apply (f_equal String.length) in H. change (prefixed (f :: l)) with (length_prefixed f +:+ prefixed l) in H.
    unfold length_prefixed, be64 in H. rewrite !str_length_app, be_bytes_length in H. simpl in H. lia. }
  intros Hf. revert gs. induction Hf as [|f fs Hf1 _ IH]; intros [|g gs] Hg H; [done| | |].
  { by destruct (Hne g gs). }
  { by destruct (Hne f fs). }
  apply Forall_cons in Hg as [Hg1 Hg]. unfold prefixed in H. cbn [foldr] in H.
  unfold length_prefixed at 1 3 in H. rewrite !str_app_assoc in H.
  apply str_app_inj in H as [Hl H]; [|unfold be64; by rewrite !be_bytes_length].
  apply be64_inj in Hl; [|done..]. apply str_app_inj in H as [-> H]; [|lia]. by rewrite (IH gs Hg H).
Qed.

Lemma short_bound s n : String.length s ≤ n → (N.of_nat n < 2 ^ 64)%N → short s.
Proof. unfold short. lia. Qed.

Lemma pretty_go_length n x s : (x < 2 ^ N.of_nat n)%N → String.length (pretty_N_go x s) ≤ n + String.length s.
Proof.
  revert x s. induction n as [|n IH]; intros x s Hx.
  - assert (x = 0%N) as -> by (simpl in Hx; lia). by rewrite pretty_N_go_0.
  - destruct (decide (x = 0%N)) as [->|Hne]; [rewrite pretty_N_go_0; lia|].
    rewrite pretty_N_go_step by lia. etrans; [apply IH|simpl; lia].
    rewrite Nat2N.inj_succ, N.pow_succ_r' in Hx. apply N.Div0.div_lt_upper_bound. lia.
Qed.

Lemma pretty_short v : (v < 2 ^ 64)%N → short (pretty v).
Proof.
  intros Hv. unfold pretty, pretty_N. apply (short_bound _ 64); [|done].
  case_decide; [simpl; lia|]. pose proof (pretty_go_length 64 v "" Hv). simpl in *. lia.
Qed.

(** ** Chains *)

Section head.
Context {J : Type} `{!EqDecision J}.
Context (json_bytes : J → result string string) (sha256_hex : string → string).
Context (sha256_length : ∀ s, String.length (sha256_hex s) = 64).
Abbreviation receipt := (Receipt J).
Abbreviation receipt_hash := (@receipt_hash J sha256_hex).
Abbreviation valid_chain := (valid_chain json_bytes sha256_hex).
Abbreviation chain_ok := (chain_ok json_bytes sha256_hex).
Abbreviation entry_ok := (entry_ok json_bytes sha256_hex).

(** A receipt without its payload: what its hash covers, and the hash. *)
Definition committed (r : receipt) : receipt := {|
  r_protocol := r_protocol r; r_sequence := r_sequence r; r_parent_hash := r_parent_hash r;
  r_event_id := r_event_id r; r_kind := r_kind r; r_subject := r_subject r;
  r_evidence_sha256 := r_evidence_sha256 r; r_evidence := None;
  r_claim_ceiling := r_claim_ceiling r; r_receipt_hash := r_receipt_hash r |}.

(** Hashes of receipts. *)
Definition hash_like (parent : option string) : Prop := ∀ h, parent = Some h → ∃ x, h = "sha256:" +:+ sha256_hex x.

Lemma fields_short index parent seen r : hash_like parent → entry_ok index parent seen r → Forall short (receipt_fields r).
Proof.
  intros Hp [Hpr Hs Hpa _ Hk Hsu Hd _ Hid]. unfold receipt_fields. rewrite Forall_app. split.
  - repeat apply Forall_cons_2; [| | | | | | |done].
    + by rewrite Hpr.
    + apply pretty_short. rewrite Hs. unfold sequence_at. apply N.mod_lt. lia.
    + rewrite Hpa. destruct parent as [h|]; [|done]. destruct (Hp h eq_refl) as [x ->]. simpl default.
      apply (short_bound _ 71); [|done]. rewrite str_length_app, sha256_length. simpl. lia.
    + unfold validate_kind in Hk. apply (short_bound _ 128); [|done].
      destruct (128 <? String.length (r_kind r)) eqn:E; [by rewrite orb_true_r in Hk|]. by apply Nat.ltb_ge.
    + unfold validate_subject in Hsu. apply (short_bound _ 4096); [|done].
      destruct (4096 <? String.length (r_subject r)) eqn:E; [by rewrite orb_true_r in Hsu|]. by apply Nat.ltb_ge.
    + apply (short_bound _ 71); [|done]. by rewrite (normalize_digest_length _ _ Hd).
    + by destruct (r_claim_ceiling r).
  - destruct (r_event_id r) as [id|]; [|done]. destruct (Hid id eq_refl) as [Hv _].
    repeat apply Forall_cons_2; [done| |done].
    unfold validate_event_id in Hv. apply (short_bound _ 256); [|done].
    destruct (256 <? String.length id) eqn:E; [by rewrite orb_true_r in Hv|]. by apply Nat.ltb_ge.
Qed.

(** What is hashed for a receipt. *)
Definition preimage (r : receipt) : string := prefixed (receipt_fields r).

(** Two different texts with the same hash, one from each chain. *)
Definition collision (rs1 rs2 : list receipt) : Prop :=
  ∃ r s, r ∈ rs1 ∧ s ∈ rs2 ∧ preimage r ≠ preimage s ∧ sha256_hex (preimage r) = sha256_hex (preimage s).

Lemma collision_snoc rs1 rs2 r s : collision rs1 rs2 → collision (rs1 ++ [r]) (rs2 ++ [s]).
Proof. intros (x & y & ? & ? & ?). exists x, y. rewrite !elem_of_app. auto. Qed.

Lemma receipt_hash_inj r s :
  Forall short (receipt_fields r) → Forall short (receipt_fields s) → receipt_hash r = receipt_hash s →
  receipt_fields r = receipt_fields s ∨
  preimage r ≠ preimage s ∧ sha256_hex (preimage r) = sha256_hex (preimage s).
Proof.
  intros Hr Hs H. unfold Omnis.receipt_hash, digest_fields in H. apply str_app_inj in H as [_ H]; [|done].
  destruct (decide (preimage r = preimage s)) as [He|Hne]; [left; by apply prefixed_inj|by right].
Qed.

Lemma ceiling_name_inj a b : ceiling_name a = ceiling_name b → a = b.
Proof. by destruct a, b. Qed.

Lemma parent_inj p q : hash_like p → hash_like q → default "" p = default "" q → p = q.
Proof.
  intros Hp Hq. destruct p as [x|], q as [y|]; simpl; intros H; try done; [by subst| |].
  - destruct (Hp x eq_refl) as [z Hz]. by subst.
  - destruct (Hq y eq_refl) as [z Hz]. by subst.
Qed.

Lemma committed_inj i p s i' p' s' r q :
  hash_like p → hash_like p' → entry_ok i p s r → entry_ok i' p' s' q →
  receipt_fields r = receipt_fields q → committed r = committed q ∧ p = p'.
Proof.
  intros Hp Hp' Hr Hq H.
  pose proof (ok_parent _ _ _ _ _ _ Hr) as Hpr. pose proof (ok_parent _ _ _ _ _ _ Hq) as Hpq.
  pose proof (ok_hash _ _ _ _ _ _ Hr) as Hhr. pose proof (ok_hash _ _ _ _ _ _ Hq) as Hhq.
  assert (receipt_hash r = receipt_hash q) as Hh by (unfold Omnis.receipt_hash; by rewrite H).
  unfold receipt_fields in H. simpl in H. injection H as H1 H2 H3 H4 H5 H6 H7 H8.
  apply ceiling_name_inj in H7. apply (inj pretty) in H2. rewrite Hpr, Hpq in H3. apply parent_inj in H3; [|done..].
  split; [|done]. unfold committed. rewrite Hhr, Hhq, Hh, Hpr, Hpq, H1, H2, H3, H4, H5, H6, H7.
  f_equal. destruct (r_event_id r), (r_event_id q); simpl in H8; congruence.
Qed.

Lemma chain_hash_like rs : valid_chain rs → hash_like (head_from None rs).
Proof.
  intros Hv h Hh. destruct rs as [|r rs _] using rev_ind; [done|].
  apply valid_chain_ok, chain_ok_snoc in Hv as [_ Hr]. unfold head_from in Hh. rewrite last_snoc in Hh.
  injection Hh as <-. rewrite (ok_hash _ _ _ _ _ _ Hr). eexists. reflexivity.
Qed.

Lemma valid_chain_snoc rs r :
  valid_chain (rs ++ [r]) → valid_chain rs ∧ entry_ok (length rs) (head_from None rs) (all_ids rs ∪ ∅) r.
Proof. rewrite !valid_chain_ok. intros H. by apply chain_ok_snoc in H. Qed.

(** The head of a valid chain commits to it: two chains with the same head have the
    same committed fields, receipt by receipt, or else exhibit a collision of the hash function
    between two of their receipts. *)
Theorem head_commits_to_the_chain rs1 rs2 :
  valid_chain rs1 → valid_chain rs2 →
  v_head (verify_receipts json_bytes sha256_hex rs1) = v_head (verify_receipts json_bytes sha256_hex rs2) →
  map committed rs1 = map committed rs2 ∨ collision rs1 rs2.
Proof.
  rewrite !verify_head. revert rs2. induction rs1 as [|r1 rs1 IH] using rev_ind; intros rs2 Hv1 Hv2 Hh.
  - destruct rs2 as [|r2 rs2 _] using rev_ind; [by left|]. unfold head_from in Hh. by rewrite last_snoc in Hh.
  - destruct rs2 as [|r2 rs2 _] using rev_ind; [unfold head_from in Hh; by rewrite last_snoc in Hh|].
    apply valid_chain_snoc in Hv1 as [Hv1 H1], Hv2 as [Hv2 H2].
    unfold head_from in Hh. rewrite !last_snoc in Hh. injection Hh as Hh.
    rewrite (ok_hash _ _ _ _ _ _ H1), (ok_hash _ _ _ _ _ _ H2) in Hh.
    pose proof (chain_hash_like _ Hv1) as Hl1. pose proof (chain_hash_like _ Hv2) as Hl2.
    apply receipt_hash_inj in Hh as [Hf|Hc];
      [| |exact (fields_short _ _ _ _ Hl1 H1)|exact (fields_short _ _ _ _ Hl2 H2)].
    + destruct (committed_inj _ _ _ _ _ _ _ _ Hl1 Hl2 H1 H2 Hf) as [Hr Hp].
      destruct (IH rs2 Hv1 Hv2 Hp) as [Heq|Hc]; [left|right; by apply collision_snoc].
      rewrite !map_app, Heq. simpl. by rewrite Hr.
    + right. exists r1, r2. rewrite !elem_of_app, !list_elem_of_singleton. auto.
Qed.

(** Payloads can be dropped from a ledger, and it still verifies. *)
Lemma committed_chain_ok i p s rs : chain_ok i p s rs → chain_ok i p s (map committed rs).
Proof.
  revert i p s. induction rs as [|r rs IH]; intros i p s; [done|]. simpl. intros [Hr Hrs].
  split; [|by apply IH]. destruct Hr. by split.
Qed.

Lemma dropped_payloads_still_verify rs :
  valid_chain rs → valid_chain (map committed rs) ∧
  v_head (verify_receipts json_bytes sha256_hex (map committed rs)) = v_head (verify_receipts json_bytes sha256_hex rs).
Proof.
  rewrite !valid_chain_ok, !verify_head. intros H. split; [by apply committed_chain_ok|].
  destruct rs as [|r rs _] using rev_ind; [done|]. unfold head_from.
  rewrite map_app. simpl. by rewrite !last_snoc.
Qed.
End head.

(** ** At work *)

Definition constant_sha (s : string) : string :=
  "0000000000000000000000000000000000000000000000000000000000000000".

Definition lone_receipt (payload : option string) : Receipt string :=
  with_hash ("sha256:" +:+ constant_sha "") {|
    r_protocol := PROTOCOL; r_sequence := 1; r_parent_hash := None; r_event_id := Some "e1"; r_kind := "edit";
    r_subject := "a.txt"; r_evidence_sha256 := "sha256:" +:+ constant_sha ""; r_evidence := payload;
    r_claim_ceiling := LocalRecord; r_receipt_hash := "" |}.

Lemma head_commits_to_the_chain_witness :
  map committed [lone_receipt None] = map committed [lone_receipt (Some "kept")] ∨
  collision constant_sha [lone_receipt None] [lone_receipt (Some "kept")].
Proof.
  exact (head_commits_to_the_chain (λ p : string, Ok p) constant_sha (λ _, eq_refl) [lone_receipt None]
    [lone_receipt (Some "kept")] eq_refl eq_refl eq_refl).
Defined.
