(* ===== verification/OmnisDisk.v ===== *)
(** * The receipt chain on disk

    How the text of the ledger grows, what an append leaves in it when any system call
    may fail or the process may die between two of them, and that it succeeds when
    nothing fails. *)

From S2P Require Import Prelude RustStr RustText Disk Omnis OmnisChain.

(** What the ledger relies on in the serializer of receipts: one line of text that
    reads back. *)
Class LineSerializer {R} (to_line : R → result string string) (of_line : string → result R string) : Prop :=
  serialize_line r : ∃ line, to_line r = Ok line ∧ of_line line = Ok r ∧
    contains_chr "010" line = false ∧ strip_cr line = line.

Section disk.
Context {J : Type} `{!EqDecision J}.
Context (json_bytes : J → result string string) (sha256_hex debug_str : string → string).
Context (receipt_json : Receipt J → result string string) (receipt_parse : string → result (Receipt J) string).
Abbreviation parse_ledger := (parse_ledger receipt_parse).
Abbreviation verify_receipts := (verify_receipts json_bytes sha256_hex).
Abbreviation valid_chain := (valid_chain json_bytes sha256_hex).
Abbreviation check_request := (check_request json_bytes sha256_hex).
Abbreviation next_receipt := (@next_receipt J sha256_hex).
Abbreviation append_inner :=
  (append_inner json_bytes sha256_hex debug_str receipt_json receipt_parse).

(** ** Text *)

Lemma parse_lines_app i ls l rs :
  parse_lines receipt_parse i ls = Ok rs →
  parse_lines receipt_parse i (ls ++ [l])
  = match receipt_parse l with
    | Ok r => Ok (rs ++ [r])
    | Err e => Err ("OMNIS_RECEIPT_INVALID_JSON at line " +:+ pretty (N.of_nat (S (i + length ls))) +:+ ": " +:+ e)
    end.
Proof.
  revert i rs. induction ls as [|q ls IH]; intros i rs H; simpl in *.
  - injection H as <-. unfold parse_line. rewrite Nat.add_0_r. by destruct (receipt_parse l).
  - destruct (parse_line _ _ _) as [r|] eqn:Hr; [|done].
    destruct (parse_lines _ _ _) as [rs'|] eqn:Hrs; [|done]. injection H as <-.
    rewrite (IH _ _ Hrs). replace (i + S (length ls)) with (S i + length ls) by lia.
    by destruct (receipt_parse l).
Qed.

Lemma complete_ledger c rs : parse_ledger c = Ok rs → complete c.
Proof.
  unfold Omnis.parse_ledger. destruct c as [|b c]; [by left|].
  case_bool_decide as Hl; [|done]. intros _. right. by apply last_chr_Some.
Qed.

Lemma parse_ledger_snoc c rs r line :
  parse_ledger c = Ok rs → receipt_parse line = Ok r →
  contains_chr "010" line = false → strip_cr line = line →
  parse_ledger (c +:+ line +:+ newline) = Ok (rs ++ [r]).
Proof.
  intros Hc Hr Hn Hcr. pose proof (complete_ledger _ _ Hc) as Hcomp.
  unfold Omnis.parse_ledger in *. rewrite lines_snoc by done.
  rewrite bool_decide_eq_true_2; [|unfold newline; rewrite <- str_app_assoc; by apply last_chr_app_one].
  rewrite andb_false_r.
  destruct (negb (is_empty c) && _); [done|]. by rewrite (parse_lines_app _ _ _ _ Hc), Hr.
Qed.

(** ** One append *)

Context (path temporary : string).

(** The file before the append, as it is read: nothing and an empty file are the same. *)
Definition untouched (c0 : option string) (fs : Files) : Prop :=
  fs !! path = c0 ∨ fs !! path = Some (default "" c0).

(** The file with the receipt of request [q] behind a valid chain. *)
Definition grown (c0 : option string) (q : AppendRequest J) (o : option (Receipt J)) (fs : Files) : Prop :=
  ∃ rs digest line,
    let r := next_receipt q digest (verify_receipts rs) in
    parse_ledger (default "" c0) = Ok rs ∧ valid_chain rs ∧ check_request q = Ok digest ∧
    find_event (q_event_id q) rs = None ∧ receipt_json r = Ok line ∧ (o = None ∨ o = Some r) ∧
    fs !! path = Some (default "" c0 +:+ line +:+ newline).

(** The file with a receipt of the same event and content in its valid chain. *)
Definition found (c0 : option string) (q : AppendRequest J) (r : Receipt J) (fs : Files) : Prop :=
  ∃ rs digest, parse_ledger (default "" c0) = Ok rs ∧ valid_chain rs ∧ check_request q = Ok digest ∧
    find_event (q_event_id q) rs = Some r ∧ same_content q digest r = true ∧
    fs !! path = Some (default "" c0).

Definition unharmed (c0 : option string) (q : AppendRequest J) (fs : Files) : Prop :=
  untouched c0 fs ∨ grown c0 q None fs.

Lemma opened_unharmed c0 q fs : fs !! path = Some (default "" c0) → unharmed c0 q fs.
Proof. intros H. left. by right. Qed.

Section guarded.
Context (c0 : option string) (q : AppendRequest J) (Hne : temporary ≠ path).

Lemma read_guarded :
  guarded (unharmed c0 q) (λ fs, fs !! path = Some (default "" c0))
    (read_receipts_from receipt_parse path)
    (λ rs fs, fs !! path = Some (default "" c0) ∧ parse_ledger (default "" c0) = Ok rs)
    (unharmed c0 q).
Proof.
  unfold read_receipts_from. eapply guarded_bind.
  - apply guarded_context, (guarded_read _ _ _
      (λ t fs, fs !! path = Some (default "" c0) ∧ t = default "" c0)).
    intros fs Hfs. split; [by apply opened_unharmed|]. intros t Ht. by simplify_eq.
  - intros t. apply guarded_of. intros fs [Hfs ->].
    destruct (parse_ledger (default "" c0)) as [rs|]; [done|by apply opened_unharmed].
Qed.

(** Writing the replacement keeps the ledger until the rename, and the rename puts the
    whole new text in place. *)
Lemma write_replacement_guarded line :
  let c := default "" c0 in
  (∀ fs, fs !! path = Some (c +:+ line) → grown c0 q None fs) →
  guarded (unharmed c0 q) (λ fs, fs !! path = Some c) (write_replacement path temporary c line)
    (λ _ fs, fs !! path = Some (c +:+ line)) (unharmed c0 q).
Proof.
  intros c Hgrown. unfold write_replacement.
  set (P t := λ fs : Files, fs !! path = Some c ∧ fs !! temporary = Some t).
  assert (∀ t fs, P t fs → unharmed c0 q fs) as HP by (intros t fs [? _]; by apply opened_unharmed).
  eapply (guarded_bind _ _ _ _ (λ _, P "")).
  { apply guarded_context, (guarded_bind _ _ _ _ (λ _ fs, fs !! path = Some c)); [by apply guarded_exists|].
    intros [|]; [apply guarded_err, opened_unharmed|]. apply guarded_change. intros fs Hfs.
    assert (P "" (<[temporary:=""]> fs)) as Hp
      by (split; [by rewrite lookup_insert_ne|by rewrite lookup_insert_eq]).
    split; [by eapply HP|]. split; [done|by apply opened_unharmed]. }
  intros _. eapply (guarded_bind _ _ _ _ (λ _, P "")); [apply guarded_check; split; [done|by eapply HP]|].
  assert (∀ t b fs, P t fs → P (t +:+ b) (alter (λ old, old +:+ b) temporary fs)) as Happ.
  { intros t b fs [H1 H2]. split; [by rewrite lookup_alter_ne|]. by rewrite lookup_alter_eq, H2. }
  intros _. eapply (guarded_bind _ _ _ _ (λ _, P c)).
  { apply guarded_context, guarded_append; [by apply Happ|]. intros fs b Hfs. split; by eapply HP, Happ. }
  intros _. eapply (guarded_bind _ _ _ _ (λ _, P (c +:+ line))).
  { apply guarded_context, guarded_append; [by apply Happ|]. intros fs b Hfs. split; by eapply HP, Happ. }
  intros _. eapply (guarded_bind _ _ _ _ (λ _, P (c +:+ line))).
  { apply guarded_context, guarded_check. split; [done|by eapply HP]. }
  intros _. eapply (guarded_bind _ _ _ _ (λ _ fs, fs !! path = Some (c +:+ line))).
  { apply guarded_context, (guarded_bind _ _ _ _ (λ _, P (c +:+ line))); [by apply guarded_exists|].
    intros [|]; [|apply guarded_err; by apply HP]. apply guarded_change. intros fs Hfs.
    assert (match fs !! temporary with Some text => <[path:=text]> (delete temporary fs) | None => fs end
            !! path = Some (c +:+ line)) as Heq.
    { destruct Hfs as [_ ->]. by rewrite lookup_insert_eq. }
    split; [right; by apply Hgrown|]. split; [done|by eapply HP]. }
  intros _. apply guarded_context, guarded_check. intros fs Hfs. split; [done|]. right. by apply Hgrown.
Qed.

Lemma publish_guarded line :
  let c := default "" c0 in
  (∀ fs, fs !! path = Some (c +:+ line) → grown c0 q None fs) →
  guarded (unharmed c0 q) (λ fs, fs !! path = Some c) (publish_with_appended_line path temporary line)
    (λ _ fs, fs !! path = Some (c +:+ line)) (unharmed c0 q).
Proof.
  intros c Hgrown. unfold publish_with_appended_line. eapply guarded_bind.
  { apply guarded_context, (guarded_read _ _ _ (λ t fs, fs !! path = Some c ∧ t = c)).
    intros fs Hfs. split; [by apply opened_unharmed|]. intros t Ht. by simplify_eq. }
  intros t. apply guarded_fact. intros ->.
  eapply guarded_bind; [apply guarded_try, write_replacement_guarded, Hgrown|].
  intros [[]|e]; [by apply guarded_ret|].
  eapply (guarded_bind _ _ _ _ (λ _, unharmed c0 q)).
  - apply guarded_remove. intros fs Hfs.
    assert (unharmed c0 q (delete temporary fs)).
    { destruct Hfs as [Hu|(rs & d & l & ? & ? & ? & ? & ? & ? & Hfs)]; [left|right].
      - unfold untouched in *. by rewrite lookup_delete_ne.
      - exists rs, d, l. rewrite lookup_delete_ne by done. naive_solver. }
    split_and!; auto.
  - intros [[]|[]]; by apply guarded_err.
Qed.

Lemma append_inner_guarded :
  guarded (unharmed c0 q) (λ fs, fs !! path = c0) (append_inner path temporary q)
    (λ o fs, match ao_disposition o with
             | Appended => grown c0 q (Some (ao_receipt o)) fs
             | Existing => found c0 q (ao_receipt o) fs
             end) (unharmed c0 q).
Proof.
  unfold Omnis.append_inner.
  assert (∀ fs, fs !! path = c0 → unharmed c0 q fs) as H0 by (intros; by do 2 left).
  eapply (guarded_bind _ _ _ _ (λ digest fs, fs !! path = c0 ∧ check_request q = Ok digest)).
  { apply guarded_of. intros fs Hfs. destruct (check_request q); auto. }
  intros digest. do 2 (eapply (guarded_bind _ _ _ _ (λ _ fs, fs !! path = c0 ∧ check_request q = Ok digest));
    [apply guarded_check; intros fs [??]; auto|intros _]).
  set (P := λ fs : Files, fs !! path = Some (default "" c0) ∧ check_request q = Ok digest).
  assert (∀ fs, P fs → unharmed c0 q fs) as HP by (intros fs [? _]; by apply opened_unharmed).
  eapply (guarded_bind _ _ _ _ (λ _, P)).
  { apply guarded_context, guarded_change. intros fs [Hfs Hq].
    assert (P match fs !! path with Some _ => fs | None => <[path:=""]> fs end) as Hp.
    { split; [|done]. destruct c0 as [c|]; rewrite Hfs; [done|]. by rewrite lookup_insert_eq. }
    auto. }
  intros _. do 2 (eapply (guarded_bind _ _ _ _ (λ _, P)); [apply guarded_check; auto|intros _]).
  eapply (guarded_bind _ _ _ _ (λ rs fs, P fs ∧ parse_ledger (default "" c0) = Ok rs)).
  { intros d [Hd Hq]. destruct (read_guarded d Hd) as [H1 H2]. split; [done|].
    destruct ((read_receipts_from receipt_parse path d).1); [|done]. by destruct H2. }
  intros rs. unfold append_read. cbv zeta. destruct (v_valid (verify_receipts rs)) eqn:Hv; cbn [negb];
    [|apply guarded_err; intros fs [??]; auto].
  destruct (find_event (q_event_id q) rs) as [old|] eqn:Hf.
  { destruct (same_content q digest old) eqn:Hsame; [|apply guarded_err; intros fs [??]; auto].
    apply guarded_fact. intros Hrs.
    unfold sync_ledger. eapply (guarded_bind _ _ _ _ (λ _, P)).
    - eapply (guarded_bind _ _ _ _ (λ _, P)); [|intros _]; apply guarded_context, guarded_check; auto.
    - intros _. apply guarded_ret. intros fs [Hfs Hq]. by exists rs, digest. }
  eapply (guarded_bind _ _ _ _ (λ line fs, (P fs ∧ parse_ledger (default "" c0) = Ok rs) ∧
    receipt_json (next_receipt q digest (verify_receipts rs)) = Ok line)).
  { apply guarded_of. intros fs [Hp Hrs]. destruct (receipt_json _) as [line|]; auto. }
  intros line. apply guarded_fact. intros Hline. apply guarded_fact. intros Hrs.
  apply guarded_fact. intros Hq.
  assert (∀ o fs, o = None ∨ o = Some (next_receipt q digest (verify_receipts rs)) →
    fs !! path = Some (default "" c0 +:+ line +:+ String "010" "") → grown c0 q o fs) as Hgrown.
  { intros o fs Ho Hfs. exists rs, digest, line. split_and!; done. }
  eapply guarded_bind; [apply publish_guarded; intros fs; apply Hgrown; by left|].
  intros []. apply guarded_ret. intros fs. apply Hgrown. by right.
Qed.
End guarded.

(** ** When nothing fails *)

Lemma write_replacement_total c line (F : Files) :
  temporary ≠ path → F !! path = Some c → F !! temporary = None →
  total (λ fs, fs = F) (write_replacement path temporary c line)
    (λ _ fs, fs = <[path := c +:+ line]> F).
Proof.
  intros Hne Hp Ht. unfold write_replacement.
  set (P t := λ fs : Files, fs = <[temporary := t]> F).
  eapply (total_bind _ _ _ (λ _, P "")).
  { apply total_context, (total_bind _ _ _ (λ b fs, b = false ∧ fs = F)).
    - apply total_exists. intros fs ->. split; [|done]. apply bool_decide_eq_false. rewrite Ht. by intros [? ?].
    - intros [|]; [by intros d _ [? _]|]. apply total_change. by intros fs [_ ->]. }
  assert (∀ t b fs, P t fs → P (t +:+ b) (alter (λ old, old +:+ b) temporary fs)) as Happ.
  { intros t b fs ->. unfold P. by rewrite alter_insert_eq. }
  intros _. eapply (total_bind _ _ _ (λ _, P "")); [by apply total_check|].
  intros _. eapply (total_bind _ _ _ (λ _, P c)); [by apply total_context, total_append, Happ|].
  intros _. eapply (total_bind _ _ _ (λ _, P (c +:+ line))); [by apply total_context, total_append, Happ|].
  intros _. eapply (total_bind _ _ _ (λ _, P (c +:+ line))); [by apply total_context, total_check|].
  intros _. eapply (total_bind _ _ _ (λ _ fs, fs = <[path := c +:+ line]> F));
    [|intros _; by apply total_context, total_check].
  apply total_context, (total_bind _ _ _ (λ b fs, b = true ∧ P (c +:+ line) fs)).
  - apply total_exists. intros fs ->. split; [|done]. apply bool_decide_eq_true. by rewrite lookup_insert_eq.
  - intros [|]; [|by intros d _ [? _]]. apply total_change. intros fs [_ Hfs]. unfold P in Hfs.
    subst fs. by rewrite lookup_insert_eq, delete_insert_id.
Qed.

Section healthy_append.
Context (F : Files) (q : AppendRequest J) (digest : string) (rs : list (Receipt J)).
Context (Hne : temporary ≠ path) (Ht : F !! temporary = None).
Abbreviation c0 := (F !! path).
Context (Hq : check_request q = Ok digest) (Hrs : parse_ledger (default "" c0) = Ok rs).
Abbreviation append_read := (append_read json_bytes sha256_hex debug_str receipt_json path temporary q digest rs).

(** The files before the ledger is opened, and after. *)
Definition closed (fs : Files) : Prop := fs = F.
Definition opened (fs : Files) : Prop := fs = <[path := default "" c0]> F.

Lemma opened_at fs : opened fs → fs !! path = Some (default "" c0).
Proof. intros ->. apply lookup_insert_eq. Qed.

(** The steps before the chain is examined. *)
Lemma read_total :
  total opened (read_receipts_from receipt_parse path) (λ rs' fs, opened fs ∧ rs' = rs).
Proof.
  unfold read_receipts_from. eapply total_bind.
  - apply total_context, (total_read _ _ (λ t fs, opened fs ∧ t = default "" c0)).
    intros fs Hfs. exists (default "" c0). split; [by apply opened_at|done].
  - intros t. apply total_fact. intros ->. rewrite Hrs. by apply (total_ret _ rs).
Qed.

Lemma create_total : total closed (io_context ("open OMNIS receipt ledger " +:+ path) (create_file path)) (λ _, opened).
Proof.
  apply total_context, total_change. intros fs ->. unfold opened.
  destruct (F !! path) as [c|] eqn:Hp; [|done]. by rewrite insert_id.
Qed.

Lemma append_inner_total Q : total opened append_read Q → total closed (append_inner path temporary q) Q.
Proof.
  intros H. unfold Omnis.append_inner. rewrite Hq.
  eapply (total_bind _ _ _ (λ x fs, closed fs ∧ x = digest)); [by apply (total_ret _ digest)|].
  intros x. apply total_fact. intros ->.
  do 2 (eapply (total_bind _ _ _ (λ _, closed)); [by apply total_check|intros []]).
  eapply total_bind; [apply create_total|intros []].
  do 2 (eapply (total_bind _ _ _ (λ _, opened)); [by apply total_check|intros []]).
  eapply total_bind; [apply read_total|]. intros rs'. apply total_fact. by intros ->.
Qed.

Lemma append_inner_refused e E : refused opened append_read e E → refused closed (append_inner path temporary q) e E.
Proof.
  intros H. unfold Omnis.append_inner. rewrite Hq.
  eapply (refused_bind _ _ _ (λ x fs, closed fs ∧ x = digest)); [by apply (total_ret _ digest)|].
  intros x. apply refused_fact. intros ->.
  do 2 (eapply (refused_bind _ _ _ (λ _, closed)); [by apply total_check|intros []]).
  eapply refused_bind; [apply create_total|intros []].
  do 2 (eapply (refused_bind _ _ _ (λ _, opened)); [by apply total_check|intros []]).
  eapply refused_bind; [apply read_total|]. intros rs'. apply refused_fact. by intros ->.
Qed.

Context (Hvalid : valid_chain rs).

Lemma append_new line :
  find_event (q_event_id q) rs = None →
  receipt_json (next_receipt q digest (verify_receipts rs)) = Ok line →
  total opened append_read (λ o fs,
    o = {| ao_disposition := Appended; ao_receipt := next_receipt q digest (verify_receipts rs) |} ∧
    fs = <[path := default "" c0 +:+ line +:+ newline]> F).
Proof.
  intros Hf Hl. unfold Omnis.append_read. rewrite Hvalid, Hf. cbn [negb]. cbv zeta. rewrite Hl.
  eapply (total_bind _ _ _ (λ x fs, opened fs ∧ x = line)); [by apply (total_ret _ line)|].
  intros x. apply total_fact. intros ->. unfold publish_with_appended_line.
  eapply (total_bind _ _ _ (λ _ fs, fs = <[path := default "" c0 +:+ line +:+ newline]> F));
    [|intros []; by apply total_ret].
  eapply (total_bind _ _ _ (λ t fs, opened fs ∧ t = default "" c0)).
  { apply total_context, total_read. intros fs Hfs. exists (default "" c0). split; [by apply opened_at|done]. }
  intros t. apply total_fact. intros ->.
  eapply (total_bind _ _ _ (λ r fs, ∃ x : unit, r = Ok x ∧ fs = <[path := default "" c0 +:+ line +:+ newline]> F)).
  - apply total_try. intros d Hh Hd.
    rewrite <- (insert_insert_eq F path (default "" c0 +:+ line +:+ newline) (default "" c0)).
    apply (write_replacement_total (default "" c0) (line +:+ newline)); try done;
      [apply lookup_insert_eq|by rewrite lookup_insert_ne].
  - intros r d Hh (x & -> & Hd). by exists tt, d.
Qed.

Lemma append_existing old :
  find_event (q_event_id q) rs = Some old → same_content q digest old = true →
  total opened append_read (λ o fs,
    o = {| ao_disposition := Existing; ao_receipt := old |} ∧ opened fs).
Proof.
  intros Hf Hs. unfold Omnis.append_read. rewrite Hvalid, Hf, Hs. cbn [negb]. cbv zeta.
  unfold sync_ledger. eapply (total_bind _ _ _ (λ _, opened)).
  - eapply (total_bind _ _ _ (λ _, opened)); [|intros []]; by apply total_context, total_check.
  - intros []. by apply total_ret.
Qed.

Lemma append_collision old :
  find_event (q_event_id q) rs = Some old → same_content q digest old = false →
  refused opened append_read ("OMNIS_RECEIPT_IDEMPOTENCY_COLLISION: " +:+ default "" (q_event_id q))
    opened.
Proof.
  intros Hf Hs. unfold Omnis.append_read. rewrite Hvalid, Hf, Hs. cbn [negb]. cbv zeta.
  by apply refused_err.
Qed.
End healthy_append.
End disk.
