(* ===== verification/OmnisTheorems.v ===== *)
(** * What the receipt chain guarantees

    The behaviour of an append on a working disk, what is on disk when an append is cut
    short anywhere and retried, and what the head hash of a chain pins down. *)

From S2P Require Import Prelude RustStr RustText Disk Omnis OmnisChain OmnisDisk.

(** ** A serializer to try the theorems on *)

Section sample.
#[local] Instance ceiling_countable : Countable ClaimCeiling.
Proof.
  refine (inj_countable' (λ c, match c with LocalRecord => true | LocalVerification => false end)
    (λ b : bool, if b then LocalRecord else LocalVerification) _). by intros [].
Defined.

Definition receipt_tuple (r : Receipt string) :=
  (r_protocol r, r_sequence r, r_parent_hash r, r_event_id r, r_kind r, r_subject r, r_evidence_sha256 r,
   r_evidence r, r_claim_ceiling r, r_receipt_hash r).

#[local] Instance receipt_eq_dec : EqDecision (Receipt string).
Proof. solve_decision. Defined.

#[local] Instance receipt_countable : Countable (Receipt string).
Proof.
  refine (inj_countable' receipt_tuple
    (λ t, let '(a, b, c, d, e, f, g, h, i, j) := t in
          {| r_protocol := a; r_sequence := b; r_parent_hash := c; r_event_id := d; r_kind := e;
             r_subject := f; r_evidence_sha256 := g; r_evidence := h; r_claim_ceiling := i;
             r_receipt_hash := j |}) _).
  by intros [].
Defined.

Fixpoint bits (p : positive) : string :=
  match p with xH => "" | xO p => String "0" (bits p) | xI p => String "1" (bits p) end.

Fixpoint of_bits (s : string) : positive :=
  match s with
  | EmptyString => xH
  | String c s => if Ascii.eqb c "0" then xO (of_bits s) else xI (of_bits s)
  end.

Definition sample_json (r : Receipt string) : result string string := Ok (bits (encode r)).

Definition sample_parse (s : string) : result (Receipt string) string :=
  match decode (of_bits s) with Some r => Ok r | None => Err "not a receipt" end.

Definition sample_bytes (payload : string) : result string string := Ok payload.

(** Sixty-four digits, of which the last depends on the text's length. *)
Definition sample_sha (s : string) : string :=
  "000000000000000000000000000000000000000000000000000000000000000" +:+ String (Ascii.ascii_of_nat (48 + String.length s mod 10)) "".

Lemma strip_cr_free s : contains_chr "013" s = false → strip_cr s = s.
Proof.
  induction s as [|c s IH]; intros H; [done|]. unfold contains_chr in *. cbn [any_chr] in H.
  apply orb_false_iff in H as [Hc H]. cbn [strip_cr]. rewrite Ascii.eqb_sym, Hc, (IH H). by destruct s.
Qed.

#[export] Instance sample_serializer : LineSerializer sample_json sample_parse.
Proof.
  intros r. exists (bits (encode r)). unfold sample_parse.
  assert (∀ p, of_bits (bits p) = p) as Hb by (intros p; induction p; simpl; congruence).
  assert (∀ p, contains_chr "010" (bits p) = false ∧ contains_chr "013" (bits p) = false) as Hn
    by (intros p; induction p; done).
  split; [done|]. split_and!; [by rewrite Hb, decode_encode|apply Hn|apply strip_cr_free, Hn].
Qed.
End sample.

(** ** Appending when nothing fails *)

Section guarantees.
Context {J : Type} `{!EqDecision J}.
Context (json_bytes : J → result string string) (sha256_hex debug_str : string → string).
Context (receipt_json : Receipt J → result string string) (receipt_parse : string → result (Receipt J) string).
Abbreviation parse_ledger := (parse_ledger receipt_parse).
Abbreviation verify_receipts := (verify_receipts json_bytes sha256_hex).
Abbreviation valid_chain := (valid_chain json_bytes sha256_hex).
Abbreviation check_request := (check_request json_bytes sha256_hex).
Abbreviation append_inner :=
  (append_inner json_bytes sha256_hex debug_str receipt_json receipt_parse).

(** The receipt of request [q] behind the chain [rs]. *)
Abbreviation receipt_after q digest rs := (next_receipt sha256_hex q digest (verify_receipts rs)).

Context `{!LineSerializer receipt_json receipt_parse}.

Lemma line_reads_back c rs r line :
  parse_ledger c = Ok rs → receipt_json r = Ok line → parse_ledger (c +:+ line +:+ newline) = Ok (rs ++ [r]).
Proof.
  intros Hc Hl. destruct (serialize_line r) as (l & Hl' & Hp & Hn & Hcr).
  assert (l = line) as -> by congruence. by apply parse_ledger_snoc.
Qed.

(** What a ledger in which request [q] succeeded reads as. *)
Lemma grown_reads path c0 q o fs :
  grown json_bytes sha256_hex receipt_json receipt_parse path c0 q o fs →
  ∃ rs digest c, parse_ledger (default "" c0) = Ok rs ∧ check_request q = Ok digest ∧
    find_event (q_event_id q) rs = None ∧
    fs !! path = Some c ∧ parse_ledger c = Ok (rs ++ [receipt_after q digest rs]) ∧
    valid_chain (rs ++ [receipt_after q digest rs]) ∧
    (o = None ∨ o = Some (receipt_after q digest rs)).
Proof.
  intros (rs & digest & line & Hrs & Hv & Hq & Hf & Hl & Ho & Hp).
  exists rs, digest, (default "" c0 +:+ line +:+ newline).
  split_and!; try done; [by apply line_reads_back|by apply next_receipt_valid].
Qed.

(** The outcome of an append to a valid chain: the chain it leaves and its answer. *)
Definition append_outcome (q : AppendRequest J) (digest : string) (rs : list (Receipt J))
  : list (Receipt J) * result (AppendOutcome J) string :=
  match find_event (q_event_id q) rs with
  | None =>
      (rs ++ [receipt_after q digest rs],
       Ok {| ao_disposition := Appended; ao_receipt := receipt_after q digest rs |})
  | Some old =>
      (rs, if same_content q digest old then Ok {| ao_disposition := Existing; ao_receipt := old |}
           else Err ("OMNIS_RECEIPT_IDEMPOTENCY_COLLISION: " +:+ default "" (q_event_id q)))
  end.

Lemma append_computes path temporary q digest rs d :
  temporary ≠ path → healthy d → d_files d !! temporary = None →
  check_request q = Ok digest → parse_ledger (default "" (d_files d !! path)) = Ok rs → valid_chain rs →
  ∃ d' c, append_inner path temporary q d = ((append_outcome q digest rs).2, d') ∧
    healthy d' ∧ d_files d' = <[path := c]> (d_files d) ∧
    parse_ledger c = Ok (append_outcome q digest rs).1 ∧ valid_chain (append_outcome q digest rs).1.
Proof.
  intros Hne Hh Ht Hq Hrs Hv. unfold append_outcome.
  destruct (find_event (q_event_id q) rs) as [old|] eqn:Hf.
  - destruct (same_content q digest old) eqn:Hs; simpl.
    + destruct (append_inner_total json_bytes sha256_hex debug_str receipt_json receipt_parse path temporary
        (d_files d) q digest rs Hq Hrs _ (append_existing _ _ _ _ path temporary _ q digest rs Hv old Hf Hs) d Hh
        eq_refl) as (x & d' & Hx & Hh' & -> & Hp). eauto 10.
    + destruct (append_inner_refused json_bytes sha256_hex debug_str receipt_json receipt_parse path temporary
        (d_files d) q digest rs Hq Hrs _ _ (append_collision _ _ _ _ path temporary _ q digest rs Hv old Hf Hs) d Hh
        eq_refl) as (d' & Hx & Hh' & Hp). eauto 10.
  - destruct (serialize_line (receipt_after q digest rs)) as (line & Hl & _).
    destruct (append_inner_total json_bytes sha256_hex debug_str receipt_json receipt_parse path temporary
      (d_files d) q digest rs Hq Hrs _ (append_new _ _ _ _ path temporary _ q digest rs Hne Ht Hv line Hf Hl) d Hh
      eq_refl) as (x & d' & Hx & Hh' & -> & Hp).
    do 2 eexists. split; [done|]. split_and!; [done..|by apply line_reads_back|by apply next_receipt_valid].
Qed.

(** A run of appends, whose answers are collected. *)
Fixpoint append_all (path temporary : string) (qs : list (AppendRequest J)) (d : Disk)
  : list (result (AppendOutcome J) string) * Disk :=
  match qs with
  | [] => ([], d)
  | q :: qs =>
      let '(answer, d) := append_inner path temporary q d in
      let '(answers, d) := append_all path temporary qs d in
      (answer :: answers, d)
  end.

(** The same run on the chain itself: a ledger is an append-only list of receipts with
    at most one receipt for each event id. *)
Definition request_outcome (q : AppendRequest J) (rs : list (Receipt J))
  : list (Receipt J) * result (AppendOutcome J) string :=
  match check_request q with
  | Err e => (rs, Err e)
  | Ok digest => append_outcome q digest rs
  end.

Fixpoint chain_appends (qs : list (AppendRequest J)) (rs : list (Receipt J))
  : list (result (AppendOutcome J) string) * list (Receipt J) :=
  match qs with
  | [] => ([], rs)
  | q :: qs =>
      let '(rs, answer) := request_outcome q rs in
      let '(answers, rs) := chain_appends qs rs in
      (answer :: answers, rs)
  end.

Lemma request_refused path temporary q e d :
  check_request q = Err e → append_inner path temporary q d = (Err e, d).
Proof. intros Hq. unfold Omnis.append_inner, io_bind, io_of. by rewrite Hq. Qed.

(** C9 (refinement). The receipt file is a chain. On a disk that works, whatever requests are
    appended one after the other, the answers and the receipts in the file are those of the
    abstract chain: an id that is already recorded is answered with its receipt, a new one adds
    one receipt at the end, a request that is refused adds nothing; the file stays a valid
    chain, nothing recorded is lost, and no other file changes. *)
Theorem appends_refine_the_chain path temporary qs rs d :
  temporary ≠ path → healthy d → d_files d !! temporary = None →
  parse_ledger (default "" (d_files d !! path)) = Ok rs → valid_chain rs →
  let '(answers, d') := append_all path temporary qs d in
  let '(answers', rs') := chain_appends qs rs in
  answers = answers' ∧ parse_ledger (default "" (d_files d' !! path)) = Ok rs' ∧ valid_chain rs' ∧
  (∃ added, rs' = rs ++ added) ∧ (∀ other, other ≠ path → d_files d' !! other = d_files d !! other).
Proof.
  intros Hne. revert rs d. induction qs as [|q qs IH]; intros rs d Hh Ht Hrs Hv; simpl.
  { split_and!; try done. exists []. by rewrite app_nil_r. }
  unfold request_outcome. destruct (check_request q) as [digest|e] eqn:Hq.
  - destruct (append_computes path temporary q digest rs d) as (d1 & c & -> & Hh1 & Hd1 & Hc & Hv1); try done.
    assert (∃ a, (append_outcome q digest rs).1 = rs ++ a) as [a Ha].
    { unfold append_outcome. destruct (find_event _ _); simpl; eauto. exists []. by rewrite app_nil_r. }
    destruct (append_outcome q digest rs) as [rs1 answer]. simpl in *. subst rs1.
    specialize (IH (rs ++ a) d1 Hh1). rewrite Hd1, lookup_insert_eq, lookup_insert_ne in IH by done.
    specialize (IH Ht Hc Hv1). destruct (append_all _ _ qs d1) as [answers d'].
    destruct (chain_appends qs (rs ++ a)) as [answers' rs']. destruct IH as (-> & ? & ? & [a' ->] & Hother).
    split_and!; try done; [exists (a ++ a'); by rewrite app_assoc|].
    intros o Ho. by rewrite Hother, lookup_insert_ne.
  - rewrite (request_refused _ _ _ _ _ Hq). specialize (IH rs d Hh Ht Hrs Hv).
    destruct (append_all _ _ qs d) as [answers d']. destruct (chain_appends qs rs) as [answers' rs'].
    destruct IH as (-> & ?). by split.
Qed.

(** ** Appending when anything may fail *)

(** Whatever fails while a receipt is appended, and wherever the process stops, the
    ledger has either its old receipts or the old ones and exactly the new one, as a valid
    chain; there is no state of the disk in between. A successful answer tells which of the two
    it is. After an error both are possible: the new ledger may be in place although publishing
    it reported a failure. *)
Theorem append_is_all_or_nothing path temporary q d :
  temporary ≠ path → d_trace d = [] →
  let before := d_files d !! path in
  let kept fs := fs !! path = before ∨ fs !! path = Some (default "" before) in
  let added rs digest fs := ∃ c, fs !! path = Some c ∧ parse_ledger c = Ok (rs ++ [receipt_after q digest rs]) in
  let '(answer, d') := append_inner path temporary q d in
  (∀ fs, fs ∈ d_trace d' → kept fs ∨
     ∃ rs digest, parse_ledger (default "" before) = Ok rs ∧ added rs digest fs ∧
       valid_chain (rs ++ [receipt_after q digest rs])) ∧
  match answer with
  | Ok o => match ao_disposition o with
            | Existing => kept (d_files d')
            | Appended => ∃ rs digest, ao_receipt o = receipt_after q digest rs ∧
                parse_ledger (default "" before) = Ok rs ∧ added rs digest (d_files d') ∧
                valid_chain (rs ++ [ao_receipt o])
            end
  | Err _ => True
  end.
Proof.
  intros Hne Htr before kept added.
  pose proof (append_inner_guarded json_bytes sha256_hex debug_str receipt_json receipt_parse path temporary
    before q Hne d eq_refl) as H.
  destruct H as [(seen & Hseen & Hall) Hres]. rewrite Htr in Hseen. simpl in Hseen.
  destruct (append_inner path temporary q d) as [answer d']. simpl in *. subst seen. split.
  - rewrite Forall_forall in Hall. intros fs Hin. destruct (Hall fs Hin) as [Hk|Hg]; [by left|right].
    apply grown_reads in Hg as (rs & digest & c & ? & ? & ? & ? & ? & ? & _).
    exists rs, digest. split_and!; [done|by exists c|done].
  - destruct answer as [o|]; [|done]. destruct (ao_disposition o); [|destruct Hres as (rs & digest & ? & ? & ? & ? & ? & ?); by right].
    apply grown_reads in Hres as (rs & digest & c & ? & ? & ? & ? & ? & ? & [Ho|Ho]); [done|].
    injection Ho as Ho. exists rs, digest. rewrite Ho. split_and!; [done|done|by exists c|done].
Qed.

(** A request with an event id can be repeated. If an append stopped at any
    point, whatever failed and whichever state of the disk survived, then on a working disk the
    same request succeeds, and the ledger has the old receipts and the new one once, whether or
    not the first attempt had already written it. *)
Theorem interrupted_append_is_retried_once path temporary temporary' q digest rs d fs :
  temporary ≠ path → temporary' ≠ path → d_trace d = [] →
  is_Some (q_event_id q) → check_request q = Ok digest →
  parse_ledger (default "" (d_files d !! path)) = Ok rs → valid_chain rs → find_event (q_event_id q) rs = None →
  fs ∈ d_files d :: d_trace (append_inner path temporary q d).2 → fs !! temporary' = None →
  let restarted := {| d_files := fs; d_faults := []; d_trace := [] |} in
  let r := receipt_after q digest rs in
  ∃ disposition d' c,
    append_inner path temporary' q restarted = (Ok {| ao_disposition := disposition; ao_receipt := r |}, d') ∧
    d_files d' !! path = Some c ∧ parse_ledger c = Ok (rs ++ [r]) ∧ valid_chain (rs ++ [r]).
Proof.
  intros Hne Hne' Htr [id Hid] Hq Hrs Hv Hf Hin Ht restarted r.
  assert (parse_ledger (default "" (fs !! path)) = Ok rs ∨ parse_ledger (default "" (fs !! path)) = Ok (rs ++ [r]))
    as Hstate.
  { apply elem_of_cons in Hin as [->|Hin]; [by left|].
    destruct (append_inner_guarded json_bytes sha256_hex debug_str receipt_json receipt_parse path temporary
      (d_files d !! path) q Hne d eq_refl) as [(seen & Hseen & Hall) _].
    rewrite Htr in Hseen. simpl in Hseen. subst seen. rewrite Forall_forall in Hall. destruct (Hall fs Hin) as [[->| ->]|Hg]; [by left|by left|right].
    apply grown_reads in Hg as (rs' & digest' & c & Hrs' & Hq' & _ & -> & Hc & _ & _).
    assert (rs' = rs ∧ digest' = digest) as [-> ->] by (split; congruence). exact Hc. }
  assert (valid_chain (rs ++ [r])) as Hvr by (by apply next_receipt_valid).
  assert (append_outcome q digest rs = (rs ++ [r], Ok {| ao_disposition := Appended; ao_receipt := r |})) as Ho1
    by (unfold append_outcome; by rewrite Hf).
  assert (append_outcome q digest (rs ++ [r]) = (rs ++ [r], Ok {| ao_disposition := Existing; ao_receipt := r |}))
    as Ho2.
  { unfold append_outcome, r. rewrite Hid, (next_receipt_found json_bytes sha256_hex rs q digest id Hid);
      [|by rewrite <- Hid]. by rewrite next_receipt_same. }
  destruct Hstate as [Hs|Hs].
  - destruct (append_computes path temporary' q digest rs restarted) as (d' & c & Hrun & _ & Hd' & Hc & _); try done.
    rewrite Ho1 in *. exists Appended, d', c. by rewrite Hd', lookup_insert_eq.
  - destruct (append_computes path temporary' q digest (rs ++ [r]) restarted)
      as (d' & c & Hrun & _ & Hd' & Hc & _); try done.
    rewrite Ho2 in *. exists Existing, d', c. by rewrite Hd', lookup_insert_eq.
Qed.
End guarantees.

(** ** The theorems at work *)

Definition sample_request (id subject : string) : AppendRequest string := {|
  q_event_id := Some id; q_kind := "tool.edit"; q_subject := subject;
  q_evidence_sha256 := "00000000000000000000000000000000000000000000000000000000000000AA";
  q_claim_ceiling := LocalRecord; q_evidence := None |}.

Definition sample_disk (faults : list Fault) : Disk := {| d_files := ∅; d_faults := faults; d_trace := [] |}.

Abbreviation sample_append :=
  (append_inner sample_bytes sample_sha (λ s, s) sample_json sample_parse "ledger" "temporary").

Lemma appends_refine_the_chain_witness :
  (append_all sample_bytes sample_sha (λ s, s) sample_json sample_parse "ledger" "temporary"
     [sample_request "e1" "a"; sample_request "e2" "b"; sample_request "e1" "a"; sample_request "e2" "c"]
     (sample_disk [])).1
  = (chain_appends sample_bytes sample_sha
     [sample_request "e1" "a"; sample_request "e2" "b"; sample_request "e1" "a"; sample_request "e2" "c"] []).1.
Proof.
  pose proof (appends_refine_the_chain sample_bytes sample_sha (λ s, s) sample_json sample_parse "ledger" "temporary"
    [sample_request "e1" "a"; sample_request "e2" "b"; sample_request "e1" "a"; sample_request "e2" "c"] []
    (sample_disk []) ltac:(done) eq_refl eq_refl eq_refl eq_refl) as H.
  destruct (append_all _ _ _ _ _ _ _ _ _), (chain_appends _ _ _ _). exact (proj1 H).
Defined.

Definition dispositions (answers : list (result (AppendOutcome string) string)) : list (result AppendDisposition string) :=
  map (λ a, match a with Ok o => Ok (ao_disposition o) | Err e => Err e end) answers.

Example four_requests_two_receipts :
  dispositions (chain_appends sample_bytes sample_sha
     [sample_request "e1" "a"; sample_request "e2" "b"; sample_request "e1" "a"; sample_request "e2" "c"] []).1
  = [Ok Appended; Ok Appended; Ok Existing; Err "OMNIS_RECEIPT_IDEMPOTENCY_COLLISION: e2"].
Proof. vm_compute. reflexivity. Qed.

(** The write of the new line fails after ten bytes. *)
Definition cut_short : Disk :=
  sample_disk [Works; Works; Works; Works; Works; Works; Works; Works; Works; Works; FailsAfter 10].

Example cut_short_leaves_no_receipt :
  (sample_append (sample_request "e1" "a") cut_short).1
  = Err "append OMNIS receipt temp temporary: operating system error".
Proof. vm_compute. reflexivity. Qed.

Lemma append_is_all_or_nothing_witness :
  let '(answer, d') := sample_append (sample_request "e1" "a") cut_short in
  ∀ fs, fs ∈ d_trace d' → (fs !! "ledger" = None ∨ fs !! "ledger" = Some "") ∨
    ∃ rs digest, Ok [] = Ok (E:=string) rs ∧
      (∃ c, fs !! "ledger" = Some c ∧ parse_ledger sample_parse c = Ok (rs ++
         [next_receipt sample_sha (sample_request "e1" "a") digest (verify_receipts sample_bytes sample_sha rs)])) ∧
      valid_chain sample_bytes sample_sha (rs ++
         [next_receipt sample_sha (sample_request "e1" "a") digest (verify_receipts sample_bytes sample_sha rs)]).
Proof.
  pose proof (append_is_all_or_nothing sample_bytes sample_sha (λ s, s) sample_json sample_parse "ledger" "temporary"
    (sample_request "e1" "a") cut_short ltac:(done) eq_refl) as H.
  destruct (append_inner _ _ _ _ _ _ _ _ _). exact (proj1 H).
Defined.

Lemma interrupted_append_is_retried_once_witness :
  let q := sample_request "e1" "a" in
  let d1 := (sample_append q cut_short).2 in
  let r := next_receipt sample_sha q ("sha256:" +:+ to_ascii_lowercase (q_evidence_sha256 q))
    (verify_receipts sample_bytes sample_sha []) in
  ∃ disposition d' c,
    append_inner sample_bytes sample_sha (λ s, s) sample_json sample_parse "ledger" "temporary-2" q
      {| d_files := d_files d1; d_faults := []; d_trace := [] |}
    = (Ok {| ao_disposition := disposition; ao_receipt := r |}, d') ∧
    d_files d' !! "ledger" = Some c ∧ parse_ledger sample_parse c = Ok [r] ∧
    valid_chain sample_bytes sample_sha [r].
Proof.
  intros q d1 r.
  apply (interrupted_append_is_retried_once sample_bytes sample_sha (λ s, s) sample_json sample_parse "ledger"
    "temporary" "temporary-2" q ("sha256:" +:+ to_ascii_lowercase (q_evidence_sha256 q)) [] cut_short (d_files d1));
    [done|done|done|by eexists|by vm_compute|by vm_compute|by vm_compute|by vm_compute| |by vm_compute].
  right. apply (list_elem_of_lookup_2 _ 4). by vm_compute.
Defined.
