(* ===== verification/Receipts.v ===== *)
(** * Action receipts

    crates/jcode-receipts (policy.rs, action.rs, lib.rs) and the path helpers of
    crates/jcode-app-core/src/tool/receipt_util.rs: what the edit, write and bash tools
    record about themselves in the OMNIS chain, and when.

    Outside the source: the environment, the clock, the JSON serializer and SHA-256. *)

From S2P Require Import Prelude RustStr RustText RiskPaths Disk Omnis.

(** ** Policy *)

(** The process-wide flags. *)
Record ActionReceiptPolicy := {
  no_receipts : bool;
  full_argv : bool;
  receipt_reads : bool;
}.

Record PolicyState := {
  installed : ActionReceiptPolicy;
  session_no_receipts_noted : bool;
}.

Section policy.
Context (env : string → option string).

Definition env_truthy (key : string) : bool :=
  match env key with
  | Some v => mem (to_ascii_lowercase (trim v)) ["1"; "true"; "yes"; "on"]
  | None => false
  end.

Definition from_env : ActionReceiptPolicy := {|
  no_receipts := env_truthy "JCODE_NO_RECEIPTS" || env_truthy "OMNIS_NO_RECEIPTS";
  full_argv := env_truthy "JCODE_RECEIPT_FULL_ARGV" || env_truthy "OMNIS_RECEIPT_FULL_ARGV";
  receipt_reads := env_truthy "JCODE_RECEIPT_READS" || env_truthy "OMNIS_RECEIPT_READS";
|}.

Definition install (p : ActionReceiptPolicy) (s : PolicyState) : PolicyState := {|
  installed := p;
  session_no_receipts_noted := session_no_receipts_noted s || no_receipts p;
|}.

Definition action_receipts_enabled (s : PolicyState) : bool :=
  if no_receipts (installed s) then false
  else if env_truthy "JCODE_NO_RECEIPTS" || env_truthy "OMNIS_NO_RECEIPTS" then false
  else true.

Definition receipt_full_argv_enabled (s : PolicyState) : bool :=
  full_argv (installed s) || env_truthy "JCODE_RECEIPT_FULL_ARGV" || env_truthy "OMNIS_RECEIPT_FULL_ARGV".

Definition receipt_reads_enabled (s : PolicyState) : bool :=
  receipt_reads (installed s) || env_truthy "JCODE_RECEIPT_READS" || env_truthy "OMNIS_RECEIPT_READS".

Definition session_receipts_disabled_note (s : PolicyState) : option string :=
  if negb (action_receipts_enabled s) || session_no_receipts_noted s then
    Some "RECEIPTS_DISABLED: session ran with --no-receipts / JCODE_NO_RECEIPTS (explicit opt-out; not silently unreceipted)"
  else None.

(** [jcode_dir] of crates/jcode-storage, and the place of the ledger. *)
Definition jcode_dir (home_dir : option string) : result string string :=
  match env "JCODE_HOME" with
  | Some path => Ok path
  | None => match home_dir with
            | Some home => Ok (path_join home ".jcode")
            | None => Err "No home directory"
            end
  end.

Definition ledger_parent (root : string) : string := path_join (path_join root "state") "omnis-key".

Definition canonical_ledger_path (home_dir : option string) : result (string * string) string :=
  match jcode_dir home_dir with
  | Err e => Err ("OMNIS_RECEIPT_HOME_UNAVAILABLE: " +:+ e)
  | Ok root =>
      fail_if negb (is_absolute root) with "OMNIS_RECEIPT_HOME_NOT_ABSOLUTE" ;;
      Ok (path_join (ledger_parent root) "receipts.jsonl", ledger_parent root)
  end.
End policy.

(** ** Evidence *)

Inductive ActionTool := ToolEdit | ToolWrite | ToolBash | ToolRead.

Definition tool_as_str (t : ActionTool) : string :=
  match t with ToolEdit => "edit" | ToolWrite => "write" | ToolBash => "bash" | ToolRead => "read" end.

Record ActionEvidence := {
  e_tool : ActionTool;
  e_target : option string;
  e_content_before_sha256 : option string;
  e_content_after_sha256 : option string;
  e_argv_sha256 : option string;
  e_argv_program : option string;
  e_argv_full : option string;
  e_exit_code : option Z;
  e_cwd_sha256 : string;
  e_repo_root_sha256 : string;
  e_redacted : bool;
}.

Definition is_quote (c : chr) : bool := Ascii.eqb c "034" || Ascii.eqb c "'".

(** The program only: the file name of the first word. *)
Definition program_name (command : string) : string :=
  let first := trim_matches is_quote (default "unknown" (head (split_whitespace command))) in
  default first (file_name (components first)).

(** ** Paths in receipts *)

(** The pieces of a path text with the components they stand for. *)
Definition path_pieces (p : string) : list (string * option Component) :=
  match split_chr "/" p with
  | [] => []
  | first :: rest =>
      (first, if is_absolute p then Some RootDir
              else if bool_decide (first = ".") then Some CurDir else piece_component first)
      :: map (λ piece, (piece, piece_component piece)) rest
  end.

(** The pieces behind the first [n] components. *)
Fixpoint drop_components (n : nat) (pieces : list (string * option Component)) : list (string * option Component) :=
  match n, pieces with
  | S n, (_, Some _) :: pieces => drop_components n pieces
  | S _, (_, None) :: pieces => drop_components n pieces
  | _, _ => pieces
  end.

Fixpoint drop_silent (pieces : list (string * option Component)) : list (string * option Component) :=
  match pieces with
  | (_, None) :: pieces => drop_silent pieces
  | _ => pieces
  end.

(** [p.strip_prefix(base)], as text. *)
Definition path_strip_prefix (base p : string) : option string :=
  if path_starts_with p base then
    let rest := drop_silent (drop_components (length (components base)) (path_pieces p)) in
    Some (join "/" (map fst (reverse (drop_silent (reverse rest)))))
  else None.

Definition repo_relative (cwd absolute display : string) : string :=
  match path_strip_prefix cwd absolute with
  | Some rel => replace "\" "/" rel
  | None => replace "\" "/" (trim_dot_slashes display)
  end.

Definition cwd_from_ctx (current_dir working_dir : option string) : string :=
  match working_dir with Some dir => dir | None => default "." current_dir end.

(** ** Recording *)

Section record.
Context {J : Type} `{!EqDecision J}.
Context (env : string → option string) (home_dir : option string).
Context (json_bytes : J → result string string) (sha256_hex debug_str : string → string).
Context (receipt_json : Receipt J → result string string) (receipt_parse : string → result (Receipt J) string).
(** [serde_json::to_value] on the evidence. *)
Context (evidence_json : ActionEvidence → result J string).

Definition content_sha256 (text : string) : string := "sha256:" +:+ sha256_hex text.
Definition repo_root_sha256 (repo : string) : string := content_sha256 repo.
Definition cwd_sha256 (cwd : string) : string := content_sha256 cwd.

(** The salted id of an event; [nanos] is the time. *)
Definition event_id (tool : ActionTool) (salt : string) (nanos : N) : string :=
  "agent." +:+ tool_as_str tool +:+ "-" +:+ String.substring 0 16 (sha256_hex salt) +:+ "-" +:+ pretty nanos.

Definition evidence_value (ev : ActionEvidence) : result J string :=
  match evidence_json ev with Ok v => Ok v | Err e => Err ("serialize action evidence: " +:+ e) end.

Definition evidence_digest_from_value (value : J) : result string string :=
  match json_bytes value with
  | Ok bytes => Ok ("sha256:" +:+ sha256_hex bytes)
  | Err e => Err ("serialize action evidence bytes: " +:+ e)
  end.

Definition subject_for (tool : ActionTool) (target_or_program : string) : string :=
  tool_as_str tool +:+ ":" +:+ target_or_program.

Definition append_failed (ledger e : string) : string :=
  "RECEIPT_APPEND_FAILED: ledger unwritable or chain unsafe at " +:+ ledger +:+ " (" +:+ e
  +:+ "). The mutation was NOT applied (or was rolled back). Fix the ledger or run with --no-receipts.".

Definition private_parent (parent : string) : Io unit :=
  io_context ("RECEIPT_APPEND_FAILED: cannot create private ledger parent " +:+ parent) sys_check.

(** [m.map_err(f)]. *)
Definition io_map_err {A} (f : string → string) (m : Io A) : Io A := λ d,
  match m d with
  | (Ok x, d) => (Ok x, d)
  | (Err e, d) => (Err (f e), d)
  end.

Definition append_action (temporary kind subject : string) (evidence : ActionEvidence) (eid : string)
  : Io (AppendOutcome J) :=
  let! payload := io_of (evidence_value evidence) in
  let! digest := io_of (evidence_digest_from_value payload) in
  let! (ledger, parent) := io_context "RECEIPT_APPEND_FAILED: ledger path" (io_of (canonical_ledger_path env home_dir)) in
  private_parent parent ;!
  io_map_err (append_failed ledger)
    (append_idempotent_with_evidence json_bytes sha256_hex debug_str receipt_json receipt_parse
       ledger temporary eid kind subject digest LocalRecord payload).

Definition preflight_ledger_writable (s : PolicyState) : Io unit :=
  if negb (action_receipts_enabled env s) then io_ret tt
  else
    let! (ledger, parent) := io_context "RECEIPT_APPEND_FAILED: ledger path" (io_of (canonical_ledger_path env home_dir)) in
    private_parent parent ;!
    let! v := io_context "RECEIPT_APPEND_FAILED: cannot verify ledger"
                (verify json_bytes sha256_hex receipt_parse ledger) in
    if negb (v_valid v) && (0 <? v_entries v) then
      io_err ("RECEIPT_APPEND_FAILED: ledger invalid at " +:+ ledger +:+ " " +:+ em_dash
              +:+ " refuse to run unreceipted action")
    else io_ret tt.

Definition preflight_if_enabled (s : PolicyState) : Io unit :=
  if negb (action_receipts_enabled env s) then io_ret tt else preflight_ledger_writable s.

Record EditReceiptInput := {
  ei_target_repo_relative : string;
  ei_before : string;
  ei_after : string;
  ei_cwd : string;
  ei_repo_root : string;
}.

Record WriteReceiptInput := {
  wi_target_repo_relative : string;
  wi_before : option string;
  wi_after : string;
  wi_cwd : string;
  wi_repo_root : string;
}.

Record BashReceiptInput := {
  bi_command : string;
  bi_exit_code : Z;
  bi_cwd : string;
  bi_repo_root : string;
}.

Definition edit_evidence (i : EditReceiptInput) : ActionEvidence := {|
  e_tool := ToolEdit;
  e_target := Some (replace "\" "/" (ei_target_repo_relative i));
  e_content_before_sha256 := Some (content_sha256 (ei_before i));
  e_content_after_sha256 := Some (content_sha256 (ei_after i));
  e_argv_sha256 := None; e_argv_program := None; e_argv_full := None; e_exit_code := None;
  e_cwd_sha256 := cwd_sha256 (ei_cwd i);
  e_repo_root_sha256 := repo_root_sha256 (ei_repo_root i);
  e_redacted := true |}.

Definition write_evidence (i : WriteReceiptInput) : ActionEvidence := {|
  e_tool := ToolWrite;
  e_target := Some (replace "\" "/" (wi_target_repo_relative i));
  e_content_before_sha256 := content_sha256 <$> wi_before i;
  e_content_after_sha256 := Some (content_sha256 (wi_after i));
  e_argv_sha256 := None; e_argv_program := None; e_argv_full := None; e_exit_code := None;
  e_cwd_sha256 := cwd_sha256 (wi_cwd i);
  e_repo_root_sha256 := repo_root_sha256 (wi_repo_root i);
  e_redacted := true |}.

Definition bash_evidence (full : bool) (i : BashReceiptInput) : ActionEvidence := {|
  e_tool := ToolBash;
  e_target := None;
  e_content_before_sha256 := None;
  e_content_after_sha256 := None;
  e_argv_sha256 := Some ("sha256:" +:+ sha256_hex (bi_command i));
  e_argv_program := Some (program_name (bi_command i));
  e_argv_full := if full then Some (bi_command i) else None;
  e_exit_code := Some (bi_exit_code i);
  e_cwd_sha256 := cwd_sha256 (bi_cwd i);
  e_repo_root_sha256 := repo_root_sha256 (bi_repo_root i);
  e_redacted := negb full |}.

Definition record_edit (s : PolicyState) (nanos : N) (temporary : string) (i : EditReceiptInput)
  : Io (option (AppendOutcome J)) :=
  if negb (action_receipts_enabled env s) then io_ret None
  else
    let eid := event_id ToolEdit (ei_target_repo_relative i) nanos in
    let subject := subject_for ToolEdit (ei_target_repo_relative i) in
    let! outcome := append_action temporary "agent.edit" subject (edit_evidence i) eid in
    io_ret (Some outcome).

Definition record_write (s : PolicyState) (nanos : N) (temporary : string) (i : WriteReceiptInput)
  : Io (option (AppendOutcome J)) :=
  if negb (action_receipts_enabled env s) then io_ret None
  else
    let eid := event_id ToolWrite (wi_target_repo_relative i) nanos in
    let subject := subject_for ToolWrite (wi_target_repo_relative i) in
    let! outcome := append_action temporary "agent.write" subject (write_evidence i) eid in
    io_ret (Some outcome).

Definition record_bash (s : PolicyState) (nanos : N) (temporary : string) (i : BashReceiptInput)
  : Io (option (AppendOutcome J)) :=
  if negb (action_receipts_enabled env s) then io_ret None
  else
    let full := receipt_full_argv_enabled env s in
    let prog := program_name (bi_command i) in
    let eid := event_id ToolBash (prog +:+ ":" +:+ pretty (bi_exit_code i)) nanos in
    let subject := subject_for ToolBash prog in
    let! outcome := append_action temporary "agent.bash" subject (bash_evidence full i) eid in
    io_ret (Some outcome).
End record.
