(* ===== verification/FileTools.v ===== *)
(** * The tools that change files

    crates/jcode-app-core/src/tool/{edit,write,bash}.rs: the edit and write tools apply
    their change, then record it, and undo it when it cannot be recorded; the bash tool
    checks that the ledger can take a receipt, runs the command and records it.

    Outside the source: the line diff, the shell, the browser bridge, the clock, and
    whether the parent directory of a new file exists. *)

From S2P Require Import Prelude RustStr RustText RiskPaths RiskAssess Disk Omnis Receipts.

Record ToolContext := {
  tc_session_id : string;
  tc_working_dir : option string;
}.

Record ToolOutput := { to_output : string; to_title : option string }.

Inductive FileOp := OpEdit | OpWrite.

(** The event published for the other agents. *)
Record FileTouch := {
  ft_session_id : string;
  ft_path : string;
  ft_op : FileOp;
  ft_intent : option string;
  ft_summary : string;
  ft_detail : option string;
}.

Inductive ChangeTag := TagEqual | TagDelete | TagInsert.

(** [ctx.resolve_path]. *)
Definition resolve_path (ctx : ToolContext) (path : string) : string :=
  if is_absolute path then path
  else match tc_working_dir ctx with
       | Some base => path_join base path
       | None => path
       end.

(** [read_to_string]: the file must be text. *)
Definition read_text (path : string) : Io string :=
  let! text := read_file path in
  if valid_utf8 text then io_ret text else io_err "stream did not contain valid UTF-8".

(** ** Descriptions of a change *)

Definition FILE_TOUCH_PREVIEW_MAX_LINES : nat := 6.
Definition FILE_TOUCH_PREVIEW_MAX_BYTES : nat := 240.

Definition find_line_number (content substring : string) : nat :=
  match split_at_first substring content with
  | Some prefix => length (lines prefix) + 1
  | None => 1
  end.

(** One change: the text it adds, and the next line numbers. *)
Definition diff_step (state : string * (nat * nat)) (change : ChangeTag * string) : string * (nat * nat) :=
  let '(output, (old_line, new_line)) := state in
  let content := trim change.2 in
  match change.1 with
  | TagDelete =>
      (if is_empty content then output
       else output +:+ pretty_nat old_line +:+ "- " +:+ content +:+ newline, (old_line + 1, new_line))
  | TagInsert =>
      (if is_empty content then output
       else output +:+ pretty_nat new_line +:+ "+ " +:+ content +:+ newline, (old_line, new_line + 1))
  | TagEqual => (output, (old_line + 1, new_line + 1))
  end.

Definition build_file_touch_preview (diff : string) : option string :=
  let trimmed := trim diff in
  if is_empty trimmed then None
  else
    let all := lines trimmed in
    let preview := join newline (take FILE_TOUCH_PREVIEW_MAX_LINES all) in
    let truncated := FILE_TOUCH_PREVIEW_MAX_LINES <? length all in
    let long := FILE_TOUCH_PREVIEW_MAX_BYTES <? String.length preview in
    let preview := if long then trim_end (truncate_str preview FILE_TOUCH_PREVIEW_MAX_BYTES) else preview in
    Some (if truncated || long then preview +:+ newline +:+ ellipsis else preview).

(** [{:>4}]. *)
Definition pad4 (s : string) : string := String.concat "" (replicate (4 - String.length s) " ") +:+ s.

(** [│]. *)
Definition bar : string := String "226" (String "148" (String "130" "")).

Fixpoint number_lines (start : nat) (ls : list string) : list string :=
  match ls with
  | [] => []
  | l :: ls => (pad4 (pretty_nat (start + 1)) +:+ bar +:+ " " +:+ l) :: number_lines (S start) ls
  end.

(** [lines[start..end]] panics when [start] is behind [end] or [end] behind the text. *)
Definition extract_context (content : string) (edit_start edit_end padding : nat) : option (nat * nat * string) :=
  let ls := lines content in
  let start := edit_start - (padding + 1) in
  let stop := Nat.min (edit_end + padding) (length ls) in
  if (start <=? stop) && (stop <=? length ls) then
    Some (start + 1, stop, join newline (number_lines start (take (stop - start) (drop start ls))))
  else None.

(** [a.windows(n)] panics when [n] is zero. *)
Fixpoint windows {A} (n : nat) (l : list A) : list (list A) :=
  match l with
  | [] => []
  | _ :: l' => if n <=? length l then take n l :: windows n l' else []
  end.

Definition window_matches (window old_lines : list string) : bool :=
  forallb (λ ab, bool_decide (trim ab.1 = trim ab.2)) (zip window old_lines).

(** Why the text to replace was not found; [None] is a panic. *)
Definition try_flexible_match (content old_string file_path : string) : option string :=
  let trimmed := trim old_string in
  if contains_str trimmed content && bool_decide (trimmed ≠ old_string) then
    Some ("old_string not found exactly, but found after trimming whitespace." +:+ newline
          +:+ "Try using the exact string from the file, including leading/trailing whitespace.")
  else
    let old_lines := lines old_string in
    if length old_lines =? 0 then None
    else
      match list_find (λ w, window_matches w old_lines = true) (windows (length old_lines) (lines content)) with
      | Some (i, _) =>
          Some ("old_string not found exactly, but found with different indentation around line "
                +:+ pretty_nat (i + 1) +:+ "." +:+ newline
                +:+ "Make sure to preserve the exact whitespace from the file.")
      | None => Some ("old_string not found in " +:+ file_path +:+ "." +:+ newline
                      +:+ "Use the read tool to see the current file contents.")
      end.

(** ** Formatting and reading command output *)

Definition MAX_OUTPUT_LEN : N := 30000.

Definition exit_line (code : option Z) : string :=
  match code with
  | Some c => if bool_decide (c ≠ 0%Z) then newline +:+ newline +:+ "Exit code: " +:+ pretty c else ""
  | None => ""
  end.

Definition cap_output (output : string) : string :=
  if (MAX_OUTPUT_LEN <? N.of_nat (String.length output))%N then
    truncate_str output (N.to_nat MAX_OUTPUT_LEN) +:+ newline +:+ "... (output truncated)"
  else output.

Definition format_command_output (output : string) (exit_code : option Z) : string :=
  let output := cap_output output +:+ exit_line exit_code in
  if is_blank output then "Command completed successfully (no output)" else output.

Definition is_number_chr (c : chr) : bool := is_ascii_digit c || Ascii.eqb c "-".

Definition parse_exit_code_hint (content : string) : option Z :=
  match after_last "[exit code: " content with
  | Some rest => parse_i32 (fst (span_chr is_number_chr rest))
  | None => None
  end.

(** The raw output of a finished command. *)
Definition merge_output (stdout stderr : string) : string :=
  if is_empty stderr then stdout
  else if is_empty stdout then stderr else stdout +:+ newline +:+ stderr.

(** ** The tools *)

Section tools.
Context {J : Type} `{!EqDecision J}.
Context (env : string → option string) (home_dir current_dir : option string).
Context (json_bytes : J → result string string) (sha256_hex debug_str : string → string).
Context (receipt_json : Receipt J → result string string) (receipt_parse : string → result (Receipt J) string).
Context (evidence_json : ActionEvidence → result J string).
Context (line_changes : string → string → list (ChangeTag * string)).
Context (policy : PolicyState) (nanos : N) (temporary : string).

Abbreviation record_edit :=
  (record_edit env home_dir json_bytes sha256_hex debug_str receipt_json receipt_parse evidence_json policy nanos temporary).
Abbreviation record_write :=
  (record_write env home_dir json_bytes sha256_hex debug_str receipt_json receipt_parse evidence_json policy nanos temporary).
Abbreviation record_bash :=
  (record_bash env home_dir json_bytes sha256_hex debug_str receipt_json receipt_parse evidence_json policy nanos temporary).

Definition generate_diff (old new : string) (start_line : nat) : string :=
  trim_end (foldl diff_step ("", (start_line, start_line)) (line_changes old new)).1.

Definition some_intent (intent : option string) : option string :=
  match intent with Some v => if is_blank v then None else Some v | None => None end.

(** *** edit *)

Record EditInput := {
  ed_intent : option string;
  ed_file_path : string;
  ed_old_string : string;
  ed_new_string : string;
  ed_replace_all : bool;
}.

Definition ambiguous_match (occurrences : nat) : string :=
  "old_string found " +:+ pretty_nat occurrences +:+ " times in the file. Either:" +:+ newline
  +:+ "1. Provide more context to make it unique, or" +:+ newline
  +:+ "2. Set replace_all: true to replace all occurrences".

Definition receipt_edit_or_rollback (ctx : ToolContext) (path display_path before after : string) : Io unit :=
  let cwd := cwd_from_ctx current_dir (tc_working_dir ctx) in
  let target := repo_relative cwd path display_path in
  let! recorded := io_try (record_edit {|
    ei_target_repo_relative := target; ei_before := before; ei_after := after;
    ei_cwd := cwd; ei_repo_root := cwd |}) in
  match recorded with
  | Ok _ => io_ret tt
  | Err e =>
      let! _ := io_try (write_file path before) in
      io_err e
  end.

Definition replaced (p : EditInput) (content : string) : string :=
  if ed_replace_all p then replace_all (ed_old_string p) (ed_new_string p) content
  else replace_first (ed_old_string p) (ed_new_string p) content.

Definition edit_end_line (p : EditInput) (start_line : nat) : nat :=
  start_line + (length (lines (ed_new_string p)) - 1).

Definition edit_touch (ctx : ToolContext) (p : EditInput) (path : string) (occurrences start_line : nat)
  (diff : string) : FileTouch := {|
  ft_session_id := tc_session_id ctx; ft_path := path; ft_op := OpEdit; ft_intent := some_intent (ed_intent p);
  ft_summary := "edited lines " +:+ pretty_nat start_line +:+ "-" +:+ pretty_nat (edit_end_line p start_line)
    +:+ " (" +:+ pretty_nat occurrences +:+ " occurrence" +:+ (if occurrences =? 1 then "" else "s") +:+ ")";
  ft_detail := build_file_touch_preview diff |}.

Definition edit_output (p : EditInput) (occurrences : nat) (diff : string) (context : nat * nat * string) : ToolOutput := {|
  to_output := "Edited " +:+ ed_file_path p +:+ ": replaced " +:+ pretty_nat occurrences +:+ " occurrence(s)" +:+ newline
    +:+ diff +:+ newline +:+ newline +:+ "Context after edit (lines " +:+ pretty_nat context.1.1 +:+ "-"
    +:+ pretty_nat context.1.2 +:+ "):" +:+ newline +:+ context.2;
  to_title := Some (ed_file_path p) |}.

(** A panic unwinds out of the tool: its own error here. *)
Definition panicked : string := "panicked".

Definition apply_edit (ctx : ToolContext) (p : EditInput) (path content : string) (occurrences : nat)
  : Io (ToolOutput * FileTouch) :=
  let new_content := replaced p content in
  let start_line := find_line_number content (ed_old_string p) in
  write_file path new_content ;!
  receipt_edit_or_rollback ctx path (ed_file_path p) content new_content ;!
  let diff := generate_diff (ed_old_string p) (ed_new_string p) start_line in
  match extract_context new_content start_line (edit_end_line p start_line) 3 with
  | Some context =>
      io_ret (edit_output p occurrences diff context, edit_touch ctx p path occurrences start_line diff)
  | None => io_err panicked
  end.

Definition edit_execute (ctx : ToolContext) (p : EditInput) : Io (ToolOutput * FileTouch) :=
  if bool_decide (ed_old_string p = ed_new_string p) then io_err "old_string and new_string must be different"
  else
    let path := resolve_path ctx (ed_file_path p) in
    let! there := exists_file path in
    if negb there then io_err ("File not found: " +:+ ed_file_path p)
    else
      let! content := read_text path in
      let occurrences := count_matches (ed_old_string p) content in
      if occurrences =? 0 then
        io_err (default panicked (try_flexible_match content (ed_old_string p) (ed_file_path p)))
      else if (1 <? occurrences) && negb (ed_replace_all p) then io_err (ambiguous_match occurrences)
      else apply_edit ctx p path content occurrences.

(** *** write *)

Record WriteInput := {
  wr_intent : option string;
  wr_file_path : string;
  wr_content : string;
}.

Definition MAX_LINES : nat := 20.

(** The summary stops at the change after the last line it has room for. *)
Fixpoint summarize_changes (changes : list (ChangeTag * string)) (output : string) (old_line new_line shown : nat)
  : string :=
  match changes with
  | [] => output
  | (TagEqual, _) :: rest => summarize_changes rest output (S old_line) (S new_line) shown
  | (TagDelete, value) :: rest =>
      let content := trim value in
      if is_empty content then summarize_changes rest output (S old_line) new_line shown
      else if MAX_LINES <=? shown then output +:+ "..." +:+ newline
      else summarize_changes rest (output +:+ pretty_nat old_line +:+ "- " +:+ content +:+ newline)
             (S old_line) new_line (S shown)
  | (TagInsert, value) :: rest =>
      let content := trim value in
      if is_empty content then summarize_changes rest output old_line (S new_line) shown
      else if MAX_LINES <=? shown then output +:+ "..." +:+ newline
      else summarize_changes rest (output +:+ pretty_nat new_line +:+ "+ " +:+ content +:+ newline)
             old_line (S new_line) (S shown)
  end.

Definition generate_diff_summary (old new : string) : string :=
  trim_end (summarize_changes (line_changes old new) "" 1 1 0).

Definition undo_write (path : string) (before : option string) (existed : bool) : Io unit :=
  if existed then
    match before with
    | Some prev => let! _ := io_try (write_file path prev) in io_ret tt
    | None => io_ret tt
    end
  else let! _ := io_try (remove_file path) in io_ret tt.

Definition receipt_write_or_rollback (ctx : ToolContext) (path display_path : string) (before : option string)
  (after : string) (existed : bool) : Io unit :=
  let cwd := cwd_from_ctx current_dir (tc_working_dir ctx) in
  let target := repo_relative cwd path display_path in
  let! recorded := io_try (record_write {|
    wi_target_repo_relative := target; wi_before := before; wi_after := after;
    wi_cwd := cwd; wi_repo_root := cwd |}) in
  match recorded with
  | Ok _ => io_ret tt
  | Err e => undo_write path before existed ;! io_err e
  end.

Definition write_output (p : WriteInput) (existed : bool) (old : string) : ToolOutput :=
  let diff := generate_diff_summary old (wr_content p) in
  let line_count := length (lines (wr_content p)) in
  {| to_output :=
       if existed then
         "Updated " +:+ wr_file_path p +:+ " (" +:+ pretty_nat line_count +:+ " lines)"
         +:+ (if is_empty diff then "" else ":") +:+ newline +:+ diff
       else
         "Created " +:+ wr_file_path p +:+ " (" +:+ pretty_nat line_count +:+ " lines):" +:+ newline
         +:+ generate_diff_summary "" (wr_content p);
     to_title := Some (wr_file_path p) |}.

Definition write_touch (ctx : ToolContext) (p : WriteInput) (path : string) (existed : bool) (old : string) : FileTouch :=
  let line_count := length (lines (wr_content p)) in
  {| ft_session_id := tc_session_id ctx; ft_path := path; ft_op := OpWrite; ft_intent := some_intent (wr_intent p);
     ft_summary := (if existed then "overwrote file (" else "created new file (") +:+ pretty_nat line_count +:+ " lines)";
     ft_detail := build_file_touch_preview (generate_diff_summary old (wr_content p)) |}.

Definition write_execute (ctx : ToolContext) (p : WriteInput) (parent_exists : bool) : Io (ToolOutput * FileTouch) :=
  let path := resolve_path ctx (wr_file_path p) in
  (if parent_exists then io_ret tt else sys_check) ;!
  let! existed := exists_file path in
  let! old_content :=
    (if existed : bool then
       let! read := io_try (read_text path) in
       io_ret (match read with Ok text => Some text | Err _ => None end)
     else io_ret None) in
  write_file path (wr_content p) ;!
  receipt_write_or_rollback ctx path (wr_file_path p) old_content (wr_content p) existed ;!
  let old := default "" old_content in
  io_ret (write_output p existed old, write_touch ctx p path existed old).

(** *** bash *)

Record BashInput := {
  ba_command : string;
  ba_intent : option string;
  ba_run_in_background : option bool;
  ba_justification : option string;
}.

(** How a foreground command ends: with its output and exit code, or still running
    behind the foreground timeout or a reload, with a notice. *)
Inductive ForegroundRun :=
  | Finished (stdout stderr : string) (exit_code : option Z)
  | StillRunning (notice : string).

Context (run_foreground : string → Io ForegroundRun) (run_background : BashInput → Io ToolOutput).
Context (browser_rewrite : string → Io string).

Definition is_browser_command (command : string) : bool :=
  let trimmed := trim_start command in
  starts_with "browser " trimmed || bool_decide (trimmed = "browser") || starts_with ("browser" +:+ String "009" "") trimmed.

Definition receipt_bash (ctx : ToolContext) (command : string) (exit_code : Z) : Io unit :=
  if negb (action_receipts_enabled env policy) then io_ret tt
  else
    let cwd := cwd_from_ctx current_dir (tc_working_dir ctx) in
    let! _ := record_bash {| bi_command := command; bi_exit_code := exit_code; bi_cwd := cwd; bi_repo_root := cwd |} in
    io_ret tt.

Definition foreground_output (title : string) (run : ForegroundRun) : ToolOutput :=
  match run with
  | Finished stdout stderr code =>
      {| to_output := format_command_output (merge_output stdout stderr) code; to_title := Some title |}
  | StillRunning notice => {| to_output := notice; to_title := Some title |}
  end.

Definition bash_execute (ctx : ToolContext) (p : BashInput) : Io ToolOutput :=
  match destructive_command_refusal (env "HOME") (ba_command p) (ba_justification p) (tc_working_dir ctx) with
  | Some refusal => io_err refusal
  | None =>
      if default false (ba_run_in_background p) then run_background p
      else
        let! command := (if is_browser_command (ba_command p) then browser_rewrite (ba_command p)
                         else io_ret (ba_command p)) in
        preflight_if_enabled env home_dir json_bytes sha256_hex receipt_parse policy ;!
        let! run := run_foreground command in
        let output := foreground_output (default command (ba_intent p)) run in
        let exit := default 0%Z (parse_exit_code_hint (to_output output)) in
        receipt_bash ctx command exit ;!
        io_ret output
  end.
End tools.
