(* ===== verification/PatchTools.v ===== *)
(** * The tools that apply patches

    crates/jcode-app-core/src/tool/{apply_patch,patch,multiedit}.rs: patches of Codex style,
    unified diffs, and several edits of one file.  Their parsers, the search for the lines
    of a chunk, the splicing, and the handlers over the disk of [Disk].

    Outside the source: the line diff of the reports, and the environment. *)

From S2P Require Import Prelude RustStr RustText RiskPaths Disk Receipts FileTools.

(** [✓] and [✗]. *)
Definition tick_mark : string := String "226" (String "156" (String "147" "")).
Definition cross_mark : string := String "226" (String "156" (String "151" "")).

(** [path.parent()]: the parent directory is made when there is one. *)
Definition create_parent (path : string) : Io unit :=
  match parent_components (components path) with
  | Some _ => sys_check
  | None => io_ret tt
  end.

(** ** apply_patch: the data *)

Record UpdateFileChunk := {
  ch_change_context : option string;
  ch_old_lines : list string;
  ch_new_lines : list string;
  ch_is_end_of_file : bool;
}.

Inductive PatchHunk :=
  | AddFile (path contents : string)
  | DeleteFile (path : string)
  | UpdateFile (path : string) (move_to : option string) (chunks : list UpdateFileChunk).

#[export] Instance UpdateFileChunk_eq_dec : EqDecision UpdateFileChunk.
Proof. solve_decision. Defined.
#[export] Instance PatchHunk_eq_dec : EqDecision PatchHunk.
Proof. solve_decision. Defined.

(** ** apply_patch: the parser

    The index into the lines is the list of the lines that are left. *)

(** The lines of a new file, up to the next directive. *)
Fixpoint added_contents (ls : list string) : string * list string :=
  match ls with
  | [] => ("", [])
  | current :: rest =>
      if starts_with "*** " current then ("", ls)
      else
        let '(contents, rest) := added_contents rest in
        match strip_prefix "+" current with
        | Some added => (added +:+ newline +:+ contents, rest)
        | None => (contents, rest)
        end
  end.

(** What the lines of a chunk gave: old and new lines, the end marker, and whether there was
    any. *)
Record ChunkBody := {
  cb_old_lines : list string;
  cb_new_lines : list string;
  cb_is_end_of_file : bool;
  cb_had_diff_lines : bool;
}.

Definition no_body (had end_of_file : bool) : ChunkBody :=
  {| cb_old_lines := []; cb_new_lines := []; cb_is_end_of_file := end_of_file; cb_had_diff_lines := had |}.

Definition push_old (l : string) (b : ChunkBody) : ChunkBody :=
  {| cb_old_lines := l :: cb_old_lines b; cb_new_lines := cb_new_lines b;
     cb_is_end_of_file := cb_is_end_of_file b; cb_had_diff_lines := cb_had_diff_lines b |}.

Definition push_new_line (l : string) (b : ChunkBody) : ChunkBody :=
  {| cb_old_lines := cb_old_lines b; cb_new_lines := l :: cb_new_lines b;
     cb_is_end_of_file := cb_is_end_of_file b; cb_had_diff_lines := cb_had_diff_lines b |}.

Definition on_body (f : ChunkBody → ChunkBody) (p : ChunkBody * list string) : ChunkBody * list string := (f p.1, p.2).

(** [had]: a line of the chunk was there already. *)
Fixpoint chunk_body (had : bool) (ls : list string) : ChunkBody * list string :=
  match ls with
  | [] => (no_body had false, [])
  | cl :: rest =>
      if String.eqb cl "*** End of File" then (no_body had true, rest)
      else if starts_with "*** " cl || starts_with "@@" cl then (no_body had false, ls)
      else match strip_prefix " " cl with
      | Some content => on_body (push_old content ∘ push_new_line content) (chunk_body true rest)
      | None =>
      match strip_prefix "+" cl with
      | Some content => on_body (push_new_line content) (chunk_body true rest)
      | None =>
      match strip_prefix "-" cl with
      | Some content => on_body (push_old content) (chunk_body true rest)
      | None =>
          if is_empty cl then on_body (push_old "" ∘ push_new_line "") (chunk_body true rest)
          else if had then (no_body had false, ls)
          else chunk_body had rest
      end end end
  end.

(** The header of a chunk: its context, and the lines behind it. *)
Definition chunk_header (is_first_chunk : bool) (current : string) (ls rest : list string)
  : option (option string * list string) :=
  if String.eqb current "@@" then Some (None, rest)
  else match strip_prefix "@@ " current with
       | Some context => Some (Some context, rest)
       | None => if is_first_chunk then Some (None, ls) else None
       end.

Definition blank_between_chunks (current : string) : bool :=
  is_blank current && negb (starts_with " " current) && negb (starts_with "+" current) && negb (starts_with "-" current).

Definition chunk_of (context : option string) (b : ChunkBody) : list UpdateFileChunk :=
  if cb_had_diff_lines b || bool_decide (is_Some context) then
    [{| ch_change_context := context; ch_old_lines := cb_old_lines b; ch_new_lines := cb_new_lines b;
        ch_is_end_of_file := cb_is_end_of_file b |}]
  else [].

Fixpoint parse_chunks (fuel : nat) (is_first_chunk : bool) (ls : list string)
  : option (list UpdateFileChunk * list string) :=
  match fuel with
  | O => None
  | S fuel =>
      match ls with
      | [] => Some ([], [])
      | line :: rest =>
          let current := trim_end line in
          if starts_with "*** " current && negb (String.eqb current "*** End of File") then Some ([], ls)
          else if blank_between_chunks current then parse_chunks fuel is_first_chunk rest
          else match chunk_header is_first_chunk current ls rest with
               | None => Some ([], ls)
               | Some (context, body) =>
                   let '(b, rest) := chunk_body false body in
                   '(chunks, rest) ← parse_chunks fuel false rest;
                   Some (chunk_of context b ++ chunks, rest)
               end
      end
  end.

(** Every chunk consumes a line, or was the first one. *)
Definition chunks_fuel (ls : list string) : nat := length ls + 2.

Definition moved_to (ls : list string) : option string * list string :=
  match ls with
  | [] => (None, [])
  | line :: rest =>
      match strip_prefix "*** Move to: " (trim_end line) with
      | Some target => (Some (trim target), rest)
      | None => (None, ls)
      end
  end.

Definition update_hunk (path : string) (ls : list string) : option (result (PatchHunk * list string) string) :=
  let '(move_to, ls) := moved_to ls in
  '(chunks, rest) ← parse_chunks (chunks_fuel ls) true ls;
  Some (if bool_decide (chunks = []) then Err ("Update file hunk for '" +:+ path +:+ "' has no changes")
        else Ok (UpdateFile path move_to chunks, rest)).

(** The hunks from a line on. *)
Fixpoint parse_hunks (fuel : nat) (ls : list string) : option (result (list PatchHunk) string) :=
  match fuel with
  | O => None
  | S fuel =>
      let push hunk rest :=
        hunks ← parse_hunks fuel rest;
        Some (let? hunks := hunks in Ok (hunk :: hunks)) in
      match ls with
      | [] => Some (Ok [])
      | line :: rest =>
          let line := trim_end line in
          if String.eqb (trim line) "*** End Patch" then Some (Ok [])
          else match strip_prefix "*** Add File: " line with
          | Some path => let '(contents, rest) := added_contents rest in push (AddFile (trim path) contents) rest
          | None =>
          match strip_prefix "*** Delete File: " line with
          | Some path => push (DeleteFile (trim path)) rest
          | None =>
          match strip_prefix "*** Update File: " line with
          | Some path =>
              parsed ← update_hunk (trim path) rest;
              match parsed with
              | Err e => Some (Err e)
              | Ok (hunk, rest) => push hunk rest
              end
          | None => parse_hunks fuel rest
          end end end
      end
  end.

(** The lines behind the first one that begins a patch. *)
Fixpoint after_begin (ls : list string) : option (list string) :=
  match ls with
  | [] => None
  | line :: rest => if String.eqb (trim line) "*** Begin Patch" then Some rest else after_begin rest
  end.

Definition parse_apply_patch (input : string) : option (result (list PatchHunk) string) :=
  match after_begin (lines input) with
  | None => Some (Err "Patch must contain *** Begin Patch")
  | Some ls =>
      hunks ← parse_hunks (S (length ls)) ls;
      Some (let? hunks := hunks in
            fail_if bool_decide (hunks = []) with "No valid patch directives found" ;;
            Ok hunks)
  end.

(** ** apply_patch: where a chunk applies *)

(** The lines from [i] on are those of the pattern, in the sense of [same]. *)
Definition pattern_at (same : string → string → bool) (ls pattern : list string) (i : nat) : bool :=
  forallb (λ lp, same lp.1 lp.2) (zip (take (length pattern) (drop i ls)) pattern).

(** The first index of [search_start..=ls.len() - pattern.len()] with the pattern. *)
Definition seek_with (same : string → string → bool) (ls pattern : list string) (search_start : nat) : option nat :=
  snd <$> list_find (λ i, pattern_at same ls pattern i = true) (seq search_start (S (length ls - length pattern) - search_start)).

Definition same_line (a b : string) : bool := String.eqb a b.
Definition same_to_the_end (a b : string) : bool := String.eqb (trim_end a) (trim_end b).
Definition same_trimmed (a b : string) : bool := String.eqb (trim a) (trim b).

Definition otherwise {A} (a b : option A) : option A := match a with Some x => Some x | None => b end.

Definition seek_sequence (ls pattern : list string) (start : nat) (eof : bool) : option nat :=
  if bool_decide (pattern = []) then Some start
  else if length ls <? length pattern then None
  else
    let search_start := if eof && (length pattern <=? length ls) then length ls - length pattern else start in
    otherwise (seek_with same_line ls pattern search_start)
      (otherwise (seek_with same_to_the_end ls pattern search_start)
         (seek_with same_trimmed ls pattern search_start)).

(** The start of the lines to replace, their number, and the lines that replace them. *)
Record Replacement := { rp_start : nat; rp_len : nat; rp_lines : list string }.

Definition ends_empty (ls : list string) : bool := bool_decide (last ls = Some "").

(** Where lines that replace nothing are inserted. *)
Definition insertion_index (original_lines : list string) : nat :=
  if ends_empty original_lines then length original_lines - 1 else length original_lines.

(** The old lines of a chunk, tried again without an empty last line. *)
Definition locate_chunk (original_lines : list string) (chunk : UpdateFileChunk) (line_index : nat) : option Replacement :=
  let seek pattern := seek_sequence original_lines pattern line_index (ch_is_end_of_file chunk) in
  let replace pattern new_slice start := {| rp_start := start; rp_len := length pattern; rp_lines := new_slice |} in
  let old := ch_old_lines chunk in
  let new := ch_new_lines chunk in
  match seek old with
  | Some start => Some (replace old new start)
  | None =>
      if ends_empty old then
        let new := if ends_empty new then removelast new else new in
        replace (removelast old) new <$> seek (removelast old)
      else None
  end.

(** The line behind the context of a chunk. *)
Definition behind_context (original_lines : list string) (path : string) (chunk : UpdateFileChunk) (line_index : nat)
  : result nat string :=
  match ch_change_context chunk with
  | None => Ok line_index
  | Some context =>
      match seek_sequence original_lines [context] line_index false with
      | Some idx => Ok (idx + 1)
      | None => Err ("Failed to find context '" +:+ context +:+ "' in " +:+ path)
      end
  end.

(** The replacements in the order of the chunks. *)
Fixpoint chunk_replacements (original_lines : list string) (path : string) (chunks : list UpdateFileChunk) (line_index : nat)
  : result (list Replacement) string :=
  match chunks with
  | [] => Ok []
  | chunk :: chunks =>
      let? line_index := behind_context original_lines path chunk line_index in
      if bool_decide (ch_old_lines chunk = []) then
        let? rest := chunk_replacements original_lines path chunks line_index in
        Ok ({| rp_start := insertion_index original_lines; rp_len := 0; rp_lines := ch_new_lines chunk |} :: rest)
      else
        match locate_chunk original_lines chunk line_index with
        | None => Err ("Failed to find expected lines in " +:+ path +:+ ":" +:+ newline +:+ join newline (ch_old_lines chunk))
        | Some r =>
            let? rest := chunk_replacements original_lines path chunks (rp_start r + rp_len r) in
            Ok (r :: rest)
        end
  end.

Definition starts_no_later (a b : Replacement) : bool := rp_start a <=? rp_start b.

Definition compute_replacements (original_lines : list string) (path : string) (chunks : list UpdateFileChunk)
  : result (list Replacement) string :=
  let? replacements := chunk_replacements original_lines path chunks 0 in
  Ok (sort_stable starts_no_later replacements).

(** ** apply_patch: the splicing *)

(** [v.remove(i)] when [i] is in the vector. *)
Definition remove_at (i : nat) (ls : list string) : list string :=
  if i <? length ls then take i ls ++ drop (S i) ls else ls.

(** [v.insert(i, x)] panics behind the end. *)
Definition insert_at (i : nat) (x : string) (ls : list string) : option (list string) :=
  if i <=? length ls then Some (take i ls ++ x :: drop i ls) else None.

Fixpoint insert_lines (i : nat) (new : list string) (ls : list string) : option (list string) :=
  match new with
  | [] => Some ls
  | x :: new => ls ← insert_at i x ls; insert_lines (S i) new ls
  end.

Definition apply_replacement (r : Replacement) (ls : list string) : option (list string) :=
  insert_lines (rp_start r) (rp_lines r) (Nat.iter (rp_len r) (remove_at (rp_start r)) ls).

(** The last replacement first. *)
Fixpoint apply_replacements (ls : list string) (replacements : list Replacement) : option (list string) :=
  match replacements with
  | [] => Some ls
  | r :: rest => ls ← apply_replacements ls rest; apply_replacement r ls
  end.

(** The lines of a text, without the empty one behind its last newline. *)
Definition text_lines (text : string) : list string :=
  let pieces := split_chr "010" text in
  if ends_empty pieces then removelast pieces else pieces.

Definition text_of_lines (ls : list string) : string :=
  join newline (if ends_empty ls then ls else ls ++ [""]).

(** [None] is a panic. *)
Definition apply_update_chunks (path : string) (chunks : list UpdateFileChunk) : Io (option (string * string)) :=
  let! original_contents := read_text path in
  let original_lines := text_lines original_contents in
  let! replacements := io_of (compute_replacements original_lines path chunks) in
  io_ret (new_lines ← apply_replacements original_lines replacements;
          Some (original_contents, text_of_lines new_lines)).

(** ** Reports *)

Definition MAX_DIFF_LINES : nat := 30.

(** The changed lines with their numbers; it stops at the change behind the last line that
    it has room for. *)
Fixpoint compact_diff (changes : list (ChangeTag * string)) (output : string) (old_line new_line line_count : nat) : string :=
  match changes with
  | [] => output
  | (tag, value) :: rest =>
      if MAX_DIFF_LINES <=? line_count then output +:+ "... (diff truncated)" +:+ newline
      else
        let content := trim_end_matches (Ascii.eqb "010") value in
        let shown prefix num := output +:+ pretty_nat num +:+ prefix +:+ " " +:+ content +:+ newline in
        match tag with
        | TagDelete =>
            if is_blank content then compact_diff rest output (S old_line) new_line line_count
            else compact_diff rest (shown "-" old_line) (S old_line) new_line (S line_count)
        | TagInsert =>
            if is_blank content then compact_diff rest output old_line (S new_line) line_count
            else compact_diff rest (shown "+" new_line) old_line (S new_line) (S line_count)
        | TagEqual => compact_diff rest output (S old_line) (S new_line) line_count
        end
  end.

Definition with_diff (report diff : string) : string :=
  if is_empty diff then report else report +:+ newline +:+ diff.

Definition done_line (path what diff : string) : string := with_diff (tick_mark +:+ " " +:+ path +:+ ": " +:+ what) diff.
Definition failed_line (path why : string) : string := cross_mark +:+ " " +:+ path +:+ ": " +:+ why.

Section tools.
Context (env : string → option string) (line_changes : string → string → list (ChangeTag * string)).

(** *** apply_patch *)

Record ApplyPatchInput := { ap_intent : option string; ap_patch_text : string }.

Definition apply_diff_summary (old new : string) : string := trim_end (compact_diff (line_changes old new) "" 1 1 0).

(** The event of a changed file. *)
Definition file_touch (ctx : ToolContext) (resolved verb diff : string) (intent : option string) : FileTouch := {|
  ft_session_id := tc_session_id ctx; ft_path := resolved; ft_op := OpEdit;
  ft_intent := match intent with
               | Some v => if is_empty (trim v) then None else Some (trim v)
               | None => None
               end;
  ft_summary := verb +:+ " via apply_patch";
  ft_detail := build_file_touch_preview diff |}.

Definition risk_context (ctx : ToolContext) : RiskContext := {|
  x_working_dir := tc_working_dir ctx;
  x_home_dir := match env "HOME" with
                | Some h => if is_empty h then None else Some h
                | None => None
                end |}.

(** What a hunk adds to the results, the paths and the events. *)
Record HunkReport := {
  hr_result : string;
  hr_touched : list string;
  hr_events : list FileTouch;
}.

Definition hunk_report (line : string) (touched : list string) (events : list FileTouch) : HunkReport :=
  {| hr_result := line; hr_touched := touched; hr_events := events |}.

Definition refused_delete : string := "refused, this path is protected and must never be deleted by an agent".

Definition add_hunk (ctx : ToolContext) (intent : option string) (path contents : string) : Io HunkReport :=
  let resolved := resolve_path ctx path in
  create_parent resolved ;!
  write_file resolved contents ;!
  let diff := apply_diff_summary "" contents in
  io_ret (hunk_report (done_line path "created" diff) [path] [file_touch ctx resolved "created" diff intent]).

Definition delete_hunk (ctx : ToolContext) (intent : option string) (path : string) : Io HunkReport :=
  let resolved := resolve_path ctx path in
  if is_catastrophic_target resolved (risk_context ctx) then io_ret (hunk_report (failed_line path refused_delete) [] [])
  else
    let! old_contents := io_try (read_text resolved) in
    let! removed := remove_file resolved in
    match removed with
    | Ok _ =>
        let diff := apply_diff_summary (match old_contents with Ok text => text | Err _ => "" end) "" in
        io_ret (hunk_report (done_line path "deleted" diff) [path] [file_touch ctx resolved "deleted" diff intent])
    | Err _ => io_ret (hunk_report (failed_line path "failed to delete") [] [])
    end.

Definition modified (chunks : list UpdateFileChunk) : string := "modified (" +:+ pretty_nat (length chunks) +:+ " hunks)".

Definition finish_update (ctx : ToolContext) (intent : option string) (path : string) (move_to : option string)
  (chunks : list UpdateFileChunk) (old_contents new_contents : string) : Io HunkReport :=
  let resolved := resolve_path ctx path in
  let diff := apply_diff_summary old_contents new_contents in
  match move_to with
  | Some dest =>
      let dest_resolved := resolve_path ctx dest in
      create_parent dest_resolved ;!
      write_file dest_resolved new_contents ;!
      remove_file resolved ;!
      io_ret (hunk_report (done_line path (modified chunks +:+ ", moved to " +:+ dest) diff) [path; dest]
                [file_touch ctx resolved "modified" diff intent; file_touch ctx dest_resolved "modified" diff intent])
  | None =>
      write_file resolved new_contents ;!
      io_ret (hunk_report (done_line path (modified chunks) diff) [path] [file_touch ctx resolved "modified" diff intent])
  end.

Definition update_hunk_of (ctx : ToolContext) (intent : option string) (path : string) (move_to : option string)
  (chunks : list UpdateFileChunk) : Io HunkReport :=
  let! applied := io_try (apply_update_chunks (resolve_path ctx path) chunks) in
  match applied with
  | Err e => io_ret (hunk_report (failed_line path e) [] [])
  | Ok None => io_err panicked
  | Ok (Some (old_contents, new_contents)) => finish_update ctx intent path move_to chunks old_contents new_contents
  end.

Definition apply_hunk (ctx : ToolContext) (intent : option string) (hunk : PatchHunk) : Io HunkReport :=
  match hunk with
  | AddFile path contents => add_hunk ctx intent path contents
  | DeleteFile path => delete_hunk ctx intent path
  | UpdateFile path move_to chunks => update_hunk_of ctx intent path move_to chunks
  end.

(** The hunks in their order; an error of the system ends the tool, with what was done and
    announced before. *)
Fixpoint apply_hunks (ctx : ToolContext) (intent : option string) (hunks : list PatchHunk) (reports : list HunkReport)
  : Io (option string * list HunkReport) :=
  match hunks with
  | [] => io_ret (None, reports)
  | hunk :: hunks =>
      let! report := io_try (apply_hunk ctx intent hunk) in
      match report with
      | Ok report => apply_hunks ctx intent hunks (reports ++ [report])
      | Err e => io_ret (Some e, reports)
      end
  end.

Definition patch_output (reports : list HunkReport) : ToolOutput :=
  if bool_decide (reports = []) then {| to_output := "No changes applied"; to_title := None |}
  else {| to_output := join newline (map hr_result reports);
          to_title := match concat (map hr_touched reports) with
                      | [path] => Some path
                      | paths => Some (pretty_nat (length paths) +:+ " files")
                      end |}.

(** The answer and the events; [None] would be a parser that does not end. *)
Definition apply_patch_execute (ctx : ToolContext) (p : ApplyPatchInput)
  : Io (option (result ToolOutput string * list FileTouch)) :=
  match parse_apply_patch (ap_patch_text p) with
  | None => io_ret None
  | Some (Err e) => io_ret (Some (Err e, []))
  | Some (Ok hunks) =>
      let! (error, reports) := apply_hunks ctx (ap_intent p) hunks [] in
      io_ret (Some (match error with Some e => Err e | None => Ok (patch_output reports) end,
                    concat (map hr_events reports)))
  end.
End tools.

(** ** patch: unified diffs *)

Record Hunk := { hk_old_start : N; hk_old_lines : list string; hk_new_lines : list string }.

Record FilePatch := {
  fp_path : string;
  fp_hunks : list Hunk;
  fp_is_new : bool;
  fp_is_delete : bool;
}.

#[export] Instance Hunk_eq_dec : EqDecision Hunk.
Proof. solve_decision. Defined.
#[export] Instance FilePatch_eq_dec : EqDecision FilePatch.
Proof. solve_decision. Defined.

(** [s.parse::<usize>().ok()]. *)
Definition parse_usize (s : string) : option N :=
  let digits := default s (strip_prefix "+" s) in
  if is_empty digits then None
  else n ← digits_value 0 digits; if (n <? 2 ^ 64)%N then Some n else None.

(** [s.split(c).next()]. *)
Definition first_piece (c : chr) (s : string) : string := default "" (head (split_chr c s)).

Definition old_start_of (range : string) : N :=
  default 1%N (parse_usize (first_piece "," (default range (strip_prefix "-" range)))).

(** The lines of a hunk up to the next header. *)
Fixpoint hunk_body (ls : list string) : list string * list string * list string :=
  match ls with
  | [] => ([], [], [])
  | line :: rest =>
      if starts_with "@@" line || starts_with "---" line then ([], [], ls)
      else
        let '(old, new, after) := hunk_body rest in
        match strip_prefix "-" line with
        | Some content => (content :: old, new, after)
        | None =>
        match strip_prefix "+" line with
        | Some content => (old, content :: new, after)
        | None =>
        match strip_prefix " " line with
        | Some content => (content :: old, content :: new, after)
        | None => (old, new, after)
        end end end
  end.

(** The hunk under a header, and the lines behind it. *)
Definition parse_hunk (header : string) (rest : list string) : option Hunk * list string :=
  match split_whitespace header with
  | _ :: range :: _ :: _ =>
      let '(old, new, after) := hunk_body rest in
      (Some {| hk_old_start := old_start_of range; hk_old_lines := old; hk_new_lines := new |}, after)
  | _ => (None, rest)
  end.

(** The hunks of a file. *)
Fixpoint file_hunks (fuel : nat) (ls : list string) : option (list Hunk * list string) :=
  match fuel with
  | O => None
  | S fuel =>
      match ls with
      | [] => Some ([], [])
      | line :: rest =>
          if starts_with "---" line then Some ([], ls)
          else if starts_with "@@" line then
            let '(hunk, rest) := parse_hunk line rest in
            '(hunks, rest) ← file_hunks fuel rest;
            Some (match hunk with Some h => h :: hunks | None => hunks end, rest)
          else file_hunks fuel rest
      end
  end.

(** The name in a [---] or [+++] line. *)
Definition file_of (mark line : string) : string := first_piece "009" (default "" (strip_prefix mark line)).

Definition without_prefix (p s : string) : string := default s (strip_prefix p s).

Definition file_patch (old_file new_file : string) (hunks : list Hunk) : list FilePatch :=
  let is_new := String.eqb old_file "/dev/null" in
  let is_delete := String.eqb new_file "/dev/null" in
  if negb (bool_decide (hunks = [])) || is_new || is_delete then
    [{| fp_path := if is_delete then without_prefix "a/" old_file else without_prefix "b/" new_file;
        fp_hunks := hunks; fp_is_new := is_new; fp_is_delete := is_delete |}]
  else [].

Fixpoint file_patches (fuel : nat) (ls : list string) : option (list FilePatch) :=
  match fuel with
  | O => None
  | S fuel =>
      match ls with
      | [] => Some []
      | line :: rest =>
          if starts_with "---" line then
            match rest with
            | plus :: rest' =>
                if starts_with "+++" plus then
                  '(hunks, after) ← file_hunks (S (length rest')) rest';
                  patches ← file_patches fuel after;
                  Some (file_patch (file_of "--- " line) (file_of "+++ " plus) hunks ++ patches)
                else file_patches fuel rest
            | [] => Some []
            end
          else file_patches fuel rest
      end
  end.

Definition parse_patch (text : string) : option (list FilePatch) :=
  let ls := lines text in file_patches (S (length ls)) ls.

(** [lines.splice(start..end, new_lines)] panics when [start] is behind [end]. *)
Definition splice_hunk (hunk : Hunk) (ls : list string) : option (list string) :=
  let start := (hk_old_start hunk - 1)%N in
  let stop := N.min (start + N.of_nat (length (hk_old_lines hunk))) (N.of_nat (length ls)) in
  if (start <=? stop)%N then
    Some (take (N.to_nat start) ls ++ hk_new_lines hunk ++ drop (N.to_nat stop) ls)
  else None.

(** The last hunk first. *)
Fixpoint apply_unified (hunks : list Hunk) (ls : list string) : option (list string) :=
  match hunks with
  | [] => Some ls
  | hunk :: hunks => ls ← apply_unified hunks ls; splice_hunk hunk ls
  end.

(** [lines.join("\n") + "\n"]. *)
Definition joined_lines (ls : list string) : string := join newline ls +:+ newline.

Definition first_old_start (hunks : list Hunk) : N :=
  match map hk_old_start hunks with
  | [] => 1
  | n :: ns => foldl N.min n ns
  end.

Section unified.
Context (line_changes : string → string → list (ChangeTag * string)).

Definition unified_diff (old new : string) (start_line : nat) : string :=
  trim_end (compact_diff (line_changes old new) "" start_line start_line 0).

(** The inner result is what is reported of the file; an error of the outer one is a panic. *)
Definition delete_patched (path : string) : Io (result (string * string) string) :=
  let! there := exists_file path in
  if negb there then io_ret (Err "file does not exist")
  else
    let! old_content := io_try (read_text path) in
    let! removed := remove_file path in
    io_ret (match removed with
            | Ok _ => Ok ("deleted", unified_diff (match old_content with Ok text => text | Err _ => "" end) "" 1)
            | Err _ => Err os_error
            end).

Definition create_patched (patch : FilePatch) (path : string) : Io (result (string * string) string) :=
  let! there := exists_file path in
  if there : bool then io_ret (Err "file already exists")
  else
    let content := String.concat "" (map (λ l, l +:+ newline) (concat (map hk_new_lines (fp_hunks patch)))) in
    io_try (create_parent path ;! write_file path content ;! io_ret ("created", unified_diff "" content 1)).

Definition modify_patched (patch : FilePatch) (path : string) : Io (result (string * string) string) :=
  let! there := exists_file path in
  if negb there then io_ret (Err "file does not exist")
  else
    let! old_content := io_try (read_text path) in
    match old_content with
    | Err e => io_ret (Err e)
    | Ok old_content =>
        match apply_unified (fp_hunks patch) (lines old_content) with
        | None => io_err panicked
        | Some ls =>
            let new_content := joined_lines ls in
            io_try (write_file path new_content ;!
                    io_ret ("modified (" +:+ pretty_nat (length (fp_hunks patch)) +:+ " hunks)",
                            unified_diff old_content new_content (N.to_nat (first_old_start (fp_hunks patch)))))
        end
    end.

Definition apply_patch_with_diff (patch : FilePatch) (path : string) : Io (result (string * string) string) :=
  if fp_is_delete patch then delete_patched path
  else if fp_is_new patch then create_patched patch path
  else modify_patched patch path.

Definition patch_line (patch : FilePatch) (result : result (string * string) string) : string :=
  match result with
  | Ok (msg, diff) => done_line (fp_path patch) msg diff
  | Err e => failed_line (fp_path patch) e
  end.

Fixpoint apply_file_patches (ctx : ToolContext) (patches : list FilePatch) : Io (list string) :=
  match patches with
  | [] => io_ret []
  | patch :: patches =>
      let! result := apply_patch_with_diff patch (resolve_path ctx (fp_path patch)) in
      let! results := apply_file_patches ctx patches in
      io_ret (patch_line patch result :: results)
  end.

(** [None] would be a parser that does not end. *)
Definition patch_execute (ctx : ToolContext) (patch_text : string) : Io (option ToolOutput) :=
  match parse_patch patch_text with
  | None => io_ret None
  | Some patches =>
      if bool_decide (patches = []) then io_err "No valid patches found in input"
      else
        let! results := apply_file_patches ctx patches in
        io_ret (Some {| to_output := join (newline +:+ newline) results; to_title := None |})
  end.
End unified.

(** ** multiedit *)

Record EditOperation := { eo_old_string : string; eo_new_string : string; eo_replace_all : bool }.

Record MultiEditInput := { me_file_path : string; me_edits : list EditOperation }.

(** The text so far, and what was applied and what failed. *)
Record EditProgress := { ep_content : string; ep_applied : list string; ep_failed : list string }.

Definition edit_label (i : nat) : string := "Edit " +:+ pretty_nat (i + 1) +:+ ": ".

Definition edit_failed (why : string) (s : EditProgress) : EditProgress :=
  {| ep_content := ep_content s; ep_applied := ep_applied s; ep_failed := ep_failed s ++ [why] |}.

Definition edit_applied (content how : string) (s : EditProgress) : EditProgress :=
  {| ep_content := content; ep_applied := ep_applied s ++ [how]; ep_failed := ep_failed s |}.

Definition multi_edit (i : nat) (edit : EditOperation) (s : EditProgress) : EditProgress :=
  let old := eo_old_string edit in
  let new := eo_new_string edit in
  if String.eqb old new then edit_failed (edit_label i +:+ "old_string equals new_string") s
  else
    let occurrences := count_matches old (ep_content s) in
    if occurrences =? 0 then edit_failed (edit_label i +:+ "old_string not found") s
    else if (1 <? occurrences) && negb (eo_replace_all edit) then
      edit_failed (edit_label i +:+ "found " +:+ pretty_nat occurrences
                   +:+ " occurrences, use replace_all or be more specific") s
    else if eo_replace_all edit then
      edit_applied (replace_all old new (ep_content s))
        (edit_label i +:+ "replaced " +:+ pretty_nat occurrences +:+ " occurrences") s
    else edit_applied (replace_first old new (ep_content s)) (edit_label i +:+ "replaced 1 occurrence") s.

Fixpoint multi_edits (i : nat) (edits : list EditOperation) (s : EditProgress) : EditProgress :=
  match edits with
  | [] => s
  | edit :: edits => multi_edits (S i) edits (multi_edit i edit s)
  end.

Definition MAX_SUMMARY_LINES : nat := 30.

Fixpoint edit_summary (changes : list (ChangeTag * string)) (output : string) (old_line new_line shown : nat) : string :=
  match changes with
  | [] => output
  | (tag, value) :: rest =>
      let content := trim value in
      let show prefix num := output +:+ pretty_nat num +:+ prefix +:+ " " +:+ content +:+ newline in
      match tag with
      | TagEqual => edit_summary rest output (S old_line) (S new_line) shown
      | TagDelete =>
          if is_empty content then edit_summary rest output (S old_line) new_line shown
          else if MAX_SUMMARY_LINES <=? shown then output +:+ "..." +:+ newline
          else edit_summary rest (show "-" old_line) (S old_line) new_line (S shown)
      | TagInsert =>
          if is_empty content then edit_summary rest output old_line (S new_line) shown
          else if MAX_SUMMARY_LINES <=? shown then output +:+ "..." +:+ newline
          else edit_summary rest (show "+" new_line) old_line (S new_line) (S shown)
      end
  end.

Definition listed_edits (title mark : string) (messages : list string) : string :=
  if bool_decide (messages = []) then ""
  else title +:+ String.concat "" (map (λ m, "  " +:+ mark +:+ " " +:+ m +:+ newline) messages).

Definition multiedit_output (line_changes : string → string → list (ChangeTag * string)) (p : MultiEditInput)
  (original : string) (s : EditProgress) : ToolOutput := {|
  to_output := "Edited " +:+ me_file_path p +:+ newline +:+ newline
    +:+ listed_edits ("Applied:" +:+ newline) tick_mark (ep_applied s)
    +:+ listed_edits (newline +:+ "Failed:" +:+ newline) cross_mark (ep_failed s)
    +:+ newline +:+ "Total: " +:+ pretty_nat (length (ep_applied s)) +:+ " applied, "
    +:+ pretty_nat (length (ep_failed s)) +:+ " failed" +:+ newline
    +:+ (if bool_decide (ep_applied s = []) then ""
         else newline +:+ "Diff:" +:+ newline +:+ edit_summary (line_changes original (ep_content s)) "" 1 1 0);
  to_title := Some (me_file_path p) |}.

Definition multiedit_execute (line_changes : string → string → list (ChangeTag * string)) (ctx : ToolContext)
  (p : MultiEditInput) : Io ToolOutput :=
  let path := resolve_path ctx (me_file_path p) in
  let! there := exists_file path in
  if negb there then io_err ("File not found: " +:+ me_file_path p)
  else
    let! original := read_text path in
    let s := multi_edits 0 (me_edits p) {| ep_content := original; ep_applied := []; ep_failed := [] |} in
    write_file path (ep_content s) ;!
    io_ret (multiedit_output line_changes p original s).
