(* ===== verification/ReceiptsTheorems.v ===== *)
(** * Receipts of actions: what is recorded, and when

    Edits and writes that succeed are in the ledger, those that fail on a working disk
    are undone, a broken ledger stops commands before they run, and the ledger is blind
    to command lines unless the operator asked for them. *)

From S2P Require Import Prelude RustStr RiskPaths RiskAssess RustText Disk Omnis OmnisChain OmnisDisk OmnisTheorems Receipts FileTools.

(** ** Line numbers *)

Lemma length_lines_cons c s :
  length (lines (String c s))
  = if Ascii.eqb c "010" then S (length (lines s)) else Nat.max 1 (length (lines s)).
Proof.
  unfold lines. cbn [split_chr]. pose proof (split_chr_ne "010"%char s) as Hne.
  destruct (split_chr "010" s) as [|l ls]; [done|]. destruct (Ascii.eqb c "010"); [done|].
  destruct ls as [|l' ls]; simpl; [by case_bool_decide|lia].
Qed.

Lemma length_lines_app a b : length (lines a) ≤ length (lines (a +:+ b)).
Proof.
  induction a as [|c a IH]; [simpl; lia|]. rewrite str_app_cons, !length_lines_cons.
  destruct (Ascii.eqb c "010"); lia.
Qed.

Lemma replace_first_keeps p r s :
  contains_str p s = true → ∃ rest, replace_first p r s = before_str p s +:+ rest.
Proof.
  induction s as [|c s IH]; cbn [contains_str replace_first before_str]; unfold starts_with.
  - destruct (strip_prefix p ""); [|done]. eauto.
  - destruct (strip_prefix p (String c s)); simpl; [eauto|]. intros H. destruct (IH H) as [rest ->]. by exists rest.
Qed.

Lemma replace_keeps p r s :
  contains_str p s = true → ∃ rest, replace p r s = before_str p s +:+ rest.
Proof.
  unfold replace. induction s as [|c s IH]; cbn [contains_str replace_go before_str]; unfold starts_with.
  - destruct (strip_prefix p ""); [|done]. by exists "".
  - destruct (strip_prefix p (String c s)); simpl; [eauto|]. intros H. destruct (IH H) as [rest ->]. by exists rest.
Qed.

Lemma before_empty s : before_str "" s = "".
Proof. by destruct s. Qed.

Lemma replaced_keeps p content :
  contains_str (ed_old_string p) content = true →
  ∃ rest, replaced p content = before_str (ed_old_string p) content +:+ rest.
Proof.
  intros H. unfold replaced. destruct (ed_replace_all p); [|by apply replace_first_keeps].
  unfold replace_all. destruct (is_empty (ed_old_string p)) eqn:E; [|by apply replace_keeps].
  assert (ed_old_string p = "") as -> by (by destruct (ed_old_string p)). rewrite before_empty. eauto.
Qed.

(** The string slicing of the edit tool is safe: for all contents and all texts to
    replace, neither the search for an approximate match nor the excerpt around the edit cuts
    inside a character or beyond the end. *)
Theorem edit_never_panics p content :
  (count_matches (ed_old_string p) content = 0 →
   is_Some (try_flexible_match content (ed_old_string p) (ed_file_path p))) ∧
  let start_line := find_line_number content (ed_old_string p) in
  is_Some (extract_context (replaced p content) start_line (edit_end_line p start_line) 3).
Proof.
  split.
  - intros H. unfold try_flexible_match. destruct (contains_str _ _ && _); [done|].
    assert (length (lines (ed_old_string p)) ≠ 0) as Hl.
    { destruct (ed_old_string p) as [|c s]; [done|]. rewrite length_lines_cons. destruct (Ascii.eqb c "010"); lia. }
    apply Nat.eqb_neq in Hl. rewrite Hl. by destruct (list_find _ _) as [[]|].
  - intros start_line. unfold extract_context.
    assert (start_line - 4 ≤ length (lines (replaced p content))) as Hs.
    { unfold start_line, find_line_number, split_at_first.
      destruct (contains_str _ _) eqn:Hc; [|lia]. destruct (replaced_keeps p content Hc) as [rest ->].
      pose proof (length_lines_app (before_str (ed_old_string p) content) rest). lia. }
    replace (start_line - (3 + 1) <=? _) with true by (symmetry; apply Nat.leb_le; unfold edit_end_line; lia).
    replace (Nat.min _ _ <=? length _) with true by (symmetry; apply Nat.leb_le; lia). done.
Qed.

(** ** Exit codes *)

Lemma starts_with_cut m a c b :
  starts_with m (a +:+ String c b) = true → contains_chr c m = false → starts_with m a = true.
Proof.
  rewrite !starts_with_spec. intros [r Hr]. revert a Hr. induction m as [|x m IH]; intros a Hr Hm; [by exists a|].
  unfold contains_chr in *. cbn [any_chr] in Hm. apply orb_false_iff in Hm as [Hx Hm].
  rewrite str_app_cons in Hr. destruct a as [|y a].
  - rewrite str_app_nil_l in Hr. injection Hr as -> _. by rewrite Ascii.eqb_refl in Hx.
  - rewrite str_app_cons in Hr. injection Hr as -> Hr. destruct (IH a Hr Hm) as [r' ->]. by exists r'.
Qed.

Lemma contains_cut m a c b :
  contains_chr c m = false → m ≠ "" →
  contains_str m (a +:+ String c b) = contains_str m a || contains_str m b.
Proof.
  intros Hm Hne. induction a as [|x a IH].
  - rewrite str_app_nil_l. cbn [contains_str].
    destruct (starts_with m (String c b)) eqn:Hs.
    + apply (starts_with_cut m "" c b) in Hs; [|done]. apply starts_with_spec in Hs as [r Hr]. by destruct m.
    + destruct m; [done|]. done.
  - rewrite str_app_cons. cbn [contains_str]. rewrite IH, orb_assoc.
    destruct (starts_with m (String x a)) eqn:Hs.
    + apply starts_with_spec in Hs as [r Hr].
      assert (starts_with m (String x (a +:+ String c b)) = true) as ->; [|done].
      apply starts_with_spec. exists (r +:+ String c b). by rewrite <- str_app_cons, Hr, str_app_assoc.
    + destruct (starts_with m (String x (a +:+ String c b))) eqn:Hs'; [|done].
      rewrite <- str_app_cons in Hs'. apply starts_with_cut in Hs'; [congruence|done].
Qed.

Lemma contains_app_l m a b : contains_str m (a +:+ b) = false → contains_str m a = false.
Proof.
  intros H. apply not_true_iff_false. intros Ha. apply not_true_iff_false in H. apply H.
  apply contains_str_spec in Ha as (x & y & ->). apply contains_str_spec. exists x, (y +:+ b). by rewrite !str_app_assoc.
Qed.

Lemma substring_prefix n s : ∃ rest, s = String.substring 0 n s +:+ rest.
Proof.
  revert n. induction s as [|c s IH]; intros [|n]; simpl; try by eexists.
  destruct (IH n) as [rest Hr]. exists rest. rewrite str_app_cons. by rewrite <- Hr.
Qed.

Lemma after_last_None p s : contains_str p s = false → after_last p s = None.
Proof.
  induction s as [|c s IH]; cbn [contains_str after_last]; unfold starts_with;
    destruct (strip_prefix p _); simpl; try done. intros H. by rewrite IH.
Qed.

Definition exit_marker : string := "[exit code: ".

Lemma exit_line_free code : exit_line code = "" ∨ ∃ n : Z, exit_line code = newline +:+ newline +:+ "Exit code: " +:+ pretty n.
Proof. unfold exit_line. destruct code as [c|]; [|by left]. case_bool_decide; [right; eauto|by left]. Qed.

(** Digits and signs contain no bracket. *)
Lemma pretty_no_bracket (n : Z) : contains_str exit_marker ("Exit code: " +:+ pretty n) = false.
Proof.
  assert (∀ x s, contains_chr "[" s = false → contains_chr "[" (pretty_N_go x s) = false) as Hgo.
  { intros x. induction (N.lt_wf_0 x) as [x _ IH]. intros s Hs.
    destruct (decide (x = 0%N)) as [->|Hx]; [by rewrite pretty_N_go_0|].
    rewrite pretty_N_go_step by lia. apply IH; [apply N.div_lt; lia|].
    unfold contains_chr in *. cbn [any_chr]. rewrite Hs, orb_false_r.
    pose proof (N.mod_lt x 10 ltac:(lia)) as Hm. unfold pretty_N_char.
    by destruct (x `mod` 10)%N as [|[[[[]|[]|]|[[]|[]|]|]|[[[]|[]|]|[[]|[]|]|]|]]; try done. }
  assert (contains_chr "[" (pretty n) = false) as Hn.
  { assert (∀ p : N, contains_chr "[" (pretty p) = false) as HN.
    { intros p. unfold pretty, pretty_N. case_decide; [done|]. by apply Hgo. }
    unfold pretty, pretty_Z. destruct n; [done|apply HN|]. unfold contains_chr. simpl. apply HN. }
  apply not_true_iff_false. intros H. apply contains_str_spec in H as (x & y & H).
  assert (contains_chr "[" ("Exit code: " +:+ pretty n) = true) as Hc.
  { rewrite H. unfold contains_chr. rewrite !any_chr_app. by rewrite orb_true_r. }
  unfold contains_chr in Hc, Hn. rewrite any_chr_app, Hn in Hc. done.
Qed.

Lemma format_keeps_marker_out output code :
  contains_str exit_marker output = false → contains_str exit_marker (format_command_output output code) = false.
Proof.
  intros H. unfold format_command_output. set (capped := cap_output output).
  assert (contains_str exit_marker capped = false) as Hc.
  { unfold capped, cap_output. destruct (_ <? _)%N; [|done]. unfold newline. rewrite str_app_cons.
    change (String "010" "" +:+ ?t) with (String "010" t).
    rewrite contains_cut by done. apply orb_false_iff. split; [|done].
    unfold truncate_str. destruct (_ <=? _); [done|].
    destruct (substring_prefix (floor_char_boundary output (N.to_nat MAX_OUTPUT_LEN)) output) as [rest Hr].
    rewrite Hr in H. by apply contains_app_l in H. }
  destruct (is_blank _); [done|]. destruct (exit_line_free code) as [->|[n ->]]; [by rewrite str_app_nil_r|].
  unfold newline. rewrite !str_app_cons, !str_app_nil_l, !contains_cut by done.
  rewrite Hc. apply pretty_no_bracket.
Qed.

(** The exit code of a failed command never reaches its receipt. Unless the
    output of the command itself contains the marker the receipt looks for, the code that is
    recorded is 0 whatever the command returned: the tool writes the code in another format than
    it reads. *)
Theorem failing_commands_are_receipted_as_successful title stdout stderr code :
  contains_str exit_marker (merge_output stdout stderr) = false →
  default 0%Z (parse_exit_code_hint (to_output (foreground_output title (Finished stdout stderr code)))) = 0%Z.
Proof.
  intros H. unfold parse_exit_code_hint. simpl.
  by rewrite after_last_None by (by apply (format_keeps_marker_out _ code)).
Qed.

Lemma failing_commands_are_receipted_as_successful_witness :
  default 0%Z (parse_exit_code_hint (to_output (foreground_output "t" (Finished "" "no such file" (Some 2%Z))))) = 0%Z.
Proof. apply failing_commands_are_receipted_as_successful. reflexivity. Defined.

Example printed_markers_are_believed :
  parse_exit_code_hint (format_command_output "[exit code: 7]" (Some 0%Z)) = Some 7%Z.
Proof. vm_compute. reflexivity. Qed.

Example find_line_number_counts_a_cut_line_twice :
  find_line_number ("ab" +:+ newline +:+ "cd") "d" = 3.
Proof. vm_compute. reflexivity. Qed.

(** ** Recording *)

Section recording.
Context {J : Type} `{!EqDecision J}.
Context (env : string → option string) (home_dir current_dir : option string).
Context (json_bytes : J → result string string) (sha256_hex debug_str : string → string).
Context (receipt_json : Receipt J → result string string) (receipt_parse : string → result (Receipt J) string).
Context (evidence_json : ActionEvidence → result J string).
Context (line_changes : string → string → list (ChangeTag * string)).
Context (policy : PolicyState) (nanos : N) (ledger parent temporary : string).
Context (Hledger : canonical_ledger_path env home_dir = Ok (ledger, parent)).

Abbreviation append_inner := (append_inner json_bytes sha256_hex debug_str receipt_json receipt_parse).
Abbreviation append_action :=
  (append_action env home_dir json_bytes sha256_hex debug_str receipt_json receipt_parse evidence_json).
Abbreviation record_edit :=
  (record_edit env home_dir json_bytes sha256_hex debug_str receipt_json receipt_parse evidence_json policy nanos temporary).
Abbreviation record_write :=
  (record_write env home_dir json_bytes sha256_hex debug_str receipt_json receipt_parse evidence_json policy nanos temporary).
Abbreviation record_bash :=
  (record_bash env home_dir json_bytes sha256_hex debug_str receipt_json receipt_parse evidence_json policy nanos temporary).
Abbreviation edit_execute :=
  (edit_execute env home_dir current_dir json_bytes sha256_hex debug_str receipt_json receipt_parse evidence_json
     line_changes policy nanos temporary).
Abbreviation write_execute :=
  (write_execute env home_dir current_dir json_bytes sha256_hex debug_str receipt_json receipt_parse evidence_json
     line_changes policy nanos temporary).
Abbreviation parse_ledger := (parse_ledger receipt_parse).
Abbreviation valid_chain := (valid_chain json_bytes sha256_hex).

(** *** What recording can reach *)

Lemma append_inner_confined path q S :
  path ∈ S → temporary ∈ S → confined S (append_inner path temporary q).
Proof.
  intros Hp Ht. unfold Omnis.append_inner, append_read, publish_with_appended_line, write_replacement,
    sync_ledger, read_receipts_from. cbv zeta. confine.
Qed.

Lemma confined_map_err {A} S f (m : Io A) : confined S m → confined S (io_map_err f m).
Proof. intros H d. unfold io_map_err. specialize (H d). by destruct (m d) as [[x|e] d']. Qed.

Lemma append_action_confined S kind subject ev eid :
  ledger ∈ S → temporary ∈ S → confined S (append_action temporary kind subject ev eid).
Proof.
  intros Hl Ht. unfold Receipts.append_action, private_parent. rewrite Hledger.
  apply confined_bind; [confine|intros payload]. apply confined_bind; [confine|intros digest].
  apply (confined_known _ _ (ledger, parent)), confined_bind; [confine|intros _].
  by apply confined_map_err, append_inner_confined.
Qed.

(** A record is confined to the ledger and its replacement. *)
Lemma record_confined S (m : Io (AppendOutcome J)) (enabled : bool) :
  confined S m → confined S (if negb enabled then io_ret None else let! o := m in io_ret (Some o)).
Proof. intros H. confine. Qed.

Lemma record_edit_confined S i : ledger ∈ S → temporary ∈ S → confined S (record_edit i).
Proof. intros Hl Ht. by apply record_confined, append_action_confined. Qed.

Lemma record_write_confined S i : ledger ∈ S → temporary ∈ S → confined S (record_write i).
Proof. intros Hl Ht. by apply record_confined, append_action_confined. Qed.

(** *** Changes that are taken back *)

Lemma read_text_healthy path d :
  healthy d →
  read_text path d = (match d_files d !! path with
                      | Some t => if valid_utf8 t then Ok t else Err "stream did not contain valid UTF-8"
                      | None => Err os_error
                      end, d).
Proof.
  intros H. unfold read_text, io_bind. rewrite read_file_healthy by done.
  destruct (d_files d !! path) as [t|]; [|done]. by destruct (valid_utf8 t).
Qed.

(** An edit that writes and does not fail in the end: its record failed, and it was
    taken back. *)
Lemma apply_edit_Err ctx p path before n d e d' :
  path ∉ ({[ledger; temporary]} : gset string) → healthy d → d_files d !! path = Some before →
  apply_edit env home_dir current_dir json_bytes sha256_hex debug_str receipt_json receipt_parse evidence_json
    line_changes policy nanos temporary ctx p path before n d = (Err e, d') →
  d_files d' !! path = Some before.
Proof.
  intros Hpath Hh Hb H. unfold apply_edit in H. cbv zeta in H.
  destruct (write_file_healthy path (replaced p before) d Hh) as (d1 & Hw & Hh1 & Hd1).
  rewrite (io_bind_run _ _ _ _ _ Hw) in H. unfold io_bind at 1, receipt_edit_or_rollback in H. cbv zeta in H.
  unfold io_bind at 1, io_try at 1 in H.
  set (i := {| ei_target_repo_relative := _; ei_before := _; ei_after := _; ei_cwd := _; ei_repo_root := _ |}) in H.
  destruct (record_edit_confined {[ledger; temporary]} i ltac:(set_solver) ltac:(set_solver) d1) as [_ Hh2].
  destruct (record_edit i d1) as [[o|err] d2] eqn:Hrec.
  - destruct (edit_never_panics p before) as [_ [x Hx]]. simpl in H, Hx. by rewrite Hx in H.
  - destruct (write_file_healthy path before d2 (Hh2 Hh1)) as (d3 & Hw3 & _ & Hd3).
    unfold io_bind, io_try in H. rewrite Hw3 in H. injection H as _ <-. rewrite Hd3. apply lookup_insert_eq.
Qed.

(** C25 (safety). When an edit fails on a working disk, be it refused, unreceipted because the
    ledger is broken, or for any other reason, the file has the contents it had before. *)
Theorem failed_edit_is_undone ctx p d e d' :
  resolve_path ctx (ed_file_path p) ∉ ({[ledger; temporary]} : gset string) →
  healthy d → edit_execute ctx p d = (Err e, d') →
  d_files d' !! resolve_path ctx (ed_file_path p) = d_files d !! resolve_path ctx (ed_file_path p).
Proof.
  intros Hpath Hh H. set (path := resolve_path ctx (ed_file_path p)) in *.
  unfold FileTools.edit_execute in H. case_bool_decide; [by injection H as <- <-|].
  fold path in H. rewrite (io_bind_run _ _ _ _ _ (eq_refl : exists_file path d = _)) in H.
  destruct (bool_decide _); [|by injection H as <- <-]. cbn [negb] in H. cbv zeta in H.
  pose proof (read_text_healthy path d Hh) as Hr. destruct (d_files d !! path) as [before|] eqn:Hb.
  - destruct (valid_utf8 before); [|by rewrite (io_bind_fail _ _ _ _ _ Hr) in H; injection H as _ <-].
    rewrite (io_bind_run _ _ _ _ _ Hr) in H. destruct (_ =? 0); [by injection H as _ <-|].
    destruct (_ && _); [by injection H as _ <-|]. by eapply apply_edit_Err.
  - rewrite (io_bind_fail _ _ _ _ _ Hr) in H. by injection H as _ <-.
Qed.

(** *** Writes *)

(** What a failed write leaves. A file that was text has its old contents and a file
    that did not exist is gone again; but a file that was not UTF-8 has been overwritten,
    although the error says that the write was rolled back. *)
Theorem failed_write_is_undone_for_text ctx p parent_exists d e d' :
  resolve_path ctx (wr_file_path p) ∉ ({[ledger; temporary]} : gset string) →
  healthy d → write_execute ctx p parent_exists d = (Err e, d') →
  let path := resolve_path ctx (wr_file_path p) in
  d_files d' !! path =
    match d_files d !! path with
    | Some before => if valid_utf8 before then Some before else Some (wr_content p)
    | None => None
    end.
Proof.
  intros Hpath Hh H path. unfold FileTools.write_execute in H. fold path in H.
  assert ((if parent_exists then io_ret tt else sys_check) d = (Ok tt, d)) as Hpar
    by (destruct parent_exists; [done|by apply sys_check_healthy]).
  rewrite (io_bind_run _ _ _ _ _ Hpar) in H.
  rewrite (io_bind_run _ _ _ _ _ (eq_refl : exists_file path d = _)) in H.
  set (existed := bool_decide (is_Some (d_files d !! path))) in H.
  set (old := match d_files d !! path with Some t => if valid_utf8 t then Some t else None | None => None end).
  assert ((if existed then let! read := io_try (read_text path) in
             io_ret (match read with Ok text => Some text | Err _ => None end) else io_ret None) d = (Ok old, d)) as Hold.
  { unfold existed, old. pose proof (read_text_healthy path d Hh) as Hr.
    destruct (d_files d !! path) as [t|]; [|done]. unfold io_bind, io_try. simpl. rewrite Hr.
    by destruct (valid_utf8 t). }
  rewrite (io_bind_run _ _ _ _ _ Hold) in H.
  destruct (write_file_healthy path (wr_content p) d Hh) as (d1 & Hw & Hh1 & Hd1).
  rewrite (io_bind_run _ _ _ _ _ Hw) in H.
  unfold io_bind at 1, receipt_write_or_rollback in H. cbv zeta in H. unfold io_bind at 1, io_try at 1 in H.
  set (i := {| wi_target_repo_relative := _; wi_before := _; wi_after := _; wi_cwd := _; wi_repo_root := _ |}) in H.
  destruct (record_write_confined {[ledger; temporary]} i ltac:(set_solver) ltac:(set_solver) d1) as [Hfr Hh2].
  destruct (record_write i d1) as [[o|err] d2] eqn:Hrec; [done|]. simpl in Hfr, Hh2.
  assert (d_files d2 !! path = Some (wr_content p)) as Hnew by (rewrite Hfr by done; rewrite Hd1; apply lookup_insert_eq).
  unfold undo_write, existed, old in H. destruct (d_files d !! path) as [before|]; simpl in H.
  - destruct (valid_utf8 before); [|by injection H as _ <-].
    destruct (write_file_healthy path before d2 (Hh2 Hh1)) as (d3 & Hw3 & _ & Hd3).
    unfold io_bind, io_try in H. rewrite Hw3 in H. injection H as _ <-. rewrite Hd3. apply lookup_insert_eq.
  - destruct (remove_file_healthy path d2 (Hh2 Hh1)) as [_ Hd3].
    unfold io_bind, io_try in H. destruct (remove_file path d2) as [r d3]. injection H as _ <-.
    simpl in Hd3. rewrite Hd3. apply lookup_delete_eq.
Qed.
(** *** Commands *)

(** With redaction on, the receipt of a command depends on the command only
    through the name of its program and the hash of the whole text: no argument is recorded. *)
Theorem ledger_is_blind_to_arguments command1 command2 exit_code cwd repo_root :
  receipt_full_argv_enabled env policy = false →
  program_name command1 = program_name command2 → sha256_hex command1 = sha256_hex command2 →
  let record command := record_bash {|
    bi_command := command; bi_exit_code := exit_code; bi_cwd := cwd; bi_repo_root := repo_root |} in
  record command1 = record command2.
Proof.
  intros Hfull Hprog Hsha record. unfold record, Receipts.record_bash, bash_evidence. simpl.
  by rewrite Hfull, Hprog, Hsha.
Qed.

Context (enabled : action_receipts_enabled env policy = true).

(** A ledger that does not read as a valid chain. *)
Definition broken (c : string) : Prop := ∀ rs, parse_ledger c = Ok rs → ¬ valid_chain rs.

Lemma verify_Ok path c d v d' :
  d_files d !! path = Some c → verify json_bytes sha256_hex receipt_parse path d = (Ok v, d') →
  ∃ rs, parse_ledger c = Ok rs ∧ v = verify_receipts json_bytes sha256_hex rs.
Proof.
  intros Hc H. unfold verify in H. apply io_bind_Ok in H as ([] & d1 & Hx & H). apply sys_check_Ok in Hx.
  apply io_bind_Ok in H as (there & d2 & Hy & H). injection Hy as <- <-. rewrite Hx, Hc in H. simpl in H.
  apply io_bind_Ok in H as (rs & d2 & Hr & H). injection H as <- <-. exists rs. split; [|done].
  unfold read_receipts_from in Hr. apply io_bind_Ok in Hr as (text & d3 & Ht & Hr).
  apply io_context_Ok in Ht. apply io_of_Ok in Hr as [Hr _].
  unfold read_file, sys_get in Ht. apply io_bind_Ok in Ht as (content & d4 & Hg & Ht).
  assert (content = Some c) as ->.
  { revert Hg. fault_cases d1; [|done]. intros [= <- <-]. by rewrite Hx. }
  by injection Ht as <- <-.
Qed.

Lemma preflight_refuses d c :
  d_files d !! ledger = Some c → broken c →
  ∃ e d', preflight_if_enabled env home_dir json_bytes sha256_hex receipt_parse policy d = (Err e, d') ∧
    d_files d' = d_files d.
Proof.
  intros Hc Hbroken. unfold preflight_if_enabled, preflight_ledger_writable. rewrite enabled, Hledger. simpl negb. cbv iota.
  set (m := io_bind (io_context _ (io_of (Ok (ledger, parent)))) _).
  assert (confined ∅ m) as Hconf.
  { unfold m, private_parent, verify, read_receipts_from. apply (confined_known _ _ (ledger, parent)). confine. }
  destruct (m d) as [[[]|e] d'] eqn:Hm.
  - exfalso. unfold m in Hm. apply io_bind_Ok in Hm as ([l p] & d1 & Hx & Hm).
    apply io_context_Ok, io_of_Ok in Hx as [[= <- <-] ->]. apply io_bind_Ok in Hm as ([] & d1 & Hx & Hm).
    apply io_context_Ok, sys_check_Ok in Hx. rewrite <- Hx in Hc.
    apply io_bind_Ok in Hm as (v & d2 & Hv & Hm). apply io_context_Ok in Hv.
    destruct (verify_Ok _ _ _ _ _ Hc Hv) as (rs & Hrs & ->). specialize (Hbroken rs Hrs).
    rewrite verify_entries in Hm. unfold OmnisChain.valid_chain in Hbroken. apply not_true_is_false in Hbroken.
    rewrite Hbroken in Hm. destruct rs; [done|]. done.
  - exists e, d'. split; [done|]. destruct (Hconf d) as [Hfs _]. rewrite Hm in Hfs.
    apply map_eq. intros q. apply Hfs. set_solver.
Qed.

(** No receipt, no command. When the receipt ledger cannot be read as a valid
    chain, a foreground command is refused before it runs, and no file changes. *)
Theorem broken_ledger_stops_commands run_foreground run_background browser_rewrite ctx p d c :
  default false (ba_run_in_background p) = false → is_browser_command (ba_command p) = false →
  d_files d !! ledger = Some c → broken c →
  ∃ e d',
    bash_execute env home_dir current_dir json_bytes sha256_hex debug_str receipt_json receipt_parse evidence_json
      policy nanos temporary run_foreground run_background browser_rewrite ctx p d = (Err e, d') ∧
    d_files d' = d_files d.
Proof.
  intros Hbg Hbr Hc Hbroken. unfold bash_execute. destruct (destructive_command_refusal _ _ _ _) as [refusal|]; [by exists refusal, d|].
  rewrite Hbg, Hbr. destruct (preflight_refuses d c Hc Hbroken) as (e & d' & Hp & Hfs). exists e, d'. split; [|done].
  rewrite (io_bind_run _ _ _ _ _ (eq_refl : io_ret (ba_command p) d = _)). by rewrite (io_bind_fail _ _ _ _ _ Hp).
Qed.

(** *** What a successful record leaves *)

(** The ledger verifies and has a receipt of this kind and evidence. *)
Definition receipted (kind : string) (ev : ActionEvidence) (fs : Files) : Prop :=
  ∃ payload c rs r, evidence_json ev = Ok payload ∧ fs !! ledger = Some c ∧ parse_ledger c = Ok rs ∧
    valid_chain rs ∧ r ∈ rs ∧ r_kind r = kind ∧ r_evidence r = Some payload ∧
    evidence_payload_digest json_bytes sha256_hex payload = Ok (r_evidence_sha256 r).

Lemma same_content_fields (q : AppendRequest J) digest r :
  same_content q digest r = true →
  r_kind r = q_kind q ∧ r_evidence_sha256 r = digest ∧ r_evidence r = q_evidence q.
Proof.
  unfold same_content. rewrite !andb_true_iff, !bool_decide_eq_true. tauto.
Qed.

Lemma check_request_evidence (q : AppendRequest J) digest payload :
  check_request json_bytes sha256_hex q = Ok digest → q_evidence q = Some payload →
  evidence_payload_digest json_bytes sha256_hex payload = Ok digest.
Proof.
  unfold check_request. intros H Hp. rewrite Hp in H.
  destruct (match q_event_id q with Some id => _ | None => _ end); [|done].
  destruct (validate_kind _); [|done]. destruct (validate_subject _); [|done].
  destruct (normalize_digest _); [|done]. destruct (evidence_payload_digest _ _ _) as [b|]; [|done].
  case_bool_decide as Hb; [done|]. congruence.
Qed.

Context `{!LineSerializer receipt_json receipt_parse}.
Context (Hne : temporary ≠ ledger).

Lemma append_action_receipted kind subject ev eid d o d' :
  append_action temporary kind subject ev eid d = (Ok o, d') → receipted kind ev (d_files d').
Proof.
  unfold Receipts.append_action. rewrite Hledger. intros H.
  apply io_bind_Ok in H as (payload & d1 & Hpay & H). apply io_of_Ok in Hpay as [Hpay ->].
  apply io_bind_Ok in H as (digest0 & d1 & Hd & H). apply io_of_Ok in Hd as [_ ->].
  apply io_bind_Ok in H as ([ledger' parent'] & d1 & Hl & H).
  apply io_context_Ok, io_of_Ok in Hl as [Hl ->]. injection Hl as <- <-.
  apply io_bind_Ok in H as ([] & d2 & _ & H).
  unfold io_map_err in H. destruct (append_idempotent_with_evidence _ _ _ _ _ _ _ _ _ _ _ _ _ _) as [[o'|e] d3] eqn:Hrun;
    [|done]. injection H as <- <-.
  set (q := {| q_event_id := Some eid; q_kind := kind; q_subject := subject; q_evidence_sha256 := digest0;
    q_claim_ceiling := LocalRecord; q_evidence := Some payload |} : AppendRequest J).
  destruct (append_inner_guarded json_bytes sha256_hex debug_str receipt_json receipt_parse ledger temporary
    (d_files d2 !! ledger) q Hne d2 eq_refl) as [_ Hres].
  unfold append_idempotent_with_evidence in Hrun. fold q in Hrun. rewrite Hrun in Hres. simpl in Hres.
  assert (evidence_json ev = Ok payload) as Hev by (unfold evidence_value in Hpay; destruct (evidence_json ev); congruence).
  destruct (ao_disposition o').
  - apply grown_reads in Hres as (rs & digest & c & _ & Hq & _ & Hfs & Hc & Hv & [Ho|Ho]); [done|injection Ho as Ho|done].
    exists payload, c, (rs ++ [ao_receipt o']), (ao_receipt o'). rewrite Ho.
    split_and!; try done; [by apply elem_of_app; right; left|by eapply check_request_evidence].
  - destruct Hres as (rs & digest & Hc & Hv & Hq & Hf & Hs & Hfs).
    apply same_content_fields in Hs as (Hk & Hd & He). apply find_Some_elem in Hf as [Hin _].
    exists payload, (default "" (d_files d2 !! ledger)), rs, (ao_receipt o').
    split_and!; try done. rewrite Hd. by eapply check_request_evidence.
Qed.

Lemma record_Ok (m : Io (AppendOutcome J)) (on : bool) d o d' :
  on = true → (if negb on then io_ret None else let! o := m in io_ret (Some o)) d = (Ok o, d') →
  ∃ o', m d = (Ok o', d').
Proof. intros -> H. simpl in H. apply io_bind_Ok in H as (o' & d1 & Hm & [= <- <-]). eauto. Qed.

(** *** Edits that succeed *)

(** What an edit of [path] records. *)
Definition edit_record (ctx : ToolContext) (p : EditInput) (path before : string) : ActionEvidence :=
  let cwd := cwd_from_ctx current_dir (tc_working_dir ctx) in
  edit_evidence sha256_hex {|
    ei_target_repo_relative := repo_relative cwd path (ed_file_path p); ei_before := before;
    ei_after := replaced p before; ei_cwd := cwd; ei_repo_root := cwd |}.

Lemma apply_edit_Ok ctx p path before n d out d' :
  path ∉ ({[ledger; temporary]} : gset string) →
  apply_edit env home_dir current_dir json_bytes sha256_hex debug_str receipt_json receipt_parse evidence_json
    line_changes policy nanos temporary ctx p path before n d = (Ok out, d') →
  d_files d' !! path = Some (replaced p before) ∧ receipted "agent.edit" (edit_record ctx p path before) (d_files d').
Proof.
  intros Hpath H. unfold apply_edit in H.
  apply io_bind_Ok in H as ([] & d1 & Hw & H). apply write_file_Ok in Hw.
  apply io_bind_Ok in H as ([] & d2 & Hr & H).
  assert (d' = d2) as ->.
  { cbv zeta in H. destruct (extract_context _ _ _ _); [by injection H as <- <-|done]. }
  unfold receipt_edit_or_rollback in Hr. cbv zeta in Hr. unfold io_bind at 1, io_try at 1 in Hr.
  set (i := {| ei_target_repo_relative := _; ei_before := _; ei_after := _; ei_cwd := _; ei_repo_root := _ |}) in Hr.
  destruct (record_edit_confined {[ledger; temporary]} i ltac:(set_solver) ltac:(set_solver) d1) as [Hfr _].
  destruct (record_edit i d1) as [[o|e] d3] eqn:Hrec.
  - injection Hr as <-. split; [by rewrite <- Hw; apply Hfr|].
    apply record_Ok in Hrec as [o' Hrec]; [|done]. by apply append_action_receipted in Hrec.
  - apply io_bind_Ok in Hr as (? & ? & _ & [=]).
Qed.

Lemma read_text_Ok path d t d' : read_text path d = (Ok t, d') → d_files d !! path = Some t ∧ d_files d' = d_files d.
Proof.
  unfold read_text, read_file, sys_get. intros H. apply io_bind_Ok in H as (text & d1 & Hx & H).
  apply io_bind_Ok in Hx as (content & d2 & Hg & Hx).
  fault_cases d; [|done]. injection Hg as <- <-. destruct (d_files d !! path); [|done].
  injection Hx as <- <-. destruct (valid_utf8 _); [|done]. by injection H as <- <-.
Qed.

(** A successful edit replaced exactly what it says, the only occurrence or all of
    them, in the file as it was before, and the ledger ends with a receipt of the edit with the
    hashes of the contents before and after. *)
Theorem successful_edit_is_receipted ctx p d out d' :
  resolve_path ctx (ed_file_path p) ∉ ({[ledger; temporary]} : gset string) →
  edit_execute ctx p d = (Ok out, d') →
  let path := resolve_path ctx (ed_file_path p) in
  ∃ before, d_files d !! path = Some before ∧
    (if ed_replace_all p then 1 ≤ count_matches (ed_old_string p) before
     else count_matches (ed_old_string p) before = 1) ∧
    d_files d' !! path = Some (replaced p before) ∧
    receipted "agent.edit" (edit_record ctx p path before) (d_files d').
Proof.
  intros Hpath H path. unfold FileTools.edit_execute in H. case_bool_decide; [done|].
  apply io_bind_Ok in H as (there & d1 & Hex & H). injection Hex as <- <-. fold path in H.
  destruct (bool_decide _); [|done]. cbn [negb] in H.
  apply io_bind_Ok in H as (before & d1 & Hr & H). apply read_text_Ok in Hr as [Hr Hd1]. cbv zeta in H.
  destruct (Nat.eqb_spec (count_matches (ed_old_string p) before) 0) as [|Hn]; [done|].
  destruct ((1 <? _) && _) eqn:Hmany; [done|]. exists before. split; [done|].
  apply apply_edit_Ok in H as [H1 H2]; [|done]. split; [|done].
  apply andb_false_iff in Hmany. rewrite Nat.ltb_ge in Hmany.
  destruct (ed_replace_all p); [lia|]. destruct Hmany; [lia|done].
Qed.

End recording.

(** ** The theorems at work *)

Definition sample_env (key : string) : option string := if bool_decide (key = "JCODE_HOME") then Some "/j" else None.

Definition sample_policy : PolicyState := {|
  installed := {| no_receipts := false; full_argv := false; receipt_reads := false |};
  session_no_receipts_noted := false |}.

Definition sample_evidence (ev : ActionEvidence) : result string string :=
  Ok (tool_as_str (e_tool ev) +:+ default "" (e_target ev) +:+ default "" (e_argv_program ev)).

Definition sample_ctx : ToolContext := {| tc_session_id := "s"; tc_working_dir := Some "/w" |}.

Definition sample_files (ledger : string) : Disk := {|
  d_files := <["/w/a.txt" := "x = 1"]> (<["/j/state/omnis-key/receipts.jsonl" := ledger]> ∅);
  d_faults := []; d_trace := [] |}.

Definition sample_edit (replacement : string) : EditInput := {|
  ed_intent := None; ed_file_path := "a.txt"; ed_old_string := "1"; ed_new_string := replacement;
  ed_replace_all := false |}.

Abbreviation run_edit :=
  (edit_execute sample_env None None sample_bytes sample_sha (λ s, s) sample_json sample_parse sample_evidence
     (λ _ _, []) sample_policy 7 "/tmp/t" sample_ctx).

Definition succeeded {A} (run : result A string * Disk) : bool := is_ok run.1.

Lemma successful_edit_is_receipted_witness :
  ∃ out d', run_edit (sample_edit "2") (sample_files "") = (Ok out, d') ∧
  d_files d' !! "/w/a.txt" = Some "x = 2" ∧
  ∃ before, receipted sample_bytes sample_sha sample_parse sample_evidence "/j/state/omnis-key/receipts.jsonl" "agent.edit"
    (edit_record None sample_sha sample_ctx (sample_edit "2") "/w/a.txt" before) (d_files d').
Proof.
  assert (succeeded (run_edit (sample_edit "2") (sample_files "")) = true) as Hok by (vm_compute; reflexivity).
  destruct (run_edit (sample_edit "2") (sample_files "")) as [[out|e] d'] eqn:H; [|discriminate].
  exists out, d'. split; [done|].
  destruct (successful_edit_is_receipted sample_env None None sample_bytes sample_sha (λ s, s) sample_json sample_parse
    sample_evidence (λ _ _, []) sample_policy 7 "/j/state/omnis-key/receipts.jsonl" "/j/state/omnis-key" "/tmp/t" eq_refl
    eq_refl ltac:(done) sample_ctx (sample_edit "2") (sample_files "") out d' ltac:(by vm_compute) H)
    as (before & Hb & _ & Ha & Hr).
  assert (before = "x = 1") as -> by (injection Hb as <-; reflexivity). split; [exact Ha|eauto].
Defined.

Lemma failed_edit_is_undone_witness :
  ∃ e d', run_edit (sample_edit "2") (sample_files "torn") = (Err e, d') ∧
  d_files d' !! "/w/a.txt" = d_files (sample_files "torn") !! "/w/a.txt".
Proof.
  assert (succeeded (run_edit (sample_edit "2") (sample_files "torn")) = false) as Hok by (vm_compute; reflexivity).
  destruct (run_edit (sample_edit "2") (sample_files "torn")) as [[out|e] d'] eqn:H; [discriminate|].
  exists e, d'. split; [done|].
  exact (failed_edit_is_undone sample_env None None sample_bytes sample_sha (λ s, s) sample_json sample_parse
    sample_evidence (λ _ _, []) sample_policy 7 "/j/state/omnis-key/receipts.jsonl" "/j/state/omnis-key" "/tmp/t" eq_refl
    sample_ctx (sample_edit "2") (sample_files "torn") e d' ltac:(by vm_compute) eq_refl H).
Defined.

Definition sample_write : WriteInput := {| wr_intent := None; wr_file_path := "a.txt"; wr_content := "new" |}.

(** A file that is not text, behind a ledger that takes no receipt. *)
Definition binary_files : Disk := {|
  d_files := <["/w/a.txt" := String "255" "bin"]> (<["/j/state/omnis-key/receipts.jsonl" := "torn"]> ∅);
  d_faults := []; d_trace := [] |}.

Lemma failed_write_is_undone_for_text_witness :
  ∃ e d', write_execute sample_env None None sample_bytes sample_sha (λ s, s) sample_json sample_parse sample_evidence
     (λ _ _, []) sample_policy 7 "/tmp/t" sample_ctx sample_write true binary_files = (Err e, d') ∧
  d_files d' !! "/w/a.txt" = Some "new".
Proof.
  assert (succeeded (write_execute sample_env None None sample_bytes sample_sha (λ s, s) sample_json sample_parse
    sample_evidence (λ _ _, []) sample_policy 7 "/tmp/t" sample_ctx sample_write true binary_files) = false) as Hok
    by (vm_compute; reflexivity).
  destruct (write_execute sample_env None None sample_bytes sample_sha (λ s, s) sample_json sample_parse sample_evidence
     (λ _ _, []) sample_policy 7 "/tmp/t" sample_ctx sample_write true binary_files) as [[out|e] d'] eqn:H;
    [discriminate|].
  exists e, d'. split; [done|].
  exact (failed_write_is_undone_for_text sample_env None None sample_bytes sample_sha (λ s, s) sample_json sample_parse
    sample_evidence (λ _ _, []) sample_policy 7 "/j/state/omnis-key/receipts.jsonl" "/j/state/omnis-key" "/tmp/t" eq_refl
    sample_ctx sample_write true binary_files e d' ltac:(by vm_compute) eq_refl H).
Defined.

Lemma ledger_is_blind_to_arguments_witness :
  let record command := record_bash sample_env None sample_bytes sample_sha (λ s, s) sample_json sample_parse
    sample_evidence sample_policy 7 "/tmp/t"
    {| bi_command := command; bi_exit_code := 0; bi_cwd := "/w"; bi_repo_root := "/w" |} in
  record "curl -H 'Authorization: Bearer sk-1'" = record "curl -H 'Authorization: Bearer sk-2'".
Proof.
  exact (ledger_is_blind_to_arguments sample_env None sample_bytes sample_sha (λ s, s) sample_json sample_parse
    sample_evidence sample_policy 7 "/tmp/t" _ _ 0 "/w" "/w" eq_refl eq_refl eq_refl).
Defined.

Example assignments_are_recorded_as_programs : program_name "TOKEN=sk-1 curl https://x" = "TOKEN=sk-1".
Proof. vm_compute. reflexivity. Qed.

Lemma broken_ledger_stops_commands_witness :
  ∃ e d', bash_execute sample_env None None sample_bytes sample_sha (λ s, s) sample_json sample_parse sample_evidence
    sample_policy 7 "/tmp/t" (λ _, io_ret (Finished "" "" (Some 0%Z))) (λ _, io_err "no background") io_ret sample_ctx
    {| ba_command := "make"; ba_intent := None; ba_run_in_background := None; ba_justification := None |}
    (sample_files "torn") = (Err e, d') ∧ d_files d' = d_files (sample_files "torn").
Proof.
  apply (broken_ledger_stops_commands sample_env None None sample_bytes sample_sha (λ s, s) sample_json sample_parse
    sample_evidence sample_policy 7 "/j/state/omnis-key/receipts.jsonl" "/j/state/omnis-key" "/tmp/t" eq_refl eq_refl
    _ _ _ sample_ctx _ (sample_files "torn") "torn"); [done|by vm_compute|by vm_compute|].
  intros rs Hrs. vm_compute in Hrs. discriminate.
Defined.
