(* ===== verification/PatchTheorems.v ===== *)
(** * Theorems about the patch tools

    The parsers end; an update replaces the lines that its chunks match and no others; patches
    that are printed are read back; a patch changes the files it names and removes no
    protected one unless it moves it; the hunks of a unified diff replace the lines they
    number. *)

From S2P Require Import Prelude RustStr RustText RiskPaths Disk Omnis OmnisChain Receipts FileTools PatchTools ReceiptsTheorems.

#[local] Arguments strip_prefix : simpl never.
#[local] Arguments starts_with : simpl never.

(** ** The parsers end *)

Lemma chunk_body_length had ls : length (chunk_body had ls).2 ≤ length ls.
Proof.
  revert had. induction ls as [|cl rest IH]; intros had; cbn [chunk_body]; [simpl; lia|].
  pose proof (IH true). pose proof (IH had).
  destruct (String.eqb _ _); [simpl; lia|]. destruct (starts_with "*** " cl || _); [simpl; lia|].
  destruct (strip_prefix " " cl); [simpl; lia|]. destruct (strip_prefix "+" cl); [simpl; lia|].
  destruct (strip_prefix "-" cl); [simpl; lia|]. destruct (is_empty cl); [simpl; lia|].
  destruct had; simpl; lia.
Qed.

Lemma parse_chunks_total fuel first ls :
  length ls + (if first : bool then 1 else 0) < fuel →
  ∃ cs rest, parse_chunks fuel first ls = Some (cs, rest) ∧ length rest ≤ length ls.
Proof.
  revert first ls. induction fuel as [|fuel IH]; intros first ls Hf; [lia|].
  destruct ls as [|line rest]; simpl; [by eexists _, _|].
  destruct (starts_with "*** " _ && _); [by eexists _, _|].
  destruct (blank_between_chunks _).
  { destruct (IH first rest) as (cs & r & -> & Hr); [simpl in Hf; lia|]. eexists _, _. split; [done|lia]. }
  destruct (chunk_header _ _ _ _) as [[context body]|] eqn:Eh; [|by eexists _, _].
  assert (length body + 1 ≤ length (line :: rest) + (if first then 1 else 0)) as Hb.
  { unfold chunk_header in Eh. repeat case_match; simplify_eq; simpl in *; lia. }
  destruct (chunk_body false body) as [b after] eqn:Eb. pose proof (chunk_body_length false body) as Hl. rewrite Eb in Hl. simpl in Hl, Hb, Hf.
  destruct (IH false after) as (cs & r & -> & Hr); [destruct first; lia|]. eexists _, _. split; [done|].
  enough (length body ≤ S (length rest)) by lia. unfold chunk_header in Eh. repeat case_match; simplify_eq; simpl; lia.
Qed.

Lemma added_contents_length ls : length (added_contents ls).2 ≤ length ls.
Proof.
  induction ls as [|l ls IH]; simpl; [lia|]. destruct (starts_with "*** " l); [simpl; lia|].
  destruct (added_contents ls) as [c r]. simpl in IH. destruct (strip_prefix "+" l); simpl; lia.
Qed.

Lemma update_hunk_total path ls :
  ∃ r, update_hunk path ls = Some r ∧ ∀ hunk rest, r = Ok (hunk, rest) → length rest ≤ length ls.
Proof.
  unfold update_hunk. destruct (moved_to ls) as [m ls'] eqn:Em.
  assert (length ls' ≤ length ls) as Hm by (unfold moved_to in Em; repeat case_match; simplify_eq; simpl; lia).
  destruct (parse_chunks_total (chunks_fuel ls') true ls') as (cs & rest & -> & Hr); [unfold chunks_fuel; lia|].
  simpl. eexists. split; [done|]. intros ? ? [=]. destruct (bool_decide (cs = [])); simplify_eq. lia.
Qed.

Lemma parse_hunks_total fuel ls : length ls < fuel → ∃ r, parse_hunks fuel ls = Some r.
Proof.
  revert ls. induction fuel as [|fuel IH]; intros ls Hf; [lia|]. destruct ls as [|line rest]; simpl; [by eexists|]. simpl in Hf.
  destruct (String.eqb _ _); [by eexists|]. destruct (strip_prefix "*** Add File: " _) as [p|].
  { pose proof (added_contents_length rest). destruct (added_contents rest) as [c r]. simpl in *.
    destruct (IH r) as [x ->]; [lia|]. by eexists. }
  destruct (strip_prefix "*** Delete File: " _) as [p|]; [destruct (IH rest) as [x ->]; [lia|]; by eexists|].
  destruct (strip_prefix "*** Update File: " _) as [p|]; [|apply IH; lia].
  destruct (update_hunk_total (trim p) rest) as ([[hunk r]|e] & -> & Hr); simpl; [|by eexists].
  destruct (IH r) as [x ->]; [specialize (Hr _ _ eq_refl); lia|]. by eexists.
Qed.

Lemma parse_apply_patch_total input : ∃ r, parse_apply_patch input = Some r.
Proof.
  unfold parse_apply_patch. destruct (after_begin (lines input)) as [ls|]; [|by eexists].
  destruct (parse_hunks_total (S (length ls)) ls) as [r ->]; [lia|]. by eexists.
Qed.

Lemma hunk_body_length ls : length (hunk_body ls).2 ≤ length ls.
Proof.
  induction ls as [|l ls IH]; simpl; [lia|]. destruct (starts_with "@@" l || starts_with "---" l); [simpl; lia|].
  destruct (hunk_body ls) as [[old new] r]. simpl in IH. repeat case_match; simpl; lia.
Qed.

Lemma file_hunks_total fuel ls : length ls < fuel → ∃ hs rest, file_hunks fuel ls = Some (hs, rest) ∧ length rest ≤ length ls.
Proof.
  revert ls. induction fuel as [|fuel IH]; intros ls Hf; [lia|]. destruct ls as [|line rest]; simpl; [by eexists _, _|]. simpl in Hf.
  destruct (starts_with "---" line); [by eexists _, _|]. destruct (starts_with "@@" line).
  - destruct (parse_hunk line rest) as [h r] eqn:Eh. assert (length r ≤ length rest) as Hr.
    { unfold parse_hunk in Eh. pose proof (hunk_body_length rest). destruct (hunk_body rest) as [[old new] r']. simpl in *.
      repeat case_match; simplify_eq; lia. }
    destruct (IH r) as (hs & r' & -> & ?); [lia|]. eexists _, _. split; [done|lia].
  - destruct (IH rest) as (hs & r' & -> & ?); [lia|]. eexists _, _. split; [done|lia].
Qed.

Lemma file_patches_total fuel ls : length ls < fuel → ∃ ps, file_patches fuel ls = Some ps.
Proof.
  revert ls. induction fuel as [|fuel IH]; intros ls Hf; [lia|]. destruct ls as [|line rest]; cbn [file_patches]; [by eexists|].
  simpl in Hf. destruct (starts_with "---" line); [|apply IH; lia]. destruct rest as [|plus rest']; [by eexists|].
  destruct (starts_with "+++" plus); [|apply IH; lia]. simpl in Hf.
  destruct (file_hunks_total (S (length rest')) rest') as (hs & after & E & Ha); [lia|]. rewrite E. simpl.
  destruct (IH after) as [ps ->]; [lia|]. by eexists.
Qed.

Lemma parse_patch_total text : ∃ ps, parse_patch text = Some ps.
Proof. unfold parse_patch. cbv zeta. apply file_patches_total. lia. Qed.

(** ** Replacements in order *)

(** The replacements do not overlap and come in the order of the lines. *)
Fixpoint in_order (from : nat) (rs : list Replacement) : Prop :=
  match rs with
  | [] => True
  | r :: rs => from ≤ rp_start r ∧ in_order (rp_start r + rp_len r) rs
  end.

(** The lines from number [from] on, with the replacements. *)
Fixpoint spliced (from : nat) (ls : list string) (rs : list Replacement) : list string :=
  match rs with
  | [] => ls
  | r :: rs =>
      take (rp_start r - from) ls ++ rp_lines r
      ++ spliced (rp_start r + rp_len r) (drop (rp_start r + rp_len r - from) ls) rs
  end.

Lemma remove_many a m x : Nat.iter (length m) (remove_at (length a)) (a ++ m ++ x) = a ++ x.
Proof.
  revert x. induction m as [|y m IH] using rev_ind; intros x; [done|]. rewrite length_app, Nat.add_comm. simpl. rewrite <-app_assoc. simpl.
  rewrite IH. unfold remove_at. rewrite length_app. simpl. destruct (Nat.ltb_spec (length a) (length a + S (length x))); [|lia].
  rewrite take_app_length. f_equal. rewrite (cons_middle y), app_assoc. rewrite drop_app_length'; [done|]. rewrite length_app. simpl. lia.
Qed.

Lemma insert_lines_at a new x : insert_lines (length a) new (a ++ x) = Some (a ++ new ++ x).
Proof.
  revert a. induction new as [|l new IH]; intros a; simpl; [done|]. unfold insert_at. rewrite length_app.
  destruct (Nat.leb_spec (length a) (length a + length x)); [|lia]. rewrite take_app_length, drop_app_length. simpl.
  specialize (IH (a ++ [l])). rewrite length_app, Nat.add_comm in IH. simpl in IH. rewrite <-!app_assoc in IH. exact IH.
Qed.

Lemma apply_replacement_at a m x r :
  rp_start r = length a → rp_len r = length m → apply_replacement r (a ++ m ++ x) = Some (a ++ rp_lines r ++ x).
Proof. unfold apply_replacement. intros -> ->. by rewrite remove_many, insert_lines_at. Qed.

Lemma apply_replacements_spliced rs pre ls :
  in_order (length pre) rs → Forall (λ r, rp_start r + rp_len r ≤ length pre + length ls) rs →
  apply_replacements (pre ++ ls) rs = Some (pre ++ spliced (length pre) ls rs).
Proof.
  revert pre ls. induction rs as [|r rs IH]; intros pre ls; simpl; [done|]. intros [Hfrom Ho] [Hr Hrs]%Forall_cons.
  set (k := rp_start r - length pre). set (n := rp_start r + rp_len r - length pre).
  assert (length (take k ls) = k) as Hk by (rewrite length_take; lia).
  assert (length (take (rp_len r) (drop k ls)) = rp_len r) as Hm by (rewrite length_take, length_drop; lia).
  assert (ls = take k ls ++ take (rp_len r) (drop k ls) ++ drop n ls) as Els.
  { replace n with (k + rp_len r) by lia. by rewrite <-drop_drop, take_drop, take_drop. }
  specialize (IH (pre ++ take k ls ++ take (rp_len r) (drop k ls)) (drop n ls)).
  rewrite !length_app, Hk, Hm in IH. replace (length pre + (k + rp_len r)) with (rp_start r + rp_len r) in IH by lia.
  rewrite <-!app_assoc in IH. rewrite <-Els in IH. rewrite IH; [|done|].
  - simpl. rewrite app_assoc. rewrite (apply_replacement_at (pre ++ take k ls)); [by rewrite <-app_assoc| |done].
    rewrite length_app, Hk. lia.
  - rewrite length_drop. eapply Forall_impl; [exact Hrs|]. simpl. intros r'. lia.
Qed.

Lemma sort_in_order from rs : in_order from rs → sort_stable starts_no_later rs = rs.
Proof.
  revert from. induction rs as [|r rs IH]; intros from; simpl; [done|]. intros [_ Ho]. rewrite (IH _ Ho).
  destruct rs as [|r' rs]; [done|]. simpl in *. unfold starts_no_later. destruct (Nat.leb_spec (rp_start r) (rp_start r')); [done|lia].
Qed.

(** ** Lines that match *)

(** Equal up to white space at the ends. *)
Definition alike (l p : string) : Prop := l = p ∨ trim_end l = trim_end p ∨ trim l = trim p.

Lemma pattern_at_spec same ls pattern i (R : string → string → Prop) :
  (∀ a b, same a b = true ↔ R a b) → i + length pattern ≤ length ls →
  pattern_at same ls pattern i = true ↔ Forall2 R (take (length pattern) (drop i ls)) pattern.
Proof.
  intros HR Hi. unfold pattern_at. assert (length (take (length pattern) (drop i ls)) = length pattern) as Hl
    by (rewrite length_take, length_drop; lia).
  revert Hl. generalize (take (length pattern) (drop i ls)). clear Hi. induction pattern as [|p pattern IH]; intros [|l seg] Hl; try done.
  simpl in *. rewrite andb_true_iff, Forall2_cons, HR, IH by lia. done.
Qed.

Lemma seek_with_Some same ls pattern from i :
  length pattern ≤ length ls → seek_with same ls pattern from = Some i →
  from ≤ i ∧ i + length pattern ≤ length ls ∧ pattern_at same ls pattern i = true
  ∧ ∀ j, from ≤ j < i → pattern_at same ls pattern j = false.
Proof.
  intros Hl. unfold seek_with. intros ([k i'] & (Hk & Hi & Hj)%list_find_Some & ->)%fmap_Some. simpl.
  apply lookup_seq in Hk as [-> Hk]. split_and!; [lia|lia|done|]. intros j Hrange. apply not_true_is_false.
  apply (Hj (j - from) j); [|lia]. apply lookup_seq. lia.
Qed.

Lemma seek_with_None same ls pattern from :
  seek_with same ls pattern from = None → ∀ j, from ≤ j → j + length pattern ≤ length ls → pattern_at same ls pattern j = false.
Proof.
  unfold seek_with. rewrite fmap_None, list_find_None. intros H j Hfrom Hj. apply not_true_is_false.
  rewrite Forall_forall in H. apply H. apply elem_of_seq. lia.
Qed.

Lemma same_line_spec a b : same_line a b = true ↔ a = b.
Proof. apply String.eqb_eq. Qed.

Lemma same_to_the_end_spec a b : same_to_the_end a b = true ↔ trim_end a = trim_end b.
Proof. apply String.eqb_eq. Qed.

Lemma same_trimmed_spec a b : same_trimmed a b = true ↔ trim a = trim b.
Proof. apply String.eqb_eq. Qed.

(** A pattern that is found is there, behind the start. *)
Lemma seek_sequence_Some ls pattern start i :
  seek_sequence ls pattern start false = Some i → start ≤ length ls →
  start ≤ i ∧ i + length pattern ≤ length ls ∧ Forall2 alike (take (length pattern) (drop i ls)) pattern.
Proof.
  unfold seek_sequence. destruct (bool_decide_reflect (pattern = [])) as [->|_].
  { intros [= ->] H. split_and!; [done|simpl; lia|constructor]. }
  destruct (Nat.ltb_spec (length ls) (length pattern)) as [|Hl]; [done|]. simpl. intros H _.
  assert (∃ same R, (∀ a b, same a b = true ↔ R a b) ∧ (∀ a b, R a b → alike a b) ∧ seek_with same ls pattern start = Some i)
    as (same & R & HR & Ha & Hs).
  { destruct (seek_with same_line ls pattern start) eqn:E1; [injection H as ->; eexists _, eq; split_and!; [apply same_line_spec| |done]; by left|].
    destruct (seek_with same_to_the_end ls pattern start) eqn:E2; simpl in H.
    - injection H as ->. eexists _, _. split_and!; [apply same_to_the_end_spec| |done]. by right; left.
    - eexists _, _. split_and!; [apply same_trimmed_spec| |done]. by right; right. }
  apply seek_with_Some in Hs as (H1 & H2 & H3 & _); [|done]. split_and!; [done|done|].
  apply (pattern_at_spec _ _ _ _ _ HR) in H3; [|done]. eapply Forall2_impl; [exact H3|exact Ha].
Qed.

(** A pattern that stands there is found, no later. *)
Lemma seek_sequence_finds ls pattern start before after :
  ls = before ++ pattern ++ after → start ≤ length before → ∃ i, seek_sequence ls pattern start false = Some i ∧ i ≤ length before.
Proof.
  intros -> Hs. unfold seek_sequence. destruct (bool_decide_reflect (pattern = [])) as [->|_]; [by eexists|].
  destruct (Nat.ltb_spec (length (before ++ pattern ++ after)) (length pattern)) as [Hl|Hl]; [rewrite !length_app in Hl; lia|]. simpl.
  assert (length before + length pattern ≤ length (before ++ pattern ++ after)) as Hb by (rewrite !length_app; lia).
  assert (pattern_at same_line (before ++ pattern ++ after) pattern (length before) = true) as Hp.
  { apply (pattern_at_spec _ _ _ _ _ same_line_spec Hb). rewrite drop_app_length, take_app_length. by apply list_eq_Forall2. }
  destruct (seek_with same_line (before ++ pattern ++ after) pattern start) as [i|] eqn:E.
  - exists i. split; [done|]. apply seek_with_Some in E as (_ & _ & _ & Hfirst); [|lia].
    destruct (decide (i ≤ length before)) as [|Hgt]; [done|]. by rewrite Hfirst in Hp by lia.
  - by rewrite (seek_with_None _ _ _ _ E) in Hp by lia.
Qed.

(** ** Updates *)

(** The chunk has old lines, and is not tied to the end of the file. *)
Definition anchored_chunk (chunk : UpdateFileChunk) : Prop := ch_old_lines chunk ≠ [] ∧ ch_is_end_of_file chunk = false.

(** The old and new lines of a chunk, or the same without empty last lines. *)
Inductive reads_as (chunk : UpdateFileChunk) : list string → list string → Prop :=
  | ra_whole : reads_as chunk (ch_old_lines chunk) (ch_new_lines chunk)
  | ra_shorter old new :
      ch_old_lines chunk = old ++ [""] →
      (ch_new_lines chunk = new ++ [""] ∨ ch_new_lines chunk = new ∧ last new ≠ Some "") →
      reads_as chunk old new.

(** [updated ls chunks ls']: the old lines of each chunk are found, one chunk behind the other
    and behind its context, and the new ones take their places; all other lines stay. *)
Inductive updated : list string → list UpdateFileChunk → list string → Prop :=
  | up_end ls : updated ls [] ls
  | up_chunk chunk chunks before seg after old new after' :
      (∀ c, ch_change_context chunk = Some c → ∃ l, l ∈ before ∧ alike l c) →
      reads_as chunk old new → Forall2 alike seg old →
      updated after chunks after' →
      updated (before ++ seg ++ after) (chunk :: chunks) (before ++ new ++ after').

(** [present ls chunks]: the lines of each chunk stand in [ls], letter by letter. *)
Inductive present : list string → list UpdateFileChunk → Prop :=
  | pr_end ls : present ls []
  | pr_chunk chunk chunks before after :
      (∀ c, ch_change_context chunk = Some c → c ∈ before) →
      present after chunks →
      present (before ++ ch_old_lines chunk ++ after) (chunk :: chunks).

Lemma ends_empty_spec ls : ends_empty ls = true ↔ ∃ ls', ls = ls' ++ [""].
Proof. unfold ends_empty. rewrite bool_decide_eq_true. apply last_Some. Qed.

Lemma removelast_snoc {A} (l : list A) x : removelast (l ++ [x]) = l.
Proof. apply removelast_last. Qed.

Lemma locate_chunk_Some ls chunk n r :
  anchored_chunk chunk → locate_chunk ls chunk n = Some r → n ≤ length ls →
  n ≤ rp_start r ∧ rp_start r + rp_len r ≤ length ls
  ∧ ∃ old, reads_as chunk old (rp_lines r) ∧ length old = rp_len r
         ∧ Forall2 alike (take (rp_len r) (drop (rp_start r) ls)) old.
Proof.
  intros [Hold Heof] H Hn. unfold locate_chunk in H. cbv zeta in H. rewrite Heof in H.
  destruct (seek_sequence ls (ch_old_lines chunk) n false) as [i|] eqn:E.
  { injection H as <-. simpl. apply seek_sequence_Some in E as (? & ? & ?); [|done]. split_and!; [done..|].
    exists (ch_old_lines chunk). by split_and!; [constructor| |]. }
  destruct (ends_empty (ch_old_lines chunk)) eqn:Ee; [|done]. apply ends_empty_spec in Ee as [old Ho]. rewrite Ho, removelast_snoc in H.
  apply fmap_Some in H as (i & (? & ? & ?)%seek_sequence_Some & ->); [|done]. simpl. split_and!; [done..|]. exists old. split_and!; [|done|done].
  apply ra_shorter; [done|]. destruct (ends_empty (ch_new_lines chunk)) eqn:En.
  - left. apply ends_empty_spec in En as [new ->]. by rewrite removelast_snoc.
  - right. split; [done|]. unfold ends_empty in En. by apply bool_decide_eq_false in En.
Qed.

(** The context is in the lines that are passed. *)
Lemma behind_context_Ok ls path chunk n m :
  behind_context ls path chunk n = Ok m → n ≤ length ls →
  n ≤ m ≤ length ls ∧ ∀ c, ch_change_context chunk = Some c → ∃ l, l ∈ take (m - n) (drop n ls) ∧ alike l c.
Proof.
  unfold behind_context. destruct (ch_change_context chunk) as [c|]; [|by intros [= ->] ?].
  destruct (seek_sequence ls [c] n false) as [i|] eqn:E; [|done]. intros [= <-] Hn.
  apply seek_sequence_Some in E as (H1 & H2 & H3); [|done]. simpl in *. split; [lia|]. intros ? [= <-].
  destruct (lookup_lt_is_Some_2 ls i) as [l Hl]; [lia|]. exists l. split.
  - apply (list_elem_of_lookup_2 _ (i - n)). rewrite lookup_take_lt, lookup_drop by lia. by replace (n + (i - n)) with i by lia.
  - rewrite (drop_S _ _ _ Hl) in H3. by apply Forall2_cons in H3 as [].
Qed.

Lemma chunk_replacements_updated ls path chunks n rs :
  Forall anchored_chunk chunks → chunk_replacements ls path chunks n = Ok rs → n ≤ length ls →
  in_order n rs ∧ Forall (λ r, rp_start r + rp_len r ≤ length ls) rs ∧ updated (drop n ls) chunks (spliced n (drop n ls) rs).
Proof.
  intros Ha. revert n rs. induction Ha as [|chunk chunks Hc Ha IH]; intros n rs; simpl.
  { intros [= <-] _. split_and!; [done|constructor|constructor]. }
  destruct (behind_context ls path chunk n) as [m|] eqn:Eb; [|done].
  destruct (bool_decide_reflect (ch_old_lines chunk = [])) as [|_]; [by destruct Hc|].
  destruct (locate_chunk ls chunk m) as [r|] eqn:El; [|done]. destruct (chunk_replacements _ _ _ _) as [rest|] eqn:Er; [|done].
  intros [= <-] Hn. apply behind_context_Ok in Eb as (Hm & Hctx); [|done].
  apply locate_chunk_Some in El as (Hs & Hl & old & Hr & Hlen & Hseg); [|done|lia].
  destruct (IH _ _ Er Hl) as (Ho & Hb & Hu). simpl. split_and!; [lia|done|by constructor|].
  rewrite drop_drop. replace (n + (rp_start r + rp_len r - n)) with (rp_start r + rp_len r) by lia.
  assert (drop n ls = take (rp_start r - n) (drop n ls) ++ take (rp_len r) (drop (rp_start r) ls) ++ drop (rp_start r + rp_len r) ls) as Els.
  { rewrite <-(take_drop (rp_start r - n) (drop n ls)) at 1. f_equal. rewrite drop_drop. replace (n + (rp_start r - n)) with (rp_start r) by lia.
    by rewrite <-drop_drop, take_drop. }
  rewrite Els at 1. eapply up_chunk; [|exact Hr|exact Hseg|exact Hu]. intros c Hcc. destruct (Hctx _ Hcc) as (l & Hin & ?).
  exists l. split; [|done]. apply (elem_of_take l) in Hin as (k & Hk & ?). apply (list_elem_of_lookup_2 _ k).
  by rewrite lookup_take_lt by lia.
Qed.

Lemma chunk_replacements_present ls path chunks rest n m :
  Forall anchored_chunk chunks → present rest chunks → drop m ls = rest → n ≤ m ≤ length ls → ∃ rs, chunk_replacements ls path chunks n = Ok rs.
Proof.
  intros Ha Hp. revert n m. induction Hp as [|chunk chunks before after Hctx Hp IH]; intros n m Hdrop Hn; simpl; [by eexists|].
  apply Forall_cons in Ha as [[Hold Heof] Ha]. set (old := ch_old_lines chunk) in *.
  assert (ls = (take m ls ++ before) ++ old ++ after) as Els by (rewrite <-app_assoc, <-Hdrop; by rewrite take_drop).
  assert (length (take m ls) = m) as Hm by (rewrite length_take; lia).
  assert (∃ k, behind_context ls path chunk n = Ok k ∧ k ≤ m + length before) as (k & -> & Hk).
  { unfold behind_context. destruct (ch_change_context chunk) as [c|] eqn:Ec; [|exists n; split; [done|lia]].
    destruct (list_elem_of_split before c (Hctx _ eq_refl)) as (b1 & b2 & ->).
    destruct (seek_sequence_finds ls [c] n (take m ls ++ b1) (b2 ++ old ++ after)) as (i & -> & Hi).
    - rewrite Els at 1. by rewrite <-!app_assoc.
    - rewrite length_app. lia.
    - rewrite length_app in Hi. eexists. split; [done|]. rewrite length_app. simpl. lia. }
  destruct (bool_decide_reflect (old = [])) as [|_]; [done|]. unfold locate_chunk. cbv zeta. rewrite Heof. fold old.
  destruct (seek_sequence_finds ls old k (take m ls ++ before) after Els) as (i & -> & Hi); [rewrite length_app; lia|].
  rewrite length_app in Hi. simpl. destruct (IH Ha (i + length old) (m + length before + length old)) as [rs ->]; [| |by eexists].
  - rewrite Els, app_assoc. rewrite drop_app_length'; [done|]. rewrite !length_app. lia.
  - rewrite Els, !length_app. lia.
Qed.

Lemma compute_replacements_updated ls path chunks rs :
  Forall anchored_chunk chunks → compute_replacements ls path chunks = Ok rs →
  ∃ ls', apply_replacements ls rs = Some ls' ∧ updated ls chunks ls'.
Proof.
  intros Ha. unfold compute_replacements. destruct (chunk_replacements ls path chunks 0) as [rs'|] eqn:E; [|done]. intros [= <-].
  destruct (chunk_replacements_updated _ _ _ _ _ Ha E) as (Ho & Hb & Hu); [lia|]. rewrite (sort_in_order 0) by done.
  exists (spliced 0 ls rs'). split; [|done]. exact (apply_replacements_spliced rs' [] ls Ho Hb).
Qed.

(** ** The tool on a disk that works *)

Section on_disk.
Context (env : string → option string) (line_changes : string → string → list (ChangeTag * string)).
Context (ctx : ToolContext) (intent : option string).
Abbreviation update := (update_hunk_of line_changes ctx intent).

Lemma apply_update_chunks_healthy path chunks d text :
  healthy d → d_files d !! path = Some text → valid_utf8 text = true → Forall anchored_chunk chunks →
  match compute_replacements (text_lines text) path chunks with
  | Err e => apply_update_chunks path chunks d = (Err e, d)
  | Ok _ => ∃ ls, updated (text_lines text) chunks ls
            ∧ apply_update_chunks path chunks d = (Ok (Some (text, text_of_lines ls)), d)
  end.
Proof.
  intros Hd Ht Hu Ha. unfold apply_update_chunks. pose proof (read_text_healthy path d Hd) as Hr. rewrite Ht, Hu in Hr.
  rewrite (io_bind_run _ _ _ _ _ Hr). unfold io_bind, io_of. destruct (compute_replacements _ _ _) as [rs|e] eqn:E; [|done].
  destruct (compute_replacements_updated _ _ _ _ Ha E) as (ls & Happly & Hup). exists ls. split; [done|].
  unfold io_ret. by rewrite Happly.
Qed.

(** A chunk that names no old line goes to the end of the file, or before its blank last line,
    wherever the context stands. *)
Lemma an_insertion_goes_to_the_end ls path chunk :
  ch_old_lines chunk = [] → (∀ c, ch_change_context chunk = Some c → c ∈ ls) →
  ∃ rs, compute_replacements ls path [chunk] = Ok rs
    ∧ apply_replacements ls rs = Some (take (insertion_index ls) ls ++ ch_new_lines chunk ++ drop (insertion_index ls) ls).
Proof.
  intros Ho Hc. unfold compute_replacements. simpl.
  assert (∃ k, behind_context ls path chunk 0 = Ok k) as [k ->].
  { unfold behind_context. destruct (ch_change_context chunk) as [c|]; [|by eexists].
    destruct (list_elem_of_split ls c (Hc _ eq_refl)) as (b1 & b2 & ->).
    destruct (seek_sequence_finds (b1 ++ c :: b2) [c] 0 b1 b2) as (i & -> & _); [done|lia|]. by eexists. }
  rewrite bool_decide_true by done. eexists. split; [done|]. simpl.
  assert (insertion_index ls ≤ length ls) as Hi by (unfold insertion_index; destruct (ends_empty ls); lia).
  pose proof (apply_replacements_spliced [{| rp_start := insertion_index ls; rp_len := 0; rp_lines := ch_new_lines chunk |}] [] ls) as H.
  simpl in H. rewrite !Nat.sub_0_r, Nat.add_0_r in H. apply H; [split; [lia|done]|constructor; [simpl; lia|constructor]].
Qed.

(** C27 (functional). An update whose chunks all name old lines, and none of which is marked as
    standing at the end of the file, changes exactly the lines that they name.  On a disk that
    works, such a patch is applied when the lines of its chunks stand in the file, one chunk
    behind the other and each behind its context.  What is applied puts the new lines of each
    chunk in the place of its old ones (which may differ from the file in the white space at
    both ends of lines, and of which an empty last one need not be there) and leaves all other
    lines and all other files; the text is that of the lines, with a newline at its end and
    without a blank last line.  An update that is refused is reported and changes nothing.
    (A chunk of new lines only goes to the end of the file wherever its context stands, see
    [an_insertion_goes_to_the_end]; one that is marked is looked for at the end alone,
    whatever the chunks before it replaced there.) *)
Theorem an_update_changes_the_lines_it_names path chunks d text :
  healthy d → d_files d !! resolve_path ctx path = Some text → valid_utf8 text = true →
  (∀ chunk, chunk ∈ chunks → ch_old_lines chunk ≠ [] ∧ ch_is_end_of_file chunk = false) →
  ∃ report d', update path None chunks d = (Ok report, d') ∧ healthy d'
  ∧ ((∃ e, hr_result report = failed_line path e ∧ d' = d ∧ ¬ present (text_lines text) chunks)
     ∨ ∃ ls, updated (text_lines text) chunks ls ∧ hr_touched report = [path]
           ∧ d_files d' = <[resolve_path ctx path := text_of_lines ls]> (d_files d)).
Proof.
  intros Hd Ht Hu Ha%Forall_forall. fold anchored_chunk in Ha. pose proof (apply_update_chunks_healthy _ _ _ _ Hd Ht Hu Ha) as H. unfold update_hunk_of.
  destruct (compute_replacements _ _ _) as [rs|e] eqn:E.
  - destruct H as (ls & Hup & Hrun). rewrite (io_bind_run _ _ d (Ok (Some (text, text_of_lines ls))) d) by (unfold io_try; by rewrite Hrun).
    unfold finish_update. destruct (write_file_healthy (resolve_path ctx path) (text_of_lines ls) d Hd) as (d1 & Hw & Hd1 & Hf).
    rewrite (io_bind_run _ _ _ _ _ Hw). eexists _, _. split; [done|]. split; [done|]. right. by exists ls.
  - rewrite (io_bind_run _ _ d (Err e) d) by (unfold io_try; by rewrite H). eexists _, _. split; [done|]. split; [done|].
    left. exists e. split_and!; [done..|]. intros Hp. unfold compute_replacements in E.
    destruct (chunk_replacements_present (text_lines text) (resolve_path ctx path) chunks _ 0 0 Ha Hp) as [rs Hrs]; [done|lia|].
    by rewrite Hrs in E.
Qed.
End on_disk.

(** *** The end of the text *)

Lemma join_cons sep x l : l ≠ [] → join sep (x :: l) = x +:+ sep +:+ join sep l.
Proof. by destruct l. Qed.

Lemma join_snoc sep l x : l ≠ [] → join sep (l ++ [x]) = join sep l +:+ sep +:+ x.
Proof.
  induction l as [|y l IH]; [done|]. intros _. destruct l as [|z l]; [done|].
  rewrite <-app_comm_cons, !join_cons, IH, !str_app_assoc by done. done.
Qed.

Lemma join_split c s : join (String c "") (split_chr c s) = s.
Proof.
  induction s as [|b s IH]; [done|]. cbn [split_chr]. pose proof (split_chr_ne c s).
  destruct (Ascii.eqb_spec b c) as [->|_]; [by rewrite join_cons, IH|].
  destruct (split_chr c s) as [|p ps]; [done|]. destruct ps; [by rewrite <-IH|]. by rewrite <-IH.
Qed.

Lemma text_lines_terminated t : text_lines (t +:+ newline) = split_chr "010" t.
Proof.
  unfold text_lines, newline. rewrite split_chr_join. change (split_chr "010" "") with [""]. cbv zeta.
  assert (ends_empty (split_chr "010" t ++ [""]) = true) as -> by (apply ends_empty_spec; by eexists). apply removelast_snoc.
Qed.

Lemma ends_empty_split t : ends_empty (split_chr "010" t) = true ↔ t = "" ∨ ∃ s, t = s +:+ newline.
Proof.
  rewrite ends_empty_spec. split.
  - intros [ps E]. pose proof (join_split "010" t) as Hj. rewrite E in Hj. destruct ps as [|p ps]; [by left|]. right.
    rewrite join_snoc in Hj by done. exists (join newline (p :: ps)). rewrite <-Hj. by rewrite str_app_nil_r.
  - intros [->|[s ->]]; [by exists []|]. unfold newline. rewrite split_chr_join. by eexists.
Qed.

(** A text whose last line is not blank is that of its lines; *)
Lemma text_of_text_lines t : t ≠ "" → (∀ s, t ≠ s +:+ newline) → text_of_lines (text_lines (t +:+ newline)) = t +:+ newline.
Proof.
  intros Hne Hnl. rewrite text_lines_terminated. unfold text_of_lines. destruct (ends_empty (split_chr "010" t)) eqn:E.
  { apply ends_empty_split in E as [|[s ->]]; [done|]. by destruct (Hnl s). }
  rewrite join_snoc by apply split_chr_ne. unfold newline. by rewrite join_split, str_app_nil_r.
Qed.

(** but of two newlines at the end, an update drops one. *)
Lemma a_blank_last_line_is_lost t : text_of_lines (text_lines (t +:+ newline +:+ newline)) = t +:+ newline.
Proof.
  rewrite <-str_app_assoc, text_lines_terminated. unfold text_of_lines.
  assert (ends_empty (split_chr "010" (t +:+ newline)) = true) as -> by (apply ends_empty_split; right; by eexists). apply join_split.
Qed.

(** *** Lines that replace nothing *)

(** A chunk of new lines only. *)
Definition insertion (context : option string) (new : list string) : UpdateFileChunk :=
  {| ch_change_context := context; ch_old_lines := []; ch_new_lines := new; ch_is_end_of_file := false |}.

(** Lines that replace nothing go to the end of the file, wherever their context is. *)
Lemma insertions_ignore_their_context ls path context new rs :
  ends_empty ls = false → compute_replacements ls path [insertion context new] = Ok rs → apply_replacements ls rs = Some (ls ++ new).
Proof.
  intros Hls. unfold compute_replacements. simpl. destruct (behind_context _ _ _ _); [|done]. intros [= <-]. unfold insertion_index.
  rewrite Hls. pose proof (apply_replacement_at ls [] [] {| rp_start := length ls; rp_len := 0; rp_lines := new |} eq_refl eq_refl) as H.
  simpl. by rewrite !app_nil_r in H.
Qed.

(** A chunk that is tied to the end may lie over the one before it: the lines of the second
    chunk are lost. *)
Lemma chunks_at_the_end_can_overlap :
  let chunk old new eof := {| ch_change_context := None; ch_old_lines := old; ch_new_lines := new; ch_is_end_of_file := eof |} in
  (rs ← (match compute_replacements ["a"; "b"; "b"] "f" [chunk ["b"; "b"] ["x"; "y"] false; chunk ["b"] ["z"] true] with
         | Ok rs => Some rs | Err _ => None end);
   apply_replacements ["a"; "b"; "b"] rs) = Some ["a"; "x"; "y"].
Proof. vm_compute. reflexivity. Qed.

(** ** Which files a patch touches *)

Section files.
Context (env : string → option string) (line_changes : string → string → list (ChangeTag * string)).
Context (ctx : ToolContext).
Abbreviation apply_hunks := (apply_hunks env line_changes ctx).
Abbreviation apply_patch_execute := (apply_patch_execute env line_changes ctx).

(** The files that a hunk names. *)
Definition files_named (hunk : PatchHunk) : gset string :=
  match hunk with
  | AddFile path _ | DeleteFile path | UpdateFile path None _ => {[resolve_path ctx path]}
  | UpdateFile path (Some dest) _ => {[resolve_path ctx path; resolve_path ctx dest]}
  end.

Definition files_named_by (hunks : list PatchHunk) : gset string := ⋃ (map files_named hunks).

Lemma create_parent_confined S path : confined S (create_parent path).
Proof. unfold create_parent. confine. Qed.

Lemma read_text_confined S path : confined S (read_text path).
Proof. unfold read_text. confine. Qed.

Lemma apply_update_chunks_confined S path chunks : confined S (apply_update_chunks path chunks).
Proof. unfold apply_update_chunks. cbv zeta. confine. apply read_text_confined. Qed.

#[local] Hint Resolve create_parent_confined read_text_confined apply_update_chunks_confined : confined.

Lemma apply_hunk_confined S intent hunk : files_named hunk ⊆ S → confined S (apply_hunk env line_changes ctx intent hunk).
Proof.
  destruct hunk as [path contents|path|path [dest|] chunks]; simpl; intros HS.
  - unfold add_hunk. cbv zeta. confine. apply confined_write. set_solver.
  - unfold delete_hunk. cbv zeta. confine. apply confined_remove. set_solver.
  - unfold update_hunk_of, finish_update. cbv zeta. confine; [apply confined_write|apply confined_remove]; set_solver.
  - unfold update_hunk_of, finish_update. cbv zeta. confine. apply confined_write. set_solver.
Qed.

Lemma apply_hunks_confined S intent hunks reports : files_named_by hunks ⊆ S → confined S (apply_hunks intent hunks reports).
Proof.
  unfold files_named_by. revert reports. induction hunks as [|hunk hunks IH]; intros reports HS; simpl in *; [apply confined_ret|].
  apply confined_bind; [apply confined_try, apply_hunk_confined; set_solver|]. intros [report|e]; [apply IH; set_solver|apply confined_ret].
Qed.

End files.

(** [keeps p m]: if the file is there, it is there at every moment of the program, whatever
    fails. *)
Definition keeps {A} (p : string) (m : Io A) : Prop :=
  let there (fs : Files) := is_Some (fs !! p) in guarded there there m (λ _, there) there.

Section keeps.
Context (p : string).

Lemma keeps_bind {A B} (m : Io A) (k : A → Io B) : keeps p m → (∀ x, keeps p (k x)) → keeps p (io_bind m k).
Proof. apply guarded_bind. Qed.

Lemma keeps_of {A} (r : result A string) : keeps p (io_of r).
Proof. apply guarded_of. intros fs H. by destruct r. Qed.

Lemma keeps_ret {A} (x : A) : keeps p (io_ret x).
Proof. by apply guarded_ret. Qed.

Lemma keeps_err {A} e : keeps p (io_err (A:=A) e).
Proof. by apply guarded_err. Qed.

Lemma keeps_try {A} (m : Io A) : keeps p m → keeps p (io_try m).
Proof. intros H. eapply guarded_weaken; [exact (guarded_try _ _ _ _ _ (λ _, False) H)|done|by intros [x|e] fs Hx|done]. Qed.

Lemma keeps_check : keeps p sys_check.
Proof. by apply guarded_check. Qed.

Lemma keeps_read q : keeps p (read_text q).
Proof.
  apply keeps_bind; [apply guarded_read; auto|]. intros text. destruct (valid_utf8 text); [apply keeps_ret|apply keeps_err].
Qed.

Lemma keeps_write q b : keeps p (write_file q b).
Proof.
  apply guarded_write; intros fs; [|intros b']; intros H; (split; [|]); try done;
    (destruct (decide (q = p)) as [->|]; [rewrite lookup_insert_eq; eauto|by rewrite lookup_insert_ne]).
Qed.

Lemma keeps_remove q : q ≠ p → keeps p (remove_file q).
Proof. intros Hq. apply guarded_remove. intros fs H. by rewrite lookup_delete_ne. Qed.

Lemma keeps_parent q : keeps p (create_parent q).
Proof. unfold create_parent. destruct (parent_components _); [apply keeps_check|apply keeps_ret]. Qed.

Lemma keeps_exists q : keeps p (exists_file q).
Proof. by apply guarded_exists. Qed.
End keeps.

Create HintDb keeps.
#[export] Hint Resolve keeps_of keeps_ret keeps_err keeps_try keeps_check keeps_read keeps_write keeps_remove keeps_parent
  keeps_exists : keeps.

(** Walks through a program, with a case for each branch. *)
Ltac keep :=
  repeat (intros; match goal with
    | |- keeps _ (io_bind _ _) => apply keeps_bind
    | |- keeps _ (io_try _) => apply keeps_try
    | |- keeps _ (match ?x with _ => _ end) => destruct x eqn:?
    | |- keeps _ _ => solve [eauto with keeps]
    end).

Section protected.
Context (env : string → option string) (line_changes : string → string → list (ChangeTag * string)).
Context (ctx : ToolContext).
Abbreviation apply_hunks := (apply_hunks env line_changes ctx).
Abbreviation protected p := (is_catastrophic_target p (risk_context env ctx)).

(** The hunk moves the file. *)
Definition moves (path : string) (hunk : PatchHunk) : Prop :=
  match hunk with UpdateFile source (Some _) _ => resolve_path ctx source = path | _ => False end.

Lemma apply_hunk_keeps p intent hunk :
  protected p = true → ¬ moves p hunk → keeps p (apply_hunk env line_changes ctx intent hunk).
Proof.
  intros Hp Hm. destruct hunk as [path contents|path|path [dest|] chunks]; simpl in *.
  - unfold add_hunk. cbv zeta. keep.
  - unfold delete_hunk. cbv zeta. keep. apply keeps_remove. intros E. congruence.
  - unfold update_hunk_of, finish_update, apply_update_chunks. cbv zeta. keep.
  - unfold update_hunk_of, finish_update, apply_update_chunks. cbv zeta. keep.
Qed.

Lemma apply_hunks_keep p intent hunks reports :
  protected p = true → Forall (λ h, ¬ moves p h) hunks → keeps p (apply_hunks intent hunks reports).
Proof.
  intros Hp Hm. revert reports. induction Hm as [|hunk hunks Hm _ IH]; intros reports; simpl; [apply keeps_ret|].
  apply keeps_bind; [by apply keeps_try, apply_hunk_keeps|]. intros [report|e]; [apply IH|apply keeps_ret].
Qed.

(** C26 (safety). A patch keeps to its files, whatever fails and wherever it stops: a file that no
    hunk names is as it was, so the receipt ledger among them gets no entry; and a protected
    file that no hunk moves is never gone, at no moment, whatever the hunks say. *)
Theorem a_patch_keeps_to_its_files intent hunks d :
  (∀ p, p ∉ files_named_by ctx hunks → d_files (apply_hunks intent hunks [] d).2 !! p = d_files d !! p)
  ∧ (∀ p, protected p = true → Forall (λ h, ¬ moves p h) hunks → is_Some (d_files d !! p) →
       is_Some (d_files (apply_hunks intent hunks [] d).2 !! p)
       ∧ seen_between (λ fs, is_Some (fs !! p)) (d_trace d) (d_trace (apply_hunks intent hunks [] d).2)).
Proof.
  split.
  - intros p Hp. exact (proj1 (apply_hunks_confined env line_changes ctx (files_named_by ctx hunks) intent hunks [] (reflexivity _) d) p Hp).
  - intros p Hp Hm Hd. destruct (apply_hunks_keep p intent hunks [] Hp Hm d Hd) as [Hseen Hthere]. split; [|done].
    by destruct (apply_hunks intent hunks [] d) as [[x|e] d'].
Qed.

(** A move removes what a deletion may not: the source of a move is not compared with the
    protected paths. *)
Lemma a_move_removes_its_source intent path dest chunks d text ls :
  healthy d → d_files d !! resolve_path ctx path = Some text →
  apply_update_chunks (resolve_path ctx path) chunks d = (Ok (Some (text, text_of_lines ls)), d) →
  d_files (apply_hunk env line_changes ctx intent (UpdateFile path (Some dest) chunks) d).2
  = delete (resolve_path ctx path) (<[resolve_path ctx dest := text_of_lines ls]> (d_files d)).
Proof.
  intros Hd Ht Happly. unfold apply_hunk, update_hunk_of.
  rewrite (io_bind_run _ _ d (Ok (Some (text, text_of_lines ls))) d) by (unfold io_try; by rewrite Happly). unfold finish_update.
  rewrite (io_bind_run (create_parent _) _ d tt d) by (unfold create_parent; destruct (parent_components _); [by apply sys_check_healthy|done]).
  destruct (write_file_healthy (resolve_path ctx dest) (text_of_lines ls) d Hd) as (d1 & Hw & Hd1 & <-).
  rewrite (io_bind_run _ _ _ _ _ Hw). destruct (remove_file_healthy (resolve_path ctx path) d1 Hd1) as [_ <-].
  unfold io_bind. by destruct (remove_file (resolve_path ctx path) d1) as [[x|e] d2] eqn:E.
Qed.
End protected.

(** ** Printed patches are read back *)

(** *** White space at the end of a line *)

Lemma rev_app_spec a b : String.rev_app a b = String.rev a +:+ b.
Proof.
  unfold String.rev. revert b. induction a as [|c a IH]; intros b; simpl; [done|]. rewrite IH, (IH (String c "")), str_app_assoc. done.
Qed.

Lemma rev_append s t : String.rev (s +:+ t) = String.rev t +:+ String.rev s.
Proof.
  induction s as [|c s IH]; [by rewrite str_app_nil_l, str_app_nil_r|]. rewrite str_app_cons. unfold String.rev at 1 3. simpl.
  by rewrite !rev_app_spec, IH, str_app_assoc.
Qed.

Lemma rev_involutive s : String.rev (String.rev s) = s.
Proof.
  induction s as [|c s IH]; [done|]. unfold String.rev at 2. simpl. rewrite rev_app_spec, rev_append, IH. done.
Qed.

Lemma trim_start_rev_length s : String.length (trim_start_rev s) ≤ String.length s.
Proof. destruct (trim_start_rev_suffix s) as [p Hp]. rewrite Hp at 2. rewrite str_length_app. lia. Qed.

Definition is_ascii (c : chr) : bool := (byte_of c <? 128)%N.

Lemma ascii_ws b a : is_ascii b = true → ws2 b a = false.
Proof. unfold is_ascii, ws2, is_byte. intros H%N.ltb_lt. destruct (N.eqb_spec (byte_of b) 194); [lia|done]. Qed.

Lemma ascii_ws3 c b a : is_ascii c = true → ws3 c b a = false.
Proof.
  unfold is_ascii, ws3, is_byte. intros H%N.ltb_lt. destruct (N.eqb_spec (byte_of c) 225); [lia|].
  destruct (N.eqb_spec (byte_of c) 226); [lia|]. destruct (N.eqb_spec (byte_of c) 227); [lia|done].
Qed.

(** A text that ends without white space still does behind plain characters. *)
Lemma trim_start_rev_fixed t u : t ≠ "" → trim_start_rev t = t → all_chr is_ascii u = true → trim_start_rev (t +:+ u) = t +:+ u.
Proof.
  intros Hne Ht Hu. destruct t as [|a r1]; [done|]. cbn [trim_start_rev] in Ht. rewrite !str_app_cons. cbn [trim_start_rev].
  assert (∀ r x, trim_start_rev r = x → String.length r < String.length x → False) as Hshort.
  { intros r x <-. pose proof (trim_start_rev_length r). lia. }
  destruct (ws1 a); [by destruct (Hshort _ _ Ht); simpl; lia|]. destruct r1 as [|b r2].
  { rewrite str_app_nil_l. destruct u as [|b u]; [done|]. cbn [all_chr] in Hu. apply andb_true_iff in Hu as [Hb Hu].
    rewrite ascii_ws by done. destruct u as [|c u]; [done|]. cbn [all_chr] in Hu. apply andb_true_iff in Hu as [Hc _]. by rewrite ascii_ws3. }
  rewrite str_app_cons. destruct (ws2 b a); [by destruct (Hshort _ _ Ht); simpl; lia|]. destruct r2 as [|c r3].
  { rewrite str_app_nil_l. destruct u as [|c u]; [done|]. cbn [all_chr] in Hu. apply andb_true_iff in Hu as [Hc _]. by rewrite ascii_ws3. }
  rewrite str_app_cons. destruct (ws3 c b a); [by destruct (Hshort _ _ Ht); simpl; lia|done].
Qed.

Lemma all_chr_rev f s : all_chr f (String.rev s) = all_chr f s.
Proof.
  induction s as [|c s IH]; [done|]. unfold String.rev. simpl. rewrite rev_app_spec, all_chr_append, IH. simpl.
  rewrite andb_true_r. apply andb_comm.
Qed.

Lemma trim_end_fixed p s : all_chr is_ascii p = true → s ≠ "" → trim_end s = s → trim_end (p +:+ s) = p +:+ s.
Proof.
  unfold trim_end. intros Hp Hne Hs. rewrite rev_append, trim_start_rev_fixed, <-rev_append; [apply rev_involutive| | |by rewrite all_chr_rev].
  - intros E. apply Hne. rewrite <-(rev_involutive s), E. done.
  - rewrite <-Hs at 2. by rewrite rev_involutive.
Qed.

(** *** The printer *)

Definition print_chunk (chunk : UpdateFileChunk) : list string :=
  (match ch_change_context chunk with Some c => "@@ " +:+ c | None => "@@" end)
  :: map (String.append "-") (ch_old_lines chunk) ++ map (String.append "+") (ch_new_lines chunk)
  ++ (if ch_is_end_of_file chunk then ["*** End of File"] else []).

Definition print_hunk (hunk : PatchHunk) : list string :=
  match hunk with
  | AddFile path contents => ("*** Add File: " +:+ path) :: map (String.append "+") (removelast (split_chr "010" contents))
  | DeleteFile path => ["*** Delete File: " +:+ path]
  | UpdateFile path move_to chunks =>
      ("*** Update File: " +:+ path) :: match move_to with Some dest => ["*** Move to: " +:+ dest] | None => [] end
      ++ concat (map print_chunk chunks)
  end.

Definition unlines (ls : list string) : string := String.concat "" (map (λ l, l +:+ newline) ls).

Definition print_patch (hunks : list PatchHunk) : string :=
  unlines ("*** Begin Patch" :: concat (map print_hunk hunks) ++ ["*** End Patch"]).

(** A line that [lines] reads back. *)
Definition line_ok (l : string) : bool := negb (contains_chr "010" l) && String.eqb (strip_cr l) l.

(** A name without white space around it. *)
Definition name_ok (s : string) : bool := line_ok s && negb (is_empty s) && String.eqb (trim s) s && String.eqb (trim_end s) s.

Definition chunk_ok (chunk : UpdateFileChunk) : bool :=
  forallb line_ok (ch_old_lines chunk ++ ch_new_lines chunk)
  && match ch_change_context chunk with
     | Some c => line_ok c && negb (is_empty c) && String.eqb (trim_end c) c
     | None => negb (bool_decide (ch_old_lines chunk ++ ch_new_lines chunk = []))
     end.

(** The hunks that can be written down. *)
Definition hunk_ok (hunk : PatchHunk) : bool :=
  match hunk with
  | AddFile path contents =>
      name_ok path && forallb line_ok (split_chr "010" contents) && ends_empty (split_chr "010" contents)
  | DeleteFile path => name_ok path
  | UpdateFile path move_to chunks =>
      name_ok path && match move_to with Some dest => name_ok dest | None => true end
      && negb (bool_decide (chunks = [])) && forallb chunk_ok chunks
  end.

(** *** Reading what was printed *)

Lemma strip_prefix_app p s : strip_prefix p (p +:+ s) = Some s.
Proof. by apply strip_prefix_spec. Qed.

Lemma unlines_cons l ls : unlines (l :: ls) = l +:+ newline +:+ unlines ls.
Proof. unfold unlines. simpl. destruct (map _ ls); simpl; [by rewrite str_app_nil_r|by rewrite str_app_assoc, str_app_nil_l]. Qed.

Lemma lines_unlines ls : forallb line_ok ls = true → lines (unlines ls) = ls.
Proof.
  induction ls as [|l ls IH]; [done|]. simpl. intros [[Hn%negb_true_iff Hc%String.eqb_eq]%andb_true_iff Hls]%andb_true_iff.
  rewrite unlines_cons. specialize (IH Hls). unfold lines in *. unfold newline. rewrite str_app_cons, str_app_nil_l, split_chr_join, split_chr_free by done.
  cbn [app lines_of]. pose proof (split_chr_ne "010" (unlines ls)). destruct (split_chr "010" (unlines ls)) as [|p ps]; [done|]. by rewrite Hc, IH.
Qed.

Lemma unlines_split s ps : split_chr "010" s = ps ++ [""] → s = unlines ps.
Proof.
  intros E. rewrite <-(join_split "010" s), E. clear E. induction ps as [|p ps IH]; [done|].
  rewrite <-app_comm_cons, join_cons, unlines_cons, <-IH by (by destruct ps). done.
Qed.

(** What a name is. *)
Lemma name_ok_spec s : name_ok s = true → line_ok s = true ∧ s ≠ "" ∧ trim s = s ∧ trim_end s = s.
Proof.
  unfold name_ok. rewrite !andb_true_iff, negb_true_iff, !String.eqb_eq. intros (((? & Hne) & ?) & ?). split_and!; try done. by intros ->.
Qed.

(** The line of a directive with a name. *)
Lemma named_line p s : all_chr is_ascii p = true → name_ok s = true → trim_end (p +:+ s) = p +:+ s.
Proof. intros Hp (_ & Hne & _ & Ht)%name_ok_spec. by apply trim_end_fixed. Qed.

(** The lines go on with a directive. *)
Definition stops (ls : list string) : Prop :=
  match ls with
  | [] => False
  | l :: _ => starts_with "*** " l = true ∧ trim_end l = l ∧ String.eqb l "*** End of File" = false
  end.

(** The lines of a chunk are over. *)
Definition ends_body (ls : list string) : Prop :=
  match ls with
  | [] => False
  | l :: _ => starts_with "*** " l || starts_with "@@" l = true ∧ String.eqb l "*** End of File" = false
  end.

Lemma stops_ends_body ls : stops ls → ends_body ls.
Proof. destruct ls as [|l ls]; [done|]. intros (Hs & _ & He). split; [by rewrite Hs|done]. Qed.

Lemma added_contents_print ls rest : stops rest → added_contents (map (String.append "+") ls ++ rest) = (unlines ls, rest).
Proof.
  intros Hstop. induction ls as [|l ls IH]; [|by rewrite unlines_cons; cbn; rewrite IH].
  destruct rest as [|l rest]; [done|]. destruct Hstop as (Hs & _). cbn. by rewrite Hs.
Qed.

Definition body (old new : list string) (eof had : bool) : ChunkBody :=
  {| cb_old_lines := old; cb_new_lines := new; cb_is_end_of_file := eof; cb_had_diff_lines := had |}.

Lemma body_end had (eof : bool) rest :
  ends_body rest → chunk_body had ((if eof then ["*** End of File"] else []) ++ rest) = (body [] [] eof had, rest).
Proof.
  intros Hend. destruct eof; [done|]. destruct rest as [|l rest]; [done|]. destruct Hend as (Hs & He). cbn. by rewrite He, Hs.
Qed.

Lemma body_new had new eof ls rest :
  (∀ had, chunk_body had ls = (body [] [] eof had, rest)) →
  chunk_body had (map (String.append "+") new ++ ls) = (body [] new eof (had || negb (bool_decide (new = []))), rest).
Proof.
  intros H. revert had. induction new as [|l new IH]; intros had; [by rewrite orb_false_r; apply H|].
  rewrite orb_true_r. cbn -[body bool_decide]. rewrite IH. done.
Qed.

Lemma body_print had old new (eof : bool) rest :
  ends_body rest →
  chunk_body had (map (String.append "-") old ++ map (String.append "+") new ++ (if eof then ["*** End of File"] else []) ++ rest)
  = (body old new eof (had || negb (bool_decide (old ++ new = []))), rest).
Proof.
  intros Hend. revert had. induction old as [|l old IH]; intros had.
  - simpl. apply body_new. intros. by apply body_end.
  - rewrite orb_true_r. cbn -[body bool_decide]. rewrite IH. done.
Qed.

(** The header line of a printed chunk. *)
Definition chunk_line (context : option string) : string := match context with Some c => "@@ " +:+ c | None => "@@" end.

Lemma chunk_line_read context first ls rest :
  match context with Some c => c ≠ "" ∧ trim_end c = c | None => True end →
  trim_end (chunk_line context) = chunk_line context
  ∧ starts_with "*** " (chunk_line context) = false ∧ blank_between_chunks (chunk_line context) = false
  ∧ chunk_header first (chunk_line context) ls rest = Some (context, rest).
Proof.
  destruct context as [c|]; [|done]. intros [Hne Hc]. assert (trim_end ("@@ " +:+ c) = "@@ " +:+ c) as Ht by by apply trim_end_fixed.
  simpl chunk_line. split_and!; [done|done| |].
  - unfold blank_between_chunks, is_blank, trim. change (trim_start ("@@ " +:+ c)) with ("@@ " +:+ c). by rewrite Ht.
  - unfold chunk_header. rewrite strip_prefix_app. done.
Qed.

Lemma print_chunks_ends chunks rest : stops rest → ends_body (concat (map print_chunk chunks) ++ rest).
Proof. intros H. destruct chunks as [|[[c|] old new eof] chunks]; [by apply stops_ends_body|done|done]. Qed.

Lemma parse_chunks_print fuel first chunks rest :
  forallb chunk_ok chunks = true → stops rest → length chunks < fuel →
  parse_chunks fuel first (concat (map print_chunk chunks) ++ rest) = Some (chunks, rest).
Proof.
  revert fuel first. induction chunks as [|[context old new eof] chunks IH]; intros [|fuel] first Hok Hstop Hf; try (simpl in Hf; lia).
  - destruct rest as [|l rest]; [done|]. destruct Hstop as (Hs & Ht & He). cbn [concat map app parse_chunks]. cbv zeta. by rewrite Ht, Hs, He.
  - cbn [forallb] in Hok. apply andb_true_iff in Hok as [[Hlines Hctx]%andb_true_iff Hok]. cbn [ch_change_context ch_old_lines ch_new_lines] in *.
    cbn [map concat]. rewrite <-app_assoc. unfold print_chunk at 1. cbn [ch_change_context ch_old_lines ch_new_lines ch_is_end_of_file].
    rewrite <-!app_comm_cons, <-!app_assoc. fold (chunk_line context). cbn [parse_chunks]. cbv zeta.
    destruct (chunk_line_read context first (chunk_line context :: map (String.append "-") old ++ map (String.append "+") new
        ++ (if eof then ["*** End of File"] else []) ++ concat (map print_chunk chunks) ++ rest)
      (map (String.append "-") old ++ map (String.append "+") new
        ++ (if eof then ["*** End of File"] else []) ++ concat (map print_chunk chunks) ++ rest)) as (-> & -> & -> & ->).
    { destruct context as [c|]; [|done]. apply andb_true_iff in Hctx as [[_ Hne%negb_true_iff]%andb_true_iff Hc%String.eqb_eq].
      split; [by intros ->|done]. }
    cbn [andb]. rewrite body_print by by apply print_chunks_ends. rewrite IH by (done || simpl in Hf; lia). simpl. unfold chunk_of. simpl.
    destruct context as [c|]; [by rewrite orb_true_r|]. apply negb_true_iff in Hctx. by rewrite Hctx.
Qed.

Lemma hunk_line hunk rest : hunk_ok hunk = true → stops (print_hunk hunk ++ rest).
Proof.
  destruct hunk as [path contents|path|path move_to chunks]; cbn [hunk_ok print_hunk]; rewrite ?andb_true_iff; intros Hok;
    (split; [done|]; split; [apply named_line; [done|tauto]|done]).
Qed.

Lemma hunks_stop hunks : forallb hunk_ok hunks = true → stops (concat (map print_hunk hunks) ++ ["*** End Patch"]).
Proof.
  destruct hunks as [|hunk hunks]; [by vm_compute|]. intros [Hok _]%andb_true_iff. cbn [map concat]. rewrite <-app_assoc. by apply hunk_line.
Qed.

Lemma moved_to_print move_to chunks rest :
  match move_to with Some dest => name_ok dest = true | None => True end → chunks ≠ [] → forallb chunk_ok chunks = true →
  moved_to (match move_to with Some dest => ["*** Move to: " +:+ dest] | None => [] end ++ concat (map print_chunk chunks) ++ rest)
  = (move_to, concat (map print_chunk chunks) ++ rest).
Proof.
  destruct move_to as [dest|].
  - intros Hd _ _. cbn [app moved_to]. rewrite named_line, strip_prefix_app by done. by apply name_ok_spec in Hd as (_ & _ & -> & _).
  - intros _ Hne Hok. destruct chunks as [|[context old new eof] chunks]; [done|]. apply andb_true_iff in Hok as [[_ Hctx]%andb_true_iff _].
    cbn [ch_change_context] in Hctx. cbn [app map concat]. unfold print_chunk at 1 2. cbn [ch_change_context app moved_to].
    fold (chunk_line context). destruct (chunk_line_read context true [] []) as [-> _]; [|by destruct context].
    destruct context as [c|]; [|done]. apply andb_true_iff in Hctx as [[_ Hne'%negb_true_iff]%andb_true_iff Hc%String.eqb_eq].
    split; [by intros ->|done].
Qed.

Lemma update_hunk_print path move_to chunks rest :
  hunk_ok (UpdateFile path move_to chunks) = true → stops rest →
  update_hunk path (match move_to with Some dest => ["*** Move to: " +:+ dest] | None => [] end
                    ++ concat (map print_chunk chunks) ++ rest)
  = Some (Ok (UpdateFile path move_to chunks, rest)).
Proof.
  cbn [hunk_ok]. intros [[[_ Hm]%andb_true_iff Hne%negb_true_iff%bool_decide_eq_false]%andb_true_iff Hok]%andb_true_iff Hstop.
  unfold update_hunk. rewrite moved_to_print by (done || by destruct move_to). cbv beta iota.
  rewrite parse_chunks_print; [|done|done|].
  - simpl. by rewrite bool_decide_eq_false_2 by done.
  - unfold chunks_fuel. rewrite length_app. enough (length chunks ≤ length (concat (map print_chunk chunks))) by lia.
    clear. induction chunks as [|chunk chunks IH]; simpl; [lia|]. rewrite length_app. lia.
Qed.

Lemma parse_hunks_print fuel hunks :
  forallb hunk_ok hunks = true → length hunks < fuel →
  parse_hunks fuel (concat (map print_hunk hunks) ++ ["*** End Patch"]) = Some (Ok hunks).
Proof.
  revert fuel. induction hunks as [|hunk hunks IH]; intros [|fuel] Hok Hf; try (simpl in Hf; lia); [by vm_compute|].
  cbn [forallb] in Hok. apply andb_true_iff in Hok as [Hh Hok]. pose proof (hunks_stop hunks Hok) as Hstop.
  cbn [map concat]. rewrite <-app_assoc. specialize (IH fuel Hok ltac:(simpl in Hf; lia)).
  destruct hunk as [path contents|path|path move_to chunks]; cbn [print_hunk]; rewrite <-!app_comm_cons; cbn [parse_hunks]; cbv zeta.
  - cbn [hunk_ok] in Hh. apply andb_true_iff in Hh as [[Hp Hl]%andb_true_iff He]. apply ends_empty_spec in He as [ps Hps].
    unfold trim at 1. rewrite !named_line by done. change (trim_start ("*** Add File: " +:+ path)) with ("*** Add File: " +:+ path).
    rewrite named_line, strip_prefix_app by done. change (String.eqb ("*** Add File: " +:+ path) "*** End Patch") with false.
    cbv iota. rewrite added_contents_print by done. rewrite IH. rewrite Hps, removelast_snoc. simpl.
    apply name_ok_spec in Hp as (_ & _ & -> & _). by rewrite <-(unlines_split _ _ Hps).
  - cbn [hunk_ok] in Hh. unfold trim at 1. rewrite !named_line by done.
    change (trim_start ("*** Delete File: " +:+ path)) with ("*** Delete File: " +:+ path). rewrite named_line, strip_prefix_app by done.
    change (String.eqb ("*** Delete File: " +:+ path) "*** End Patch") with false.
    change (strip_prefix "*** Add File: " ("*** Delete File: " +:+ path)) with (@None string). cbv iota. rewrite app_nil_l, IH. simpl.
    by apply name_ok_spec in Hh as (_ & _ & -> & _).
  - assert (name_ok path = true) as Hp by (cbn [hunk_ok] in Hh; rewrite !andb_true_iff in Hh; tauto). unfold trim at 1. rewrite !named_line by done.
    change (trim_start ("*** Update File: " +:+ path)) with ("*** Update File: " +:+ path). rewrite named_line, strip_prefix_app by done.
    change (String.eqb ("*** Update File: " +:+ path) "*** End Patch") with false.
    change (strip_prefix "*** Add File: " ("*** Update File: " +:+ path)) with (@None string).
    change (strip_prefix "*** Delete File: " ("*** Update File: " +:+ path)) with (@None string). cbv iota.
    apply name_ok_spec in Hp as (_ & _ & -> & _). rewrite <-app_assoc, update_hunk_print by done. simpl. by rewrite IH.
Qed.

Lemma line_ok_app p s : line_ok p = true → line_ok s = true → line_ok (p +:+ s) = true.
Proof.
  unfold line_ok, contains_chr. intros [Hp%negb_true_iff Hcp]%andb_true_iff [Hs Hc%String.eqb_eq]%andb_true_iff.
  rewrite any_chr_app, Hp. apply andb_true_iff. split; [done|]. destruct s as [|a s]; [by rewrite str_app_nil_r|].
  apply String.eqb_eq. clear Hp Hcp Hs. induction p as [|b p IH]; [done|]. rewrite str_app_cons.
  cbn [strip_cr]. destruct (p +:+ String a s) eqn:E; [by destruct p|]. by rewrite IH.
Qed.

Lemma lines_ok_map p ls : line_ok p = true → forallb line_ok ls = true → forallb line_ok (map (String.append p) ls) = true.
Proof.
  intros Hp. induction ls as [|l ls IH]; [done|]. simpl. intros [Hl Hls]%andb_true_iff. by rewrite line_ok_app, IH.
Qed.

Lemma print_chunk_lines chunk : chunk_ok chunk = true → forallb line_ok (print_chunk chunk) = true.
Proof.
  unfold chunk_ok. rewrite forallb_app. intros [[Ho Hn]%andb_true_iff Hc]%andb_true_iff. unfold print_chunk. fold (chunk_line (ch_change_context chunk)).
  cbn [forallb]. rewrite !forallb_app, !lines_ok_map by done. rewrite andb_true_iff. split; [|by destruct (ch_is_end_of_file chunk)].
  destruct (ch_change_context chunk) as [c|]; [|done]. rewrite !andb_true_iff in Hc. apply line_ok_app; [done|tauto].
Qed.

Lemma print_hunk_lines hunk : hunk_ok hunk = true → forallb line_ok (print_hunk hunk) = true.
Proof.
  assert (∀ p s, line_ok p = true → name_ok s = true → line_ok (p +:+ s) = true) as Hname.
  { intros p s Hp (Hs & _)%name_ok_spec. by apply line_ok_app. }
  destruct hunk as [path contents|path|path move_to chunks]; cbn [hunk_ok print_hunk forallb]; rewrite ?andb_true_iff.
  - intros [[Hp Hl] He]. split; [by apply Hname|]. apply ends_empty_spec in He as [ps Hps]. rewrite Hps in Hl |- *.
    rewrite removelast_snoc. rewrite forallb_app in Hl. apply andb_true_iff in Hl as [Hl _]. by apply lines_ok_map.
  - intros Hp. split; [by apply Hname|done].
  - intros [[[Hp Hm] _] Hok]. split; [by apply Hname|]. rewrite forallb_app. apply andb_true_iff. split.
    + destruct move_to as [dest|]; [|done]. cbn [forallb]. by rewrite Hname.
    + clear Hm. induction chunks as [|chunk chunks IH]; [done|]. cbn [map concat forallb] in *. apply andb_true_iff in Hok as [Hc Hok].
      rewrite forallb_app, print_chunk_lines by done. by apply IH.
Qed.

(** C28 (roundtrip). A patch that is written down is read back: hunks whose paths and lines fit on
    lines of their own, printed between the markers with the old lines of each chunk marked by
    a minus and the new ones by a plus, are parsed as the same hunks. *)
Theorem printed_patches_are_read_back hunks :
  hunks ≠ [] → forallb hunk_ok hunks = true → parse_apply_patch (print_patch hunks) = Some (Ok hunks).
Proof.
  intros Hne Hok. unfold parse_apply_patch, print_patch. rewrite lines_unlines.
  - cbn [after_begin]. change (String.eqb (trim "*** Begin Patch") "*** Begin Patch") with true. cbv iota.
    rewrite parse_hunks_print; [simpl; by rewrite bool_decide_eq_false_2|done|].
    rewrite length_app. simpl. enough (length hunks ≤ length (concat (map print_hunk hunks))) by lia.
    clear. induction hunks as [|hunk hunks IH]; simpl; [lia|]. rewrite length_app. destruct hunk; simpl; lia.
  - cbn [forallb]. rewrite forallb_app. apply andb_true_iff. split; [by vm_compute|]. apply andb_true_iff. split; [|by vm_compute].
    clear Hne. induction hunks as [|hunk hunks IH]; [done|]. cbn [map concat forallb] in *. apply andb_true_iff in Hok as [Hh Hok].
    rewrite forallb_app, print_hunk_lines by done. by apply IH.
Qed.

(** ** Unified diffs *)

(** [unified n ls hunks ls']: the hunks, with the numbers of their first lines, lead from [ls],
    whose first line has the number [n], to [ls'].  A hunk without old lines has the number of
    the line in front of which its new lines go. *)
Inductive unified : N → list string → list Hunk → list string → Prop :=
  | un_end n ls : unified n ls [] ls
  | un_hunk n before hunk after hunks after' :
      hk_old_start hunk = (n + N.of_nat (length before))%N →
      unified (n + N.of_nat (length before) + N.of_nat (length (hk_old_lines hunk)))%N after hunks after' →
      unified n (before ++ hk_old_lines hunk ++ after) (hunk :: hunks) (before ++ hk_new_lines hunk ++ after').

Lemma splice_hunk_at pre after hunk :
  hk_old_start hunk = N.of_nat (S (length pre)) →
  splice_hunk hunk (pre ++ hk_old_lines hunk ++ after) = Some (pre ++ hk_new_lines hunk ++ after).
Proof.
  intros E. unfold splice_hunk. cbv zeta. rewrite E. replace (N.of_nat (S (length pre)) - 1)%N with (N.of_nat (length pre)) by lia.
  rewrite N.min_l by (rewrite !length_app; lia). destruct (N.leb_spec (N.of_nat (length pre))
    (N.of_nat (length pre) + N.of_nat (length (hk_old_lines hunk)))); [|lia].
  rewrite Nat2N.id, take_app_length. do 3 f_equal. rewrite app_assoc, drop_app_length'; [done|]. rewrite length_app. lia.
Qed.

Lemma apply_unified_at n ls hunks ls' pre :
  unified n ls hunks ls' → n = N.of_nat (S (length pre)) → apply_unified hunks (pre ++ ls) = Some (pre ++ ls').
Proof.
  intros H. revert pre. induction H as [|n before hunk after hunks after' Hstart H IH]; intros pre Hn; [done|]. cbn [apply_unified].
  specialize (IH (pre ++ before ++ hk_old_lines hunk)). rewrite <-!app_assoc in IH. rewrite IH by (rewrite !length_app; lia).
  simpl. rewrite (app_assoc pre before (hk_new_lines hunk ++ after')), (app_assoc pre before (hk_old_lines hunk ++ after')).
  apply splice_hunk_at. rewrite length_app. lia.
Qed.

Section unified_on_disk.
Context (line_changes : string → string → list (ChangeTag * string)).

(** C29 (functional). The hunks of a unified diff replace the lines that they number.  On a disk
    that works, the hunks of a diff that changes a file, each with the number of its first line
    in the file as it was, put their new lines in the place of the old ones, wherever they lie
    and however many lines the hunks before them add or take; the other lines are kept and all
    other files.  A hunk without old lines puts its lines in front of the line that it numbers
    (a diff numbers the line behind which they belong, see [an_insertion_is_a_line_early]).
    The file gets the lines joined by newlines, one at the end too: carriage returns at the
    ends of lines, and the lack of a last newline, are not kept. *)
Theorem hunks_replace_the_lines_they_number patch path d text ls :
  healthy d → d_files d !! path = Some text → valid_utf8 text = true → fp_is_delete patch = false → fp_is_new patch = false →
  unified 1 (lines text) (fp_hunks patch) ls →
  ∃ report d', apply_patch_with_diff line_changes patch path d = (Ok (Ok report), d') ∧ healthy d'
             ∧ d_files d' = <[path := joined_lines ls]> (d_files d).
Proof.
  intros Hd Ht Hv Hdel Hnew Hu. unfold apply_patch_with_diff. rewrite Hdel, Hnew. unfold modify_patched.
  rewrite (io_bind_run _ _ d true d) by (unfold exists_file; by rewrite Ht). cbn [negb].
  pose proof (read_text_healthy path d Hd) as Hr. rewrite Ht, Hv in Hr.
  rewrite (io_bind_run _ _ d (Ok text) d) by (unfold io_try; by rewrite Hr).
  pose proof (apply_unified_at 1 (lines text) (fp_hunks patch) ls [] Hu eq_refl) as Ha. cbn [app] in Ha. rewrite Ha.
  cbv zeta. destruct (write_file_healthy path (joined_lines ls) d Hd) as (d1 & Hw & Hd1 & Hf).
  unfold io_try. rewrite (io_bind_run _ _ _ _ _ Hw). eexists _, _. by split_and!.
Qed.

(** A diff that deletes a file deletes it, protected or not. *)
Lemma a_unified_diff_deletes_any_file patch path d text :
  healthy d → d_files d !! path = Some text → fp_is_delete patch = true →
  d_files (apply_patch_with_diff line_changes patch path d).2 = delete path (d_files d).
Proof.
  intros Hd Ht Hdel. unfold apply_patch_with_diff. rewrite Hdel. unfold delete_patched.
  rewrite (io_bind_run _ _ d true d) by (unfold exists_file; by rewrite Ht). cbn [negb].
  pose proof (read_text_healthy path d Hd) as Hr. rewrite Ht in Hr.
  assert (∃ r, io_try (read_text path) d = (Ok r, d)) as [r Hread] by (unfold io_try; rewrite Hr; by eexists).
  rewrite (io_bind_run _ _ _ _ _ Hread). destruct (remove_file_healthy path d Hd) as [_ <-].
  unfold io_bind. by destruct (remove_file path d) as [[x|e] d2].
Qed.
End unified_on_disk.

(** Only the numbers of the old lines count: a diff that was made for another text is applied
    all the same. *)
Lemma hunks_are_applied_blindly hunk ls old :
  length old = length (hk_old_lines hunk) →
  splice_hunk {| hk_old_start := hk_old_start hunk; hk_old_lines := old; hk_new_lines := hk_new_lines hunk |} ls = splice_hunk hunk ls.
Proof. unfold splice_hunk. simpl. by intros ->. Qed.

(** A hunk that starts behind the end of the file panics. *)
Lemma a_hunk_behind_the_end_panics hunk ls :
  splice_hunk hunk ls = None ↔ (N.of_nat (length ls) + 1 < hk_old_start hunk)%N.
Proof.
  unfold splice_hunk. cbv zeta. destruct (N.leb_spec (hk_old_start hunk - 1)
    (N.min (hk_old_start hunk - 1 + N.of_nat (length (hk_old_lines hunk))) (N.of_nat (length ls)))); split; try done; lia.
Qed.

(** A hunk without old lines names the line behind which its lines belong; they are inserted
    in front of it. *)
Lemma an_insertion_is_a_line_early before l after new :
  splice_hunk {| hk_old_start := N.of_nat (S (length before)); hk_old_lines := []; hk_new_lines := new |} (before ++ l :: after)
  = Some (before ++ new ++ l :: after).
Proof. by rewrite (splice_hunk_at before (l :: after) {| hk_old_start := _; hk_old_lines := []; hk_new_lines := new |}). Qed.

(** A context line that lost its blank is not counted: the hunk replaces the wrong lines. *)
Lemma a_bare_context_line_is_not_counted :
  let diff := unlines ["--- a/f"; "+++ b/f"; "@@ -1,3 +1,3 @@"; " a"; ""; "-b"; "+c"] in
  (patches ← parse_patch diff; patch ← head patches; apply_unified (fp_hunks patch) ["a"; ""; "b"]) = Some ["a"; "c"; "b"].
Proof. vm_compute. reflexivity. Qed.

(** A removed line that starts with two dashes is taken for the header of the next file. *)
Lemma a_removed_comment_ends_the_diff :
  let diff := unlines ["--- a/f"; "+++ b/f"; "@@ -1,2 +1,1 @@"; " a"; "--- comment"; "-b"] in
  (patches ← parse_patch diff; patch ← head patches; apply_unified (fp_hunks patch) ["a"; "-- comment"; "b"])
  = Some ["a"; "-- comment"; "b"].
Proof. vm_compute. reflexivity. Qed.

(** Every line ending of a patched file becomes a newline. *)
Lemma a_unified_diff_rewrites_line_endings :
  let crlf := String "013" newline in
  joined_lines (lines ("a" +:+ crlf +:+ "b" +:+ crlf)) = "a" +:+ newline +:+ "b" +:+ newline.
Proof. vm_compute. reflexivity. Qed.

(** ** Several edits of one file *)

(** The edit as the edit tool knows it. *)
Definition edit_of (file_path : string) (e : EditOperation) : EditInput := {|
  ed_intent := None; ed_file_path := file_path; ed_old_string := eo_old_string e; ed_new_string := eo_new_string e;
  ed_replace_all := eo_replace_all e |}.

(** The edit tool would apply it to this text. *)
Definition accepted (e : EditOperation) (content : string) : bool :=
  negb (String.eqb (eo_old_string e) (eo_new_string e)) && negb (count_matches (eo_old_string e) content =? 0)
  && negb ((1 <? count_matches (eo_old_string e) content) && negb (eo_replace_all e)).

Definition single_edit (file_path : string) (content : string) (e : EditOperation) : string :=
  if accepted e content then replaced (edit_of file_path e) content else content.

Lemma multi_edit_single file_path i e s :
  ep_content (multi_edit i e s) = single_edit file_path (ep_content s) e
  ∧ length (ep_applied (multi_edit i e s)) = length (ep_applied s) + (if accepted e (ep_content s) then 1 else 0)
  ∧ length (ep_failed (multi_edit i e s)) = length (ep_failed s) + (if accepted e (ep_content s) then 0 else 1).
Proof.
  unfold multi_edit, single_edit, accepted, replaced. simpl. destruct (String.eqb _ _); simpl; [rewrite length_app; simpl; split_and!; lia || done|].
  destruct (count_matches _ _ =? 0); simpl; [rewrite length_app; simpl; split_and!; lia || done|].
  destruct (1 <? _); destruct (eo_replace_all e); simpl; rewrite length_app; simpl; split_and!; lia || done.
Qed.

Lemma multi_edits_single file_path i edits s :
  ep_content (multi_edits i edits s) = foldl (single_edit file_path) (ep_content s) edits
  ∧ length (ep_applied (multi_edits i edits s)) + length (ep_failed (multi_edits i edits s))
    = length (ep_applied s) + length (ep_failed s) + length edits.
Proof.
  revert i s. induction edits as [|e edits IH]; intros i s; simpl; [split; [done|lia]|].
  destruct (IH (S i) (multi_edit i e s)) as [-> ->]. destruct (multi_edit_single file_path i e s) as (-> & -> & ->).
  split; [done|]. destruct (accepted _ _); lia.
Qed.

(** Several edits are single edits, one after the other, each of which is made when the edit tool
    would make it, and reported. *)
Lemma several_edits_are_single_edits line_changes ctx p d text :
  let path := resolve_path ctx (me_file_path p) in
  healthy d → d_files d !! path = Some text → valid_utf8 text = true →
  ∃ out d', multiedit_execute line_changes ctx p d = (Ok out, d')
          ∧ d_files d' = <[path := foldl (single_edit (me_file_path p)) text (me_edits p)]> (d_files d).
Proof.
  intros path Hd Ht Hv. unfold multiedit_execute. fold path. cbv zeta.
  rewrite (io_bind_run _ _ d true d) by (unfold exists_file; by rewrite Ht). cbn [negb].
  pose proof (read_text_healthy path d Hd) as Hr. rewrite Ht, Hv in Hr. rewrite (io_bind_run _ _ _ _ _ Hr).
  set (s := multi_edits _ _ _). destruct (multi_edits_single (me_file_path p) 0 (me_edits p)
    {| ep_content := text; ep_applied := []; ep_failed := [] |}) as [Hc _]. fold s in Hc.
  destruct (write_file_healthy path (ep_content s) d Hd) as (d1 & Hw & _ & Hf). rewrite (io_bind_run _ _ _ _ _ Hw).
  eexists _, _. split; [done|]. by rewrite Hf, Hc.
Qed.

(** ** The theorems at work *)

Definition patch_env (key : string) : option string := if bool_decide (key = "HOME") then Some "/home/u" else None.

Definition patch_ctx : ToolContext := {| tc_session_id := "s"; tc_working_dir := Some "/w" |}.

Definition patch_disk (path text : string) : Disk := {| d_files := {[path := text]}; d_faults := []; d_trace := [] |}.

Definition sample_chunk : UpdateFileChunk :=
  {| ch_change_context := Some "fn main"; ch_old_lines := ["  b"]; ch_new_lines := ["  c"; "  d"]; ch_is_end_of_file := false |}.

Lemma an_update_changes_the_lines_it_names_witness :
  let text := unlines ["fn main"; "  a"; "  b"; "end"] in
  present (text_lines text) [sample_chunk]
  ∧ ∃ report d', update_hunk_of (λ _ _, []) patch_ctx None "f" None [sample_chunk] (patch_disk "/w/f" text) = (Ok report, d')
               ∧ healthy d' ∧ hr_touched report = ["f"].
Proof.
  cbv zeta. set (text := unlines _). assert (present (text_lines text) [sample_chunk]) as Hp.
  { apply (pr_chunk sample_chunk [] ["fn main"; "  a"] ["end"]); [intros ? [= <-]; by left|constructor]. }
  split; [exact Hp|].
  destruct (an_update_changes_the_lines_it_names (λ _ _, []) patch_ctx None "f" [sample_chunk] (patch_disk "/w/f" text) text)
    as (report & d' & Hrun & Hd' & H);
    [reflexivity|by vm_compute|by vm_compute|by intros chunk ->%list_elem_of_singleton|].
  exists report, d'. split; [exact Hrun|]. split; [exact Hd'|].
  destruct H as [(e & _ & _ & H)|(ls & _ & Ht & _)]; [destruct (H Hp)|exact Ht].
Defined.

Lemma printed_patches_are_read_back_witness :
  let hunks := [AddFile "new.txt" ("a" +:+ newline); DeleteFile "old.txt"; UpdateFile "f" (Some "g") [sample_chunk]] in
  hunks ≠ [] ∧ forallb hunk_ok hunks = true ∧ parse_apply_patch (print_patch hunks) = Some (Ok hunks).
Proof.
  intros hunks. assert (hunks ≠ []) as Hne by discriminate. assert (forallb hunk_ok hunks = true) as Hok by (vm_compute; reflexivity).
  split; [exact Hne|]. split; [exact Hok|]. exact (printed_patches_are_read_back hunks Hne Hok).
Defined.

Definition sample_diff : FilePatch := {|
  fp_path := "f"; fp_is_new := false; fp_is_delete := false;
  fp_hunks := [{| hk_old_start := 2; hk_old_lines := ["b"]; hk_new_lines := ["x"; "y"] |};
               {| hk_old_start := 4; hk_old_lines := ["d"]; hk_new_lines := [] |}] |}.

Lemma hunks_replace_the_lines_they_number_witness :
  unified 1 ["a"; "b"; "c"; "d"] (fp_hunks sample_diff) ["a"; "x"; "y"; "c"]
  ∧ ∃ report d', apply_patch_with_diff (λ _ _, []) sample_diff "/w/f" (patch_disk "/w/f" (unlines ["a"; "b"; "c"; "d"])) = (Ok (Ok report), d')
               ∧ d_files d' !! "/w/f" = Some (unlines ["a"; "x"; "y"; "c"]).
Proof.
  assert (unified 1 ["a"; "b"; "c"; "d"] (fp_hunks sample_diff) ["a"; "x"; "y"; "c"]) as Hu.
  { apply (un_hunk 1 ["a"] {| hk_old_start := 2; hk_old_lines := ["b"]; hk_new_lines := ["x"; "y"] |} ["c"; "d"] _ ["c"]); [done|].
    apply (un_hunk 3 ["c"] {| hk_old_start := 4; hk_old_lines := ["d"]; hk_new_lines := [] |} [] [] []); [done|constructor]. }
  split; [exact Hu|].
  destruct (hunks_replace_the_lines_they_number (λ _ _, []) sample_diff "/w/f" (patch_disk "/w/f" (unlines ["a"; "b"; "c"; "d"]))
    (unlines ["a"; "b"; "c"; "d"]) ["a"; "x"; "y"; "c"]) as (report & d' & Hrun & _ & Hf);
    [reflexivity|by vm_compute|by vm_compute|reflexivity|reflexivity|exact Hu|].
  exists report, d'. split; [exact Hrun|]. by rewrite Hf, lookup_insert_eq.
Defined.

(** A deletion of a protected key is refused; a move takes it away. *)
Lemma a_protected_key_is_moved_away :
  let key := "/home/u/.ssh/id" in
  let run lines := apply_patch_execute patch_env (λ _ _, []) patch_ctx
    {| ap_intent := None; ap_patch_text := unlines (["*** Begin Patch"] ++ lines ++ ["*** End Patch"]) |} (patch_disk key (unlines ["secret"])) in
  is_catastrophic_target key (risk_context patch_env patch_ctx) = true
  ∧ is_Some (d_files (run ["*** Delete File: " +:+ key]).2 !! key)
  ∧ d_files (run ["*** Update File: " +:+ key; "*** Move to: copy"; "@@"; " secret"]).2 !! key = None.
Proof. vm_compute. split_and!; [reflexivity|by eexists|reflexivity]. Qed.

Lemma a_patch_keeps_to_its_files_witness :
  let key := "/home/u/.ssh/id" in
  let hunks := [DeleteFile key; AddFile "f" ("a" +:+ newline)] in
  let after := (apply_hunks patch_env (λ _ _, []) patch_ctx None hunks [] (patch_disk key (unlines ["secret"]))).2 in
  d_files after !! "/w/f" = Some ("a" +:+ newline) ∧ d_files after !! "/w/g" = None ∧ is_Some (d_files after !! key).
Proof.
  cbv zeta. split; [vm_compute; reflexivity|].
  destruct (a_patch_keeps_to_its_files patch_env (λ _ _, []) patch_ctx None [DeleteFile "/home/u/.ssh/id"; AddFile "f" ("a" +:+ newline)]
    (patch_disk "/home/u/.ssh/id" (unlines ["secret"]))) as [Hother Hthere].
  split; [rewrite Hother; [reflexivity|by apply (bool_decide_unpack _); vm_compute]|].
  apply Hthere; [vm_compute; reflexivity|by repeat constructor; vm_compute|vm_compute; by eexists].
Defined.
