(* ===== verification/SwarmCore.v ===== *)
(** * What the agents of a swarm share

    crates/jcode-swarm-core/src/lib.rs: roles and lifecycle states and their wire names,
    the texts that agents send each other and the limits on them, the instructions that
    travel with an assignment, and the index of channel subscriptions. *)

From S2P Require Import Prelude RustStr RustText PlanTypes.

Definition MAX_SWARM_COMPLETION_REPORT_CHARS : nat := 4000.
Definition SWARM_COMPLETION_REPORT_MARKER : string := "SWARM COMPLETION REPORT REQUIRED".
Definition SWARM_TLDR_REQUIRED_OVER_CHARS : nat := 240.
Definition MAX_SWARM_TLDR_CHARS : nat := 200.
Definition MAX_SWARM_MEMBERS : nat := 1000.
Definition MAX_SWARM_TASK_LABEL_CHARS : nat := 48.

(** ** Short summaries *)

Definition some_text (s : string) : option string := if is_empty s then None else Some s.

Definition tldr_too_long (context : string) (chars : nat) : string :=
    "'tldr' for " +:+ context +:+ " is too long (" +:+ pretty_nat chars +:+ " chars, max "
    +:+ pretty_nat MAX_SWARM_TLDR_CHARS +:+ "). Provide a single short line summarizing the message.".

Definition tldr_required (context : string) (body_chars : nat) : string :=
    "'tldr' is required for " +:+ context +:+ " because the body is " +:+ pretty_nat body_chars
    +:+ " chars (over " +:+ pretty_nat SWARM_TLDR_REQUIRED_OVER_CHARS +:+ "). Add a one-line 'tldr' (under "
    +:+ pretty_nat MAX_SWARM_TLDR_CHARS
    +:+ " chars) summarizing it; recipients see the tldr collapsed with an expand control.".

Definition validate_swarm_tldr (tldr : option string) (body context : string) : result (option string) string :=
  match tldr ≫= λ t, some_text (collapse_whitespace t) with
  | Some t =>
      fail_if MAX_SWARM_TLDR_CHARS <? char_count t with tldr_too_long context (char_count t) ;;
      Ok (Some t)
  | None =>
      fail_if SWARM_TLDR_REQUIRED_OVER_CHARS <? char_count body with tldr_required context (char_count body) ;;
      Ok None
  end.

Definition is_label_mark (c : chr) : bool :=
  Ascii.eqb c "#" || Ascii.eqb c "-" || Ascii.eqb c "*" || Ascii.eqb c ">" || Ascii.eqb c " ".

Definition derive_swarm_task_label (text : string) : option string :=
  match find (λ line, negb (is_empty line)) (map trim (lines text)) with
  | None => None
  | Some line =>
      let collapsed :=
        collapse_whitespace (trim (trim_end_matches (Ascii.eqb ":") (trim_start_matches is_label_mark line))) in
      if is_empty collapsed then None
      else if char_count collapsed <=? MAX_SWARM_TASK_LABEL_CHARS then Some collapsed
      else Some (trim_end (take_chars (MAX_SWARM_TASK_LABEL_CHARS - 1) collapsed) +:+ ellipsis)
  end.

(** ** Roles and states *)

Inductive SwarmRole := Agent | Coordinator | OtherRole (value : string).

#[export] Instance SwarmRole_eq_dec : EqDecision SwarmRole.
Proof. solve_decision. Defined.

Definition role_as_str (r : SwarmRole) : string :=
  match r with Agent => "agent" | Coordinator => "coordinator" | OtherRole value => value end.

Definition role_from (value : string) : SwarmRole :=
  if bool_decide (value = "agent") then Agent
  else if bool_decide (value = "coordinator") then Coordinator
  else OtherRole value.

Inductive SwarmLifecycleStatus :=
  | Spawned | Ready | Running | RunningStale | Completed | Done | Failed | Stopped | Crashed
  | Queued | Blocked | Pending | Todo | OtherStatus (value : string).

#[export] Instance SwarmLifecycleStatus_eq_dec : EqDecision SwarmLifecycleStatus.
Proof. solve_decision. Defined.

Definition lifecycle_as_str (s : SwarmLifecycleStatus) : string :=
  match s with
  | Spawned => "spawned" | Ready => "ready" | Running => "running" | RunningStale => "running_stale"
  | Completed => "completed" | Done => "done" | Failed => "failed" | Stopped => "stopped"
  | Crashed => "crashed" | Queued => "queued" | Blocked => "blocked" | Pending => "pending"
  | Todo => "todo" | OtherStatus value => value
  end.

(** The states with a name of their own. *)
Definition named_statuses : list SwarmLifecycleStatus :=
  [Spawned; Ready; Running; RunningStale; Completed; Done; Failed; Stopped; Crashed; Queued; Blocked; Pending; Todo].

Definition lifecycle_from (value : string) : SwarmLifecycleStatus :=
  default (OtherStatus value) (find (λ s, bool_decide (lifecycle_as_str s = value)) named_statuses).

Record SwarmMemberRecord := {
  mr_session_id : string;
  mr_working_dir : option string;
  mr_swarm_id : option string;
  mr_swarm_enabled : bool;
  mr_status : SwarmLifecycleStatus;
  mr_detail : option string;
  mr_task_label : option string;
  mr_friendly_name : option string;
  mr_report_back_to_session_id : option string;
  mr_latest_completion_report : option string;
  mr_role : SwarmRole;
  mr_is_headless : bool;
}.

(** ** Channels *)

Abbreviation Index := (gmap string (gmap string (gset string))).

Record ChannelIndex := {
  by_swarm_channel : Index;
  by_session : Index;
}.

(** The set under two keys. *)
Definition entry_of (m : Index) (a b : string) : gset string := default ∅ (m !! a ≫= lookup b).

(** [m.entry(a).or_default().entry(b).or_default().insert(x)]. *)
Definition index_insert (m : Index) (a b x : string) : Index :=
  <[a := <[b := {[x]} ∪ entry_of m a b]> (default ∅ (m !! a))]> m.

(** Removes [x] under [b], and the set with it when that leaves it empty. *)
Definition drop_from (inner : gmap string (gset string)) (b x : string) : gmap string (gset string) :=
  match inner !! b with
  | None => inner
  | Some members =>
      let rest := members ∖ {[x]} in
      if bool_decide (rest = ∅) then delete b inner else <[b := rest]> inner
  end.

(** Puts an inner map back, unless it is empty. *)
Definition put_inner (m : Index) (a : string) (inner : gmap string (gset string)) : Index :=
  if bool_decide (inner = ∅) then delete a m else <[a := inner]> m.

Definition index_remove (m : Index) (a b x : string) : Index :=
  match m !! a with None => m | Some inner => put_inner m a (drop_from inner b x) end.

Definition subscribe (i : ChannelIndex) (session_id swarm_id channel : string) : ChannelIndex := {|
  by_swarm_channel := index_insert (by_swarm_channel i) swarm_id channel session_id;
  by_session := index_insert (by_session i) session_id swarm_id channel |}.

Definition unsubscribe (i : ChannelIndex) (session_id swarm_id channel : string) : ChannelIndex := {|
  by_swarm_channel := index_remove (by_swarm_channel i) swarm_id channel session_id;
  by_session := index_remove (by_session i) session_id swarm_id channel |}.

(** The removal of one session from some channels of a swarm. *)
Definition leave_channels (session_id : string) (m : Index) (entry : string * list string) : Index :=
  match m !! entry.1 with
  | None => m
  | Some inner => put_inner m entry.1 (foldl (λ inner channel, drop_from inner channel session_id) inner entry.2)
  end.

Definition remove_session (i : ChannelIndex) (session_id : string) : ChannelIndex :=
  match by_session i !! session_id with
  | Some subscriptions => {|
      by_swarm_channel :=
        foldl (leave_channels session_id) (by_swarm_channel i) (prod_map id elements <$> map_to_list subscriptions);
      by_session := delete session_id (by_session i) |}
  | None => {|
      by_swarm_channel :=
        foldl (leave_channels session_id) (by_swarm_channel i)
          (prod_map id (λ inner, (map_to_list inner).*1) <$> map_to_list (by_swarm_channel i));
      by_session := by_session i |}
  end.

Definition members (i : ChannelIndex) (swarm_id channel : string) : list string :=
  merge_sort String.le (elements (entry_of (by_swarm_channel i) swarm_id channel)).

Definition channels_for_session (i : ChannelIndex) (session_id swarm_id : string) : list string :=
  merge_sort String.le (elements (entry_of (by_session i) session_id swarm_id)).

(** ** Instructions *)

Definition SWARM_DEEP_NODE_MARKER : string := "DEEP TASK GRAPH NODE".

(** The message, an empty line, and a reminder that starts with its marker. *)
Definition with_reminder (message marker body : string) : string :=
  let out := trim_end message in
  (if is_empty out then out else out +:+ newline +:+ newline)
  +:+ "<system-reminder>" +:+ newline +:+ marker +:+ body +:+ "</system-reminder>".

Definition completion_report_directive : string :=
    newline +:+ "Before finishing, call the swarm tool with action=" +:+ dquote +:+ "report" +:+ dquote
    +:+ " to submit your completion report. Include a concise message, validation/tests performed, and blockers or follow-ups. After the report tool succeeds, also write a brief final assistant response. Do not finish with only tool output, a lifecycle status change, or no final response. Do not send a separate DM for the final report unless you need interactive coordination before finishing."
    +:+ newline.

Definition append_swarm_completion_report_instructions (message : string) : string :=
  if contains_str SWARM_COMPLETION_REPORT_MARKER message then message
  else with_reminder message SWARM_COMPLETION_REPORT_MARKER completion_report_directive.

Definition bounded_node_directive (node_id : string) : string :=
    newline +:+ "You are executing node '" +:+ node_id
    +:+ "' of a deep task graph. The planner explicitly marked this node as bounded and non-expandable. Do NOT call expand_node, even if the node contains multiple concerns. Execute the assigned scope atomically, then call the swarm tool with action="
    +:+ dquote +:+ "complete_node" +:+ dquote +:+ ", node_id=" +:+ dquote +:+ node_id +:+ dquote
    +:+ ", and a typed artifact containing findings, evidence (file:line refs), validation, open_questions, a REQUIRED confidence (low, medium, or high), and an honest what_i_did_not_check list. A turn that ends without complete_node gets re-queued and may fail."
    +:+ newline.

Definition deep_node_directive (node_id : string) : string :=
    newline +:+ "You are executing node '" +:+ node_id
    +:+ "' of a deep task graph with a configurable parallel agent budget (32 live workers by default, with a hard maximum of "
    +:+ pretty_nat MAX_SWARM_MEMBERS
    +:+ "; use available parallelism deliberately, but do not spawn redundant agents). Choose one of exactly two finishes for this node:"
    +:+ newline
    +:+ "1. Decompose for parallelism: if this node contains more than one independently checkable concern, do NOT work through it serially. Call the swarm tool with action="
    +:+ dquote +:+ "expand_node" +:+ dquote +:+ ", node_id=" +:+ dquote +:+ node_id +:+ dquote
    +:+ ", and MANY independent children (add depends_on edges only for real data dependencies, so the ready set stays wide). Then finish your turn; the children fan out to parallel agents and you will be re-woken to synthesize their results."
    +:+ newline +:+ "2. Execute atomically: do the work, then call the swarm tool with action=" +:+ dquote
    +:+ "complete_node" +:+ dquote +:+ ", node_id=" +:+ dquote +:+ node_id +:+ dquote
    +:+ ", and a typed artifact: findings, evidence (file:line refs), validation, open_questions, a REQUIRED confidence (low, medium, or high; report low honestly, it routes follow-up work to shore up your scope instead of counting against you), and an honest what_i_did_not_check (the critique gate turns those into new nodes, so listing them is how coverage grows)."
    +:+ newline
    +:+ "These are the ONLY two ways this node can close: a turn that ends without expand_node or complete_node gets the node re-queued to a fresh agent, and a repeat fails it."
    +:+ newline.

Definition append_deep_node_instructions (message node_id : string) : string :=
  if contains_str SWARM_DEEP_NODE_MARKER message then message
  else
    let explicitly_non_expandable := contains_str "do not expand this node" (to_ascii_lowercase message) in
    with_reminder message SWARM_DEEP_NODE_MARKER
      (if explicitly_non_expandable then bounded_node_directive node_id else deep_node_directive node_id).

Definition deep_gate_directive (gate_id : string) : string :=
    newline +:+ "You are executing critique/verify gate '" +:+ gate_id
    +:+ "' of a deep task graph. Your job is to find gaps, not to pass work through. Read every audited artifact, especially each what_i_did_not_check list, and probe them. Finish in one of exactly two ways:"
    +:+ newline +:+ "1. Gaps or failures found: call the swarm tool with action=" +:+ dquote +:+ "inject_gap"
    +:+ dquote +:+ ", gate_id=" +:+ dquote +:+ gate_id +:+ dquote
    +:+ ", and one new node per gap (they run in parallel and you re-run afterwards). The parent cannot close until they drain, so be thorough now. Injecting nodes is SUCCESS for a gate, not failure: a growing graph is the system working."
    +:+ newline +:+ "2. Genuinely clean: call the swarm tool with action=" +:+ dquote +:+ "complete_node"
    +:+ dquote +:+ ", node_id=" +:+ dquote +:+ gate_id +:+ dquote
    +:+ ", and an artifact whose findings account for EVERY node you audited BY ID with what you checked and why no gaps remain. The server rejects a pass whose findings/open_questions do not name each audited node id."
    +:+ newline.

Definition audit_scope_directive (audited_ids : list string) : string :=
  if bool_decide (audited_ids = []) then "" else
    "AUDIT SCOPE: you are auditing node(s) [" +:+ join ", " audited_ids
    +:+ "]. A passing artifact must address each of these ids explicitly." +:+ newline.

Definition low_confidence_directive (low_confidence_siblings : list string) : string :=
  if bool_decide (low_confidence_siblings = []) then "" else
    "PRIORITY: sibling node(s) [" +:+ join ", " low_confidence_siblings
    +:+ "] completed with LOW confidence. The server will REJECT your pass unless you either inject follow-up nodes that shore up that work, or name each of those ids in your artifact findings with why the low confidence is acceptable. Injecting follow-ups adds breadth but does not erase the record: when you re-run after they drain, your passing artifact must STILL name each low-confidence id (e.g. 'X was shored up by Y')."
    +:+ newline.

Definition append_deep_gate_instructions (message gate_id : string) (audited_ids low_confidence_siblings : list string)
  : string :=
  if contains_str SWARM_DEEP_NODE_MARKER message then message
  else with_reminder message SWARM_DEEP_NODE_MARKER
    (deep_gate_directive gate_id +:+ audit_scope_directive audited_ids
     +:+ low_confidence_directive low_confidence_siblings
     +:+ "Do not pass the gate without doing one of these." +:+ newline).

(** ** Reports *)

Definition report_section (report title : string) (body : option string) : string :=
  match body ≫= λ b, some_text (trim b) with
  | None => report
  | Some b => (if is_empty report then report else report +:+ newline +:+ newline) +:+ title +:+ newline +:+ b
  end.

Definition format_structured_completion_report (message : string) (validation follow_up : option string) : string :=
  report_section (report_section (trim message) "Validation:" validation) "Follow-ups/blockers:" follow_up.

Definition truncation_note : string := newline +:+ newline +:+ "[Report truncated by jcode before delivery.]".

Definition normalize_completion_report (report : option string) : option string :=
  match report with
  | None => None
  | Some report =>
      let report := trim report in
      if is_empty report then None
      else if char_count report <=? MAX_SWARM_COMPLETION_REPORT_CHARS then Some report
      else Some (take_chars (MAX_SWARM_COMPLETION_REPORT_CHARS - char_count truncation_note) report +:+ truncation_note)
  end.

Definition completion_status_intro (name status : string) : string :=
  if bool_decide (status = "ready") then "Agent " +:+ name +:+ " finished their work and is ready for more."
  else if bool_decide (status = "failed") then "Agent " +:+ name +:+ " finished with status failed."
  else if bool_decide (status = "stopped") then "Agent " +:+ name +:+ " stopped."
  else if bool_decide (status = "crashed") then "Agent " +:+ name +:+ " crashed while working."
  else "Agent " +:+ name +:+ " completed their work.".

Definition completion_followup (status : string) (has_report : bool) : string :=
  if bool_decide (status = "ready") then
    if has_report then "Use assign_task to give them more work, stop to remove them, or summary/read_context for full context."
    else "Use summary/read_context to inspect results, assign_task for more work, or stop to remove them."
  else if bool_decide (status = "failed") then
    if has_report then "Use summary/read_context for full context, retry with guidance, or stop to remove them."
    else "Use summary/read_context to inspect results, assign_task to retry with guidance, or stop to remove them."
  else if bool_decide (status = "stopped") then "Use summary/read_context to inspect results or stop to remove them."
  else if bool_decide (status = "crashed") then
    "Any swarm task assignments they held are requeued automatically where possible. Check plan_status, and spawn a replacement or use retry/assign_task if work remains."
  else if has_report then
    "Use assign_task to give them new work, stop to remove them, or summary/read_context for full context."
  else "Use assign_task to give them new work, or stop to remove them.".

Definition completion_notification_message (name status : string) (report : option string) : string :=
  let intro := completion_status_intro name status in
  match report with
  | Some text => intro +:+ newline +:+ newline +:+ "Report:" +:+ newline +:+ text +:+ newline +:+ newline
                 +:+ completion_followup status true
  | None => intro +:+ newline +:+ newline +:+ "No final textual report was produced. " +:+ completion_followup status false
  end.

Definition truncate_detail (text : string) (max_len : nat) : string :=
  let trimmed := trim (collapse_whitespace text) in
  let max_len := Nat.max max_len 1 in
  if char_count trimmed <=? max_len then trimmed
  else if max_len <=? 3 then take_chars max_len trimmed
  else take_chars (max_len - 3) trimmed +:+ "...".

Definition summarize_plan_items (items : list PlanItem) (max_items : nat) : string :=
  let shown := Nat.max max_items 1 in
  if length items =? 0 then "no items"
  else join "; " (map i_content (take shown items))
       +:+ (if shown <? length items then " (+" +:+ pretty_nat (length items - shown) +:+ " more)" else "").
