(* ===== verification/SwarmCoreTheorems.v ===== *)
(** * Channels, wire names, limits and instructions of a swarm

    The two maps of the channel index implement one set of subscriptions, states and
    roles survive their wire names, every summary stays within its limit, and
    instructions are appended once. *)

From S2P Require Import Prelude RustStr RustText PlanTypes SwarmCore.

(** ** The channel index *)

Section channels.
Implicit Types (m : Index) (inner : gmap string (gset string)).

Definition tidy_inner inner : Prop := ∀ b s, inner !! b = Some s → s ≠ ∅.

(** No empty set and no empty map is kept. *)
Definition tidy m : Prop := ∀ a inner, m !! a = Some inner → inner ≠ ∅ ∧ tidy_inner inner.

Definition set_of inner (b : string) : gset string := default ∅ (inner !! b).

Lemma entry_of_set m a b : entry_of m a b = set_of (default ∅ (m !! a)) b.
Proof. unfold entry_of, set_of. by destruct (m !! a). Qed.

Lemma entry_of_insert m a b x a' b' y :
  y ∈ entry_of (index_insert m a b x) a' b' ↔ (a' = a ∧ b' = b ∧ y = x) ∨ y ∈ entry_of m a' b'.
Proof.
  unfold index_insert, entry_of at 1. destruct (decide (a' = a)) as [->|Ha].
  - rewrite lookup_insert_eq. simpl. destruct (decide (b' = b)) as [->|Hb].
    + rewrite lookup_insert_eq. simpl. set_solver.
    + rewrite lookup_insert_ne by done. unfold entry_of. destruct (m !! a); simpl; naive_solver.
  - rewrite lookup_insert_ne by done. unfold entry_of. naive_solver.
Qed.

Lemma tidy_insert m a b x : tidy m → tidy (index_insert m a b x).
Proof.
  intros Hm a' inner. unfold index_insert. intros [[<- <-]|[Hne Hl]]%lookup_insert_Some; [|by eapply Hm].
  split; [apply insert_non_empty|]. intros b' s [[<- <-]|[Hne Hl]]%lookup_insert_Some; [set_solver|].
  destruct (m !! a) as [inner|] eqn:Hi; [|by destruct (lookup_empty_Some _ _ Hl)]. by eapply (Hm a inner Hi).
Qed.

Lemma set_of_drop inner b x b' y :
  y ∈ set_of (drop_from inner b x) b' ↔ y ∈ set_of inner b' ∧ ¬ (b' = b ∧ y = x).
Proof.
  unfold drop_from, set_of. destruct (decide (b' = b)) as [->|Hb].
  - destruct (inner !! b) as [s|] eqn:Hs; [|rewrite Hs; set_solver].
    case_bool_decide as He; simpl; [rewrite lookup_delete_eq|rewrite lookup_insert_eq]; set_solver.
  - destruct (inner !! b) as [s|]; [|naive_solver].
    case_bool_decide; rewrite ?lookup_delete_ne, ?lookup_insert_ne by done; naive_solver.
Qed.

Lemma tidy_drop inner b x : tidy_inner inner → tidy_inner (drop_from inner b x).
Proof.
  intros Hi b' s. unfold drop_from. destruct (inner !! b) as [t|] eqn:Ht; [|by apply Hi].
  case_bool_decide as He; [intros [_ H]%lookup_delete_Some; by eapply Hi|].
  intros [[_ <-]|[_ H]]%lookup_insert_Some; [done|by eapply Hi].
Qed.

Lemma entry_of_put m a inner a' b' :
  entry_of (put_inner m a inner) a' b' = if decide (a' = a) then set_of inner b' else entry_of m a' b'.
Proof.
  unfold put_inner, entry_of, set_of. case_decide as Ha; [subst a'|].
  - case_bool_decide as He; [subst inner; by rewrite lookup_delete_eq, lookup_empty|by rewrite lookup_insert_eq].
  - case_bool_decide; by rewrite ?lookup_delete_ne, ?lookup_insert_ne.
Qed.

Lemma tidy_put m a inner : tidy m → tidy_inner inner → tidy (put_inner m a inner).
Proof.
  intros Hm Hi a' inner'. unfold put_inner. case_bool_decide as He.
  - intros [_ H]%lookup_delete_Some. by eapply Hm.
  - intros [[_ <-]|[_ H]]%lookup_insert_Some; [done|by eapply Hm].
Qed.

Lemma tidy_inner_at m a : tidy m → tidy_inner (default ∅ (m !! a)).
Proof. intros Hm. destruct (m !! a) as [inner|] eqn:H; [by eapply Hm|]. intros b s Hb. by destruct (lookup_empty_Some _ _ Hb). Qed.

Lemma set_of_drops inner x bs b y :
  y ∈ set_of (foldl (λ i b, drop_from i b x) inner bs) b ↔ y ∈ set_of inner b ∧ ¬ (b ∈ bs ∧ y = x).
Proof.
  revert inner. induction bs as [|c bs IH]; intros inner; simpl; [set_solver|].
  rewrite IH, set_of_drop. set_solver.
Qed.

Lemma tidy_drops inner x bs : tidy_inner inner → tidy_inner (foldl (λ i b, drop_from i b x) inner bs).
Proof. revert inner. induction bs as [|c bs IH]; intros inner H; simpl; [done|]. by apply IH, tidy_drop. Qed.

Lemma entry_of_leave x m e a b y :
  y ∈ entry_of (leave_channels x m e) a b ↔ y ∈ entry_of m a b ∧ ¬ (a = e.1 ∧ b ∈ e.2 ∧ y = x).
Proof.
  unfold leave_channels. destruct (m !! e.1) as [inner|] eqn:Hi.
  - rewrite entry_of_put. case_decide as Ha; [|tauto].
    subst a. rewrite set_of_drops, entry_of_set, Hi. simpl. tauto.
  - split; [|tauto]. intros H. split; [done|]. intros (-> & _). revert H. rewrite entry_of_set, Hi.
    unfold set_of. simpl. rewrite lookup_empty. set_solver.
Qed.

Lemma tidy_leave x m e : tidy m → tidy (leave_channels x m e).
Proof.
  intros Hm. unfold leave_channels. destruct (m !! e.1) as [inner|] eqn:Hi; [|done].
  apply tidy_put; [done|]. apply tidy_drops. by eapply Hm.
Qed.

Lemma entry_of_leaves x m es a b y :
  y ∈ entry_of (foldl (leave_channels x) m es) a b ↔
  y ∈ entry_of m a b ∧ ¬ (y = x ∧ ∃ bs, (a, bs) ∈ es ∧ b ∈ bs).
Proof.
  revert m. induction es as [|[c cs] es IH]; intros m; simpl; [set_solver|].
  rewrite IH, entry_of_leave. simpl. setoid_rewrite elem_of_cons. naive_solver.
Qed.

Lemma tidy_leaves x m es : tidy m → tidy (foldl (leave_channels x) m es).
Proof. revert m. induction es as [|e es IH]; intros m H; simpl; [done|]. by apply IH, tidy_leave. Qed.

Lemma index_remove_is_leave m a b x : index_remove m a b x = leave_channels x m (a, [b]).
Proof. done. Qed.

(** The index stands for a set of subscriptions (swarm, channel, session). *)
Record implements (i : ChannelIndex) (subscriptions : gset (string * string * string)) : Prop := {
  tidy_channels : tidy (by_swarm_channel i);
  tidy_sessions : tidy (by_session i);
  in_channels sw ch s : s ∈ entry_of (by_swarm_channel i) sw ch ↔ (sw, ch, s) ∈ subscriptions;
  in_sessions sw ch s : ch ∈ entry_of (by_session i) s sw ↔ (sw, ch, s) ∈ subscriptions;
}.

Lemma subscribe_implements i S s sw ch :
  implements i S → implements (subscribe i s sw ch) ({[(sw, ch, s)]} ∪ S).
Proof.
  intros [H1 H2 H3 H4]. split; simpl; [by apply tidy_insert|by apply tidy_insert| |]; intros sw' ch' s';
    rewrite entry_of_insert, ?H3, ?H4, elem_of_union, elem_of_singleton; naive_solver.
Qed.

Lemma unsubscribe_implements i S s sw ch :
  implements i S → implements (unsubscribe i s sw ch) (S ∖ {[(sw, ch, s)]}).
Proof.
  intros [H1 H2 H3 H4]. split; simpl; rewrite ?index_remove_is_leave; [by apply tidy_leave|by apply tidy_leave| |];
    intros sw' ch' s'; rewrite entry_of_leave, ?H3, ?H4, elem_of_difference, elem_of_singleton; simpl;
    rewrite list_elem_of_singleton; naive_solver.
Qed.

Lemma remove_session_implements i S s :
  implements i S → implements (remove_session i s) (filter (λ t, t.2 ≠ s) S).
Proof.
  intros [H1 H2 H3 H4]. unfold remove_session. destruct (by_session i !! s) as [subs|] eqn:Hs.
  - split; simpl; [by apply tidy_leaves| | |].
    + intros a inner [_ Ha]%lookup_delete_Some. by eapply H2.
    + intros sw ch s'. rewrite entry_of_leaves, H3, elem_of_filter. simpl. split; [|naive_solver].
      intros [Hin Hno]. split; [|done]. intros ->. apply Hno. split; [done|].
      apply H4 in Hin. unfold entry_of in Hin. rewrite Hs in Hin. simpl in Hin.
      destruct (subs !! sw) as [chs|] eqn:Hsw; [|set_solver]. exists (elements chs).
      split; [|by apply elem_of_elements]. apply list_elem_of_fmap. exists (sw, chs). split; [done|].
      by apply elem_of_map_to_list.
    + intros sw ch s'. rewrite elem_of_filter. simpl. unfold entry_of. destruct (decide (s' = s)) as [->|Hne].
      * rewrite lookup_delete_eq. simpl. set_solver.
      * rewrite lookup_delete_ne by done. fold (entry_of (by_session i) s' sw). rewrite H4. naive_solver.
  - assert (∀ sw ch, (sw, ch, s) ∉ S) as Hnone.
    { intros sw ch Hin. apply H4 in Hin. unfold entry_of in Hin. rewrite Hs in Hin. set_solver. }
    split; simpl; [by apply tidy_leaves|done| |].
    + intros sw ch s'. rewrite entry_of_leaves, H3, elem_of_filter. simpl. split; [|naive_solver].
      intros [Hin _]. split; [|done]. intros ->. by apply Hnone in Hin.
    + intros sw ch s'. rewrite H4, elem_of_filter. simpl. split; [|tauto].
      intros Hin. split; [|done]. intros ->. by apply Hnone in Hin.
Qed.

Definition no_channels : ChannelIndex := {| by_swarm_channel := ∅; by_session := ∅ |}.

Lemma no_channels_implement : implements no_channels ∅.
Proof. by split. Qed.

(** The index of channels implements the set of subscriptions (swarm, channel,
    session). Its two maps always agree with the set and hold no empty entry; subscribing adds a
    triple, unsubscribing removes one, removing a session removes all of its triples, whichever
    of the two maps still knows it; and the members of a channel and the channels of a session
    are listed exactly, once each, the members in order. *)
Theorem channel_index_implements_subscriptions i subscriptions session swarm channel :
  implements i subscriptions →
  implements (subscribe i session swarm channel) ({[(swarm, channel, session)]} ∪ subscriptions) ∧
  implements (unsubscribe i session swarm channel) (subscriptions ∖ {[(swarm, channel, session)]}) ∧
  implements (remove_session i session) (filter (λ t, t.2 ≠ session) subscriptions) ∧
  NoDup (members i swarm channel) ∧ Sorted String.le (members i swarm channel) ∧
  (∀ s, s ∈ members i swarm channel ↔ (swarm, channel, s) ∈ subscriptions) ∧
  (∀ c, c ∈ channels_for_session i session swarm ↔ (swarm, c, session) ∈ subscriptions).
Proof.
  intros H. split_and!.
  - by apply subscribe_implements.
  - by apply unsubscribe_implements.
  - by apply remove_session_implements.
  - unfold members. rewrite merge_sort_Permutation. apply NoDup_elements.
  - apply (Sorted_merge_sort String.le).
  - intros s. unfold members. rewrite merge_sort_Permutation, elem_of_elements. apply H.
  - intros c. unfold channels_for_session. rewrite merge_sort_Permutation, elem_of_elements. apply H.
Qed.
End channels.

Lemma channel_index_implements_subscriptions_witness :
  implements (remove_session (subscribe (subscribe no_channels "s1" "w" "c") "s2" "w" "c") "s1") {[("w", "c", "s2")]} ∧
  members (remove_session (subscribe (subscribe no_channels "s1" "w" "c") "s2" "w" "c") "s1") "w" "c" = ["s2"].
Proof.
  split; [|vm_compute; reflexivity].
  assert (({[("w", "c", "s2")]} : gset (string * string * string))
    = filter (λ t, t.2 ≠ "s1") ({[("w", "c", "s2")]} ∪ ({[("w", "c", "s1")]} ∪ ∅))) as -> by (vm_compute; reflexivity).
  apply (channel_index_implements_subscriptions _ _ "s1" "w" "c").
  apply subscribe_implements, subscribe_implements, no_channels_implement.
Defined.

(** ** Names *)

(** Roles and lifecycle states survive their text form: every text, known or
    not, is written back as it was read, and a value is read back as itself unless it hides a
    known word in the constructor for unknown ones. *)
Theorem roles_and_states_survive_the_wire :
  (∀ text, role_as_str (role_from text) = text) ∧ (∀ text, lifecycle_as_str (lifecycle_from text) = text) ∧
  (∀ r, role_from (role_as_str r) = r ↔ ∀ v, r = OtherRole v → v ∉ ["agent"; "coordinator"]) ∧
  (∀ s, lifecycle_from (lifecycle_as_str s) = s ↔
        ∀ v, s = OtherStatus v → v ∉ map lifecycle_as_str named_statuses).
Proof.
  assert (∀ text, lifecycle_as_str (lifecycle_from text) = text) as Hl.
  { intros text. unfold lifecycle_from. destruct (find _ _) as [s|] eqn:Hf; [|done].
    apply find_Some_elem in Hf as [_ H]. by apply bool_decide_eq_true in H. }
  split_and!.
  - intros text. unfold role_from. repeat case_bool_decide; by subst.
  - done.
  - intros r. unfold role_from. split.
    + intros H v -> Hin. simpl in H. rewrite !elem_of_cons in Hin. repeat case_bool_decide; naive_solver set_solver.
    + intros H. destruct r as [| |v]; [done|done|]. simpl. specialize (H v eq_refl).
      rewrite !not_elem_of_cons in H. repeat case_bool_decide; naive_solver.
  - intros s. split.
    + intros H v -> Hin. unfold lifecycle_from in H. cbn [lifecycle_as_str] in H.
      apply list_elem_of_fmap in Hin as (s & Hs & Hin). destruct (find _ _) as [t|] eqn:Hf.
      * simpl in H. subst t. apply find_Some_elem in Hf as [Hf _].
        apply list_elem_of_In in Hf. simpl in Hf. intuition discriminate.
      * eapply find_None_elem in Hf; [|exact Hin]. by rewrite <- Hs, bool_decide_eq_true_2 in Hf.
    + intros H. destruct s as [| | | | | | | | | | | | |v]; try (vm_compute; reflexivity).
      unfold lifecycle_from. simpl lifecycle_as_str. destruct (find _ _) as [t|] eqn:Hf; [|done].
      apply find_Some_elem in Hf as [Hin Ht]. apply bool_decide_eq_true in Ht. subst v.
      destruct (H _ eq_refl). by apply list_elem_of_fmap_2.
Qed.

(** ** Limits *)

Lemma char_count_app s t : char_count (s +:+ t) = char_count s + char_count t.
Proof. induction s as [|c s IH]; [done|]. rewrite str_app_cons. simpl. destruct (is_continuation c); lia. Qed.

Lemma char_count_take n s : char_count (take_chars n s) ≤ n.
Proof.
  revert n. induction s as [|c s IH]; intros n; simpl; [lia|].
  destruct (is_continuation c) eqn:Hc; simpl; [rewrite Hc; apply IH|].
  destruct n as [|n]; simpl; [lia|]. rewrite Hc. specialize (IH n). lia.
Qed.

Lemma char_count_rev s : char_count (String.rev s) = char_count s.
Proof.
  assert (∀ a b, char_count (String.rev_app a b) = char_count a + char_count b) as H.
  { induction a as [|c a IH]; intros b; simpl; [done|]. rewrite IH. simpl. destruct (is_continuation c); lia. }
  unfold String.rev. rewrite H. simpl. lia.
Qed.

Lemma char_count_trim_end s : char_count (trim_end s) ≤ char_count s.
Proof.
  unfold trim_end. rewrite char_count_rev, <- (char_count_rev s).
  destruct (trim_start_rev_suffix (String.rev s)) as [p Hp]. rewrite Hp at 2. rewrite char_count_app. lia.
Qed.

(** Labels, completion reports, one-line summaries and truncated details never
    exceed their limits in characters, labels and reports are never empty, and a long body is
    refused without a one-line summary. *)
Theorem summaries_stay_within_their_limits :
  (∀ text label, derive_swarm_task_label text = Some label → label ≠ "" ∧ char_count label ≤ MAX_SWARM_TASK_LABEL_CHARS) ∧
  (∀ report text, normalize_completion_report report = Some text → text ≠ "" ∧
     char_count text ≤ MAX_SWARM_COMPLETION_REPORT_CHARS) ∧
  (∀ tldr body context t, validate_swarm_tldr tldr body context = Ok (Some t) → char_count t ≤ MAX_SWARM_TLDR_CHARS) ∧
  (∀ tldr body context, validate_swarm_tldr tldr body context = Ok None → char_count body ≤ SWARM_TLDR_REQUIRED_OVER_CHARS) ∧
  (∀ text max_len, char_count (truncate_detail text max_len) ≤ Nat.max max_len 1).
Proof.
  split_and!.
  - intros text label. unfold derive_swarm_task_label. destruct (find _ _) as [line|]; [|done]. cbv zeta.
    set (collapsed := collapse_whitespace _). destruct (is_empty collapsed) eqn:He; [done|].
    destruct (Nat.leb_spec (char_count collapsed) MAX_SWARM_TASK_LABEL_CHARS); intros [= <-].
    + split; [by intros Hc; rewrite Hc in He|done].
    + set (kept := take_chars _ collapsed). split.
      { intros Hc. apply (f_equal String.length) in Hc. rewrite str_length_app in Hc. simpl in Hc. lia. }
      rewrite char_count_app. pose proof (char_count_trim_end kept).
      assert (char_count kept ≤ 47) by apply char_count_take.
      change (char_count ellipsis) with 1. unfold MAX_SWARM_TASK_LABEL_CHARS in *. lia.
  - intros report text. unfold normalize_completion_report. destruct report as [r|]; [|done]. cbv zeta.
    destruct (is_empty (trim r)) eqn:He; [done|].
    destruct (Nat.leb_spec (char_count (trim r)) MAX_SWARM_COMPLETION_REPORT_CHARS); intros [= <-].
    + split; [by intros Hc; rewrite Hc in He|done].
    + split.
      { intros Hc. apply (f_equal String.length) in Hc. rewrite str_length_app in Hc. simpl in Hc. lia. }
      rewrite char_count_app. etrans; [apply Nat.add_le_mono_r, char_count_take|].
      apply Nat.leb_le. vm_compute. done.
  - intros tldr body context t. unfold validate_swarm_tldr. destruct (tldr ≫= _) as [t'|].
    + destruct (Nat.ltb_spec MAX_SWARM_TLDR_CHARS (char_count t')); [done|]. by intros [= <-].
    + by destruct (SWARM_TLDR_REQUIRED_OVER_CHARS <? _).
  - intros tldr body context. unfold validate_swarm_tldr. destruct (tldr ≫= _) as [t'|].
    + by destruct (MAX_SWARM_TLDR_CHARS <? _).
    + by destruct (Nat.ltb_spec SWARM_TLDR_REQUIRED_OVER_CHARS (char_count body)).
  - intros text max_len. unfold truncate_detail. cbv zeta. set (t := trim _).
    destruct (Nat.leb_spec (char_count t) (Nat.max max_len 1)); [done|].
    destruct (Nat.leb_spec (Nat.max max_len 1) 3); [apply char_count_take|].
    rewrite char_count_app. pose proof (char_count_take (Nat.max max_len 1 - 3) t). simpl. lia.
Qed.

(** ** Instructions *)

Lemma with_reminder_contains message marker body : contains_str marker (with_reminder message marker body) = true.
Proof.
  apply contains_str_spec. unfold with_reminder. set (out := trim_end message).
  exists ((if is_empty out then out else out +:+ newline +:+ newline) +:+ "<system-reminder>" +:+ newline),
    (body +:+ "</system-reminder>"). by rewrite !str_app_assoc.
Qed.

(** Everything but white space at the end of the message is kept, in front. *)
Lemma with_reminder_keeps message marker body :
  ∃ rest, with_reminder message marker body = trim_end message +:+ rest.
Proof.
  unfold with_reminder. destruct (is_empty _); rewrite ?str_app_assoc; eauto.
Qed.

(** The instructions for workers, deep nodes and gates are appended once:
    repeating any of them changes nothing, and a gate's instructions are not added to a message
    that has those of a deep node. *)
Theorem instructions_are_appended_once message id audited low :
  append_swarm_completion_report_instructions (append_swarm_completion_report_instructions message)
    = append_swarm_completion_report_instructions message ∧
  (∀ id', append_deep_node_instructions (append_deep_node_instructions message id) id'
    = append_deep_node_instructions message id) ∧
  (∀ id' audited' low', append_deep_gate_instructions (append_deep_gate_instructions message id audited low) id' audited' low'
    = append_deep_gate_instructions message id audited low) ∧
  append_deep_gate_instructions (append_deep_node_instructions message id) id audited low
    = append_deep_node_instructions message id.
Proof.
  assert (contains_str SWARM_DEEP_NODE_MARKER (append_deep_node_instructions message id) = true) as Hn.
  { unfold append_deep_node_instructions. destruct (contains_str _ message) eqn:Hm; [done|apply with_reminder_contains]. }
  split_and!.
  - unfold append_swarm_completion_report_instructions at 1 3.
    destruct (contains_str SWARM_COMPLETION_REPORT_MARKER message) eqn:Hm.
    + unfold append_swarm_completion_report_instructions. by rewrite !Hm.
    + unfold append_swarm_completion_report_instructions. by rewrite Hm, with_reminder_contains.
  - intros id'. unfold append_deep_node_instructions at 1. by rewrite Hn.
  - intros id' a l. unfold append_deep_gate_instructions at 1.
    assert (contains_str SWARM_DEEP_NODE_MARKER (append_deep_gate_instructions message id audited low) = true) as ->; [|done].
    unfold append_deep_gate_instructions. destruct (contains_str _ message) eqn:Hm; [done|apply with_reminder_contains].
  - unfold append_deep_gate_instructions. by rewrite Hn.
Qed.
