(* ===== verification/SwarmProgress.v ===== *)
(** * Progress of assigned work

    crates/jcode-app-core/src/server/swarm.rs on one plan: heartbeats, staleness, and the
    salvage of the assignments of a dead member.  Times are milliseconds. *)

From S2P Require Import Prelude RustStr RustText PlanTypes PlanCycle Plan PlanLemmas SwarmCore.

Definition set_status (status : string) (i : PlanItem) : PlanItem := {|
  i_content := i_content i; i_status := status; i_priority := i_priority i;
  i_id := i_id i; i_subsystem := i_subsystem i; i_file_scope := i_file_scope i;
  i_blocked_by := i_blocked_by i; i_assigned_to := i_assigned_to i |}.

Definition set_stale_since (t : option N) (p : SwarmTaskProgress) : SwarmTaskProgress := {|
  p_assigned_session_id := p_assigned_session_id p; p_assignment_summary := p_assignment_summary p;
  p_assigned_at_unix_ms := p_assigned_at_unix_ms p; p_started_at_unix_ms := p_started_at_unix_ms p;
  p_last_heartbeat_unix_ms := p_last_heartbeat_unix_ms p; p_last_detail := p_last_detail p;
  p_last_checkpoint_unix_ms := p_last_checkpoint_unix_ms p; p_checkpoint_summary := p_checkpoint_summary p;
  p_completed_at_unix_ms := p_completed_at_unix_ms p; p_stale_since_unix_ms := t;
  p_heartbeat_count := p_heartbeat_count p; p_checkpoint_count := p_checkpoint_count p;
  p_no_artifact_requeues := p_no_artifact_requeues p; p_dead_assignee_reclaims := p_dead_assignee_reclaims p |}.

(** [plan.task_progress.entry(id).or_default()]. *)
Definition progress_entry (p : VersionedPlan) (id : string) : SwarmTaskProgress :=
  default progress_default (v_task_progress p !! id).

(** The item with this id changed, its progress entry, and the version one up. *)
Definition revise (id : string) (f : PlanItem → PlanItem) (t : SwarmTaskProgress) (p : VersionedPlan) : VersionedPlan := {|
  v_items := update_first (λ i, bool_decide (i_id i = id)) f (v_items p);
  v_version := u64_succ (v_version p); v_participants := v_participants p;
  v_task_progress := <[id := t]> (v_task_progress p);
  v_mode := v_mode p; v_node_meta := v_node_meta p |}.

Definition set_progress (id : string) (t : SwarmTaskProgress) (p : VersionedPlan) : VersionedPlan := {|
  v_items := v_items p; v_version := v_version p; v_participants := v_participants p;
  v_task_progress := <[id := t]> (v_task_progress p);
  v_mode := v_mode p; v_node_meta := v_node_meta p |}.

Definition map_item (id : string) (f : PlanItem → PlanItem) (p : VersionedPlan) : VersionedPlan :=
  set_items (update_first (λ i, bool_decide (i_id i = id)) f (v_items p)) p.

(** ** Salvage *)

Record DeadMemberSalvage := {
  requeued_task_ids : list string;
  failed_task_ids : list string;
}.

Definition no_salvage : DeadMemberSalvage := {| requeued_task_ids := []; failed_task_ids := [] |}.

Definition salvage_is_empty (s : DeadMemberSalvage) : bool :=
  bool_decide (requeued_task_ids s = []) && bool_decide (failed_task_ids s = []).

Definition warning_sign : string := String "226" (String "154" (String "160" "")).

Definition describe (s : DeadMemberSalvage) (worker_label : string) : string :=
  join " "
    ([warning_sign +:+ " Worker " +:+ worker_label +:+ " died while holding swarm task assignment(s)."]
     ++ (if bool_decide (requeued_task_ids s = []) then []
         else ["Requeued for automatic re-dispatch: " +:+ join ", " (requeued_task_ids s) +:+ "."])
     ++ (if bool_decide (failed_task_ids s = []) then []
         else ["Marked failed (automatic reclaim cap reached): " +:+ join ", " (failed_task_ids s)
               +:+ ". Use retry or assign_task to redispatch explicitly."])
     ++ ["Queued tasks will be picked up by assign_next/run_plan; check plan_status for details."]).

Definition held_by (session_id : string) (i : PlanItem) : bool :=
  bool_decide (i_assigned_to i = Some session_id) && negb (is_terminal_status (i_status i)).

Definition failed_progress (now_ms : N) (session_id : string) (t : SwarmTaskProgress) : SwarmTaskProgress := {|
  p_assigned_session_id := None; p_assignment_summary := p_assignment_summary t;
  p_assigned_at_unix_ms := p_assigned_at_unix_ms t; p_started_at_unix_ms := p_started_at_unix_ms t;
  p_last_heartbeat_unix_ms := p_last_heartbeat_unix_ms t; p_last_detail := p_last_detail t;
  p_last_checkpoint_unix_ms := p_last_checkpoint_unix_ms t;
  p_checkpoint_summary := Some (truncate_detail
    ("failed: assigned worker " +:+ session_id +:+ " died and the automatic reclaim cap was reached") 120);
  p_completed_at_unix_ms := Some now_ms; p_stale_since_unix_ms := None;
  p_heartbeat_count := p_heartbeat_count t; p_checkpoint_count := p_checkpoint_count t;
  p_no_artifact_requeues := p_no_artifact_requeues t; p_dead_assignee_reclaims := p_dead_assignee_reclaims t |}.

(** One task of the dead member: failed at the cap, requeued below it. *)
Definition salvage_task (now_ms : N) (session_id : string) (state : VersionedPlan * DeadMemberSalvage) (task_id : string)
  : VersionedPlan * DeadMemberSalvage :=
  let '(plan, outcome) := state in
  if (MAX_DEAD_ASSIGNEE_RECLAIMS <=? reclaims plan task_id)%N then
    (revise task_id (λ i, set_assigned_to None (set_status "failed" i))
       (failed_progress now_ms session_id (progress_entry plan task_id)) plan,
     {| requeued_task_ids := requeued_task_ids outcome; failed_task_ids := failed_task_ids outcome ++ [task_id] |})
  else
    let '(reclaimed, plan') := reclaim_stranded_assignment plan task_id in
    if reclaimed then
      let plan' := map_item task_id (set_status "queued") plan' in
      (set_progress task_id (set_stale_since None (progress_entry plan' task_id)) plan',
       {| requeued_task_ids := requeued_task_ids outcome ++ [task_id]; failed_task_ids := failed_task_ids outcome |})
    else (plan', outcome).

Definition salvage_plan_assignments_of (now_ms : N) (session_id : string) (plan : VersionedPlan)
  : VersionedPlan * DeadMemberSalvage :=
  let assigned_ids := map i_id (List.filter (held_by session_id) (v_items plan)) in
  foldl (salvage_task now_ms session_id) (plan, no_salvage) assigned_ids.

(** ** Heartbeats *)

(** [Some(x)] keeps the field when the update is absent. *)
Definition or_keep {A} (new old : option A) : option A := match new with Some _ => new | None => old end.

Definition touched_progress (now_ms : N) (assigned_session_id detail checkpoint_summary : option string)
  (t : SwarmTaskProgress) : SwarmTaskProgress := {|
  p_assigned_session_id := or_keep assigned_session_id (p_assigned_session_id t);
  p_assignment_summary := p_assignment_summary t;
  p_assigned_at_unix_ms := p_assigned_at_unix_ms t; p_started_at_unix_ms := p_started_at_unix_ms t;
  p_last_heartbeat_unix_ms := Some now_ms;
  p_last_detail := or_keep ((λ d, truncate_detail d 120) <$> detail) (p_last_detail t);
  p_last_checkpoint_unix_ms := or_keep ((λ _, now_ms) <$> checkpoint_summary) (p_last_checkpoint_unix_ms t);
  p_checkpoint_summary := or_keep ((λ s, truncate_detail s 120) <$> checkpoint_summary) (p_checkpoint_summary t);
  p_completed_at_unix_ms := p_completed_at_unix_ms t; p_stale_since_unix_ms := p_stale_since_unix_ms t;
  p_heartbeat_count := Some (u64_succ (default 0%N (p_heartbeat_count t)));
  p_checkpoint_count := or_keep ((λ _, u64_succ (default 0%N (p_checkpoint_count t))) <$> checkpoint_summary)
    (p_checkpoint_count t);
  p_no_artifact_requeues := p_no_artifact_requeues t; p_dead_assignee_reclaims := p_dead_assignee_reclaims t |}.

(** The plan after a heartbeat, and whether it revived a stale task; the plan may not
    have the task. *)
Definition touch_task (now_ms : N) (task_id : string) (assigned_session_id detail checkpoint_summary : option string)
  (plan : VersionedPlan) : bool * VersionedPlan :=
  match find_item (v_items plan) task_id with
  | None => (false, plan)
  | Some item =>
      let t := touched_progress now_ms assigned_session_id detail checkpoint_summary (progress_entry plan task_id) in
      if bool_decide (i_status item = "running_stale") then
        (true, revise task_id (set_status "running") (set_stale_since None t) plan)
      else (false, set_progress task_id t plan)
  end.

(** ** Staleness *)

Definition last_sign (t : SwarmTaskProgress) : option N :=
  or_keep (p_last_heartbeat_unix_ms t) (or_keep (p_started_at_unix_ms t) (p_assigned_at_unix_ms t)).

Definition is_silent (now_ms stale_after_ms : N) (t : SwarmTaskProgress) : bool :=
  match last_sign t with Some ts => (stale_after_ms <=? now_ms - ts)%N | None => true end.

(** The items, the progress map and the version after looking at the items; the flag
    says whether any of them changed its status. *)
Fixpoint refresh_items (now_ms stale_after_ms : N) (items : list PlanItem) (progress : gmap string SwarmTaskProgress)
  (version : N) : list PlanItem * gmap string SwarmTaskProgress * N * bool :=
  match items with
  | [] => ([], progress, version, false)
  | item :: items =>
      if negb (mem (i_status item) ["running"; "running_stale"]) then
        let '(items, progress, version, changed) := refresh_items now_ms stale_after_ms items progress version in
        (item :: items, progress, version, changed)
      else
        let t := default progress_default (progress !! i_id item) in
        let silent := is_silent now_ms stale_after_ms t in
        let '(item', t', hit) :=
          if bool_decide (i_status item = "running") && silent then
            (set_status "running_stale" item, set_stale_since (or_keep (p_stale_since_unix_ms t) (Some now_ms)) t, true)
          else if bool_decide (i_status item = "running_stale") && negb silent then
            (set_status "running" item, set_stale_since None t, true)
          else (item, t, false) in
        let '(items, progress, version, changed) :=
          refresh_items now_ms stale_after_ms items (<[i_id item := t']> progress)
            (if hit then u64_succ version else version) in
        (item' :: items, progress, version, hit || changed)
  end.

Definition refresh_plan (now_ms stale_after_ms : N) (plan : VersionedPlan) : VersionedPlan * bool :=
  let '(items, progress, version, changed) :=
    refresh_items now_ms stale_after_ms (v_items plan) (v_task_progress plan) (v_version plan) in
  ({| v_items := items; v_version := version; v_participants := v_participants plan;
      v_task_progress := progress; v_mode := v_mode plan; v_node_meta := v_node_meta plan |}, changed).

(** ** Salvage, exactly *)

Definition at_cap (plan : VersionedPlan) (id : string) : bool := (MAX_DEAD_ASSIGNEE_RECLAIMS <=? reclaims plan id)%N.

(** What becomes of an assignment of the dead member. *)
Definition salvaged (capped : bool) (i : PlanItem) : PlanItem :=
  if capped then set_assigned_to None (set_status "failed" i) else set_status "queued" (set_assigned_to None i).

Lemma salvaged_id capped i : i_id (salvaged capped i) = i_id i.
Proof. by destruct capped. Qed.

Lemma map_salvaged_ids (P : PlanItem → bool) (capped : PlanItem → bool) items :
  map i_id (map (λ i, if P i then salvaged (capped i) i else i) items) = map i_id items.
Proof. rewrite map_map. apply map_ext. intros i. destruct (P i); [apply salvaged_id|done]. Qed.

Lemma reclaims_insert_ne id id' t p : id' ≠ id → default 0%N (<[id := t]> (v_task_progress p) !! id' ≫= p_dead_assignee_reclaims) = reclaims p id'.
Proof. intros H. unfold reclaims. by rewrite lookup_insert_ne. Qed.

Lemma reclaims_entry p id : default 0%N (p_dead_assignee_reclaims (progress_entry p id)) = reclaims p id.
Proof. unfold reclaims, progress_entry. by destruct (v_task_progress p !! id). Qed.

Lemma salvage_task_spec now s plan out id i :
  NoDup (map i_id (v_items plan)) → find_item (v_items plan) id = Some i → is_Some (i_assigned_to i) →
  let '(plan', out') := salvage_task now s (plan, out) id in
  v_items plan' = map (λ j, if bool_decide (i_id j = id) then salvaged (at_cap plan id) j else j) (v_items plan) ∧
  (∀ id', id' ≠ id → reclaims plan' id' = reclaims plan id') ∧
  reclaims plan' id = (if at_cap plan id then reclaims plan id else reclaims plan id + 1)%N ∧
  out' = (if at_cap plan id
          then {| requeued_task_ids := requeued_task_ids out; failed_task_ids := failed_task_ids out ++ [id] |}
          else {| requeued_task_ids := requeued_task_ids out ++ [id]; failed_task_ids := failed_task_ids out |}).
Proof.
  intros Hnd Hfind [a Ha]. unfold salvage_task. fold (at_cap plan id). destruct (at_cap plan id) eqn:Hcap.
  - split_and!; [by apply update_first_map|intros id' Hne; by apply reclaims_insert_ne| |done].
    unfold reclaims at 1. simpl. rewrite lookup_insert_eq. simpl. apply reclaims_entry.
  - unfold reclaim_stranded_assignment. rewrite Hfind, Ha. cbv zeta iota beta. split_and!; [| | |done].
    + simpl. rewrite !update_first_map; [|done|].
      * rewrite map_map. apply map_ext. intros j. destruct (decide (i_id j = id)) as [Hj|Hj].
        -- rewrite (bool_decide_eq_true_2 (i_id j = id)) by done. cbn [i_id set_assigned_to].
           by rewrite (bool_decide_eq_true_2 (i_id j = id)).
        -- by rewrite !(bool_decide_eq_false_2 (i_id j = id)).
      * rewrite update_first_map, map_map by done. by erewrite map_ext; [exact Hnd|]; intros j; case_bool_decide.
    + intros id' Hne. unfold reclaims at 1. simpl. by rewrite !lookup_insert_ne.
    + unfold reclaims at 1, progress_entry. simpl. rewrite !lookup_insert_eq. simpl.
      change (default 0%N (p_dead_assignee_reclaims (default progress_default (v_task_progress plan !! id))))
        with (default 0%N (p_dead_assignee_reclaims (progress_entry plan id))).
      rewrite reclaims_entry. unfold at_cap, MAX_DEAD_ASSIGNEE_RECLAIMS in Hcap. apply N.leb_gt in Hcap.
      unfold u32_succ. apply N.mod_small. lia.
Qed.

Lemma salvage_all now s ids plan out :
  NoDup (map i_id (v_items plan)) → NoDup ids →
  (∀ id, id ∈ ids → ∃ i, find_item (v_items plan) id = Some i ∧ is_Some (i_assigned_to i)) →
  let '(plan', out') := foldl (salvage_task now s) (plan, out) ids in
  v_items plan' = map (λ j, if mem (i_id j) ids then salvaged (at_cap plan (i_id j)) j else j) (v_items plan) ∧
  (∀ id, reclaims plan' id = if mem id ids && negb (at_cap plan id) then reclaims plan id + 1 else reclaims plan id)%N ∧
  requeued_task_ids out' = requeued_task_ids out ++ List.filter (λ id, negb (at_cap plan id)) ids ∧
  failed_task_ids out' = failed_task_ids out ++ List.filter (at_cap plan) ids.
Proof.
  revert plan out. induction ids as [|id ids IH]; intros plan out Hnd Hids Hall.
  { simpl. rewrite map_id, !app_nil_r. by split_and!. }
  cbn [foldl]. apply NoDup_cons in Hids as [Hid Hids].
  destruct (Hall id) as (i & Hfind & Hi); [by left|].
  pose proof (salvage_task_spec now s plan out id i Hnd Hfind Hi) as Hstep.
  destruct (salvage_task now s (plan, out) id) as [plan1 out1]. destruct Hstep as (Hitems & Hother & Hself & Hout).
  assert (map i_id (v_items plan1) = map i_id (v_items plan)) as Hsame.
  { rewrite Hitems. apply (map_salvaged_ids (λ j, bool_decide (i_id j = id)) (λ _, at_cap plan id)). }
  assert (∀ id', id' ∈ ids → at_cap plan1 id' = at_cap plan id') as Hcap.
  { intros id' Hin. unfold at_cap. rewrite Hother; [done|]. by intros ->. }
  specialize (IH plan1 out1). rewrite Hsame in IH. specialize (IH Hnd Hids).
  destruct (foldl (salvage_task now s) (plan1, out1) ids) as [plan' out'].
  destruct IH as (H1 & H2 & H3 & H4).
  { intros id' Hin. destruct (Hall id') as (j & Hj & Hja); [by right|]. exists j. split; [|done].
    apply find_item_Some in Hj as [Hj Hjid]. rewrite <- Hjid. apply find_item_NoDup; [by rewrite Hsame|].
    rewrite Hitems. apply list_elem_of_fmap. exists j. split; [|done].
    rewrite bool_decide_eq_false_2; [done|]. intros Heq. apply Hid. congruence. }
  assert (∀ x, mem x (id :: ids) = bool_decide (x = id) || mem x ids) as Hmem.
  { intros x. apply eq_true_iff_eq. by rewrite orb_true_iff, !mem_true, bool_decide_eq_true, elem_of_cons. }
  split_and!.
  - rewrite H1, Hitems, map_map. apply map_ext. intros j. rewrite Hmem. case_bool_decide as Hj; simpl.
    + rewrite salvaged_id, Hj, (proj2 (mem_false id ids) Hid). done.
    + destruct (mem (i_id j) ids) eqn:Hm; [|done]. apply mem_true in Hm. by rewrite Hcap.
  - intros x. rewrite H2, Hmem. case_bool_decide as Hx; simpl.
    + subst x. rewrite (proj2 (mem_false id ids) Hid). simpl. rewrite Hself. by destruct (at_cap plan id).
    + rewrite Hother by done. destruct (mem x ids) eqn:Hm; [|done]. apply mem_true in Hm. by rewrite Hcap.
  - rewrite H3, Hout. simpl. rewrite (List.filter_ext_in (λ x, negb (at_cap plan1 x)) (λ x, negb (at_cap plan x)))
      by (intros x Hx%list_elem_of_In; by rewrite Hcap).
    destruct (at_cap plan id); simpl; [done|by rewrite <- app_assoc].
  - rewrite H4, Hout. simpl. rewrite (List.filter_ext_in (at_cap plan1) (at_cap plan))
      by (intros x Hx%list_elem_of_In; by apply Hcap).
    destruct (at_cap plan id); simpl; [by rewrite <- app_assoc|done].
Qed.

Lemma filter_map_filter {A B} (f : B → bool) (h : A → B) (p : A → bool) (l : list A) :
  List.filter f (map h (List.filter p l)) = map h (List.filter (λ x, p x && f (h x)) l).
Proof.
  induction l as [|x l IH]; simpl; [done|]. destruct (p x); simpl; [|done].
  destruct (f (h x)); simpl; by rewrite IH.
Qed.

Lemma salvage_plan_spec now_ms session_id plan :
  NoDup (map i_id (v_items plan)) →
  let '(plan', outcome) := salvage_plan_assignments_of now_ms session_id plan in
  v_items plan'
    = map (λ i, if held_by session_id i then salvaged (at_cap plan (i_id i)) i else i) (v_items plan) ∧
  failed_task_ids outcome
    = map i_id (List.filter (λ i, held_by session_id i && at_cap plan (i_id i)) (v_items plan)) ∧
  requeued_task_ids outcome
    = map i_id (List.filter (λ i, held_by session_id i && negb (at_cap plan (i_id i))) (v_items plan)) ∧
  (∀ i, i ∈ v_items plan' → held_by session_id i = false) ∧
  (∀ id, reclaims plan' id = if mem id (requeued_task_ids outcome) then reclaims plan id + 1 else reclaims plan id)%N.
Proof.
  intros Hnd. unfold salvage_plan_assignments_of. set (held := List.filter (held_by session_id) (v_items plan)).
  assert (∀ i, i ∈ v_items plan → mem (i_id i) (map i_id held) = held_by session_id i) as Hmem.
  { intros i Hi. apply eq_true_iff_eq. rewrite mem_true, list_elem_of_fmap. split.
    - intros (j & Hid & Hj). apply elem_of_filterb in Hj as [Hj Hh].
      by rewrite (same_item (v_items plan) i j).
    - intros Hh. exists i. split; [done|]. by apply elem_of_filterb. }
  assert (∀ f, List.filter f (map i_id held) = map i_id (List.filter (λ i, held_by session_id i && f (i_id i)) (v_items plan))) as Hfilter.
  { intros f. apply filter_map_filter. }
  pose proof (salvage_all now_ms session_id (map i_id held) plan no_salvage Hnd) as H.
  destruct (foldl _ _ _) as [plan' out']. destruct H as (H1 & H2 & H3 & H4).
  { by apply NoDup_map_filterb. }
  { intros id (i & -> & Hi)%list_elem_of_fmap. apply elem_of_filterb in Hi as [Hi Hh]. exists i.
    split; [by apply find_item_NoDup|]. unfold held_by in Hh. apply andb_true_iff in Hh as [Hh _].
    apply bool_decide_eq_true in Hh. by rewrite Hh. }
  simpl in H3, H4. rewrite Hfilter in H3, H4.
  assert (v_items plan' = map (λ i, if held_by session_id i then salvaged (at_cap plan (i_id i)) i else i) (v_items plan)) as Hitems.
  { rewrite H1. apply map_ext_in. intros i Hi%list_elem_of_In. by rewrite Hmem. }
  split_and!; try done.
  - intros i Hi. rewrite Hitems in Hi. apply list_elem_of_fmap in Hi as (j & -> & Hj).
    destruct (held_by session_id j) eqn:Hh; [|done]. unfold held_by. by destruct (at_cap plan (i_id j)).
  - intros id. rewrite H2, H3.
    assert (mem id (map i_id held) && negb (at_cap plan id)
      = mem id (map i_id (List.filter (λ i, held_by session_id i && negb (at_cap plan (i_id i))) (v_items plan)))) as ->; [|done].
    apply eq_true_iff_eq. rewrite andb_true_iff, !mem_true, <- (Hfilter (λ id, negb (at_cap plan id))), elem_of_filterb. tauto.
Qed.

(** When a member dies, exactly the unfinished items assigned to it are
    released: requeued without an assignee while the item is below the cap of automatic
    reclaims, failed at the cap, and reported as such in plan order; every other item is
    untouched, nothing stays assigned to the member, and only the counters of the requeued items
    go up, by one. *)
Theorem salvage_releases_exactly_the_dead_members_work now_ms session_id plan :
  NoDup (map i_id (v_items plan)) →
  let '(plan', outcome) := salvage_plan_assignments_of now_ms session_id plan in
  v_items plan'
    = map (λ i, if held_by session_id i then salvaged (at_cap plan (i_id i)) i else i) (v_items plan) ∧
  failed_task_ids outcome
    = map i_id (List.filter (λ i, held_by session_id i && at_cap plan (i_id i)) (v_items plan)) ∧
  requeued_task_ids outcome
    = map i_id (List.filter (λ i, held_by session_id i && negb (at_cap plan (i_id i))) (v_items plan)) ∧
  (∀ i, i ∈ v_items plan' → held_by session_id i = false) ∧
  (∀ id, reclaims plan' id = if mem id (requeued_task_ids outcome) then reclaims plan id + 1 else reclaims plan id)%N.
Proof. apply salvage_plan_spec. Qed.

Lemma salvage_leaves_none_held now_ms session_id plan :
  NoDup (map i_id (v_items plan)) →
  ∀ i, i ∈ v_items (salvage_plan_assignments_of now_ms session_id plan).1 → held_by session_id i = false.
Proof.
  intros Hnd. pose proof (salvage_plan_spec now_ms session_id plan Hnd) as H.
  destruct (salvage_plan_assignments_of _ _ _). by destruct H as (_ & _ & _ & H & _).
Qed.

(** The counter of automatic reclaims never passes the cap. *)
Lemma salvage_respects_the_cap now_ms session_id plan :
  NoDup (map i_id (v_items plan)) → (∀ id, reclaims plan id ≤ MAX_DEAD_ASSIGNEE_RECLAIMS)%N →
  ∀ id, (reclaims (salvage_plan_assignments_of now_ms session_id plan).1 id ≤ MAX_DEAD_ASSIGNEE_RECLAIMS)%N.
Proof.
  intros Hnd Hcap id. pose proof (salvage_plan_spec now_ms session_id plan Hnd) as H.
  destruct (salvage_plan_assignments_of _ _ _) as [plan' out]. destruct H as (_ & _ & Hr & _ & Hcount). simpl.
  rewrite Hcount. destruct (mem id _) eqn:Hm; [|done]. rewrite Hr in Hm. apply mem_true in Hm.
  apply list_elem_of_fmap in Hm as (i & -> & Hi). apply elem_of_filterb in Hi as [_ Hi].
  apply andb_true_iff in Hi as [_ Hi]. apply negb_true_iff, N.leb_gt in Hi. lia.
Qed.

(** ** Staleness, exactly *)

Definition is_in_flight (i : PlanItem) : bool := mem (i_status i) ["running"; "running_stale"].

Definition refreshed (now_ms stale_after_ms : N) (progress : gmap string SwarmTaskProgress) (i : PlanItem) : PlanItem :=
  if is_in_flight i then
    set_status (if is_silent now_ms stale_after_ms (default progress_default (progress !! i_id i))
                then "running_stale" else "running") i
  else i.

(** Progress maps that tell the same about every task's last sign of life. *)
Definition same_signs (a b : gmap string SwarmTaskProgress) : Prop :=
  ∀ id, last_sign (default progress_default (a !! id)) = last_sign (default progress_default (b !! id)).

Lemma same_signs_refreshed now stale a b i : same_signs a b → refreshed now stale a i = refreshed now stale b i.
Proof. intros H. unfold refreshed, is_silent. by rewrite H. Qed.

Lemma same_signs_insert m id t :
  last_sign t = last_sign (default progress_default (m !! id)) → same_signs (<[id := t]> m) m.
Proof.
  intros H id'. destruct (decide (id' = id)) as [->|Hne]; [by rewrite lookup_insert_eq|by rewrite lookup_insert_ne].
Qed.

Lemma last_sign_set_stale s t : last_sign (set_stale_since s t) = last_sign t.
Proof. done. Qed.

Lemma set_status_same i : set_status (i_status i) i = i.
Proof. by destruct i. Qed.

Lemma set_status_ne s i : i_status i ≠ s → set_status s i ≠ i.
Proof. intros H Heq. apply H. by rewrite <- Heq. Qed.

Lemma refresh_items_spec now stale items progress version :
  let '(items', progress', version', changed) := refresh_items now stale items progress version in
  items' = map (refreshed now stale progress) items ∧ same_signs progress' progress ∧
  changed = negb (bool_decide (items' = items)) ∧ (changed = false → version' = version).
Proof.
  revert progress version. induction items as [|i items IH]; intros progress version; [done|].
  cbn [refresh_items map]. unfold refreshed at 1, is_in_flight.
  destruct (mem (i_status i) ["running"; "running_stale"]) eqn:Hin; cbn [negb].
  - set (t := default progress_default (progress !! i_id i)). fold t.
    set (silent := is_silent now stale t).
    assert (∃ i' t' hit,
      (if bool_decide (i_status i = "running") && silent then
         (set_status "running_stale" i, set_stale_since (or_keep (p_stale_since_unix_ms t) (Some now)) t, true)
       else if bool_decide (i_status i = "running_stale") && negb silent then
         (set_status "running" i, set_stale_since None t, true)
       else (i, t, false)) = (i', t', hit) ∧
      i' = set_status (if silent then "running_stale" else "running") i ∧ last_sign t' = last_sign t ∧
      hit = negb (bool_decide (i' = i))) as (i' & t' & hit & -> & Hi' & Ht' & Hhit).
    { apply mem_true in Hin. rewrite !elem_of_cons, elem_of_nil in Hin.
      assert (∀ s, i_status i = s → set_status s i = i) as Hsame by (intros s <-; apply set_status_same).
      destruct Hin as [Hs|[Hs|[]]]; rewrite Hs; destruct silent; simpl.
      - do 3 eexists. split_and!; try done. rewrite bool_decide_eq_false_2; [done|].
        apply set_status_ne. by rewrite Hs.
      - do 3 eexists. split_and!; try done; [by rewrite Hsame|by rewrite bool_decide_eq_true_2].
      - do 3 eexists. split_and!; try done; [by rewrite Hsame|by rewrite bool_decide_eq_true_2].
      - do 3 eexists. split_and!; try done. rewrite bool_decide_eq_false_2; [done|].
        apply set_status_ne. by rewrite Hs. }
    specialize (IH (<[i_id i := t']> progress) (if hit then u64_succ version else version)).
    destruct (refresh_items _ _ items _ _) as [[[items' progress'] version'] changed].
    destruct IH as (Hitems & Hsigns & Hchanged & Hversion).
    assert (same_signs (<[i_id i := t']> progress) progress) as Hins by (by apply same_signs_insert).
    split_and!.
    + rewrite Hitems, <- Hi'. f_equal. apply map_ext. intros j. by apply same_signs_refreshed.
    + intros id. by rewrite Hsigns, Hins.
    + rewrite Hhit, Hchanged. apply eq_true_iff_eq. rewrite orb_true_iff, !negb_true_iff, !bool_decide_eq_false.
      destruct (decide (i' = i)) as [->|]; [|naive_solver]. destruct (decide (items' = items)) as [->|]; naive_solver.
    + intros Hno. apply orb_false_iff in Hno as [-> Hno]. by apply Hversion.
  - specialize (IH progress version). destruct (refresh_items _ _ items _ _) as [[[items' progress'] version'] changed].
    destruct IH as (Hitems & Hsigns & Hchanged & Hversion). split_and!; [by rewrite Hitems|done| |done].
    rewrite Hchanged. f_equal. apply bool_decide_ext. split; [by intros ->|by intros [=]].
Qed.

Lemma refresh_plan_spec now_ms stale_after_ms plan :
  let '(plan', changed) := refresh_plan now_ms stale_after_ms plan in
  v_items plan' = map (refreshed now_ms stale_after_ms (v_task_progress plan)) (v_items plan) ∧
  (changed = true ↔ v_items plan' ≠ v_items plan) ∧ (changed = false → v_version plan' = v_version plan) ∧
  (∀ i, i ∈ v_items plan' → is_in_flight i = true →
     (i_status i = "running_stale" ↔
      is_silent now_ms stale_after_ms (progress_entry plan' (i_id i)) = true)) ∧
  (refresh_plan now_ms stale_after_ms plan').2 = false.
Proof.
  pose proof (refresh_items_spec now_ms stale_after_ms (v_items plan) (v_task_progress plan) (v_version plan)) as H.
  unfold refresh_plan at 1. destruct (refresh_items _ _ _ _ _) as [[[items progress] version] changed].
  destruct H as (Hitems & Hsigns & Hchanged & Hversion). cbn [v_items v_version].
  assert (∀ j, is_in_flight (refreshed now_ms stale_after_ms (v_task_progress plan) j) = is_in_flight j) as Hfl.
  { intros j. unfold refreshed. destruct (is_in_flight j) eqn:Hj; [|done]. by destruct (is_silent _ _ _). }
  assert (∀ j, refreshed now_ms stale_after_ms progress (refreshed now_ms stale_after_ms (v_task_progress plan) j)
               = refreshed now_ms stale_after_ms (v_task_progress plan) j) as Hidem.
  { intros j. rewrite (same_signs_refreshed _ _ _ _ _ Hsigns). unfold refreshed at 1. rewrite Hfl. unfold refreshed.
    destruct (is_in_flight j); [|done]. done. }
  split_and!.
  - done.
  - rewrite Hchanged, negb_true_iff, bool_decide_eq_false. done.
  - done.
  - intros i Hi Hf. rewrite Hitems in Hi. apply list_elem_of_fmap in Hi as (j & -> & Hj).
    rewrite Hfl in Hf. unfold progress_entry. cbn [v_task_progress]. unfold refreshed, is_silent. rewrite Hf.
    cbn [i_id i_status set_status]. rewrite Hsigns. by destruct (match last_sign _ with Some _ => _ | None => _ end).
  - unfold refresh_plan. cbn [v_items v_task_progress v_version].
    pose proof (refresh_items_spec now_ms stale_after_ms items progress version) as H2.
    destruct (refresh_items _ _ _ _ _) as [[[items2 progress2] version2] changed2].
    destruct H2 as (Hitems2 & _ & Hc2 & _). simpl. rewrite Hc2, bool_decide_eq_true_2; [done|].
    rewrite Hitems2, Hitems, map_map. apply map_ext. intros j. apply Hidem.
Qed.

(** After a sweep an item in flight is marked stale exactly when its last
    heartbeat, start or assignment is too long ago; nothing but that mark changes, the version
    moves only with a mark, the sweep reports exactly whether it marked anything, and sweeping
    again at the same time does nothing. *)
Theorem staleness_follows_the_last_sign_of_life now_ms stale_after_ms plan :
  let '(plan', changed) := refresh_plan now_ms stale_after_ms plan in
  v_items plan' = map (refreshed now_ms stale_after_ms (v_task_progress plan)) (v_items plan) ∧
  (changed = true ↔ v_items plan' ≠ v_items plan) ∧ (changed = false → v_version plan' = v_version plan) ∧
  (∀ i, i ∈ v_items plan' → is_in_flight i = true →
     (i_status i = "running_stale" ↔
      is_silent now_ms stale_after_ms (progress_entry plan' (i_id i)) = true)) ∧
  (refresh_plan now_ms stale_after_ms plan').2 = false.
Proof. apply refresh_plan_spec. Qed.

(** A heartbeat is a sign of life: the next look at the plan leaves the task running. *)
Lemma heartbeat_keeps_a_task_running now_ms later stale_after_ms id session detail summary plan :
  NoDup (map i_id (v_items plan)) → (now_ms ≤ later < now_ms + stale_after_ms)%N →
  let plan' := (touch_task now_ms id session detail summary plan).2 in
  ∀ i, i ∈ v_items (refresh_plan later stale_after_ms plan').1 → i_id i = id → i_status i ≠ "running_stale".
Proof.
  intros Hnd Hlater plan' i Hi Hid Hs.
  pose proof (refresh_plan_spec later stale_after_ms plan') as H.
  destruct (refresh_plan later stale_after_ms plan') as [plan2 changed]. destruct H as (Hitems & _ & _ & _ & _).
  simpl in Hi. rewrite Hitems in Hi. apply list_elem_of_fmap in Hi as (j & -> & Hj).
  assert (i_id j = id) as Hjid by (unfold refreshed in Hid; by destruct (is_in_flight j)).
  assert (is_silent later stale_after_ms (default progress_default (v_task_progress plan' !! id)) = false) as Hlive.
  { unfold plan', touch_task in *. destruct (find_item (v_items plan) id) as [item|] eqn:Hf.
    - unfold is_silent. assert (stale_after_ms <=? later - now_ms = false)%N as Hle by (apply N.leb_gt; lia).
      destruct (bool_decide _); simpl; rewrite lookup_insert_eq; simpl; done.
    - exfalso. apply find_item_None in Hf. apply Hf, elem_of_item_ids. eauto. }
  unfold refreshed in Hs. rewrite Hjid, Hlive in Hs. destruct (is_in_flight j) eqn:Hfl; [done|].
  unfold is_in_flight in Hfl. rewrite Hs in Hfl. done.
Qed.

Definition sample_item (id status : string) (assigned : option string) : PlanItem := {|
  i_content := "c"; i_status := status; i_priority := "medium"; i_id := id; i_subsystem := None;
  i_file_scope := []; i_blocked_by := []; i_assigned_to := assigned |}.

Definition sample_plan : VersionedPlan := {|
  v_items := [sample_item "a" "running" (Some "s"); sample_item "b" "queued" (Some "s");
              sample_item "c" "completed" (Some "s"); sample_item "d" "running" (Some "t")];
  v_version := 4; v_participants := ∅;
  v_task_progress := {["b" := set_reclaims (Some 3%N) None progress_default]};
  v_mode := "light"; v_node_meta := ∅ |}.

Lemma salvage_releases_exactly_the_dead_members_work_witness :
  map (λ i, (i_status i, i_assigned_to i)) (v_items (salvage_plan_assignments_of 9 "s" sample_plan).1)
  = [("queued", None); ("failed", None); ("completed", Some "s"); ("running", Some "t")].
Proof.
  pose proof (salvage_releases_exactly_the_dead_members_work 9 "s" sample_plan ltac:(by apply (bool_decide_eq_true_1 _); vm_compute)) as H.
  destruct (salvage_plan_assignments_of 9 "s" sample_plan) as [plan' out]. destruct H as [H _]. simpl fst. rewrite H.
  reflexivity.
Defined.
