(* ===== verification/SwarmMembers.v ===== *)
(** * Members of a swarm

    crates/jcode-app-core/src/server/swarm.rs: the spawn tree, the lifecycle of members
    and who is told about it, and what is repaired when a member leaves.  The tables
    that the server keeps behind locks are one state, [SwarmState]; a handler is a
    function on it, and the messages it sends to sessions are queued in an outbox.
    Client connections, persistence, broadcasts of snapshots and logging do not change
    the tables and are left out.  Times are milliseconds. *)

From S2P Require Import Prelude RustStr RustText PlanTypes Plan SwarmCore SwarmProgress.

Record SwarmMember := {
  m_session_id : string;
  m_swarm_id : option string;
  m_status : string;
  m_detail : option string;
  m_task_label : option string;
  m_friendly_name : option string;
  m_report_back_to : option string;
  m_latest_completion_report : option string;
  m_role : string;
  m_joined_at : N;
  m_last_status_change : N;
  m_is_headless : bool;
  m_output_tail : option string;
  m_elapsed_secs : option N;
}.

Abbreviation Members := (gmap string SwarmMember).

(** A notification to a session. *)
Record Notice := {
  n_to : string;
  n_from : string;
  n_from_name : option string;
  n_tldr : option string;
  n_message : string;
}.

(** A status change in the event history. *)
Record StatusEvent := {
  ev_id : N;
  ev_session_id : string;
  ev_session_name : option string;
  ev_swarm_id : option string;
  ev_old_status : string;
  ev_new_status : string;
}.

Record SwarmState := {
  ss_members : Members;
  ss_swarms : gmap string (gset string);
  ss_coordinators : gmap string string;
  ss_plans : gmap string VersionedPlan;
  ss_history : list StatusEvent;
  ss_event_counter : N;
  ss_outbox : list Notice;
}.

(** ** Field updates *)

Definition with_members (f : Members → Members) (s : SwarmState) : SwarmState := {|
  ss_members := f (ss_members s); ss_swarms := ss_swarms s; ss_coordinators := ss_coordinators s;
  ss_plans := ss_plans s; ss_history := ss_history s; ss_event_counter := ss_event_counter s; ss_outbox := ss_outbox s |}.

Definition with_swarms (f : gmap string (gset string) → gmap string (gset string)) (s : SwarmState) : SwarmState := {|
  ss_members := ss_members s; ss_swarms := f (ss_swarms s); ss_coordinators := ss_coordinators s;
  ss_plans := ss_plans s; ss_history := ss_history s; ss_event_counter := ss_event_counter s; ss_outbox := ss_outbox s |}.

Definition with_coordinators (f : gmap string string → gmap string string) (s : SwarmState) : SwarmState := {|
  ss_members := ss_members s; ss_swarms := ss_swarms s; ss_coordinators := f (ss_coordinators s);
  ss_plans := ss_plans s; ss_history := ss_history s; ss_event_counter := ss_event_counter s; ss_outbox := ss_outbox s |}.

Definition with_plans (f : gmap string VersionedPlan → gmap string VersionedPlan) (s : SwarmState) : SwarmState := {|
  ss_members := ss_members s; ss_swarms := ss_swarms s; ss_coordinators := ss_coordinators s;
  ss_plans := f (ss_plans s); ss_history := ss_history s; ss_event_counter := ss_event_counter s; ss_outbox := ss_outbox s |}.

Definition send (n : Notice) (s : SwarmState) : SwarmState := {|
  ss_members := ss_members s; ss_swarms := ss_swarms s; ss_coordinators := ss_coordinators s;
  ss_plans := ss_plans s; ss_history := ss_history s; ss_event_counter := ss_event_counter s;
  ss_outbox := ss_outbox s ++ [n] |}.

Definition set_role (role : string) (m : SwarmMember) : SwarmMember := {|
  m_session_id := m_session_id m; m_swarm_id := m_swarm_id m; m_status := m_status m; m_detail := m_detail m;
  m_task_label := m_task_label m; m_friendly_name := m_friendly_name m; m_report_back_to := m_report_back_to m;
  m_latest_completion_report := m_latest_completion_report m; m_role := role; m_joined_at := m_joined_at m;
  m_last_status_change := m_last_status_change m; m_is_headless := m_is_headless m;
  m_output_tail := m_output_tail m; m_elapsed_secs := m_elapsed_secs m |}.

Definition set_report_back (owner : option string) (m : SwarmMember) : SwarmMember := {|
  m_session_id := m_session_id m; m_swarm_id := m_swarm_id m; m_status := m_status m; m_detail := m_detail m;
  m_task_label := m_task_label m; m_friendly_name := m_friendly_name m; m_report_back_to := owner;
  m_latest_completion_report := m_latest_completion_report m; m_role := m_role m; m_joined_at := m_joined_at m;
  m_last_status_change := m_last_status_change m; m_is_headless := m_is_headless m;
  m_output_tail := m_output_tail m; m_elapsed_secs := m_elapsed_secs m |}.

Definition set_label (label : option string) (m : SwarmMember) : SwarmMember := {|
  m_session_id := m_session_id m; m_swarm_id := m_swarm_id m; m_status := m_status m; m_detail := m_detail m;
  m_task_label := label; m_friendly_name := m_friendly_name m; m_report_back_to := m_report_back_to m;
  m_latest_completion_report := m_latest_completion_report m; m_role := m_role m; m_joined_at := m_joined_at m;
  m_last_status_change := m_last_status_change m; m_is_headless := m_is_headless m;
  m_output_tail := m_output_tail m; m_elapsed_secs := m_elapsed_secs m |}.

(** ** The spawn tree *)

Definition parent_of (members : Members) (session_id : string) : option string :=
  members !! session_id ≫= m_report_back_to.

(** The walk up the report-back chain; every step visits a new session. *)
Fixpoint ancestors_loop (fuel : nat) (members : Members) (visited : gset string) (current : string) : list string :=
  match fuel with
  | O => []
  | S fuel =>
      match parent_of members current with
      | None => []
      | Some parent =>
          if bool_decide (parent = current) || bool_decide (parent ∈ visited) then []
          else parent :: ancestors_loop fuel members ({[parent]} ∪ visited) parent
      end
  end.

Definition swarm_ancestors (members : Members) (session_id : string) : list string :=
  ancestors_loop (S (size members)) members {[session_id]} session_id.

Definition swarm_spawn_depth (members : Members) (session_id : string) : nat :=
  length (swarm_ancestors members session_id).

Definition swarm_is_self_or_ancestor (members : Members) (ancestor session_id : string) : bool :=
  bool_decide (ancestor = session_id) || mem ancestor (swarm_ancestors members session_id).

(** ** Lifecycle *)

Definition member_status_is_terminal (status : string) : bool :=
  mem status ["completed"; "done"; "failed"; "stopped"; "crashed"; "closed"; "disconnected"].

Definition member_status_is_dead (status : string) : bool := mem status ["failed"; "stopped"; "crashed"].

Definition elapsed (now : N) (m : SwarmMember) : N := (now - m_last_status_change m)%N.

Definition member_in_status_broadcast (now retention : N) (m : SwarmMember) : bool :=
  negb (member_status_is_terminal (m_status m)) || (elapsed now m <? retention)%N.

Definition member_consumes_swarm_capacity (m : SwarmMember) : bool := negb (member_status_is_terminal (m_status m)).

Definition expired_terminal_member_ids (now retention : N) (members : Members) : list string :=
  map m_session_id
    (List.filter (λ m, member_status_is_terminal (m_status m) && (retention <=? elapsed now m)%N) (map_to_list members).*2).

Definition reapable (now idle_after : N) (m : SwarmMember) : bool :=
  bool_decide (is_Some (m_report_back_to m)) && bool_decide (m_role m ≠ "coordinator")
  && (bool_decide (m_status m = "ready") || member_status_is_terminal (m_status m))
  && (idle_after <=? elapsed now m)%N.

Definition idle_spawned_worker_reap_candidates (now idle_after : N) (members : Members) : list string :=
  map m_session_id (List.filter (reapable now idle_after) (map_to_list members).*2).

(** [value.trim().parse::<u64>().ok()]. *)
Definition parse_u64 (s : string) : option N :=
  let digits := default s (strip_prefix "+" s) in
  match digits with
  | EmptyString => None
  | _ => digits_value 0 digits ≫= λ n, if (n <? 2 ^ 64)%N then Some n else None
  end.

Definition configured_positive_u64 (env : string → option string) (name : string) (fallback : N) : N :=
  match env name ≫= λ v, parse_u64 (trim v) with
  | Some n => if (0 <? n)%N then n else fallback
  | None => fallback
  end.

Definition swarm_task_stale_after_ms (env : string → option string) : N :=
  configured_positive_u64 env "JCODE_SWARM_TASK_STALE_AFTER_SECS" 45 * 1000.

Definition swarm_idle_worker_reap_after_ms (env : string → option string) : option N :=
  let secs := default 1800%N (env "JCODE_SWARM_IDLE_WORKER_REAP_SECS" ≫= λ v, parse_u64 (trim v)) in
  if (0 <? secs)%N then Some (secs * 1000)%N else None.

(** ** Salvage in a swarm *)

(** [name.unwrap_or(&session_id[..8])]. *)
Definition name_or_id (name : option string) (session_id : string) : string :=
  match name with Some n => n | None => String.substring 0 (Nat.min 8 (String.length session_id)) session_id end.

Definition notify_coordinator_of_salvage (session_id swarm_id : string) (outcome : DeadMemberSalvage) (s : SwarmState)
  : SwarmState :=
  match ss_coordinators s !! swarm_id with
  | None => s
  | Some coordinator_id =>
      if bool_decide (coordinator_id = session_id) then s
      else
        let label := name_or_id (ss_members s !! session_id ≫= m_friendly_name) session_id in
        send {| n_to := coordinator_id; n_from := session_id; n_from_name := Some label; n_tldr := None;
                n_message := describe outcome label |} s
  end.

Definition salvage_assignments_of_dead_member (now_ms : N) (session_id swarm_id : string) (s : SwarmState) : SwarmState :=
  match ss_plans s !! swarm_id with
  | None => s
  | Some plan =>
      let '(plan', outcome) := salvage_plan_assignments_of now_ms session_id plan in
      let s' := with_plans <[swarm_id := plan']> s in
      if salvage_is_empty outcome then s' else notify_coordinator_of_salvage session_id swarm_id outcome s'
  end.

(** The sweep: mark silent tasks, then salvage the work of assignees that are gone. *)
Definition in_flight_or_queued (i : PlanItem) : bool := mem (i_status i) ["running"; "running_stale"; "queued"].

Definition assignee_of (plan : VersionedPlan) (i : PlanItem) : option string :=
  or_keep (i_assigned_to i) (v_task_progress plan !! i_id i ≫= p_assigned_session_id).

Definition assignee_is_dead (now_ms grace : N) (members : Members) (assignee : string) : bool :=
  match members !! assignee with
  | None => true
  | Some m => member_status_is_dead (m_status m) && (grace <=? elapsed now_ms m)%N
  end.

Definition dead_assignees (now_ms grace : N) (members : Members) (plan : VersionedPlan) : gset string :=
  list_to_set (List.filter (assignee_is_dead now_ms grace members)
    (omap (assignee_of plan) (List.filter in_flight_or_queued (v_items plan)))).

Definition salvage_candidates (now_ms grace : N) (s : SwarmState) : list (string * string) :=
  map_to_list (ss_plans s) ≫= λ '(swarm_id, plan),
    (swarm_id,.) <$> elements (dead_assignees now_ms grace (ss_members s) plan).

Definition refresh_swarm_task_staleness (env : string → option string) (now_ms : N) (s : SwarmState) : SwarmState :=
  let stale_after := swarm_task_stale_after_ms env in
  let s := with_plans (fmap (λ plan, (refresh_plan now_ms stale_after plan).1)) s in
  foldl (λ s '(swarm_id, session_id), salvage_assignments_of_dead_member now_ms session_id swarm_id s) s
    (salvage_candidates now_ms stale_after s).

Definition touch_swarm_task_progress (now_ms : N) (swarm_id task_id : string)
  (assigned_session_id detail checkpoint_summary : option string) (s : SwarmState) : bool * SwarmState :=
  match ss_plans s !! swarm_id with
  | None => (false, s)
  | Some plan =>
      let '(revived, plan') := touch_task now_ms task_id assigned_session_id detail checkpoint_summary plan in
      (revived, with_plans <[swarm_id := plan']> s)
  end.

(** ** Leaving *)

Definition set_participants (f : gset string → gset string) (p : VersionedPlan) : VersionedPlan := {|
  v_items := v_items p; v_version := v_version p; v_participants := f (v_participants p);
  v_task_progress := v_task_progress p; v_mode := v_mode p; v_node_meta := v_node_meta p |}.

Definition rename_plan_participant (swarm_id old_session_id new_session_id : string) : SwarmState → SwarmState :=
  with_plans (alter (rename_session old_session_id new_session_id) swarm_id).

Definition remove_plan_participant (swarm_id session_id : string) : SwarmState → SwarmState :=
  with_plans (alter (set_participants (λ ps, ps ∖ {[session_id]})) swarm_id).

Definition leave_swarm (swarm_id session_id : string) (swarms : gmap string (gset string)) : gmap string (gset string) :=
  match swarms !! swarm_id with
  | None => swarms
  | Some swarm =>
      let rest := swarm ∖ {[session_id]} in
      if bool_decide (rest = ∅) then delete swarm_id swarms else <[swarm_id := rest]> swarms
  end.

(** The least id ([Iterator::min]) of the members that are not headless. *)
Definition electable (members : Members) (swarm : gset string) : list string :=
  List.filter (λ id, match members !! id with Some m => negb (m_is_headless m) | None => false end)
    (merge_sort String.le (elements swarm)).

Definition elect_coordinator (swarm_id : string) (s : SwarmState) : SwarmState :=
  let chosen := ss_swarms s !! swarm_id ≫= λ swarm, head (electable (ss_members s) swarm) in
  let s := with_coordinators (delete swarm_id) s in
  match chosen with
  | None => s
  | Some new_id =>
      let s := with_coordinators <[swarm_id := new_id]> s in
      let s := with_members (alter (set_role "coordinator") new_id) s in
      let s := with_plans (alter (set_participants (λ ps, {[new_id]} ∪ ps)) swarm_id) s in
      match ss_members s !! new_id with
      | None => s
      | Some m => send {| n_to := new_id; n_from := new_id; n_from_name := m_friendly_name m; n_tldr := None;
                          n_message := "You are now the coordinator for this swarm." |} s
      end
  end.

Definition is_member_of (members : Members) (swarm_id session_id : string) : bool :=
  match members !! session_id with Some m => bool_decide (m_swarm_id m = Some swarm_id) | None => false end.

(** Where the children of a leaving member go: to its own parent while that is a member
    of the swarm, else to the coordinator. *)
Definition fallback_parent (session_id swarm_id : string) (departing_parent : option string) (s : SwarmState) : option string :=
  let grandparent_is_live :=
    match departing_parent with
    | Some parent => bool_decide (parent ≠ session_id) && is_member_of (ss_members s) swarm_id parent
    | None => false
    end in
  if grandparent_is_live then departing_parent
  else match ss_coordinators s !! swarm_id with
       | Some coordinator => if bool_decide (coordinator = session_id) then None else Some coordinator
       | None => None
       end.

Definition reparent (session_id swarm_id : string) (owner : option string) (m : SwarmMember) : SwarmMember :=
  if bool_decide (m_swarm_id m = Some swarm_id) && bool_decide (m_report_back_to m = Some session_id) then
    set_report_back (match owner with
                     | Some parent => if bool_decide (parent = m_session_id m) then None else Some parent
                     | None => None
                     end) m
  else m.

Definition remove_session_from_swarm (now_ms : N) (session_id swarm_id : string) (s : SwarmState) : SwarmState :=
  let departing_parent := parent_of (ss_members s) session_id in
  let s := salvage_assignments_of_dead_member now_ms session_id swarm_id s in
  let s := remove_plan_participant swarm_id session_id s in
  let s := with_swarms (leave_swarm swarm_id session_id) s in
  let was_coordinator := bool_decide (ss_coordinators s !! swarm_id = Some session_id) in
  let s := if was_coordinator then elect_coordinator swarm_id s else s in
  let s := with_members (alter (set_role "agent") session_id) s in
  let owner := fallback_parent session_id swarm_id departing_parent s in
  with_members (fmap (reparent session_id swarm_id owner)) s.

(** ** Labels and status *)

Definition set_member_task_label (session_id task_text : string) (s : SwarmState) : SwarmState :=
  match derive_swarm_task_label task_text with
  | None => s
  | Some label => with_members (alter (set_label (Some label)) session_id) s
  end.

Definition MAX_EVENT_HISTORY : N := 5000.

(** The newest events, at most [MAX_EVENT_HISTORY] of them. *)
Definition push_event (history : list StatusEvent) (e : StatusEvent) : list StatusEvent :=
  let history := history ++ [e] in
  if (MAX_EVENT_HISTORY <? N.of_nat (length history))%N then tail history else history.

Definition record_status_event (session_id : string) (name swarm_id : option string) (old new : string) (s : SwarmState)
  : SwarmState := {|
  ss_members := ss_members s; ss_swarms := ss_swarms s; ss_coordinators := ss_coordinators s; ss_plans := ss_plans s;
  ss_history := push_event (ss_history s) {|
    ev_id := ss_event_counter s; ev_session_id := session_id; ev_session_name := name; ev_swarm_id := swarm_id;
    ev_old_status := old; ev_new_status := new |};
  ss_event_counter := u64_succ (ss_event_counter s); ss_outbox := ss_outbox s |}.

Definition is_working (status : string) : bool := mem status ["running"; "streaming"; "thinking"].

Definition is_idle_or_over (status : string) : bool :=
  mem status ["ready"; "completed"; "done"; "failed"; "crashed"; "stopped"].

Definition updated_member (now : N) (status : string) (detail report : option string) (m : SwarmMember) : SwarmMember :=
  let status_changed := bool_decide (m_status m ≠ status) in {|
  m_session_id := m_session_id m; m_swarm_id := m_swarm_id m; m_status := status; m_detail := detail;
  m_task_label := m_task_label m; m_friendly_name := m_friendly_name m; m_report_back_to := m_report_back_to m;
  m_latest_completion_report := or_keep report (m_latest_completion_report m); m_role := m_role m;
  m_joined_at := m_joined_at m;
  m_last_status_change := if status_changed then now else m_last_status_change m;
  m_is_headless := m_is_headless m;
  m_output_tail := if is_idle_or_over status then None else m_output_tail m;
  m_elapsed_secs :=
    if status_changed then
      if is_working status then None
      else if is_working (m_status m) then Some ((now - m_joined_at m) / 1000)%N else m_elapsed_secs m
    else m_elapsed_secs m |}.

Definition member_changed (status : string) (detail report : option string) (m : SwarmMember) : bool :=
  bool_decide (m_status m ≠ status) || bool_decide (m_detail m ≠ detail)
  || bool_decide (is_Some report ∧ m_latest_completion_report m ≠ report).

(** Changes that the owner of a member, or the coordinator, hears about. *)
Definition should_notify_coordinator (has_owner : bool) (old_status status : string) : bool :=
  bool_decide (old_status ≠ status) &&
  (bool_decide (status = "completed")
   || has_owner && bool_decide (old_status = "running") && mem status ["ready"; "failed"; "stopped"]
   || bool_decide (status = "crashed") && mem old_status ["running"; "running_stale"; "queued"]).

Definition other_coordinator (members : Members) (session_id swarm_id : string) : option string :=
  m_session_id <$> find (λ m, bool_decide (m_swarm_id m = Some swarm_id) && bool_decide (m_role m = "coordinator")
                              && bool_decide (m_session_id m ≠ session_id)) (map_to_list members).*2.

Definition notice_recipient (members : Members) (session_id swarm_id : string) (owner : option string) : option string :=
  match owner with
  | Some o => if bool_decide (o = session_id) then None else Some o
  | None => other_coordinator members session_id swarm_id
  end.

Definition update_member_status_with_report_tldr (now : N) (session_id status : string)
  (detail completion_report report_tldr : option string) (record : bool) (s : SwarmState) : SwarmState :=
  let report := normalize_completion_report completion_report in
  match ss_members s !! session_id with
  | None => s
  | Some m =>
      let s := with_members <[session_id := updated_member now status detail report m]> s in
      match m_swarm_id m with
      | None => s
      | Some swarm_id =>
          if negb (member_changed status detail report m) then s
          else
            let status_changed := bool_decide (m_status m ≠ status) in
            let s := if status_changed && record then
                       record_status_event session_id (m_friendly_name m) (Some swarm_id) (m_status m) status s
                     else s in
            if should_notify_coordinator (bool_decide (is_Some (m_report_back_to m))) (m_status m) status then
              match notice_recipient (ss_members s) session_id swarm_id (m_report_back_to m) with
              | None => s
              | Some recipient =>
                  send {| n_to := recipient; n_from := session_id; n_from_name := m_friendly_name m; n_tldr := report_tldr;
                          n_message := completion_notification_message (name_or_id (m_friendly_name m) session_id) status report |} s
              end
            else s
      end
  end.

Definition update_member_status_with_report (now : N) (session_id status : string)
  (detail completion_report : option string) (record : bool) : SwarmState → SwarmState :=
  update_member_status_with_report_tldr now session_id status detail completion_report None record.

Definition update_member_status (now : N) (session_id status : string) (detail : option string) (record : bool)
  : SwarmState → SwarmState :=
  update_member_status_with_report now session_id status detail None record.
