(* ===== verification/SwarmMembersTheorems.v ===== *)
(** * The spawn tree and the members of a swarm

    The walk up the report-back chain finds exactly the transitive spawners of a
    session, a member that leaves takes nothing with it and leaves the spawn tree a
    tree (unless its children are handed to one of their own descendants), and a crash
    of a working member is always reported. *)

From S2P Require Import Prelude RustStr RustText PlanTypes PlanCycle Plan PlanLemmas SwarmCore SwarmProgress SwarmMembers.

(** ** Ancestors *)

Definition spawned_by (members : Members) : relation string := λ c p, parent_of members c = Some p.

(** The calls that the walk may still need. *)
Definition steps_left (members : Members) (visited : gset string) (c : string) : nat :=
  if decide (c ∈ dom members) then S (S (size (dom members ∖ visited))) else 1.

Lemma closed_rtc (R : relation string) (V : gset string) c x :
  c ∈ V → (∀ v p, v ∈ V → R v p → p ∈ V) → rtc R c x → x ∈ V.
Proof. intros Hc HV H. induction H as [|a b d Hab _ IH]; [done|]. apply IH. by eapply HV. Qed.

Lemma ancestors_loop_complete members fuel visited c x :
  steps_left members visited c ≤ fuel → c ∈ visited →
  (∀ v p, v ∈ visited → v ≠ c → spawned_by members v p → p ∈ visited) →
  rtc (spawned_by members) c x → x ∈ visited ∨ x ∈ ancestors_loop fuel members visited c.
Proof.
  revert visited c. induction fuel as [|fuel IH]; intros visited c Hfuel Hc Hclosed Hx.
  { unfold steps_left in Hfuel. case_decide; lia. }
  cbn [ancestors_loop]. destruct (parent_of members c) as [p|] eqn:Hp.
  - destruct (decide (p ∈ visited)) as [Hpv|Hpv].
    + left. eapply closed_rtc; [exact Hc| |exact Hx]. intros v q Hv Hq.
      destruct (decide (v = c)) as [->|]; [|by eapply Hclosed]. unfold spawned_by in Hq. by simplify_eq.
    + assert (p ≠ c) as Hpc by (by intros ->).
      rewrite (bool_decide_eq_false_2 (p = c)), (bool_decide_eq_false_2 (p ∈ visited)) by done. simpl.
      inversion Hx as [|? b ? Hcb Hbx]; subst; [by left|].
      assert (b = p) as -> by (unfold spawned_by in Hcb; congruence).
      destruct (IH ({[p]} ∪ visited) p) as [Hin|Hin]; [|set_solver| |exact Hbx| |].
      * unfold steps_left in *. assert (c ∈ dom members) as Hdom.
        { apply elem_of_dom. unfold parent_of in Hp. by destruct (members !! c). }
        rewrite decide_True in Hfuel by done. case_decide as Hpd; [|lia].
        assert (size (dom members ∖ visited) = S (size (dom members ∖ ({[p]} ∪ visited)))) as Hsize; [|lia].
        assert (dom members ∖ visited = {[p]} ∪ dom members ∖ ({[p]} ∪ visited)) as ->.
        { apply set_eq. intros y. destruct (decide (y = p)); set_solver. }
        rewrite size_union, size_singleton by set_solver. done.
      * intros v q Hv Hne Hq. apply elem_of_union in Hv as [Hv|Hv]; [set_solver|].
        destruct (decide (v = c)) as [->|Hvc]; [unfold spawned_by in Hq; set_solver|].
        apply elem_of_union_r. by eapply Hclosed.
      * apply elem_of_union in Hin as [Hin%elem_of_singleton|Hin]; [|by left]. subst. right. left.
      * right. by right.
  - left. inversion Hx as [|? b ? Hcb]; subst; [done|]. unfold spawned_by in Hcb. congruence.
Qed.

Lemma ancestors_loop_sound members fuel visited c x :
  x ∈ ancestors_loop fuel members visited c → tc (spawned_by members) c x.
Proof.
  revert visited c. induction fuel as [|fuel IH]; intros visited c; cbn [ancestors_loop]; [by intros ?%elem_of_nil|].
  destruct (parent_of members c) as [p|] eqn:Hp; [|by intros ?%elem_of_nil].
  destruct (_ || _); [by intros ?%elem_of_nil|]. intros [->|Hin]%elem_of_cons; [by apply tc_once|].
  eapply tc_l; [exact Hp|by eapply IH].
Qed.

Lemma ancestors_loop_new members fuel visited c :
  NoDup (ancestors_loop fuel members visited c) ∧ (∀ x, x ∈ ancestors_loop fuel members visited c → x ∉ visited).
Proof.
  revert visited c. induction fuel as [|fuel IH]; intros visited c; cbn [ancestors_loop].
  { split; [constructor|]. by intros x ?%elem_of_nil. }
  destruct (parent_of members c) as [p|]; [|split; [constructor|by intros x ?%elem_of_nil]].
  destruct (bool_decide (p = c) || bool_decide (p ∈ visited)) eqn:Hstop; [split; [constructor|by intros x ?%elem_of_nil]|].
  apply orb_false_iff in Hstop as [_ Hpv]. apply bool_decide_eq_false in Hpv.
  destruct (IH ({[p]} ∪ visited) p) as [Hnd Hnew]. split.
  - constructor; [|done]. intros Hin. apply Hnew in Hin. set_solver.
  - intros x [->|Hin]%elem_of_cons; [done|]. apply Hnew in Hin. set_solver.
Qed.

(** Who owns whom: a session is an ancestor of another, or the same, exactly
    when a chain of spawns leads from one to the other. The list of ancestors has no repetition
    and never the session itself, even when the records form a cycle. *)
Theorem ownership_is_transitive_spawning members ancestor session :
  (swarm_is_self_or_ancestor members ancestor session = true ↔ rtc (spawned_by members) session ancestor) ∧
  NoDup (swarm_ancestors members session) ∧ session ∉ swarm_ancestors members session.
Proof.
  destruct (ancestors_loop_new members (S (size members)) {[session]} session) as [Hnd Hnew].
  split_and!; [|exact Hnd|intros Hin; apply Hnew in Hin; set_solver].
  unfold swarm_is_self_or_ancestor. rewrite orb_true_iff, bool_decide_eq_true, mem_true. split.
  - intros [->|Hin]; [done|]. apply tc_rtc. by eapply ancestors_loop_sound.
  - intros Hr. destruct (ancestors_loop_complete members (S (size members)) {[session]} session ancestor) as [Hin|Hin].
    + unfold steps_left. case_decide as Hd; [|lia]. rewrite size_difference by set_solver.
      rewrite size_singleton, size_dom. assert (size members ≠ 0); [|lia].
      intros Hz. apply map_size_empty_inv in Hz. subst. set_solver.
    + set_solver.
    + set_solver.
    + exact Hr.
    + left. set_solver.
    + by right.
Qed.

(** ** Leaving *)

(** Tables that differ in roles only. *)
Definition same_but_roles (a b : Members) : Prop := ∀ c, ∃ r, b !! c = set_role r <$> a !! c.

Lemma set_role_same m : set_role (m_role m) m = m.
Proof. by destruct m. Qed.

Lemma same_but_roles_refl a : same_but_roles a a.
Proof.
  intros c. destruct (a !! c) as [m|] eqn:H; [|by exists ""]. exists (m_role m). simpl. by rewrite set_role_same.
Qed.

Lemma same_but_roles_alter a b r k : same_but_roles a b → same_but_roles a (alter (set_role r) k b).
Proof.
  intros H c. destruct (H c) as [r' Hc]. destruct (decide (c = k)) as [->|Hne].
  - exists r. rewrite lookup_alter_eq, Hc. by destruct (a !! k).
  - exists r'. by rewrite lookup_alter_ne.
Qed.

Lemma same_but_roles_parent a b c : same_but_roles a b → parent_of b c = parent_of a c.
Proof. intros H. destruct (H c) as [r Hc]. unfold parent_of. rewrite Hc. by destruct (a !! c). Qed.

Lemma same_but_roles_member a b w c : same_but_roles a b → is_member_of b w c = is_member_of a w c.
Proof. intros H. destruct (H c) as [r Hc]. unfold is_member_of. rewrite Hc. by destruct (a !! c). Qed.

Lemma salvage_frame now sid w s :
  let s' := salvage_assignments_of_dead_member now sid w s in
  ss_members s' = ss_members s ∧ ss_swarms s' = ss_swarms s ∧ ss_coordinators s' = ss_coordinators s ∧
  ss_plans s' !! w = (λ p, (salvage_plan_assignments_of now sid p).1) <$> ss_plans s !! w.
Proof.
  intros s'. unfold s', salvage_assignments_of_dead_member. destruct (ss_plans s !! w) as [plan|] eqn:Hp; [|by rewrite Hp].
  destruct (salvage_plan_assignments_of now sid plan) as [plan' out] eqn:Hs.
  destruct (salvage_is_empty out); [simpl; rewrite lookup_insert_eq; by rewrite Hs|].
  unfold notify_coordinator_of_salvage. cbn [with_plans ss_coordinators].
  destruct (ss_coordinators s !! w) as [k|]; [case_bool_decide|]; simpl; by rewrite lookup_insert_eq, Hs.
Qed.

Lemma elect_frame w s :
  let s' := elect_coordinator w s in
  let chosen := ss_swarms s !! w ≫= λ swarm, head (electable (ss_members s) swarm) in
  same_but_roles (ss_members s) (ss_members s') ∧ ss_swarms s' = ss_swarms s ∧
  ss_coordinators s' !! w = chosen ∧
  ss_plans s' = match chosen with
                | Some k => alter (set_participants (λ ps, {[k]} ∪ ps)) w (ss_plans s)
                | None => ss_plans s
                end.
Proof.
  intros s' chosen. unfold s', elect_coordinator. fold chosen. destruct chosen as [k|].
  - cbv zeta. set (t := with_plans _ _).
    assert (∀ n, ss_members (send n t) = ss_members t ∧ ss_swarms (send n t) = ss_swarms t ∧
      ss_coordinators (send n t) = ss_coordinators t ∧ ss_plans (send n t) = ss_plans t) as Hsend by done.
    assert (same_but_roles (ss_members s) (ss_members t)) by apply same_but_roles_alter, same_but_roles_refl.
    destruct (ss_members t !! k); unfold t; simpl; rewrite lookup_insert_eq; by split_and!.
  - simpl. rewrite lookup_delete_eq. split_and!; [apply same_but_roles_refl|done..].
Qed.

Lemma electable_in members swarm id : id ∈ electable members swarm → id ∈ swarm ∧ is_Some (members !! id).
Proof.
  unfold electable. rewrite elem_of_filterb, merge_sort_Permutation, elem_of_elements.
  intros [Hin Hm]. split; [done|]. by destruct (members !! id).
Qed.

Lemma head_elem {A} (l : list A) x : head l = Some x → x ∈ l.
Proof. destruct l; [done|]. intros [= ->]. left. Qed.

Lemma reparent_target sid w owner m :
  m_swarm_id (reparent sid w owner m) = Some w → m_report_back_to (reparent sid w owner m) = Some sid →
  owner = Some sid.
Proof.
  unfold reparent. destruct (bool_decide (m_swarm_id m = Some w)) eqn:Hw; simpl.
  - destruct (bool_decide (m_report_back_to m = Some sid)) eqn:Hb; simpl.
    + intros _. destruct owner as [o|]; [|done]. by destruct (bool_decide (o = m_session_id m)).
    + intros _ Hr. by rewrite Hr, bool_decide_eq_true_2 in Hb.
  - intros Hm. by rewrite Hm, bool_decide_eq_true_2 in Hw.
Qed.

Section leaving.
Context (now : N) (sid w : string) (s : SwarmState).
Abbreviation s' := (remove_session_from_swarm now sid w s).

(** The state of the leaving member's swarm before its children are handed on. *)
Definition before_reparenting : SwarmState :=
  let s1 := with_swarms (leave_swarm w sid) (remove_plan_participant w sid (salvage_assignments_of_dead_member now sid w s)) in
  let s2 := if bool_decide (ss_coordinators s1 !! w = Some sid) then elect_coordinator w s1 else s1 in
  with_members (alter (set_role "agent") sid) s2.

Definition new_owner : option string := fallback_parent sid w (parent_of (ss_members s) sid) before_reparenting.

Lemma remove_is : s' = with_members (fmap (reparent sid w new_owner)) before_reparenting.
Proof. done. Qed.

Lemma leave_swarm_without : sid ∉ default ∅ (leave_swarm w sid (ss_swarms s) !! w).
Proof.
  unfold leave_swarm. destruct (ss_swarms s !! w) as [swarm|] eqn:Hw; [|rewrite Hw; set_solver].
  case_bool_decide; [rewrite lookup_delete_eq|rewrite lookup_insert_eq]; simpl; set_solver.
Qed.

Lemma before_facts :
  same_but_roles (ss_members s) (ss_members before_reparenting) ∧
  ss_swarms before_reparenting = leave_swarm w sid (ss_swarms s) ∧
  ss_coordinators before_reparenting !! w ≠ Some sid ∧
  (∀ plan, ss_plans before_reparenting !! w = Some plan → sid ∉ v_participants plan ∧
     ∃ old, ss_plans s !! w = Some old ∧ v_items plan = v_items (salvage_plan_assignments_of now sid old).1).
Proof.
  unfold before_reparenting. destruct (salvage_frame now sid w s) as (H1 & H2 & H3 & H4).
  set (s0 := salvage_assignments_of_dead_member now sid w s) in *.
  set (s1 := with_swarms _ _). cbv zeta.
  assert (∀ plan, ss_plans s1 !! w = Some plan → sid ∉ v_participants plan ∧
    ∃ old, ss_plans s !! w = Some old ∧ v_items plan = v_items (salvage_plan_assignments_of now sid old).1) as Hplan.
  { unfold s1. simpl. rewrite lookup_alter_eq, H4. intros plan Hp.
    destruct (ss_plans s !! w) as [old|]; [|done]. injection Hp as <-. simpl. split; [set_solver|]. by exists old. }
  assert (ss_members s1 = ss_members s) as Hm1 by exact H1.
  assert (ss_swarms s1 = leave_swarm w sid (ss_swarms s)) as Hw1 by (unfold s1; simpl; by rewrite H2).
  case_bool_decide as Hc.
  - destruct (elect_frame w s1) as (E1 & E2 & E3 & E4). rewrite Hm1 in E1. split_and!.
    + simpl. by apply same_but_roles_alter.
    + simpl. by rewrite E2.
    + simpl. rewrite E3. destruct (ss_swarms s1 !! w) as [swarm|] eqn:Hsw; [|done]. simpl. intros Hh.
      apply head_elem, electable_in in Hh as [Hh _]. pose proof leave_swarm_without as Hno.
      rewrite <- Hw1, Hsw in Hno. done.
    + simpl. rewrite E4. intros plan Hp. destruct (ss_swarms s1 !! w ≫= _) as [k|] eqn:Hk; [|by apply Hplan].
      rewrite lookup_alter_eq in Hp. destruct (ss_plans s1 !! w) as [plan1|] eqn:Hp1; [|done]. injection Hp as <-.
      destruct (Hplan plan1 eq_refl) as [Hpart Hold]. split; [|exact Hold]. simpl.
      destruct (ss_swarms s1 !! w) as [swarm|] eqn:Hsw; [|done]. simpl in Hk.
      apply head_elem, electable_in in Hk as [Hk _]. pose proof leave_swarm_without as Hno.
      rewrite <- Hw1, Hsw in Hno. simpl in Hno. set_solver.
  - split_and!; [|done|done|done].
    apply (same_but_roles_alter _ (ss_members s1)). rewrite Hm1. apply same_but_roles_refl.
Qed.

Lemma new_owner_ne : new_owner ≠ Some sid.
Proof.
  destruct before_facts as (_ & _ & Hc & _). unfold new_owner, fallback_parent.
  destruct (parent_of (ss_members s) sid) as [p|] eqn:Hp.
  - case_bool_decide as Hne; simpl; [destruct (is_member_of _ _ _); [congruence|]|];
      (destruct (ss_coordinators _ !! w); [case_bool_decide; congruence|done]).
  - destruct (ss_coordinators _ !! w); [case_bool_decide; congruence|done].
Qed.

Lemma lookup_after c :
  ∃ r, ss_members s' !! c = (λ m, reparent sid w new_owner (set_role r m)) <$> ss_members s !! c.
Proof.
  rewrite remove_is. cbn [with_members ss_members]. rewrite lookup_fmap. destruct before_facts as (Hroles & _).
  destruct (Hroles c) as [r ->]. exists r. by destruct (ss_members s !! c).
Qed.

(** After a session has left a swarm it is not among its sessions, not its
    coordinator, not a participant of its plan, nobody in the swarm reports to it, and no
    unfinished item is assigned to it. *)
Theorem a_member_that_leaves_is_gone :
  (∀ plan, ss_plans s !! w = Some plan → NoDup (map i_id (v_items plan))) →
  sid ∉ default ∅ (ss_swarms s' !! w) ∧ ss_coordinators s' !! w ≠ Some sid ∧
  (∀ c m, ss_members s' !! c = Some m → m_swarm_id m = Some w → m_report_back_to m ≠ Some sid) ∧
  (∀ plan, ss_plans s' !! w = Some plan → sid ∉ v_participants plan ∧
     ∀ i, i ∈ v_items plan → held_by sid i = false).
Proof.
  intros Hnd. destruct before_facts as (Hroles & Hsw & Hc & Hp). split_and!.
  - rewrite remove_is. cbn [with_members ss_swarms]. rewrite Hsw. apply leave_swarm_without.
  - rewrite remove_is. exact Hc.
  - intros c m Hm Hmw. destruct (lookup_after c) as [r Hl]. rewrite Hm in Hl.
    destruct (ss_members s !! c) as [m0|]; [|done]. injection Hl as ->. intros Hr.
    apply (reparent_target _ _ _ _ Hmw) in Hr. by destruct new_owner_ne.
  - intros plan Hplan. rewrite remove_is in Hplan. destruct (Hp plan Hplan) as (Hpart & old & Hold & Hitems).
    split; [done|]. intros i Hi. rewrite Hitems in Hi.
    by apply (salvage_leaves_none_held now sid old (Hnd _ Hold)).
Qed.

(** *** The spawn tree *)

Definition acyclic (members : Members) : Prop := ∀ c, ¬ tc (spawned_by members) c c.

Lemma acyclic_sub a b :
  acyclic a → (∀ x y, spawned_by b x y → tc (spawned_by a) x y) → acyclic b.
Proof.
  intros Ha Hsub c Hc. apply (Ha c). revert Hc. generalize c at 1 3 as x. generalize c as y. intros y x H.
  induction H as [x y H|x z y H _ IH]; [by apply Hsub|]. etrans; [by apply Hsub|done].
Qed.

Lemma spawned_after c p :
  spawned_by (ss_members s') c p →
  spawned_by (ss_members s) c p ∨ spawned_by (ss_members s) c sid ∧ new_owner = Some p.
Proof.
  unfold spawned_by, parent_of. destruct (lookup_after c) as [r ->]. destruct (ss_members s !! c) as [m|]; [|done].
  simpl. unfold reparent. simpl.
  destruct (bool_decide (m_swarm_id m = Some w) && bool_decide (m_report_back_to m = Some sid)) eqn:Hb; simpl; [|by left].
  apply andb_true_iff in Hb as [_ Hb]. apply bool_decide_eq_true in Hb. rewrite Hb.
  destruct new_owner as [o|]; [|done]. case_bool_decide; [done|]. intros [= ->]. by right.
Qed.

(** Children that are handed to someone who is not below the leaving member. *)
Lemma acyclic_after_coordinator o :
  new_owner = Some o → ¬ rtc (spawned_by (ss_members s)) o sid → acyclic (ss_members s) → acyclic (ss_members s').
Proof.
  set (G := spawned_by (ss_members s)). set (G' := spawned_by (ss_members s')). intros Ho Hno Hac c Hc.
  assert (∀ x y, G' x y → G x y ∨ G x sid ∧ y = o) as Hstep.
  { intros x y H. destruct (spawned_after x y H) as [?|[? ?]]; [by left|right]. split; [done|congruence]. }
  assert (∀ y, rtc G' o y → rtc G o y) as HA.
  { apply (rtc_ind_r (λ y, rtc G o y)); [done|]. intros x y _ Hxy IH.
    destruct (Hstep x y Hxy) as [Hg|[Hg ->]]; [by eapply rtc_r|done]. }
  assert (∀ x y, tc G' x y → tc G x y ∨ tc G x sid ∧ rtc G o y) as HB.
  { intros x y H. induction H as [x y H|x z y H Hzy IH].
    - destruct (Hstep x y H) as [Hg|[Hg ->]]; [left; by apply tc_once|right]. split; [by apply tc_once|done].
    - destruct (Hstep x z H) as [Hg|[Hg ->]].
      + destruct IH as [IH|[IH Hy]]; [left|right; split; [|done]]; by eapply tc_l.
      + right. split; [by apply tc_once|]. by apply HA, tc_rtc. }
  destruct (HB c c Hc) as [H|[H1 H2]]; [by apply (Hac c)|]. apply Hno. etrans; [exact H2|by apply tc_rtc].
Qed.

Lemma acyclic_after_grandparent p :
  new_owner = Some p → spawned_by (ss_members s) sid p → acyclic (ss_members s) → acyclic (ss_members s').
Proof.
  intros Ho Hp Hac. apply (acyclic_sub _ _ Hac). intros x y H.
  destruct (spawned_after x y H) as [Hg|[Hg Ho']]; [by apply tc_once|]. assert (y = p) as -> by congruence.
  eapply tc_l; [exact Hg|by apply tc_once].
Qed.

(** Handing the children of a leaving member on keeps the spawn relation free
    of cycles, provided the member's own parent is still in the swarm or the coordinator
    afterwards is not one of its descendants. Without that proviso it can close a cycle (see
    [a_descendant_elected_closes_a_cycle]). *)
Theorem leaving_keeps_the_spawn_tree :
  acyclic (ss_members s) →
  (∃ p, parent_of (ss_members s) sid = Some p ∧ p ≠ sid ∧ is_member_of (ss_members s) w p = true) ∨
  (∀ o, ss_coordinators s' !! w = Some o → ¬ rtc (spawned_by (ss_members s)) o sid) →
  acyclic (ss_members s').
Proof.
  intros Hac Hcase. destruct before_facts as (Hroles & _ & Hc & _).
  destruct new_owner as [o|] eqn:Ho.
  - pose proof Ho as Ho'. unfold new_owner, fallback_parent in Ho'.
    destruct (parent_of (ss_members s) sid) as [p|] eqn:Hp.
    + destruct (bool_decide (p ≠ sid) && is_member_of (ss_members before_reparenting) w p) eqn:Hlive.
      * injection Ho' as ->. by eapply acyclic_after_grandparent.
      * destruct Hcase as [(q & Hq & Hne & Hmem)|Hcase].
        { injection Hq as <-. rewrite (same_but_roles_member _ _ w p Hroles), Hmem, bool_decide_eq_true_2 in Hlive; done. }
        destruct (ss_coordinators before_reparenting !! w) as [k|] eqn:Hk; [|done].
        case_bool_decide; [done|]. injection Ho' as ->. eapply acyclic_after_coordinator; [exact Ho| |done]. by apply Hcase.
    + destruct Hcase as [(q & Hq & _)|Hcase]; [done|].
      destruct (ss_coordinators before_reparenting !! w) as [k|] eqn:Hk; [|done].
      case_bool_decide; [done|]. injection Ho' as ->. eapply acyclic_after_coordinator; [exact Ho| |done]. by apply Hcase.
  - apply (acyclic_sub _ _ Hac). intros x y H. destruct (spawned_after _ _ H) as [Hg|[_ Hn]]; [by apply tc_once|congruence].
Qed.
End leaving.

(** ** Reports *)

Lemma other_coordinator_spec members sid w k :
  other_coordinator members sid w = Some k →
  ∃ c m, members !! c = Some m ∧ m_session_id m = k ∧ m_swarm_id m = Some w ∧ m_role m = "coordinator" ∧ k ≠ sid.
Proof.
  unfold other_coordinator. destruct (find _ _) as [m|] eqn:Hf; [|done]. intros [= <-].
  apply find_Some_elem in Hf as [Hin Hm]. rewrite !andb_true_iff, !bool_decide_eq_true in Hm. destruct Hm as [[? ?] ?].
  apply list_elem_of_fmap in Hin as ([c m'] & -> & Hin). apply elem_of_map_to_list in Hin. eauto 10.
Qed.

Lemma other_coordinator_exists members sid w c m :
  members !! c = Some m → m_swarm_id m = Some w → m_role m = "coordinator" → m_session_id m ≠ sid →
  is_Some (other_coordinator members sid w).
Proof.
  intros Hm Hw Hr Hne. unfold other_coordinator. destruct (find _ _) as [m'|] eqn:Hf; [done|]. exfalso.
  assert (m ∈ (map_to_list members).*2) as Hin.
  { apply list_elem_of_fmap. exists (c, m). split; [done|]. by apply elem_of_map_to_list. }
  eapply find_None_elem in Hf; [|exact Hin]. by rewrite !bool_decide_eq_true_2 in Hf.
Qed.

(** When a member crashes while it is running, stale or queued, exactly one
    notice goes out: to whoever it reports to, and if it has no owner to a coordinator of its
    swarm other than itself. *)
Theorem a_crash_at_work_is_reported now sid detail report tldr record s m w :
  ss_members s !! sid = Some m → m_swarm_id m = Some w → m_status m ∈ ["running"; "running_stale"; "queued"] →
  (∃ owner, m_report_back_to m = Some owner ∧ owner ≠ sid) ∨
  (m_report_back_to m = None ∧ ∃ c k, ss_members s !! c = Some k ∧ c ≠ sid ∧ m_swarm_id k = Some w ∧
     m_role k = "coordinator" ∧ m_session_id k ≠ sid) →
  let s' := update_member_status_with_report_tldr now sid "crashed" detail report tldr record s in
  ∃ n, ss_outbox s' = ss_outbox s ++ [n] ∧ n_to n ≠ sid ∧ n_from n = sid ∧
    (m_status <$> ss_members s' !! sid) = Some "crashed" ∧
    match m_report_back_to m with
    | Some owner => n_to n = owner
    | None => ∃ c k, ss_members s' !! c = Some k ∧ m_session_id k = n_to n ∧ m_role k = "coordinator"
    end.
Proof.
  intros Hm Hw Hst Hwho s'. unfold s', update_member_status_with_report_tldr. rewrite Hm, Hw.
  set (m' := updated_member _ _ _ _ m).
  assert (bool_decide (m_status m ≠ "crashed") = true) as Hch.
  { apply bool_decide_eq_true. intros He. rewrite He in Hst. set_solver. }
  unfold member_changed. rewrite Hch. simpl negb. cbv iota zeta.
  assert (should_notify_coordinator (bool_decide (is_Some (m_report_back_to m))) (m_status m) "crashed" = true) as ->.
  { unfold should_notify_coordinator. rewrite Hch. apply mem_true in Hst. rewrite Hst. by rewrite !orb_true_r. }
  set (t := if true && record then _ else _).
  assert (ss_members t = <[sid := m']> (ss_members s) ∧ ss_outbox t = ss_outbox s) as [Htm Hto]
    by (unfold t; by destruct record).
  assert (∃ k, notice_recipient (ss_members t) sid w (m_report_back_to m) = Some k ∧ k ≠ sid ∧
    match m_report_back_to m with
    | Some owner => k = owner
    | None => ∃ c j, ss_members t !! c = Some j ∧ m_session_id j = k ∧ m_role j = "coordinator"
    end) as (k & Hk & Hne & Hwhom).
  { unfold notice_recipient. destruct Hwho as [(owner & Ho & Hone)|(Ho & c & j & Hj & Hc & Hjw & Hjr & Hjs)]; rewrite Ho.
    - rewrite bool_decide_eq_false_2 by done. eauto.
    - destruct (other_coordinator_exists (ss_members t) sid w c j) as [k Hk]; try done.
      { rewrite Htm. by rewrite lookup_insert_ne. }
      exists k. rewrite Hk. split; [done|]. apply other_coordinator_spec in Hk as (c' & j' & ? & ? & ? & ? & ?). eauto 10. }
  rewrite Hk. eexists. simpl. rewrite Htm, Hto. split; [done|]. split_and!; try done.
  - by rewrite lookup_insert_eq.
  - destruct (m_report_back_to m); [done|]. by rewrite <- Htm.
Qed.

(** ** The theorems at work *)

Definition sample_member (id : string) (owner : option string) (role : string) (headless : bool) : SwarmMember := {|
  m_session_id := id; m_swarm_id := Some "w"; m_status := "running"; m_detail := None; m_task_label := None;
  m_friendly_name := None; m_report_back_to := owner; m_latest_completion_report := None; m_role := role;
  m_joined_at := 0; m_last_status_change := 0; m_is_headless := headless; m_output_tail := None; m_elapsed_secs := None |}.

(** A coordinator [a] with a headless child [b], whose own child [c] has a window. *)
Definition sample_state : SwarmState := {|
  ss_members := <["a" := sample_member "a" None "coordinator" false]>
    (<["b" := sample_member "b" (Some "a") "agent" true]> (<["c" := sample_member "c" (Some "b") "agent" false]> ∅));
  ss_swarms := {["w" := {["a"; "b"; "c"]}]}; ss_coordinators := {["w" := "a"]};
  ss_plans := {["w" := sample_plan]}; ss_history := []; ss_event_counter := 0; ss_outbox := [] |}.

(** Handing the children to a coordinator below the leaving member closes a cycle. *)
Example a_descendant_elected_closes_a_cycle :
  let members := ss_members (remove_session_from_swarm 5 "a" "w" sample_state) in
  swarm_is_self_or_ancestor members "b" "c" = true ∧ swarm_is_self_or_ancestor members "c" "b" = true.
Proof. by vm_compute. Qed.

Lemma a_member_that_leaves_is_gone_witness :
  let s' := remove_session_from_swarm 5 "b" "w" sample_state in
  ∀ c m, ss_members s' !! c = Some m → m_swarm_id m = Some "w" → m_report_back_to m ≠ Some "b".
Proof.
  apply (a_member_that_leaves_is_gone 5 "b" "w" sample_state).
  intros plan Hp. assert (ss_plans sample_state !! "w" = Some sample_plan) as Hw by done.
  assert (plan = sample_plan) as -> by congruence.
  by apply (bool_decide_eq_true_1 _).
Defined.

(** In the sample, [a] is above [b], which is above [c]. *)
Definition sample_height (c : string) : nat :=
  if bool_decide (c = "a") then 2 else if bool_decide (c = "b") then 1 else 0.

Lemma sample_acyclic : acyclic (ss_members sample_state).
Proof.
  assert (∀ c p, spawned_by (ss_members sample_state) c p → sample_height c < sample_height p) as Hup.
  { intros c p. unfold spawned_by, parent_of, sample_state. simpl ss_members. intros H.
    destruct (decide (c = "a")) as [->|Ha]; [by rewrite lookup_insert_eq in H|].
    rewrite lookup_insert_ne in H by done.
    destruct (decide (c = "b")) as [->|Hb]; [rewrite lookup_insert_eq in H; injection H as <-; vm_compute; lia|].
    rewrite lookup_insert_ne in H by done.
    destruct (decide (c = "c")) as [->|Hc]; [rewrite lookup_insert_eq in H; injection H as <-; vm_compute; lia|].
    by rewrite lookup_insert_ne, lookup_empty in H. }
  intros c Hc. assert (∀ x y, tc (spawned_by (ss_members sample_state)) x y → sample_height x < sample_height y) as Htc.
  { intros x y H. induction H as [x y H|x z y H _ IH]; [by apply Hup|]. apply Hup in H. lia. }
  apply Htc in Hc. lia.
Qed.

Lemma leaving_keeps_the_spawn_tree_witness :
  acyclic (ss_members (remove_session_from_swarm 5 "b" "w" sample_state)).
Proof.
  apply (leaving_keeps_the_spawn_tree 5 "b" "w" sample_state); [apply sample_acyclic|].
  left. exists "a". by vm_compute.
Defined.

Lemma a_crash_at_work_is_reported_witness :
  ∃ n, ss_outbox (update_member_status_with_report_tldr 7 "b" "crashed" None None None true sample_state) = [n] ∧ n_to n = "a".
Proof.
  destruct (a_crash_at_work_is_reported 7 "b" None None None true sample_state (sample_member "b" (Some "a") "agent" true) "w")
    as (n & Hn & _ & _ & _ & Hto); [done|done|by left|left; by exists "a"|].
  exists n. split; [exact Hn|exact Hto].
Defined.
