(* ===== verification/MutationState.v ===== *)
(** * Swarm mutations that are executed once

    crates/jcode-app-core/src/server/swarm_mutation_state.rs and durable_state.rs: a client
    that retries a swarm mutation must not make it happen twice.  Requests with one key share
    one execution; its response is kept on disk and replayed for a while.  The handlers are
    asynchronous tasks: [advance] is one task up to its next point of interleaving, [step]
    the server, where any task may move, any request arrive and the clock do anything. *)

From S2P Require Import Prelude RustStr RustText.

(** ** Data *)

Inductive PersistedSwarmMutationResponse :=
| Done
| AssignTask (task_id target_session : string)
| Error (message : string) (retry_after_secs : option N)
| Spawn (new_session_id : string).

(** The events of [ServerEvent] that answer a mutation. *)
Inductive ServerEvent :=
| EventDone (id : N)
| CommAssignTaskResponse (id : N) (task_id target_session : string)
| EventError (id : N) (message : string) (retry_after_secs : option N)
| CommSpawnResponse (id : N) (session_id new_session_id : string).

Definition event_id (e : ServerEvent) : N :=
  match e with
  | EventDone id | CommAssignTaskResponse id _ _ | EventError id _ _ | CommSpawnResponse id _ _ => id
  end.

Definition into_server_event (response : PersistedSwarmMutationResponse) (id : N) (session_id : string) : ServerEvent :=
  match response with
  | Done => EventDone id
  | AssignTask task_id target_session => CommAssignTaskResponse id task_id target_session
  | Error message retry_after_secs => EventError id message retry_after_secs
  | Spawn new_session_id => CommSpawnResponse id session_id new_session_id
  end.

Record PersistedSwarmMutationState := {
  m_key : string;
  m_action : string;
  m_session_id : string;
  m_created_at_unix_ms : N;
  m_final_response : option PersistedSwarmMutationResponse;
}.

(** [client_event_tx] is the address of the channel. *)
Record SwarmMutationWaiter := {
  w_request_id : N;
  w_client_event_tx : nat;
}.

Record SwarmMutationSync := {
  active_keys : gset string;
  waiters : gmap string (list SwarmMutationWaiter);
}.

(** ** Request keys *)

Definition key_chr (c : chr) : bool :=
  is_ascii_alphanumeric c || Ascii.eqb c "-" || Ascii.eqb c "_".

(** One character for each character: the continuation bytes of a character go with it. *)
Fixpoint sanitize_session_id (session_id : string) : string :=
  match session_id with
  | EmptyString => EmptyString
  | String c s =>
      if is_continuation c then sanitize_session_id s
      else String (if key_chr c then c else "_"%char) (sanitize_session_id s)
  end.

(** What [Hash for str] feeds to a hasher: the bytes, and a byte that no UTF-8 text has. *)
Definition str_terminator : chr := "255"%char.

Definition hash_str (s : string) : string := s +:+ String str_terminator EmptyString.

Definition hash_stream (session_id action : string) (components : list string) : string :=
  hash_str session_id +:+ hash_str action +:+ join "" (map hash_str components).

Definition hex_digit (n : N) : chr :=
  Ascii.ascii_of_N (if (n <? 10)%N then 48 + n else 87 + n).

(** [format!("{:016x}", n)] of a [u64]. *)
Fixpoint hex_low (digits : nat) (n : N) (acc : string) : string :=
  match digits with
  | O => acc
  | S digits => hex_low digits (n / 16)%N (String (hex_digit (n `mod` 16)%N) acc)
  end.

Definition hex16 (n : N) : string := hex_low 16 n EmptyString.

(** [hash] is what the default hasher makes of the bytes it is fed. *)
Definition hashed_request_key (hash : string → N) (session_id action : string) (components : list string) : string :=
  sanitize_session_id session_id +:+ "-" +:+ hex16 (hash (hash_stream session_id action components)).

(** ** Persisted states *)

(** The files of the state directory, by key; a file that cannot be read is absent. *)
Abbreviation StateFiles := (gmap string PersistedSwarmMutationState).

Definition FINAL_STATE_TTL : N := 30000.
Definition PENDING_STATE_TTL : N := 1800000.

Definition elapsed_exceeds (now created_at_unix_ms ttl : N) : bool :=
  (ttl <? now - created_at_unix_ms)%N.

Definition is_stale (now : N) (st : PersistedSwarmMutationState) : bool :=
  match m_final_response st with
  | Some _ => elapsed_exceeds now (m_created_at_unix_ms st) FINAL_STATE_TTL
  | None => elapsed_exceeds now (m_created_at_unix_ms st) PENDING_STATE_TTL
  end.

(** [load_json_state] up to the removal of a stale file, which is a step of its own. *)
Inductive Loaded := Missing | Stale | Fresh (st : PersistedSwarmMutationState).

Definition load_state (now : N) (key : string) (files : StateFiles) : Loaded :=
  match files !! key with
  | None => Missing
  | Some st => if is_stale now st then Stale else Fresh st
  end.

(** [written] says whether the file system did it: failures are only logged. *)
Definition save_state (written : bool) (st : PersistedSwarmMutationState) (files : StateFiles) : StateFiles :=
  if written then <[m_key st := st]> files else files.

Definition discard_state (removed : bool) (key : string) (files : StateFiles) : StateFiles :=
  if removed then delete key files else files.

Definition pending_state (key action session_id : string) (now : N) : PersistedSwarmMutationState := {|
  m_key := key; m_action := action; m_session_id := session_id;
  m_created_at_unix_ms := now; m_final_response := None |}.

Definition with_final_response (st : PersistedSwarmMutationState) (response : PersistedSwarmMutationResponse) :
    PersistedSwarmMutationState := {|
  m_key := m_key st; m_action := m_action st; m_session_id := m_session_id st;
  m_created_at_unix_ms := m_created_at_unix_ms st; m_final_response := Some response |}.

(** ** Tasks *)

(** The arguments of [begin_with_mode]. *)
Record Request := {
  r_key : string;
  r_action : string;
  r_session_id : string;
  r_request_id : N;
  r_client_event_tx : nat;
  r_replay_final : bool;
}.

(** Where a handler is. *)
Inductive Task :=
| Arrived (r : Request)                              (** waits for the lock *)
| Checking (r : Request)                             (** has the lock, is about to load the state *)
| Discarding (r : Request)                           (** has the lock, is about to remove a stale file *)
| Registering (r : Request)                          (** has the lock, is about to register and claim *)
| Claimed (r : Request)                              (** has the claim, is about to load the state *)
| Clearing (r : Request)                             (** has the claim, is about to remove a stale file *)
| Opening (r : Request)                              (** has the claim, is about to make a new state *)
| Saving (st : PersistedSwarmMutationState)          (** has the claim, is about to save it *)
| Executing (st : PersistedSwarmMutationState)       (** the caller does the mutation *)
| Finishing (st : PersistedSwarmMutationState) (response : PersistedSwarmMutationResponse)
| Releasing (st : PersistedSwarmMutationState) (response : PersistedSwarmMutationResponse)
| Sending (ws : list SwarmMutationWaiter) (session_id : string) (response : PersistedSwarmMutationResponse)
| Finished.

(** What the tasks share; [sent] is the log of everything sent to a client. *)
Record Shared := {
  sync : SwarmMutationSync;
  locked : bool;
  files : StateFiles;
  clock : N;
  sent : list (nat * ServerEvent);
}.

Definition set_locked (b : bool) (s : Shared) : Shared := {|
  sync := sync s; locked := b; files := files s; clock := clock s; sent := sent s |}.

Definition set_files (f : StateFiles) (s : Shared) : Shared := {|
  sync := sync s; locked := locked s; files := f; clock := clock s; sent := sent s |}.

Definition set_sync (y : SwarmMutationSync) (s : Shared) : Shared := {|
  sync := y; locked := locked s; files := files s; clock := clock s; sent := sent s |}.

Definition set_clock (now : N) (s : Shared) : Shared := {|
  sync := sync s; locked := locked s; files := files s; clock := now; sent := sent s |}.

Definition send (client : nat) (e : ServerEvent) (s : Shared) : Shared := {|
  sync := sync s; locked := locked s; files := files s; clock := clock s; sent := sent s ++ [(client, e)] |}.

Definition waiter_of (r : Request) : SwarmMutationWaiter := {|
  w_request_id := r_request_id r; w_client_event_tx := r_client_event_tx r |}.

Definition register (r : Request) (y : SwarmMutationSync) : SwarmMutationSync := {|
  active_keys := {[r_key r]} ∪ active_keys y;
  waiters := <[r_key r := default [] (waiters y !! r_key r) ++ [waiter_of r]]> (waiters y) |}.

Definition release (key : string) (y : SwarmMutationSync) : SwarmMutationSync := {|
  active_keys := active_keys y ∖ {[key]};
  waiters := delete key (waiters y) |}.

(** What a step depends on from outside: whether the file system obliges, and the answer of
    the mutation. *)
Record Outcome := {
  file_ok : bool;
  answer : PersistedSwarmMutationResponse;
}.

(** One step of a task; [None] when it waits for the lock or has ended. *)
Definition advance (o : Outcome) (t : Task) (s : Shared) : option (Task * Shared) :=
  match t with
  | Arrived r =>
      if locked s then None
      else Some (if r_replay_final r then Checking r else Registering r, set_locked true s)
  | Checking r =>
      match load_state (clock s) (r_key r) (files s) with
      | Stale => Some (Discarding r, s)
      | Missing => Some (Registering r, s)
      | Fresh st =>
          match m_final_response st with
          | Some response =>
              Some (Finished, set_locked false
                (send (r_client_event_tx r) (into_server_event response (r_request_id r) (r_session_id r)) s))
          | None => Some (Registering r, s)
          end
      end
  | Discarding r => Some (Registering r, set_files (discard_state (file_ok o) (r_key r) (files s)) s)
  | Registering r =>
      let s' := set_locked false (set_sync (register r (sync s)) s) in
      Some (if bool_decide (r_key r ∈ active_keys (sync s)) then Finished
            else if r_replay_final r then Claimed r else Opening r, s')
  | Claimed r =>
      match load_state (clock s) (r_key r) (files s) with
      | Stale => Some (Clearing r, s)
      | Missing => Some (Opening r, s)
      | Fresh st => Some (Executing st, s)
      end
  | Clearing r => Some (Opening r, set_files (discard_state (file_ok o) (r_key r) (files s)) s)
  | Opening r => Some (Saving (pending_state (r_key r) (r_action r) (r_session_id r) (clock s)), s)
  | Saving st => Some (Executing st, set_files (save_state (file_ok o) st (files s)) s)
  | Executing st => Some (Finishing st (answer o), s)
  | Finishing st response =>
      let st := with_final_response st response in
      Some (Releasing st response, set_files (save_state (file_ok o) st (files s)) s)
  | Releasing st response =>
      if locked s then None
      else Some (Sending (default [] (waiters (sync s) !! m_key st)) (m_session_id st) response,
                 set_sync (release (m_key st) (sync s)) s)
  | Sending [] _ _ => Some (Finished, s)
  | Sending (w :: ws) session_id response =>
      Some (Sending ws session_id response,
            send (w_client_event_tx w) (into_server_event response (w_request_id w) session_id) s)
  | Finished => None
  end.

(** ** The server *)

Record Server := {
  shared : Shared;
  tasks : list Task;
  requests : list Request;   (** the log of the requests that arrived *)
}.

Definition start (fs : StateFiles) (now : N) : Server := {|
  shared := {| sync := {| active_keys := ∅; waiters := ∅ |}; locked := false; files := fs; clock := now; sent := [] |};
  tasks := []; requests := [] |}.

Inductive task_step (s : Server) : Server → Prop :=
| task_step_advance o before t after t' sh :
    tasks s = before ++ t :: after →
    advance o t (shared s) = Some (t', sh) →
    task_step s {| shared := sh; tasks := before ++ t' :: after; requests := requests s |}.

Inductive step (s : Server) : Server → Prop :=
| step_request r :
    step s {| shared := shared s; tasks := tasks s ++ [Arrived r]; requests := requests s ++ [r] |}
| step_clock now :
    step s {| shared := set_clock now (shared s); tasks := tasks s; requests := requests s |}
| step_task s' : task_step s s' → step s s'.

(** A task alone, until it executes its mutation or ends. *)
Fixpoint begin_with_mode (fuel : nat) (o : Outcome) (t : Task) (s : Shared) : Task * Shared :=
  match fuel, t with
  | S fuel, (Arrived _ | Checking _ | Discarding _ | Registering _ | Claimed _ | Clearing _ | Opening _ | Saving _) =>
      match advance o t s with
      | Some (t, s) => begin_with_mode fuel o t s
      | None => (t, s)
      end
  | _, _ => (t, s)
  end.

(** [finish_request] alone, from the persisting of the answer to the last message. *)
Fixpoint finish_request (fuel : nat) (o : Outcome) (t : Task) (s : Shared) : Task * Shared :=
  match fuel, t with
  | S fuel, (Finishing _ _ | Releasing _ _ | Sending _ _ _) =>
      match advance o t s with
      | Some (t, s) => finish_request fuel o t s
      | None => (t, s)
      end
  | _, _ => (t, s)
  end.
