(* ===== verification/MutationTheorems.v ===== *)
(** * Theorems about swarm mutations

    The invariant of the interleaved handlers, by induction on the steps; every quantity in
    it is a sum over the tasks, so that a step changes one summand. *)

From S2P Require Import Prelude RustStr RustText MutationState.

(** ** Sums over the tasks and the waiters *)

Definition holds_lock (t : Task) : nat :=
  match t with Checking _ | Discarding _ | Registering _ => 1 | _ => 0 end.

(** The task has the claim on the key. *)
Definition owns (key : string) (t : Task) : nat :=
  match t with
  | Claimed r | Clearing r | Opening r => Nat.b2n (bool_decide (r_key r = key))
  | Saving st | Executing st | Finishing st _ | Releasing st _ => Nat.b2n (bool_decide (m_key st = key))
  | _ => 0
  end.

(** The task is in the body of the mutation. *)
Definition executes (key : string) (t : Task) : nat :=
  match t with Executing st => Nat.b2n (bool_decide (m_key st = key)) | _ => 0 end.

(** Where an answer goes: the channel and the request. *)
Abbreviation Address := (nat * N)%type.

Definition of_request (a : Address) (r : Request) : nat :=
  Nat.b2n (bool_decide ((r_client_event_tx r, r_request_id r) = a)).

Definition of_waiter (a : Address) (w : SwarmMutationWaiter) : nat :=
  Nat.b2n (bool_decide ((w_client_event_tx w, w_request_id w) = a)).

Definition of_message (a : Address) (m : nat * ServerEvent) : nat :=
  Nat.b2n (bool_decide ((m.1, event_id m.2) = a)).

(** The answers to [a] that the task itself still owes. *)
Definition owes (a : Address) (t : Task) : nat :=
  match t with
  | Arrived r | Checking r | Discarding r | Registering r => of_request a r
  | Sending ws _ _ => sum_list_with (of_waiter a) ws
  | _ => 0
  end.

Definition asked (a : Address) (s : Server) : nat := sum_list_with (of_request a) (requests s).
Definition answered (a : Address) (s : Server) : nat := sum_list_with (of_message a) (sent (shared s)).

Lemma owns_at_most_one key t : owns key t ≤ 1.
Proof. destruct t; simpl; try case_bool_decide; simpl; lia. Qed.

Lemma executes_owns key t : executes key t ≤ owns key t.
Proof. destruct t; simpl; lia. Qed.

(** ** The invariant *)

(** The file of a key holds a state of that key. *)
Definition well_keyed (fs : StateFiles) : Prop :=
  map_Forall (λ k st, m_key st = k) fs.

Record consistent (s : Server) : Prop := {
  lock_is_held : sum_list_with holds_lock (tasks s) = Nat.b2n (locked (shared s));
  claims_are_owned key :
    sum_list_with (owns key) (tasks s) = Nat.b2n (bool_decide (key ∈ active_keys (sync (shared s))));
  waiters_are_claimed key :
    is_Some (waiters (sync (shared s)) !! key) → key ∈ active_keys (sync (shared s));
  files_are_keyed : well_keyed (files (shared s));
  answers_are_due a :
    asked a s = answered a s + sum_list_with (owes a) (tasks s) + waiting (of_waiter a) (waiters (sync (shared s)));
}.

Lemma well_keyed_save ok st fs : well_keyed fs → well_keyed (save_state ok st fs).
Proof. unfold save_state. destruct ok; [|done]. intros H. by apply map_Forall_insert_2. Qed.

Lemma well_keyed_discard ok k fs : well_keyed fs → well_keyed (discard_state ok k fs).
Proof. unfold discard_state. destruct ok; [|done]. apply map_Forall_delete. Qed.

Lemma load_state_keyed now k fs st : well_keyed fs → load_state now k fs = Fresh st → m_key st = k.
Proof.
  unfold load_state. intros H E. destruct (fs !! k) as [st'|] eqn:Hk; [|done].
  destruct (is_stale now st'); simplify_eq. exact (H _ _ Hk).
Qed.

Lemma of_message_into_server_event a c e id sid :
  of_message a (c, into_server_event e id sid) = Nat.b2n (bool_decide ((c, id) = a)).
Proof. by destruct e. Qed.

Lemma consistent_start fs now : well_keyed fs → consistent (start fs now).
Proof.
  intros H. split; simpl; try done.
  intros key [ws Hws]. by rewrite lookup_empty in Hws.
Qed.

(** ** One step *)

Definition active (key : string) (s : Shared) : nat := Nat.b2n (bool_decide (key ∈ active_keys (sync s))).

#[local] Arguments register : simpl never.
#[local] Arguments release : simpl never.
#[local] Arguments load_state : simpl never.
#[local] Arguments is_stale : simpl never.

Ltac run_advance H := simpl in H; break_in H; simplify_eq/=.

Lemma advance_lock o t s t' s' :
  advance o t s = Some (t', s') → holds_lock t ≤ Nat.b2n (locked s) →
  Nat.b2n (locked s') + holds_lock t = Nat.b2n (locked s) + holds_lock t'.
Proof. intros H Hl. destruct t; run_advance H; try case_bool_decide; try destruct (locked s); simpl in *; try lia;
  destruct (r_replay_final r); simpl; lia.
Qed.

(** A claim moves with the task that has it. *)
Lemma advance_claims key o t s t' s' :
  advance o t s = Some (t', s') → well_keyed (files s) → owns key t ≤ active key s →
  active key s' + owns key t = active key s + owns key t'.
Proof.
  intros H Hk Ho. unfold active in *.
  destruct t as [r|r|r|r|r|r|r| | | | | |]; run_advance H; try lia.
  all: try match goal with E : load_state _ _ _ = Fresh _ |- _ => rewrite (load_state_keyed _ _ _ _ Hk E) end; try lia.
  all: repeat case_bool_decide; subst; simpl in *; try destruct (r_replay_final r); simpl in *.
  all: repeat case_bool_decide; subst; simpl; first [lia | exfalso; set_solver].
Qed.

Lemma advance_waiters o t s t' s' :
  advance o t s = Some (t', s') →
  (∀ key, is_Some (waiters (sync s) !! key) → key ∈ active_keys (sync s)) →
  ∀ key, is_Some (waiters (sync s') !! key) → key ∈ active_keys (sync s').
Proof.
  intros H Hw key. destruct t; run_advance H; auto; intros Hk.
  1, 2: apply lookup_insert_is_Some in Hk as [->|[_ Hk]]; set_solver.
  - apply lookup_delete_is_Some in Hk as [Hne Hk]. specialize (Hw _ Hk). set_solver.
Qed.

Lemma advance_files o t s t' s' :
  advance o t s = Some (t', s') → well_keyed (files s) → well_keyed (files s').
Proof.
  intros H Hk. destruct t; run_advance H; auto using well_keyed_save, well_keyed_discard.
Qed.

(** What is owed for an address is owed, waits, or has been sent. *)
Lemma advance_answers a o t s t' s' :
  advance o t s = Some (t', s') →
  sum_list_with (of_message a) (sent s') + owes a t' + waiting (of_waiter a) (waiters (sync s')) =
  sum_list_with (of_message a) (sent s) + owes a t + waiting (of_waiter a) (waiters (sync s)).
Proof.
  intros H. destruct t as [r|r|r|r| | | | | | | |[|w ws]|]; run_advance H;
    rewrite ?sum_list_with_app, ?waiting_push; cbn [sum_list_with]; rewrite ?of_message_into_server_event;
    unfold of_request; try (unfold of_waiter; lia).
  - destruct (r_replay_final r); simpl; unfold of_request; lia.
  - unfold of_waiter at 1; simpl. lia.
  - destruct (r_replay_final r); unfold of_waiter at 1; simpl; lia.
  - rewrite (waiting_delete (of_waiter a) (m_key st) (waiters (sync s))). lia.
Qed.

Lemma consistent_task_step s s' : consistent s → task_step s s' → consistent s'.
Proof.
  intros [Hl Hc Hw Hf Ha] [o before t after t' sh Ht Had].
  rewrite Ht, sum_list_with_app in Hl. simpl in Hl.
  assert (∀ key, owns key t ≤ active key (shared s)) as Ho.
  { intros key. specialize (Hc key). rewrite Ht, sum_list_with_app in Hc. simpl in Hc. unfold active. lia. }
  split; simpl.
  - pose proof (advance_lock _ _ _ _ _ Had ltac:(lia)). rewrite sum_list_with_app. simpl. lia.
  - intros key. specialize (Hc key). rewrite Ht, sum_list_with_app in Hc. simpl in Hc.
    pose proof (advance_claims key _ _ _ _ _ Had Hf (Ho key)) as E. unfold active in E.
    rewrite sum_list_with_app. simpl. lia.
  - by eapply advance_waiters.
  - by eapply advance_files.
  - intros a. specialize (Ha a). pose proof (advance_answers a _ _ _ _ _ Had).
    unfold asked, answered in *; simpl. rewrite Ht, sum_list_with_app in Ha. simpl in Ha.
    rewrite sum_list_with_app. simpl. lia.
Qed.

Lemma consistent_step s s' : consistent s → step s s' → consistent s'.
Proof.
  intros H [r|now|s'' Hs]; [..|by eapply consistent_task_step]; destruct H as [Hl Hc Hw Hf Ha];
    split; simpl; auto.
  - rewrite sum_list_with_app. simpl. lia.
  - intros key. rewrite sum_list_with_app. simpl. rewrite Nat.add_0_r. apply Hc.
  - intros a. specialize (Ha a). unfold asked, answered in *. simpl. rewrite !sum_list_with_app. simpl. lia.
Qed.

Lemma consistent_reachable fs now s : well_keyed fs → rtc step (start fs now) s → consistent s.
Proof.
  intros H Hr. apply (rtc_ind_r consistent (start fs now)) in Hr; eauto using consistent_start, consistent_step.
Qed.

(** ** Progress *)

(** The steps a task still takes, where every waiter it registers costs one more. *)
Definition steps_left (t : Task) : nat :=
  match t with
  | Arrived _ => 13 | Checking _ => 12 | Discarding _ => 11 | Registering _ => 10
  | Claimed _ => 8 | Clearing _ => 7 | Opening _ => 6 | Saving _ => 5 | Executing _ => 4
  | Finishing _ _ => 3 | Releasing _ _ => 2
  | Sending ws _ _ => 1 + sum_list_with (λ _, 1) ws
  | Finished => 0
  end.

Definition work (s : Server) : nat :=
  sum_list_with steps_left (tasks s) + waiting (λ _, 1) (waiters (sync (shared s))).

Lemma advance_works o t s t' s' :
  advance o t s = Some (t', s') →
  steps_left t' + waiting (λ _, 1) (waiters (sync s')) < steps_left t + waiting (λ _, 1) (waiters (sync s)).
Proof.
  intros H. destruct t as [r|r|r|r| | | | | | | |[|w ws]|]; run_advance H; rewrite ?waiting_push; try lia.
  - destruct (r_replay_final r); simpl; lia.
  - destruct (r_replay_final r); simpl; lia.
  - rewrite (waiting_delete (λ _, 1) (m_key st) (waiters (sync s))). lia.
Qed.

Lemma task_step_works s s' : task_step s s' → work s' < work s.
Proof.
  intros [o before t after t' sh Ht Had]. apply advance_works in Had.
  unfold work. simpl. rewrite Ht, !sum_list_with_app. simpl. lia.
Qed.

Lemma advance_blocked o t s :
  advance o t s = None → t = Finished ∨ locked s = true.
Proof. intros H. destruct t as [r|r|r|r| | | | | | | |[|w ws]|]; run_advance H; auto. Qed.

(** A server in which some task has not ended has a task that can move, whatever happens
    outside: the holder of the lock never waits. *)
Lemma consistent_progress (o : Outcome) s :
  consistent s → (∃ t, t ∈ tasks s ∧ t ≠ Finished) → ∃ s', task_step s s'.
Proof.
  intros Hc (t & Hin & Hne).
  assert (∃ before t after, tasks s = before ++ t :: after ∧ is_Some (advance o t (shared s)))
    as (before & t' & after & Ht & [[t'' sh] Had]); [|by eexists; econstructor].
  destruct (locked (shared s)) eqn:Hl.
  - destruct (sum_list_with_pos holds_lock (tasks s)) as (before & t' & after & Ht & Hp).
    { rewrite (lock_is_held _ Hc), Hl. simpl. lia. }
    exists before, t', after. split; [done|]. destruct t'; simpl in Hp; try lia; simpl; try done.
    destruct (load_state _ _ _); simpl; try done. by destruct (m_final_response st).
  - apply list_elem_of_split in Hin as (before & after & Ht). exists before, t, after. split; [done|].
    destruct (advance o t (shared s)) eqn:E; [done|]. apply advance_blocked in E as [?|?]; congruence.
Qed.

Lemma finished_owes_nothing {f : Task → nat} l :
  (∀ t, t ∈ l → t = Finished) → f Finished = 0 → sum_list_with f l = 0.
Proof.
  intros H Hf. induction l as [|t l IH]; simpl; [done|].
  rewrite (H t) by set_solver. rewrite Hf. apply IH. set_solver.
Qed.

Lemma waiting_empty f m : (∀ k, m !! k = None) → waiting (A:=SwarmMutationWaiter) f m = 0.
Proof. intros H. assert (m = ∅) as -> by (by apply map_empty). done. Qed.

Lemma quiescent_answered s a :
  consistent s → (∀ s', ¬ task_step s s') → answered a s = asked a s.
Proof.
  intros Hc Hq.
  assert (∀ t, t ∈ tasks s → t = Finished) as Hfin.
  { intros t Ht. destruct (decide (steps_left t = 0)) as [E|E]; [by destruct t|].
    destruct (consistent_progress {| file_ok := true; answer := Done |} s Hc) as [s' Hs'].
    - exists t. split; [done|]. by intros ->.
    - by destruct (Hq s'). }
  rewrite (answers_are_due _ Hc a), (finished_owes_nothing _ Hfin) by done.
  rewrite waiting_empty; [lia|].
  intros k. apply eq_None_not_Some. intros Hk. apply (waiters_are_claimed _ Hc) in Hk.
  pose proof (claims_are_owned _ Hc k) as E. rewrite (finished_owes_nothing _ Hfin) in E by done.
  by rewrite bool_decide_eq_true_2 in E.
Qed.

(** ** Properties *)

(** C8 (liveness). In every reachable state of the server, whatever arrives, however the
    handlers interleave and whether or not the disk obliges: no request has been answered
    more often than it was made; once no further request arrives the handlers stop after a
    bounded number of steps; and where they stop, every request has had exactly one answer
    on its own channel under its own id, waiters and replays included. *)
Theorem every_request_is_answered_once fs now s :
  well_keyed fs → rtc step (start fs now) s →
  (∀ a, answered a s ≤ asked a s)
  ∧ (∀ n s', nsteps task_step n s s' → n ≤ work s)
  ∧ (∀ s' a, rtc task_step s s' → (∀ s'', ¬ task_step s' s'') → answered a s' = asked a s').
Proof.
  intros Hk Hr. pose proof (consistent_reachable _ _ _ Hk Hr) as Hc. split_and!.
  - intros a. rewrite (answers_are_due _ Hc a). lia.
  - intros n s' Hn. clear Hr Hc. induction Hn as [|n s1 s2 s3 H1 H2 IH]; [lia|].
    apply task_step_works in H1. lia.
  - intros s' a Hs Hq. apply quiescent_answered; [|done].
    clear Hr Hq. induction Hs; eauto using consistent_task_step.
Qed.

(** C24 (safety). At no time are there two executions of mutations with one key, and whoever
    waits for an answer waits for a handler that has the claim on the key and has not
    released it: no waiter is forgotten. *)
Theorem one_execution_per_key fs now s key :
  well_keyed fs → rtc step (start fs now) s →
  sum_list_with (executes key) (tasks s) ≤ 1
  ∧ (is_Some (waiters (sync (shared s)) !! key) → ∃ t, t ∈ tasks s ∧ owns key t = 1).
Proof.
  intros Hk Hr. pose proof (consistent_reachable _ _ _ Hk Hr) as Hc.
  pose proof (claims_are_owned _ Hc key) as E. split.
  - pose proof (sum_list_with_le (executes key) (owns key) (tasks s) (executes_owns key)).
    case_bool_decide; simpl in E; lia.
  - intros Hw. apply (waiters_are_claimed _ Hc) in Hw. rewrite bool_decide_eq_true_2 in E by done.
    destruct (sum_list_with_pos (owns key) (tasks s)) as (before & t & after & Ht & Hp); [simpl in E; lia|].
    exists t. split; [rewrite Ht; set_solver|]. pose proof (owns_at_most_one key t). lia.
Qed.

(** Sending to all waiters. *)
Definition messages (ws : list SwarmMutationWaiter) (session_id : string) (response : PersistedSwarmMutationResponse) :
    list (nat * ServerEvent) :=
  map (λ w, (w_client_event_tx w, into_server_event response (w_request_id w) session_id)) ws.

Definition log (l : list (nat * ServerEvent)) (s : Shared) : Shared := {|
  sync := sync s; locked := locked s; files := files s; clock := clock s; sent := sent s ++ l |}.

Lemma send_to_all ws o session_id response s :
  finish_request (S (length ws)) o (Sending ws session_id response) s =
    (Finished, log (messages ws session_id response) s).
Proof.
  revert s. induction ws as [|w ws IH]; intros s.
  - cbn. unfold log. rewrite app_nil_r. by destruct s.
  - trans (finish_request (S (length ws)) o (Sending ws session_id response)
             (send (w_client_event_tx w) (into_server_event response (w_request_id w) session_id) s)); [done|].
    rewrite IH. unfold log, send. cbn. by rewrite <-(assoc_L (++)).
Qed.

Definition begins (t : Task) : bool :=
  match t with
  | Arrived _ | Checking _ | Discarding _ | Registering _ | Claimed _ | Clearing _ | Opening _ | Saving _ => true
  | _ => false
  end.

Lemma begin_advance n o t s t' s' :
  begins t = true → advance o t s = Some (t', s') → begin_with_mode (S n) o t s = begin_with_mode n o t' s'.
Proof. intros Hb H. destruct t; try done; cbn [begin_with_mode]; by rewrite H. Qed.

(** A request finds a final answer that is not stale. *)
Lemma begin_replays n o r s st response :
  locked s = false → r_replay_final r = true →
  load_state (clock s) (r_key r) (files s) = Fresh st → m_final_response st = Some response →
  begin_with_mode (2 + n) o (Arrived r) s =
    (Finished, set_locked false (send (r_client_event_tx r)
       (into_server_event response (r_request_id r) (r_session_id r)) (set_locked true s))).
Proof.
  intros Hl Hr Hf Hresp. cbn [Nat.add].
  rewrite (begin_advance _ _ _ _ (Checking r) (set_locked true s)) by (done || (cbn; by rewrite Hl, Hr)).
  erewrite begin_advance; [|done|]; [|cbn; by rewrite Hf, Hresp]. by destruct n.
Qed.

(** A request finds a stale file, removes it and executes the mutation. *)
Lemma begin_discards n o r s :
  file_ok o = true → locked s = false → r_replay_final r = true → r_key r ∉ active_keys (sync s) →
  load_state (clock s) (r_key r) (files s) = Stale →
  (begin_with_mode (7 + n) o (Arrived r) s).1 =
    Executing (pending_state (r_key r) (r_action r) (r_session_id r) (clock s)).
Proof.
  intros Ho Hl Hr Ha Hf. cbn [Nat.add].
  rewrite (begin_advance _ _ _ _ (Checking r) (set_locked true s)) by (done || (cbn; by rewrite Hl, Hr)).
  erewrite begin_advance; [|done|]; [|cbn; by rewrite Hf].
  erewrite begin_advance; [|done|done].
  erewrite begin_advance; [|done|]; [|cbn; by rewrite bool_decide_eq_false_2, Hr].
  erewrite begin_advance; [|done|]; [|cbn; unfold load_state, discard_state; by rewrite Ho, lookup_delete_eq].
  do 2 (erewrite begin_advance; [|done|done]). by destruct n.
Qed.

(** A request finds nothing on record and nobody at work: it saves a fresh state and
    executes the mutation. *)
Lemma begin_executes n o r s :
  file_ok o = true → locked s = false → r_replay_final r = true → r_key r ∉ active_keys (sync s) →
  files s !! r_key r = None →
  let st := pending_state (r_key r) (r_action r) (r_session_id r) (clock s) in
  begin_with_mode (6 + n) o (Arrived r) s =
    (Executing st, set_files (<[r_key r := st]> (files s)) (set_locked false (set_sync (register r (sync s)) (set_locked true s)))).
Proof.
  intros Ho Hl Hr Ha Hf. cbn [Nat.add].
  rewrite (begin_advance _ _ _ _ (Checking r) (set_locked true s)) by (done || (cbn; by rewrite Hl, Hr)).
  erewrite begin_advance; [|done|]; [|cbn; unfold load_state; by rewrite Hf].
  erewrite begin_advance; [|done|]; [|cbn; by rewrite bool_decide_eq_false_2, Hr].
  erewrite begin_advance; [|done|]; [|cbn; unfold load_state; by rewrite Hf].
  do 2 (erewrite begin_advance; [|done|done]). unfold save_state. rewrite Ho. by destruct n.
Qed.

(** The answer is saved, the claim released and everyone who waits is answered. *)
Lemma finish_runs o st response s :
  file_ok o = true → locked s = false →
  let ws := default [] (waiters (sync s) !! m_key st) in
  finish_request (3 + length ws) o (Finishing st response) s =
    (Finished, log (messages ws (m_session_id st) response)
                 (set_sync (release (m_key st) (sync s))
                   (set_files (<[m_key st := with_final_response st response]> (files s)) s))).
Proof.
  intros Ho Hl ws. cbn [Nat.add finish_request advance]. unfold save_state. rewrite Ho.
  cbn [locked set_files]. rewrite Hl. apply send_to_all.
Qed.

(** For how long an execution that has ended is replayed.  Its answer is
    kept under the time the execution was begun, not the time it ended: an identical request
    that comes right after the answer went out is answered from the record if the mutation
    took no longer than the time to live (30 s), and executes the mutation once more if it
    took longer. *)
Theorem replay_window_runs_from_the_start o st response r s :
  file_ok o = true → locked s = false → r_replay_final r = true → r_key r = m_key st →
  let ws := default [] (waiters (sync s) !! m_key st) in
  let s1 := log (messages ws (m_session_id st) response)
              (set_sync (release (m_key st) (sync s))
                (set_files (<[m_key st := with_final_response st response]> (files s)) s)) in
  finish_request (3 + length ws) o (Finishing st response) s = (Finished, s1)
  ∧ if (clock s - m_created_at_unix_ms st <=? FINAL_STATE_TTL)%N
    then begin_with_mode 8 o (Arrived r) s1 =
           (Finished, set_locked false (send (r_client_event_tx r)
              (into_server_event response (r_request_id r) (r_session_id r)) (set_locked true s1)))
    else (begin_with_mode 8 o (Arrived r) s1).1 =
           Executing (pending_state (r_key r) (r_action r) (r_session_id r) (clock s)).
Proof.
  intros Ho Hl Hr Hk ws s1.
  split.
  - by apply finish_runs.
  - assert (files s1 !! r_key r = Some (with_final_response st response)) as Hf
      by (cbn; rewrite Hk; apply lookup_insert_eq).
    assert (clock s1 = clock s) as Hck by done.
    assert (locked s1 = false) as Hl1 by done.
    assert (r_key r ∉ active_keys (sync s1)) as Ha by (cbn; set_solver).
    assert (load_state (clock s1) (r_key r) (files s1) =
      if (clock s - m_created_at_unix_ms st <=? FINAL_STATE_TTL)%N then Fresh (with_final_response st response) else Stale) as Hload.
    { unfold load_state. rewrite Hf, Hck, N.leb_antisym. unfold is_stale, elapsed_exceeds.
      change (m_created_at_unix_ms (with_final_response st response)) with (m_created_at_unix_ms st).
      by destruct (FINAL_STATE_TTL <? clock s - m_created_at_unix_ms st)%N. }
    clearbody s1. destruct (_ <=? _)%N.
    + by apply (begin_replays 6 o r s1 (with_final_response st response)).
    + rewrite (begin_discards 1) by done. by rewrite Hck.
Qed.

(** ** Keys *)

Lemma no_terminator_app s1 s2 t1 t2 :
  all_chr (λ c, negb (Ascii.eqb c str_terminator)) s1 = true →
  all_chr (λ c, negb (Ascii.eqb c str_terminator)) s2 = true →
  s1 +:+ String str_terminator t1 = s2 +:+ String str_terminator t2 → s1 = s2 ∧ t1 = t2.
Proof.
  revert s2. induction s1 as [|c s1 IH]; intros [|d s2]; cbn; intros H1 H2 E.
  - by simplify_eq.
  - injection E as <- _. by rewrite Ascii.eqb_refl in H2.
  - injection E as -> _. by rewrite Ascii.eqb_refl in H1.
  - injection E as -> E. apply andb_true_iff in H1 as [_ H1]. apply andb_true_iff in H2 as [_ H2].
    destruct (IH s2) as [-> ->]; auto.
Qed.

Abbreviation unterminated := (all_chr (λ c, negb (Ascii.eqb c str_terminator))).

Lemma not_terminator c : (byte_of c ≤ 254)%N → negb (Ascii.eqb c str_terminator) = true.
Proof.
  intros H. destruct (Ascii.eqb_spec c str_terminator) as [->|]; [|done]. by vm_compute in H.
Qed.

Lemma byte_between_not_terminator lo hi c :
  (hi ≤ 254)%N → byte_between lo hi c = true → negb (Ascii.eqb c str_terminator) = true.
Proof. unfold byte_between. intros H [_ Hc%N.leb_le]%andb_true_iff. apply not_terminator. lia. Qed.

Lemma is_byte_not_terminator n c :
  (n ≤ 254)%N → is_byte n c = true → negb (Ascii.eqb c str_terminator) = true.
Proof. unfold is_byte. intros H Hc%N.eqb_eq. apply not_terminator. lia. Qed.

Ltac no_terminator :=
  repeat match goal with
  | H : _ && _ = true |- _ => apply andb_true_iff in H as [? ?]
  | H : byte_between _ _ _ = true |- _ => apply byte_between_not_terminator in H; [|lia]
  | H : is_byte _ _ = true |- _ => apply is_byte_not_terminator in H; [|lia]
  | H : (byte_of _ <=? _)%N = true |- _ => apply N.leb_le in H
  end.

Lemma valid_utf8_unterminated s : valid_utf8 s = true → unterminated s = true.
Proof.
  induction s as [s IH] using (induction_ltof1 _ String.length). unfold ltof in IH. intros H.
  destruct s as [|a r]; [done|]. cbn [valid_utf8] in H. cbn [all_chr].
  destruct (byte_of a <=? 127)%N eqn:Ea.
  { no_terminator. rewrite not_terminator by lia. apply IH; [simpl; lia|done]. }
  destruct r as [|b r]; [done|].
  destruct (byte_between 194 223 a) eqn:Ea2.
  { no_terminator. cbn [all_chr]. rewrite Ea2. rewrite H. apply IH; [simpl; lia|done]. }
  destruct r as [|c r]; [done|].
  match type of H with (if ?x then _ else _) = _ => destruct x eqn:E3 end.
  { no_terminator. cbn [all_chr]. rewrite H. rewrite (IH r) by (simpl; lia || done).
    destruct (is_byte 224 a) eqn:E224; [|destruct (is_byte 237 a) eqn:E237]; no_terminator.
    all: repeat match goal with H : negb (Ascii.eqb _ _) = true |- _ => rewrite H; clear H end; done. }
  destruct r as [|d r]; [done|]. no_terminator. cbn [all_chr]. rewrite (IH r) by (simpl; lia || done).
  destruct (is_byte 240 a) eqn:E240; [|destruct (is_byte 244 a) eqn:E244]; no_terminator.
  all: repeat match goal with H : negb (Ascii.eqb _ _) = true |- _ => rewrite H; clear H end; done.
Qed.

Lemma hash_str_app_inj s1 s2 t1 t2 :
  valid_utf8 s1 = true → valid_utf8 s2 = true →
  hash_str s1 +:+ t1 = hash_str s2 +:+ t2 → s1 = s2 ∧ t1 = t2.
Proof.
  unfold hash_str. intros H1%valid_utf8_unterminated H2%valid_utf8_unterminated E.
  rewrite !str_app_assoc in E. by apply no_terminator_app in E.
Qed.

Lemma join_nil_cons x l : join "" (x :: l) = x +:+ join "" l.
Proof. destruct l as [|y l]; [|done]. cbn [join]. by rewrite str_app_nil_r. Qed.

Lemma hash_components_inj cs1 cs2 :
  Forall (λ c, valid_utf8 c = true) cs1 → Forall (λ c, valid_utf8 c = true) cs2 →
  join "" (map hash_str cs1) = join "" (map hash_str cs2) → cs1 = cs2.
Proof.
  intros H1. revert cs2. induction H1 as [|c1 cs1 Hc1 _ IH]; intros cs2 H2 E.
  - destruct H2 as [|c2 cs2]; [done|]. cbn [map] in E. rewrite join_nil_cons in E. by destruct c2.
  - destruct H2 as [|c2 cs2 Hc2 H2]; cbn [map] in E; rewrite ?join_nil_cons in E; [by destruct c1|].
    apply hash_str_app_inj in E as [-> E]; [|done..]. f_equal. by apply IH.
Qed.

Lemma sanitized_key_chrs s : all_chr key_chr (sanitize_session_id s) = true.
Proof.
  induction s as [|c s IH]; cbn [sanitize_session_id]; [done|].
  destruct (is_continuation c); [done|]. cbn [all_chr]. rewrite IH, andb_true_r.
  by destruct (key_chr c) eqn:E.
Qed.

Lemma hex_digit_key_chr n : (n < 16)%N → key_chr (hex_digit n) = true.
Proof.
  intros H. rewrite <-(N2Nat.id n). assert (N.to_nat n < 16) as Hn by lia. clear H. revert Hn.
  generalize (N.to_nat n) as m. intros m Hm. do 16 (destruct m as [|m]; [done|]). lia.
Qed.

Lemma hex_low_key_chrs d n acc : all_chr key_chr acc = true → all_chr key_chr (hex_low d n acc) = true.
Proof.
  revert n acc. induction d as [|d IH]; intros n acc H; cbn [hex_low]; [done|].
  apply IH. cbn [all_chr]. rewrite hex_digit_key_chr; [done|]. apply N.mod_lt. lia.
Qed.

Lemma hex_low_length d n acc : String.length (hex_low d n acc) = d + String.length acc.
Proof. revert n acc. induction d as [|d IH]; intros n acc; cbn [hex_low]; [done|]. rewrite IH. simpl. lia. Qed.

Lemma hex_digit_inj n m : (n < 16)%N → (m < 16)%N → hex_digit n = hex_digit m → n = m.
Proof.
  intros Hn Hm. unfold hex_digit. intros E%(f_equal Ascii.N_of_ascii).
  rewrite !Ascii.N_ascii_embedding in E by (destruct (N.ltb_spec n 10), (N.ltb_spec m 10); lia).
  destruct (N.ltb_spec n 10), (N.ltb_spec m 10); lia.
Qed.

Lemma hex_low_inj d n m a b :
  String.length a = String.length b → hex_low d n a = hex_low d m b → (n mod 16 ^ N.of_nat d = m mod 16 ^ N.of_nat d)%N ∧ a = b.
Proof.
  revert n m a b. induction d as [|d IH]; intros n m a b Hl H; cbn [hex_low] in H; [by rewrite !N.mod_1_r|].
  apply IH in H as [Hq H]; [|simpl; lia]. injection H as Hd ->. split; [|done].
  apply hex_digit_inj in Hd; [|apply N.mod_lt; lia..].
  rewrite Nat2N.inj_succ, N.pow_succ_r', !N.Div0.mod_mul_r. by rewrite Hd, Hq.
Qed.

Lemma str_app_inj_length s1 s2 t1 t2 :
  String.length t1 = String.length t2 → s1 +:+ t1 = s2 +:+ t2 → s1 = s2 ∧ t1 = t2.
Proof.
  intros Hl. revert s2. induction s1 as [|c s1 IH]; intros [|c2 s2] H; rewrite ?str_app_nil_l, ?str_app_cons in H.
  - done.
  - apply (f_equal String.length) in H. simpl in H. rewrite str_length_app in H. lia.
  - apply (f_equal String.length) in H. simpl in H. rewrite str_length_app in H. lia.
  - injection H as -> H. by destruct (IH s2 H) as [-> ->].
Qed.

(** Equal keys come of equal hash values. *)
Lemma hashed_request_key_inj hash session action components session' action' components' :
  hashed_request_key hash session action components = hashed_request_key hash session' action' components' →
  sanitize_session_id session = sanitize_session_id session'
  ∧ (hash (hash_stream session action components) mod 2 ^ 64 = hash (hash_stream session' action' components') mod 2 ^ 64)%N.
Proof.
  unfold hashed_request_key, hex16. set (h := hash _). set (h' := hash (hash_stream session' _ _)). intros H.
  rewrite <-!str_app_assoc in H. apply str_app_inj_length in H as [H1 H2]; [|by rewrite !hex_low_length].
  apply hex_low_inj in H2 as [H2 _]; [|done]. change (16 ^ N.of_nat 16)%N with (2 ^ 64)%N in H2.
  split; [|done]. by apply str_app_inj_length in H1 as [H1 _].
Qed.

(** C40 (type). Keys are file names, one for each request.  Whatever the session and the request,
    the key has only ASCII letters, digits, hyphens and underscores, so that the file of a
    mutation lies in the state directory; it is the session, each character that is not one of
    these replaced by an underscore, a hyphen and 16 digits.  Two requests with one key have
    sessions that are written alike and equal hash values; and when the hash tells the texts of
    two requests in UTF-8 apart, they have one key exactly when they are the same request, of
    the same session with the same action and components. *)
Theorem keys_are_file_names hash session action components :
  let key := hashed_request_key hash session action components in
  all_chr key_chr key = true
  ∧ (∃ digits, String.length digits = 16 ∧ key = sanitize_session_id session +:+ "-" +:+ digits)
  ∧ ∀ session' action' components',
      let key' := hashed_request_key hash session' action' components' in
      let value := (hash (hash_stream session action components) mod 2 ^ 64)%N in
      let value' := (hash (hash_stream session' action' components') mod 2 ^ 64)%N in
      (key = key' → sanitize_session_id session = sanitize_session_id session' ∧ value = value')
      ∧ (Forall (λ s, valid_utf8 s = true) (session :: action :: components) →
         Forall (λ s, valid_utf8 s = true) (session' :: action' :: components') →
         (value = value' → hash_stream session action components = hash_stream session' action' components') →
         (key = key' ↔ session = session' ∧ action = action' ∧ components = components')).
Proof.
  intros key. split_and!.
  - unfold key, hashed_request_key. rewrite !all_chr_append, sanitized_key_chrs. by apply hex_low_key_chrs.
  - unfold key, hashed_request_key. eexists. split; [|done]. unfold hex16. by rewrite hex_low_length.
  - intros session' action' components' key' value value'. split; [apply hashed_request_key_inj|].
    intros H H' Hhash. split; [|by intros (-> & -> & ->)]. intros E%hashed_request_key_inj. destruct E as [_ E%Hhash].
    apply Forall_cons in H as [Hs [Ha Hc]%Forall_cons]. apply Forall_cons in H' as [Hs' [Ha' Hc']%Forall_cons].
    apply hash_str_app_inj in E as [-> E]; [|done..]. apply hash_str_app_inj in E as [-> E]; [|done..].
    split_and!; [done..|]. by apply hash_components_inj.
Qed.

(** ** Schedules, for concrete runs *)

Inductive Move :=
| Arrive (r : Request)
| ClockTo (now : N)
| Advance (i : nat) (o : Outcome).

Definition move (m : Move) (s : Server) : option Server :=
  match m with
  | Arrive r => Some {| shared := shared s; tasks := tasks s ++ [Arrived r]; requests := requests s ++ [r] |}
  | ClockTo now => Some {| shared := set_clock now (shared s); tasks := tasks s; requests := requests s |}
  | Advance i o =>
      t ← tasks s !! i;
      '(t', sh) ← advance o t (shared s);
      Some {| shared := sh; tasks := <[i := t']> (tasks s); requests := requests s |}
  end.

Fixpoint play (ms : list Move) (s : Server) : option Server :=
  match ms with
  | [] => Some s
  | m :: ms => s ← move m s; play ms s
  end.

Lemma play_reachable ms s s' : play ms s = Some s' → rtc step s s'.
Proof.
  revert s. induction ms as [|m ms IH]; intros s H; simpl in H; [by simplify_eq|].
  apply bind_Some in H as (s1 & Hm & H). eapply rtc_l; [|by apply IH].
  destruct m as [r|now|i o]; simpl in Hm; simplify_eq; try by constructor.
  apply bind_Some in Hm as (t & Ht & [[t' sh] [Had Hm]]%bind_Some). simplify_eq.
  rewrite insert_take_drop by (by eapply lookup_lt_Some).
  apply step_task. econstructor; [|done]. by rewrite take_drop_middle.
Qed.

Definition spawn_request (id : N) (client : nat) : Request := {|
  r_key := "s-1"; r_action := "spawn"; r_session_id := "s"; r_request_id := id;
  r_client_event_tx := client; r_replay_final := true |}.

Definition spawned : Outcome := {| file_ok := true; answer := Spawn "child" |}.

(** The client asks, asks again on a new connection while the first handler executes, and
    both handlers are interleaved to the end. *)
Definition retried_spawn : list Move :=
  [Arrive (spawn_request 1 0)] ++ repeat (Advance 0 spawned) 6 ++
  [Arrive (spawn_request 1 1)] ++ repeat (Advance 1 spawned) 3 ++ repeat (Advance 0 spawned) 6.

Definition after_retry : Server := default (start ∅ 0) (play retried_spawn (start ∅ 0)).

Example one_spawn_two_answers :
  sent (shared after_retry) = [(0, CommSpawnResponse 1 "s" "child"); (1, CommSpawnResponse 1 "s" "child")]
  ∧ tasks after_retry = [Finished; Finished].
Proof. by vm_compute. Qed.

Lemma every_request_is_answered_once_witness :
  answered (1, 1%N) after_retry ≤ asked (1, 1%N) after_retry ∧ answered (1, 1%N) after_retry = 1.
Proof.
  split; [|by vm_compute]. apply (every_request_is_answered_once ∅ 0 after_retry).
  - apply map_Forall_empty.
  - apply (play_reachable retried_spawn). by vm_compute.
Defined.

(** Two handlers with one key, the second of them waiting for the first. *)
Definition while_executing : Server := default (start ∅ 0) (play (take 11 retried_spawn) (start ∅ 0)).

Lemma one_execution_per_key_witness :
  sum_list_with (executes "s-1") (tasks while_executing) = 1
  ∧ (sum_list_with (executes "s-1") (tasks while_executing) ≤ 1
     ∧ (is_Some (waiters (sync (shared while_executing)) !! "s-1") →
        ∃ t, t ∈ tasks while_executing ∧ owns "s-1" t = 1)).
Proof.
  split; [by vm_compute|]. apply (one_execution_per_key ∅ 0 while_executing "s-1").
  - apply map_Forall_empty.
  - apply (play_reachable (take 11 retried_spawn)). by vm_compute.
Defined.

(** A spawn that took 31 s. *)
Definition slow_state : PersistedSwarmMutationState := pending_state "s-1" "spawn" "s" 0.

Definition slow_shared : Shared := {|
  sync := {| active_keys := {["s-1"]};
             waiters := {["s-1" := [waiter_of (spawn_request 1 0)]]} |};
  locked := false; files := {["s-1" := slow_state]}; clock := 31000; sent := [] |}.

Lemma replay_window_runs_from_the_start_witness :
  ∃ s1, finish_request 4 spawned (Finishing slow_state (Spawn "child")) slow_shared = (Finished, s1)
  ∧ (begin_with_mode 8 spawned (Arrived (spawn_request 2 0)) s1).1 =
      Executing (pending_state "s-1" "spawn" "s" 31000).
Proof.
  destruct (replay_window_runs_from_the_start spawned slow_state (Spawn "child") (spawn_request 2 0) slow_shared)
    as [H1 H2]; [reflexivity..|].
  eexists. split; [exact H1|]. exact H2.
Defined.
