(* ===== verification/PlanStatus.v ===== *)
(** * Snapshots of a plan

    What the sessions of a swarm are told about its plan: the graph status of
    crates/jcode-protocol/src/lib.rs, and the broadcasts of
    crates/jcode-app-core/src/server/swarm.rs that carry it, as the list of what is sent. *)

From S2P Require Import Prelude RustStr DagTypes PlanTypes PlanCycle Plan PlanLemmas Bridge SwarmMembers.

Record PlanGraphStatus := {
  st_swarm_id : option string;
  st_version : N;
  st_item_count : nat;
  st_ready_ids : list string;
  st_blocked_ids : list string;
  st_active_ids : list string;
  st_completed_ids : list string;
  st_failed_ids : list string;
  st_failed_reasons : gmap string string;
  st_cycle_ids : list string;
  st_unresolved_dependency_ids : list string;
  st_next_ready_ids : list string;
  st_newly_ready_ids : list string;
  st_low_confidence_ids : list string;
  st_mode : string;
  st_seeded_count : nat;
  st_grown_count : nat;
}.

Definition empty_for_swarm (swarm_id : string) : PlanGraphStatus := {|
  st_swarm_id := Some swarm_id; st_version := 0; st_item_count := 0;
  st_ready_ids := []; st_blocked_ids := []; st_active_ids := []; st_completed_ids := []; st_failed_ids := [];
  st_failed_reasons := ∅; st_cycle_ids := []; st_unresolved_dependency_ids := []; st_next_ready_ids := [];
  st_newly_ready_ids := []; st_low_confidence_ids := []; st_mode := "light"; st_seeded_count := 0; st_grown_count := 0 |}.

(** The last checkpoint of each failed item that has one. *)
Definition failed_reasons (p : VersionedPlan) (failed_ids : list string) : gmap string string :=
  list_to_map (omap (λ id, pair id <$> (v_task_progress p !! id ≫= p_checkpoint_summary)) failed_ids).

Section status.
Context (from_json : string → option HandoffArtifact).

Definition from_versioned_plan (swarm_id : string) (p : VersionedPlan) (next_ready_limit : option nat)
  (newly_ready_ids : list string) : PlanGraphStatus :=
  let graph := summarize_plan_graph (v_items p) in
  let growth := growth_stats p in {|
  st_swarm_id := Some swarm_id; st_version := v_version p; st_item_count := length (v_items p);
  st_ready_ids := g_ready_ids graph; st_blocked_ids := g_blocked_ids graph; st_active_ids := g_active_ids graph;
  st_completed_ids := g_completed_ids graph; st_failed_ids := g_failed_ids graph;
  st_failed_reasons := failed_reasons p (g_failed_ids graph); st_cycle_ids := g_cycle_ids graph;
  st_unresolved_dependency_ids := g_unresolved_dependency_ids graph;
  st_next_ready_ids := next_runnable_item_ids (v_items p) next_ready_limit;
  st_newly_ready_ids := newly_ready_ids;
  st_low_confidence_ids := low_confidence_completed_ids from_json p;
  st_mode := v_mode p; st_seeded_count := gs_seeded growth; st_grown_count := growth_grown growth |}.

(** [plan_graph_status_for] of comm_control.rs. *)
Definition plan_graph_status_for (swarm_id : string) (s : SwarmState) : PlanGraphStatus :=
  match ss_plans s !! swarm_id with
  | Some p => from_versioned_plan swarm_id p (Some 8) []
  | None => empty_for_swarm swarm_id
  end.

(** ** Broadcasts *)

Record PlanSnapshot := {
  sn_swarm_id : string;
  sn_version : N;
  sn_items : list PlanItem;
  sn_participants : list string;
  sn_reason : option string;
  sn_summary : option PlanGraphStatus;
}.

Definition sorted_ids (ids : gset string) : list string := merge_sort String.le (elements ids).

(** The participants of the plan, or, when it has none, the sessions of the swarm. *)
Definition plan_audience (swarm_id : string) (p : VersionedPlan) (s : SwarmState) : list string :=
  match sorted_ids (v_participants p) with
  | [] => sorted_ids (default ∅ (ss_swarms s !! swarm_id))
  | participants => participants
  end.

Definition is_live (s : SwarmState) (session_id : string) : bool :=
  match ss_members s !! session_id with Some _ => true | None => false end.

Definition broadcast_swarm_plan_with_previous (swarm_id : string) (reason : option string)
  (previous_items : option (list PlanItem)) (s : SwarmState) : list (string * PlanSnapshot) :=
  match ss_plans s !! swarm_id with
  | None => []
  | Some p =>
      let newly_ready_ids := match previous_items with
                             | Some before => newly_ready_item_ids before (v_items p)
                             | None => []
                             end in
      let audience := plan_audience swarm_id p s in
      let event := {|
        sn_swarm_id := swarm_id; sn_version := v_version p; sn_items := v_items p; sn_participants := audience;
        sn_reason := reason; sn_summary := Some (from_versioned_plan swarm_id p (Some 3) newly_ready_ids) |} in
      map (λ sid, (sid, event)) (List.filter (is_live s) audience)
  end.

Definition broadcast_swarm_plan (swarm_id : string) (reason : option string) : SwarmState → list (string * PlanSnapshot) :=
  broadcast_swarm_plan_with_previous swarm_id reason None.

(** To one session that has come back: nothing while the plan is empty. *)
Definition send_swarm_plan_to_session (session_id : string) (s : SwarmState) : list (string * PlanSnapshot) :=
  match ss_members s !! session_id ≫= m_swarm_id with
  | None => []
  | Some swarm_id =>
      match ss_plans s !! swarm_id with
      | None => []
      | Some p =>
          if is_nil (v_items p) then []
          else if is_live s session_id then
            [(session_id, {|
                sn_swarm_id := swarm_id; sn_version := v_version p; sn_items := v_items p;
                sn_participants := sorted_ids (v_participants p); sn_reason := Some "reconnect";
                sn_summary := Some (from_versioned_plan swarm_id p (Some 3) []) |})]
          else []
      end
  end.
End status.

(** ** What a snapshot says *)

Lemma growth_total_step s o : growth_total (count_origin s o) = S (growth_total s).
Proof. destruct s, o as [[]|]; unfold growth_total; simpl; lia. Qed.

Lemma growth_total_items p : growth_total (growth_stats p) = length (v_items p).
Proof.
  unfold growth_stats. enough (∀ s, growth_total (foldl (λ s i,
    count_origin s (v_node_meta p !! i_id i ≫= λ m, parse_origin (m_origin m))) s (v_items p)) =
    growth_total s + length (v_items p)) as -> by done.
  induction (v_items p) as [|i l IH]; intros s; simpl; [lia|]. rewrite IH, growth_total_step. lia.
Qed.

Lemma elem_of_sorted_ids ids x : x ∈ sorted_ids ids ↔ x ∈ ids.
Proof. unfold sorted_ids. by rewrite merge_sort_Permutation, elem_of_elements. Qed.

Lemma NoDup_sorted_ids ids : NoDup (sorted_ids ids).
Proof. unfold sorted_ids. rewrite merge_sort_Permutation. apply NoDup_elements. Qed.

Lemma sorted_ids_nil ids : sorted_ids ids = [] ↔ ids = ∅.
Proof.
  split; [intros H|intros ->].
  - apply leibniz_equiv, elem_of_equiv_empty. intros x. rewrite <- elem_of_sorted_ids, H. apply not_elem_of_nil.
  - apply elem_of_nil_inv. intros x. rewrite elem_of_sorted_ids. set_solver.
Qed.
