(* ===== verification/Effects.v ===== *)
(** * What a handler does besides changing the tables

    The handlers of crates/jcode-app-core/src/server read the tables of the swarms, change
    them, and send: to the client that asked, to other sessions, to the event history and
    to the persistence.  Everything sent is a list of effects, in the order of sending. *)

From S2P Require Import MutationState.
From S2P Require Import Prelude RustStr RustText PlanTypes SwarmCore SwarmProgress SwarmMembers PlanStatus.

(** The notifications that the modelled handlers send. *)
Inductive NotificationType :=
| SharedContextNotice (key value : string)
| MessageNotice (scope channel tldr : option string).

Inductive SwarmEventType :=
| EventNotification (notification_type message : string)
| PlanUpdate (swarm_id : string) (item_count : nat)
| PlanProposal (swarm_id proposer_session : string) (item_count : nat)
| ContextUpdate (swarm_id key : string)
| MemberChange (action : string).

Record ContextEntry := {
  ce_key : string;
  ce_value : string;
  ce_from_session : string;
  ce_from_name : option string;
}.

(** What the clients of a session are told while its agent works, or when it is closed. *)
Inductive AgentEvent :=
| StatusDetail (detail : string)
| ToolStart (name : string)
| ToolDone (name : string) (error : option string)
| SessionCloseRequested (reason : string)
| OtherEvent.

Inductive Effect :=
| Reply (e : ServerEvent)                                       (** to the client of the request *)
| ReplyContext (id : N) (entries : list ContextEntry)
| ReplyChannels (id : N) (channels : list (string * nat))
| ReplyMembers (id : N) (session_ids : list string)
| ReplyControl (id : N) (action task_id : string) (target_session : option string) (status : string)
    (summary : PlanGraphStatus)                                 (** [CommTaskControlResponse] *)
| Persist (swarm_id : string)                                   (** [persist_swarm_state_for] *)
| BroadcastPlan (swarm_id reason : string)                      (** [broadcast_swarm_plan] *)
| BroadcastPlanSince (swarm_id reason : string) (previous : list PlanItem)
                                                                (** [broadcast_swarm_plan_with_previous] *)
| BroadcastStatus (swarm_id : string)                           (** [broadcast_swarm_status] *)
| RecordEvent (session_id : string) (session_name swarm_id : option string) (event : SwarmEventType)
| Notify (to from_session : string) (from_name : option string) (notification : NotificationType) (message : string)
| SendProposal (to swarm_id proposer : string) (proposer_name : option string) (items : list PlanItem)
    (summary proposal_key : string)
| Interrupt (to message : string)                               (** [queue_soft_interrupt_for_session] *)
| InterruptUrgently (to message : string)                       (** the same, marked as urgent *)
| Fanout (session_id : string) (event : AgentEvent)              (** [fanout_session_event] *)
| RunTask (to swarm_id task_id assignment_text : string)        (** [spawn_assigned_task_run] *)
| RunStartup (to message : string)                               (** the first turn of a spawned agent *)
| CloseAgent (session_id : string)                              (** its queues and memory, when it is stopped *)
| StartTurn (to message reminder : string).                     (** [run_live_turn_if_idle], when idle *)

Definition err (id : N) (message : string) : Effect := Reply (EventError id message None).

(** [swarm_id_for] and [swarm_id_for_session]. *)
Definition swarm_id_for (session_id : string) (s : SwarmState) : option string :=
  ss_members s !! session_id ≫= m_swarm_id.

Definition friendly_name_for_session (session_id : string) (s : SwarmState) : option string :=
  ss_members s !! session_id ≫= m_friendly_name.

Definition eq_ignore_ascii_case (a b : string) : bool :=
  bool_decide (to_ascii_lowercase a = to_ascii_lowercase b).

(** Every reply to the client of a request. *)
Definition is_reply (e : Effect) : bool :=
  match e with Reply _ | ReplyContext _ _ | ReplyChannels _ _ | ReplyMembers _ _ | ReplyControl _ _ _ _ _ _ => true | _ => false end.

(** The sessions that hear of something. *)
Definition recipient (e : Effect) : option string :=
  match e with
  | Notify to _ _ _ _ | SendProposal to _ _ _ _ _ _ | Interrupt to _ | InterruptUrgently to _ | RunTask to _ _ _
  | RunStartup to _ | StartTurn to _ _ => Some to
  | _ => None
  end.
