(* ===== verification/GraphHandlers.v ===== *)
(** * Handlers of the server for task graphs

    crates/jcode-app-core/src/server/comm_graph.rs: a session seeds, expands, completes or
    extends the plan of its swarm.  Every handler lifts the stored plan, runs one engine
    operation and lowers the result, under the lock of the plans; what it sends, records and
    persists is a list of effects. *)

From S2P Require Import MutationState.
From S2P Require Import Prelude RustStr RustText Confidence DagTypes Kahn DagCycle DagOps DagInv PlanTypes PlanCycle Plan PlanLemmas Bridge SwarmCore SwarmProgress SwarmMembers Effects.

(** ** Requests *)

Record TaskGraphNodeSpec := {
  t_id : string;
  t_content : string;
  t_kind : option string;
  t_depends_on : list string;
  t_priority : N;
}.

Definition spec_from_wire (spec : TaskGraphNodeSpec) : NodeSpec := {|
  s_id := Some (t_id spec);
  s_content := t_content spec;
  s_kind := parse_kind (t_kind spec);
  s_depends_on := t_depends_on spec;
  s_priority := t_priority spec |}.

Definition MAX_PLAN_ITEMS : nat := 1024.

Definition graph_size_error (g : TaskGraph) : option string :=
  if MAX_PLAN_ITEMS <? length (g_nodes g) then
    Some ("plan would contain " +:+ show_nat (length (g_nodes g)) +:+ " items, exceeding the per-swarm limit of "
          +:+ show_nat MAX_PLAN_ITEMS +:+ "; finish or clear stale plan nodes before adding more")
  else None.

Definition is_deep_swarm_effort (effort : string) : bool := eq_ignore_ascii_case (trim effort) "swarm-deep".

(** ** The coordinator of a seeded swarm *)

Section coordinator.
(** Whether the client of a session is gone: its channel is closed. *)
Context (is_closed : string → bool).

(** The first part of [ensure_seeder_can_coordinate]: the answer, or the coordinator that
    may be displaced. *)
Definition inspect_coordinator (swarm_id seeder : string) (s : SwarmState) : bool + option string :=
  let current := ss_coordinators s !! swarm_id in
  if bool_decide (current = Some seeder) then inl true
  else
    let live := match current with
                | Some coord =>
                    match ss_members s !! coord with
                    | Some m => negb (is_closed coord) && negb (m_is_headless m)
                    | None => false
                    end
                | None => false
                end in
    if live then inl false else inr current.

(** The second part, under the lock of the coordinators: nothing if someone changed the
    coordinator since. *)
Definition promote_seeder (swarm_id seeder : string) (current : option string) (s : SwarmState) : bool * SwarmState :=
  if bool_decide (ss_coordinators s !! swarm_id ≠ current) then
    (bool_decide (ss_coordinators s !! swarm_id = Some seeder), s)
  else
    let s := with_coordinators <[swarm_id := seeder]> s in
    let s := with_members (alter (set_role "coordinator") seeder) s in
    (true, match current with
           | Some prior => if bool_decide (prior = seeder) then s else with_members (alter (set_role "agent") prior) s
           | None => s
           end).

Definition ensure_seeder_can_coordinate (swarm_id seeder : string) (s : SwarmState) : bool * SwarmState :=
  match inspect_coordinator swarm_id seeder s with
  | inl answer => (answer, s)
  | inr current => promote_seeder swarm_id seeder current s
  end.
End coordinator.

(** ** Plans *)

(** Take a node that is ready and free, or already assigned to the actor. *)
Definition claim_queued_node_for_actor (g : TaskGraph) (node_id actor : string) : TaskGraph :=
  match get g node_id with
  | None => g
  | Some n =>
      if bool_decide (n_status n = DagTypes.Queued)
         && match n_owner n with None => true | Some owner => bool_decide (owner = actor) end
      then (dispatch g node_id actor).2
      else g
  end.

Definition bump (p : VersionedPlan) : VersionedPlan := {|
  v_items := v_items p; v_version := u64_succ (v_version p); v_participants := v_participants p;
  v_task_progress := v_task_progress p; v_mode := v_mode p; v_node_meta := v_node_meta p |}.

Definition set_mode (mode : string) (p : VersionedPlan) : VersionedPlan := {|
  v_items := v_items p; v_version := v_version p; v_participants := v_participants p;
  v_task_progress := v_task_progress p; v_mode := mode; v_node_meta := v_node_meta p |}.

Definition add_participant (session : string) : VersionedPlan → VersionedPlan :=
  set_participants (λ ps, {[session]} ∪ ps).

Section handlers.
Context (to_json : HandoffArtifact → option string).
(** [serde_json::from_str] on an artifact, with the text of its error. *)
Context (parse_artifact : string → result HandoffArtifact string).
Context (is_closed : string → bool).

Definition from_json (json : string) : option HandoffArtifact :=
  match parse_artifact json with Ok a => Some a | Err _ => None end.

Abbreviation lift := (to_task_graph from_json).

Definition commit (p : VersionedPlan) (g : TaskGraph) : VersionedPlan := bump (apply_task_graph to_json p g).

(** The plan after the lock is released, and the text of the error. *)
Abbreviation Outcome := (VersionedPlan * result unit string)%type.

Definition size_checked (verb : string) (p : VersionedPlan) (g : TaskGraph) : Outcome :=
  match graph_size_error g with
  | Some message => (p, Err (verb +:+ " rejected: " +:+ message))
  | None => (commit p g, Ok tt)
  end.

Definition downgrades_deep (mode : string) (p : VersionedPlan) : bool :=
  eq_ignore_ascii_case (v_mode p) "deep" && negb (eq_ignore_ascii_case mode "deep") && negb (is_nil (v_items p)).

Definition seed_plan (resolved_mode : option string) (session : string) (specs : list NodeSpec) (p : VersionedPlan) : Outcome :=
  if match resolved_mode with Some mode => downgrades_deep mode p | None => false end then
    (p, Err ("Seed rejected: this swarm already has a non-empty deep-mode plan; seeding with mode=light would silently strip its gates and artifact validation. "
             +:+ "Omit `mode` to keep deep, or finish/clear the current plan first."))
  else
    let p := match resolved_mode with Some mode => set_mode mode p | None => p end in
    let p := add_participant session p in
    let before := lift p in
    match seed before specs with
    | Err e => (p, Err ("Seed rejected: " +:+ dag_error_fmt e))
    | Ok g =>
        match graph_size_error g with
        | Some message => (p, Err ("Seed rejected: " +:+ message))
        | None => (if bool_decide (g = before) then p else commit p g, Ok tt)
        end
    end.

Definition expand_plan (node_id session : string) (specs : list NodeSpec) (p : VersionedPlan) : Outcome :=
  match expand_node (claim_queued_node_for_actor (lift p) node_id session) node_id session specs with
  | Ok (g, _) => size_checked "Expand" p g
  | Err e => (p, Err ("Expand rejected: " +:+ dag_error_fmt e))
  end.

Definition complete_plan (node_id session : string) (artifact : HandoffArtifact) (p : VersionedPlan) : Outcome :=
  match complete_node (claim_queued_node_for_actor (lift p) node_id session) node_id session artifact with
  | Ok g => (commit p g, Ok tt)
  | Err e => (p, Err ("Complete rejected: " +:+ dag_error_fmt e))
  end.

Definition inject_plan (gate_id session : string) (specs : list NodeSpec) (p : VersionedPlan) : Outcome :=
  match inject_from_gate (claim_queued_node_for_actor (lift p) gate_id session) gate_id session specs with
  | Ok (g, _) => size_checked "Inject" p g
  | Err e => (p, Err ("Inject rejected: " +:+ dag_error_fmt e))
  end.

(** ** Handlers *)

Definition finalize (id : N) (swarm_id session reason : string) (item_count : nat) (s : SwarmState) : list Effect :=
  [Persist swarm_id; BroadcastPlan swarm_id reason;
   RecordEvent session (friendly_name_for_session session s) (Some swarm_id) (PlanUpdate swarm_id item_count);
   Reply (EventDone id)].

Definition answer_outcome (id : N) (swarm_id session reason : string) (item_count : nat) (s : SwarmState)
  (r : result unit string) : list Effect :=
  match r with
  | Ok _ => finalize id swarm_id session reason item_count s
  | Err message => [err id message]
  end.

(** A change of the plan of the session's swarm, which must exist. *)
Definition on_plan (id : N) (session reason : string) (item_count : nat) (change : VersionedPlan → Outcome) (s : SwarmState)
  : SwarmState * list Effect :=
  match swarm_id_for session s with
  | None => (s, [err id "Not in a swarm."])
  | Some swarm_id =>
      match ss_plans s !! swarm_id with
      | None => (s, [err id "No plan for this swarm."])
      | Some p =>
          let '(p, r) := change p in
          let s := with_plans <[swarm_id := p]> s in
          (s, answer_outcome id swarm_id session reason item_count s r)
      end
  end.

(** [session_effort] is the table of the reasoning efforts of the sessions. *)
Definition handle_comm_seed_graph (session_effort : gmap string string) (id : N) (session : string) (mode : option string)
  (nodes : list TaskGraphNodeSpec) (s : SwarmState) : SwarmState * list Effect :=
  match swarm_id_for session s with
  | None => (s, [err id "Not in a swarm."])
  | Some swarm_id =>
      let s := (ensure_seeder_can_coordinate is_closed swarm_id session s).2 in
      let specs := map spec_from_wire nodes in
      let resolved_mode :=
        match mode with
        | Some mode => Some mode
        | None => match session_effort !! session with
                  | Some effort => if is_deep_swarm_effort effort then Some "deep" else None
                  | None => None
                  end
        end in
      let '(p, r) := seed_plan resolved_mode session specs (default plan_new (ss_plans s !! swarm_id)) in
      let s := with_plans <[swarm_id := p]> s in
      (s, answer_outcome id swarm_id session "task_graph_seed" (length specs) s r)
  end.

Definition handle_comm_expand_node (id : N) (session node_id : string) (children : list TaskGraphNodeSpec)
  : SwarmState → SwarmState * list Effect :=
  on_plan id session "task_graph_expand" (length children) (expand_plan node_id session (map spec_from_wire children)).

Definition handle_comm_complete_node (id : N) (session node_id artifact_json : string) (s : SwarmState)
  : SwarmState * list Effect :=
  match swarm_id_for session s with
  | None => (s, [err id "Not in a swarm."])
  | Some _ =>
      match parse_artifact artifact_json with
      | Err e => (s, [err id ("Invalid artifact JSON: " +:+ e)])
      | Ok artifact => on_plan id session "task_graph_complete" 1 (complete_plan node_id session artifact) s
      end
  end.

Definition handle_comm_inject_gap (id : N) (session gate_id : string) (nodes : list TaskGraphNodeSpec)
  : SwarmState → SwarmState * list Effect :=
  on_plan id session "task_graph_inject_gap" (length nodes) (inject_plan gate_id session (map spec_from_wire nodes)).
End handlers.
