(* ===== verification/GraphTheorems.v ===== *)
(** * Theorems about the graph handlers *)

From S2P Require Import MutationState.
From S2P Require Import Prelude RustStr RustText Confidence DagTypes Kahn DagCycle DagOps DagInv DagSim PlanTypes PlanCycle Plan PlanLemmas Bridge PlanTheorems SwarmCore SwarmProgress SwarmMembers Effects GraphHandlers.

(** ** Graphs with the same edges *)

Definition same_edges (g g' : TaskGraph) : Prop :=
  node_ids g = node_ids g' ∧ ∀ x, n_depends_on <$> get g x = n_depends_on <$> get g' x.

Lemma same_edges_sym g g' : same_edges g g' → same_edges g' g.
Proof. intros [H1 H2]. by split. Qed.

Lemma same_edges_known g g' x : same_edges g g' → is_Some (get g x) → is_Some (get g' x).
Proof. intros [_ H]. rewrite <-!(fmap_is_Some n_depends_on (get _ x)). by rewrite (H x). Qed.

Lemma same_edges_get g g' x n :
  same_edges g g' → get g' x = Some n → ∃ m, get g x = Some m ∧ n_depends_on m = n_depends_on n.
Proof.
  intros [_ H] Hn. specialize (H x). rewrite Hn in H. simpl in H.
  apply fmap_Some in H as (m & Hm & Hd). eauto.
Qed.

Lemma wf_same_edges g g' : same_edges g g' → wf g → wf g'.
Proof.
  intros H [Hnd Hc Ha]. split.
  - destruct H as [<- _]. done.
  - intros x n d Hx Hd. destruct (same_edges_get _ _ _ _ H Hx) as (m & Hm & E).
    apply (same_edges_known g g' d H). eapply Hc; [exact Hm|]. by rewrite E.
  - intros c Hc'. apply (Ha c). eapply tc_mono; [|exact Hc']. intros a b (n & Hn & Hd & Hk).
    destruct (same_edges_get _ _ _ _ H Hn) as (m & Hm & E). exists m. split; [done|].
    rewrite E. split; [done|]. by apply (same_edges_known _ _ _ (same_edges_sym _ _ H)).
Qed.

(** ** Sound plans *)

Section theorems.
Context (to_json : HandoffArtifact → option string).
Context (parse_artifact : string → result HandoffArtifact string).
Context (is_closed : string → bool).

Abbreviation from_json := (from_json parse_artifact).
Abbreviation lift := (to_task_graph from_json).
Abbreviation commit := (commit to_json).

(** Unique ids, known dependencies, no cycle. *)
Definition sound (p : VersionedPlan) : Prop := wf (lift p).

(** What soundness depends on. *)
Definition shape (p : VersionedPlan) : list (string * list string) :=
  map (λ i, (i_id i, i_blocked_by i)) (v_items p).

Lemma find_item_shape (l l' : list PlanItem) x :
  map (λ i, (i_id i, i_blocked_by i)) l = map (λ i, (i_id i, i_blocked_by i)) l' →
  i_blocked_by <$> find_item l x = i_blocked_by <$> find_item l' x.
Proof.
  revert l'. induction l as [|i l IH]; intros [|j l'] H; try done.
  injection H as Hid Hd H. unfold find_item in *. simpl. rewrite Hid.
  case_bool_decide; simpl; [by rewrite Hd|by apply IH].
Qed.

Lemma same_edges_shape p p' : shape p = shape p' → same_edges (lift p) (lift p').
Proof.
  intros H. split.
  - rewrite !node_ids_lift. apply (f_equal (map fst)) in H. unfold shape in H.
    rewrite !map_map in H. exact H.
  - intros x. rewrite !get_lift, <-!option_fmap_compose.
    exact (find_item_shape (v_items p) (v_items p') x H).
Qed.

Lemma sound_shape p p' : shape p = shape p' → sound p → sound p'.
Proof. intros H. apply wf_same_edges. by apply same_edges_shape. Qed.

Lemma length_shape p p' : shape p = shape p' → length (v_items p) = length (v_items p').
Proof. intros H. apply (f_equal length) in H. unfold shape in H. by rewrite !length_map in H. Qed.

Lemma same_edges_commit p g : NoDup (node_ids g) → same_edges g (lift (commit p g)).
Proof.
  intros Hnd. split.
  - rewrite node_ids_lift. cbn. by rewrite map_map.
  - intros x. rewrite get_lift. cbn [commit GraphHandlers.commit bump v_items].
    change (v_items (bump (apply_task_graph to_json p g))) with (v_items (apply_task_graph to_json p g)).
    rewrite v_items_apply, find_item_lower, <-!option_fmap_compose. unfold get.
    by destruct (find _ _).
Qed.

Lemma sound_commit p g : wf g → sound (commit p g).
Proof. intros H. eapply wf_same_edges; [|exact H]. apply same_edges_commit, H. Qed.

Lemma length_commit p g : length (v_items (commit p g)) = length (g_nodes g).
Proof. cbn. by rewrite length_map. Qed.

(** ** One plan *)

Abbreviation expand_plan := (expand_plan to_json parse_artifact).
Abbreviation complete_plan := (complete_plan to_json parse_artifact).
Abbreviation inject_plan := (inject_plan to_json parse_artifact).
Abbreviation seed_plan := (seed_plan to_json parse_artifact).

Lemma claim_steps g x a : rtc dag_step g (claim_queued_node_for_actor g x a).
Proof.
  unfold claim_queued_node_for_actor. destruct (get g x) as [n|]; [|done].
  destruct (_ && _); [|done]. destruct (dispatch g x a) as [[] g'] eqn:E.
  - by apply rtc_once, (step_dispatch _ x a).
  - assert (g' = g) as -> by (unfold dispatch in E; break_in E; by simplify_eq). done.
Qed.

Lemma length_claim g x a : length (g_nodes (claim_queued_node_for_actor g x a)) = length (g_nodes g).
Proof.
  unfold claim_queued_node_for_actor, dispatch. destruct (get g x) as [n|] eqn:E; [|done].
  destruct (_ && _); [|done]. simpl. destruct (negb _); [done|]. apply length_update_first.
Qed.

(** What an operation did to the plan [p]: it ran the engine and stored the result, within
    the limit, or it left [p] alone. *)
Definition ran (p : VersionedPlan) (o : VersionedPlan * result unit string) : Prop :=
  match o with
  | (p', Ok _) =>
      ∃ g, rtc dag_step (lift p) g ∧ (p' = commit p g ∨ p' = p ∧ g = lift p)
           ∧ (length (g_nodes g) ≤ MAX_PLAN_ITEMS ∨ length (g_nodes g) = length (v_items p))
  | (p', Err _) => p' = p
  end.

Lemma size_checked_ran verb p g : rtc dag_step (lift p) g → ran p (size_checked to_json verb p g).
Proof.
  intros H. unfold size_checked, graph_size_error.
  destruct (Nat.ltb_spec MAX_PLAN_ITEMS (length (g_nodes g))); simpl; [done|]. exists g. auto.
Qed.

Lemma expand_plan_ran x a specs p : ran p (expand_plan x a specs p).
Proof.
  unfold GraphHandlers.expand_plan. destruct (expand_node _ _ _ _) as [[g out]|e] eqn:E; [|done].
  apply size_checked_ran. eapply rtc_r; [apply claim_steps|]. by eapply step_expand.
Qed.

Lemma inject_plan_ran x a specs p : ran p (inject_plan x a specs p).
Proof.
  unfold GraphHandlers.inject_plan. destruct (inject_from_gate _ _ _ _) as [[g out]|e] eqn:E; [|done].
  apply size_checked_ran. eapply rtc_r; [apply claim_steps|]. by eapply step_inject.
Qed.

Lemma complete_plan_ran x a artifact p : ran p (complete_plan x a artifact p).
Proof.
  unfold GraphHandlers.complete_plan. destruct (complete_node _ _ _ _) as [g|e] eqn:E; [|done].
  exists g. split; [|split; [by left|right]].
  - eapply rtc_r; [apply claim_steps|]. by eapply step_complete.
  - apply complete_node_ok in E as (n & _ & _ & _ & _ & _ & ->). simpl.
    rewrite length_update_first, length_claim, to_task_graph_eq. simpl. by rewrite length_map.
Qed.

(** The plan a seed starts from. *)
Definition opened (mode : option string) (a : string) (p : VersionedPlan) : VersionedPlan :=
  add_participant a (match mode with Some mode => set_mode mode p | None => p end).

Lemma shape_opened mode a p : shape (opened mode a p) = shape p.
Proof. by destruct mode. Qed.

Lemma seed_plan_ran mode a specs p :
  let o := seed_plan mode a specs p in
  ran (opened mode a p) o ∨ (o.1 = p ∧ is_ok o.2 = false).
Proof.
  unfold GraphHandlers.seed_plan. destruct (match mode with Some _ => _ | None => false end); [by right|]. left.
  fold (opened mode a p). destruct (seed _ _) as [g|e] eqn:E; [|done].
  unfold graph_size_error.
  destruct (Nat.ltb_spec MAX_PLAN_ITEMS (length (g_nodes g))); [done|]. simpl. exists g.
  split; [by apply rtc_once, (step_seed _ specs)|]. split; [|by left].
  case_bool_decide as Hg; [by right|by left].
Qed.

Definition plan_ok (p : VersionedPlan) : Prop := sound p ∧ length (v_items p) ≤ MAX_PLAN_ITEMS.

Lemma plan_ok_shape p p' : shape p = shape p' → plan_ok p → plan_ok p'.
Proof. intros H [H1 H2]. split; [by eapply sound_shape|]. by rewrite <-(length_shape _ _ H). Qed.

Lemma ran_plan_ok p o : ran p o → plan_ok p → plan_ok o.1.
Proof.
  destruct o as [p' [[]|e]]; simpl; [|by intros ->]. intros (g & Hs & Hp & Hl) [H1 H2].
  destruct Hp as [->|[-> ->]]; [|done].
  split; [apply sound_commit; by eapply wf_steps|]. rewrite length_commit. lia.
Qed.

Lemma plan_ok_new : plan_ok plan_new.
Proof. split; [apply wf_new|cbn; lia]. Qed.

(** ** Operations on members keep the graph of a plan *)

Definition keeps_shape (f : PlanItem → PlanItem) : Prop :=
  ∀ i, (i_id (f i), i_blocked_by (f i)) = (i_id i, i_blocked_by i).

Lemma keeps_item_shape_status st : keeps_shape (set_status st).
Proof. done. Qed.

Lemma keeps_shape_assigned o : keeps_shape (set_assigned_to o).
Proof. done. Qed.

Lemma shape_update_first P f l :
  keeps_shape f →
  map (λ i, (i_id i, i_blocked_by i)) (update_first P f l) = map (λ i, (i_id i, i_blocked_by i)) l.
Proof.
  intros H. induction l as [|i l IH]; simpl; [done|]. destruct (P i); simpl; [by rewrite H|by rewrite IH].
Qed.

Lemma shape_revise id f t p : keeps_shape f → shape (revise id f t p) = shape p.
Proof. intros H. by apply shape_update_first. Qed.

Lemma shape_map_item id f p : keeps_shape f → shape (map_item id f p) = shape p.
Proof. intros H. by apply shape_update_first. Qed.

Lemma shape_reclaim p x : shape (reclaim_stranded_assignment p x).2 = shape p.
Proof.
  unfold reclaim_stranded_assignment. destruct (find_item _ _) as [i|]; [|done].
  destruct (i_assigned_to i); simpl; [|done]. unfold shape. cbn. by apply shape_update_first.
Qed.

Lemma shape_salvage_task now sid st x : shape (salvage_task now sid st x).1 = shape st.1.
Proof.
  destruct st as [p out]. unfold salvage_task. destruct (_ <=? _)%N; simpl.
  - by apply shape_revise.
  - pose proof (shape_reclaim p x) as H. destruct (reclaim_stranded_assignment p x) as [[] p']; simpl in *; [|done].
    rewrite <-H. by apply (shape_map_item x (set_status "queued")).
Qed.

Lemma shape_salvage now sid p : shape (salvage_plan_assignments_of now sid p).1 = shape p.
Proof.
  unfold salvage_plan_assignments_of. set (l := map _ _). clearbody l.
  change (shape p) with (shape (p, no_salvage).1). generalize (p, no_salvage) as st.
  induction l as [|x l IH]; intros st; simpl; [done|]. by rewrite IH, shape_salvage_task.
Qed.

Lemma shape_touch now x a d c p : shape (touch_task now x a d c p).2 = shape p.
Proof.
  unfold touch_task. destruct (find_item _ _); [|done]. case_bool_decide; simpl; [|done]. by apply shape_revise.
Qed.

Lemma shape_refresh now after p : shape (refresh_plan now after p).1 = shape p.
Proof.
  pose proof (refresh_plan_spec now after p) as H. destruct (refresh_plan now after p) as [p' c].
  destruct H as [H _]. unfold shape. simpl. rewrite H, map_map. apply map_ext. intros i.
  unfold refreshed. by repeat case_match.
Qed.

Definition same_shapes (s s' : SwarmState) : Prop :=
  ∀ w, shape <$> ss_plans s !! w = shape <$> ss_plans s' !! w.

#[export] Instance same_shapes_equiv : Equivalence same_shapes.
Proof. split; [by intros s w|by intros s s' H w|by intros s s1 s2 H1 H2 w; rewrite H1]. Qed.

Lemma same_shapes_plans s s' : ss_plans s' = ss_plans s → same_shapes s s'.
Proof. intros H w. by rewrite H. Qed.

Lemma same_shapes_insert w p p' s :
  ss_plans s !! w = Some p → shape p' = shape p → same_shapes s (with_plans <[w := p']> s).
Proof.
  intros Hp H v. simpl. destruct (decide (v = w)) as [->|Hne].
  - rewrite lookup_insert_eq, Hp. simpl. by rewrite H.
  - by rewrite lookup_insert_ne by done.
Qed.

Lemma same_shapes_alter w f s : (∀ p, shape (f p) = shape p) → same_shapes s (with_plans (alter f w) s).
Proof.
  intros H v. simpl. destruct (decide (v = w)) as [->|Hne].
  - rewrite lookup_alter_eq, <-option_fmap_compose. destruct (ss_plans s !! w); simpl; [by rewrite H|done].
  - by rewrite lookup_alter_ne by done.
Qed.

Lemma same_shapes_salvage now sid w s : same_shapes s (salvage_assignments_of_dead_member now sid w s).
Proof.
  unfold salvage_assignments_of_dead_member. destruct (ss_plans s !! w) as [p|] eqn:E; [|done].
  pose proof (shape_salvage now sid p) as H. destruct (salvage_plan_assignments_of now sid p) as [p' out]. simpl in H.
  assert (same_shapes s (with_plans <[w := p']> s)) as Hs by by eapply same_shapes_insert.
  destruct (salvage_is_empty out); [done|]. etrans; [exact Hs|]. apply same_shapes_plans.
  unfold notify_coordinator_of_salvage. destruct (ss_coordinators _ !! w); [|done]. by case_bool_decide.
Qed.

Lemma same_shapes_refresh env now s : same_shapes s (refresh_swarm_task_staleness env now s).
Proof.
  unfold refresh_swarm_task_staleness. set (s1 := with_plans _ s).
  assert (same_shapes s s1) as H.
  { intros w. simpl. rewrite lookup_fmap, <-option_fmap_compose. destruct (ss_plans s !! w); simpl; [|done].
    by rewrite shape_refresh. }
  etrans; [exact H|]. generalize (salvage_candidates now (swarm_task_stale_after_ms env) s1) as l.
  clearbody s1. intros l. clear H. revert s1. induction l as [|[w sid] l IH]; intros s1; simpl; [done|].
  etrans; [|apply IH]. apply same_shapes_salvage.
Qed.

Lemma same_shapes_touch now w x a d c s : same_shapes s (touch_swarm_task_progress now w x a d c s).2.
Proof.
  unfold touch_swarm_task_progress. destruct (ss_plans s !! w) as [p|] eqn:E; [|done].
  pose proof (shape_touch now x a d c p) as H. destruct (touch_task _ _ _ _ _ _) as [r p'].
  by eapply same_shapes_insert.
Qed.

Lemma same_shapes_elect w s : same_shapes s (elect_coordinator w s).
Proof.
  unfold elect_coordinator. destruct (ss_swarms s !! w ≫= _) as [c|]; [|done].
  etrans; [by apply (same_shapes_alter w (set_participants (λ ps, {[c]} ∪ ps)))|].
  destruct (ss_members _ !! c); by apply same_shapes_plans.
Qed.

Lemma same_shapes_remove now sid w s : same_shapes s (remove_session_from_swarm now sid w s).
Proof.
  unfold remove_session_from_swarm. etrans; [apply (same_shapes_salvage now sid w)|].
  set (s1 := salvage_assignments_of_dead_member now sid w s).
  etrans; [by apply (same_shapes_alter w (set_participants (λ ps, ps ∖ {[sid]})))|].
  case_bool_decide; [|by apply same_shapes_plans].
  etrans; [|by apply same_shapes_plans; reflexivity]. etrans; [|apply same_shapes_elect].
  by apply same_shapes_plans.
Qed.

Lemma same_shapes_status now sid st d r t rec s :
  same_shapes s (update_member_status_with_report_tldr now sid st d r t rec s).
Proof.
  apply same_shapes_plans. unfold update_member_status_with_report_tldr. by repeat case_match.
Qed.

(** ** The server *)

Abbreviation handle_comm_seed_graph := (handle_comm_seed_graph to_json parse_artifact is_closed).
Abbreviation handle_comm_expand_node := (handle_comm_expand_node to_json parse_artifact).
Abbreviation handle_comm_complete_node := (handle_comm_complete_node to_json parse_artifact).
Abbreviation handle_comm_inject_gap := (handle_comm_inject_gap to_json parse_artifact).

(** Requests on graphs, and everything that happens to the members meanwhile. *)
Inductive server_step (s : SwarmState) : SwarmState → Prop :=
| step_seed_graph efforts id session mode nodes :
    server_step s (handle_comm_seed_graph efforts id session mode nodes s).1
| step_expand_node id session x children : server_step s (handle_comm_expand_node id session x children s).1
| step_complete_node id session x json : server_step s (handle_comm_complete_node id session x json s).1
| step_inject_gap id session x nodes : server_step s (handle_comm_inject_gap id session x nodes s).1
| step_leave now session w : server_step s (remove_session_from_swarm now session w s)
| step_status now session status detail report tldr record :
    server_step s (update_member_status_with_report_tldr now session status detail report tldr record s)
| step_sweep env now : server_step s (refresh_swarm_task_staleness env now s)
| step_heartbeat now w x a d c : server_step s (touch_swarm_task_progress now w x a d c s).2
| step_rename w old new : server_step s (rename_plan_participant w old new s)
| step_tables s' : ss_plans s' = ss_plans s → server_step s s'.

Definition plans_ok (s : SwarmState) : Prop := map_Forall (λ _ p, plan_ok p) (ss_plans s).

Lemma plans_ok_shapes s s' : same_shapes s s' → plans_ok s → plans_ok s'.
Proof.
  intros H Hok w p' Hp'. specialize (H w). rewrite Hp' in H. simpl in H.
  apply fmap_Some in H as (p & Hp & E). eapply plan_ok_shape; [exact (eq_sym E)|]. by apply (Hok w).
Qed.

Lemma plans_ok_insert w p s : plan_ok p → plans_ok s → plans_ok (with_plans <[w := p]> s).
Proof. intros Hp Hs. by apply map_Forall_insert_2. Qed.

Lemma on_plan_ok id session reason n change s :
  (∀ p, ran p (change p)) → plans_ok s → plans_ok (on_plan id session reason n change s).1.
Proof.
  intros Hr Hs. unfold on_plan. destruct (swarm_id_for session s) as [w|]; [|done].
  destruct (ss_plans s !! w) as [p|] eqn:E; [|done].
  pose proof (ran_plan_ok p (change p) (Hr p) (Hs _ _ E)) as H. destruct (change p) as [p' r].
  by apply plans_ok_insert.
Qed.

Lemma ensure_seeder_plans w session s :
  ss_plans (ensure_seeder_can_coordinate is_closed w session s).2 = ss_plans s.
Proof.
  unfold ensure_seeder_can_coordinate, promote_seeder. destruct (inspect_coordinator _ _ _ _) as [|current]; [done|].
  case_bool_decide; [done|]. destruct current; [|done]. simpl. by case_bool_decide.
Qed.

Lemma seed_plan_ok mode session specs p : plan_ok p → plan_ok (seed_plan mode session specs p).1.
Proof.
  intros H. destruct (seed_plan_ran mode session specs p) as [Hr|[-> _]]; [|done].
  eapply ran_plan_ok; [exact Hr|]. eapply plan_ok_shape; [|exact H]. symmetry. apply shape_opened.
Qed.

Lemma plans_ok_step s s' : server_step s s' → plans_ok s → plans_ok s'.
Proof.
  intros Hs Hok. destruct Hs.
  - unfold GraphHandlers.handle_comm_seed_graph. destruct (swarm_id_for session s) as [w|]; [|done].
    assert (plan_ok (default plan_new (ss_plans s !! w))) as Hp.
    { destruct (ss_plans s !! w) eqn:E; simpl; [by apply (Hok w)|apply plan_ok_new]. }
    rewrite ensure_seeder_plans. match goal with |- context [GraphHandlers.seed_plan _ _ ?m _ ?sp _] =>
      pose proof (seed_plan_ok m session sp _ Hp) as H; destruct (GraphHandlers.seed_plan _ _ m session sp _) as [p' r] end.
    cbn [fst]. apply plans_ok_insert; [done|]. unfold plans_ok. by rewrite ensure_seeder_plans.
  - apply on_plan_ok; [|done]. intros p. apply expand_plan_ran.
  - unfold GraphHandlers.handle_comm_complete_node. destruct (swarm_id_for session s) as [w|]; [|done].
    destruct (parse_artifact json); [|done]. apply on_plan_ok; [|done]. intros p. apply complete_plan_ran.
  - apply on_plan_ok; [|done]. intros p. apply inject_plan_ran.
  - eapply plans_ok_shapes; [apply same_shapes_remove|done].
  - eapply plans_ok_shapes; [apply same_shapes_status|done].
  - eapply plans_ok_shapes; [apply same_shapes_refresh|done].
  - eapply plans_ok_shapes; [apply same_shapes_touch|done].
  - eapply plans_ok_shapes; [|done]. apply same_shapes_alter. intros p.
    unfold shape. cbn. by rewrite map_map.
  - unfold plans_ok. by match goal with H : ss_plans _ = ss_plans _ |- _ => rewrite H end.
Qed.

Lemma sound_facts p :
  sound p →
  NoDup (map i_id (v_items p))
  ∧ (∀ i d, i ∈ v_items p → d ∈ i_blocked_by i → d ∈ map i_id (v_items p))
  ∧ cycle_item_ids (v_items p) = [].
Proof.
  intros [Hnd Hc Ha]. rewrite node_ids_lift in Hnd. split_and!; [done|..].
  - intros i d Hi Hd. assert (is_Some (get (lift p) d)) as [n Hn].
    { apply (Hc (i_id i) (lift_item from_json p i)); [|done]. by rewrite get_lift, find_item_NoDup. }
    rewrite get_lift in Hn. apply fmap_Some in Hn as (j & Hj & _). apply find_item_Some in Hj as [Hj <-].
    apply list_elem_of_fmap. eauto.
  - destruct (cycle_item_ids (v_items p)) as [|x l] eqn:E; [done|]. exfalso.
    apply (acyclic_no_cycle_ids from_json p x); [done|done|]. unfold on_cycle. rewrite E. set_solver.
Qed.

Lemma lift_bump p : lift (bump p) = lift p.
Proof. done. Qed.

Lemma lift_commit p g :
  (∀ a, ∃ j, to_json a = Some j ∧ from_json j = Some a) →
  sound p → rtc dag_step (lift p) g → (∀ n, n ∈ g_nodes g → n_priority n ≤ 2)%N → lift (commit p g) = g.
Proof.
  intros Hj Hs Hr Hp. unfold GraphHandlers.commit. rewrite lift_bump.
  assert (NoDup (map i_id (v_items p))) as Hnd by (rewrite <-(node_ids_lift from_json); apply Hs).
  pose proof (wf_nodup _ (wf_steps _ _ Hr Hs)) as Hnd'.
  apply lower_lift_roundtrip; [done|done|]. intros n Hn. eapply priority_matches_steps; eauto.
Qed.

(** The outcome of a request on a plan, stated on the engine: the stored plan is the result
    of engine steps from the plan it started with, or nothing happened. *)
Definition engine_ran (p : VersionedPlan) (o : VersionedPlan * result unit string) : Prop :=
  match o with
  | (p', Ok _) => ∃ g, rtc dag_step (lift p) g ∧ ((∀ n, n ∈ g_nodes g → n_priority n ≤ 2)%N → lift p' = g)
  | (p', Err _) => p' = p
  end.

Lemma ran_engine_ran p o :
  (∀ a, ∃ j, to_json a = Some j ∧ from_json j = Some a) → sound p → ran p o → engine_ran p o.
Proof.
  intros Hj Hs. destruct o as [p' [[]|e]]; simpl; [|done]. intros (g & Hr & Hp & _). exists g. split; [done|].
  intros Hn. destruct Hp as [->|[-> ->]]; [by apply lift_commit|done].
Qed.

(** C19 (refinement). The handlers implement the engine.  On a sound plan, and with a
    serializer that reads back what it writes, whatever a session expands, completes or
    injects: an accepted request leaves a plan that, lifted again, is the graph the engine
    reaches by its own steps from the lifted plan, and a refused one leaves the plan as it
    was.  A seed does the same from the plan with the requested mode and the seeder as a
    participant, unless it would downgrade a deep plan.  (Priorities of new nodes must be
    ranks that have a name.) *)
Theorem graph_requests_run_the_engine p :
  (∀ a, ∃ j, to_json a = Some j ∧ from_json j = Some a) → sound p →
  (∀ x session specs, engine_ran p (expand_plan x session specs p))
  ∧ (∀ x session artifact, engine_ran p (complete_plan x session artifact p))
  ∧ (∀ x session specs, engine_ran p (inject_plan x session specs p))
  ∧ (∀ mode session specs,
       engine_ran (opened mode session p) (seed_plan mode session specs p)
       ∨ ((seed_plan mode session specs p).1 = p ∧ is_ok (seed_plan mode session specs p).2 = false)).
Proof.
  intros Hj Hs. split_and!.
  - intros. apply ran_engine_ran; [done|done|apply expand_plan_ran].
  - intros. apply ran_engine_ran; [done|done|apply complete_plan_ran].
  - intros. apply ran_engine_ran; [done|done|apply inject_plan_ran].
  - intros. destruct (seed_plan_ran mode session specs p) as [H|H]; [left|by right].
    apply ran_engine_ran; [done| |done]. eapply sound_shape; [|exact Hs]. symmetry. apply shape_opened.
Qed.

(** What a refused seed leaves behind.  Unless it is refused for downgrading a
    deep plan, the items, their metadata and progress and the version are as before, but the
    mode of the plan is the requested one and the seeder has joined: a seed that fails, say
    because of an unknown dependency, still turns a light plan into a deep one, and nothing
    of it is persisted or announced. *)
Theorem a_refused_seed_still_sets_the_mode efforts id session mode nodes s s' effects w message :
  swarm_id_for session s = Some w →
  handle_comm_seed_graph efforts id session (Some mode) nodes s = (s', effects) →
  effects = [err id message] →
  let p := default plan_new (ss_plans s !! w) in
  ss_plans s' = <[w := if downgrades_deep mode p then p else opened (Some mode) session p]> (ss_plans s).
Proof.
  unfold GraphHandlers.handle_comm_seed_graph. intros Hw. rewrite Hw, ensure_seeder_plans.
  set (p := default plan_new (ss_plans s !! w)).
  destruct (GraphHandlers.seed_plan to_json parse_artifact (Some mode) session (map spec_from_wire nodes) p) as [p' r] eqn:E.
  intros H Heff. injection H as <- <-. destruct r as [[]|m]; [done|]. simpl.
  rewrite ensure_seeder_plans. f_equal. revert E. unfold GraphHandlers.seed_plan.
  destruct (downgrades_deep mode p); [by intros [= <- _]|]. fold (opened (Some mode) session p).
  destruct (seed _ _); [destruct (graph_size_error _)|]; by intros [= <-].
Qed.

Lemma claimed_owner g x a n :
  get (claim_queued_node_for_actor g x a) x = Some n → n_owner n = Some a →
  ∃ n0, get g x = Some n0 ∧ (n_owner n0 = Some a ∨ n_owner n0 = None ∧ is_ready g n0 = true).
Proof.
  unfold claim_queued_node_for_actor. destruct (get g x) as [n0|] eqn:E; [|congruence].
  intros Hn Ho. exists n0. split; [done|].
  destruct (bool_decide (n_status n0 = DagTypes.Queued)) eqn:Hq; simpl in Hn; [|left; congruence].
  destruct (n_owner n0) as [o|] eqn:Ho0.
  - case_bool_decide; subst; [by left|]. left. congruence.
  - destruct (dispatch g x a) as [[] g'] eqn:Ed; simpl in Hn.
    + apply dispatch_ok in Ed as (n1 & Hn1 & Hr & _). right. split; [done|]. congruence.
    + assert (g' = g) as -> by (unfold dispatch in Ed; break_in Ed; by simplify_eq). left. congruence.
Qed.

(** Who may change item [x]: its assignee, or anyone when it is free and can be started. *)
Definition free_or_own (p : VersionedPlan) (session x : string) : Prop :=
  ∃ i, find_item (v_items p) x = Some i ∧
    (i_assigned_to i = Some session
     ∨ i_assigned_to i = None ∧ status_from_plan (i_status i) = DagTypes.Queued
       ∧ ∀ d, d ∈ i_blocked_by i → d ∈ completed_item_ids (v_items p)).

Lemma free_or_own_claimed p session x n :
  sound p → get (claim_queued_node_for_actor (lift p) x session) x = Some n → n_owner n = Some session →
  free_or_own p session x.
Proof.
  intros Hs Hn Ho. destruct (claimed_owner _ _ _ _ Hn Ho) as (n0 & Hn0 & H).
  rewrite get_lift in Hn0. apply fmap_Some in Hn0 as (i & Hi & ->). exists i. split; [done|].
  destruct H as [H|[H Hr]]; [by left|right]. split; [done|].
  unfold is_ready, deps_satisfied in Hr. apply andb_true_iff in Hr as [Hq%bool_decide_eq_true Hd].
  split; [done|]. intros d Hin. rewrite forallb_elem in Hd. apply (done_lift from_json).
  - rewrite <-(node_ids_lift from_json). apply Hs.
  - by apply Hd.
Qed.

(** Nobody works on another's node.  A request to expand, complete or extend
    node x is accepted only if the item was assigned to that session, or was unassigned,
    queued and had all its dependencies completed, in which case the session takes it. *)
Theorem only_free_or_own_nodes_are_changed p session x :
  sound p →
  (∀ specs, is_ok (expand_plan x session specs p).2 = true → free_or_own p session x)
  ∧ (∀ artifact, is_ok (complete_plan x session artifact p).2 = true → free_or_own p session x)
  ∧ (∀ specs, is_ok (inject_plan x session specs p).2 = true → free_or_own p session x).
Proof.
  intros Hs. split_and!; intros y.
  - unfold GraphHandlers.expand_plan. destruct (expand_node _ _ _ _) as [[g out]|e] eqn:E; [|done].
    apply expand_node_ok in E as (n & Hn & Ho & _). intros _. by eapply free_or_own_claimed.
  - unfold GraphHandlers.complete_plan. destruct (complete_node _ _ _ _) as [g|e] eqn:E; [|done].
    apply complete_node_ok in E as (n & Hn & Ho & _). intros _. by eapply free_or_own_claimed.
  - unfold GraphHandlers.inject_plan. destruct (inject_from_gate _ _ _ _) as [[g out]|e] eqn:E; [|done].
    apply inject_from_gate_ok in E as (n & Hn & Ho & _). intros _. by eapply free_or_own_claimed.
Qed.

(** The session drives the swarm from a client that is still there. *)
Definition live_coordinator (w c : string) (s : SwarmState) : Prop :=
  ss_coordinators s !! w = Some c ∧
  ∃ m, ss_members s !! c = Some m ∧ is_closed c = false ∧ m_is_headless m = false.

Lemma inspect_cases w a s :
  match inspect_coordinator is_closed w a s with
  | inl true => ss_coordinators s !! w = Some a
  | inl false => ∃ c, live_coordinator w c s
  | inr current => ss_coordinators s !! w = current ∧ current ≠ Some a ∧ ∀ c, ¬ live_coordinator w c s
  end.
Proof.
  unfold inspect_coordinator, live_coordinator. case_bool_decide as H; [done|].
  destruct (ss_coordinators s !! w) as [c|] eqn:Ec.
  - destruct (ss_members s !! c) as [m|] eqn:Em.
    + destruct (is_closed c) eqn:Hcl, (m_is_headless m) eqn:Hh; simpl.
      4: (exists c; eauto 10).
      all: split_and!; [done|done|]; intros c' [Hc' (m' & Hm' & ? & ?)]; simplify_eq; congruence.
    + simpl. split_and!; [done|done|]. intros c' [Hc' (m' & Hm' & _)]. simplify_eq.
  - split_and!; [done|done|]. by intros c' [? _].
Qed.

(** Seeding makes a driver and displaces none.  After a session of a swarm has
    seeded a graph, it is the coordinator, or the swarm has the coordinator it had before,
    whose client is connected and who is not headless; a session that becomes coordinator
    has the role too.  And if another seeder wins the race between the check and the
    promotion, the promotion changes nothing. *)
Theorem seeding_displaces_no_live_coordinator efforts id a mode nodes s w m :
  swarm_id_for a s = Some w → ss_members s !! a = Some m →
  let s' := (handle_comm_seed_graph efforts id a mode nodes s).1 in
  ((ss_coordinators s' !! w = Some a
    ∧ (ss_coordinators s !! w ≠ Some a → m_role <$> ss_members s' !! a = Some "coordinator"))
   ∨ ∃ c, live_coordinator w c s ∧ ss_coordinators s' !! w = Some c)
  ∧ ∀ current s1, inspect_coordinator is_closed w a s = inr current →
      ss_coordinators s1 !! w ≠ current → (promote_seeder w a current s1).2 = s1.
Proof.
  intros Hw Hm. split.
  2: { intros current s1 _ Hne. unfold promote_seeder. by rewrite bool_decide_eq_true_2. }
  unfold GraphHandlers.handle_comm_seed_graph. rewrite Hw.
  match goal with |- context [GraphHandlers.seed_plan _ _ ?m _ ?sp ?p] =>
    destruct (GraphHandlers.seed_plan to_json parse_artifact m a sp p) as [p' r] end.
  cbn [fst with_plans ss_coordinators ss_members]. unfold ensure_seeder_can_coordinate.
  pose proof (inspect_cases w a s) as H. destruct (inspect_coordinator is_closed w a s) as [[]|current]; simpl.
  - left. split; [done|]. by intros [].
  - right. destruct H as [c [Hc Hl]]. exists c. by split.
  - left. destruct H as (Hc & Hne & _). unfold promote_seeder.
    rewrite bool_decide_eq_false_2 by (rewrite Hc; tauto). simpl.
    destruct current as [prior|]; simpl.
    + rewrite bool_decide_eq_false_2 by congruence. simpl. rewrite lookup_insert_eq. split; [done|]. intros _.
      rewrite lookup_alter_ne by congruence. by rewrite lookup_alter_eq, Hm.
    + rewrite lookup_insert_eq. split; [done|]. intros _. by rewrite lookup_alter_eq, Hm.
Qed.
End theorems.

(** ** Witnesses *)

Lemma sound_by_check parse p :
  bool_decide (NoDup (node_ids (to_task_graph (from_json parse) p)))
  && forallb (λ n, forallb (contains (to_task_graph (from_json parse) p)) (n_depends_on n))
       (g_nodes (to_task_graph (from_json parse) p))
  && is_nil (cycle_nodes (to_task_graph (from_json parse) p)) = true → sound parse p.
Proof.
  intros [[H1%bool_decide_eq_true H2]%andb_true_iff H3]%andb_true_iff. apply wf_commit; [split; [done|]|].
  - intros x n d Hx Hd. apply get_elem in Hx. rewrite forallb_elem in H2. apply H2 in Hx.
    rewrite forallb_elem in Hx. by apply contains_spec, Hx.
  - by destruct (cycle_nodes _).
Qed.

Definition sample_parse (json : string) : result HandoffArtifact string :=
  match sample_from_json json with Some a => Ok a | None => Err "expected value" end.

Lemma sample_parse_roundtrip a : ∃ j, sample_to_json a = Some j ∧ from_json sample_parse j = Some a.
Proof.
  destruct (sample_json_roundtrip a) as (j & H1 & H2). exists j. split; [done|].
  unfold from_json, sample_parse. by rewrite H2.
Qed.

Definition sample_wire (id : string) (depends_on : list string) : TaskGraphNodeSpec := {|
  t_id := id; t_content := "do " +:+ id; t_kind := None; t_depends_on := depends_on; t_priority := 0 |}.

Definition solo : SwarmMember := {|
  m_session_id := "alice"; m_swarm_id := Some "w"; m_status := "running"; m_detail := None; m_task_label := None;
  m_friendly_name := Some "Alice"; m_report_back_to := None; m_latest_completion_report := None; m_role := "agent";
  m_joined_at := 0; m_last_status_change := 0; m_is_headless := false; m_output_tail := None; m_elapsed_secs := None |}.

Definition solo_swarm : SwarmState := {|
  ss_members := {["alice" := solo]}; ss_swarms := {["w" := {["alice"]}]}; ss_coordinators := ∅; ss_plans := ∅;
  ss_history := []; ss_event_counter := 0; ss_outbox := [] |}.

Definition connected (_ : string) : bool := false.

Definition seed_sample : SwarmState → SwarmState * list Effect :=
  handle_comm_seed_graph sample_to_json sample_parse connected ∅ 1 "alice" (Some "deep")
    [sample_wire "a" []; sample_wire "b" ["a"]].

Definition expand_sample : SwarmState → SwarmState * list Effect :=
  handle_comm_expand_node sample_to_json sample_parse 2 "alice" "a" [sample_wire "a1" []; sample_wire "a2" ["a1"]].

Definition expanded_swarm : SwarmState := (expand_sample (seed_sample solo_swarm).1).1.

Definition expanded_plan : VersionedPlan := default plan_new (ss_plans expanded_swarm !! "w").

(** The deep plan has its root gate and, after the expansion of "a", the gate of "a". *)
Example expanded_ids :
  map i_id (v_items expanded_plan) = ["a"; "b"; "plan::gate"; "a1"; "a2"; "a::gate"].
Proof. vm_compute. reflexivity. Qed.

Lemma expanded_plan_sound : sound sample_parse expanded_plan.
Proof. apply sound_by_check. vm_compute. reflexivity. Qed.

Definition sample_children : list NodeSpec := [spec_from_wire (sample_wire "c" [])].

(** Item [a1] is free: expanding it starts it and gives it a child and a gate. *)
Definition twice_expanded : VersionedPlan * result unit string :=
  expand_plan sample_to_json sample_parse "a1" "alice" sample_children expanded_plan.

Lemma graph_requests_run_the_engine_witness :
  is_ok twice_expanded.2 = true ∧ engine_ran sample_parse expanded_plan twice_expanded.
Proof.
  split; [vm_compute; reflexivity|].
  destruct (graph_requests_run_the_engine sample_to_json sample_parse expanded_plan sample_parse_roundtrip expanded_plan_sound)
    as [H _]. exact (H "a1" "alice" sample_children).
Defined.

Lemma only_free_or_own_nodes_are_changed_witness :
  is_ok (expand_plan sample_to_json sample_parse "a1" "bob" sample_children expanded_plan).2 = true
  ∧ free_or_own expanded_plan "bob" "a1"
  ∧ is_ok (expand_plan sample_to_json sample_parse "a1" "bob" sample_children twice_expanded.1).2 = false.
Proof.
  assert (is_ok (expand_plan sample_to_json sample_parse "a1" "bob" sample_children expanded_plan).2 = true) as H
    by (vm_compute; reflexivity).
  split; [exact H|]. split; [|vm_compute; reflexivity].
  destruct (only_free_or_own_nodes_are_changed sample_to_json sample_parse expanded_plan "bob" "a1" expanded_plan_sound)
    as [He _]. by apply (He sample_children).
Defined.

(** A light plan of one item, and a deep seed with an unknown dependency. *)
Definition light_swarm : SwarmState :=
  (handle_comm_seed_graph sample_to_json sample_parse connected ∅ 1 "alice" None [sample_wire "a" []] solo_swarm).1.

Definition bad_seed : list TaskGraphNodeSpec := [sample_wire "b" ["nowhere"]].

Lemma a_refused_seed_still_sets_the_mode_witness :
  v_mode <$> ss_plans light_swarm !! "w" = Some "light"
  ∧ let '(s', effects) := handle_comm_seed_graph sample_to_json sample_parse connected ∅ 2 "alice" (Some "deep") bad_seed light_swarm in
    effects = [err 2 "Seed rejected: node 'b' depends on unknown node 'nowhere'"]
    ∧ ss_plans s' = <["w" := opened (Some "deep") "alice" (default plan_new (ss_plans light_swarm !! "w"))]> (ss_plans light_swarm).
Proof.
  split; [vm_compute; reflexivity|].
  destruct (handle_comm_seed_graph sample_to_json sample_parse connected ∅ 2 "alice" (Some "deep") bad_seed light_swarm)
    as [s' effects] eqn:E.
  assert (effects = [err 2 "Seed rejected: node 'b' depends on unknown node 'nowhere'"]) as He.
  { apply (f_equal snd) in E. change effects with ((s', effects).2). transitivity (
      (handle_comm_seed_graph sample_to_json sample_parse connected ∅ 2 "alice" (Some "deep") bad_seed light_swarm).2);
      [by symmetry|vm_compute; reflexivity]. }
  split; [exact He|].
  rewrite (a_refused_seed_still_sets_the_mode sample_to_json sample_parse connected ∅ 2 "alice" "deep" bad_seed light_swarm
    s' effects "w" _ ltac:(vm_compute; reflexivity) E He).
  by replace (downgrades_deep "deep" (default plan_new (ss_plans light_swarm !! "w"))) with false by (vm_compute; reflexivity).
Defined.

Lemma seeding_displaces_no_live_coordinator_witness :
  ss_coordinators solo_swarm !! "w" = None
  ∧ (ss_coordinators (seed_sample solo_swarm).1 !! "w" = Some "alice"
     ∨ ∃ c, live_coordinator connected "w" c solo_swarm ∧ ss_coordinators (seed_sample solo_swarm).1 !! "w" = Some c).
Proof.
  split; [vm_compute; reflexivity|].
  destruct (seeding_displaces_no_live_coordinator sample_to_json sample_parse connected ∅ 1 "alice" (Some "deep")
    [sample_wire "a" []; sample_wire "b" ["a"]] solo_swarm "w" solo eq_refl eq_refl) as [[[H _]|H] _]; [by left|by right].
Defined.
