(* ===== verification/PlanHandlers.v ===== *)
(** * Handlers of the server for plans and shared context

    crates/jcode-app-core/src/server/comm_plan.rs: the coordinator replaces the plan of its
    swarm, other members propose items that it approves or rejects.  A proposal waits in the
    shared context of the swarm, which client_comm_context.rs lets every member write.
    Approvals and rejections go through the deduplication of [MutationState]. *)

From S2P Require Import MutationState.
From S2P Require Import Prelude RustStr RustText PlanTypes PlanCycle Plan SwarmCore SwarmProgress SwarmMembers Effects GraphHandlers.

Record SharedContext := {
  c_key : string;
  c_value : string;
  c_from_session : string;
  c_from_name : option string;
  c_created_at : N;
  c_updated_at : N;
}.

(** The tables of the swarms and, per swarm, the shared context by key. *)
Record Tables := {
  t_swarm : SwarmState;
  t_context : gmap string (gmap string SharedContext);
}.

Definition with_swarm (f : SwarmState → SwarmState) (t : Tables) : Tables := {|
  t_swarm := f (t_swarm t); t_context := t_context t |}.

Definition with_context (f : gmap string (gmap string SharedContext) → gmap string (gmap string SharedContext)) (t : Tables)
  : Tables := {| t_swarm := t_swarm t; t_context := f (t_context t) |}.

Definition context_entry (swarm_id key : string) (t : Tables) : option SharedContext :=
  t_context t !! swarm_id ≫= λ ctx, ctx !! key.

(** [entry(swarm_id).or_insert_with(HashMap::new).insert(key, c)]. *)
Definition put_context (swarm_id key : string) (c : SharedContext) : Tables → Tables :=
  with_context (λ all, <[swarm_id := <[key := c]> (default ∅ (all !! swarm_id))]> all).

Definition remove_context (swarm_id key : string) : Tables → Tables :=
  with_context (alter (delete key) swarm_id).

(** ** Shared context *)

Definition not_in_swarm : string := "Not in a swarm. Use a git repository to enable swarm features.".

Definition swarm_session_ids (swarm_id : string) (s : SwarmState) : list string :=
  elements (default ∅ (ss_swarms s !! swarm_id)).

(** The other sessions that a session reaches without naming them: those it spawned, or the
    whole swarm when it is the coordinator. *)
Definition subtree_targets (session_id swarm_id : string) (s : SwarmState) : list string :=
  let coordinator := match ss_members s !! session_id with
                     | Some m => bool_decide (m_role m = "coordinator")
                     | None => false
                     end in
  List.filter (λ sid, negb (bool_decide (sid = session_id))
                 && (coordinator || swarm_is_self_or_ancestor (ss_members s) session_id sid))
    (swarm_session_ids swarm_id s).

Definition shared_value (append : bool) (value : string) (existing : option SharedContext) : string :=
  if append then
    match existing with
    | Some c => if is_empty (c_value c) then value else c_value c +:+ newline +:+ value
    | None => value
    end
  else value.

Definition handle_comm_share (now id : N) (session key value : string) (append : bool) (t : Tables) : Tables * list Effect :=
  match swarm_id_for session (t_swarm t) with
  | None => (t, [err id not_in_swarm])
  | Some swarm_id =>
      let name := friendly_name_for_session session (t_swarm t) in
      let existing := context_entry swarm_id key t in
      let t := put_context swarm_id key {|
        c_key := key; c_value := shared_value append value existing; c_from_session := session; c_from_name := name;
        c_created_at := match existing with Some c => c_created_at c | None => now end; c_updated_at := now |} t in
      let notification := SharedContextNotice key (if append then "(appended) " +:+ value else value) in
      let message := if append then "Appended shared context: " +:+ key +:+ " += " +:+ value
                     else "Shared context: " +:+ key +:+ " = " +:+ value in
      (t, map (λ sid, Notify sid session name notification message) (subtree_targets session swarm_id (t_swarm t))
          ++ [RecordEvent session name (Some swarm_id) (ContextUpdate swarm_id key); Reply (EventDone id)])
  end.

Definition to_context_entry (c : SharedContext) : ContextEntry := {|
  ce_key := c_key c; ce_value := c_value c; ce_from_session := c_from_session c; ce_from_name := c_from_name c |}.

Definition handle_comm_read (id : N) (session : string) (key : option string) (t : Tables) : list Effect :=
  let entries :=
    match swarm_id_for session (t_swarm t) with
    | None => []
    | Some swarm_id =>
        match t_context t !! swarm_id with
        | None => []
        | Some ctx =>
            match key with
            | Some k => match ctx !! k with Some c => [to_context_entry c] | None => [] end
            | None => map to_context_entry (map_to_list ctx).*2
            end
        end
    end in
  [ReplyContext id entries].

(** ** Plans *)

Definition plan_cycle_error (items : list PlanItem) : option string :=
  match cycle_item_ids items with
  | [] => None
  | cycle_ids =>
      Some ("Plan rejected: dependency cycle among item(s): " +:+ join ", " cycle_ids
            +:+ ". Fix the blocked_by edges so the plan forms a DAG, then propose again.")
  end.

Definition require_coordinator_swarm (session permission_error : string) (s : SwarmState) : result string string :=
  let swarm_id := swarm_id_for session s in
  let is_coordinator := match swarm_id with
                        | Some w => bool_decide (ss_coordinators s !! w = Some session)
                        | None => false
                        end in
  fail_if negb is_coordinator with permission_error ;;
  match swarm_id with Some w => Ok w | None => Err "Not in a swarm." end.

Definition add_owners (items : list PlanItem) (p : VersionedPlan) : VersionedPlan :=
  foldl (λ p i, match i_assigned_to i with Some owner => add_participant owner p | None => p end) p items.

Definition proposal_key (session : string) : string := "plan_proposal:" +:+ session.

Section plans.
Context (items_to_json : list PlanItem → option string).
Context (items_from_json : string → option (list PlanItem)).

(** The plan after the coordinator replaced its items. *)
Definition replace_plan (session : string) (items : list PlanItem) (p : VersionedPlan) : VersionedPlan :=
  bump (replace_items items (add_owners items (add_participant session p))).

Definition tell (session : string) (name : option string) (scope : string) (message to : string) : Effect :=
  Notify to session name (MessageNotice (Some scope) None None) message.

Definition is_member (s : SwarmState) (sid : string) : bool :=
  match ss_members s !! sid with Some _ => true | None => false end.

(** Everyone on the plan except the coordinator hears of a direct update. *)
Definition announce_update (session : string) (name : option string) (message : string) (p : VersionedPlan) (s : SwarmState)
  : list Effect :=
  elements (v_participants p) ≫= λ sid,
    if bool_decide (sid = session) then []
    else (if is_member s sid then [tell session name "plan" message sid] else []) ++ [Interrupt sid message].

Definition update_directly (id : N) (session swarm_id : string) (items : list PlanItem) (t : Tables) : Tables * list Effect :=
  match plan_cycle_error items with
  | Some message => (t, [err id message])
  | None =>
      let name := friendly_name_for_session session (t_swarm t) in
      let label := match name with Some n => n | None => take_chars 8 session end in
      let p := replace_plan session items (default plan_new (ss_plans (t_swarm t) !! swarm_id)) in
      let t := with_swarm (with_plans <[swarm_id := p]>) t in
      let message := "Plan updated by " +:+ label +:+ " (" +:+ pretty_nat (length items) +:+ " items, v"
                     +:+ pretty (v_version p) +:+ ")" in
      (t, announce_update session name message p (t_swarm t)
          ++ [Persist swarm_id; BroadcastPlan swarm_id "coordinator_direct_update";
              RecordEvent session name (Some swarm_id) (PlanUpdate swarm_id (length items)); Reply (EventDone id)])
  end.

Definition store_proposal (now id : N) (session swarm_id coordinator : string) (items : list PlanItem) (t : Tables)
  : Tables * list Effect :=
  match plan_cycle_error items with
  | Some message => (t, [err id message])
  | None =>
      let s := t_swarm t in
      let name := friendly_name_for_session session s in
      let label := match name with Some n => n | None => take_chars 8 session end in
      let key := proposal_key session in
      let value := match items_to_json items with Some j => j | None => "[]" end in
      let t := put_context swarm_id key {|
        c_key := key; c_value := value; c_from_session := session; c_from_name := name;
        c_created_at := now; c_updated_at := now |} t in
      let summary := summarize_plan_items items 3 in
      let message := "Plan proposal from " +:+ label +:+ " (" +:+ pretty_nat (length items) +:+ " items). Summary: "
                     +:+ summary +:+ ". Review with communicate read key '" +:+ key +:+ "'." in
      let confirmation := "Plan proposal sent to coordinator (not yet applied)." in
      (t, [RecordEvent session name (Some swarm_id) (PlanProposal swarm_id session (length items))]
          ++ (if is_member s coordinator then
                [tell session name "plan_proposal" message coordinator;
                 SendProposal coordinator swarm_id session name items summary key]
              else [])
          ++ [Interrupt coordinator message]
          ++ (if is_member s session then [tell session name "plan_proposal" confirmation session] else [])
          ++ [Interrupt session confirmation; Reply (EventDone id)])
  end.

Definition handle_comm_propose_plan (now id : N) (session : string) (items : list PlanItem) (t : Tables) : Tables * list Effect :=
  match swarm_id_for session (t_swarm t) with
  | None => (t, [err id "Not in a swarm."])
  | Some swarm_id =>
      match ss_coordinators (t_swarm t) !! swarm_id with
      | None => (t, [err id "No coordinator for this swarm."])
      | Some coordinator =>
          if bool_decide (coordinator = session) then update_directly id session swarm_id items t
          else store_proposal now id session swarm_id coordinator items t
      end
  end.

(** server/comm_sync.rs: a session that lost sight of the plan of its swarm is put on it and
    told of it. *)
Definition handle_comm_resync_plan (id : N) (session : string) (s : SwarmState) : SwarmState * list Effect :=
  match swarm_id_for session s with
  | None => (s, [err id "Not in a swarm."])
  | Some w =>
      match ss_plans s !! w with
      | None => (s, [err id "No swarm plan exists for this swarm."])
      | Some p =>
          let message := "Plan attached to this session (v" +:+ pretty (v_version p) +:+ ", " +:+ pretty_nat (length (v_items p))
                         +:+ " items)." in
          (with_plans <[w := add_participant session p]> s,
           [Persist w]
           ++ (if is_member s session then [tell session (friendly_name_for_session session s) "plan" message session] else [])
           ++ [BroadcastPlan w "resync"; RecordEvent session None (Some w) (PlanUpdate w (length (v_items p)));
               Reply (EventDone id)])
      end
  end.

(** ** Approval and rejection *)

Definition extend_plan (session proposer : string) (items : list PlanItem) (p : VersionedPlan) : VersionedPlan :=
  add_owners items (add_participant proposer (add_participant session (bump (set_items (v_items p ++ items) p)))).

Definition no_proposal (proposer : string) : PersistedSwarmMutationResponse :=
  Error ("No pending plan proposal from session '" +:+ proposer +:+ "'") None.

(** Between [begin_or_replay] and [finish_request]: the response and what was done. *)
Definition approve_plan (session swarm_id proposer : string) (t : Tables)
  : Tables * list Effect * PersistedSwarmMutationResponse :=
  match context_entry swarm_id (proposal_key proposer) t with
  | None => (t, [], no_proposal proposer)
  | Some c =>
      match items_from_json (c_value c) with
      | None => (t, [], MutationState.Done)
      | Some items =>
          let existing := match ss_plans (t_swarm t) !! swarm_id with Some p => v_items p | None => [] end in
          let merged_count := length existing + length items in
          if MAX_PLAN_ITEMS <? merged_count then
            (t, [], Error ("Plan approval would contain " +:+ pretty_nat merged_count
                           +:+ " items, exceeding the per-swarm limit of " +:+ pretty_nat MAX_PLAN_ITEMS
                           +:+ "; finish or clear stale plan nodes first.") None)
          else
            match plan_cycle_error (existing ++ items) with
            | Some message => (t, [], Error message None)
            | None =>
                let p := extend_plan session proposer items (default plan_new (ss_plans (t_swarm t) !! swarm_id)) in
                let t := with_swarm (with_plans <[swarm_id := p]>) t in
                let t := remove_context swarm_id (proposal_key proposer) t in
                let name := friendly_name_for_session session (t_swarm t) in
                let message := "Plan approved by coordinator: " +:+ pretty_nat (length items) +:+ " items added from " +:+ proposer in
                (t, [BroadcastPlan swarm_id "proposal_approved";
                     RecordEvent session None (Some swarm_id) (PlanUpdate swarm_id (length items))]
                    ++ (elements (v_participants p) ≫= λ sid,
                          if is_member (t_swarm t) sid then [tell session name "plan" message sid; Interrupt sid message] else [])
                    ++ [Persist swarm_id],
                 MutationState.Done)
            end
      end
  end.

Definition reject_plan (session swarm_id proposer : string) (reason : option string) (t : Tables)
  : Tables * list Effect * PersistedSwarmMutationResponse :=
  match context_entry swarm_id (proposal_key proposer) t with
  | None => (t, [], no_proposal proposer)
  | Some _ =>
      let t := remove_context swarm_id (proposal_key proposer) t in
      let name := friendly_name_for_session session (t_swarm t) in
      let message := "Your plan proposal was rejected by the coordinator"
                     +:+ match reason with Some r => ": " +:+ r | None => "" end in
      (t, (if is_member (t_swarm t) proposer then [tell session name "dm" message proposer; Interrupt proposer message] else [])
          ++ [RecordEvent session name (Some swarm_id) (EventNotification "plan_rejected" proposer)],
       MutationState.Done)
  end.

(** A mutation that waits for nothing: the request, its execution unless it is replayed or
    joins another, and the answers. *)
Definition deduplicated {T} (file_ok : bool) (r : Request) (body : T → T * list Effect * PersistedSwarmMutationResponse)
  (t : T) (sh : Shared) : T * list Effect * Shared :=
  let o := {| file_ok := file_ok; answer := MutationState.Done |} in
  match begin_with_mode 8 o (Arrived r) sh with
  | (Executing st, sh) =>
      let '(t, effects, response) := body t in
      let fuel := 3 + length (default [] (waiters (sync sh) !! m_key st)) in
      (t, effects, (finish_request fuel o (Finishing st response) sh).2)
  | (_, sh) => (t, [], sh)
  end.

Section requests.
Context (hash : string → N).

Definition mutation_request (session action : string) (components : list string) (id : N) (client : nat) : Request := {|
  r_key := hashed_request_key hash session action components; r_action := action; r_session_id := session;
  r_request_id := id; r_client_event_tx := client; r_replay_final := true |}.

Definition handle_comm_approve_plan (file_ok : bool) (id : N) (client : nat) (session proposer : string) (t : Tables) (sh : Shared)
  : Tables * list Effect * Shared :=
  match require_coordinator_swarm session "Only the coordinator can approve plan proposals." (t_swarm t) with
  | Err message => (t, [err id message], sh)
  | Ok swarm_id =>
      deduplicated file_ok (mutation_request session "approve_plan" [swarm_id; proposer] id client)
        (approve_plan session swarm_id proposer) t sh
  end.

Definition handle_comm_reject_plan (file_ok : bool) (id : N) (client : nat) (session proposer : string) (reason : option string)
  (t : Tables) (sh : Shared) : Tables * list Effect * Shared :=
  match require_coordinator_swarm session "Only the coordinator can reject plan proposals." (t_swarm t) with
  | Err message => (t, [err id message], sh)
  | Ok swarm_id =>
      deduplicated file_ok
        (mutation_request session "reject_plan" [swarm_id; proposer; match reason with Some r => r | None => "" end] id client)
        (reject_plan session swarm_id proposer reason) t sh
  end.
End requests.
End plans.
