(* ===== verification/PlanHandlersTheorems.v ===== *)
(** * Theorems about plans, proposals and shared context *)

From S2P Require Import MutationState.
From S2P Require Import Prelude RustStr RustText PlanTypes PlanCycle Plan PlanLemmas PlanTheorems SwarmCore SwarmProgress SwarmMembers Effects GraphHandlers PlanHandlers MutationTheorems.

(** ** Tables *)

Lemma context_entry_put w k c t w' k' :
  context_entry w' k' (put_context w k c t) =
    if bool_decide (w' = w ∧ k' = k) then Some c else context_entry w' k' t.
Proof.
  unfold context_entry, put_context. simpl. case_bool_decide as H.
  - destruct H as [-> ->]. rewrite lookup_insert_eq. simpl. by rewrite lookup_insert_eq.
  - destruct (decide (w' = w)) as [->|Hw].
    + rewrite lookup_insert_eq. simpl. rewrite lookup_insert_ne by naive_solver.
      by destruct (t_context t !! w).
    + by rewrite lookup_insert_ne by done.
Qed.

Lemma context_entry_remove w k t : context_entry w k (remove_context w k t) = None.
Proof.
  unfold context_entry, remove_context. simpl. rewrite lookup_alter_eq.
  destruct (t_context t !! w); [|done]. simpl. apply lookup_delete_eq.
Qed.

Lemma v_items_add_owners items p : v_items (add_owners items p) = v_items p.
Proof.
  unfold add_owners. revert p. induction items as [|i l IH]; intros p; simpl; [done|].
  rewrite IH. by destruct (i_assigned_to i).
Qed.

Lemma v_version_add_owners items p : v_version (add_owners items p) = v_version p.
Proof.
  unfold add_owners. revert p. induction items as [|i l IH]; intros p; simpl; [done|].
  rewrite IH. by destruct (i_assigned_to i).
Qed.

Lemma v_items_replace_plan session items p : v_items (replace_plan session items p) = items.
Proof. done. Qed.

Lemma v_items_extend_plan session proposer items p :
  v_items (extend_plan session proposer items p) = v_items p ++ items.
Proof. unfold extend_plan. by rewrite v_items_add_owners. Qed.

Lemma require_coordinator_Ok session e s w :
  require_coordinator_swarm session e s = Ok w ↔ swarm_id_for session s = Some w ∧ ss_coordinators s !! w = Some session.
Proof.
  unfold require_coordinator_swarm. destruct (swarm_id_for session s) as [v|]; simpl; [|naive_solver].
  case_bool_decide as H; simpl; naive_solver.
Qed.

Lemma plan_cycle_error_None items : plan_cycle_error items = None ↔ cycle_item_ids items = [].
Proof. unfold plan_cycle_error. by destruct (cycle_item_ids items). Qed.

Lemma share_plans now id session key value append t :
  t_swarm (handle_comm_share now id session key value append t).1 = t_swarm t.
Proof. unfold handle_comm_share. by destruct (swarm_id_for _ _). Qed.

Lemma participants_add_owners items p : v_participants p ⊆ v_participants (add_owners items p).
Proof.
  unfold add_owners. revert p. induction items as [|i l IH]; intros p; simpl; [done|].
  etrans; [|apply IH]. destruct (i_assigned_to i); simpl; set_solver.
Qed.

Definition existing_items (w : string) (t : Tables) : list PlanItem :=
  match ss_plans (t_swarm t) !! w with Some p => v_items p | None => [] end.

Lemma v_items_existing w t : v_items (default plan_new (ss_plans (t_swarm t) !! w)) = existing_items w t.
Proof. unfold existing_items. by destruct (ss_plans (t_swarm t) !! w). Qed.

Record quiet (r : Request) (sh : Shared) : Prop := {
  q_unlocked : locked sh = false;
  q_inactive : r_key r ∉ active_keys (sync sh);
  q_no_waiter : waiters (sync sh) !! r_key r = None;
  q_no_file : files sh !! r_key r = None;
}.

Lemma deduplicated_runs {T} r body (t : T) sh :
  r_replay_final r = true → quiet r sh →
  let '(t', effects, response) := body t in
  ∃ sh', deduplicated true r body t sh = (t', effects, sh')
    ∧ locked sh' = false ∧ clock sh' = clock sh ∧ r_key r ∉ active_keys (sync sh')
    ∧ files sh' !! r_key r =
        Some (with_final_response (pending_state (r_key r) (r_action r) (r_session_id r) (clock sh)) response)
    ∧ sent sh' = sent sh ++ [(r_client_event_tx r, into_server_event response (r_request_id r) (r_session_id r))].
Proof.
  intros Hr [Hl Ha Hw Hf]. unfold deduplicated.
  rewrite (begin_executes 2) by done. destruct (body t) as [[t' effects] response].
  rewrite (finish_runs _ (pending_state (r_key r) (r_action r) (r_session_id r) (clock sh))) by done.
  eexists. split; [done|]. cbn.
  split_and!; [done|done|set_solver|by rewrite lookup_insert_eq|]. by rewrite lookup_insert_eq, Hw.
Qed.

Lemma deduplicated_replays {T} r body (t : T) sh st response :
  r_replay_final r = true → locked sh = false → files sh !! r_key r = Some st → m_final_response st = Some response →
  (clock sh - m_created_at_unix_ms st ≤ FINAL_STATE_TTL)%N →
  ∃ sh', deduplicated true r body t sh = (t, [], sh')
    ∧ sent sh' = sent sh ++ [(r_client_event_tx r, into_server_event response (r_request_id r) (r_session_id r))].
Proof.
  intros Hr Hl Hf Hresp Httl. unfold deduplicated. rewrite (begin_replays 6 _ _ _ st response) by
    (done || (unfold load_state, is_stale, elapsed_exceeds; rewrite Hf, Hresp, (proj2 (N.ltb_ge _ _)) by done; done)).
  eexists. split; [done|]. done.
Qed.

Definition plain_item (id : string) : PlanItem := {|
  i_content := "work"; i_status := "queued"; i_priority := "high"; i_id := id; i_subsystem := None;
  i_file_scope := []; i_blocked_by := []; i_assigned_to := None |}.

Lemma no_deps_no_cycle items : (∀ i, i ∈ items → i_blocked_by i = []) → cycle_item_ids items = [].
Proof.
  intros H. destruct (cycle_item_ids items) as [|x l] eqn:E; [done|]. exfalso.
  assert (x ∈ cycle_item_ids items) as Hx by (rewrite E; set_solver).
  apply elem_of_cycle_item_ids in Hx as (_ & c & Hc & _).
  assert (∃ d, item_dep items d c) as [d (i & Hi & _ & Hd & _)].
  { assert (∀ x y, tc (item_dep items) x y → ∃ d, item_dep items d y) as Hl by (induction 1; eauto). by eapply Hl. }
  rewrite (H i Hi) in Hd. set_solver.
Qed.

Section theorems.
Context (items_to_json : list PlanItem → option string).
Context (items_from_json : string → option (list PlanItem)).
Context (hash : string → N).

Abbreviation handle_comm_propose_plan := (handle_comm_propose_plan items_to_json).
Abbreviation approve_plan := (approve_plan items_from_json).
Abbreviation handle_comm_approve_plan := (handle_comm_approve_plan items_from_json hash).
Abbreviation handle_comm_reject_plan := (handle_comm_reject_plan hash).
Abbreviation plans t := (ss_plans (t_swarm t)).

(** ** What each handler does to the plans *)

(** The plans after an operation of [session]: none changed, or [session] coordinates swarm
    [w] and the plan of [w] became [p]. *)
Definition plan_change (session : string) (ok : VersionedPlan → Prop) (t t' : Tables) : Prop :=
  plans t' = plans t ∨
  ∃ w p, swarm_id_for session (t_swarm t) = Some w ∧ ss_coordinators (t_swarm t) !! w = Some session
    ∧ ok p ∧ plans t' = <[w := p]> (plans t).

Definition acyclic_plan (p : VersionedPlan) : Prop := cycle_item_ids (v_items p) = [].

Lemma propose_change now id session items t :
  plan_change session acyclic_plan t (handle_comm_propose_plan now id session items t).1.
Proof.
  unfold PlanHandlers.handle_comm_propose_plan. destruct (swarm_id_for session (t_swarm t)) as [w|] eqn:Hw; [|by left].
  destruct (ss_coordinators (t_swarm t) !! w) as [c|] eqn:Hc; [|by left]. case_bool_decide as H.
  - subst c. unfold update_directly. destruct (plan_cycle_error items) eqn:E; [by left|]. right.
    apply plan_cycle_error_None in E. exists w, (replace_plan session items (default plan_new (plans t !! w))).
    unfold acyclic_plan. by rewrite v_items_replace_plan.
  - unfold store_proposal. destruct (plan_cycle_error items); by left.
Qed.

Lemma approve_change session w proposer t :
  swarm_id_for session (t_swarm t) = Some w → ss_coordinators (t_swarm t) !! w = Some session →
  plan_change session acyclic_plan t (approve_plan session w proposer t).1.1.
Proof.
  intros Hw Hc. unfold PlanHandlers.approve_plan. destruct (context_entry _ _ _) as [c|]; [|by left].
  destruct (items_from_json (c_value c)) as [items|]; [|by left].
  destruct (_ <? _); [by left|]. destruct (plan_cycle_error _) eqn:E; [by left|]. right.
  apply plan_cycle_error_None in E. eexists w, _. split_and!; [done|done| |done].
  unfold acyclic_plan. rewrite v_items_extend_plan. by destruct (plans t !! w).
Qed.

Lemma deduplicated_cases {T} file_ok r body (t : T) sh :
  (deduplicated file_ok r body t sh).1.1 = t ∨ (deduplicated file_ok r body t sh).1.1 = (body t).1.1.
Proof.
  unfold deduplicated. destruct (begin_with_mode 8 _ _ _) as [[] sh']; try by left.
  right. by destruct (body t) as [[t' e] response].
Qed.

Lemma approve_handler_change file_ok id client session proposer t sh :
  plan_change session acyclic_plan t (handle_comm_approve_plan file_ok id client session proposer t sh).1.1.
Proof.
  unfold PlanHandlers.handle_comm_approve_plan. destruct (require_coordinator_swarm _ _ _) as [w|] eqn:E; [|by left].
  apply require_coordinator_Ok in E as [Hw Hc].
  match goal with |- context [deduplicated ?f ?r ?b ?t ?s] => destruct (deduplicated_cases f r b t s) as [->| ->] end; [by left|].
  by apply approve_change.
Qed.

Lemma reject_plans session w proposer reason t : plans (reject_plan session w proposer reason t).1.1 = plans t.
Proof. unfold reject_plan. by destruct (context_entry _ _ _). Qed.

Lemma reject_handler_change file_ok id client session proposer reason t sh :
  plans (handle_comm_reject_plan file_ok id client session proposer reason t sh).1.1 = plans t.
Proof.
  unfold PlanHandlers.handle_comm_reject_plan. destruct (require_coordinator_swarm _ _ _) as [w|]; [|done].
  match goal with |- context [deduplicated ?f ?r ?b ?t ?s] => destruct (deduplicated_cases f r b t s) as [->| ->] end; [done|].
  apply reject_plans.
Qed.

(** Only the coordinator of a swarm changes its plan.  Whatever a session
    proposes, approves, rejects or shares, and whatever is in flight or on record, the plans
    stay as they are unless the session is the coordinator of its own swarm, and then no
    other swarm's plan changes. *)
Theorem only_the_coordinator_changes_the_plan session now id client file_ok sh t :
  (∀ items, plan_change session acyclic_plan t (handle_comm_propose_plan now id session items t).1)
  ∧ (∀ proposer, plan_change session acyclic_plan t (handle_comm_approve_plan file_ok id client session proposer t sh).1.1)
  ∧ (∀ proposer reason, plans (handle_comm_reject_plan file_ok id client session proposer reason t sh).1.1 = plans t)
  ∧ (∀ key value append, plans (handle_comm_share now id session key value append t).1 = plans t).
Proof.
  split_and!; intros; [apply propose_change|apply approve_handler_change|apply reject_handler_change|].
  by rewrite share_plans.
Qed.

(** One request about plans, or any other change that leaves the plans alone. *)
Inductive plan_step (t : Tables) : Tables → Prop :=
| step_propose now id session items : plan_step t (handle_comm_propose_plan now id session items t).1
| step_approve file_ok id client session proposer sh :
    plan_step t (handle_comm_approve_plan file_ok id client session proposer t sh).1.1
| step_reject file_ok id client session proposer reason sh :
    plan_step t (handle_comm_reject_plan file_ok id client session proposer reason t sh).1.1
| step_share now id session key value append : plan_step t (handle_comm_share now id session key value append t).1
| step_other t' : plans t' = plans t → plan_step t t'.

Definition plans_acyclic (t : Tables) : Prop := map_Forall (λ _ p, acyclic_plan p) (plans t).

Lemma plan_change_acyclic session t t' :
  plan_change session acyclic_plan t t' → plans_acyclic t → plans_acyclic t'.
Proof.
  unfold plans_acyclic. intros [->|(w & p & _ & _ & Hp & ->)]; [done|]. intros H. by apply map_Forall_insert_2.
Qed.

(** No cycle gets into a plan by the requests on whole plans: if no plan has
    a dependency cycle, none has one after any sequence of proposals, direct updates,
    approvals (also of proposals that arrived through the shared context), rejections and
    shared values, so that no item is parked forever behind itself. *)
Theorem plan_requests_keep_plans_acyclic t t' :
  plans_acyclic t → rtc plan_step t t' → plans_acyclic t'.
Proof.
  intros H Hr. induction Hr as [|t1 t2 t3 Hs _ IH]; [done|]. apply IH. clear IH. destruct Hs.
  - eapply plan_change_acyclic; [apply propose_change|done].
  - eapply plan_change_acyclic; [apply approve_handler_change|done].
  - unfold plans_acyclic. by rewrite reject_handler_change.
  - unfold plans_acyclic. by rewrite share_plans.
  - unfold plans_acyclic. by match goal with E : plans _ = plans _ |- _ => rewrite E end.
Qed.

(** ** Proposals *)

Lemma approve_plan_spec w coordinator proposer c items t :
  context_entry w (proposal_key proposer) t = Some c → items_from_json (c_value c) = Some items →
  let '(t2, effects, response) := approve_plan coordinator w proposer t in
  if (MAX_PLAN_ITEMS <? length (existing_items w t) + length items)
     || negb (is_nil (cycle_item_ids (existing_items w t ++ items)))
  then t2 = t ∧ effects = [] ∧ ∃ message, response = Error message None
  else response = MutationState.Done
    ∧ context_entry w (proposal_key proposer) t2 = None
    ∧ ∃ p, plans t2 = <[w := p]> (plans t)
        ∧ v_items p = existing_items w t ++ items
        ∧ v_version p = u64_succ (v_version (default plan_new (plans t !! w)))
        ∧ {[coordinator; proposer]} ∪ v_participants (default plan_new (plans t !! w)) ⊆ v_participants p.
Proof using Type.
  clear items_to_json hash.
  intros Hc Hj. unfold PlanHandlers.approve_plan. rewrite Hc, Hj. fold (existing_items w t).
  destruct (_ <? _); simpl; [eauto|]. unfold plan_cycle_error.
  destruct (cycle_item_ids (existing_items w t ++ items)) eqn:E; simpl; [|eauto].
  split; [done|]. split; [apply context_entry_remove|].
  eexists. split; [done|]. rewrite v_items_extend_plan, v_items_existing. split; [done|].
  unfold extend_plan. rewrite v_version_add_owners. split; [done|].
  etrans; [|apply participants_add_owners]. simpl. set_solver.
Qed.

(** From proposal to plan.  A proposal without a cycle changes no plan; when
    the coordinator approves it, the plan becomes the old items followed by exactly the
    proposed ones, one version on, with both sessions participating, and the proposal is
    gone; if that would exceed 1024 items or close a cycle with the old items, the approval
    is refused, nothing changes and the proposal stays. *)
Theorem an_approval_adds_exactly_the_proposal now id proposer coordinator items w t :
  (∀ l, ∃ j, items_to_json l = Some j ∧ items_from_json j = Some l) →
  swarm_id_for proposer (t_swarm t) = Some w → ss_coordinators (t_swarm t) !! w = Some coordinator →
  coordinator ≠ proposer → cycle_item_ids items = [] →
  let t1 := (handle_comm_propose_plan now id proposer items t).1 in
  let '(t2, effects, response) := approve_plan coordinator w proposer t1 in
  plans t1 = plans t ∧
  if (MAX_PLAN_ITEMS <? length (existing_items w t) + length items)
     || negb (is_nil (cycle_item_ids (existing_items w t ++ items)))
  then t2 = t1 ∧ effects = [] ∧ ∃ message, response = Error message None
  else response = MutationState.Done
    ∧ context_entry w (proposal_key proposer) t2 = None
    ∧ ∃ p, plans t2 = <[w := p]> (plans t)
        ∧ v_items p = existing_items w t ++ items
        ∧ v_version p = u64_succ (v_version (default plan_new (plans t !! w)))
        ∧ {[coordinator; proposer]} ∪ v_participants (default plan_new (plans t !! w)) ⊆ v_participants p.
Proof using Type.
  clear hash.
  intros Hj Hw Hc Hne Hcy t1. destruct (Hj items) as (j & Hj1 & Hj2).
  assert (plans t1 = plans t) as Hp.
  { unfold t1, PlanHandlers.handle_comm_propose_plan, store_proposal. rewrite Hw, Hc, bool_decide_eq_false_2 by done.
    by destruct (plan_cycle_error items). }
  assert (∃ c, context_entry w (proposal_key proposer) t1 = Some c ∧ c_value c = j) as (c & Hce & Hv).
  { unfold t1, PlanHandlers.handle_comm_propose_plan, store_proposal. rewrite Hw, Hc, bool_decide_eq_false_2 by done.
    rewrite (proj2 (plan_cycle_error_None items) Hcy), Hj1. cbn [fst]. rewrite context_entry_put, bool_decide_eq_true_2 by done.
    eauto. }
  pose proof (approve_plan_spec w coordinator proposer c items t1 Hce ltac:(by rewrite Hv)) as H.
  destruct (approve_plan coordinator w proposer t1) as [[t2 e] response].
  unfold existing_items in *. rewrite Hp in H. done.
Qed.

(** ** Deduplication *)

(** An approval is remembered by swarm and proposer, not by proposal.  A repeated
    approval within the time to live (30 s) is answered from the record and does not add
    the items twice; but so is the approval of another proposal that the same session has
    made since: the coordinator is told that it is done, the plan stays as it is and the
    new proposal stays pending. *)
Theorem a_second_approval_changes_nothing session proposer w id1 id2 client1 client2 t1 t2 sh later :
  swarm_id_for session (t_swarm t1) = Some w → ss_coordinators (t_swarm t1) !! w = Some session →
  swarm_id_for session (t_swarm t2) = Some w → ss_coordinators (t_swarm t2) !! w = Some session →
  quiet (mutation_request hash session "approve_plan" [w; proposer] id1 client1) sh →
  (later - clock sh ≤ FINAL_STATE_TTL)%N →
  let response := (approve_plan session w proposer t1).2 in
  let '(_, _, sh1) := handle_comm_approve_plan true id1 client1 session proposer t1 sh in
  ∃ sh2, handle_comm_approve_plan true id2 client2 session proposer t2 (set_clock later sh1) = (t2, [], sh2)
    ∧ sent sh2 = sent sh ++ [(client1, into_server_event response id1 session); (client2, into_server_event response id2 session)].
Proof using Type.
  clear items_to_json.
  intros Hw1 Hc1 Hw2 Hc2 Hq Hl response.
  unfold PlanHandlers.handle_comm_approve_plan.
  rewrite !(proj2 (require_coordinator_Ok session _ _ w)) by done.
  pose proof (deduplicated_runs (mutation_request hash session "approve_plan" [w; proposer] id1 client1)
    (approve_plan session w proposer) t1 sh eq_refl Hq) as H.
  unfold response. destruct (approve_plan session w proposer t1) as [[t' e] resp].
  destruct H as (sh1 & -> & Hl1 & Hck & Ha & Hf & Hsent).
  destruct (deduplicated_replays (mutation_request hash session "approve_plan" [w; proposer] id2 client2)
    (approve_plan session w proposer) t2 (set_clock later sh1)
    (with_final_response (pending_state (r_key (mutation_request hash session "approve_plan" [w; proposer] id1 client1))
       "approve_plan" session (clock sh)) resp) resp) as (sh2 & E & Hs2); [done..|].
  exists sh2. rewrite E. split; [done|]. rewrite Hs2. simpl. rewrite Hsent. by rewrite <-(assoc_L (++)).
Qed.

(** ** The limit *)

(** The limit of 1024 items has a way around.  Seeding, expanding, injecting
    and approving check it, but the coordinator's own update does not: for every n it can
    make a plan of n items. *)
Theorem a_direct_update_has_no_limit now id coordinator w t n :
  swarm_id_for coordinator (t_swarm t) = Some w → ss_coordinators (t_swarm t) !! w = Some coordinator →
  ∃ items p, length items = n
    ∧ plans (handle_comm_propose_plan now id coordinator items t).1 !! w = Some p ∧ v_items p = items.
Proof using Type.
  clear items_from_json hash.
  intros Hw Hc. exists (map (λ i, plain_item (pretty_nat i)) (seq 0 n)).
  eexists. split; [by rewrite length_map, length_seq|].
  unfold PlanHandlers.handle_comm_propose_plan. rewrite Hw, Hc, bool_decide_eq_true_2 by done.
  unfold update_directly. rewrite (proj2 (plan_cycle_error_None _)).
  - cbn [fst t_swarm with_swarm ss_plans with_plans]. rewrite lookup_insert_eq. split; [done|].
    apply v_items_replace_plan.
  - apply no_deps_no_cycle. intros i Hi. by apply list_elem_of_fmap in Hi as (k & -> & _).
Qed.

(** The key of a proposal is not reserved.  Any member of the swarm can share a
    value under the key of another member's proposal, and what the coordinator then approves
    in that member's name are the items of the value. *)
Theorem a_proposal_can_be_forged now id forger proposer coordinator value items w t :
  swarm_id_for forger (t_swarm t) = Some w → items_from_json value = Some items →
  length (existing_items w t) + length items ≤ MAX_PLAN_ITEMS → cycle_item_ids (existing_items w t ++ items) = [] →
  let t1 := (handle_comm_share now id forger (proposal_key proposer) value false t).1 in
  let '(t2, _, response) := approve_plan coordinator w proposer t1 in
  response = MutationState.Done ∧ existing_items w t2 = existing_items w t ++ items.
Proof using Type.
  clear items_to_json hash.
  intros Hw Hj Hlen Hcy t1.
  assert (t_swarm t1 = t_swarm t) as Hs by apply share_plans.
  assert (∃ c, context_entry w (proposal_key proposer) t1 = Some c ∧ c_value c = value) as (c & Hc & Hv).
  { unfold t1, handle_comm_share. rewrite Hw. cbn [fst]. rewrite context_entry_put, bool_decide_eq_true_2 by done. eauto. }
  pose proof (approve_plan_spec w coordinator proposer c items t1 Hc ltac:(by rewrite Hv)) as H.
  destruct (approve_plan coordinator w proposer t1) as [[t2 e] response].
  assert (existing_items w t1 = existing_items w t) as He by (unfold existing_items; by rewrite Hs).
  rewrite He, Hcy, (proj2 (Nat.ltb_ge _ _)) in H by done. simpl in H.
  destruct H as (Hr & _ & p & Hp & Hi & _). split; [done|]. unfold existing_items at 1. rewrite Hp, lookup_insert_eq. done.
Qed.
End theorems.

(** ** Witnesses *)

Definition item_fields (i : PlanItem) :=
  (i_content i, i_status i, i_priority i, i_id i, i_subsystem i, i_file_scope i, i_blocked_by i, i_assigned_to i).

Definition item_of_fields
  (t : string * string * string * string * option string * list string * list string * option string) : PlanItem :=
  let '(a, b, c, d, e, f, g, h) := t in {|
  i_content := a; i_status := b; i_priority := c; i_id := d; i_subsystem := e; i_file_scope := f;
  i_blocked_by := g; i_assigned_to := h |}.

Definition sample_items_to_json (l : list PlanItem) : option string := Some (write_code (encode (map item_fields l))).

Definition sample_items_from_json (j : string) : option (list PlanItem) := map item_of_fields <$> decode (read_code j).

Lemma sample_items_roundtrip l : ∃ j, sample_items_to_json l = Some j ∧ sample_items_from_json j = Some l.
Proof.
  eexists. split; [done|]. unfold sample_items_from_json.
  assert (∀ p, read_code (write_code p) = p) as -> by (induction p as [p IH|p IH|]; simpl; by rewrite ?IH).
  rewrite decode_encode. simpl. f_equal. rewrite map_map. rewrite <-(map_id l) at 2. apply map_ext. by intros [].
Qed.

Definition worker (id role : string) : SwarmMember := {|
  m_session_id := id; m_swarm_id := Some "w"; m_status := "running"; m_detail := None; m_task_label := None;
  m_friendly_name := None; m_report_back_to := None; m_latest_completion_report := None; m_role := role;
  m_joined_at := 0; m_last_status_change := 0; m_is_headless := false; m_output_tail := None; m_elapsed_secs := None |}.

Definition pair_plan : VersionedPlan := set_items [plain_item "a"] plan_new.

(** A coordinator, a worker, and a plan of one item. *)
Definition pair_tables : Tables := {|
  t_swarm := {|
    ss_members := {["boss" := worker "boss" "coordinator"; "bob" := worker "bob" "agent"]};
    ss_swarms := {["w" := {["boss"; "bob"]}]}; ss_coordinators := {["w" := "boss"]}; ss_plans := {["w" := pair_plan]};
    ss_history := []; ss_event_counter := 0; ss_outbox := [] |};
  t_context := ∅ |}.

Definition bobs_items : list PlanItem := [plain_item "b"].

Definition proposed : Tables := (handle_comm_propose_plan sample_items_to_json 0 1 "bob" bobs_items pair_tables).1.

Definition approved : Tables * list Effect * PersistedSwarmMutationResponse :=
  approve_plan sample_items_from_json "boss" "w" "bob" proposed.

Lemma pair_plans_acyclic : plans_acyclic pair_tables.
Proof. apply map_Forall_singleton. vm_compute. reflexivity. Qed.

Lemma plan_requests_keep_plans_acyclic_witness :
  map i_id (existing_items "w" approved.1.1) = ["a"; "b"] ∧ plans_acyclic proposed.
Proof.
  split; [vm_compute; reflexivity|].
  apply (plan_requests_keep_plans_acyclic sample_items_to_json sample_items_from_json (λ _, 0%N) pair_tables proposed
    pair_plans_acyclic).
  apply rtc_once. apply step_propose.
Defined.

Lemma an_approval_adds_exactly_the_proposal_witness :
  approved.2 = MutationState.Done ∧ existing_items "w" approved.1.1 = [plain_item "a"; plain_item "b"].
Proof.
  pose proof (an_approval_adds_exactly_the_proposal sample_items_to_json sample_items_from_json 0 1 "bob" "boss" bobs_items "w"
    pair_tables sample_items_roundtrip eq_refl eq_refl ltac:(done) ltac:(vm_compute; reflexivity)) as H.
  change (handle_comm_propose_plan sample_items_to_json 0 1 "bob" bobs_items pair_tables).1 with proposed in H.
  cbv zeta in H. unfold approved.
  destruct (approve_plan sample_items_from_json "boss" "w" "bob" proposed) as [[t2 e] response].
  destruct H as [_ H].
  replace ((MAX_PLAN_ITEMS <? length (existing_items "w" pair_tables) + length bobs_items)
     || negb (is_nil (cycle_item_ids (existing_items "w" pair_tables ++ bobs_items)))) with false in H
    by (vm_compute; reflexivity).
  destruct H as (Hr & _ & p & Hp & Hi & _). split; [exact Hr|]. unfold existing_items at 1.
  cbn [fst]. rewrite Hp, lookup_insert_eq. exact Hi.
Defined.

Definition no_mutation : Shared := shared (start ∅ 0).

(** Approve, propose again, approve again five seconds later: the second item never comes. *)
Lemma a_second_approval_changes_nothing_witness :
  let t2 := (handle_comm_propose_plan sample_items_to_json 0 1 "bob" [plain_item "c"] approved.1.1).1 in
  let '(_, _, sh1) := handle_comm_approve_plan sample_items_from_json (λ _, 0%N) true 7 0 "boss" "bob" proposed no_mutation in
  ∃ sh2, handle_comm_approve_plan sample_items_from_json (λ _, 0%N) true 8 0 "boss" "bob" t2 (set_clock 5000 sh1) = (t2, [], sh2)
    ∧ sent sh2 = [(0, EventDone 7); (0, EventDone 8)].
Proof.
  intros t2.
  pose proof (a_second_approval_changes_nothing sample_items_from_json (λ _, 0%N) "boss" "bob" "w" 7 8 0 0 proposed t2 no_mutation
    5000 eq_refl eq_refl eq_refl eq_refl) as H.
  assert ((approve_plan sample_items_from_json "boss" "w" "bob" proposed).2 = MutationState.Done) as Hd by (vm_compute; reflexivity).
  rewrite Hd in H. apply H; [|by vm_compute].
  split; [done| |done|done]. apply not_elem_of_empty.
Defined.

Lemma a_direct_update_has_no_limit_witness :
  ∃ items p, length items = 2000
    ∧ ss_plans (t_swarm (handle_comm_propose_plan sample_items_to_json 0 1 "boss" items pair_tables).1) !! "w" = Some p
    ∧ v_items p = items.
Proof. exact (a_direct_update_has_no_limit sample_items_to_json 0 1 "boss" "w" pair_tables 2000 eq_refl eq_refl). Defined.

Definition forged_json : string := default "" (sample_items_to_json [plain_item "evil"]).

Lemma a_proposal_can_be_forged_witness :
  let t1 := (handle_comm_share 0 1 "bob" (proposal_key "alice") forged_json false pair_tables).1 in
  existing_items "w" (approve_plan sample_items_from_json "boss" "w" "alice" t1).1.1 = [plain_item "a"; plain_item "evil"].
Proof.
  pose proof (a_proposal_can_be_forged sample_items_from_json 0 1 "bob" "alice" "boss" forged_json [plain_item "evil"] "w"
    pair_tables eq_refl ltac:(vm_compute; reflexivity) ltac:(vm_compute; lia) ltac:(vm_compute; reflexivity)) as H.
  cbv zeta in H |- *. destruct (approve_plan sample_items_from_json "boss" "w" "alice" _) as [[t2 e] response].
  exact (proj2 H).
Defined.

(** An approved proposal may repeat the id of an item of the plan. *)
Example approval_can_repeat_an_id :
  let t1 := (handle_comm_propose_plan sample_items_to_json 0 1 "bob" [plain_item "a"] pair_tables).1 in
  map i_id (existing_items "w" (approve_plan sample_items_from_json "boss" "w" "bob" t1).1.1) = ["a"; "a"].
Proof. vm_compute. reflexivity. Qed.
