(* ===== verification/TaskRun.v ===== *)
(** * The run of an assigned task

    crates/jcode-app-core/src/server/comm_control.rs, [spawn_assigned_task_run]: a task is
    marked running, the agent takes its turn while heartbeats and progress are recorded, and
    the end of the turn decides what becomes of the task.  Each function is what the run does
    between two points where it waits; anything may happen to the plan in between. *)

From S2P Require Import MutationState.
From S2P Require Import Prelude RustStr RustText PlanTypes PlanCycle Plan SwarmCore SwarmProgress SwarmMembers Effects.

(** ** What the end of a turn means *)

Inductive TurnEndDisposition := AutoComplete | RequeueNoArtifact | FailNoArtifact | LeaveAlone.

#[export] Instance TurnEndDisposition_eq_dec : EqDecision TurnEndDisposition.
Proof. solve_decision. Defined.

Definition turn_end_disposition (is_deep : bool) (status : string) (expanded : bool) (prior_no_artifact_requeues : N)
  : TurnEndDisposition :=
  if negb (mem status ["running"; "running_stale"]) then LeaveAlone
  else if is_deep then
    if (prior_no_artifact_requeues =? 0)%N then RequeueNoArtifact else FailNoArtifact
  else if expanded then LeaveAlone
  else AutoComplete.

(** ** The record of the run *)

Definition started_progress (now_ms : N) (target text : string) (t : SwarmTaskProgress) : SwarmTaskProgress := {|
  p_assigned_session_id := Some target; p_assignment_summary := Some (truncate_detail text 120);
  p_assigned_at_unix_ms := p_assigned_at_unix_ms t; p_started_at_unix_ms := Some now_ms;
  p_last_heartbeat_unix_ms := Some now_ms; p_last_detail := Some (truncate_detail text 120);
  p_last_checkpoint_unix_ms := Some now_ms; p_checkpoint_summary := Some "task started";
  p_completed_at_unix_ms := None; p_stale_since_unix_ms := None;
  p_heartbeat_count := Some (u64_succ (default 0%N (p_heartbeat_count t)));
  p_checkpoint_count := Some (u64_succ (default 0%N (p_checkpoint_count t)));
  p_no_artifact_requeues := p_no_artifact_requeues t; p_dead_assignee_reclaims := p_dead_assignee_reclaims t |}.

(** A last sign of life, with how it ended. *)
Definition closed_progress (now_ms : N) (summary : string) (t : SwarmTaskProgress) : SwarmTaskProgress := {|
  p_assigned_session_id := p_assigned_session_id t; p_assignment_summary := p_assignment_summary t;
  p_assigned_at_unix_ms := p_assigned_at_unix_ms t; p_started_at_unix_ms := p_started_at_unix_ms t;
  p_last_heartbeat_unix_ms := Some now_ms; p_last_detail := p_last_detail t;
  p_last_checkpoint_unix_ms := Some now_ms; p_checkpoint_summary := Some summary;
  p_completed_at_unix_ms := Some now_ms; p_stale_since_unix_ms := None;
  p_heartbeat_count := p_heartbeat_count t;
  p_checkpoint_count := Some (u64_succ (default 0%N (p_checkpoint_count t)));
  p_no_artifact_requeues := p_no_artifact_requeues t; p_dead_assignee_reclaims := p_dead_assignee_reclaims t |}.

Definition returned_progress (now_ms : N) (prior_requeues : N) (t : SwarmTaskProgress) : SwarmTaskProgress := {|
  p_assigned_session_id := None; p_assignment_summary := p_assignment_summary t;
  p_assigned_at_unix_ms := p_assigned_at_unix_ms t; p_started_at_unix_ms := p_started_at_unix_ms t;
  p_last_heartbeat_unix_ms := Some now_ms; p_last_detail := p_last_detail t;
  p_last_checkpoint_unix_ms := Some now_ms;
  p_checkpoint_summary := Some "requeued: deep-mode turn ended without a complete_node artifact";
  p_completed_at_unix_ms := p_completed_at_unix_ms t; p_stale_since_unix_ms := None;
  p_heartbeat_count := p_heartbeat_count t;
  p_checkpoint_count := Some (u64_succ (default 0%N (p_checkpoint_count t)));
  p_no_artifact_requeues := Some (u32_succ prior_requeues); p_dead_assignee_reclaims := p_dead_assignee_reclaims t |}.

(** ** On one plan *)

(** The change of an item that the plan has. *)
Definition on_item (task_id : string) (f : PlanItem → VersionedPlan → VersionedPlan) (p : VersionedPlan) : VersionedPlan :=
  match find_item (v_items p) task_id with Some i => f i p | None => p end.

Definition start_item (now_ms : N) (task_id target text : string) : VersionedPlan → VersionedPlan :=
  on_item task_id (λ _ p,
    revise task_id (set_status "running") (started_progress now_ms target text (progress_entry p task_id)) p).

(** What the end of a turn finds of its task. *)
Definition disposition_of (p : VersionedPlan) (i : PlanItem) : TurnEndDisposition :=
  turn_end_disposition (eq_ignore_ascii_case (v_mode p) "deep") (i_status i)
    (match v_node_meta p !! i_id i with Some m => m_expanded m && negb (m_is_gate m) | None => false end)
    (default 0%N (v_task_progress p !! i_id i ≫= p_no_artifact_requeues)).

Definition dispose (now_ms : N) (d : TurnEndDisposition) (task_id : string) (p : VersionedPlan) : VersionedPlan :=
  let t := progress_entry p task_id in
  match d with
  | AutoComplete => revise task_id (set_status "done") (closed_progress now_ms "task completed" t) p
  | RequeueNoArtifact =>
      revise task_id (λ i, set_assigned_to None (set_status "queued" i))
        (returned_progress now_ms (default 0%N (p_no_artifact_requeues t)) t) p
  | FailNoArtifact =>
      revise task_id (set_status "failed")
        (closed_progress now_ms "failed: repeated deep-mode turns ended without a complete_node artifact" t) p
  | LeaveAlone => p
  end.

Definition end_item (now_ms : N) (task_id : string) : VersionedPlan → VersionedPlan :=
  on_item task_id (λ i p, dispose now_ms (disposition_of p i) task_id p).

Definition fail_item (now_ms : N) (task_id error : string) : VersionedPlan → VersionedPlan :=
  on_item task_id (λ _ p,
    revise task_id (set_status "failed")
      (closed_progress now_ms (truncate_detail ("task failed: " +:+ error) 120) (progress_entry p task_id)) p).

(** ** In the swarm *)

Record Run := {
  run_target : string;
  run_swarm : string;
  run_task : string;
  run_text : string;      (** with the instructions for the completion report *)
}.

Definition new_run (target swarm_id task_id assignment_text : string) : Run := {|
  run_target := target; run_swarm := swarm_id; run_task := task_id;
  run_text := append_swarm_completion_report_instructions assignment_text |}.

Definition start_run (now_ms : N) (r : Run) (s : SwarmState) : SwarmState * list Effect :=
  let s := with_plans (alter (start_item now_ms (run_task r) (run_target r) (run_text r)) (run_swarm r)) s in
  let s := set_member_task_label (run_target r) (run_text r) s in
  let s := update_member_status now_ms (run_target r) "running" (Some (truncate_detail (run_text r) 120)) true s in
  (s, [Persist (run_swarm r); BroadcastPlan (run_swarm r) "task_running"]).

Definition revival (revived : bool) (r : Run) : list Effect :=
  if revived then [BroadcastPlan (run_swarm r) "task_heartbeat"] else [].

Definition beat (now_ms : N) (r : Run) (s : SwarmState) : SwarmState * list Effect :=
  let '(revived, s) := touch_swarm_task_progress now_ms (run_swarm r) (run_task r) (Some (run_target r)) None None s in
  (s, revival revived r).

(** What an event says of the progress: the detail and the checkpoint. *)
Definition event_progress (e : AgentEvent) : option string * option string :=
  match e with
  | StatusDetail detail => (Some detail, None)
  | ToolStart name => let summary := "tool start: " +:+ name in (Some summary, Some summary)
  | ToolDone name error =>
      let summary := (match error with Some _ => "tool error: " | None => "tool done: " end) +:+ name in
      (Some summary, Some summary)
  | SessionCloseRequested _ | OtherEvent => (None, None)
  end.

Definition progress_event (now_ms : N) (r : Run) (e : AgentEvent) (s : SwarmState) : SwarmState * list Effect :=
  match event_progress e with
  | (None, None) => (s, [Fanout (run_target r) e])
  | (detail, checkpoint_summary) =>
      let '(revived, s) :=
        touch_swarm_task_progress now_ms (run_swarm r) (run_task r) (Some (run_target r)) detail checkpoint_summary s in
      let s := match detail with
               | Some d => update_member_status now_ms (run_target r) "running" (Some (truncate_detail d 120)) true s
               | None => s
               end in
      (s, revival revived r ++ [Fanout (run_target r) e])
  end.

(** How a turn ends: with the report of the agent, or in an error. *)
Inductive TurnResult :=
| TurnOk (completion_report : option string)
| TurnErr (error : string).

Definition plan_reason (d : TurnEndDisposition) : string :=
  match d with
  | RequeueNoArtifact => "task_requeued_no_artifact"
  | FailNoArtifact => "task_failed_no_artifact"
  | AutoComplete | LeaveAlone => "task_completed"
  end.

Definition applied_disposition (r : Run) (s : SwarmState) : TurnEndDisposition :=
  match ss_plans s !! run_swarm r with
  | Some p => match find_item (v_items p) (run_task r) with Some i => disposition_of p i | None => LeaveAlone end
  | None => LeaveAlone
  end.

Definition end_run (now_ms : N) (r : Run) (result : TurnResult) (s : SwarmState) : SwarmState * list Effect :=
  match result with
  | TurnOk completion_report =>
      let previous_items := match ss_plans s !! run_swarm r with Some p => v_items p | None => [] end in
      let reason := plan_reason (applied_disposition r s) in
      let s := with_plans (alter (end_item now_ms (run_task r)) (run_swarm r)) s in
      let s := update_member_status_with_report now_ms (run_target r) "completed" None completion_report true s in
      (s, [Persist (run_swarm r); BroadcastPlanSince (run_swarm r) reason previous_items])
  | TurnErr error =>
      let s := with_plans (alter (fail_item now_ms (run_task r) error) (run_swarm r)) s in
      let s := update_member_status now_ms (run_target r) "failed" (Some (truncate_detail error 120)) true s in
      (s, [Persist (run_swarm r); BroadcastPlan (run_swarm r) "task_failed"])
  end.

(** The steps of a run. *)
Inductive RunStep :=
| Started
| Beat
| Reported (e : AgentEvent)
| Ended (result : TurnResult).

Definition run_step (now_ms : N) (r : Run) (step : RunStep) (s : SwarmState) : SwarmState * list Effect :=
  match step with
  | Started => start_run now_ms r s
  | Beat => beat now_ms r s
  | Reported e => progress_event now_ms r e s
  | Ended result => end_run now_ms r result s
  end.
