(* ===== verification/Workers.v ===== *)
(** * Workers: spawning and stopping

    crates/jcode-app-core/src/server/comm_session.rs and headless.rs: who may spawn a worker
    and how many there may be, what is registered for a new worker, with which model it
    runs, and who may stop whom.  The session itself (its agent, its window, its provider)
    is made outside; what came of it is an argument. *)

From S2P Require Import MutationState.
From S2P Require Import Prelude RustStr RustText PlanTypes Plan SwarmCore SwarmProgress SwarmMembers Effects GraphHandlers PlanHandlers.

(** What an agent did with a tool. *)
Record ToolCallSummary := {
  tc_tool_name : string;
  tc_brief_output : string;
}.

(** What the server knows of the sessions besides the tables: whether a client is connected,
    the agent that runs in the server and whether it is idle, what an agent did last, whether
    the channel of a member is closed, and whether all its channels are. *)
Record Sessions := {
  se_has_client : string → bool;
  se_agent_idle : string → option bool;
  se_tool_calls : string → list ToolCallSummary;
  se_is_closed : string → bool;
  se_unreachable : string → bool;
}.

Definition has_agent (se : Sessions) (session_id : string) : bool :=
  match se_agent_idle se session_id with Some _ => true | None => false end.

Definition add_agent (session_id : string) (se : Sessions) : Sessions := {|
  se_has_client := se_has_client se;
  se_agent_idle := λ sid, if bool_decide (sid = session_id) then Some true else se_agent_idle se sid;
  se_tool_calls := se_tool_calls se; se_is_closed := se_is_closed se; se_unreachable := se_unreachable se |}.

(** ** The model of a worker *)

Record CoordinatorSpawnIdentity := {
  ci_model : option string;
  ci_provider_key : option string;
  ci_route_api_method : option string;
}.

Record SwarmSpawnSelection := {
  sel_model : option string;
  sel_provider_key : option string;
  sel_route_api_method : option string;
}.

Definition is_inherit_sentinel (model : string) : bool :=
  eq_ignore_ascii_case (trim model) "inherit" || eq_ignore_ascii_case (trim model) "coordinator".

Section selection.
(** What the tables of the providers say of a model: the selection of a model with an
    explicit route, and the provider of a model. *)
Context (explicit_route_for_configured_model : string → option SwarmSpawnSelection).
Context (provider_key_for_spawn_model : option string → option string).

Definition inherit_coordinator_selection (coordinator : CoordinatorSpawnIdentity) : SwarmSpawnSelection := {|
  sel_model := ci_model coordinator;
  sel_provider_key := or_keep (ci_provider_key coordinator) (provider_key_for_spawn_model (ci_model coordinator));
  sel_route_api_method := ci_route_api_method coordinator |}.

Definition selection_for_concrete_model (model : string) (coordinator : CoordinatorSpawnIdentity) : SwarmSpawnSelection :=
  match explicit_route_for_configured_model model with
  | Some selection => selection
  | None =>
      if bool_decide (ci_model coordinator = Some model) then {|
        sel_model := Some model;
        sel_provider_key := or_keep (ci_provider_key coordinator) (provider_key_for_spawn_model (Some model));
        sel_route_api_method := ci_route_api_method coordinator |}
      else {| sel_model := Some model; sel_provider_key := provider_key_for_spawn_model (Some model);
              sel_route_api_method := None |}
  end.

Definition resolve_swarm_spawn_selection (requested_model configured_swarm_model : option string)
  (coordinator : CoordinatorSpawnIdentity) : SwarmSpawnSelection :=
  match requested_model ≫= λ m, some_text (trim m) with
  | Some requested =>
      if is_inherit_sentinel requested then inherit_coordinator_selection coordinator
      else selection_for_concrete_model requested coordinator
  | None =>
      let configured := configured_swarm_model ≫= λ m,
        if is_empty (trim m) || is_inherit_sentinel m then None else Some m in
      match configured with
      | Some model => selection_for_concrete_model model coordinator
      | None => inherit_coordinator_selection coordinator
      end
  end.
End selection.

(** ** Who may spawn *)

Definition is_root (req_session_id : string) (members : Members) : bool :=
  match members !! req_session_id ≫= m_report_back_to with Some _ => false | None => true end.

Definition root_session_id (req_session_id : string) (members : Members) : string :=
  default req_session_id (last (swarm_ancestors members req_session_id)).

(** The members of a swarm that take up capacity. *)
Definition live_members (swarm_id : string) (members : Members) : list SwarmMember :=
  List.filter (λ m, bool_decide (m_swarm_id m = Some swarm_id) && member_consumes_swarm_capacity m) (map_to_list members).*2.

Definition live_member_count (swarm_id : string) (members : Members) : nat := length (live_members swarm_id members).

Definition is_spawned (m : SwarmMember) : bool := match m_report_back_to m with Some _ => true | None => false end.

Definition live_spawned_agent_count (swarm_id : string) (members : Members) : nat :=
  length (List.filter is_spawned (live_members swarm_id members)).

Definition swarm_member_status_is_stale_for_coordination (status : string) : bool :=
  mem status ["crashed"; "failed"; "stopped"; "closed"; "disconnected"].

Definition coordinator_is_stale (se : Sessions) (swarm_id : string) (s : SwarmState) : bool :=
  match ss_coordinators s !! swarm_id with
  | None => false
  | Some coordinator =>
      negb match ss_members s !! coordinator with
           | Some m => bool_decide (m_swarm_id m = Some swarm_id)
                       && negb (swarm_member_status_is_stale_for_coordination (m_status m))
                       && negb (se_unreachable se coordinator)
           | None => false
           end
  end.

(** The configured limit of spawned agents, when there is one. *)
Definition live_agent_limit (configured : nat) : option nat :=
  if 0 <? configured then Some (Nat.min configured MAX_SWARM_MEMBERS) else None.

Definition over_limit (configured count : nat) : option nat :=
  live_agent_limit configured ≫= λ limit, if limit <=? count then Some limit else None.

(** Why the session may not spawn now. *)
Definition spawn_refusal (session_effort : gmap string string) (configured : nat) (req_session_id swarm_id : string)
  (members : Members) : option string :=
  let root := root_session_id req_session_id members in
  let root_is_deep := match session_effort !! root with Some e => is_deep_swarm_effort e | None => false end in
  if negb (is_root req_session_id members) && negb root_is_deep then
    Some ("Recursive swarm spawning is disabled for light and ad hoc swarms. Only the root session (" +:+ root
          +:+ ") may spawn agents unless that root is running in swarm-deep mode.")
  else if MAX_SWARM_MEMBERS <=? live_member_count swarm_id members then
    Some ("Swarm member limit reached (hard max " +:+ pretty_nat MAX_SWARM_MEMBERS +:+ "). This swarm already has "
          +:+ pretty_nat (live_member_count swarm_id members)
          +:+ " live members; it cannot spawn more. Let existing agents finish and free up capacity, or narrow the task "
          +:+ "decomposition before spawning further.")
  else
    match over_limit configured (live_spawned_agent_count swarm_id members) with
    | Some limit =>
        Some ("Swarm live-agent limit reached (max " +:+ pretty_nat limit
              +:+ ", configured by agents.swarm_max_concurrent_agents). This swarm already has "
              +:+ pretty_nat (live_spawned_agent_count swarm_id members)
              +:+ " active spawned agents. Let existing agents finish or stop them before spawning more.")
    | None => None
    end.

(** A root takes the place of the coordinator when nobody has it or who has it is gone. *)
Definition claim_coordination (se : Sessions) (req_session_id swarm_id : string) (s : SwarmState) : SwarmState * list Effect :=
  let current := ss_coordinators s !! swarm_id in
  if is_root req_session_id (ss_members s) && bool_decide (current ≠ Some req_session_id)
     && (bool_decide (current = None) || coordinator_is_stale se swarm_id s) then
    (with_members (alter (set_role "coordinator") req_session_id) (with_coordinators <[swarm_id := req_session_id]> s),
     [Persist swarm_id; BroadcastStatus swarm_id;
      Notify req_session_id req_session_id (friendly_name_for_session req_session_id s)
        (MessageNotice (Some "swarm") None None) "You are the coordinator for this swarm."])
  else (s, []).

Definition ensure_spawn_coordinator_swarm (session_effort : gmap string string) (configured : nat) (se : Sessions)
  (req_session_id : string) (s : SwarmState) : result (string * SwarmState * list Effect) string :=
  match swarm_id_for req_session_id s with
  | None => Err "Not in a swarm."
  | Some swarm_id =>
      match spawn_refusal session_effort configured req_session_id swarm_id (ss_members s) with
      | Some e => Err e
      | None => let '(s, effects) := claim_coordination se req_session_id swarm_id s in Ok (swarm_id, s, effects)
      end
  end.

(** ** A new worker *)

(** A session that was made: in a window of its own, or in the server; the name in its id,
    and the swarm of its directory when swarms are enabled. *)
Record NewSession := {
  ns_session_id : string;
  ns_visible : bool;
  ns_name : option string;
  ns_swarm_of_dir : option string;
}.

Definition new_member (now : N) (session_id : string) (swarm_id : option string) (status : string) (detail : option string)
  (name : string) (report_back_to : string) (headless : bool) (elapsed : option N) : SwarmMember := {|
  m_session_id := session_id; m_swarm_id := swarm_id; m_status := status; m_detail := detail; m_task_label := None;
  m_friendly_name := Some name; m_report_back_to := Some report_back_to; m_latest_completion_report := None;
  m_role := "agent"; m_joined_at := now; m_last_status_change := now; m_is_headless := headless;
  m_output_tail := None; m_elapsed_secs := elapsed |}.

Definition join_swarm (swarm_id session_id : string) : SwarmState → SwarmState :=
  with_swarms (λ swarms, <[swarm_id := {[session_id]} ∪ default ∅ (swarms !! swarm_id)]> swarms).

(** What [create_headless_session] registers: the worker is in the swarm of its directory. *)
Definition register_headless_member (now : N) (n : NewSession) (report_back_to : string) (s : SwarmState)
  : SwarmState * list Effect :=
  let sid := ns_session_id n in
  let s := with_members <[sid := new_member now sid (ns_swarm_of_dir n) "ready" None (name_or_id (ns_name n) sid)
                                   report_back_to true (Some 0%N)]> s in
  match ns_swarm_of_dir n with
  | Some swarm_id => (join_swarm swarm_id sid s, [BroadcastStatus swarm_id])
  | None => (s, [])
  end.

Definition record_member_change (action session_id : string) (s : SwarmState) : Effect :=
  RecordEvent session_id (friendly_name_for_session session_id s) (swarm_id_for session_id s) (MemberChange action).

Definition register_visible_spawned_member (now : N) (n : NewSession) (swarm_id : string) (has_startup_message : bool)
  (report_back_to : string) (s : SwarmState) : SwarmState * list Effect :=
  let sid := ns_session_id n in
  let '(status, detail) := if has_startup_message then ("running", "startup queued") else ("spawned", "launching client") in
  let s := with_members <[sid := new_member now sid (Some swarm_id) status (Some detail) (default sid (ns_name n))
                                   report_back_to false None]> s in
  let s := join_swarm swarm_id sid s in
  (s, [record_member_change "joined" sid s; BroadcastStatus swarm_id]).

(** A plan that is in use counts the worker among its participants. *)
Definition add_spawned (req_session_id sid : string) (p : VersionedPlan) : VersionedPlan :=
  if bool_decide (v_items p = []) && bool_decide (v_participants p = ∅) then p
  else add_participant sid (add_participant req_session_id p).

Definition spawn_swarm_agent (now : N) (req_session_id swarm_id : string) (initial_message label : option string)
  (created : result NewSession string) (s : SwarmState) : result string string * SwarmState * list Effect :=
  match created with
  | Err e => (Err e, s, [])
  | Ok n =>
      let sid := ns_session_id n in
      let startup := append_swarm_completion_report_instructions <$> initial_message in
      let '(s, made) := if ns_visible n then (s, []) else register_headless_member now n req_session_id s in
      let s := with_plans (alter (add_spawned req_session_id sid) swarm_id) s in
      let '(s, registered) :=
        if ns_visible n then
          register_visible_spawned_member now n swarm_id (bool_decide (is_Some startup)) req_session_id s
        else (s, []) in
      let s := match or_keep label initial_message with Some text => set_member_task_label sid text s | None => s end in
      let first_turn := match startup with
                        | Some message => if ns_visible n then []
                                          else [record_member_change "joined" sid s; RunStartup sid message]
                        | None => []
                        end in
      (Ok sid, s, made ++ [BroadcastPlan swarm_id "participant_spawned"] ++ registered ++ [Persist swarm_id] ++ first_turn)
  end.

(** The first turn of a worker that was spawned with a message. *)
Definition startup_begins (now : N) (sid message : string) : SwarmState → SwarmState :=
  update_member_status now sid "running" (Some (truncate_detail message 120)) true.

Definition startup_ends (now : N) (sid : string) (result : result (option string) string) : SwarmState → SwarmState :=
  match result with
  | Ok completion_report => update_member_status_with_report now sid "ready" None completion_report true
  | Err error => update_member_status_with_report now sid "failed" (Some (truncate_detail error 120)) None true
  end.

Inductive SwarmSpawnMode := Visible | Headless | Inline | Auto.

(** Its [Debug] text. *)
Definition mode_debug (m : SwarmSpawnMode) : string :=
  match m with Visible => "Visible" | Headless => "Headless" | Inline => "Inline" | Auto => "Auto" end.

(** The parameters of a spawn that tell one request from another. *)
Record SpawnRequest := {
  sp_working_dir : option string;
  sp_initial_message : option string;
  sp_request_nonce : option string;
  sp_spawn_mode : option SwarmSpawnMode;
  sp_model : option string;
  sp_effort : option string;
  sp_label : option string;
}.

Definition spawn_components (swarm_id : string) (q : SpawnRequest) : list string :=
  [swarm_id; default "" (sp_working_dir q); default "" (sp_initial_message q); default "" (sp_request_nonce q);
   default "" (mode_debug <$> sp_spawn_mode q); default "" (sp_model q); default "" (sp_effort q); default "" (sp_label q)].

Section spawning.
Context (hash : string → N).

Definition spawn_and_answer (now : N) (req_session_id swarm_id : string) (q : SpawnRequest) (created : result NewSession string)
  (s : SwarmState) : SwarmState * list Effect * PersistedSwarmMutationResponse :=
  match spawn_swarm_agent now req_session_id swarm_id (sp_initial_message q) (sp_label q) created s with
  | (Ok new_session_id, s, effects) => (s, effects, Spawn new_session_id)
  | (Err e, s, effects) => (s, effects, Error ("Failed to spawn agent: " +:+ e) None)
  end.

(** The admission is held from the first check to the registration of the worker, so that
    the handler is one step. *)
Definition handle_comm_spawn (session_effort : gmap string string) (configured : nat) (se : Sessions) (now : N)
  (file_ok : bool) (id : N) (client : nat) (req_session_id : string) (q : SpawnRequest) (created : result NewSession string)
  (s : SwarmState) (sh : Shared) : SwarmState * list Effect * Shared :=
  match ensure_spawn_coordinator_swarm session_effort configured se req_session_id s with
  | Err e => (s, [err id e], sh)
  | Ok (swarm_id, s, effects) =>
      let '(s, effects', sh) :=
        deduplicated file_ok (mutation_request hash req_session_id "spawn" (spawn_components swarm_id q) id client)
          (spawn_and_answer now req_session_id swarm_id q created) s sh in
      (s, effects ++ effects', sh)
  end.

(** ** Stopping a worker *)

(** The tables, the channels of the sessions, and the sessions that have an agent. *)
Record Floor := {
  f_swarm : SwarmState;
  f_channels : ChannelIndex;
  f_agents : gset string;
}.

Definition ends_with (suffix s : string) : bool :=
  let k := String.length s - String.length suffix in
  (String.length suffix <=? String.length s) && bool_decide (String.substring k (String.length suffix) s = suffix).

(** [named]: by friendly name, or by a prefix or suffix of the id. *)
Definition named (target : string) (m : string * SwarmMember) : bool :=
  bool_decide (m_friendly_name m.2 = Some target) || starts_with target m.1 || ends_with target m.1.

Definition stop_matches (swarm_id target : string) (members : Members) : list (string * string) :=
  merge_sort (λ a b, String.le a.1 b.1)
    (map (λ m, (m.1, default m.1 (m_friendly_name m.2)))
       (List.filter (λ m, bool_decide (m_swarm_id m.2 = Some swarm_id) && named target m) (map_to_list members))).

Definition resolve_stop_target_session (swarm_id target : string) (members : Members) : result string string :=
  let target := trim target in
  fail_if is_empty target with "target_session is required." ;;
  if is_member_of members swarm_id target then Ok target
  else
    match stop_matches swarm_id target members with
    | [] => Err ("Unknown swarm session '" +:+ target
                 +:+ "'. Use an exact session ID, unique friendly name, or unique session ID prefix/suffix.")
    | [m] => Ok m.1
    | ms => Err ("Ambiguous swarm session '" +:+ target +:+ "' matched: "
                 +:+ join ", " (map (λ m, m.2 +:+ " [" +:+ m.1 +:+ "]") ms) +:+ ". Use an exact session ID.")
    end.

Definition swarm_stop_allowed_by_owner (req_session_id : string) (target : SwarmMember) (force : bool) : bool :=
  force || bool_decide (m_report_back_to target = Some req_session_id).

Definition stop_allowed (req_session_id target : string) (force : bool) (members : Members) : bool :=
  match members !! target with
  | Some m => swarm_stop_allowed_by_owner req_session_id m force
              || negb force && swarm_is_self_or_ancestor members req_session_id target
  | None => false
  end.

(** The session is taken out of every table, and its work is salvaged. *)
Definition stop_session (now : N) (target : string) (f : Floor) : Floor * list Effect * PersistedSwarmMutationResponse :=
  let s := f_swarm f in
  let had_agent := bool_decide (target ∈ f_agents f) in
  let removed := ss_members s !! target in
  let s := with_members (delete target) s in
  let '(s, departure) := match removed with
                    | Some m =>
                        match m_swarm_id m with
                        | Some swarm_id =>
                            (remove_session_from_swarm now target swarm_id s,
                             [RecordEvent target (m_friendly_name m) (Some swarm_id) (MemberChange "left")])
                        | None => (s, [])
                        end
                    | None => (s, [])
                    end in
  let known := had_agent || bool_decide (is_Some (removed ≫= m_swarm_id)) in
  ({| f_swarm := s; f_channels := remove_session (f_channels f) target; f_agents := f_agents f ∖ {[target]} |},
   (if had_agent then [CloseAgent target] else []) ++ departure,
   if known then MutationState.Done else Error ("Unknown session '" +:+ target +:+ "'") None).

Definition handle_comm_stop (now : N) (file_ok : bool) (id : N) (client : nat) (req_session_id target_session : string)
  (force : bool) (f : Floor) (sh : Shared) : Floor * list Effect * Shared :=
  match swarm_id_for req_session_id (f_swarm f) with
  | None => (f, [err id "Not in a swarm."], sh)
  | Some swarm_id =>
      match resolve_stop_target_session swarm_id target_session (ss_members (f_swarm f)) with
      | Err e => (f, [err id e], sh)
      | Ok target =>
          if negb (stop_allowed req_session_id target force (ss_members (f_swarm f))) then
            (f, [err id ("Refusing to stop session '" +:+ target
                         +:+ "' because it was not spawned by this coordinator. Pass force=true to stop a non-owned/user-created swarm session explicitly.")], sh)
          else
            let '(f, effects, sh) :=
              deduplicated file_ok (mutation_request hash req_session_id "stop" [swarm_id; target] id client)
                (stop_session now target) f sh in
            (f, Fanout target (SessionCloseRequested ("Stopped by coordinator " +:+ req_session_id)) :: effects, sh)
      end
  end.
End spawning.
