(* ===== verification/Assign.v ===== *)
(** * Whom a task goes to

    crates/jcode-app-core/src/server/comm_control.rs, the part that decides: which workers
    can be picked, the claims that keep two requests from picking one worker, the guard
    against a second assignment of work in flight, what an assignment says, and how it is
    written into the plan.  Times are milliseconds. *)

From S2P Require Import MutationState.
From S2P Require Import Prelude RustStr RustText DagTypes PlanTypes PlanCycle Plan Bridge SwarmCore SwarmProgress SwarmMembers Effects GraphHandlers PlanHandlers.

(** ** Workers *)

(** A worker that runs what it is given: headless, or spawned by the requester. *)
Definition is_drivable_auto_worker (m : SwarmMember) (req_session_id : string) : bool :=
  m_is_headless m || bool_decide (m_report_back_to m = Some req_session_id).

Definition is_candidate (req_session_id swarm_id : string) (m : SwarmMember) : bool :=
  negb (bool_decide (m_session_id m = req_session_id))
  && bool_decide (m_swarm_id m = Some swarm_id)
  && bool_decide (m_role m = "agent")
  && mem (m_status m) ["ready"; "completed"]
  && is_drivable_auto_worker m req_session_id.

Definition filter_swarm_agent_candidates (members : Members) (req_session_id swarm_id : string) : list SwarmMember :=
  List.filter (is_candidate req_session_id swarm_id) (map_to_list members).*2.

Definition load_of (loads : gmap string nat) (session_id : string) : nat := default 0 (loads !! session_id).

Definition member_has_active_assignment (session_id : string) (loads : gmap string nat) : bool :=
  0 <? load_of loads session_id.

(** ** Claims *)

Definition AUTO_ASSIGN_CLAIM_TTL : N := 15000.

(** When each worker was picked; shared by all requests. *)
Abbreviation Claims := (gmap string N).

Definition auto_assign_claim_key (swarm_id session_id : string) : string := swarm_id +:+ newline +:+ session_id.

Definition live_claims (now : N) (claims : Claims) : Claims :=
  filter (λ kv : string * N, (now - kv.2 < AUTO_ASSIGN_CLAIM_TTL)%N) claims.

Definition try_claim_auto_assign_target (now : N) (swarm_id session_id : string) (claims : Claims) : bool * Claims :=
  let claims := live_claims now claims in
  let key := auto_assign_claim_key swarm_id session_id in
  match claims !! key with
  | Some _ => (false, claims)
  | None => (true, <[key := now]> claims)
  end.

Definition release_auto_assign_claim (swarm_id session_id : string) : Claims → Claims :=
  delete (auto_assign_claim_key swarm_id session_id).

Definition no_auto_target_error (busy_skipped : nat) : string :=
  "No ready or completed swarm agents are available for automatic task assignment."
  +:+ (if 0 <? busy_skipped then
         " Skipped " +:+ pretty_nat busy_skipped +:+ " worker(s) that already have an active assignment or an in-flight pick; "
         +:+ "spawn a fresh agent (spawn_if_needed/prefer_spawn) or wait for one to finish."
       else "").

(** The first idle, unclaimed candidate, in the order given. *)
Fixpoint claim_first (now : N) (swarm_id : string) (candidates : list SwarmMember) (loads : gmap string nat)
  (busy_skipped : nat) (claims : Claims) : result string string * Claims :=
  match candidates with
  | [] => (Err (no_auto_target_error busy_skipped), claims)
  | m :: candidates =>
      if member_has_active_assignment (m_session_id m) loads then
        claim_first now swarm_id candidates loads (S busy_skipped) claims
      else
        match try_claim_auto_assign_target now swarm_id (m_session_id m) claims with
        | (true, claims) => (Ok (m_session_id m), claims)
        | (false, claims) => claim_first now swarm_id candidates loads (S busy_skipped) claims
        end
  end.

Definition select_and_claim_auto_target (now : N) (swarm_id : string) (candidates : list SwarmMember)
  (loads : gmap string nat) : Claims → result string string * Claims :=
  claim_first now swarm_id candidates loads 0.

(** ** Targets *)

(** The tables and the claims. *)
Record Desk := {
  d_swarm : SwarmState;
  d_claims : Claims;
}.

Definition on_swarm (f : SwarmState → SwarmState) (d : Desk) : Desk := {| d_swarm := f (d_swarm d); d_claims := d_claims d |}.
Definition on_claims (f : Claims → Claims) (d : Desk) : Desk := {| d_swarm := d_swarm d; d_claims := f (d_claims d) |}.

Definition ready_rank (m : SwarmMember) : Z := if bool_decide (m_status m = "ready") then 0 else 1.

(** The least loaded first, ready before completed. *)
Definition load_keys (loads : gmap string nat) (m : SwarmMember) : list Z :=
  [Z.of_nat (load_of loads (m_session_id m)); ready_rank m].

(** Those who know the dependencies first, then those who know the subsystem or the files. *)
Definition affinity_keys (af : AssignmentAffinities) (m : SwarmMember) : list Z :=
  [ (- Z.of_nat (load_of (af_dependency_carryover af) (m_session_id m)))%Z;
    (- Z.of_nat (load_of (af_metadata_carryover af) (m_session_id m)))%Z;
    Z.of_nat (load_of (af_loads af) (m_session_id m)); ready_rank m ].

Definition rank_candidates (keys : SwarmMember → list Z) : list SwarmMember → list SwarmMember :=
  merge_sort (keys_le keys m_session_id).

Definition explicit_target (req_session_id swarm_id target : string) (s : SwarmState) : result string string :=
  fail_if bool_decide (target = req_session_id) with "Coordinator cannot assign a swarm task to itself." ;;
  match ss_members s !! target with
  | None => Err ("Unknown session '" +:+ target +:+ "'")
  | Some m =>
      fail_if negb (bool_decide (m_swarm_id m = Some swarm_id)) with
        ("Session '" +:+ target +:+ "' is not in swarm '" +:+ swarm_id +:+ "' and cannot receive this task.") ;;
      Ok target
  end.

Definition resolve_assignment_target_session (now : N) (req_session_id swarm_id : string) (requested_target : option string)
  (d : Desk) : result string string * Desk :=
  match requested_target with
  | Some target => (explicit_target req_session_id swarm_id target (d_swarm d), d)
  | None =>
      let loads := match ss_plans (d_swarm d) !! swarm_id with Some p => assignment_loads p | None => ∅ end in
      let candidates := rank_candidates (load_keys loads)
        (filter_swarm_agent_candidates (ss_members (d_swarm d)) req_session_id swarm_id) in
      let '(r, claims) := select_and_claim_auto_target now swarm_id candidates loads (d_claims d) in
      (r, on_claims (λ _, claims) d)
  end.

(** A composite whose children are done: a point of synthesis. *)
Definition is_composite_synthesis (p : VersionedPlan) (task_id : string) : bool :=
  match v_node_meta p !! task_id with Some meta => m_expanded meta && negb (m_is_gate meta) | None => false end.

(** The agent that planned a composite synthesises it, while it is a candidate and nobody
    else is picking it. *)
Definition planner_target (now : N) (req_session_id swarm_id task_id : string) (d : Desk) : option string * Desk :=
  let planner := ss_plans (d_swarm d) !! swarm_id ≫= λ p,
    if is_composite_synthesis p task_id then v_node_meta p !! task_id ≫= m_planner else None in
  match planner with
  | None => (None, d)
  | Some owner =>
      if bool_decide (owner = req_session_id) then (None, d)
      else if existsb (λ m, bool_decide (m_session_id m = owner))
                (filter_swarm_agent_candidates (ss_members (d_swarm d)) req_session_id swarm_id) then
        let '(claimed, claims) := try_claim_auto_assign_target now swarm_id owner (d_claims d) in
        (if claimed then Some owner else None, on_claims (λ _, claims) d)
      else (None, d)
  end.

Definition resolve_assignment_target_for_task (now : N) (req_session_id swarm_id task_id : string)
  (requested_target : option string) (d : Desk) : result string string * Desk :=
  match requested_target with
  | Some _ => resolve_assignment_target_session now req_session_id swarm_id requested_target d
  | None =>
      match planner_target now req_session_id swarm_id task_id d with
      | (Some owner, d) => (Ok owner, d)
      | (None, d) =>
          match ss_plans (d_swarm d) !! swarm_id with
          | None => (Err "No runnable unassigned tasks are available in the swarm plan", d)
          | Some p =>
              match assignment_affinities_for_task p task_id with
              | Err e => (Err e, d)
              | Ok af =>
                  let candidates := rank_candidates (affinity_keys af)
                    (filter_swarm_agent_candidates (ss_members (d_swarm d)) req_session_id swarm_id) in
                  let '(r, claims) := select_and_claim_auto_target now swarm_id candidates (af_loads af) (d_claims d) in
                  (r, on_claims (λ _, claims) d)
              end
          end
      end
  end.

(** ** The guard against a second assignment *)

(** The assignee of work in flight, and how long ago it showed a sign of life. *)
Record ActiveAssignmentConflict := {
  ac_assignee : string;
  ac_active_ago_ms : N;
}.

Definition active_assignment_conflict (status : string) (assigned_to : option string) (progress : option SwarmTaskProgress)
  (now_ms active_within_ms : N) : option ActiveAssignmentConflict :=
  match assigned_to with
  | None => None
  | Some assignee =>
      if negb (mem status ["queued"; "running"]) then None
      else
        match progress ≫= last_sign with
        | None => None
        | Some last_activity_ms =>
            let active_ago_ms := (now_ms - last_activity_ms)%N in
            if (active_ago_ms <? active_within_ms)%N then
              Some {| ac_assignee := assignee; ac_active_ago_ms := active_ago_ms |}
            else None
        end
  end.

Definition active_assignment_error (task_id : string) (conflict : ActiveAssignmentConflict) : string :=
  "Task '" +:+ task_id +:+ "' is already assigned to '" +:+ ac_assignee conflict +:+ "' (active "
  +:+ pretty (ac_active_ago_ms conflict / 1000)%N +:+ "s ago); refusing to double-assign. "
  +:+ "Use task_control reassign/replace to take over (the displaced worker is told to stand down), retry to re-dispatch to the same assignee, "
  +:+ "or wait for the assignment to finish or go stale.".

(** ** What an assignment says *)

Definition composite_synthesis_content (item_id raw_content : string) (is_composite_synthesis : bool) : string :=
  if is_composite_synthesis then
    "Synthesis turn for composite node '" +:+ item_id +:+ "'. Its children (and the deep-mode critique/verify gate) are complete; "
    +:+ "their outputs are provided below. Read them, write one synthesized result, and finish by calling `swarm complete_node` with node_id="
    +:+ dquote +:+ item_id +:+ dquote
    +:+ " and an artifact summarizing the integrated findings. Do NOT call expand_node again. Original brief: " +:+ raw_content
  else raw_content.

Definition is_gate_item (p : VersionedPlan) (id : string) : bool :=
  match v_node_meta p !! id with Some meta => m_is_gate meta | None => false end.

(** What a gate audits: its dependencies that are not gates themselves. *)
Definition audited_ids (p : VersionedPlan) (item_id : string) : list string :=
  match find_item (v_items p) item_id with
  | Some i => List.filter (λ d, negb (is_gate_item p d)) (i_blocked_by i)
  | None => []
  end.

Inductive AssignDedupMode := ReplayFinal | AlwaysDispatch.

#[export] Instance AssignDedupMode_eq_dec : EqDecision AssignDedupMode.
Proof. solve_decision. Defined.

Section contents.
Context (from_json : string → option HandoffArtifact).

Definition deep_mode_assignment_content (p : VersionedPlan) (item_id : string) (is_composite_synthesis : bool) (content : string)
  : string :=
  if negb (eq_ignore_ascii_case (v_mode p) "deep") || is_composite_synthesis then content
  else if is_gate_item p item_id then
    append_deep_gate_instructions content item_id (audited_ids p item_id)
      (List.filter (λ id, mem id (audited_ids p item_id)) (low_confidence_completed_ids from_json p))
  else append_deep_node_instructions content item_id.

(** What an item that is assigned says to its worker. *)
Definition assignment_content (p : VersionedPlan) (i : PlanItem) : string :=
  let synthesis := is_composite_synthesis p (i_id i) in
  deep_mode_assignment_content p (i_id i) synthesis
    (hydrate_assignment from_json p (i_id i) (composite_synthesis_content (i_id i) (i_content i) synthesis)).

Record TaskSnapshot := {
  ts_content : string;
  ts_status : string;
  ts_assigned_to : option string;
  ts_progress : option SwarmTaskProgress;
}.

Definition task_snapshot_for (swarm_id task_id : string) (s : SwarmState) : option TaskSnapshot :=
  ss_plans s !! swarm_id ≫= λ p, find_item (v_items p) task_id ≫= λ i, Some {|
    ts_content := deep_mode_assignment_content p task_id (is_composite_synthesis p task_id)
                    (hydrate_assignment from_json p task_id (i_content i));
    ts_status := i_status i; ts_assigned_to := i_assigned_to i; ts_progress := v_task_progress p !! task_id |}.

(** ** The assignment in the plan *)

(** The progress of a new assignment; what was recorded of earlier ones is gone. *)
Definition assigned_progress (now_ms : N) (target text : string) : SwarmTaskProgress := {|
  p_assigned_session_id := Some target; p_assignment_summary := Some (truncate_detail text 120);
  p_assigned_at_unix_ms := Some now_ms; p_started_at_unix_ms := None; p_last_heartbeat_unix_ms := None;
  p_last_detail := None; p_last_checkpoint_unix_ms := None; p_checkpoint_summary := None;
  p_completed_at_unix_ms := None; p_stale_since_unix_ms := None; p_heartbeat_count := None;
  p_checkpoint_count := None; p_no_artifact_requeues := None; p_dead_assignee_reclaims := None |}.

Definition record_assignment (now_ms : N) (req_session_id target : string) (text : string) (id : string) (p : VersionedPlan)
  : VersionedPlan :=
  add_participant target (add_participant req_session_id
    (revise id (λ i, set_assigned_to (Some target) (set_status "queued" i)) (assigned_progress now_ms target text) p)).

(** Why the task that was asked for may not be assigned. *)
Definition assignment_blocked_reason (now_ms stale_after_ms : N) (mode : AssignDedupMode) (requested_task : option string)
  (p : VersionedPlan) : option string :=
  match requested_task with
  | None => None
  | Some task_id =>
      let conflict :=
        if bool_decide (mode = ReplayFinal) then
          find_item (v_items p) task_id ≫= λ i,
            active_assignment_conflict (i_status i) (i_assigned_to i) (v_task_progress p !! task_id) now_ms stale_after_ms
        else None in
      match conflict with
      | Some c => Some (active_assignment_error task_id c)
      | None => explicit_task_blocked_reason p task_id
      end
  end.

(** Under the lock of the plans: the plan, and the task with what it says, or the error. *)
Definition assign_in_plan (now_ms stale_after_ms : N) (mode : AssignDedupMode) (requested_task message : option string)
  (req_session_id target : string) (p : VersionedPlan) : VersionedPlan * result (string * string) string :=
  let selected := match requested_task with Some id => Some id | None => next_unassigned_runnable_item_id p end in
  match assignment_blocked_reason now_ms stale_after_ms mode requested_task p with
  | Some reason => (p, Err reason)
  | None =>
      match selected ≫= find_item (v_items p) with
      | None =>
          (p, Err (match requested_task with
                   | Some task_id => "Task '" +:+ task_id +:+ "' not found in swarm plan"
                   | None => "No runnable unassigned tasks are available in the swarm plan"
                   end))
      | Some i =>
          let content := assignment_content p i in
          (record_assignment now_ms req_session_id target (combine_assignment_text content message) (i_id i) p,
           Ok (i_id i, content))
      end
  end.
End contents.

(** The same assignment once more, after the task was resumed; its history stays. *)
Definition requeued_progress (now_ms : N) (assignee summary : string) (t : SwarmTaskProgress) : SwarmTaskProgress := {|
  p_assigned_session_id := Some assignee; p_assignment_summary := Some (truncate_detail summary 120);
  p_assigned_at_unix_ms := Some now_ms; p_started_at_unix_ms := p_started_at_unix_ms t;
  p_last_heartbeat_unix_ms := p_last_heartbeat_unix_ms t; p_last_detail := p_last_detail t;
  p_last_checkpoint_unix_ms := p_last_checkpoint_unix_ms t; p_checkpoint_summary := p_checkpoint_summary t;
  p_completed_at_unix_ms := None; p_stale_since_unix_ms := None;
  p_heartbeat_count := p_heartbeat_count t; p_checkpoint_count := p_checkpoint_count t;
  p_no_artifact_requeues := p_no_artifact_requeues t; p_dead_assignee_reclaims := p_dead_assignee_reclaims t |}.

Definition requeue_existing_assignment (now_ms : N) (req_session_id assignee task_id summary : string) (p : VersionedPlan)
  : option VersionedPlan :=
  match find_item (v_items p) task_id with
  | None => None
  | Some _ =>
      Some (add_participant assignee (add_participant req_session_id
        (revise task_id (λ i, set_status "queued" (set_assigned_to (Some assignee) i))
           (requeued_progress now_ms assignee summary (progress_entry p task_id)) p)))
  end.

(** ** The next task *)

Definition member_statuses (swarm_id : string) (members : Members) : gmap string string :=
  list_to_map (map (λ m, (m_session_id m, m_status m))
    (List.filter (λ m, bool_decide (m_swarm_id m = Some swarm_id)) (map_to_list members).*2)).

(** Dead, or no longer a member of the swarm. *)
Definition cannot_drive (swarm_id : string) (members : Members) (session_id : string) : bool :=
  match member_statuses swarm_id members !! session_id with
  | Some status => mem status ["failed"; "stopped"; "crashed"]
  | None => true
  end.

Definition next_runnable_task_id_reclaiming_stranded (swarm_id : string) (s : SwarmState) : option string * SwarmState :=
  match ss_plans s !! swarm_id with
  | None => (None, s)
  | Some p =>
      match next_unassigned_runnable_item_id p with
      | Some id => (Some id, s)
      | None =>
          match next_stranded_runnable_item_id p (cannot_drive swarm_id (ss_members s)) with
          | None => (None, s)
          | Some id =>
              match reclaim_stranded_assignment p id with
              | (true, p) => (Some id, with_plans <[swarm_id := p]> s)
              | (false, _) => (None, s)
              end
          end
      end
  end.

(** ** Who may assign *)

(** The coordinator, or in deep mode a participant of the plan. *)
Definition require_plan_driver_swarm (req_session_id permission_error : string) (s : SwarmState) : result string string :=
  match swarm_id_for req_session_id s with
  | None => Err "Not in a swarm."
  | Some swarm_id =>
      if bool_decide (ss_coordinators s !! swarm_id = Some req_session_id) then Ok swarm_id
      else
        match ss_plans s !! swarm_id with
        | Some p =>
            if bool_decide (parse_mode (v_mode p) = Deep) && bool_decide (req_session_id ∈ v_participants p) then Ok swarm_id
            else Err permission_error
        | None => Err permission_error
        end
  end.
