(* ===== verification/Control.v ===== *)
(** * The control of tasks

    crates/jcode-app-core/src/server/comm_control.rs: the handlers that assign a task to a
    worker, pick the next one, hand tasks over and restart them, and that assign roles.
    Assignments and roles go through the deduplication of [MutationState].  Times are
    milliseconds. *)

From S2P Require Import MutationState.
From S2P Require Import Prelude RustStr RustText DagTypes PlanTypes PlanCycle Plan Bridge SwarmCore SwarmProgress SwarmMembers PlanStatus Effects GraphHandlers PlanHandlers Assign Workers.

(** [value.trim()], unless it is empty. *)
Definition trimmed (o : option string) : option string := o ≫= λ t, some_text (trim t).

Definition dm (from : string) (name : option string) (message to : string) : Effect :=
  Notify to from name (MessageNotice (Some "dm") None None) message.

(** A notification for a session that is a member. *)
Definition if_member (s : SwarmState) (sid : string) (e : Effect) : list Effect := if is_member s sid then [e] else [].

(** ** Assignment *)

Definition assign_mutation_components (swarm_id : string) (target task message : option string) : list string :=
  [swarm_id; default "__next_available__" target; default "__next_runnable__" task; default "" message].

(** The task and what it says go to its worker, and the participants of the plan hear of it. *)
Definition announce_assignment (se : Sessions) (req_session_id swarm_id target task_id content : string)
  (message : option string) (p : VersionedPlan) (s : SwarmState) : list Effect :=
  let name := friendly_name_for_session req_session_id s in
  let notification := "Task assigned to you by coordinator: " +:+ content
                      +:+ match message with Some extra => " " +:+ em_dash +:+ " " +:+ extra | None => "" end in
  let plan_msg := "Plan updated: task '" +:+ task_id +:+ "' assigned to " +:+ target +:+ "." in
  [Persist swarm_id; BroadcastPlan swarm_id "task_assigned";
   RecordEvent req_session_id None (Some swarm_id) (PlanUpdate swarm_id (length (v_items p)));
   Interrupt target (append_swarm_completion_report_instructions notification)]
  ++ if_member s target (dm req_session_id name notification target)
  ++ (if negb (se_has_client se target) && has_agent se target then
        [RunTask target swarm_id task_id (combine_assignment_text content message)]
      else [])
  ++ (elements (v_participants p) ≫= λ sid,
        if bool_decide (sid = target) || bool_decide (sid = req_session_id) then []
        else if_member s sid (tell req_session_id name "plan" plan_msg sid)).

Section control.
Context (from_json : string → option HandoffArtifact).
Context (hash : string → N).
Context (stale_after_ms : N).

Section assignment.
Context (se : Sessions).

(** Between the begin and the end of the mutation.  The plan of the swarm is made when it
    is not there, even when nothing is assigned. *)
Definition assign_task (now : N) (mode : AssignDedupMode) (req_session_id swarm_id : string)
  (requested_target requested_task message : option string) (d : Desk)
  : Desk * list Effect * PersistedSwarmMutationResponse :=
  match resolve_assignment_target_session now req_session_id swarm_id requested_target d with
  | (Err e, d) => (d, [], Error e None)
  | (Ok target, d) =>
      let '(p, assigned) :=
        assign_in_plan from_json now stale_after_ms mode requested_task message req_session_id target
          (default plan_new (ss_plans (d_swarm d) !! swarm_id)) in
      let d := on_swarm (with_plans <[swarm_id := p]>) d in
      let d := match requested_target with
               | None => on_claims (release_auto_assign_claim swarm_id target) d
               | Some _ => d
               end in
      match assigned with
      | Err e => (d, [], Error e None)
      | Ok (task_id, content) =>
          let text := combine_assignment_text content message in
          let d := on_swarm (set_member_task_label target text) d in
          let d := on_swarm (update_member_status now target "queued" (Some (truncate_detail text 120)) true) d in
          (d, announce_assignment se req_session_id swarm_id target task_id content message p (d_swarm d),
           AssignTask task_id target)
      end
  end.

Definition assign_request (mode : AssignDedupMode) (req_session_id : string) (components : list string) (id : N) (client : nat)
  : Request := {|
  r_key := hashed_request_key hash req_session_id "assign_task" components; r_action := "assign_task";
  r_session_id := req_session_id; r_request_id := id; r_client_event_tx := client;
  r_replay_final := bool_decide (mode = ReplayFinal) |}.

Definition handle_comm_assign_task_with_mode (now : N) (file_ok : bool) (id : N) (client : nat) (req_session_id : string)
  (target_session task_id message : option string) (mode : AssignDedupMode) (d : Desk) (sh : Shared)
  : Desk * list Effect * Shared :=
  let requested_target := trimmed target_session in
  let requested_task := trimmed task_id in
  match require_plan_driver_swarm req_session_id "Only the coordinator can assign tasks." (d_swarm d) with
  | Err e => (d, [err id e], sh)
  | Ok swarm_id =>
      deduplicated file_ok
        (assign_request mode req_session_id (assign_mutation_components swarm_id requested_target requested_task message) id client)
        (assign_task now mode req_session_id swarm_id requested_target requested_task message) d sh
  end.

Definition handle_comm_assign_task (now : N) (file_ok : bool) (id : N) (client : nat) (req_session_id : string)
  (target_session task_id message : option string) (d : Desk) (sh : Shared) : Desk * list Effect * Shared :=
  handle_comm_assign_task_with_mode now file_ok id client req_session_id target_session task_id message ReplayFinal d sh.

End assignment.

(** ** The next task *)

Definition no_runnable_task : string := "No runnable unassigned tasks are available in the swarm plan".

(** [created] is what making a session comes to, should one be made. *)
(** The agent of a session that was made in the server is there, and idle. *)
Definition with_spawned (created : result NewSession string) (se : Sessions) : Sessions :=
  match created with
  | Ok n => if ns_visible n then se else add_agent (ns_session_id n) se
  | Err _ => se
  end.

Definition handle_comm_assign_next (se : Sessions) (created : result NewSession string) (now : N) (file_ok : bool) (id : N) (client : nat) (req_session_id : string)
  (target_session : option string) (prefer_spawn spawn_if_needed : option bool) (message : option string)
  (d : Desk) (sh : Shared) : Desk * list Effect * Shared :=
  match target_session with
  | Some _ => handle_comm_assign_task se now file_ok id client req_session_id target_session None message d sh
  | None =>
      match require_plan_driver_swarm req_session_id "Only the coordinator can assign tasks." (d_swarm d) with
      | Err e => (d, [err id e], sh)
      | Ok swarm_id =>
          match next_runnable_task_id_reclaiming_stranded swarm_id (d_swarm d) with
          | (None, s) => (on_swarm (λ _, s) d, [err id no_runnable_task], sh)
          | (Some task_id, s) =>
              let '(preferred, d) :=
                resolve_assignment_target_for_task now req_session_id swarm_id task_id None (on_swarm (λ _, s) d) in
              let prefer := default false prefer_spawn in
              if (prefer || default false spawn_if_needed) && (prefer || negb (is_ok preferred)) then
                let d := match preferred with
                         | Ok unused => on_claims (release_auto_assign_claim swarm_id unused) d
                         | Err _ => d
                         end in
                match spawn_swarm_agent now req_session_id swarm_id None None created (d_swarm d) with
                | (Ok spawned, s, effects) =>
                    let '(d, effects', sh) :=
                      handle_comm_assign_task (with_spawned created se) now file_ok id client req_session_id (Some spawned)
                        (Some task_id) message (on_swarm (λ _, s) d) sh in
                    (d, effects ++ effects', sh)
                | (Err e, s, effects) =>
                    (on_swarm (λ _, s) d, effects ++ [err id ("Failed to spawn preferred worker: " +:+ e)], sh)
                end
              else
                match preferred with
                | Err e => (d, [err id e], sh)
                | Ok target =>
                    let '(d, effects, sh) :=
                      handle_comm_assign_task se now file_ok id client req_session_id (Some target) (Some task_id) message d sh in
                    (on_claims (release_auto_assign_claim swarm_id target) d, effects, sh)
                end
          end
      end
  end.

Section sessions.
Context (se : Sessions).

(** ** Roles *)

(** The coordinator, or a session that promotes itself when the coordinator is gone. *)
Definition may_assign_roles (swarm_id req_session_id target role : string) (s : SwarmState) : bool :=
  let current := ss_coordinators s !! swarm_id in
  if bool_decide (current = Some req_session_id) then true
  else if bool_decide (role = "coordinator") && bool_decide (target = req_session_id) then
    match current with
    | None => true
    | Some coord =>
        let '(closed, headless) := match ss_members s !! coord with
                                   | Some m => (se_is_closed se coord, m_is_headless m)
                                   | None => (true, false)
                                   end in
        closed || negb (has_agent se coord) || headless
    end
  else false.

Definition assign_role (req_session_id swarm_id target role : string) (d : Desk)
  : Desk * list Effect * PersistedSwarmMutationResponse :=
  match ss_members (d_swarm d) !! target with
  | None => (d, [], Error ("Unknown session '" +:+ target +:+ "'") None)
  | Some _ =>
      let d := on_swarm (with_members (alter (set_role role) target)) d in
      let d := if bool_decide (role = "coordinator") then
                 let d := on_swarm (with_coordinators <[swarm_id := target]>) d in
                 if bool_decide (req_session_id = target) then d
                 else on_swarm (with_members (alter (set_role "agent") req_session_id)) d
               else d in
      (d, [Persist swarm_id; BroadcastStatus swarm_id;
           RecordEvent req_session_id None (Some swarm_id)
             (EventNotification "role_assignment" (target +:+ " -> " +:+ role))],
       MutationState.Done)
  end.

Definition role_refusal : string :=
  "Only the coordinator can assign roles. (Tip: if the coordinator has disconnected, use assign_role with target_session "
  +:+ "set to your own session ID to self-promote.)".

Definition handle_comm_assign_role (file_ok : bool) (id : N) (client : nat) (req_session_id target role : string)
  (d : Desk) (sh : Shared) : Desk * list Effect * Shared :=
  match swarm_id_for req_session_id (d_swarm d) with
  | None => (d, [err id role_refusal], sh)
  | Some swarm_id =>
      if negb (may_assign_roles swarm_id req_session_id target role (d_swarm d)) then (d, [err id role_refusal], sh)
      else
        deduplicated file_ok (mutation_request hash req_session_id "assign_role" [swarm_id; target; role] id client)
          (assign_role req_session_id swarm_id target role) d sh
  end.

(** ** Task control *)

Definition task_id_for_target_session (swarm_id target_session : string) (action : TaskControlAction) (s : SwarmState)
  : result string string :=
  match ss_plans s !! swarm_id with
  | None => Err "No swarm plan exists for this swarm."
  | Some p => task_control_target_item_id (v_items p) target_session action
  end.

(** The task that is meant. *)
Definition controlled_task (swarm_id task_id : string) (target_session : option string) (action : TaskControlAction)
  (s : SwarmState) : result string string :=
  if is_empty (trim task_id) then
    match target_session with
    | None => Err ("task_id is required for " +:+ action_as_str action
                   +:+ " unless target_session uniquely identifies an assigned task.")
    | Some target => task_id_for_target_session swarm_id target action s
    end
  else Ok task_id.

Definition err_retry (id : N) (message : string) (retry_after_secs : N) : Effect :=
  Reply (EventError id message (Some retry_after_secs)).

Definition control_reply (id : N) (action : TaskControlAction) (swarm_id task_id assignee status : string) (s : SwarmState)
  : Effect :=
  ReplyControl id (action_as_str action) task_id (Some assignee) status (plan_graph_status_for from_json swarm_id s).

(** A busy worker can only be woken: it finds the task when its turn ends. *)
Definition interrupt_busy (id : N) (action : TaskControlAction) (swarm_id task_id assignee text : string) (s : SwarmState)
  : list Effect :=
  if bool_decide (action = Wake) then
    [Interrupt assignee ("Coordinator requested you wake and continue task '" +:+ task_id +:+ "'." +:+ nl2
                         +:+ append_swarm_completion_report_instructions text);
     control_reply id action swarm_id task_id assignee "queued" s]
  else
    [err_retry id ("Assigned session '" +:+ assignee
                   +:+ "' is currently busy. Use wake to queue the task, or retry once the agent is idle.") 1].

Definition restart_task (now id : N) (action : TaskControlAction) (req_session_id swarm_id task_id assignee text status : string)
  (s : SwarmState) : SwarmState * list Effect :=
  let requeued := if bool_decide (status = "queued") then None
                  else ss_plans s !! swarm_id ≫= requeue_existing_assignment now req_session_id assignee task_id text in
  let '(s, effects) := match requeued with
                       | Some p => (with_plans <[swarm_id := p]> s,
                                    [Persist swarm_id; BroadcastPlan swarm_id ("task_" +:+ action_as_str action)])
                       | None => (s, [])
                       end in
  (s, effects ++ [RunTask assignee swarm_id task_id text; control_reply id action swarm_id task_id assignee "running" s]).

Definition resume_available (now id : N) (action : TaskControlAction) (req_session_id swarm_id task_id assignee : string)
  (message : option string) (snapshot : TaskSnapshot) (s : SwarmState) : SwarmState * list Effect :=
  let text := build_control_assignment_text action (ts_content snapshot) message in
  match se_agent_idle se assignee with
  | None =>
      (s, [err id ("Assigned session '" +:+ assignee
                   +:+ "' is not available. Use replace or salvage to move the task to another agent.")])
  | Some idle =>
      if negb (is_member s assignee) then
        (s, [err id ("Assigned session '" +:+ assignee
                     +:+ "' is no longer in the swarm. Use replace or salvage to move the task.")])
      else if idle then restart_task now id action req_session_id swarm_id task_id assignee text (ts_status snapshot) s
      else (s, interrupt_busy id action swarm_id task_id assignee text s)
  end.

(** [start], [wake] and [resume]: the same worker once more, when its agent is there. *)
Definition resume_assignee (now id : N) (action : TaskControlAction) (req_session_id swarm_id task_id assignee : string)
  (target_session message : option string) (snapshot : TaskSnapshot) (s : SwarmState) : SwarmState * list Effect :=
  let wrong_target := target_session ≫= λ requested, if bool_decide (requested = assignee) then None else Some requested in
  match wrong_target with
  | Some requested =>
      (s, [err id ("Task '" +:+ task_id +:+ "' is assigned to '" +:+ assignee +:+ "', not '" +:+ requested
                   +:+ "'. Use reassign or replace to change ownership.")])
  | None => resume_available now id action req_session_id swarm_id task_id assignee message snapshot s
  end.

Definition salvage_line (call : ToolCallSummary) : string :=
  "- " +:+ tc_tool_name call +:+ ": "
  +:+ truncate_detail (if is_empty (trim (tc_brief_output call)) then "no result summary" else tc_brief_output call) 180
  +:+ newline.

Definition format_salvage_message (source_session : string) (source_name : option string) (summaries : list ToolCallSummary)
  (extra_message : option string) : string :=
  "Salvage prior progress from " +:+ default source_session source_name +:+ ". Review this before continuing the task." +:+ nl2
  +:+ match summaries with
      | [] => "No recorded tool call summary was available from the previous assignee."
      | _ => "Recent prior activity:" +:+ newline +:+ join "" (map salvage_line (take 12 summaries))
      end
  +:+ match extra_message with
      | Some extra => nl2 +:+ "Additional coordinator instructions:" +:+ newline +:+ extra
      | None => ""
      end.

Definition section_of (title : string) (body : option string) : string :=
  match body with Some b => nl2 +:+ title +:+ newline +:+ b | None => "" end.

(** What the new worker is told of the old one. *)
Definition handoff_message (action : TaskControlAction) (assignee : string) (message : option string)
  (snapshot : TaskSnapshot) (s : SwarmState) : option string :=
  match action with
  | Salvage =>
      let summaries := match se_agent_idle se assignee with
                       | Some true => se_tool_calls se assignee
                       | Some false | None => []
                       end in
      Some (format_salvage_message assignee (ss_members s !! assignee ≫= m_friendly_name) summaries message
            +:+ section_of "Latest checkpoint summary:" (ts_progress snapshot ≫= p_checkpoint_summary)
            +:+ section_of "Latest recorded detail:" (ts_progress snapshot ≫= p_last_detail))
  | Replace =>
      Some ("This task is replacing prior assignee '" +:+ assignee +:+ "'."
            +:+ section_of "Additional coordinator instructions:" message)
  | _ => message
  end.

(** Whether the takeover happened: the task is now the new worker's. *)
Definition takeover_landed (swarm_id task_id new_target : string) (s : SwarmState) : bool :=
  match ss_plans s !! swarm_id ≫= λ p, find_item (v_items p) task_id with
  | Some i => bool_decide (i_assigned_to i = Some new_target)
  | None => false
  end.

Definition stand_down_message (action : TaskControlAction) (task_id new_target : string) : string :=
  "Task '" +:+ task_id +:+ "' has been handed off to '" +:+ new_target +:+ "' by the coordinator (" +:+ action_as_str action
  +:+ "). Stop working on it immediately: do not make further edits or commits for that task. If you have uncommitted "
  +:+ "progress worth keeping, note it in a brief message to the coordinator, then stand down.".

Definition stand_down (action : TaskControlAction) (req_session_id swarm_id task_id assignee new_target : string) (s : SwarmState)
  : list Effect :=
  if takeover_landed swarm_id task_id new_target s then
    let message := stand_down_message action task_id new_target in
    InterruptUrgently assignee message :: if_member s assignee (dm req_session_id None message assignee)
  else [].

(** [reassign], [replace] and [salvage]: why the task may not be handed over, or to whom. *)
Definition handover_target (action : TaskControlAction) (task_id assignee status : string) (target_session : option string)
  : result string (string * option N) :=
  match target_session with
  | None => Err ("'target_session' is required for " +:+ action_as_str action +:+ ".", None)
  | Some new_target =>
      fail_if bool_decide (new_target = assignee) with
        ("Task '" +:+ task_id +:+ "' is already assigned to '" +:+ assignee +:+ "'.", None) ;;
      fail_if bool_decide (status = "running") with
        ("Task '" +:+ task_id +:+ "' is actively running on '" +:+ assignee
         +:+ "'. Wait, wake, or stop that agent before handing the task off.", Some 1%N) ;;
      fail_if bool_decide (action = Replace)
              && negb (mem status ["queued"; "failed"; "stopped"; "crashed"; "running_stale"]) with
        ("Task '" +:+ task_id +:+ "' is '" +:+ status +:+ "' and cannot be safely replaced.", None) ;;
      Ok new_target
  end.

(** [before] and [between] are what the rest of the server does to the tables while this
    request is suspended: after the task was looked at and before the assignment writes it,
    and after that and before the assignment is looked at again. *)
Definition hand_over_around (before between : Desk → Desk) (now : N) (file_ok : bool) (id : N) (client : nat)
  (action : TaskControlAction) (req_session_id swarm_id task_id assignee : string) (target_session message : option string)
  (snapshot : TaskSnapshot) (d : Desk) (sh : Shared) : Desk * list Effect * Shared :=
  match handover_target action task_id assignee (ts_status snapshot) target_session with
  | Err (e, retry_after_secs) => (d, [Reply (EventError id e retry_after_secs)], sh)
  | Ok new_target =>
      let '(d, effects, sh) :=
        handle_comm_assign_task_with_mode se now file_ok id client req_session_id (Some new_target) (Some task_id)
          (handoff_message action assignee message snapshot (d_swarm d)) AlwaysDispatch (before d) sh in
      let d := between d in
      (d, effects ++ stand_down action req_session_id swarm_id task_id assignee new_target (d_swarm d), sh)
  end.

Definition hand_over := hand_over_around (λ d, d) (λ d, d).

Definition retry_note (message : option string) : string :=
  "Retry this assignment." +:+ section_of "Additional coordinator instructions:" message.

(** A task that was found, and its worker. *)
Definition control_assigned (now : N) (file_ok : bool) (id : N) (client : nat) (action : TaskControlAction)
  (req_session_id swarm_id task_id assignee : string) (target_session message : option string) (snapshot : TaskSnapshot)
  (d : Desk) (sh : Shared) : Desk * list Effect * Shared :=
  match action with
  | Start | Wake | Resume =>
      let '(s, effects) :=
        resume_assignee now id action req_session_id swarm_id task_id assignee target_session message snapshot (d_swarm d) in
      (on_swarm (λ _, s) d, effects, sh)
  | Retry =>
      handle_comm_assign_task_with_mode se now file_ok id client req_session_id (Some assignee) (Some task_id)
        (Some (retry_note message)) AlwaysDispatch d sh
  | Reassign | Replace | Salvage =>
      hand_over now file_ok id client action req_session_id swarm_id task_id assignee target_session message snapshot d sh
  end.

Definition unknown_action : string :=
  "Unknown task control action. Use start, wake, resume, retry, reassign, replace, or salvage.".

Definition handle_comm_task_control (now : N) (file_ok : bool) (id : N) (client : nat) (req_session_id action task_id : string)
  (target_session message : option string) (d : Desk) (sh : Shared) : Desk * list Effect * Shared :=
  match action_parse action with
  | None => (d, [err id unknown_action], sh)
  | Some action =>
      match require_plan_driver_swarm req_session_id "Only the coordinator can control assigned tasks." (d_swarm d) with
      | Err e => (d, [err id e], sh)
      | Ok swarm_id =>
          match controlled_task swarm_id task_id target_session action (d_swarm d) with
          | Err e => (d, [err id e], sh)
          | Ok task_id =>
              match task_snapshot_for from_json swarm_id task_id (d_swarm d) with
              | None => (d, [err id ("Task '" +:+ task_id +:+ "' not found in swarm plan")], sh)
              | Some snapshot =>
                  if negb (task_control_action_allows_status action (ts_status snapshot)) then
                    (d, [err id (task_control_status_error action (ts_status snapshot) task_id)], sh)
                  else
                    match ts_assigned_to snapshot with
                    | None =>
                        (d, [err id ("Task '" +:+ task_id
                             +:+ "' is not currently assigned. Use assign_task to create the first assignment.")], sh)
                    | Some assignee =>
                        control_assigned now file_ok id client action req_session_id swarm_id task_id assignee
                          target_session message snapshot d sh
                    end
              end
          end
      end
  end.
End sessions.
End control.
