(* ===== verification/Work.v ===== *)
(** * What work does to a plan

    Assigning, running, sweeping, salvaging and leaving change the status and the assignee of
    items, and their progress; the plan itself stays.  [worked] says so, and that in a deep
    plan no item becomes completed; it is shown of every such operation on a plan and lifted
    to the tables. *)

From S2P Require Import MutationState.
From S2P Require Import Prelude RustStr RustText DagTypes PlanTypes PlanCycle Plan PlanLemmas Bridge SwarmCore SwarmProgress SwarmMembers Effects GraphHandlers PlanHandlers TaskRun Workers Assign Control.

(** An item without what work changes. *)
Definition task_of (i : PlanItem) : PlanItem := set_assigned_to None (set_status "" i).

Definition is_deep_plan (p : VersionedPlan) : bool := eq_ignore_ascii_case (v_mode p) "deep".

(** The same item; in a deep plan not completed unless it was. *)
Definition item_worked (deep : bool) (i i' : PlanItem) : Prop :=
  task_of i' = task_of i ∧ (deep = true → is_completed_status (i_status i') = true → is_completed_status (i_status i) = true).

Record worked (p p' : VersionedPlan) : Prop := {
  worked_mode : v_mode p' = v_mode p;
  worked_meta : v_node_meta p' = v_node_meta p;
  worked_items : Forall2 (item_worked (is_deep_plan p)) (v_items p) (v_items p');
}.

#[export] Instance item_worked_preorder deep : PreOrder (item_worked deep).
Proof. split; [done|]. intros i j k [H1 H2] [H3 H4]. split; [by rewrite H3|naive_solver]. Qed.

#[export] Instance worked_preorder : PreOrder worked.
Proof.
  split; [intros p; by constructor|]. intros p q r [H1 H2 H3] [H4 H5 H6]. constructor; [congruence..|].
  unfold is_deep_plan in *. rewrite H1 in H6. by etrans.
Qed.

Lemma worked_same_items p p' :
  v_mode p' = v_mode p → v_node_meta p' = v_node_meta p → v_items p' = v_items p → worked p p'.
Proof. intros H1 H2 H3. constructor; [done..|]. by rewrite H3. Qed.

(** ** Changes of one item *)

Definition harmless (deep : bool) (f : PlanItem → PlanItem) : Prop := ∀ i, item_worked deep i (f i).

Lemma harmless_id deep : harmless deep id.
Proof. by intros i. Qed.

Lemma harmless_assigned deep o : harmless deep (set_assigned_to o).
Proof. by intros i. Qed.

Lemma harmless_status deep st : (deep = true → is_completed_status st = false) → harmless deep (set_status st).
Proof. intros H i. split; [done|]. intros Hd. simpl. by rewrite H. Qed.

Lemma harmless_compose deep f g : harmless deep f → harmless deep g → harmless deep (λ i, f (g i)).
Proof. intros Hf Hg i. by etrans; [apply Hg|]. Qed.

#[export] Hint Resolve harmless_id harmless_assigned harmless_status harmless_compose : work.
#[export] Hint Extern 2 (_ → is_completed_status _ = false) => intros; reflexivity : work.

Lemma update_first_worked deep P f l : harmless deep f → Forall2 (item_worked deep) l (update_first P f l).
Proof.
  intros H. induction l as [|i l IH]; simpl; [done|]. destruct (P i); constructor; try done; reflexivity.
Qed.

Lemma worked_revise id f t p : harmless (is_deep_plan p) f → worked p (revise id f t p).
Proof. intros H. constructor; [done..|]. by apply update_first_worked. Qed.

Lemma worked_map_item id f p : harmless (is_deep_plan p) f → worked p (map_item id f p).
Proof. intros H. constructor; [done..|]. by apply update_first_worked. Qed.

Lemma worked_set_progress id t p : worked p (set_progress id t p).
Proof. by apply worked_same_items. Qed.

Lemma worked_on_item id f p : (∀ i, worked p (f i p)) → worked p (on_item id f p).
Proof. intros H. unfold on_item. by destruct (find_item _ _). Qed.

#[export] Hint Resolve worked_revise worked_map_item worked_set_progress worked_on_item : work.

(** ** Operations on a plan *)

Lemma worked_reclaim p x : worked p (reclaim_stranded_assignment p x).2.
Proof.
  unfold reclaim_stranded_assignment. destruct (find_item _ _) as [i|]; [|reflexivity].
  destruct (i_assigned_to i); [|reflexivity]. constructor; [done..|]. apply update_first_worked. auto with work.
Qed.

Lemma worked_salvage_task now sid st x : worked st.1 (salvage_task now sid st x).1.
Proof.
  destruct st as [p out]. unfold salvage_task. destruct (_ <=? _)%N; simpl.
  - apply worked_revise. auto 6 with work.
  - pose proof (worked_reclaim p x) as H. destruct (reclaim_stranded_assignment p x) as [[] p']; simpl in *; [|done].
    etrans; [exact H|]. etrans; [|apply worked_set_progress]. auto 6 with work.
Qed.

Lemma worked_salvage now sid p : worked p (salvage_plan_assignments_of now sid p).1.
Proof.
  unfold salvage_plan_assignments_of. set (l := map _ _). clearbody l.
  change (worked (p, no_salvage).1 (foldl (salvage_task now sid) (p, no_salvage) l).1). generalize (p, no_salvage) as st.
  induction l as [|x l IH]; intros st; simpl; [reflexivity|]. etrans; [apply worked_salvage_task|apply IH].
Qed.

Lemma worked_touch now x a d c p : worked p (touch_task now x a d c p).2.
Proof. unfold touch_task. destruct (find_item _ _); [|reflexivity]. case_bool_decide; simpl; auto with work. Qed.

Lemma worked_refresh now after p : worked p (refresh_plan now after p).1.
Proof.
  pose proof (refresh_plan_spec now after p) as H.
  assert (v_mode (refresh_plan now after p).1 = v_mode p ∧ v_node_meta (refresh_plan now after p).1 = v_node_meta p) as [Hm Hn].
  { unfold refresh_plan. by destruct (refresh_items _ _ _ _ _) as [[[? ?] ?] ?]. }
  destruct (refresh_plan now after p) as [p' c]. destruct H as [H _]. constructor; [done..|].
  simpl. rewrite H. apply Forall2_fmap_r, Forall_Forall2_diag, Forall_forall. intros i _.
  change (item_worked (is_deep_plan p) i (refreshed now after (v_task_progress p) i)). unfold refreshed.
  destruct (is_in_flight i); [|reflexivity]. apply harmless_status. intros _. by destruct (is_silent _ _ _).
Qed.

Lemma worked_start_item now x target text p : worked p (start_item now x target text p).
Proof. apply worked_on_item. intros _. auto with work. Qed.

(** The end of a turn completes items of plans that are not deep only. *)
Lemma worked_end_item now x p : worked p (end_item now x p).
Proof.
  apply worked_on_item. intros i. unfold disposition_of, turn_end_disposition. fold (is_deep_plan p).
  destruct (mem _ _); [|reflexivity]. simpl. destruct (is_deep_plan p) eqn:Hd.
  - destruct (_ =? 0)%N; simpl; apply worked_revise; auto 6 with work.
  - destruct (match v_node_meta p !! _ with Some _ => _ | None => _ end); [reflexivity|]. apply worked_revise.
    rewrite Hd. by apply harmless_status.
Qed.

Lemma worked_fail_item now x e p : worked p (fail_item now x e p).
Proof. apply worked_on_item. intros _. auto with work. Qed.

Lemma worked_participant sid p : worked p (add_participant sid p).
Proof. by apply worked_same_items. Qed.

Lemma worked_participants f p : worked p (set_participants f p).
Proof. by apply worked_same_items. Qed.

Lemma worked_spawned req sid p : worked p (add_spawned req sid p).
Proof. unfold add_spawned. case_match; [reflexivity|]. by apply worked_same_items. Qed.

Lemma worked_record now req target text id p : worked p (record_assignment now req target text id p).
Proof.
  unfold record_assignment. do 2 (etrans; [|apply worked_participant]). apply worked_revise. auto 6 with work.
Qed.

Lemma worked_assign from_json now stale mode task message req target p :
  worked p (assign_in_plan from_json now stale mode task message req target p).1.
Proof.
  unfold assign_in_plan. destruct (assignment_blocked_reason _ _ _ _ _); [reflexivity|].
  destruct (_ ≫= _) as [i|]; [|reflexivity]. apply worked_record.
Qed.

Lemma worked_requeue now req a x text p p' : requeue_existing_assignment now req a x text p = Some p' → worked p p'.
Proof.
  unfold requeue_existing_assignment. destruct (find_item _ _); [|done]. intros [= <-].
  do 2 (etrans; [|apply worked_participant]). apply worked_revise. auto 6 with work.
Qed.

#[export] Hint Resolve worked_reclaim worked_salvage worked_touch worked_refresh worked_start_item worked_end_item
  worked_fail_item worked_participant worked_participants worked_spawned worked_record worked_assign : work.

(** ** In the tables *)

(** Every plan was worked on; a plan that was not there is one that was worked on from the
    empty plan. *)
Definition all_worked (s s' : SwarmState) : Prop :=
  ∀ w, match ss_plans s !! w, ss_plans s' !! w with
       | Some p, Some p' => worked p p'
       | None, Some p' => worked plan_new p'
       | Some _, None => False
       | None, None => True
       end.

#[export] Instance all_worked_preorder : PreOrder all_worked.
Proof.
  split; [intros s w; by destruct (ss_plans s !! w)|]. intros s1 s2 s3 H1 H2 w. specialize (H1 w). specialize (H2 w).
  repeat case_match; try done; by etrans.
Qed.

Lemma all_worked_plans s s' : ss_plans s' = ss_plans s → all_worked s s'.
Proof. intros H w. rewrite H. by destruct (ss_plans s !! w). Qed.

Lemma all_worked_insert w p' s : worked (default plan_new (ss_plans s !! w)) p' → all_worked s (with_plans <[w := p']> s).
Proof.
  intros H v. simpl. destruct (decide (v = w)) as [->|Hne].
  - rewrite lookup_insert_eq. by destruct (ss_plans s !! w).
  - rewrite lookup_insert_ne by done. by destruct (ss_plans s !! v).
Qed.

Lemma all_worked_alter w f s : (∀ p, worked p (f p)) → all_worked s (with_plans (alter f w) s).
Proof.
  intros H v. simpl. destruct (decide (v = w)) as [->|Hne].
  - rewrite lookup_alter_eq. destruct (ss_plans s !! w); [apply H|done].
  - rewrite lookup_alter_ne by done. by destruct (ss_plans s !! v).
Qed.

Lemma all_worked_fmap f s : (∀ p, worked p (f p)) → all_worked s (with_plans (fmap f) s).
Proof. intros H v. simpl. rewrite lookup_fmap. destruct (ss_plans s !! v); [apply H|done]. Qed.

Lemma all_worked_label sid text s : all_worked s (set_member_task_label sid text s).
Proof. apply all_worked_plans. unfold set_member_task_label. by destruct (derive_swarm_task_label text). Qed.

Lemma all_worked_status now sid st d r t rec s :
  all_worked s (update_member_status_with_report_tldr now sid st d r t rec s).
Proof. apply all_worked_plans. unfold update_member_status_with_report_tldr. by repeat case_match. Qed.

#[export] Hint Resolve all_worked_alter all_worked_fmap all_worked_label all_worked_status : work.

Lemma all_worked_salvage now sid w s : all_worked s (salvage_assignments_of_dead_member now sid w s).
Proof.
  unfold salvage_assignments_of_dead_member. destruct (ss_plans s !! w) as [p|] eqn:E; [|reflexivity].
  pose proof (worked_salvage now sid p) as H. destruct (salvage_plan_assignments_of now sid p) as [p' out]. simpl in H.
  assert (all_worked s (with_plans <[w := p']> s)) as Hs by (apply all_worked_insert; by rewrite E).
  destruct (salvage_is_empty out); [done|]. etrans; [exact Hs|]. apply all_worked_plans.
  unfold notify_coordinator_of_salvage. destruct (ss_coordinators _ !! w); [|done]. by case_bool_decide.
Qed.

Lemma all_worked_sweep env now s : all_worked s (refresh_swarm_task_staleness env now s).
Proof.
  unfold refresh_swarm_task_staleness. set (s1 := with_plans _ s).
  assert (all_worked s s1) as H by (apply all_worked_fmap; auto with work).
  etrans; [exact H|]. generalize (salvage_candidates now (swarm_task_stale_after_ms env) s1) as l.
  clearbody s1. intros l. clear H. revert s1. induction l as [|[w sid] l IH]; intros s1; simpl; [reflexivity|].
  etrans; [|apply IH]. apply all_worked_salvage.
Qed.

Lemma all_worked_touch now w x a d c s : all_worked s (touch_swarm_task_progress now w x a d c s).2.
Proof.
  unfold touch_swarm_task_progress. destruct (ss_plans s !! w) as [p|] eqn:E; [|reflexivity].
  pose proof (worked_touch now x a d c p) as H. destruct (touch_task _ _ _ _ _ _) as [r p'].
  apply all_worked_insert. by rewrite E.
Qed.

Lemma all_worked_elect w s : all_worked s (elect_coordinator w s).
Proof.
  unfold elect_coordinator. destruct (ss_swarms s !! w ≫= _) as [c|]; [|by apply all_worked_plans].
  etrans; [apply (all_worked_alter w (set_participants (λ ps, {[c]} ∪ ps))); auto with work|].
  destruct (ss_members _ !! c); by apply all_worked_plans.
Qed.

Lemma all_worked_remove now sid w s : all_worked s (remove_session_from_swarm now sid w s).
Proof.
  unfold remove_session_from_swarm. etrans; [apply (all_worked_salvage now sid w)|].
  set (s1 := salvage_assignments_of_dead_member now sid w s).
  etrans; [apply (all_worked_alter w (set_participants (λ ps, ps ∖ {[sid]}))); auto with work|].
  case_bool_decide; [|by apply all_worked_plans].
  etrans; [|by apply all_worked_plans; reflexivity]. etrans; [|apply all_worked_elect].
  by apply all_worked_plans.
Qed.

#[export] Hint Resolve all_worked_salvage all_worked_sweep all_worked_touch all_worked_elect all_worked_remove : work.
