(* ===== verification/Server.v ===== *)
(** * The server as a whole

    Every request on graphs, tasks, roles and workers (in [any_step] those on whole plans too), the runs of the tasks, the sweep and
    the changes of the members, as one step relation on the tables.  Claims, channels, agents
    and the record of mutations may be anything at a step. *)

From S2P Require Import MutationState.
From S2P Require Import Prelude RustStr RustText DagTypes DagOps DagInv DagSim PlanTypes PlanCycle Plan PlanLemmas Bridge PlanTheorems SwarmCore SwarmProgress SwarmMembers Effects GraphHandlers GraphTheorems PlanHandlers PlanHandlersTheorems TaskRun Workers Assign Control Work.

(** ** Handlers only work on plans *)

Lemma deduplicated_rel {T} (R : T → T → Prop) ok r (body : T → T * list Effect * PersistedSwarmMutationResponse) t sh :
  Reflexive R → (∀ t, R t (body t).1.1) → R t (deduplicated ok r body t sh).1.1.
Proof.
  intros HR Hb. unfold deduplicated. destruct (begin_with_mode _ _ _ _) as [[] sh']; simpl; try reflexivity.
  specialize (Hb t). by destruct (body t) as [[t' effects] response].
Qed.

(** The claims are beside the point. *)
Definition desk_worked (d d' : Desk) : Prop := all_worked (d_swarm d) (d_swarm d').

#[export] Instance desk_worked_preorder : PreOrder desk_worked.
Proof. split; [by intros d; unfold desk_worked|]. intros d1 d2 d3. unfold desk_worked. by etrans. Qed.

Lemma desk_on_swarm f d : all_worked (d_swarm d) (f (d_swarm d)) → desk_worked d (on_swarm f d).
Proof. done. Qed.

Lemma desk_on_claims f d : desk_worked d (on_claims f d).
Proof. unfold desk_worked. simpl. reflexivity. Qed.

#[export] Hint Resolve desk_on_swarm desk_on_claims : work.

Lemma run_step_worked now r st s : all_worked s (run_step now r st s).1.
Proof.
  destruct st as [| |e|[report|error]]; simpl.
  - etrans; [apply (all_worked_alter (run_swarm r)); intros p; apply worked_start_item|].
    etrans; [apply all_worked_label|apply all_worked_status].
  - unfold beat. pose proof (all_worked_touch now (run_swarm r) (run_task r) (Some (run_target r)) None None s) as H.
    by destruct (touch_swarm_task_progress _ _ _ _ _ _ _).
  - unfold progress_event. destruct (event_progress e) as [d c].
    pose proof (all_worked_touch now (run_swarm r) (run_task r) (Some (run_target r)) d c s) as H.
    destruct (touch_swarm_task_progress _ _ _ _ _ _ _) as [revived s']. simpl in H.
    destruct d as [d|]; [|by destruct c]. etrans; [exact H|apply all_worked_status].
  - etrans; [apply (all_worked_alter (run_swarm r)); intros p; apply worked_end_item|]. apply all_worked_status.
  - etrans; [apply (all_worked_alter (run_swarm r)); intros p; apply worked_fail_item|]. apply all_worked_status.
Qed.

Lemma resolve_target_desk now a w target d : d_swarm (resolve_assignment_target_session now a w target d).2 = d_swarm d.
Proof.
  unfold resolve_assignment_target_session. destruct target; [done|]. by destruct (select_and_claim_auto_target _ _ _ _ _).
Qed.

Lemma planner_target_desk now a w x d : d_swarm (planner_target now a w x d).2 = d_swarm d.
Proof.
  unfold planner_target. destruct (_ ≫= _) as [owner|]; [|done]. case_bool_decide; [done|].
  destruct (existsb _ _); [|done]. by destruct (try_claim_auto_assign_target _ _ _ _).
Qed.

Lemma resolve_for_task_desk now a w x target d :
  d_swarm (resolve_assignment_target_for_task now a w x target d).2 = d_swarm d.
Proof.
  unfold resolve_assignment_target_for_task. destruct target as [t|]; [apply resolve_target_desk|].
  pose proof (planner_target_desk now a w x d) as H. destruct (planner_target now a w x d) as [[owner|] d']; [done|].
  simpl in H. destruct (ss_plans _ !! w) as [p|]; [|done]. destruct (assignment_affinities_for_task p x); [|done].
  by destruct (select_and_claim_auto_target _ _ _ _ _).
Qed.

Section handlers.
Context (from_json : string → option HandoffArtifact).
Context (hash : string → N).
Context (stale : N).

Abbreviation assign_task := (assign_task from_json stale).
Abbreviation handle_comm_assign_task_with_mode := (handle_comm_assign_task_with_mode from_json hash stale).
Abbreviation handle_comm_assign_next := (handle_comm_assign_next from_json hash stale).
Abbreviation handle_comm_task_control := (handle_comm_task_control from_json hash stale).

Lemma assign_task_worked se now mode a w target task message d :
  desk_worked d (assign_task se now mode a w target task message d).1.1.
Proof.
  unfold Control.assign_task. pose proof (resolve_target_desk now a w target d) as Hd.
  destruct (resolve_assignment_target_session now a w target d) as [[t|e] d']; simpl in Hd; unfold desk_worked; rewrite <-Hd;
    [|simpl; reflexivity]. clear Hd d.
  pose proof (worked_assign from_json now stale mode task message a t (default plan_new (ss_plans (d_swarm d') !! w))) as H.
  destruct (assign_in_plan _ _ _ _ _ _ _ _ _) as [p assigned]. simpl in H. apply all_worked_insert in H.
  set (d2 := match target with None => _ | Some _ => _ end).
  assert (d_swarm d2 = with_plans <[w := p]> (d_swarm d')) as Hd2 by (subst d2; by destruct target).
  destruct assigned as [[x content]|e]; simpl; rewrite Hd2; [|done].
  etrans; [exact H|]. etrans; [apply all_worked_label|]. apply all_worked_status.
Qed.

Lemma assign_worked se now ok id client a target task message mode d sh :
  desk_worked d (handle_comm_assign_task_with_mode se now ok id client a target task message mode d sh).1.1.
Proof.
  unfold Control.handle_comm_assign_task_with_mode. destruct (require_plan_driver_swarm _ _ _) as [w|e]; [|simpl; reflexivity].
  apply deduplicated_rel; [apply _|]. intros d'. apply assign_task_worked.
Qed.

Lemma next_runnable_worked w s : all_worked s (next_runnable_task_id_reclaiming_stranded w s).2.
Proof.
  unfold next_runnable_task_id_reclaiming_stranded. destruct (ss_plans s !! w) as [p|] eqn:E; [|simpl; reflexivity].
  destruct (next_unassigned_runnable_item_id p); [simpl; reflexivity|].
  destruct (next_stranded_runnable_item_id _ _) as [x|]; [|simpl; reflexivity].
  pose proof (worked_reclaim p x) as H. destruct (reclaim_stranded_assignment p x) as [[] p']; [|simpl; reflexivity].
  apply all_worked_insert. by rewrite E.
Qed.

Lemma register_headless_plans now n a s : ss_plans (register_headless_member now n a s).1 = ss_plans s.
Proof. unfold register_headless_member. by destruct (ns_swarm_of_dir n). Qed.

Lemma register_visible_plans now n w b a s : ss_plans (register_visible_spawned_member now n w b a s).1 = ss_plans s.
Proof. unfold register_visible_spawned_member. by destruct b. Qed.

Lemma spawn_worked now a w message label created s : all_worked s (spawn_swarm_agent now a w message label created s).1.2.
Proof.
  unfold spawn_swarm_agent. destruct created as [n|e]; [|simpl; reflexivity].
  set (r1 := if ns_visible n then (s, []) else _).
  assert (ss_plans r1.1 = ss_plans s) as H1.
  { subst r1. destruct (ns_visible n); [done|]. apply register_headless_plans. }
  destruct r1 as [s1 e1]. simpl in H1. set (s2 := with_plans _ s1).
  assert (all_worked s s2) as H2.
  { etrans; [by apply all_worked_plans|]. apply all_worked_alter. intros p. apply worked_spawned. }
  match goal with |- context [let '(s, registered) := ?r in _] => set (r2 := r) end.
  assert (ss_plans r2.1 = ss_plans s2) as H3.
  { subst r2. destruct (ns_visible n); [|done]. apply register_visible_plans. }
  destruct r2 as [s3 e3]. simpl in H3. cbn [fst snd].
  etrans; [exact H2|]. etrans; [by apply all_worked_plans|]. destruct (or_keep _ _); [apply all_worked_label|reflexivity].
Qed.

Lemma assign_next_worked se created now ok id client a target prefer needed message d sh :
  desk_worked d (handle_comm_assign_next se created now ok id client a target prefer needed message d sh).1.1.
Proof.
  unfold Control.handle_comm_assign_next, handle_comm_assign_task. destruct target as [t|]; [apply assign_worked|].
  destruct (require_plan_driver_swarm _ _ _) as [w|e]; [|simpl; reflexivity].
  pose proof (next_runnable_worked w (d_swarm d)) as Hn.
  destruct (next_runnable_task_id_reclaiming_stranded _ _) as [[x|] s1]; simpl in Hn; [|done].
  pose proof (resolve_for_task_desk now a w x None (on_swarm (λ _, s1) d)) as Hr.
  destruct (resolve_assignment_target_for_task _ _ _ _ _ _) as [preferred d1]. simpl in Hr.
  assert (desk_worked d d1) as H1 by (unfold desk_worked; by rewrite Hr).
  destruct (_ && _).
  - match goal with |- context [spawn_swarm_agent _ _ _ _ _ _ (d_swarm ?d)] => set (d2 := d) end.
    assert (d_swarm d2 = d_swarm d1) as H2 by (subst d2; by destruct preferred).
    pose proof (spawn_worked now a w None None created (d_swarm d2)) as Hs. rewrite H2 in *.
    destruct (spawn_swarm_agent _ _ _ _ _ _ _) as [[[spawned|e] s2] e2]; simpl in Hs.
    + match goal with |- context [Control.handle_comm_assign_task_with_mode ?a1 ?a2 ?a3 ?a4 ?a5 ?a6 ?a7 ?a8 ?a9 ?a10 ?a11 ?a12 ?a13 ?a14 ?a15] =>
        pose proof (assign_worked a4 a5 a6 a7 a8 a9 a10 a11 a12 a13 a14 a15) as Ha;
        destruct (Control.handle_comm_assign_task_with_mode a1 a2 a3 a4 a5 a6 a7 a8 a9 a10 a11 a12 a13 a14 a15) as [[d3 e3] sh3] end.
      simpl in *. etrans; [exact H1|]. etrans; [|exact Ha]. exact Hs.
    + simpl. etrans; [exact H1|]. exact Hs.
  - destruct preferred as [t|e]; [|done].
    match goal with |- context [Control.handle_comm_assign_task_with_mode ?a1 ?a2 ?a3 ?a4 ?a5 ?a6 ?a7 ?a8 ?a9 ?a10 ?a11 ?a12 ?a13 ?a14 ?a15] =>
      pose proof (assign_worked a4 a5 a6 a7 a8 a9 a10 a11 a12 a13 a14 a15) as Ha;
      destruct (Control.handle_comm_assign_task_with_mode a1 a2 a3 a4 a5 a6 a7 a8 a9 a10 a11 a12 a13 a14 a15) as [[d3 e3] sh3] end.
    simpl in *. etrans; [exact H1|]. etrans; [exact Ha|]. apply desk_on_claims.
Qed.

Lemma restart_worked now id action a w x assignee text status s :
  all_worked s (restart_task from_json now id action a w x assignee text status s).1.
Proof.
  unfold restart_task. case_bool_decide; [simpl; reflexivity|].
  destruct (ss_plans s !! w) as [p|] eqn:E; [|simpl; reflexivity]. simpl.
  destruct (requeue_existing_assignment _ _ _ _ _ _) as [p'|] eqn:Hr; [|simpl; reflexivity].
  apply all_worked_insert. rewrite E. by eapply worked_requeue.
Qed.

Lemma resume_worked se now id action a w x assignee target message snapshot s :
  all_worked s (resume_assignee from_json se now id action a w x assignee target message snapshot s).1.
Proof.
  unfold resume_assignee. destruct (target ≫= _); [simpl; reflexivity|]. unfold resume_available.
  destruct (se_agent_idle se assignee) as [idle|]; [|simpl; reflexivity].
  destruct (negb (is_member s assignee)); [simpl; reflexivity|]. destruct idle; [apply restart_worked|simpl; reflexivity].
Qed.

Lemma hand_over_worked se now ok id client action a w x assignee target message snapshot d sh :
  desk_worked d (hand_over from_json hash stale se now ok id client action a w x assignee target message snapshot d sh).1.1.
Proof.
  unfold hand_over, hand_over_around. destruct (handover_target _ _ _ _ _) as [t|[e retry]]; [|simpl; reflexivity].
  match goal with |- context [Control.handle_comm_assign_task_with_mode ?a1 ?a2 ?a3 ?a4 ?a5 ?a6 ?a7 ?a8 ?a9 ?a10 ?a11 ?a12 ?a13 ?a14 ?a15] =>
    pose proof (assign_worked a4 a5 a6 a7 a8 a9 a10 a11 a12 a13 a14 a15) as Ha;
    destruct (Control.handle_comm_assign_task_with_mode a1 a2 a3 a4 a5 a6 a7 a8 a9 a10 a11 a12 a13 a14 a15) as [[d3 e3] sh3] end.
  exact Ha.
Qed.

Lemma task_control_worked se now ok id client a action x target message d sh :
  desk_worked d (handle_comm_task_control se now ok id client a action x target message d sh).1.1.
Proof.
  unfold Control.handle_comm_task_control. destruct (action_parse action) as [act|]; [|simpl; reflexivity].
  destruct (require_plan_driver_swarm _ _ _) as [w|e]; [|simpl; reflexivity].
  destruct (controlled_task _ _ _ _ _) as [y|e]; [|simpl; reflexivity].
  destruct (task_snapshot_for _ _ _ _) as [snapshot|]; [|simpl; reflexivity].
  destruct (negb _); [simpl; reflexivity|]. destruct (ts_assigned_to snapshot) as [assignee|]; [|simpl; reflexivity].
  assert (∀ act, desk_worked d (let '(s, effects) :=
      resume_assignee from_json se now id act a w y assignee target message snapshot (d_swarm d) in
      (on_swarm (λ _, s) d, effects, sh)).1.1) as Hresume.
  { intros act'. pose proof (resume_worked se now id act' a w y assignee target message snapshot (d_swarm d)) as H.
    by destruct (resume_assignee _ _ _ _ _ _ _ _ _ _ _ _ _). }
  destruct act; simpl; first [apply Hresume|apply hand_over_worked|apply assign_worked].
Qed.

Lemma assign_role_worked se ok id client a target role d sh :
  desk_worked d (handle_comm_assign_role hash se ok id client a target role d sh).1.1.
Proof.
  unfold handle_comm_assign_role. destruct (swarm_id_for a (d_swarm d)) as [w|]; [|simpl; reflexivity].
  destruct (negb _); [simpl; reflexivity|]. apply deduplicated_rel; [apply _|]. intros d'.
  apply all_worked_plans. unfold assign_role. destruct (ss_members (d_swarm d') !! target); [|done]. simpl.
  case_bool_decide; [|done]. by case_bool_decide.
Qed.

Lemma claim_coordination_plans se a w s : ss_plans (claim_coordination se a w s).1 = ss_plans s.
Proof. unfold claim_coordination. by case_match. Qed.

Lemma handle_spawn_worked efforts limit se now ok id client a q created s sh :
  all_worked s (handle_comm_spawn hash efforts limit se now ok id client a q created s sh).1.1.
Proof.
  unfold handle_comm_spawn, ensure_spawn_coordinator_swarm. destruct (swarm_id_for a s) as [w|]; [|simpl; reflexivity].
  destruct (spawn_refusal _ _ _ _ _); [simpl; reflexivity|].
  pose proof (claim_coordination_plans se a w s) as Hc. destruct (claim_coordination se a w s) as [s1 e1]. simpl in Hc.
  match goal with |- context [deduplicated ok ?r ?b s1 sh] =>
    assert (all_worked s1 (deduplicated ok r b s1 sh).1.1) as Hd end.
  { apply deduplicated_rel; [apply _|]. intros s2. unfold spawn_and_answer.
    pose proof (spawn_worked now a w (sp_initial_message q) (sp_label q) created s2) as H.
    by destruct (spawn_swarm_agent _ _ _ _ _ _ _) as [[[n|e] s3] e3]. }
  destruct (deduplicated _ _ _ _ _) as [[s2 e2] sh2]. simpl in *. etrans; [by apply all_worked_plans|exact Hd].
Qed.

Definition floor_worked (f f' : Floor) : Prop := all_worked (f_swarm f) (f_swarm f').

Lemma stop_session_worked now target f : floor_worked f (stop_session now target f).1.1.
Proof.
  unfold floor_worked, stop_session. destruct (ss_members (f_swarm f) !! target) as [m|]; simpl; [|by apply all_worked_plans].
  destruct (m_swarm_id m) as [w|]; simpl; [|by apply all_worked_plans].
  etrans; [|apply all_worked_remove]. by apply all_worked_plans.
Qed.

Lemma handle_stop_worked now ok id client a target force f sh :
  floor_worked f (handle_comm_stop hash now ok id client a target force f sh).1.1.
Proof.
  unfold handle_comm_stop. assert (Reflexive floor_worked) as HR by (intros g; unfold floor_worked; reflexivity).
  destruct (swarm_id_for a (f_swarm f)) as [w|]; [|simpl; reflexivity].
  destruct (resolve_stop_target_session _ _ _) as [t|e]; [|simpl; reflexivity].
  destruct (negb _); [simpl; reflexivity|].
  match goal with |- context [deduplicated ok ?r ?b f sh] => pose proof (deduplicated_rel floor_worked ok r b f sh HR) as H end.
  destruct (deduplicated _ _ _ _ _) as [[f2 e2] sh2]. apply H. intros g. apply stop_session_worked.
Qed.
End handlers.

(** ** Open nodes of the engine *)

(** The nodes that are not done stay, and are not done unless [Q] says so. *)
Definition keeps_open (Q : string → Prop) (g g' : TaskGraph) : Prop :=
  ∀ x n, get g x = Some n → n_status n ≠ DagTypes.Done → ∃ n', get g' x = Some n' ∧ (n_status n' ≠ DagTypes.Done ∨ Q x).

Abbreviation stays_open := (keeps_open (λ _, False)).

Lemma keeps_open_refl Q g : keeps_open Q g g.
Proof. intros x n H1 H2. eauto. Qed.

Lemma keeps_open_trans Q g1 g2 g3 : stays_open g1 g2 → keeps_open Q g2 g3 → keeps_open Q g1 g3.
Proof. intros H1 H2 x n Hx Hn. destruct (H1 x n Hx Hn) as (n' & Hx' & [Hn'|[]]). eauto. Qed.

Lemma open_modify Q g id f :
  (∀ n, n_id (f n) = n_id n) → (∀ n, n_status n ≠ DagTypes.Done → n_status (f n) ≠ DagTypes.Done ∨ Q id) →
  keeps_open Q g (modify g id f).
Proof.
  intros Hid Hf x n Hx Hn. rewrite get_modify by done. case_decide as Hxi; [|eauto].
  subst. rewrite Hx. simpl. destruct (Hf n Hn); eauto.
Qed.

Lemma open_modify_status g id f :
  (∀ n, n_id (f n) = n_id n) → (∀ n, n_status (f n) ≠ DagTypes.Done) → stays_open g (modify g id f).
Proof. intros Hid Hf. apply open_modify; auto. Qed.

Lemma open_push g n : stays_open g (push g n).
Proof. intros x m Hx Hm. rewrite get_push, Hx. eauto. Qed.

Lemma open_push_specs g specs parent origin : stays_open g (push_specs g specs parent origin).
Proof. intros x m Hx Hm. exists m. split; [by apply get_push_specs_old|by left]. Qed.

#[export] Hint Resolve keeps_open_refl open_push open_push_specs : open.

Lemma open_claim g x a : stays_open g (claim_queued_node_for_actor g x a).
Proof.
  unfold claim_queued_node_for_actor, dispatch. destruct (get g x) as [n|]; [|auto with open].
  destruct (_ && _); [|auto with open]. simpl. destruct (negb _); [auto with open|]. by apply open_modify_status.
Qed.

Lemma open_expand g id a children g' out : expand_node g id a children = Ok (g', out) → stays_open g g'.
Proof.
  intros (n & _ & _ & _ & _ & _ & _ & _ & _ & _ & -> & _)%expand_node_ok. unfold expand_staged.
  assert (∀ ds m, n_status (make_composite ds m) ≠ DagTypes.Done) as Hc by (intros; by rewrite make_composite_status).
  destruct (g_mode g).
  - apply (keeps_open_trans _ _ (push_specs g children (Some id) OExpand)); [apply open_push_specs|].
    eapply keeps_open_trans; [|apply open_modify_status; [apply make_composite_id|apply Hc]]. auto with open.
  - apply (keeps_open_trans _ _ (push_specs g children (Some id) OExpand)); [apply open_push_specs|].
    apply open_modify_status; [apply make_composite_id|apply Hc].
Qed.

Lemma open_inject g id a specs g' ids : inject_from_gate g id a specs = Ok (g', ids) → stays_open g g'.
Proof.
  intros (gate & _ & _ & _ & _ & _ & _ & _ & _ & _ & -> & _)%inject_from_gate_ok. unfold inject_staged.
  assert (stays_open g (modify (push_specs g specs (n_parent gate) OGap) id (requeue_gate (spec_ids specs)))) as H.
  { eapply keeps_open_trans; [apply open_push_specs|]. by apply open_modify_status. }
  destruct (n_parent gate); [|done]. eapply keeps_open_trans; [exact H|]. apply open_modify; [done|]. by left.
Qed.

Lemma open_seed g specs g' : seed g specs = Ok g' → stays_open g g'.
Proof.
  intros (unique & staged & _ & _ & -> & -> & _)%seed_ok.
  destruct (requires_gates _); [|auto with open]. eapply keeps_open_trans; [apply open_push_specs|].
  unfold ensure_root_gate. destruct (root_ids _); [auto with open|]. destruct (find _ _) as [gate|]; [|auto with open].
  apply open_modify; [intros m; apply widen_gate_id|]. intros m Hm. left. unfold widen_gate. by case_match.
Qed.

Lemma open_complete g x a artifact g' : complete_node g x a artifact = Ok g' → keeps_open (λ y, y = x) g g'.
Proof. intros (n & _ & _ & _ & _ & _ & ->)%complete_node_ok. apply open_modify; [done|]. by right. Qed.

(** ** Open items of a deep plan *)

Definition completed_in (p : VersionedPlan) (x : string) : Prop :=
  ∃ i, find_item (v_items p) x = Some i ∧ is_completed_status (i_status i) = true.

(** The item is there and not completed. *)
Definition open_in (p : VersionedPlan) (x : string) : Prop :=
  ∃ i, find_item (v_items p) x = Some i ∧ is_completed_status (i_status i) = false.

Lemma completed_not_open p x : completed_in p x → open_in p x → False.
Proof. intros (i & Hi & H1) (j & Hj & H2). congruence. Qed.

Lemma open_or_completed p x i : find_item (v_items p) x = Some i → open_in p x ∨ completed_in p x.
Proof. intros Hi. destruct (is_completed_status (i_status i)) eqn:E; [right|left]; exists i; auto. Qed.

Lemma status_from_plan_Done st : status_from_plan st = DagTypes.Done ↔ is_completed_status st = true.
Proof.
  unfold status_from_plan, is_completed_status. destruct (mem st ["running"; "running_stale"]) eqn:E.
  - split; [done|]. apply mem_true in E. rewrite mem_true. set_solver.
  - destruct (mem st ["completed"; "done"]); [done|]. by destruct (mem st ["failed"; "stopped"; "crashed"]); split.
Qed.

Lemma find_item_worked deep l l' x :
  Forall2 (item_worked deep) l l' →
  match find_item l x, find_item l' x with
  | Some i, Some i' => item_worked deep i i'
  | None, None => True
  | _, _ => False
  end.
Proof.
  unfold find_item. induction 1 as [|i i' l l' Hi _ IHl]; simpl; [done|].
  assert (i_id i' = i_id i) as -> by apply (f_equal i_id (proj1 Hi)). case_bool_decide; [exact Hi|exact IHl].
Qed.

Lemma find_item_map f l x : (∀ i, i_id (f i) = i_id i) → find_item (map f l) x = f <$> find_item l x.
Proof. intros H. unfold find_item. induction l as [|i l IH]; simpl; [done|]. rewrite H. by case_bool_decide. Qed.

Lemma worked_open p p' x : worked p p' → is_deep_plan p = true → open_in p x → is_deep_plan p' = true ∧ open_in p' x.
Proof.
  intros [Hm _ Hi] Hd (i & Hx & Ho). split; [unfold is_deep_plan; by rewrite Hm|].
  pose proof (find_item_worked _ _ _ x Hi) as H. rewrite Hx, Hd in H. destruct (find_item (v_items p') x) as [i'|] eqn:E; [|done].
  exists i'. split; [done|]. destruct H as [_ H]. destruct (is_completed_status (i_status i')); naive_solver.
Qed.

Lemma lower_is_deep (m : string) : eq_ignore_ascii_case m "deep" = true → parse_mode m = Deep.
Proof.
  unfold eq_ignore_ascii_case. rewrite bool_decide_eq_true. intros H.
  assert (∀ c d, lower_chr c = d → d ∈ ["d"%char; "e"%char; "p"%char] → c = d ∨ c = Ascii.ascii_of_nat (Ascii.nat_of_ascii d - 32)) as Hc.
  { intros c d <- Hd. destruct c as [[] [] [] [] [] [] [] []]; vm_compute in Hd |- *; first [by left|by right|exfalso];
      repeat (apply elem_of_cons in Hd as [Hd|Hd]; [discriminate|]); by apply elem_of_nil in Hd. }
  destruct m as [|c1 [|c2 [|c3 [|c4 [|]]]]]; try done. change (String (lower_chr c1) (String (lower_chr c2)
    (String (lower_chr c3) (String (lower_chr c4) ""))) = "deep") in H. injection H as H1 H2 H3 H4.
  apply Hc in H1, H2, H3, H4; [|set_solver..].
  destruct H1 as [->| ->], H2 as [->| ->], H3 as [->| ->], H4 as [->| ->]; vm_compute; reflexivity.
Qed.

Section server.
Context (to_json : HandoffArtifact → option string).
Context (parse_artifact : string → result HandoffArtifact string).
Context (is_closed : string → bool).
Context (hash : string → N).

Abbreviation from_json := (GraphHandlers.from_json parse_artifact).
Abbreviation lift := (to_task_graph from_json).
Abbreviation commit := (GraphHandlers.commit to_json).
Abbreviation expand_plan := (GraphHandlers.expand_plan to_json parse_artifact).
Abbreviation complete_plan := (GraphHandlers.complete_plan to_json parse_artifact).
Abbreviation inject_plan := (GraphHandlers.inject_plan to_json parse_artifact).
Abbreviation seed_plan := (GraphHandlers.seed_plan to_json parse_artifact).
Abbreviation handle_comm_complete_node := (GraphHandlers.handle_comm_complete_node to_json parse_artifact).
Abbreviation server_step := (GraphTheorems.server_step to_json parse_artifact is_closed).

Lemma open_lift p x : open_in p x ↔ ∃ n, get (lift p) x = Some n ∧ n_status n ≠ DagTypes.Done.
Proof.
  unfold open_in. rewrite get_lift. split.
  - intros (i & -> & Hi). eexists. split; [done|]. simpl. rewrite status_from_plan_Done, Hi. done.
  - intros (n & (i & -> & ->)%fmap_Some & Hn). exists i. split; [done|]. simpl in Hn.
    rewrite status_from_plan_Done in Hn. by destruct (is_completed_status (i_status i)).
Qed.

Lemma open_commit p g x n : get g x = Some n → n_status n ≠ DagTypes.Done → open_in (commit p g) x.
Proof.
  intros Hx Hn. unfold open_in, GraphHandlers.commit. cbn [bump v_items].
  rewrite v_items_apply, find_item_lower. unfold get in Hx. rewrite Hx. simpl. eexists. split; [done|].
  simpl. by destruct (n_status n).
Qed.

Lemma deep_lift p : is_deep_plan p = true → g_mode (lift p) = Deep.
Proof. intros H. rewrite to_task_graph_eq. simpl. by apply lower_is_deep. Qed.

Lemma deep_commit p g : g_mode g = Deep → is_deep_plan (commit p g) = true.
Proof. intros H. unfold is_deep_plan. cbn. by rewrite H. Qed.

Lemma mode_steps g g' : rtc dag_step g g' → g_mode g' = g_mode g.
Proof. induction 1 as [|g1 g2 g3 H _ IH]; [done|]. rewrite IH. by apply mode_step. Qed.

(** A deep plan with an open item. *)
Definition deep_open (p : VersionedPlan) (x : string) : Prop := is_deep_plan p = true ∧ open_in p x.

Lemma deep_open_commit p g x :
  deep_open p x → rtc dag_step (lift p) g → keeps_open (λ _, False) (lift p) g → deep_open (commit p g) x.
Proof.
  intros [Hd (n & Hx & Hn)%open_lift] Hr Hk. destruct (Hk x n Hx Hn) as (n' & Hx' & [Hn'|[]]). split.
  - apply deep_commit. rewrite (mode_steps _ _ Hr). by apply deep_lift.
  - by eapply open_commit.
Qed.

Lemma deep_open_size_checked verb p g x :
  deep_open p x → rtc dag_step (lift p) g → keeps_open (λ _, False) (lift p) g →
  deep_open (size_checked to_json verb p g).1 x.
Proof. intros H1 H2 H3. unfold size_checked. destruct (graph_size_error g); [done|]. by apply deep_open_commit. Qed.

Lemma deep_open_expand y a specs p x : deep_open p x → deep_open (expand_plan y a specs p).1 x.
Proof.
  intros H. unfold GraphHandlers.expand_plan. destruct (expand_node _ _ _ _) as [[g out]|e] eqn:E; [|done].
  apply deep_open_size_checked; [done|..].
  - eapply rtc_r; [apply claim_steps|]. by eapply step_expand.
  - eapply keeps_open_trans; [apply open_claim|]. by eapply open_expand.
Qed.

Lemma deep_open_inject y a specs p x : deep_open p x → deep_open (inject_plan y a specs p).1 x.
Proof.
  intros H. unfold GraphHandlers.inject_plan. destruct (inject_from_gate _ _ _ _) as [[g out]|e] eqn:E; [|done].
  apply deep_open_size_checked; [done|..].
  - eapply rtc_r; [apply claim_steps|]. by eapply step_inject.
  - eapply keeps_open_trans; [apply open_claim|]. by eapply open_inject.
Qed.

Lemma deep_open_seed mode a specs p x : deep_open p x → deep_open (seed_plan mode a specs p).1 x.
Proof.
  intros [Hd Ho]. unfold GraphHandlers.seed_plan.
  destruct (match mode with Some m => downgrades_deep m p | None => false end) eqn:E; [done|].
  assert (deep_open (opened mode a p) x) as H.
  { split; [|by destruct mode]. destruct mode as [m|]; [|done]. unfold downgrades_deep in E.
    unfold is_deep_plan in Hd. rewrite Hd in E. cbn in E. destruct Ho as (i & Hi & _).
    destruct (v_items p) as [|j l] eqn:Hl; [done|]. simpl in E. rewrite andb_true_r in E. apply negb_false_iff in E.
    exact E. }
  fold (opened mode a p). destruct (seed _ _) as [g|e] eqn:Hs; [|done]. destruct (graph_size_error g); [done|].
  simpl. case_bool_decide; [done|]. apply deep_open_commit; [done|..]; [|by eapply open_seed].
  apply rtc_once. by eapply step_seed.
Qed.

(** What completing an item of a deep plan takes. *)
Lemma deep_open_complete y a artifact p x :
  deep_open p x →
  deep_open (complete_plan y a artifact p).1 x ∨
  (x = y ∧ (complete_plan y a artifact p).2 = Ok tt ∧ validate_artifact Deep x (is_gate_item p x) artifact = Ok tt).
Proof.
  intros H. unfold GraphHandlers.complete_plan. destruct (complete_node _ _ _ _) as [g|e] eqn:E; [|by left].
  cbn [fst snd]. pose proof (open_complete _ _ _ _ _ E) as Hk.
  pose proof (keeps_open_trans _ _ _ _ (open_claim (lift p) y a) Hk) as Hk'.
  destruct H as [Hd Ho]. pose proof Ho as (n & Hx & Hn)%open_lift. destruct (Hk' x n Hx Hn) as (n' & Hx' & [Hn'|Heq]).
  - left. split; [|by eapply open_commit]. apply deep_commit.
    rewrite <-(deep_lift p Hd). apply mode_steps. eapply rtc_r; [apply claim_steps|]. by eapply step_complete.
  - right. subst y. split_and!; [done..|]. apply complete_node_ok in E as (m & Hm & _ & _ & Hv & _ & _).
    rewrite (mode_steps _ _ (claim_steps (lift p) x a)), deep_lift in Hv by done.
    assert (n_is_gate m = is_gate_item p x) as <-; [|done].
    assert (n_is_gate m = n_is_gate n) as ->.
    { unfold claim_queued_node_for_actor, dispatch in Hm. rewrite Hx in Hm. destruct (_ && _); [|by simplify_eq].
      simpl in Hm. destruct (negb _); [simpl in Hm; by simplify_eq|]. simpl in Hm.
      rewrite get_modify, decide_True, Hx in Hm by done. by simplify_eq/=. }
    rewrite get_lift in Hx. apply fmap_Some in Hx as (i & Hi & ->). apply find_item_Some in Hi as [_ Hi].
    simpl. rewrite Hi. unfold is_gate_item. by destruct (v_node_meta p !! x).
Qed.

(** ** Steps of the server *)

Definition desk (s : SwarmState) (claims : Claims) : Desk := {| d_swarm := s; d_claims := claims |}.
Definition floor (s : SwarmState) (channels : ChannelIndex) (agents : gset string) : Floor := {|
  f_swarm := s; f_channels := channels; f_agents := agents |}.

(** Requests that assign and control tasks, roles and workers, and the runs of the tasks. *)
Inductive work_step (s : SwarmState) : SwarmState → Prop :=
| work_run now r st : work_step s (run_step now r st s).1
| work_assign stale se now ok id client a target task message claims sh :
    work_step s (d_swarm (handle_comm_assign_task from_json hash stale se now ok id client a target task message
                            (desk s claims) sh).1.1)
| work_next stale se created now ok id client a target prefer needed message claims sh :
    work_step s (d_swarm (handle_comm_assign_next from_json hash stale se created now ok id client a target prefer needed
                            message (desk s claims) sh).1.1)
| work_control stale se now ok id client a action x target message claims sh :
    work_step s (d_swarm (handle_comm_task_control from_json hash stale se now ok id client a action x target message
                            (desk s claims) sh).1.1)
| work_role se ok id client a target role claims sh :
    work_step s (d_swarm (handle_comm_assign_role hash se ok id client a target role (desk s claims) sh).1.1)
| work_spawn efforts limit se now ok id client a q created sh :
    work_step s (handle_comm_spawn hash efforts limit se now ok id client a q created s sh).1.1
| work_stop now ok id client a target force channels agents sh :
    work_step s (f_swarm (handle_comm_stop hash now ok id client a target force (floor s channels agents) sh).1.1).

(** With the requests on graphs, and what happens to the members meanwhile. *)
Definition step (s s' : SwarmState) : Prop := server_step s s' ∨ work_step s s'.

Lemma work_step_worked s s' : work_step s s' → all_worked s s'.
Proof.
  intros []; first [apply run_step_worked|apply (assign_worked _ _ _ _ _ _ _ _ _ _ _ _ _ (desk s _))
    |apply (assign_next_worked _ _ _ _ _ _ _ _ _ _ _ _ _ _ (desk s _))
    |apply (task_control_worked _ _ _ _ _ _ _ _ _ _ _ _ _ (desk s _))
    |apply (assign_role_worked _ _ _ _ _ _ _ _ (desk s _))|apply handle_spawn_worked
    |apply (handle_stop_worked _ _ _ _ _ _ _ _ (floor s _ _))].
Qed.

(** *** Plans stay plans *)

Lemma worked_shape p p' : worked p p' → shape p' = shape p.
Proof.
  intros [_ _ H]. unfold shape. induction H as [|i i' l l' [Hi _] _ IH]; simpl; [done|]. rewrite IH.
  pose proof (f_equal i_id Hi) as H1. pose proof (f_equal i_blocked_by Hi) as H2. simpl in H1, H2. by rewrite H1, H2.
Qed.

Abbreviation plans_ok := (plans_ok parse_artifact).

Lemma plans_ok_worked s s' : all_worked s s' → plans_ok s → plans_ok s'.
Proof.
  intros H Hok w p' Hp'. specialize (H w). rewrite Hp' in H. destruct (ss_plans s !! w) as [p|] eqn:E.
  - eapply plan_ok_shape; [symmetry; by apply worked_shape|]. by apply (Hok w).
  - eapply plan_ok_shape; [symmetry; by apply worked_shape|]. apply plan_ok_new.
Qed.

Lemma plans_ok_steps s s' : rtc step s s' → plans_ok s → plans_ok s'.
Proof.
  induction 1 as [|s1 s2 s3 [H|H] _ IH]; [done|..]; intros Hok; apply IH.
  - by eapply plans_ok_step.
  - eapply plans_ok_worked; [|exact Hok]. by apply work_step_worked.
Qed.

(** C6 (invariant). The plans of the server stay plans.  Start with no plan and let sessions
    send any requests on graphs, tasks, roles and workers, accepted or not, while tasks run,
    members join, leave, die, report and are swept: at every time the items of every plan have
    distinct ids, every dependency names an item of the plan, no item is on a dependency
    cycle, and there are at most 1024 items. *)
Theorem plans_stay_sound s s' w p :
  ss_plans s = ∅ → rtc step s s' → ss_plans s' !! w = Some p →
  NoDup (map i_id (v_items p))
  ∧ (∀ i d, i ∈ v_items p → d ∈ i_blocked_by i → d ∈ map i_id (v_items p))
  ∧ cycle_item_ids (v_items p) = []
  ∧ length (v_items p) ≤ MAX_PLAN_ITEMS.
Proof.
  intros H0 Hr Hp. assert (plans_ok s) as Hs by (intros v q Hq; by rewrite H0, lookup_empty in Hq).
  destruct (plans_ok_steps _ _ Hr Hs _ _ Hp) as [Ho Hl]. destruct (sound_facts parse_artifact is_closed p Ho) as (H1 & H2 & H3). done.
Qed.

(** *** Deep work is completed by its worker *)

(** The plan of a swarm is deep and has the item, not completed. *)
Definition awaits (w x : string) (s : SwarmState) : Prop := ∃ p, ss_plans s !! w = Some p ∧ deep_open p x.

Lemma awaits_worked w x s s' : all_worked s s' → awaits w x s → awaits w x s'.
Proof.
  intros H (p & Hp & Hd & Ho). specialize (H w). rewrite Hp in H. destruct (ss_plans s' !! w) as [p'|] eqn:E; [|done].
  exists p'. split; [done|]. by eapply worked_open.
Qed.

Lemma awaits_insert w x v p p' s :
  ss_plans s !! v = Some p → (deep_open p x → deep_open p' x) → awaits w x s → awaits w x (with_plans <[v := p']> s).
Proof.
  intros Hp Hk (q & Hq & Hx). unfold awaits. simpl. destruct (decide (w = v)) as [->|Hne].
  - rewrite lookup_insert_eq. simplify_eq. eauto.
  - rewrite lookup_insert_ne by done. eauto.
Qed.

Lemma awaits_on_plan w x id session reason n change s :
  (∀ p, deep_open p x → deep_open (change p).1 x) → awaits w x s → awaits w x (on_plan id session reason n change s).1.
Proof.
  intros Hk H. unfold on_plan. destruct (swarm_id_for session s) as [v|]; [|done].
  destruct (ss_plans s !! v) as [p|] eqn:E; [|done]. specialize (Hk p). destruct (change p) as [p' r].
  by eapply awaits_insert.
Qed.

Lemma awaits_plans w x s s' : ss_plans s' = ss_plans s → awaits w x s → awaits w x s'.
Proof. intros H. unfold awaits. by rewrite H. Qed.

(** The request that completed the item. *)
Definition completes (w x : string) (s s' : SwarmState) : Prop :=
  ∃ id session json artifact p,
    s' = (handle_comm_complete_node id session x json s).1 ∧ swarm_id_for session s = Some w
    ∧ ss_plans s !! w = Some p ∧ parse_artifact json = Ok artifact ∧ (complete_plan x session artifact p).2 = Ok tt
    ∧ validate_artifact Deep x (is_gate_item p x) artifact = Ok tt.

Lemma awaits_complete w x id session y json s :
  awaits w x s → let s' := (handle_comm_complete_node id session y json s).1 in awaits w x s' ∨ completes w x s s'.
Proof.
  intros H s'. destruct (swarm_id_for session s) as [v|] eqn:Hv.
  2: { left. subst s'. unfold GraphHandlers.handle_comm_complete_node. by rewrite Hv. }
  destruct (parse_artifact json) as [artifact|e] eqn:Ha.
  2: { left. subst s'. unfold GraphHandlers.handle_comm_complete_node. by rewrite Hv, Ha. }
  destruct (ss_plans s !! v) as [p|] eqn:Hp.
  2: { left. subst s'. unfold GraphHandlers.handle_comm_complete_node, on_plan. by rewrite Hv, Ha, Hp. }
  assert (s' = with_plans <[v := (complete_plan y session artifact p).1]> s) as Hs'.
  { subst s'. unfold GraphHandlers.handle_comm_complete_node, on_plan. rewrite Hv, Ha, Hp.
    by destruct (complete_plan y session artifact p). }
  destruct (decide (w = v)) as [->|Hne].
  - pose proof H as (q & Hq & Hx). rewrite Hp in Hq. injection Hq as <-.
    pose proof (deep_open_complete y session artifact p x Hx) as [Ho|(<- & Hr & Hv')].
    + left. rewrite Hs'. by eapply awaits_insert.
    + right. by exists id, session, json, artifact, p.
  - left. rewrite Hs'. destruct H as (q & Hq & Hx). exists q. simpl. by rewrite lookup_insert_ne.
Qed.

Lemma awaits_step w x s s' : step s s' → awaits w x s → awaits w x s' ∨ completes w x s s'.
Proof.
  intros [H|H] Hx; [|left; by eapply awaits_worked; [apply work_step_worked|]]. destruct H.
  - left. unfold GraphHandlers.handle_comm_seed_graph. destruct (swarm_id_for session s) as [v|]; [|done].
    match goal with |- context [GraphHandlers.seed_plan _ _ ?m _ ?sp ?p] =>
      pose proof (deep_open_seed m session sp p x) as Hs; destruct (GraphHandlers.seed_plan _ _ m session sp p) as [p' r] end.
    cbn [fst] in *. pose proof (ensure_seeder_plans is_closed v session s) as Hp. rewrite Hp in Hs.
    destruct (ss_plans s !! v) as [p|] eqn:E.
    + eapply awaits_insert; [by rewrite Hp|exact Hs|]. by eapply awaits_plans.
    + destruct Hx as (q & Hq & Hx). exists q. simpl. rewrite lookup_insert_ne by congruence. by rewrite Hp.
  - left. apply awaits_on_plan; [|done]. intros p. apply deep_open_expand.
  - by apply awaits_complete.
  - left. apply awaits_on_plan; [|done]. intros p. apply deep_open_inject.
  - left. eapply awaits_worked; [apply all_worked_remove|done].
  - left. eapply awaits_worked; [apply all_worked_status|done].
  - left. eapply awaits_worked; [apply all_worked_sweep|done].
  - left. eapply awaits_worked; [apply all_worked_touch|done].
  - left. destruct Hx as (p & Hp & Hd & i & Hi & Ho). unfold awaits. simpl. match goal with |- context [alter _ ?v _] => destruct (decide (w = v)) as [->|Hne] end.
    + rewrite lookup_alter_eq, Hp. simpl. eexists. split; [done|]. split; [done|]. unfold open_in. simpl.
      rewrite find_item_map by done. rewrite Hi. simpl. eexists. by split.
    + rewrite lookup_alter_ne by done. exists p. split; [done|]. split; [done|]. by exists i.
  - left. by eapply awaits_plans.
Qed.

(** *** Requests on whole plans *)

Section whole_plans.
Context (items_to_json : list PlanItem → option string).
Context (items_from_json : string → option (list PlanItem)).

Abbreviation handle_comm_propose_plan := (PlanHandlers.handle_comm_propose_plan items_to_json).
Abbreviation plan_step := (PlanHandlersTheorems.plan_step items_to_json items_from_json hash).

Definition tables (s : SwarmState) (context : gmap string (gmap string SharedContext)) : Tables := {|
  t_swarm := s; t_context := context |}.

(** With the requests that replace, extend or attach a plan, whatever the shared context holds. *)
Inductive any_step (s : SwarmState) : SwarmState → Prop :=
| any_work s' : step s s' → any_step s s'
| any_plan context t' : plan_step (tables s context) t' → any_step s (t_swarm t')
| any_resync id session : any_step s (handle_comm_resync_plan id session s).1.

(** The coordinator of the swarm replaced the items of its plan by a list that has no open
    item of this name. *)
Definition rewrites (w x : string) (s s' : SwarmState) : Prop :=
  ∃ now id session items context,
    s' = t_swarm (handle_comm_propose_plan now id session items (tables s context)).1
    ∧ swarm_id_for session s = Some w ∧ ss_coordinators s !! w = Some session
    ∧ (∃ p', ss_plans s' !! w = Some p' ∧ v_items p' = items)
    ∧ (∀ i, find_item items x = Some i → is_completed_status (i_status i) = true).

Lemma v_mode_add_owners items p : v_mode (add_owners items p) = v_mode p.
Proof. unfold add_owners. revert p. induction items as [|i l IH]; intros p; simpl; [done|]. rewrite IH. by destruct (i_assigned_to i). Qed.

Lemma find_item_app l l' x i : find_item l x = Some i → find_item (l ++ l') x = Some i.
Proof. unfold find_item. induction l as [|j l IH]; simpl; [done|]. by destruct (bool_decide (i_id j = x)). Qed.

(** A replaced plan has the item open still, or the list of the coordinator says otherwise. *)
Lemma deep_open_replace session items p x :
  deep_open p x →
  deep_open (replace_plan session items p) x ∨ (∀ i, find_item items x = Some i → is_completed_status (i_status i) = true).
Proof.
  intros [Hd _]. destruct (find_item items x) as [i|] eqn:E; [|by right].
  destruct (is_completed_status (i_status i)) eqn:Hi; [right; intros j; by intros [= <-]|]. left. split.
  - unfold is_deep_plan in *. cbn. by rewrite v_mode_add_owners.
  - exists i. by rewrite v_items_replace_plan.
Qed.

Lemma deep_open_extend session proposer items p x : deep_open p x → deep_open (extend_plan session proposer items p) x.
Proof.
  intros [Hd (i & Hi & Ho)]. split.
  - unfold is_deep_plan, extend_plan in *. by rewrite v_mode_add_owners.
  - exists i. rewrite v_items_extend_plan. split; [by apply find_item_app|done].
Qed.

Lemma awaits_propose w x now id session items context s :
  awaits w x s → let s' := t_swarm (handle_comm_propose_plan now id session items (tables s context)).1 in
  awaits w x s' ∨ rewrites w x s s'.
Proof.
  intros H s'. destruct (swarm_id_for session s) as [v|] eqn:Hv.
  2: { left. subst s'. unfold PlanHandlers.handle_comm_propose_plan. simpl. by rewrite Hv. }
  destruct (ss_coordinators s !! v) as [c|] eqn:Hc.
  2: { left. subst s'. unfold PlanHandlers.handle_comm_propose_plan. simpl. by rewrite Hv, Hc. }
  destruct (decide (c = session)) as [->|Hne].
  2: { left. subst s'. unfold PlanHandlers.handle_comm_propose_plan, store_proposal. simpl. rewrite Hv, Hc, bool_decide_false by done.
       by destruct (plan_cycle_error items). }
  destruct (plan_cycle_error items) as [e|] eqn:He.
  { left. subst s'. unfold PlanHandlers.handle_comm_propose_plan, update_directly. simpl. by rewrite Hv, Hc, bool_decide_true, He. }
  assert (s' = with_plans <[v := replace_plan session items (default plan_new (ss_plans s !! v))]> s) as Hs'.
  { subst s'. unfold PlanHandlers.handle_comm_propose_plan, update_directly. simpl. by rewrite Hv, Hc, bool_decide_true, He. }
  destruct (decide (w = v)) as [->|Hne].
  - pose proof H as (p & Hp & Hx). destruct (deep_open_replace session items p x Hx) as [Ho|Hi].
    + left. rewrite Hs', Hp. by eapply awaits_insert.
    + right. exists now, id, session, items, context. split_and!; [done..| |done]. rewrite Hs'. simpl.
      rewrite lookup_insert_eq. eexists. by split; [done|].
  - left. rewrite Hs'. destruct H as (q & Hq & Hx). exists q. simpl. by rewrite lookup_insert_ne.
Qed.

Lemma awaits_approve w x session v proposer context s :
  awaits w x s → awaits w x (t_swarm (approve_plan items_from_json session v proposer (tables s context)).1.1).
Proof.
  intros H. unfold approve_plan. destruct (context_entry _ _ _) as [c|]; [|done].
  destruct (items_from_json (c_value c)) as [items|]; [|done]. destruct (_ <? _); [done|].
  destruct (plan_cycle_error _); [done|]. simpl. destruct (ss_plans s !! v) as [p|] eqn:E; simpl.
  - by eapply awaits_insert; [exact E|apply deep_open_extend|].
  - destruct H as (q & Hq & Hx). exists q. simpl. rewrite lookup_insert_ne by congruence. done.
Qed.

Lemma awaits_any_step w x s s' :
  any_step s s' → awaits w x s → awaits w x s' ∨ completes w x s s' ∨ rewrites w x s s'.
Proof.
  intros H Hx. destruct H as [s' H|context t' H|id session].
  - destruct (awaits_step w x s s' H Hx); auto.
  - destruct H as [now id session items|file_ok id client session proposer sh|file_ok id client session proposer reason sh| |t' H].
    + destruct (awaits_propose w x now id session items context s Hx); auto.
    + left. unfold PlanHandlers.handle_comm_approve_plan. destruct (require_coordinator_swarm _ _ _) as [v|e]; [|done].
      match goal with |- context [deduplicated ?f ?r ?b ?t ?h] => destruct (deduplicated_cases f r b t h) as [->| ->] end;
        [done|by apply awaits_approve].
    + left. eapply awaits_plans; [|exact Hx]. by rewrite reject_handler_change.
    + left. by rewrite share_plans.
    + left. by eapply awaits_plans.
  - left. unfold handle_comm_resync_plan. destruct (swarm_id_for session s) as [v|]; [|done].
    destruct (ss_plans s !! v) as [p|] eqn:E; [|done]. by eapply awaits_insert.
Qed.

(** C7 (safety). Deep work is completed by its worker, or written by the coordinator.  Let
    sessions send any requests that touch plans (on nodes, proposals, assignments, control,
    roles, workers, and whole plans) while tasks run and members join, leave, die and are
    swept.  When an item of a deep plan was not completed and later is, then in between a step
    ended its openness, and that step was one of two: a session of the swarm sent a request to
    complete this very item, with an artifact that parses, that the plan accepted, and, unless
    the item is a gate, with findings, a list of what was not checked and a confidence; or the
    coordinator of the swarm replaced the whole plan by a list in which the item is completed
    already, or missing.  The end of a turn, a reassignment, an approved proposal, a sweep or a
    crash never completes it.  (The commands of the debug socket, and the
    loading of the plans at a restart, are not among the steps.) *)
Theorem deep_work_is_completed_by_its_worker w x s s' p p' :
  rtc any_step s s' →
  ss_plans s !! w = Some p → is_deep_plan p = true → open_in p x →
  ss_plans s' !! w = Some p' → completed_in p' x →
  ∃ s1 s2, rtc any_step s s1 ∧ awaits w x s1 ∧ any_step s1 s2 ∧ (completes w x s1 s2 ∨ rewrites w x s1 s2)
    ∧ rtc any_step s2 s'.
Proof.
  intros Hr Hp Hd Ho Hp' Hc. assert (awaits w x s) as Ha by (exists p; done). clear Hp Hd Ho.
  induction Hr as [s|s1 s2 s3 H12 H23 IH].
  - destruct Ha as (q & Hq & _ & Hx). simplify_eq. by destruct (completed_not_open _ _ Hc Hx).
  - destruct (awaits_any_step w x s1 s2 H12 Ha) as [Ha2|Hcomp].
    + destruct (IH Hp' Ha2) as (a & b & Ha' & Hrest). exists a, b. split; [|done]. by eapply rtc_l.
    + exists s1, s2. by split_and!.
Qed.
End whole_plans.
End server.

Lemma plans_stay_sound_witness :
  length (v_items expanded_plan) = 6 ∧ NoDup (map i_id (v_items expanded_plan)) ∧ cycle_item_ids (v_items expanded_plan) = [].
Proof.
  split; [vm_compute; reflexivity|].
  destruct (plans_stay_sound sample_to_json sample_parse connected (λ _, 0%N) solo_swarm expanded_swarm "w" expanded_plan)
    as (H1 & _ & H2 & _); [reflexivity| | |by split].
  - eapply rtc_l; [left; by apply step_seed_graph with (efforts := ∅) (id := 1%N) (session := "alice") (mode := Some "deep")
      (nodes := [sample_wire "a" []; sample_wire "b" ["a"]])|].
    apply rtc_once. left. apply step_expand_node with (id := 2%N) (session := "alice") (x := "a")
      (children := [sample_wire "a1" []; sample_wire "a2" ["a1"]]).
  - unfold expanded_plan. assert (is_Some (ss_plans expanded_swarm !! "w")) as [p ->]; [|done].
    apply (bool_decide_unpack (is_Some (ss_plans expanded_swarm !! "w"))). vm_compute. exact I.
Defined.

(** *** A worker completes its item *)

Definition thorough : HandoffArtifact := {|
  a_findings := "done"; a_evidence := []; a_edge_cases_considered := []; a_validation := None; a_open_questions := [];
  a_confidence := Some "high"; a_what_i_did_not_check := ["nothing"] |}.

Definition thorough_json : string := default "" (sample_to_json thorough).

Definition completed_swarm : SwarmState :=
  (handle_comm_complete_node sample_to_json sample_parse 3 "alice" "a1" thorough_json expanded_swarm).1.

Definition completed_plan : VersionedPlan := default plan_new (ss_plans completed_swarm !! "w").

Lemma has_plan_by_check (s : SwarmState) :
  bool_decide (is_Some (ss_plans s !! "w")) = true → ss_plans s !! "w" = Some (default plan_new (ss_plans s !! "w")).
Proof. rewrite bool_decide_eq_true. by intros [p ->]. Qed.

(** The coordinator completes an item of its deep plan without an artifact. *)
Example a_coordinator_completes_without_an_artifact :
  let done := map (set_status "completed") (v_items expanded_plan) in
  let s := with_coordinators <["w" := "alice"]> expanded_swarm in
  let s' := t_swarm (handle_comm_propose_plan (λ _, None) 0 1 "alice" done (tables s ∅)).1 in
  (λ p, (is_deep_plan p, forallb (λ i, is_completed_status (i_status i)) (v_items p))) <$> ss_plans s' !! "w"
  = Some (true, true).
Proof. vm_compute. reflexivity. Qed.

Lemma deep_work_is_completed_by_its_worker_witness :
  ∃ s1 s2, awaits "w" "a1" s1 ∧
    (completes sample_to_json sample_parse "w" "a1" s1 s2 ∨ rewrites sample_items_to_json "w" "a1" s1 s2).
Proof.
  destruct (deep_work_is_completed_by_its_worker sample_to_json sample_parse connected (λ _, 0%N) sample_items_to_json
    sample_items_from_json "w" "a1" expanded_swarm completed_swarm expanded_plan completed_plan) as (s1 & s2 & _ & H1 & _ & H2 & _).
  - apply rtc_once, any_work. left. apply (step_complete_node _ _ _ _ 3 "alice" "a1" thorough_json).
  - apply has_plan_by_check. vm_compute. reflexivity.
  - vm_compute. reflexivity.
  - destruct (find_item (v_items expanded_plan) "a1") as [i|] eqn:E; [|vm_compute in E; discriminate].
    exists i. split; [done|]. vm_compute in E. injection E as <-. reflexivity.
  - apply has_plan_by_check. vm_compute. reflexivity.
  - destruct (find_item (v_items completed_plan) "a1") as [i|] eqn:E; [|vm_compute in E; discriminate].
    exists i. split; [done|]. vm_compute in E. injection E as <-. reflexivity.
  - by exists s1, s2.
Defined.
