(* ===== verification/AssignTheorems.v ===== *)
(** * Theorems about assignment

    Which worker is picked, that no worker is picked twice while requests overlap, what an
    assignment changes and whom it reaches, and who may ask for it. *)

From S2P Require Import MutationState.
From S2P Require Import Prelude RustStr RustText DagTypes PlanTypes PlanCycle Plan PlanLemmas PlanTheorems Bridge SwarmCore SwarmProgress SwarmMembers SwarmMembersTheorems PlanStatus Effects GraphHandlers GraphTheorems PlanHandlers TaskRun Workers Assign Control Work Server.

(** ** Picking *)

(** No live claim on the worker, and nothing it has to do. *)
Definition unclaimed (now : N) (w : string) (claims : Claims) (t : string) : bool :=
  bool_decide (live_claims now claims !! auto_assign_claim_key w t = None).

Definition is_free (now : N) (w : string) (loads : gmap string nat) (claims : Claims) (m : SwarmMember) : bool :=
  bool_decide (load_of loads (m_session_id m) = 0) && unclaimed now w claims (m_session_id m).

Lemma live_claims_idem now claims : live_claims now (live_claims now claims) = live_claims now claims.
Proof. unfold live_claims. by rewrite map_filter_filter_l by naive_solver. Qed.

Lemma unclaimed_live now w claims t : unclaimed now w (live_claims now claims) t = unclaimed now w claims t.
Proof. unfold unclaimed. by rewrite live_claims_idem. Qed.

Lemma is_free_live now w loads claims m : is_free now w loads (live_claims now claims) m = is_free now w loads claims m.
Proof. unfold is_free. by rewrite unclaimed_live. Qed.

Lemma find_ext {A} (f g : A → bool) l : (∀ x, f x = g x) → find f l = find g l.
Proof. intros H. induction l as [|x l IH]; simpl; [done|]. by rewrite H, IH. Qed.

(** The first free candidate is picked and claimed. *)
Lemma claim_first_spec now w cands loads k claims :
  match claim_first now w cands loads k claims with
  | (Ok t, claims') =>
      ∃ m, find (is_free now w loads claims) cands = Some m ∧ t = m_session_id m
           ∧ claims' = <[auto_assign_claim_key w t := now]> (live_claims now claims)
  | (Err _, claims') =>
      find (is_free now w loads claims) cands = None ∧ (claims' = claims ∨ claims' = live_claims now claims)
  end.
Proof.
  revert k claims. induction cands as [|m cands IH]; intros k claims; simpl; [by auto|].
  unfold member_has_active_assignment. unfold is_free at 1 3. destruct (Nat.ltb_spec 0 (load_of loads (m_session_id m))).
  - rewrite bool_decide_eq_false_2 by lia. simpl. apply IH.
  - rewrite bool_decide_eq_true_2 by lia. simpl. unfold try_claim_auto_assign_target, unclaimed.
    destruct (live_claims now claims !! auto_assign_claim_key w (m_session_id m)) eqn:E; simpl; [|eauto].
    specialize (IH (S k) (live_claims now claims)). destruct (claim_first _ _ _ _ _ _) as [[t|e] claims'].
    + destruct IH as (m' & Hm & Ht & Hc). exists m'. rewrite live_claims_idem in Hc. split_and!; [|done..].
      by rewrite <-(find_ext _ _ _ (is_free_live now w loads claims)).
    + destruct IH as [Hm Hc]. rewrite live_claims_idem in Hc. split; [|by destruct Hc; auto].
      by rewrite <-(find_ext _ _ _ (is_free_live now w loads claims)).
Qed.

Lemma elem_of_candidates members a w m :
  m ∈ filter_swarm_agent_candidates members a w ↔ is_candidate a w m = true ∧ m ∈ (map_to_list members).*2.
Proof. unfold filter_swarm_agent_candidates. by rewrite elem_of_filterb, (comm and). Qed.

#[export] Instance keys_le_refl {A} (keys : A → list Z) name : Reflexive (keys_le keys name).
Proof. intros a. destruct (total (keys_le keys name) a a); done. Qed.

Lemma elem_of_rank keys cands m : m ∈ rank_candidates keys cands ↔ m ∈ cands.
Proof. unfold rank_candidates. by rewrite merge_sort_Permutation. Qed.

(** The best free one of the candidates. *)
Lemma pick_best now w keys cands loads claims t claims' :
  select_and_claim_auto_target now w (rank_candidates keys cands) loads claims = (Ok t, claims') →
  ∃ m, m ∈ cands ∧ t = m_session_id m ∧ is_free now w loads claims m = true
       ∧ (∀ m', m' ∈ cands → is_free now w loads claims m' = true → keys_le keys m_session_id m m')
       ∧ claims' = <[auto_assign_claim_key w t := now]> (live_claims now claims).
Proof.
  unfold select_and_claim_auto_target. intros H.
  pose proof (claim_first_spec now w (rank_candidates keys cands) loads 0 claims) as Hs. rewrite H in Hs.
  destruct Hs as (m & Hm & -> & ->). exists m. pose proof (find_some _ _ Hm) as [Hin Hf].
  apply list_elem_of_In in Hin. rewrite elem_of_rank in Hin. split_and!; [done..| |done].
  intros m' Hm' Hf'. eapply (find_sorted (keys_le keys m_session_id)); [apply _| |exact Hm| |exact Hf'].
  - apply StronglySorted_merge_sort; apply _.
  - by apply elem_of_rank.
Qed.

(** *** No worker is picked twice *)

(** A request for a worker, with what the tables are when it looks. *)
Record PickRequest := {
  pr_now : N;
  pr_session : string;
  pr_task : option string;
  pr_tables : SwarmState;
}.

Definition pick (w : string) (q : PickRequest) (claims : Claims) : result string string * Claims :=
  let d := desk (pr_tables q) claims in
  let '(r, d) := match pr_task q with
                 | None => resolve_assignment_target_session (pr_now q) (pr_session q) w None d
                 | Some x => resolve_assignment_target_for_task (pr_now q) (pr_session q) w x None d
                 end in
  (r, d_claims d).

(** What the requests get, one after the other. *)
Fixpoint picks (w : string) (qs : list PickRequest) (claims : Claims) : list string :=
  match qs with
  | [] => []
  | q :: qs =>
      match pick w q claims with
      | (Ok t, claims) => t :: picks w qs claims
      | (Err _, claims) => picks w qs claims
      end
  end.

(** What a pick does to the claims. *)
Definition claim_effect (now : N) (w : string) (claims : Claims) (r : result string string) (claims' : Claims) : Prop :=
  match r with
  | Ok t => unclaimed now w claims t = true ∧ claims' = <[auto_assign_claim_key w t := now]> (live_claims now claims)
  | Err _ => claims' = claims ∨ claims' = live_claims now claims
  end.

Lemma try_claim_effect now w t claims :
  let '(b, claims') := try_claim_auto_assign_target now w t claims in
  claim_effect now w claims (if b then Ok t else Err "") claims'.
Proof.
  unfold try_claim_auto_assign_target, claim_effect, unclaimed.
  destruct (live_claims now claims !! auto_assign_claim_key w t) eqn:E; [by right|by rewrite E].
Qed.

Lemma select_effect now w cands loads claims :
  let '(r, claims') := select_and_claim_auto_target now w cands loads claims in claim_effect now w claims r claims'.
Proof.
  unfold select_and_claim_auto_target. pose proof (claim_first_spec now w cands loads 0 claims) as H.
  destruct (claim_first _ _ _ _ _ _) as [[t|e] claims']; simpl; [|by destruct H].
  destruct H as (m & Hm & -> & ->). apply find_some in Hm as [_ Hm]. unfold is_free in Hm.
  by apply andb_true_iff in Hm as [_ Hm].
Qed.

(** Effects after a failed claim are effects. *)
Lemma claim_effect_live now w claims claims1 r claims2 :
  claims1 = claims ∨ claims1 = live_claims now claims → claim_effect now w claims1 r claims2 → claim_effect now w claims r claims2.
Proof.
  intros [->| ->]; [done|]. unfold claim_effect. rewrite live_claims_idem. destruct r as [t|e]; [|naive_solver].
  by rewrite unclaimed_live.
Qed.

Lemma pick_effect w q claims :
  let '(r, claims') := pick w q claims in claim_effect (pr_now q) w claims r claims'.
Proof.
  unfold pick. destruct (pr_task q) as [x|].
  - unfold resolve_assignment_target_for_task.
    assert (let '(o, d) := planner_target (pr_now q) (pr_session q) w x (desk (pr_tables q) claims) in
            claim_effect (pr_now q) w claims (match o with Some t => Ok t | None => Err "" end) (d_claims d)) as Hp.
    { unfold planner_target. destruct (_ ≫= _) as [owner|]; [|by left]. case_bool_decide; [by left|].
      destruct (existsb _ _); [|by left]. simpl. pose proof (try_claim_effect (pr_now q) w owner claims) as H1.
      by destruct (try_claim_auto_assign_target _ _ _ _) as [[] claims']. }
    destruct (planner_target _ _ _ _ _) as [[t|] d1]; [exact Hp|]. simpl in Hp.
    destruct (ss_plans (d_swarm d1) !! w) as [p|]; [|exact Hp].
    destruct (assignment_affinities_for_task p x) as [af|e]; [|exact Hp].
    match goal with |- context [select_and_claim_auto_target ?n w ?c ?l ?cl] => pose proof (select_effect n w c l cl) as H1;
      destruct (select_and_claim_auto_target n w c l cl) as [r claims'] end.
    simpl. eapply claim_effect_live; [exact Hp|exact H1].
  - unfold resolve_assignment_target_session.
    match goal with |- context [select_and_claim_auto_target ?n w ?c ?l ?cl] => pose proof (select_effect n w c l cl) as H1;
      destruct (select_and_claim_auto_target n w c l cl) as [r claims'] end.
    exact H1.
Qed.

(** Claimed at [t0] or later. *)
Definition claimed_since (t0 : N) (w : string) (claims : Claims) (t : string) : Prop :=
  ∃ c, claims !! auto_assign_claim_key w t = Some c ∧ (t0 ≤ c)%N.

Lemma claimed_live t0 now w claims t :
  (now < t0 + AUTO_ASSIGN_CLAIM_TTL)%N → claimed_since t0 w claims t → claimed_since t0 w (live_claims now claims) t.
Proof.
  intros Hn (c & Hc & Ht). exists c. split; [|done]. apply map_lookup_filter_Some. split; [done|]. simpl.
  unfold AUTO_ASSIGN_CLAIM_TTL in *. lia.
Qed.

Lemma claimed_not_free t0 now w claims t :
  (now < t0 + AUTO_ASSIGN_CLAIM_TTL)%N → claimed_since t0 w claims t → unclaimed now w claims t = false.
Proof.
  intros Hn Hc. apply (claimed_live _ _ _ _ _ Hn) in Hc as (c & Hc & _). unfold unclaimed. by rewrite Hc.
Qed.

Lemma picks_unclaimed t0 w qs claims :
  Forall (λ q, t0 ≤ pr_now q < t0 + AUTO_ASSIGN_CLAIM_TTL)%N qs →
  NoDup (picks w qs claims) ∧ ∀ t, claimed_since t0 w claims t → t ∉ picks w qs claims.
Proof.
  revert claims. induction qs as [|q qs IH]; intros claims Hq; [by split; [constructor|set_solver]|].
  apply Forall_cons in Hq as [[Hq1 Hq2] Hqs]. simpl. pose proof (pick_effect w q claims) as He.
  destruct (pick w q claims) as [[t|e] claims']; simpl in He.
  - destruct He as [Hfree ->]. destruct (IH (<[auto_assign_claim_key w t := pr_now q]> (live_claims (pr_now q) claims)) Hqs) as [Hnd Hno].
    split.
    + constructor; [|done]. apply Hno. exists (pr_now q). by rewrite lookup_insert_eq.
    + intros t' Ht' [->|Hin]%elem_of_cons.
      * by rewrite (claimed_not_free _ _ _ _ _ Hq2 Ht') in Hfree.
      * revert Hin. apply Hno. apply (claimed_live _ _ _ _ _ Hq2) in Ht' as (c & Hc & Hle).
        destruct (decide (auto_assign_claim_key w t' = auto_assign_claim_key w t)) as [Heq|Hne].
        -- exists (pr_now q). by rewrite Heq, lookup_insert_eq.
        -- exists c. by rewrite lookup_insert_ne.
  - destruct (IH claims' Hqs) as [Hnd Hno]. split; [done|]. intros t' Ht'. apply Hno.
    destruct He as [->| ->]; [done|]. by eapply claimed_live.
Qed.

(** C21 (safety). No worker is picked twice.  However many requests look for a worker of a swarm
    within 15 seconds of the first, whoever sends them, for whichever tasks, and whatever
    the tables look like to each of them: as long as no claim is given back, the workers they
    get are all different, and none of them was claimed at the time the first request came or
    later. *)
Theorem no_worker_is_picked_twice t0 w qs claims :
  Forall (λ q, t0 ≤ pr_now q < t0 + AUTO_ASSIGN_CLAIM_TTL)%N qs →
  NoDup (picks w qs claims) ∧ ∀ t, claimed_since t0 w claims t → t ∉ picks w qs claims.
Proof. apply picks_unclaimed. Qed.

(** Which worker a request gets.  It is a member of the swarm other than the
    requester, an agent that is ready or completed, headless or spawned by the requester, with
    no unfinished item of the plan assigned to it and no live claim on it.  Among all such
    workers one that is ready goes before one that is completed, and then the least id. *)
Theorem the_pick_is_the_best_free_worker now a w s claims t d' :
  let loads := match ss_plans s !! w with Some p => assignment_loads p | None => ∅ end in
  let eligible m := m ∈ (map_to_list (ss_members s)).*2 ∧ is_candidate a w m = true
                    ∧ load_of loads (m_session_id m) = 0 ∧ unclaimed now w claims (m_session_id m) = true in
  resolve_assignment_target_session now a w None (desk s claims) = (Ok t, d') →
  ∃ m, eligible m ∧ t = m_session_id m
       ∧ ∀ m', eligible m' → (ready_rank m < ready_rank m')%Z ∨ ready_rank m = ready_rank m' ∧ String.le t (m_session_id m').
Proof.
  intros loads eligible. unfold resolve_assignment_target_session. simpl. fold loads.
  destruct (select_and_claim_auto_target _ _ _ _ _) as [r claims'] eqn:E. intros [= -> <-].
  apply pick_best in E as (m & Hm & -> & Hf & Hbest & _). rewrite elem_of_candidates in Hm.
  assert (∀ m, is_free now w loads claims m = true ↔
    load_of loads (m_session_id m) = 0 ∧ unclaimed now w claims (m_session_id m) = true) as Hfree.
  { intros m'. unfold is_free. rewrite andb_true_iff, bool_decide_eq_true. tauto. }
  apply Hfree in Hf as [Hl Hu]. destruct Hm as [Hm1 Hm2]. exists m. split; [by split_and!|]. split; [done|].
  intros m' (Hin & Hc & Hl' & Hu'). specialize (Hbest m'). rewrite elem_of_candidates in Hbest.
  specialize (Hbest (conj Hc Hin) (proj2 (Hfree m') (conj Hl' Hu'))). revert Hbest.
  unfold keys_le, load_keys. simpl. rewrite Hl, Hl'. simpl.
  destruct (Z.compare_spec (ready_rank m) (ready_rank m')); [by right|by left|done].
Qed.

(** ** What an assignment does *)

Definition the_plan (w : string) (s : SwarmState) : VersionedPlan := default plan_new (ss_plans s !! w).

Lemma resolve_target_Ok now a w target d t d' :
  resolve_assignment_target_session now a w target d = (Ok t, d') →
  match target with Some x => x = t ∧ t ≠ a ∧ is_member_of (ss_members (d_swarm d)) w t = true | None => True end.
Proof.
  unfold resolve_assignment_target_session. destruct target as [x|]; [|done]. unfold explicit_target, is_member_of.
  case_bool_decide; [done|]. destruct (ss_members (d_swarm d) !! x) as [m|] eqn:E; [|done].
  case_bool_decide as Hm; [|done]. intros [= -> _]. rewrite E. split_and!; [done..|]. by rewrite bool_decide_eq_true_2.
Qed.

Lemma find_item_update_first x f l i :
  (∀ i, i_id (f i) = i_id i) → find_item l x = Some i →
  find_item (update_first (λ i, bool_decide (i_id i = x)) f l) x = Some (f i).
Proof.
  intros Hf. unfold find_item. induction l as [|j l IH]; simpl; [done|]. case_bool_decide as Hj; simpl.
  - intros [= ->]. by rewrite Hf, bool_decide_eq_true_2.
  - intros H. rewrite bool_decide_eq_false_2 by done. by apply IH.
Qed.

Lemma find_item_update_first_ne x y f l :
  (∀ i, i_id (f i) = i_id i) → y ≠ x → find_item (update_first (λ i, bool_decide (i_id i = x)) f l) y = find_item l y.
Proof.
  intros Hf Hne. unfold find_item. induction l as [|j l IH]; simpl; [done|]. case_bool_decide as Hj; simpl.
  - rewrite Hf. rewrite bool_decide_eq_false_2 by congruence. done.
  - case_bool_decide; [done|exact IH].
Qed.

Section assignment.
Context (from_json : string → option HandoffArtifact).
Context (stale : N).
Context (se : Sessions).

Abbreviation assign_task := (assign_task from_json stale se).

(** The task that an assignment takes. *)
Definition takes (now : N) (mode : AssignDedupMode) (task : option string) (p : VersionedPlan) (i : PlanItem) : Prop :=
  match task with
  | Some x =>
      x = i_id i ∧ explicit_task_blocked_reason p x = None
      ∧ (mode = ReplayFinal →
         active_assignment_conflict (i_status i) (i_assigned_to i) (v_task_progress p !! x) now stale = None)
  | None => next_unassigned_runnable_item_id p = Some (i_id i)
  end.

Lemma assign_in_plan_cases now mode task message a t p :
  match assign_in_plan from_json now stale mode task message a t p with
  | (p', Err _) => p' = p
  | (p', Ok (x, content)) =>
      ∃ i, find_item (v_items p) x = Some i ∧ takes now mode task p i ∧ content = assignment_content from_json p i
           ∧ p' = record_assignment now a t (combine_assignment_text content message) x p
  end.
Proof.
  unfold assign_in_plan. destruct (assignment_blocked_reason _ _ _ _ _) eqn:Hb; [done|].
  destruct (match task with Some id => Some id | None => _ end ≫= find_item (v_items p)) as [i|] eqn:Hi; [|by destruct task].
  exists i. destruct task as [x|]; simpl in Hi.
  - pose proof (find_item_Some _ _ _ Hi) as [_ Hx]. subst x. split_and!; [done| |done..].
    unfold assignment_blocked_reason in Hb. rewrite Hi in Hb. unfold takes. split; [done|].
    case_bool_decide as Hm; [|by destruct (explicit_task_blocked_reason p (i_id i))].
    simpl in Hb. destruct (active_assignment_conflict _ _ _ _ _); [done|]. by split.
  - destruct (next_unassigned_runnable_item_id p) as [x|] eqn:Hn; [|done]. simpl in Hi.
    pose proof (find_item_Some _ _ _ Hi) as [_ Hx]. subst x. by split_and!.
Qed.

(** The tables after an assignment. *)
Lemma assign_task_plans now mode a w target task message d :
  let p := the_plan w (d_swarm d) in
  match assign_task now mode a w target task message d with
  | (d', effects, AssignTask x t) =>
      ∃ i, find_item (v_items p) x = Some i ∧ takes now mode task p i
        ∧ match target with Some y => y = t ∧ t ≠ a ∧ is_member_of (ss_members (d_swarm d)) w t = true | None => True end
        ∧ let text := combine_assignment_text (assignment_content from_json p i) message in
          ss_plans (d_swarm d') = <[w := record_assignment now a t text x p]> (ss_plans (d_swarm d))
        ∧ effects = announce_assignment se a w t x (assignment_content from_json p i) message
                      (record_assignment now a t text x p) (d_swarm d')
        ∧ ss_members (d_swarm d') = ss_members (update_member_status now t "queued" (Some (truncate_detail text 120)) true
                                       (set_member_task_label t text (d_swarm d)))
  | (d', effects, Error _ None) => effects = [] ∧ the_plan w (d_swarm d') = p
        ∧ (∀ v, v ≠ w → ss_plans (d_swarm d') !! v = ss_plans (d_swarm d) !! v)
        ∧ ss_members (d_swarm d') = ss_members (d_swarm d)
  | _ => False
  end.
Proof.
  intros p. unfold Control.assign_task. pose proof (resolve_target_desk now a w target d) as Hd.
  pose proof (resolve_target_Ok now a w target d) as Ht.
  destruct (resolve_assignment_target_session now a w target d) as [[t|e] d1]; simpl in Hd; [|by rewrite Hd].
  specialize (Ht _ _ eq_refl). rewrite Hd. fold (the_plan w (d_swarm d)). fold p.
  pose proof (assign_in_plan_cases now mode task message a t p) as Hp.
  destruct (assign_in_plan _ _ _ _ _ _ _ _ _) as [p' [[x content]|e]].
  - destruct Hp as (i & Hi & Htk & -> & ->). set (text := combine_assignment_text _ message).
    match goal with |- context [on_swarm _ (on_swarm (set_member_task_label _ _) ?d)] => set (d2 := d) end.
    assert (d_swarm d2 = with_plans <[w := record_assignment now a t text x p]> (d_swarm d)) as Hd2.
    { subst d2. by destruct target; simpl; rewrite Hd. }
    exists i. split; [done|]. split; [done|]. split; [done|]. fold text. simpl. rewrite Hd2. split_and!.
    + unfold update_member_status, update_member_status_with_report, update_member_status_with_report_tldr,
        set_member_task_label. destruct (derive_swarm_task_label text); by repeat case_match.
    + done.
    + unfold update_member_status, update_member_status_with_report, update_member_status_with_report_tldr,
        set_member_task_label. destruct (derive_swarm_task_label text); simpl; by repeat case_match.
  - subst p'. assert (∀ d2, d_swarm d2 = with_plans <[w := p]> (d_swarm d) →
      the_plan w (d_swarm d2) = p ∧ (∀ v, v ≠ w → ss_plans (d_swarm d2) !! v = ss_plans (d_swarm d) !! v)
      ∧ ss_members (d_swarm d2) = ss_members (d_swarm d)) as Hfin.
    { intros d2 ->. unfold the_plan. simpl. rewrite lookup_insert_eq. split_and!; [done| |done].
      intros v Hv. by rewrite lookup_insert_ne. }
    split; [done|]. apply Hfin. by destruct target; simpl; rewrite Hd.
Qed.
End assignment.

(** ** The theorems at work *)

Definition teammate (id : string) (owner : option string) (status role : string) : SwarmMember := {|
  m_session_id := id; m_swarm_id := Some "w"; m_status := status; m_detail := None; m_task_label := None;
  m_friendly_name := None; m_report_back_to := owner; m_latest_completion_report := None; m_role := role;
  m_joined_at := 0; m_last_status_change := 0; m_is_headless := bool_decide (is_Some owner); m_output_tail := None;
  m_elapsed_secs := None |}.

(** A coordinator with two workers and the plan that was expanded. *)
Definition team : SwarmState := {|
  ss_members := <["alice" := teammate "alice" None "running" "coordinator"]>
    (<["bob" := teammate "bob" (Some "alice") "ready" "agent"]> {["carol" := teammate "carol" (Some "alice") "completed" "agent"]});
  ss_swarms := {["w" := {["alice"; "bob"; "carol"]}]}; ss_coordinators := {["w" := "alice"]};
  ss_plans := ss_plans expanded_swarm; ss_history := []; ss_event_counter := 0; ss_outbox := [] |}.

Definition ask (now : N) (task : option string) : PickRequest :=
  {| pr_now := now; pr_session := "alice"; pr_task := task; pr_tables := team |}.

(** Three requests overlap, and there are two workers. *)
Lemma no_worker_is_picked_twice_witness :
  let got := picks "w" [ask 10 None; ask 500 (Some "a1"); ask 900 None] ∅ in got = ["bob"; "carol"] ∧ NoDup got.
Proof.
  split; [vm_compute; reflexivity|]. apply (no_worker_is_picked_twice 10 "w" _ ∅).
  repeat constructor; vm_compute; by intros.
Defined.

Lemma the_pick_is_the_best_free_worker_witness :
  ∃ m, is_candidate "alice" "w" m = true ∧ m_session_id m = "bob".
Proof.
  destruct (the_pick_is_the_best_free_worker 10 "alice" "w" team ∅ "bob"
    (resolve_assignment_target_session 10 "alice" "w" None (desk team ∅)).2) as (m & (_ & H & _) & Hm & _).
  - rewrite (surjective_pairing (resolve_assignment_target_session 10 "alice" "w" None (desk team ∅))) at 1.
    apply (f_equal (λ r, (r, _))). vm_compute. reflexivity.
  - by exists m.
Defined.
