(* ===== verification/ControlTheorems.v ===== *)
(** * Theorems about the control of tasks

    An assignment moves one task and is sent after it is recorded; only drivers of a plan
    dispatch; a takeover that nobody overtakes happens with the old worker told, or is put
    back; and what becomes of turns that end without an artifact. *)

From S2P Require Import MutationState.
From S2P Require Import Prelude RustStr RustText DagTypes PlanTypes PlanCycle Plan PlanLemmas PlanTheorems Bridge SwarmCore SwarmProgress SwarmMembers SwarmMembersTheorems PlanStatus Effects GraphHandlers GraphTheorems PlanHandlers PlanHandlersTheorems TaskRun Workers Assign Control Work Server AssignTheorems.

(** The work that is started. *)
Definition is_run (e : Effect) : bool := match e with RunTask _ _ _ _ => true | _ => false end.

Definition is_urgent (e : Effect) : bool := match e with InterruptUrgently _ _ => true | _ => false end.

(** No effect of a list is of a kind. *)
Lemma filter_none {A} (f : A → bool) l : Forall (λ x, f x = false) l → List.filter f l = [].
Proof. induction 1 as [|x l Hx _ IH]; simpl; [done|]. by rewrite Hx. Qed.

Lemma Forall_if_member (P : Effect → Prop) s sid e : P e → Forall P (if_member s sid e).
Proof. intros H. unfold if_member. destruct (is_member s sid); auto. Qed.

Lemma announce_effects (f : Effect → bool) se a w t x content message p s :
  (∀ to from name n m, f (Notify to from name n m) = false) → f (Persist w) = false → (∀ r, f (BroadcastPlan w r) = false) →
  (∀ sid name o e, f (RecordEvent sid name o e) = false) → (∀ m, f (Interrupt t m) = false) →
  List.filter f (announce_assignment se a w t x content message p s) =
    if negb (se_has_client se t) && has_agent se t then List.filter f [RunTask t w x (combine_assignment_text content message)] else [].
Proof.
  intros Hn Hp Hb Hr Hi. unfold announce_assignment. rewrite !List.filter_app.
  rewrite (filter_none f [_; _; _; _]) by (repeat constructor; auto).
  rewrite (filter_none f (if_member _ _ _)) by (apply Forall_if_member, Hn).
  rewrite (filter_none f (elements _ ≫= _)), app_nil_r; [by destruct (_ && _)|].
  apply Forall_forall. intros e (sid & He & _)%list_elem_of_bind. destruct (_ || _); [by apply elem_of_nil in He|].
  unfold if_member, tell in He. destruct (is_member s sid); [|by apply elem_of_nil in He].
  apply list_elem_of_singleton in He as ->. apply Hn.
Qed.

Section control.
Context (from_json : string → option HandoffArtifact).
Context (hash : string → N).
Context (stale : N).

Abbreviation assign_task := (assign_task from_json stale).
Abbreviation takes := (takes stale).
Abbreviation handle_comm_assign_task_with_mode := (handle_comm_assign_task_with_mode from_json hash stale).
Abbreviation handle_comm_assign_task := (handle_comm_assign_task from_json hash stale).
Abbreviation handle_comm_assign_next := (handle_comm_assign_next from_json hash stale).
Abbreviation handle_comm_task_control := (handle_comm_task_control from_json hash stale).

(** ** An assignment *)

(** C37 (functional). An assignment moves one task.  When it is accepted, the task is one whose
    dependencies do not block it: the one asked for, which must not be in flight unless the
    request is a deliberate retry or takeover, or else the best unassigned one.  Exactly this
    item changes, to queued and assigned to the worker; the progress of the others and the
    other plans stay; requester and worker are participants.  The change is persisted before
    anything is sent, the worker is interrupted with the task, and its agent is started, on
    this task only, when no client is connected to it.  When it is refused nothing is sent
    and every plan is as it was. *)
Theorem an_assignment_moves_one_task se now mode a w target task message d :
  let p := the_plan w (d_swarm d) in
  NoDup (map i_id (v_items p)) →
  match assign_task se now mode a w target task message d with
  | (d', effects, AssignTask x t) =>
      ∃ i text p', i ∈ v_items p ∧ i_id i = x ∧ takes now mode task p i ∧ the_plan w (d_swarm d') = p'
        ∧ v_items p' = map (λ j, if bool_decide (i_id j = x) then set_assigned_to (Some t) (set_status "queued" j) else j) (v_items p)
        ∧ (∀ y, y ≠ x → v_task_progress p' !! y = v_task_progress p !! y)
        ∧ v_participants p' = {[t]} ∪ ({[a]} ∪ v_participants p)
        ∧ (∀ v, v ≠ w → ss_plans (d_swarm d') !! v = ss_plans (d_swarm d) !! v)
        ∧ head effects = Some (Persist w)
        ∧ (∃ prompt, Interrupt t prompt ∈ effects)
        ∧ List.filter is_run effects = (if negb (se_has_client se t) && has_agent se t then [RunTask t w x text] else [])
  | (d', effects, response) =>
      (∃ e, response = Error e None) ∧ effects = [] ∧ the_plan w (d_swarm d') = p
      ∧ ∀ v, v ≠ w → ss_plans (d_swarm d') !! v = ss_plans (d_swarm d) !! v
  end.
Proof.
  intros p Hnd. pose proof (assign_task_plans from_json stale se now mode a w target task message d) as H. cbv zeta in H.
  fold p in H. destruct (assign_task se now mode a w target task message d) as [[d' effects] [|x t|e [|]|]]; try done.
  - destruct H as (i & Hi & Htk & _ & Hplans & Heff & _). set (text := combine_assignment_text _ message) in *.
    exists i, text, (record_assignment now a t text x p). apply find_item_Some in Hi as [Hin Hx].
    split; [done|]. split; [done|]. split; [done|]. split; [by unfold the_plan; rewrite Hplans, lookup_insert_eq|].
    split; [exact (update_first_map x _ _ Hnd)|].
    split; [intros y Hy; unfold record_assignment; simpl; by rewrite lookup_insert_ne|].
    split; [done|]. split; [intros v Hv; by rewrite Hplans, lookup_insert_ne|].
    rewrite Heff. split; [done|]. split; [|by rewrite announce_effects].
    eexists. unfold announce_assignment. simpl. do 3 right. left.
  - destruct H as (-> & Hw & Hv & _). split; [by exists e|]. by split_and!.
Qed.

(** ** Who may dispatch *)

(** The coordinator of the session's swarm, or in deep mode a participant of its plan. *)
Definition may_drive (a : string) (s : SwarmState) : Prop :=
  ∃ w, swarm_id_for a s = Some w ∧
    (ss_coordinators s !! w = Some a ∨
     ∃ p, ss_plans s !! w = Some p ∧ parse_mode (v_mode p) = Deep ∧ a ∈ v_participants p).

Lemma require_plan_driver_Ok a e s w :
  require_plan_driver_swarm a e s = Ok w → swarm_id_for a s = Some w ∧ may_drive a s.
Proof.
  unfold require_plan_driver_swarm, may_drive. destruct (swarm_id_for a s) as [v|]; [|done].
  case_bool_decide as Hc; [intros [= ->]; eauto|]. destruct (ss_plans s !! v) as [p|] eqn:Hp; [|done].
  case_bool_decide as Hm; [|done]. case_bool_decide as Hin; [|done]. intros [= ->]. split; [done|]. eauto 10.
Qed.

Lemma require_plan_driver_Err a e s : ¬ may_drive a s → ∃ e', require_plan_driver_swarm a e s = Err e'.
Proof.
  intros H. destruct (require_plan_driver_swarm a e s) as [w|e'] eqn:E; [|eauto].
  destruct H. by apply require_plan_driver_Ok in E as [_ E].
Qed.

(** Only drivers of a plan dispatch its tasks.  A session that is neither the
    coordinator of its swarm nor, in deep mode, a participant of the plan gets one error for
    whatever it asks to assign, to assign next or to control: the tables, the claims and the
    record of mutations stay as they are and nothing else is sent. *)
Theorem only_drivers_dispatch se created now ok id client a action target task x prefer needed message d sh :
  ¬ may_drive a (d_swarm d) →
  ∃ e1 e2 e3,
    handle_comm_assign_task se now ok id client a target task message d sh = (d, [err id e1], sh)
    ∧ handle_comm_assign_next se created now ok id client a target prefer needed message d sh = (d, [err id e2], sh)
    ∧ handle_comm_task_control se now ok id client a action x target message d sh = (d, [err id e3], sh).
Proof.
  intros H.
  assert (∀ se task, ∃ e1, handle_comm_assign_task se now ok id client a target task message d sh = (d, [err id e1], sh)) as H1.
  { intros se' task'. unfold Control.handle_comm_assign_task, Control.handle_comm_assign_task_with_mode.
    destruct (require_plan_driver_Err a "Only the coordinator can assign tasks." _ H) as [e ->]. eauto. }
  destruct (H1 se task) as [e1 He1]. exists e1.
  assert (∃ e2, handle_comm_assign_next se created now ok id client a target prefer needed message d sh = (d, [err id e2], sh)) as [e2 He2].
  { unfold Control.handle_comm_assign_next. destruct target as [t|]; [apply H1|].
    destruct (require_plan_driver_Err a "Only the coordinator can assign tasks." _ H) as [e ->]. eauto. }
  exists e2.
  assert (∃ e3, handle_comm_task_control se now ok id client a action x target message d sh = (d, [err id e3], sh)) as [e3 He3].
  { unfold Control.handle_comm_task_control. destruct (action_parse action); [|eauto].
    destruct (require_plan_driver_Err a "Only the coordinator can control assigned tasks." _ H) as [e ->]. eauto. }
  by exists e3.
Qed.

(** ** Takeovers *)

(** What an assignment with a record of mutations does: what it does alone, or nothing. *)
Lemma deduplicated_outcome {T} ok r (body : T → T * list Effect * PersistedSwarmMutationResponse) t sh :
  (deduplicated ok r body t sh).1 = (body t).1 ∨ (deduplicated ok r body t sh).1 = (t, []).
Proof.
  unfold deduplicated. destruct (begin_with_mode _ _ _ _) as [[] sh']; simpl; auto.
  destruct (body t) as [[t' effects] response]. by left.
Qed.

Lemma trimmed_Some x : trim x = x → is_empty x = false → trimmed (Some x) = Some x.
Proof. intros Ht He. unfold trimmed, some_text. simpl. by rewrite Ht, He. Qed.

Definition assignee (w x : string) (s : SwarmState) : option string := find_item (v_items (the_plan w s)) x ≫= i_assigned_to.

(** The desk at which the handler of an assignment leaves the task: it is the new worker's, or
    no plan was touched.  It tells nobody to stop. *)
Lemma assigning_hands_over se now ok id client a w x new message d sh :
  swarm_id_for a (d_swarm d) = Some w → trim new = new → is_empty new = false → trim x = x → is_empty x = false →
  let '(d', effects, _) := handle_comm_assign_task_with_mode se now ok id client a (Some new) (Some x) message AlwaysDispatch d sh in
  List.filter is_urgent effects = [] ∧
  (assignee w x (d_swarm d') = Some new ∨ ∀ v, the_plan v (d_swarm d') = the_plan v (d_swarm d)).
Proof.
  intros Hw Hn1 Hn2 Hx1 Hx2.
  unfold Control.handle_comm_assign_task_with_mode. destruct (require_plan_driver_swarm _ _ _) as [w'|e] eqn:Hr; [|auto].
  apply require_plan_driver_Ok in Hr as [Hw' _]. rewrite Hw in Hw'. injection Hw' as <-. rewrite !trimmed_Some by done.
  match goal with |- context [deduplicated ok ?r ?b d sh] =>
    pose proof (deduplicated_outcome ok r b d sh) as Hd; destruct (deduplicated ok r b d sh) as [[d' effects] sh'] end.
  simpl in Hd. destruct Hd as [Hd|[= -> ->]]; [|auto].
  pose proof (assign_task_plans from_json stale se now AlwaysDispatch a w (Some new) (Some x) message d) as Ha. cbv zeta in Ha.
  destruct (assign_task se now AlwaysDispatch a w (Some new) (Some x) message d) as [[d2 e2] [|y t|e [|]|]]; try done;
    injection Hd as -> ->.
  - destruct Ha as (i & Hi & [Hxy _] & (<- & _) & Hplans & -> & _). pose proof (find_item_Some _ _ _ Hi) as [_ Hy].
    rewrite Hy in Hxy. subst y. split; [rewrite announce_effects by done; by destruct (_ && _)|]. left.
    unfold assignee, the_plan. rewrite Hplans, lookup_insert_eq. simpl.
    by erewrite find_item_update_first by done.
  - destruct Ha as (-> & Hp & Hv & _). split; [done|]. right.
    intros v. destruct (decide (v = w)) as [->|Hvw]; [done|]. unfold the_plan. by rewrite Hv.
Qed.

(** Who is told to stop depends on the task as it is when the assignment is looked at again. *)
Lemma stand_down_urgent action a w x old new s :
  List.filter is_urgent (stand_down action a w x old new s) =
    if bool_decide (assignee w x s = Some new) then [InterruptUrgently old (stand_down_message action x new)] else [].
Proof.
  assert (takeover_landed w x new s = bool_decide (assignee w x s = Some new)) as Hl.
  { unfold takeover_landed, assignee, the_plan. destruct (ss_plans s !! w) as [p|]; simpl; [|done].
    by destruct (find_item (v_items p) x). }
  unfold stand_down. rewrite Hl. case_bool_decide; [|done]. simpl. f_equal. apply filter_none, Forall_if_member. done.
Qed.

(** C22 (safety). A takeover that stands is told, and one that does not happen is not.  A task
    is to be handed over to another worker, while the rest of the server does anything
    to the tables before the assignment is written ([before]) and after it, before the handler
    looks at the task again ([between]).  The request is refused and nothing happens; or the
    assignment makes the task the new worker's or touches no plan, and the old worker gets
    exactly one urgent message to stop, and nobody else one, exactly when the task is the new
    worker's as the handler looks again.  So when the task was the old worker's until the
    assignment and nobody assigns it again before the handler looks: either it is the new
    worker's and the old one is told, or it is the old worker's, no plan was touched, and
    nobody is told.  (The ids given have no surrounding blanks, and the requester is still in
    the swarm.  When the task is assigned once more in between, the old worker is told
    nothing: [an_overtaken_takeover_is_not_told].) *)
Theorem a_takeover_is_told_or_does_not_happen before between se now ok id client action a w x old new message snapshot d sh :
  swarm_id_for a (d_swarm (before d)) = Some w →
  trim new = new → is_empty new = false → trim x = x → is_empty x = false →
  let '(d', effects, _) :=
    hand_over_around from_json hash stale se before between now ok id client action a w x old (Some new) message snapshot d sh in
  let told := List.filter is_urgent effects in
  let message := InterruptUrgently old (stand_down_message action x new) in
  (d' = d ∧ told = [])
  ∨ ∃ d1, d' = between d1
      ∧ (assignee w x (d_swarm d1) = Some new ∨ ∀ v, the_plan v (d_swarm d1) = the_plan v (d_swarm (before d)))
      ∧ told = (if bool_decide (assignee w x (d_swarm d') = Some new) then [message] else [])
      ∧ (assignee w x (d_swarm (before d)) = Some old → assignee w x (d_swarm d') = assignee w x (d_swarm d1) →
         (assignee w x (d_swarm d') = Some new ∧ told = [message])
         ∨ (assignee w x (d_swarm d') = Some old ∧ told = []
            ∧ ∀ v, the_plan v (d_swarm d1) = the_plan v (d_swarm (before d)))).
Proof.
  intros Hw Hn1 Hn2 Hx1 Hx2. unfold hand_over_around.
  destruct (handover_target action x old (ts_status snapshot) (Some new)) as [t|[e retry]] eqn:Ht; [|by left].
  unfold handover_target in Ht. case_bool_decide as Hne; [done|]. case_bool_decide as Hrun; [done|].
  destruct (bool_decide (action = Replace) && _); [done|]. injection Ht as <-.
  set (forwarded := handoff_message _ _ _ _ _ _).
  pose proof (assigning_hands_over se now ok id client a w x new forwarded (before d) sh Hw Hn1 Hn2 Hx1 Hx2) as H.
  destruct (handle_comm_assign_task_with_mode _ _ _ _ _ _ _ _ forwarded _ _ _) as [[d1 effects] sh'].
  destruct H as [Hu H]. right. exists d1. rewrite List.filter_app, Hu, stand_down_urgent. simpl app.
  split_and!; [done..|]. intros Hold Hsame. rewrite Hsame.
  destruct H as [H1|Hp].
  - left. by rewrite H1, bool_decide_eq_true_2.
  - right. assert (assignee w x (d_swarm d1) = Some old) as -> by (unfold assignee; by rewrite Hp).
    by rewrite bool_decide_eq_false_2 by congruence.
Qed.
(** ** Turns without an artifact *)

(** A worker is given the task, begins it, reports now and then, and its turn ends: nobody
    completed or expanded the item meanwhile. *)
Record IdleTurn := {
  it_driver : string;
  it_worker : string;
  it_text : string;
  it_assigned_at : N;
  it_started_at : N;
  it_reports : list (N * option string * option string);
  it_ended_at : N;
}.

Definition report_of (x worker : string) (p : VersionedPlan) (r : N * option string * option string) : VersionedPlan :=
  (touch_task r.1.1 x (Some worker) r.1.2 r.2 p).2.

Definition idle_turn (x : string) (p : VersionedPlan) (t : IdleTurn) : VersionedPlan :=
  let p := record_assignment (it_assigned_at t) (it_driver t) (it_worker t) (it_text t) x p in
  let p := start_item (it_started_at t) x (it_worker t) (it_text t) p in
  let p := foldl (report_of x (it_worker t)) p (it_reports t) in
  end_item (it_ended_at t) x p.

(** An item of a deep plan that runs and has not been put back since it was assigned. *)
Definition runs_afresh (x : string) (p : VersionedPlan) : Prop :=
  eq_ignore_ascii_case (v_mode p) "deep" = true
  ∧ (∃ i, find_item (v_items p) x = Some i ∧ i_status i = "running")
  ∧ p_no_artifact_requeues (progress_entry p x) = None.

Lemma progress_of_revise x f t p : progress_entry (revise x f t p) x = t.
Proof. unfold progress_entry, revise. simpl. by rewrite lookup_insert_eq. Qed.

Lemma find_item_revise x f t p i :
  (∀ i, i_id (f i) = i_id i) → find_item (v_items p) x = Some i → find_item (v_items (revise x f t p)) x = Some (f i).
Proof. apply find_item_update_first. Qed.

Lemma foldl_preserves {A B} (P : A → Prop) (f : A → B → A) l a :
  (∀ a b, P a → P (f a b)) → P a → P (foldl f a l).
Proof. intros Hf. revert a. induction l; simpl; auto. Qed.

Lemma runs_afresh_report x worker p r : runs_afresh x p → runs_afresh x (report_of x worker p r).
Proof.
  intros (Hd & (i & Hi & Hs) & Hn). unfold report_of, touch_task. rewrite Hi, Hs. simpl.
  split; [done|]. split; [by exists i|]. unfold progress_entry at 1, set_progress. simpl. by rewrite lookup_insert_eq.
Qed.

Lemma runs_afresh_started now1 now2 driver worker text x p i :
  eq_ignore_ascii_case (v_mode p) "deep" = true → find_item (v_items p) x = Some i →
  runs_afresh x (start_item now2 x worker text (record_assignment now1 driver worker text x p)).
Proof.
  intros Hd Hi. unfold start_item, on_item.
  assert (find_item (v_items (record_assignment now1 driver worker text x p)) x =
    Some (set_assigned_to (Some worker) (set_status "queued" i))) as Hi2
    by (by apply (find_item_update_first x (λ i, set_assigned_to (Some worker) (set_status "queued" i)))).
  rewrite Hi2. split; [done|]. split.
  - eexists. by split; [by apply find_item_revise|].
  - rewrite progress_of_revise. unfold record_assignment, progress_entry. simpl. by rewrite lookup_insert_eq.
Qed.

Lemma idle_turn_requeues x p t i :
  eq_ignore_ascii_case (v_mode p) "deep" = true → find_item (v_items p) x = Some i →
  let p' := idle_turn x p t in
  eq_ignore_ascii_case (v_mode p') "deep" = true
  ∧ (∃ i', find_item (v_items p') x = Some i' ∧ i_status i' = "queued" ∧ i_assigned_to i' = None)
  ∧ p_no_artifact_requeues (progress_entry p' x) = Some 1%N.
Proof.
  intros Hd Hi. unfold idle_turn.
  pose proof (runs_afresh_started (it_assigned_at t) (it_started_at t) (it_driver t) (it_worker t) (it_text t) x p i Hd Hi) as H.
  apply (foldl_preserves _ (report_of x (it_worker t)) (it_reports t)) in H; [|apply runs_afresh_report].
  set (q := foldl _ _ _) in *. destruct H as (Hq & (j & Hj & Hs) & Hn). unfold end_item, on_item. rewrite Hj.
  pose proof (find_item_Some _ _ _ Hj) as [_ Hx].
  assert (default 0%N (v_task_progress q !! i_id j ≫= p_no_artifact_requeues) = 0%N) as Hz.
  { rewrite Hx. revert Hn. unfold progress_entry. destruct (v_task_progress q !! x); simpl; [by intros ->|done]. }
  unfold disposition_of. rewrite Hq, Hs, Hz. simpl. split; [done|]. split.
  - eexists. by split; [by apply find_item_update_first|].
  - by rewrite progress_of_revise, Hn.
Qed.

(** In a deep plan a task whose workers never hand in an artifact is put back in the
    queue for ever.  However many workers are given it, one after the other, run it, report on
    it and end their turn without completing it, the task is queued and unassigned again, and
    the count of such turns stands at one: a new assignment starts the count anew, so that the
    task never fails. *)
Theorem artifactless_turns_are_requeued_forever x p i ts :
  eq_ignore_ascii_case (v_mode p) "deep" = true → find_item (v_items p) x = Some i → ts ≠ [] →
  let p' := foldl (idle_turn x) p ts in
  (∃ i', find_item (v_items p') x = Some i' ∧ i_status i' = "queued" ∧ i_assigned_to i' = None)
  ∧ p_no_artifact_requeues (progress_entry p' x) = Some 1%N.
Proof.
  intros Hd Hi. revert p i Hd Hi. induction ts as [|t ts IH]; intros p i Hd Hi Hts; [done|]. simpl.
  destruct (idle_turn_requeues x p t i Hd Hi) as (Hd' & (i' & Hi' & Hq) & Hc).
  destruct ts as [|t' ts]; [split; [by exists i'|done]|]. by apply (IH _ i').
Qed.
End control.

(** ** The theorems at work *)

Definition no_sessions : Sessions := {|
  se_has_client := λ _, false; se_agent_idle := λ _, Some true; se_tool_calls := λ _, []; se_is_closed := λ _, false;
  se_unreachable := λ _, false |}.

Definition team_desk : Desk := {| d_swarm := team; d_claims := ∅ |}.

Definition to_bob : Desk * list Effect * PersistedSwarmMutationResponse :=
  assign_task sample_from_json 45000 no_sessions 7 ReplayFinal "alice" "w" (Some "bob") (Some "a1") None team_desk.

Lemma an_assignment_moves_one_task_witness :
  to_bob.2 = AssignTask "a1" "bob" ∧ head to_bob.1.2 = Some (Persist "w").
Proof.
  assert (to_bob.2 = AssignTask "a1" "bob") as Hr by (vm_compute; reflexivity). split; [done|].
  assert (NoDup (map i_id (v_items (the_plan "w" (d_swarm team_desk))))) as Hnd
    by (apply (bool_decide_unpack _); vm_compute; exact I).
  pose proof (an_assignment_moves_one_task sample_from_json 45000 no_sessions 7 ReplayFinal "alice" "w" (Some "bob") (Some "a1")
    None team_desk Hnd) as H. fold to_bob in H. destruct to_bob as [[d effects] r]. simpl in Hr. subst r.
  destruct H as (i & text & p & _ & _ & _ & _ & _ & _ & _ & _ & H & _). exact H.
Defined.

(** Bob is given the task and does not begin; it goes to Carol. *)
Definition bobs : Desk := to_bob.1.1.

Definition snapshot_of (x : string) (d : Desk) : TaskSnapshot :=
  default {| ts_content := ""; ts_status := ""; ts_assigned_to := None; ts_progress := None |}
    (task_snapshot_for sample_from_json "w" x (d_swarm d)).

Definition to_carol : Desk * list Effect * Shared :=
  hand_over sample_from_json (λ _, 0%N) 45000 no_sessions 9 true 4 0 Replace "alice" "w" "a1" "bob" (Some "carol") None
    (snapshot_of "a1" bobs) bobs no_mutation.

Lemma a_takeover_is_told_or_does_not_happen_witness :
  assignee "w" "a1" (d_swarm to_carol.1.1) = Some "carol"
  ∧ List.filter is_urgent to_carol.1.2 = [InterruptUrgently "bob" (stand_down_message Replace "a1" "carol")].
Proof.
  pose proof (a_takeover_is_told_or_does_not_happen sample_from_json (λ _, 0%N) 45000 (λ d, d) (λ d, d) no_sessions 9 true 4 0
    Replace "alice" "w" "a1" "bob" "carol" None (snapshot_of "a1" bobs) bobs no_mutation) as H.
  assert (assignee "w" "a1" (d_swarm to_carol.1.1) = Some "carol") as Hc by (vm_compute; reflexivity). split; [done|].
  assert (assignee "w" "a1" (d_swarm bobs) = Some "bob") as Hb by (vm_compute; reflexivity).
  unfold to_carol, hand_over in *.
  destruct (hand_over_around _ _ _ _ _ _ _ _ _ _ _ _ _ _ _ _ _ _ _ _) as [[d effects] sh]. cbn [fst snd] in *.
  destruct H as [[-> _]|(d1 & _ & _ & H & _)]; [vm_compute; reflexivity..|congruence|].
  rewrite Hc in H. exact H.
Defined.

(** Carol is given Bob's task, and it goes on to Dave before the handler looks again: Bob is
    told nothing. *)
Example an_overtaken_takeover_is_not_told :
  let overtake := on_swarm (with_plans (alter (λ p, set_items (map (λ i,
    if bool_decide (i_id i = "a1") then set_assigned_to (Some "dave") i else i) (v_items p)) p) "w")) in
  let '(d, effects, _) := hand_over_around sample_from_json (λ _, 0%N) 45000 no_sessions (λ d, d) overtake 9 true 4 0 Replace
    "alice" "w" "a1" "bob" (Some "carol") None (snapshot_of "a1" bobs) bobs no_mutation in
  assignee "w" "a1" (d_swarm bobs) = Some "bob" ∧ assignee "w" "a1" (d_swarm d) = Some "dave"
  ∧ existsb (λ e, match e with RunTask to _ _ _ => bool_decide (to = "carol") | _ => false end) effects = true
  ∧ List.filter is_urgent effects = [].
Proof. vm_compute. split_and!; reflexivity. Qed.

Definition idle_worker (id : string) (at_ms : N) : IdleTurn := {|
  it_driver := "alice"; it_worker := id; it_text := "do a1"; it_assigned_at := at_ms; it_started_at := at_ms + 10;
  it_reports := [((at_ms + 20)%N, Some "reading", None); ((at_ms + 30)%N, None, Some "half way")]; it_ended_at := at_ms + 40 |}.

Lemma artifactless_turns_are_requeued_forever_witness :
  p_no_artifact_requeues
    (progress_entry (foldl (idle_turn "a1") expanded_plan [idle_worker "bob" 100; idle_worker "carol" 200; idle_worker "bob" 300]) "a1")
  = Some 1%N.
Proof.
  assert (is_Some (find_item (v_items expanded_plan) "a1")) as [i Hi]
    by (apply (bool_decide_unpack _); vm_compute; exact I).
  apply (artifactless_turns_are_requeued_forever "a1" expanded_plan i); [vm_compute; reflexivity|exact Hi|done].
Defined.

(** Carol is neither the coordinator nor a participant. *)
Lemma carol_may_not_drive : ¬ may_drive "carol" (d_swarm team_desk).
Proof.
  intros (w & Hw & H). assert (swarm_id_for "carol" (d_swarm team_desk) = Some "w") as Hs by (vm_compute; reflexivity).
  rewrite Hs in Hw. injection Hw as <-. destruct H as [H|(p & Hp & _ & Hin)]; [vm_compute in H; discriminate|].
  assert (map_Forall (λ _ q, "carol" ∉ v_participants q) (ss_plans team)) as Hall
    by (apply (bool_decide_unpack _); vm_compute; exact I).
  exact (Hall "w" p Hp Hin).
Qed.

Lemma only_drivers_dispatch_witness :
  ∃ e, handle_comm_task_control sample_from_json (λ _, 0%N) 45000 no_sessions 9 true 4 0 "carol" "retry" "a1" None None team_desk
         no_mutation = (team_desk, [err 4 e], no_mutation).
Proof.
  destruct (only_drivers_dispatch sample_from_json (λ _, 0%N) 45000 no_sessions (Err "") 9 true 4 0 "carol" "retry" None None "a1"
    None None None team_desk no_mutation carol_may_not_drive) as (e1 & e2 & e3 & _ & _ & H). by exists e3.
Defined.
