(* ===== verification/WorkersTheorems.v ===== *)
(** * Theorems about workers

    Spawning keeps the limits of a swarm, except for the workers that assign_next spawns
    without asking; a new worker belongs to the session that spawned
    it, and only its owners stop a worker, after which nothing of it is left. *)

From S2P Require Import MutationState.
From S2P Require Import Prelude RustStr RustText DagTypes PlanTypes Plan PlanTheorems GraphTheorems SwarmCore SwarmCoreTheorems SwarmProgress SwarmMembers SwarmMembersTheorems Effects GraphHandlers PlanHandlers PlanHandlersTheorems Workers Assign Control Server AssignTheorems ControlTheorems.

(** ** Counting members *)

Definition count (f : SwarmMember → bool) (members : Members) : nat := length (List.filter f (map_to_list members).*2).

Definition takes_place (w : string) (m : SwarmMember) : bool :=
  bool_decide (m_swarm_id m = Some w) && member_consumes_swarm_capacity m.

Lemma live_member_count_is w members : live_member_count w members = count (takes_place w) members.
Proof. done. Qed.

Lemma live_spawned_count_is w members :
  live_spawned_agent_count w members = count (λ m, takes_place w m && is_spawned m) members.
Proof.
  unfold live_spawned_agent_count, live_members, count. fold (takes_place w). f_equal.
  induction (map_to_list members).*2 as [|m l IH]; simpl; [done|].
  destruct (takes_place w m) eqn:E; simpl; rewrite ?E; [|done]. destruct (is_spawned m); simpl; by rewrite IH.
Qed.

Definition one_if (b : bool) : nat := if b then 1 else 0.

Lemma length_filterb_perm {A} (f : A → bool) l k : l ≡ₚ k → length (List.filter f l) = length (List.filter f k).
Proof. induction 1; simpl; repeat case_match; simpl; congruence. Qed.

Lemma count_fresh f k m members : members !! k = None → count f (<[k := m]> members) = one_if (f m) + count f members.
Proof.
  intros H. unfold count. rewrite (length_filterb_perm f _ _ (fmap_Permutation snd _ _ (map_to_list_insert _ _ _ H))).
  simpl. by destruct (f m).
Qed.

Lemma count_insert f k m members : count f (<[k := m]> members) = one_if (f m) + count f (delete k members).
Proof. rewrite <-insert_delete_eq. by rewrite count_fresh by apply lookup_delete_eq. Qed.

Lemma members_split f k m members : members !! k = Some m → count f members = one_if (f m) + count f (delete k members).
Proof. intros H. rewrite <-(insert_id members k m) at 1 by done. apply count_insert. Qed.

Lemma count_delete f k members : count f (delete k members) ≤ count f members.
Proof.
  destruct (members !! k) as [m|] eqn:H; [|by rewrite delete_id].
  rewrite (members_split f k m members H). lia.
Qed.

Lemma alter_as (g : SwarmMember → SwarmMember) k (members : Members) :
  alter g k members = match members !! k with Some m => <[k := g m]> members | None => members end.
Proof.
  apply map_eq. intros c. destruct (decide (c = k)) as [->|Hne].
  - rewrite lookup_alter_eq. destruct (members !! k) as [m|] eqn:H; simpl; [by rewrite lookup_insert_eq|by rewrite H].
  - rewrite lookup_alter_ne by done. destruct (members !! k); [by rewrite lookup_insert_ne|done].
Qed.

Lemma count_alter f g k members : (∀ m, f (g m) = f m) → count f (alter g k members) = count f members.
Proof.
  intros Hg. rewrite alter_as. destruct (members !! k) as [m|] eqn:H; [|done].
  rewrite count_insert, Hg. symmetry. by apply members_split.
Qed.

(** ** What a spawn does *)

(** The new member, in the swarm it lands in. *)
Record is_worker_of (a : string) (n : NewSession) (w : option string) (m : SwarmMember) : Prop := {
  worker_id : m_session_id m = ns_session_id n;
  worker_swarm : m_swarm_id m = w;
  worker_owner : m_report_back_to m = Some a;
  worker_role : m_role m = "agent";
  worker_headless : m_is_headless m = negb (ns_visible n);
}.

(** The swarm a new session lands in: the one of its spawner when it has a window, else
    the one of its directory. *)
Definition lands_in (w : string) (n : NewSession) : option string := if ns_visible n then Some w else ns_swarm_of_dir n.

Lemma task_label_frame sid text s :
  ss_swarms (set_member_task_label sid text s) = ss_swarms s ∧ ss_plans (set_member_task_label sid text s) = ss_plans s
  ∧ ss_coordinators (set_member_task_label sid text s) = ss_coordinators s.
Proof. unfold set_member_task_label. by destruct (derive_swarm_task_label text). Qed.

Lemma task_label_worker a n w sid text s m members :
  is_worker_of a n w m → ss_members s = <[sid := m]> members →
  ∃ m', is_worker_of a n w m' ∧ ss_members (set_member_task_label sid text s) = <[sid := m']> members.
Proof.
  intros Hm Hs. unfold set_member_task_label. destruct (derive_swarm_task_label text) as [label|]; [|by exists m].
  exists (set_label (Some label) m). split; [by destruct Hm|]. simpl. rewrite alter_as, Hs, lookup_insert_eq.
  apply insert_insert_eq.
Qed.

(** The tables once the new member is registered, before it gets its label. *)
Definition registered (now : N) (a w : string) (n : NewSession) (has_startup : bool) (s : SwarmState) : SwarmState :=
  let add := with_plans (alter (add_spawned a (ns_session_id n)) w) in
  if ns_visible n then (register_visible_spawned_member now n w has_startup a (add s)).1
  else add (register_headless_member now n a s).1.

Lemma spawn_is now a w message label n s :
  ∃ effects, spawn_swarm_agent now a w message label (Ok n) s =
    (Ok (ns_session_id n),
     match or_keep label message with
     | Some text => set_member_task_label (ns_session_id n) text (registered now a w n (bool_decide (is_Some message)) s)
     | None => registered now a w n (bool_decide (is_Some message)) s
     end, effects).
Proof.
  unfold spawn_swarm_agent, registered, register_visible_spawned_member, register_headless_member.
  assert (bool_decide (is_Some (append_swarm_completion_report_instructions <$> message)) = bool_decide (is_Some message)) as ->
    by (by destruct message).
  destruct (ns_visible n), (bool_decide (is_Some message)), (ns_swarm_of_dir n); by eexists.
Qed.

Lemma registered_does now a w n b s :
  ∃ m, is_worker_of a n (lands_in w n) m ∧ ss_members (registered now a w n b s) = <[ns_session_id n := m]> (ss_members s)
    ∧ (∀ v, lands_in w n = Some v → ns_session_id n ∈ default ∅ (ss_swarms (registered now a w n b s) !! v))
    ∧ ss_plans (registered now a w n b s) = alter (add_spawned a (ns_session_id n)) w (ss_plans s)
    ∧ ss_coordinators (registered now a w n b s) = ss_coordinators s.
Proof.
  unfold registered, lands_in, register_visible_spawned_member, register_headless_member.
  destruct (ns_visible n) eqn:Hv; [destruct b|destruct (ns_swarm_of_dir n) as [u|] eqn:Hd]; eexists;
    (refine (conj _ (conj eq_refl (conj _ (conj eq_refl eq_refl)))); [split; by rewrite ?Hv|]); intros v; intros [= <-];
    simpl; rewrite lookup_insert_eq; simpl; set_solver.
Qed.

Lemma spawn_swarm_agent_does now a w message label created s :
  match created with
  | Err e => spawn_swarm_agent now a w message label created s = (Err e, s, [])
  | Ok n =>
      ∃ s' effects m, spawn_swarm_agent now a w message label created s = (Ok (ns_session_id n), s', effects)
        ∧ is_worker_of a n (lands_in w n) m ∧ ss_members s' = <[ns_session_id n := m]> (ss_members s)
        ∧ (∀ v, lands_in w n = Some v → ns_session_id n ∈ default ∅ (ss_swarms s' !! v))
        ∧ ss_plans s' = alter (add_spawned a (ns_session_id n)) w (ss_plans s)
        ∧ ss_coordinators s' = ss_coordinators s
  end.
Proof.
  destruct created as [n|e]; [|done]. destruct (spawn_is now a w message label n s) as [effects ->].
  destruct (registered_does now a w n (bool_decide (is_Some message)) s) as (m & Hm & Hmem & Hsw & Hpl & Hco).
  destruct (or_keep label message) as [text|]; [|by eexists _, effects, m].
  destruct (task_label_worker a n _ _ text _ m _ Hm Hmem) as (m' & Hm' & Hmem').
  destruct (task_label_frame (ns_session_id n) text (registered now a w n (bool_decide (is_Some message)) s)) as (E1 & E2 & E3).
  eexists _, effects, m'. split; [reflexivity|]. rewrite E1, E2, E3. by split_and!.
Qed.

(** ** Who may spawn, and how many workers there are *)

(** The session may spawn a worker in the swarm now. *)
Definition admitted (session_effort : gmap string string) (configured : nat) (a w : string) (members : Members) : Prop :=
  (is_root a members = true ∨
   ∃ effort, session_effort !! root_session_id a members = Some effort ∧ is_deep_swarm_effort effort = true)
  ∧ live_member_count w members < MAX_SWARM_MEMBERS
  ∧ ∀ limit, live_agent_limit configured = Some limit → live_spawned_agent_count w members < limit.

Lemma spawn_refusal_None efforts configured a w members :
  spawn_refusal efforts configured a w members = None → admitted efforts configured a w members.
Proof.
  unfold spawn_refusal, admitted, over_limit. intros H. set (root := root_session_id a members) in *.
  destruct (negb (is_root a members) && _) eqn:Hroot in H; [done|].
  destruct (Nat.leb_spec MAX_SWARM_MEMBERS (live_member_count w members)); [done|]. split_and!; [|done|].
  - destruct (is_root a members); [by left|]. destruct (efforts !! root) as [effort|]; [|done].
    right. exists effort. split; [done|]. by destruct (is_deep_swarm_effort effort).
  - intros limit Hl. rewrite Hl in H. simpl in H. by destruct (Nat.leb_spec limit (live_spawned_agent_count w members)).
Qed.

(** The worker is there, and belongs to the session that spawned it. *)
Definition has_worker (a w : string) (n : NewSession) (s s' : SwarmState) : Prop :=
  ∃ m, ss_members s' !! ns_session_id n = Some m ∧ is_worker_of a n (lands_in w n) m
    ∧ (∀ v, lands_in w n = Some v → ns_session_id n ∈ default ∅ (ss_swarms s' !! v))
    ∧ ss_plans s' = alter (add_spawned a (ns_session_id n)) w (ss_plans s).

Lemma claim_coordination_frame se a w s :
  let s' := (claim_coordination se a w s).1 in
  same_but_roles (ss_members s) (ss_members s') ∧ ss_swarms s' = ss_swarms s ∧ ss_plans s' = ss_plans s.
Proof.
  unfold claim_coordination. destruct (_ && _); simpl; split_and!; try done.
  - apply same_but_roles_alter, same_but_roles_refl.
  - apply same_but_roles_refl.
Qed.

Section spawning.
Context (hash : string → N).
Abbreviation handle_comm_spawn := (handle_comm_spawn hash).

(** The tables [s1] on the way differ in roles, and in who coordinates. *)
Lemma handle_comm_spawn_does efforts configured se now ok id client a q created s sh :
  let s' := (handle_comm_spawn efforts configured se now ok id client a q created s sh).1.1 in
  ∃ s1, same_but_roles (ss_members s) (ss_members s1) ∧ ss_swarms s1 = ss_swarms s ∧ ss_plans s1 = ss_plans s
    ∧ (s' = s1 ∨
       ∃ w n, created = Ok n ∧ swarm_id_for a s = Some w ∧ admitted efforts configured a w (ss_members s)
         ∧ has_worker a w n s s' ∧ ∃ m, ss_members s' = <[ns_session_id n := m]> (ss_members s1)).
Proof.
  unfold Workers.handle_comm_spawn, ensure_spawn_coordinator_swarm.
  destruct (swarm_id_for a s) as [w|] eqn:Hw; [|exists s; split_and!; auto using same_but_roles_refl].
  destruct (spawn_refusal _ _ _ _ _) eqn:Hr; [exists s; split_and!; auto using same_but_roles_refl|].
  apply spawn_refusal_None in Hr. destruct (claim_coordination_frame se a w s) as (H1 & H2 & H3).
  destruct (claim_coordination se a w s) as [s1 effects]. simpl in H1, H2, H3. exists s1. split_and!; [done..|].
  match goal with |- context [deduplicated ok ?r ?b s1 sh] =>
    pose proof (deduplicated_outcome ok r b s1 sh) as Hd; destruct (deduplicated ok r b s1 sh) as [[s' effects'] sh'] end.
  simpl in Hd |- *. destruct Hd as [Hd|[= -> _]]; [|by left]. unfold spawn_and_answer in Hd.
  pose proof (spawn_swarm_agent_does now a w (sp_initial_message q) (sp_label q) created s1) as Hs.
  destruct created as [n|e]; [|rewrite Hs in Hd; injection Hd as -> _; by left].
  destruct Hs as (s2 & effects2 & m & Heq & Hm & Hmem & Hsw & Hpl & _). rewrite Heq in Hd. injection Hd as -> _. right. exists w, n.
  split; [done|]. split; [done|]. split; [done|]. split; [|by exists m].
  exists m. rewrite Hmem, lookup_insert_eq, Hpl, H3. by split_and!.
Qed.

Lemma count_same_but_roles f a b : (∀ r m, f (set_role r m) = f m) → same_but_roles a b → count f b = count f a.
Proof.
  intros Hf Hab. unfold count. revert b Hab. induction a as [|k m a Hk IH] using map_ind; intros b Hab.
  - assert (b = ∅) as ->; [|done]. apply map_empty. intros c. destruct (Hab c) as [r ->]. by rewrite lookup_empty.
  - destruct (Hab k) as [r Hr]. rewrite lookup_insert_eq in Hr. simpl in Hr.
    fold (count f (<[k := m]> a)) (count f b). rewrite count_fresh by done. rewrite (members_split f k _ b Hr), Hf. f_equal.
    apply IH. intros c. destruct (decide (c = k)) as [->|Hne].
    + exists "". by rewrite lookup_delete_eq, Hk.
    + destruct (Hab c) as [r' Hc]. exists r'. rewrite lookup_delete_ne, Hc, lookup_insert_ne by done. done.
Qed.

(** A request to spawn whose worker, should one be made, lands in the swarm of its
    requester: it has a window, or its directory is one of that swarm. *)
Inductive spawn_step (configured : nat) : SwarmState → SwarmState → Prop :=
| a_spawn efforts se now ok id client a q created s sh :
    (∀ n w, created = Ok n → swarm_id_for a s = Some w → lands_in w n = Some w) →
    spawn_step configured s (handle_comm_spawn efforts configured se now ok id client a q created s sh).1.1.

Lemma spawn_step_counts configured f limit v s s' :
  (∀ r m, f (set_role r m) = f m) → (∀ m, f m = true → m_swarm_id m = Some v) →
  (∀ efforts a, admitted efforts configured a v (ss_members s) → count f (ss_members s) < limit) →
  spawn_step configured s s' → count f (ss_members s') ≤ Nat.max (count f (ss_members s)) limit.
Proof.
  intros Hf Hv Hl Hs. destruct Hs as [efforts se now ok id client a q created s sh Hin].
  destruct (handle_comm_spawn_does efforts configured se now ok id client a q created s sh)
    as (s1 & Hroles & _ & _ & [->|(w & n & Hn & Hw & Ha & (m & Hm & Hmw & _) & m' & Hmem)]).
  { rewrite (count_same_but_roles f _ _ Hf Hroles). lia. }
  assert (count f (ss_members s1) = count f (ss_members s)) as Hc by by apply count_same_but_roles.
  rewrite Hmem in Hm |- *. rewrite lookup_insert_eq in Hm. injection Hm as ->. rewrite count_insert.
  pose proof (count_delete f (ns_session_id n) (ss_members s1)) as Hdel. rewrite Hc in Hdel.
  destruct (f m) eqn:Hfm; simpl; [|lia]. apply Hv in Hfm. rewrite (worker_swarm _ _ _ _ Hmw), (Hin n w Hn Hw) in Hfm.
  injection Hfm as ->. specialize (Hl efforts a Ha). lia.
Qed.

(** *** Assigning the next task *)

(** At most one member is new or different. *)
Definition touches (k : string) (a b : Members) : Prop := ∀ c, c ≠ k → b !! c = a !! c.

#[export] Instance touches_preorder k : PreOrder (touches k).
Proof. split; [done|]. intros a b c H1 H2 x Hx. by rewrite H2, H1. Qed.

Lemma count_touches f k a b : touches k a b → count f b ≤ S (count f a).
Proof.
  intros H. assert (delete k b = delete k a) as E.
  { apply map_eq. intros c. destruct (decide (c = k)) as [->|Hne]; [by rewrite !lookup_delete_eq|].
    by rewrite !lookup_delete_ne, H. }
  pose proof (count_delete f k a) as Ha. destruct (b !! k) as [m|] eqn:Hb.
  - rewrite (members_split f k m b Hb), E. destruct (f m); simpl; lia.
  - rewrite <-(delete_id b k), E by done. lia.
Qed.

Lemma label_touches k text s : touches k (ss_members s) (ss_members (set_member_task_label k text s)).
Proof.
  unfold set_member_task_label. destruct (derive_swarm_task_label text); [|done]. intros c Hc. simpl. by rewrite lookup_alter_ne.
Qed.

Lemma status_touches now k status detail record s :
  touches k (ss_members s) (ss_members (update_member_status now k status detail record s)).
Proof.
  unfold update_member_status, update_member_status_with_report, update_member_status_with_report_tldr.
  intros c Hc. repeat case_match; simpl; by rewrite ?lookup_insert_ne.
Qed.

Section next.
Context (from_json : string → option HandoffArtifact).
Context (stale : N).

Lemma assign_touches se now ok id client a target task message mode d sh :
  let s' := d_swarm (handle_comm_assign_task_with_mode from_json hash stale se now ok id client a target task message mode d sh).1.1 in
  ∃ k, touches k (ss_members (d_swarm d)) (ss_members s') ∧ (∀ y, trimmed target = Some y → k = y).
Proof.
  cbv zeta. assert (∃ k, touches k (ss_members (d_swarm d)) (ss_members (d_swarm d)) ∧ (∀ y, trimmed target = Some y → k = y)) as Hsame.
  { destruct (trimmed target) as [y|]; [exists y|exists ""]; split; naive_solver. }
  unfold handle_comm_assign_task_with_mode. destruct (require_plan_driver_swarm _ _ _) as [w|e]; [|exact Hsame].
  match goal with |- context [deduplicated ok ?r ?b d sh] =>
    pose proof (deduplicated_outcome ok r b d sh) as Hd; destruct (deduplicated ok r b d sh) as [[d' effects] sh'] end.
  destruct Hd as [Hd|[= -> _]]; [|exact Hsame]. simpl in Hd |- *.
  pose proof (assign_task_plans from_json stale se now mode a w (trimmed target) (trimmed task) message d) as Ha. cbv zeta in Ha.
  destruct (assign_task _ _ _ _ _ _ _ _ _ _ _) as [[d2 e2] [|x t|e [|]|]]; try done; injection Hd as -> _.
  - destruct Ha as (i & _ & _ & Ht & _ & _ & ->). exists t. split.
    + etrans; [apply label_touches|apply status_touches].
    + intros y Hy. rewrite Hy in Ht. by destruct Ht as [-> _].
  - destruct Ha as (_ & _ & _ & ->). exact Hsame.
Qed.

Lemma next_runnable_members w s : ss_members (next_runnable_task_id_reclaiming_stranded w s).2 = ss_members s.
Proof. unfold next_runnable_task_id_reclaiming_stranded. repeat case_match; by simplify_eq/=. Qed.

(** A request to assign the next task changes one member or makes one, whatever the limits. *)
Lemma assign_next_touches se created now ok id client a target prefer needed message d sh :
  (∀ n, created = Ok n → trimmed (Some (ns_session_id n)) = Some (ns_session_id n)) →
  ∃ k, touches k (ss_members (d_swarm d)) (ss_members (d_swarm
    (handle_comm_assign_next from_json hash stale se created now ok id client a target prefer needed message d sh).1.1)).
Proof.
  intros Hid. unfold handle_comm_assign_next, handle_comm_assign_task.
  destruct target as [t|]; [edestruct assign_touches as (k & Hk & _); eauto|].
  destruct (require_plan_driver_swarm _ _ _) as [w|e]; [|by exists ""].
  pose proof (next_runnable_members w (d_swarm d)) as Hn.
  destruct (next_runnable_task_id_reclaiming_stranded _ _) as [[x|] s1]; simpl in Hn; [|exists ""; simpl; by rewrite Hn].
  pose proof (resolve_for_task_desk now a w x None (on_swarm (λ _, s1) d)) as Hr.
  destruct (resolve_assignment_target_for_task _ _ _ _ _ _) as [preferred d1]. simpl in Hr. rewrite <-Hn, <-Hr. clear s1 Hn Hr.
  destruct (_ && _).
  - set (d2 := match preferred with Ok _ => _ | Err _ => _ end).
    assert (d_swarm d2 = d_swarm d1) as H2 by (subst d2; by destruct preferred).
    pose proof (spawn_swarm_agent_does now a w None None created (d_swarm d2)) as Hs. rewrite H2 in *.
    destruct created as [n|e]; [|rewrite Hs; by exists ""].
    destruct Hs as (s' & effects & m & -> & _ & Hm & _).
    match goal with |- context [handle_comm_assign_task_with_mode _ _ _ ?a4 ?a5 ?a6 ?a7 ?a8 ?a9 ?a10 ?a11 ?a12 ?a13 ?a14 ?a15] =>
      pose proof (assign_touches a4 a5 a6 a7 a8 a9 a10 a11 a12 a13 a14 a15) as (k & Hk & Hy);
      destruct (handle_comm_assign_task_with_mode _ _ _ a4 a5 a6 a7 a8 a9 a10 a11 a12 a13 a14 a15) as [[d3 e3] sh3] end.
    simpl in Hk |- *. rewrite (Hy _ (Hid n eq_refl)) in Hk. exists (ns_session_id n). etrans; [|exact Hk].
    intros c Hc. by rewrite Hm, lookup_insert_ne.
  - destruct preferred as [t|e]; [|by exists ""].
    match goal with |- context [handle_comm_assign_task_with_mode _ _ _ ?a4 ?a5 ?a6 ?a7 ?a8 ?a9 ?a10 ?a11 ?a12 ?a13 ?a14 ?a15] =>
      pose proof (assign_touches a4 a5 a6 a7 a8 a9 a10 a11 a12 a13 a14 a15) as (k & Hk & _);
      destruct (handle_comm_assign_task_with_mode _ _ _ a4 a5 a6 a7 a8 a9 a10 a11 a12 a13 a14 a15) as [[d3 e3] sh3] end.
    by exists k.
Qed.

(** Requests to spawn and to assign the next task, one after the other; [k] of them are of the
    second kind, where the id of a session that is made has no blanks around it. *)
Inductive spawns (configured : nat) : nat → SwarmState → SwarmState → Prop :=
| spawns_none s : spawns configured 0 s s
| spawns_worker k s1 s2 s3 : spawn_step configured s1 s2 → spawns configured k s2 s3 → spawns configured k s1 s3
| spawns_next k se created now ok id client a target prefer needed message d sh s :
    (∀ n, created = Ok n → trimmed (Some (ns_session_id n)) = Some (ns_session_id n)) →
    spawns configured k
      (d_swarm (handle_comm_assign_next from_json hash stale se created now ok id client a target prefer needed message d sh).1.1) s →
    spawns configured (S k) (d_swarm d) s.

Lemma spawns_counts configured f limit v k s s' :
  (∀ r m, f (set_role r m) = f m) → (∀ m, f m = true → m_swarm_id m = Some v) →
  (∀ efforts a s, admitted efforts configured a v (ss_members s) → count f (ss_members s) < limit) →
  spawns configured k s s' → count f (ss_members s') ≤ Nat.max (count f (ss_members s)) limit + k.
Proof.
  intros Hf Hv Hl Hs. induction Hs as [s|k s1 s2 s3 H12 _ IH|k se created now ok id client a target prefer needed message d sh s Hid _ IH].
  - lia.
  - pose proof (spawn_step_counts configured f limit v s1 s2 Hf Hv (λ efforts a, Hl efforts a s1) H12). lia.
  - destruct (assign_next_touches se created now ok id client a target prefer needed message d sh Hid) as [x Hx].
    pose proof (count_touches f x _ _ Hx). lia.
Qed.

(** C23 (bounds). Requests to spawn keep the limits of a swarm.  However many requests to spawn
    workers and to assign the next task the sessions send, one after the other and whatever
    they ask: no swarm comes to have more live members than the hard maximum of 1000, nor more
    live spawned agents than the configured limit, unless it had more before, except for at
    most one for each request to assign the next task.  These spawn a worker, or call one back,
    without looking at the limits ([the_next_task_ignores_the_limit]); the requests to spawn
    do not, however many there are.  (A worker that is spawned by request must land in the
    swarm of the session that spawns it: it has a window, or its directory is one of that
    swarm.) *)
Theorem spawning_keeps_the_limits configured v k s s' :
  spawns configured k s s' →
  live_member_count v (ss_members s') ≤ Nat.max (live_member_count v (ss_members s)) MAX_SWARM_MEMBERS + k
  ∧ ∀ limit, live_agent_limit configured = Some limit →
      live_spawned_agent_count v (ss_members s') ≤ Nat.max (live_spawned_agent_count v (ss_members s)) limit + k.
Proof.
  intros Hr. split.
  - rewrite !live_member_count_is. apply (spawns_counts configured _ _ v k s); [done| |by intros ? ? ? (_ & H & _)|done].
    intros m H. unfold takes_place in H. apply andb_true_iff in H as [H _]. by apply bool_decide_eq_true in H.
  - intros limit Hl. rewrite !live_spawned_count_is. apply (spawns_counts configured _ _ v k s); [done| | |done].
    + intros m H. apply andb_true_iff in H as [H _]. unfold takes_place in H. apply andb_true_iff in H as [H _].
      by apply bool_decide_eq_true in H.
    + intros efforts a s0 (_ & _ & H). specialize (H limit Hl). by rewrite live_spawned_count_is in H.
Qed.
End next.

(** A worker belongs to the session that spawned it.  A request to spawn either
    leaves the sessions, their swarms and the plans as they are, except that roles may change
    hands; or the session was admitted: it is a root, or its root runs swarm-deep, and the
    swarm had room.  Then exactly one session is new: an agent that reports to the requester,
    registered in the swarm it lands in and, in a plan that is in use, a participant next to
    the requester. *)
Theorem a_worker_belongs_to_its_spawner efforts configured se now ok id client a q created s sh :
  let s' := (handle_comm_spawn efforts configured se now ok id client a q created s sh).1.1 in
  (same_but_roles (ss_members s) (ss_members s') ∧ ss_swarms s' = ss_swarms s ∧ ss_plans s' = ss_plans s)
  ∨ ∃ w n, created = Ok n ∧ swarm_id_for a s = Some w ∧ admitted efforts configured a w (ss_members s)
      ∧ has_worker a w n s s'
      ∧ ∀ c, c ≠ ns_session_id n → ∃ r, ss_members s' !! c = set_role r <$> ss_members s !! c.
Proof.
  intros s'. destruct (handle_comm_spawn_does efforts configured se now ok id client a q created s sh)
    as (s1 & Hroles & Hsw & Hpl & [Heq|(w & n & Hn & Hw & Ha & Hh & m & Hmem)]).
  - left. unfold s'. rewrite Heq. by split_and!.
  - right. exists w, n. split_and!; [done..|]. intros c Hc. destruct (Hroles c) as [r Hr]. exists r.
    unfold s'. by rewrite Hmem, lookup_insert_ne.
Qed.
End spawning.

(** ** Stopping a worker *)

(** Nothing is left of a session: no agent, no channel, no place in its swarm, no part in its
    plan, nothing assigned to it, nobody who reports to it. *)
Record is_gone (w x : string) (f : Floor) : Prop := {
  gone_agent : x ∉ f_agents f;
  gone_member : ss_members (f_swarm f) !! x = None;
  gone_swarm : x ∉ default ∅ (ss_swarms (f_swarm f) !! w);
  gone_coordinator : ss_coordinators (f_swarm f) !! w ≠ Some x;
  gone_owner : ∀ c m, ss_members (f_swarm f) !! c = Some m → m_swarm_id m = Some w → m_report_back_to m ≠ Some x;
  gone_plan : ∀ p, ss_plans (f_swarm f) !! w = Some p →
    x ∉ v_participants p ∧ ∀ i, i ∈ v_items p → held_by x i = false;
}.

Lemma resolve_stop_target_in_swarm w t members x :
  resolve_stop_target_session w t members = Ok x → ∃ m, members !! x = Some m ∧ m_swarm_id m = Some w.
Proof.
  unfold resolve_stop_target_session. destruct (is_empty (trim t)); [done|].
  destruct (is_member_of members w (trim t)) eqn:Hm.
  - intros [= <-]. unfold is_member_of in Hm. destruct (members !! trim t) as [m|]; [|done].
    exists m. by apply bool_decide_eq_true in Hm.
  - destruct (stop_matches w (trim t) members) as [|y [|]] eqn:Hs; [done| |done]. intros [= <-].
    assert (y ∈ stop_matches w (trim t) members) as Hy by (rewrite Hs; left). unfold stop_matches in Hy.
    rewrite merge_sort_Permutation in Hy. apply list_elem_of_fmap in Hy as ([k m] & -> & Hin). simpl.
    apply elem_of_filterb in Hin as [Hin Hf]. apply elem_of_map_to_list in Hin. apply andb_true_iff in Hf as [Hf _].
    exists m. by apply bool_decide_eq_true in Hf.
Qed.

Lemma stop_session_does now x f m w :
  ss_members (f_swarm f) !! x = Some m → m_swarm_id m = Some w →
  (∀ p, ss_plans (f_swarm f) !! w = Some p → NoDup (map i_id (v_items p))) →
  let f' := (stop_session now x f).1.1 in
  is_gone w x f' ∧ f_channels f' = remove_session (f_channels f) x
  ∧ ∀ c, c ≠ x → is_Some (ss_members (f_swarm f') !! c) ↔ is_Some (ss_members (f_swarm f) !! c).
Proof.
  intros Hm Hw Hnd. unfold stop_session. rewrite Hm, Hw. set (s := with_members (delete x) (f_swarm f)).
  set (s' := remove_session_from_swarm now x w s). cbv zeta. cbn [fst].
  assert (∀ c, is_Some (ss_members s' !! c) ↔ is_Some (delete x (ss_members (f_swarm f)) !! c)) as Hc.
  { intros c. unfold s'. destruct (lookup_after now x w s c) as [r ->]. by rewrite fmap_is_Some. }
  destruct (a_member_that_leaves_is_gone now x w s Hnd) as (H1 & H2 & H3 & H4). fold s' in H1, H2, H3, H4.
  clearbody s'. split_and!; [|done|].
  - split; simpl; [set_solver| |done..]. apply eq_None_not_Some. rewrite (Hc x), lookup_delete_eq. by intros [].
  - intros c Hne. simpl. by rewrite (Hc c), lookup_delete_ne.
Qed.

Section stopping.
Context (hash : string → N).

(** Only its owners stop a worker.  Without force, a request to stop a session has no
    effect on the tables, the channels and the agents, unless it comes from a session of the
    same swarm that is this session itself, one that it reports to, or one above it.  When it
    has an effect, nothing is left of the stopped session, and every other session is still
    there. *)
Theorem only_owners_stop_workers now ok id client a t f sh :
  (∀ w p, ss_plans (f_swarm f) !! w = Some p → NoDup (map i_id (v_items p))) →
  let '(f', effects, _) := handle_comm_stop hash now ok id client a t false f sh in
  (f' = f ∧ ∀ x, CloseAgent x ∉ effects) ∨
  ∃ w x m, swarm_id_for a (f_swarm f) = Some w ∧ ss_members (f_swarm f) !! x = Some m ∧ m_swarm_id m = Some w
    ∧ (m_report_back_to m = Some a ∨ rtc (spawned_by (ss_members (f_swarm f))) x a)
    ∧ is_gone w x f' ∧ f_channels f' = remove_session (f_channels f) x
    ∧ ∀ c, c ≠ x → is_Some (ss_members (f_swarm f') !! c) ↔ is_Some (ss_members (f_swarm f) !! c).
Proof.
  intros Hnd. assert (∀ id e x, CloseAgent x ∉ [err id e]) as Herr by (intros ? ? ? ?%list_elem_of_singleton; done).
  unfold handle_comm_stop. destruct (swarm_id_for a (f_swarm f)) as [w|] eqn:Hw; [|by left].
  destruct (resolve_stop_target_session w t (ss_members (f_swarm f))) as [x|e] eqn:Hx; [|by left].
  apply resolve_stop_target_in_swarm in Hx as (m & Hm & Hmw).
  destruct (stop_allowed a x false (ss_members (f_swarm f))) eqn:Ha; [|by left]. cbn [negb].
  match goal with |- context [deduplicated ok ?r ?b f sh] =>
    pose proof (deduplicated_outcome ok r b f sh) as Hd; destruct (deduplicated ok r b f sh) as [[f' effects] sh'] end.
  simpl in Hd. destruct Hd as [Hd|[= -> ->]].
  2: { left. split; [done|]. by intros y ?%list_elem_of_singleton. }
  right. exists w, x, m. destruct (stop_session_does now x f m w Hm Hmw (Hnd w)) as (H1 & H2 & H3). rewrite <-Hd in H1, H2, H3.
  split_and!; [done..| |done|done|done]. unfold stop_allowed, swarm_stop_allowed_by_owner in Ha. rewrite Hm in Ha. simpl in Ha.
  apply orb_true_iff in Ha as [Ha%bool_decide_eq_true|Ha]; [by left|right]. by apply ownership_is_transitive_spawning.
Qed.
End stopping.

(** ** The theorems at work *)

Definition window (id : string) : NewSession :=
  {| ns_session_id := id; ns_visible := true; ns_name := None; ns_swarm_of_dir := None |}.

Definition plain_spawn : SpawnRequest := {|
  sp_working_dir := None; sp_initial_message := None; sp_request_nonce := None; sp_spawn_mode := None; sp_model := None;
  sp_effort := None; sp_label := None |}.

(** The team has a worker that is ready and one that is completed: there is room for one more,
    but not for two. *)
Definition spawn_in_team (id : string) (s : SwarmState) : SwarmState :=
  (handle_comm_spawn (λ _, 0%N) ∅ 2 no_sessions 9 true 4 0 "alice" plain_spawn (Ok (window id)) s no_mutation).1.1.

Example one_more_and_no_more :
  bool_decide (is_Some (ss_members (spawn_in_team "dave" team) !! "dave")) = true
  ∧ bool_decide (is_Some (ss_members (spawn_in_team "erin" (spawn_in_team "dave" team)) !! "erin")) = false.
Proof. by vm_compute. Qed.

Lemma spawning_keeps_the_limits_witness :
  live_spawned_agent_count "w" (ss_members (spawn_in_team "erin" (spawn_in_team "dave" team))) ≤ 2.
Proof.
  destruct (spawning_keeps_the_limits (λ _, 0%N) sample_from_json 45000 2 "w" 0 team (spawn_in_team "erin" (spawn_in_team "dave" team)))
    as [_ H].
  - eapply spawns_worker; [|eapply spawns_worker; [|apply spawns_none]]; apply a_spawn; intros n w [= <-]; done.
  - assert (live_agent_limit 2 = Some 2) as Hl by (vm_compute; reflexivity). specialize (H 2 Hl).
    assert (live_spawned_agent_count "w" (ss_members team) = 1) as Ht by (vm_compute; reflexivity). rewrite Ht in H. exact H.
Defined.

(** There is no room for Erin, but the next task makes her. *)
Example the_next_task_ignores_the_limit :
  let d := (handle_comm_assign_next sample_from_json (λ _, 0%N) 45000 no_sessions (Ok (window "erin")) 45000 true 4 0 "alice" None
              (Some true) None None {| d_swarm := spawn_in_team "dave" team; d_claims := ∅ |} no_mutation).1.1 in
  live_spawned_agent_count "w" (ss_members (spawn_in_team "dave" team)) = 2
  ∧ live_spawned_agent_count "w" (ss_members (d_swarm d)) = 3.
Proof. split; vm_compute; reflexivity. Qed.

Definition team_floor : Floor := {| f_swarm := team; f_channels := no_channels; f_agents := {["bob"; "carol"]} |}.

Definition bob_stopped : Floor * list Effect * Shared :=
  handle_comm_stop (λ _, 0%N) 9 true 4 0 "alice" "bob" false team_floor no_mutation.

Lemma team_items_once w p : ss_plans team !! w = Some p → NoDup (map i_id (v_items p)).
Proof.
  intros H. assert (map_Forall (λ _ q, NoDup (map i_id (v_items q))) (ss_plans team)) as Hall
    by (apply (bool_decide_unpack _); vm_compute; exact I).
  exact (Hall w p H).
Qed.

Lemma only_owners_stop_workers_witness : "bob" ∉ f_agents bob_stopped.1.1 ∧ ∃ x, is_gone "w" x bob_stopped.1.1.
Proof.
  pose proof (only_owners_stop_workers (λ _, 0%N) 9 true 4 0 "alice" "bob" team_floor no_mutation team_items_once) as H.
  fold bob_stopped in H. assert ("bob" ∉ f_agents bob_stopped.1.1) as Hb by (apply (bool_decide_unpack _); vm_compute; exact I).
  split; [exact Hb|]. destruct bob_stopped as [[f effects] sh]. simpl in *.
  destruct H as [[-> _]|(w & x & m & Hw & _ & _ & _ & H & _)]; [set_solver|].
  vm_compute in Hw. injection Hw as <-. by exists x.
Defined.
