(* ===== verification/SwarmStore.v ===== *)
(** * Swarms on disk

    crates/jcode-app-core/src/server/swarm_persistence.rs, with the writing and reading of
    JSON files of crates/jcode-storage/src/lib.rs: the snapshot of a swarm, what is written
    and when it is not, what a start of the server loads, and what it makes of sessions
    and tasks that did not survive.  Files are those of [Disk]; times of the wall clock and
    of the process are milliseconds. *)

From S2P Require Import MutationState.
From S2P Require Import Prelude RustStr RustText Disk PlanTypes Plan SwarmCore SwarmProgress SwarmMembers.

(** ** Files *)

(** The text before the last [c] and the text after it. *)
Fixpoint split_last (c : chr) (s : string) : option (string * string) :=
  match s with
  | EmptyString => None
  | String a s' =>
      match split_last c s' with
      | Some (x, y) => Some (String a x, y)
      | None => if Ascii.eqb a c then Some ("", s') else None
      end
  end.

(** The directory with its slash, and the name. *)
Definition split_dir (path : string) : string * string :=
  match split_last "/" path with Some (d, name) => (d +:+ "/", name) | None => ("", path) end.

(** The stem of a file name and its extension: a leading dot does not begin one. *)
Definition split_extension (name : string) : string * option string :=
  match split_last "." name with
  | Some (stem, ext) => if is_empty stem then (name, None) else (stem, Some ext)
  | None => (name, None)
  end.

Definition extension (path : string) : option string := (split_extension (split_dir path).2).2.

Definition with_extension (ext path : string) : string :=
  let '(dir, name) := split_dir path in dir +:+ (split_extension name).1 +:+ "." +:+ ext.

(** [fs::hard_link(from, to)]: a second name for the content, where there is none yet. *)
Definition hard_link (from to : string) : Io unit :=
  let! there := exists_file to in
  if there : bool then io_err os_error
  else
    let! known := exists_file from in
    if known : bool then sys_change (λ fs, match fs !! from with Some text => <[to := text]> fs | None => fs end)
    else io_err os_error.

(** [File::create(path)]: an empty file, whatever was there. *)
Definition truncate_file (path : string) : Io unit := sys_change (<[path := ""]>).

(** The former content stays under a second name. *)
Definition keep_backup (path : string) : Io unit :=
  let bak_path := with_extension "bak" path in
  let! there := exists_file path in
  if there : bool then
    let! _ := remove_file bak_path in
    let! _ := io_try (hard_link path bak_path) in
    io_ret tt
  else io_ret tt.

(** [write_bytes_inner], neither durable nor secret: a temporary file is filled and takes
    the place of the file. *)
Definition write_bytes_fast (nonce path bytes : string) : Io unit :=
  let tmp_path := with_extension ("tmp." +:+ nonce) path in
  sys_check ;!
  let! written := io_try (truncate_file tmp_path ;! append_file tmp_path bytes ;! keep_backup path ;! rename_file tmp_path path) in
  match written with
  | Ok _ => io_ret tt
  | Err e => let! _ := remove_file tmp_path in io_err e
  end.

Section json.
Context {T : Type}.
Context (to_json : T → result string string).
Context (parse : string → option T).

Definition write_json_fast (nonce path : string) (value : T) : Io unit :=
  let! bytes := io_of (to_json value) in write_bytes_fast nonce path bytes.

Definition corrupt (path : string) : string := "Corrupt JSON at " +:+ path.

(** The backup takes the place of a file that does not parse. *)
Definition read_json (path : string) : Io T :=
  let! data := read_file path in
  match parse data with
  | Some value => io_ret value
  | None =>
      let bak_path := with_extension "bak" path in
      let! there := exists_file bak_path in
      if there : bool then
        let! bak_data := read_file bak_path in
        match parse bak_data with
        | Some value => let! _ := io_try (write_file path bak_data) in io_ret value
        | None => io_err (corrupt path)
        end
      else io_err (corrupt path)
  end.
End json.

(** ** The snapshot of a swarm *)

Record PersistedVersionedPlan := {
  pp_items : list PlanItem;
  pp_version : N;
  pp_participants : list string;
  pp_task_progress : gmap string SwarmTaskProgress;
  pp_mode : string;
  pp_node_meta : gmap string NodeMeta;
}.

Record PersistedSwarmMember := {
  pm_record : SwarmMemberRecord;
  pm_terminal_since_unix_ms : option N;
}.

Record PersistedSwarmState := {
  ps_swarm_id : string;
  ps_plan : option PersistedVersionedPlan;
  ps_coordinator_session_id : option string;
  ps_members : list PersistedSwarmMember;
  ps_updated_at_unix_ms : N;
}.

(** A member with the fields that the tables of [SwarmMembers] leave out. *)
Record StoredMember := {
  sm_member : SwarmMember;
  sm_working_dir : option string;
  sm_swarm_enabled : bool;
}.

(** *** Plans *)

Definition to_persisted_plan (p : VersionedPlan) : PersistedVersionedPlan := {|
  pp_items := v_items p; pp_version := v_version p;
  pp_participants := merge_sort String.le (elements (v_participants p));
  pp_task_progress := v_task_progress p; pp_mode := v_mode p; pp_node_meta := v_node_meta p |}.

(** A task that was running is stale, since the time of the snapshot unless it was before. *)
Definition mark_stale (updated_at_unix_ms : N) (progress : gmap string SwarmTaskProgress) (i : PlanItem)
  : gmap string SwarmTaskProgress :=
  if bool_decide (i_status i = "running") then
    let t := default progress_default (progress !! i_id i) in
    <[i_id i := set_stale_since (or_keep (p_stale_since_unix_ms t) (Some updated_at_unix_ms)) t]> progress
  else progress.

Definition stale_item (i : PlanItem) : PlanItem :=
  if bool_decide (i_status i = "running") then set_status "running_stale" i else i.

Definition from_persisted_plan (pp : PersistedVersionedPlan) (updated_at_unix_ms : N) : VersionedPlan :=
  prune_side_maps {|
    v_items := map stale_item (pp_items pp); v_version := pp_version pp;
    v_participants := list_to_set (pp_participants pp);
    v_task_progress := foldl (mark_stale updated_at_unix_ms) (pp_task_progress pp) (pp_items pp);
    v_mode := pp_mode pp; v_node_meta := pp_node_meta pp |}.

Definition persisted_plan_is_dormant (pp : PersistedVersionedPlan) : bool :=
  is_nil (pp_items pp)
  || forallb (λ i, bool_decide (i_assigned_to i = None) && negb (is_active_status (i_status i))) (pp_items pp).

Definition persisted_plan_is_expired (pp : PersistedVersionedPlan) (snapshot_updated_at_unix_ms loaded_at_unix_ms retention : N)
  : bool :=
  is_nil (pp_items pp)
  || persisted_plan_is_dormant pp && (retention <=? loaded_at_unix_ms - snapshot_updated_at_unix_ms)%N.

Definition dormant_plan_retention (env : string → option string) : N :=
  configured_positive_u64 env "JCODE_SWARM_DORMANT_PLAN_RETENTION_SECS" (7 * 24 * 60 * 60) * 1000.

Definition swarm_terminal_member_retention (env : string → option string) : N :=
  configured_positive_u64 env "JCODE_SWARM_TERMINAL_MEMBER_RETENTION_SECS" (24 * 60 * 60) * 1000.

(** *** Members *)

Definition durable_record (s : StoredMember) : SwarmMemberRecord :=
  let m := sm_member s in {|
  mr_session_id := m_session_id m; mr_working_dir := sm_working_dir s; mr_swarm_id := m_swarm_id m;
  mr_swarm_enabled := sm_swarm_enabled s; mr_status := lifecycle_from (m_status m); mr_detail := m_detail m;
  mr_task_label := m_task_label m; mr_friendly_name := m_friendly_name m;
  mr_report_back_to_session_id := m_report_back_to m; mr_latest_completion_report := m_latest_completion_report m;
  mr_role := role_from (m_role m); mr_is_headless := m_is_headless m |}.

(** [instant] is the clock of the process. *)
Definition from_record (instant : N) (r : SwarmMemberRecord) : StoredMember := {|
  sm_member := {|
    m_session_id := mr_session_id r; m_swarm_id := mr_swarm_id r; m_status := lifecycle_as_str (mr_status r);
    m_detail := mr_detail r; m_task_label := mr_task_label r; m_friendly_name := mr_friendly_name r;
    m_report_back_to := mr_report_back_to_session_id r; m_latest_completion_report := mr_latest_completion_report r;
    m_role := role_as_str (mr_role r); m_joined_at := instant; m_last_status_change := instant;
    m_is_headless := mr_is_headless r; m_output_tail := None; m_elapsed_secs := None |};
  sm_working_dir := mr_working_dir r; sm_swarm_enabled := mr_swarm_enabled r |}.

Definition to_persisted_member (instant snapshot_unix_ms : N) (s : StoredMember) : PersistedSwarmMember := {|
  pm_record := durable_record s;
  pm_terminal_since_unix_ms :=
    if member_status_is_terminal (m_status (sm_member s)) then Some (snapshot_unix_ms - elapsed instant (sm_member s))%N
    else None |}.

Definition append_recovery_detail (detail : option string) (note : string) : option string :=
  match detail with
  | Some existing => if is_empty (trim existing) then Some note else Some (existing +:+ " (" +:+ note +:+ ")")
  | None => Some note
  end.

(** No session survives the end of its server. *)
Definition recover_member_status (status : SwarmLifecycleStatus) (detail : option string) (is_headless : bool)
  : SwarmLifecycleStatus * option string :=
  if bool_decide (status = Running) then (Crashed, append_recovery_detail detail "recovered after reload while running")
  else if bool_decide (status = Ready) then
    (Stopped, append_recovery_detail detail
                (if is_headless then "idle worker not restored after server restart"
                 else "client not attached after server restart"))
  else if is_headless && negb (mem status [Completed; Done; Failed; Stopped]) then
    (Crashed, append_recovery_detail detail "headless session did not survive reload")
  else (status, detail).

Definition with_status (status : SwarmLifecycleStatus) (detail : option string) (r : SwarmMemberRecord) : SwarmMemberRecord := {|
  mr_session_id := mr_session_id r; mr_working_dir := mr_working_dir r; mr_swarm_id := mr_swarm_id r;
  mr_swarm_enabled := mr_swarm_enabled r; mr_status := status; mr_detail := detail;
  mr_task_label := mr_task_label r; mr_friendly_name := mr_friendly_name r;
  mr_report_back_to_session_id := mr_report_back_to_session_id r;
  mr_latest_completion_report := mr_latest_completion_report r; mr_role := mr_role r; mr_is_headless := mr_is_headless r |}.

Definition changed_at (t : N) (s : StoredMember) : StoredMember :=
  let m := sm_member s in {|
  sm_member := {|
    m_session_id := m_session_id m; m_swarm_id := m_swarm_id m; m_status := m_status m; m_detail := m_detail m;
    m_task_label := m_task_label m; m_friendly_name := m_friendly_name m; m_report_back_to := m_report_back_to m;
    m_latest_completion_report := m_latest_completion_report m; m_role := m_role m; m_joined_at := m_joined_at m;
    m_last_status_change := t; m_is_headless := m_is_headless m; m_output_tail := m_output_tail m;
    m_elapsed_secs := m_elapsed_secs m |};
  sm_working_dir := sm_working_dir s; sm_swarm_enabled := sm_swarm_enabled s |}.

(** [Instant::now().checked_sub(age).unwrap_or_else(Instant::now)]. *)
Definition instant_before (instant age : N) : N := if (age <=? instant)%N then (instant - age)%N else instant.

Definition from_persisted_member (instant snapshot_updated_at_unix_ms loaded_at_unix_ms retention : N)
  (pm : PersistedSwarmMember) : option StoredMember :=
  let r := pm_record pm in
  let was_terminal := member_status_is_terminal (lifecycle_as_str (mr_status r)) in
  let '(status, detail) := recover_member_status (mr_status r) (mr_detail r) (mr_is_headless r) in
  let terminal_since :=
    if member_status_is_terminal (lifecycle_as_str status) then
      Some (default (if was_terminal then snapshot_updated_at_unix_ms else loaded_at_unix_ms) (pm_terminal_since_unix_ms pm))
    else None in
  let recovered := from_record instant (with_status status detail r) in
  match terminal_since with
  | Some since =>
      if (retention <=? loaded_at_unix_ms - since)%N then None
      else Some (changed_at (instant_before instant (loaded_at_unix_ms - since)) recovered)
  | None => Some recovered
  end.

(** ** Writing *)

Section store.
Context (to_json : PersistedSwarmState → result string string).
Context (parse : string → option PersistedSwarmState).
Context (dir : string).

Definition state_path (swarm_id : string) : string := dir +:+ "/" +:+ sanitize_session_id swarm_id +:+ ".json".

Definition tombstone (now : N) (swarm_id : string) : PersistedSwarmState := {|
  ps_swarm_id := swarm_id; ps_plan := None; ps_coordinator_session_id := None; ps_members := [];
  ps_updated_at_unix_ms := now |}.

Definition removed_or_absent (r : result unit RemoveError) : bool :=
  match r with Ok _ | Err NotFound => true | Err RemoveFailed => false end.

Definition remove_snapshot_files (now : N) (nonce swarm_id : string) : Io bool :=
  let path := state_path swarm_id in
  let! written := io_try (write_json_fast to_json nonce path (tombstone now swarm_id)) in
  match written with
  | Err _ => io_ret false
  | Ok _ =>
      let! backup_removed := remove_file (with_extension "bak" path) in
      let! primary_removed := remove_file path in
      io_ret (removed_or_absent backup_removed && removed_or_absent primary_removed)
  end.

Definition snapshot (now instant : N) (swarm_id : string) (plan : option VersionedPlan) (coordinator : option string)
  (members : list StoredMember) : PersistedSwarmState := {|
  ps_swarm_id := swarm_id; ps_plan := to_persisted_plan <$> plan; ps_coordinator_session_id := coordinator;
  ps_members := merge_sort (λ a b, String.le (mr_session_id (pm_record a)) (mr_session_id (pm_record b)))
                  (map (to_persisted_member instant now) members);
  ps_updated_at_unix_ms := now |}.

(** Whether the plan on disk is newer than the one to be written. *)
Definition is_newer (current : result PersistedSwarmState string) (plan : VersionedPlan) : bool :=
  match current with
  | Ok state => match ps_plan state with Some pp => (v_version plan <? pp_version pp)%N | None => false end
  | Err _ => false
  end.

(** An error is logged, no more. *)
Definition write_snapshot (now instant : N) (nonce swarm_id : string) (plan : option VersionedPlan)
  (coordinator : option string) (members : list StoredMember) : Io unit :=
  let! _ := io_try (write_json_fast to_json nonce (state_path swarm_id) (snapshot now instant swarm_id plan coordinator members)) in
  io_ret tt.

Definition persist_swarm_state (now instant : N) (nonce swarm_id : string) (plan : option VersionedPlan)
  (coordinator : option string) (members : list StoredMember) : Io unit :=
  match plan, coordinator, members with
  | None, None, [] => let! _ := remove_snapshot_files now nonce swarm_id in io_ret tt
  | None, _, _ => write_snapshot now instant nonce swarm_id plan coordinator members
  | Some p, _, _ =>
      let! current := io_try (read_json parse (state_path swarm_id)) in
      if is_newer current p then io_ret tt else write_snapshot now instant nonce swarm_id plan coordinator members
  end.

(** The content of the snapshot, if it can be read. *)
Definition read_primary_version (swarm_id : string) : Io (option string) :=
  let! content := io_try (read_file (state_path swarm_id)) in
  io_ret (match content with Ok text => Some text | Err _ => None end).

Definition remove_swarm_state_if_version (now : N) (nonce swarm_id : string) (expected : option string) : Io bool :=
  let! current := read_primary_version swarm_id in
  if bool_decide (current = expected) then remove_snapshot_files now nonce swarm_id else io_ret false.

(** ** Loading *)

Definition is_json (path : string) : bool := bool_decide (extension path = Some "json").

(** [fs::copy(from, to)]. *)
Definition copy_file (from to : string) : Io unit := let! content := read_file from in write_file to content.

Fixpoint copy_snapshots (legacy : list string) : Io unit :=
  match legacy with
  | [] => io_ret tt
  | path :: legacy =>
      let! there := exists_file path in
      if negb there || negb (is_json path) then copy_snapshots legacy
      else
        let! made := io_try sys_check in
        match made with
        | Err _ => io_ret tt
        | Ok _ => let! _ := io_try (copy_file path (dir +:+ "/" +:+ (split_dir path).2)) in copy_snapshots legacy
        end
  end.

(** The snapshots of the former place are taken over, once. *)
Definition migrate_legacy_state (before legacy : list string) : Io unit :=
  if existsb is_json before then io_ret tt else copy_snapshots legacy.

Record LoadedSwarmRuntimeState := {
  l_plans : gmap string VersionedPlan;
  l_coordinators : gmap string string;
  l_members : gmap string StoredMember;
  l_swarms_by_id : gmap string (gset string);
}.

(** With what was left out: expired members by swarm, swarms with an expired plan. *)
Record Loading := {
  lo_state : LoadedSwarmRuntimeState;
  lo_pruned_members : gmap string (gset string);
  lo_pruned_plans : gset string;
}.

Definition nothing_loaded : Loading := {|
  lo_state := {| l_plans := ∅; l_coordinators := ∅; l_members := ∅; l_swarms_by_id := ∅ |};
  lo_pruned_members := ∅; lo_pruned_plans := ∅ |}.

Definition add_to (m : gmap string (gset string)) (key x : string) : gmap string (gset string) :=
  <[key := {[x]} ∪ default ∅ (m !! key)]> m.

Section loading.
Context (env : string → option string).
Context (instant loaded_at_unix_ms : N).

Definition load_plan (swarm_id : string) (updated_at_unix_ms : N) (pp : PersistedVersionedPlan) (l : Loading) : Loading :=
  let s := lo_state l in
  if persisted_plan_is_expired pp updated_at_unix_ms loaded_at_unix_ms (dormant_plan_retention env) then {|
    lo_state := s; lo_pruned_members := lo_pruned_members l; lo_pruned_plans := {[swarm_id]} ∪ lo_pruned_plans l |}
  else {|
    lo_state := {|
      l_plans := <[swarm_id := from_persisted_plan pp updated_at_unix_ms]> (l_plans s);
      l_coordinators := l_coordinators s; l_members := l_members s; l_swarms_by_id := l_swarms_by_id s |};
    lo_pruned_members := lo_pruned_members l; lo_pruned_plans := lo_pruned_plans l |}.

Definition load_coordinator (swarm_id session_id : string) (l : Loading) : Loading :=
  let s := lo_state l in {|
  lo_state := {| l_plans := l_plans s; l_coordinators := <[swarm_id := session_id]> (l_coordinators s);
                 l_members := l_members s; l_swarms_by_id := l_swarms_by_id s |};
  lo_pruned_members := lo_pruned_members l; lo_pruned_plans := lo_pruned_plans l |}.

Definition load_member (updated_at_unix_ms : N) (l : Loading) (pm : PersistedSwarmMember) : Loading :=
  let s := lo_state l in
  let session_id := mr_session_id (pm_record pm) in
  match mr_swarm_id (pm_record pm) with
  | None => l
  | Some swarm_id =>
      match from_persisted_member instant updated_at_unix_ms loaded_at_unix_ms (swarm_terminal_member_retention env) pm with
      | None => {|
          lo_state := s; lo_pruned_members := add_to (lo_pruned_members l) swarm_id session_id;
          lo_pruned_plans := lo_pruned_plans l |}
      | Some m => {|
          lo_state := {| l_plans := l_plans s; l_coordinators := l_coordinators s;
                         l_members := <[session_id := m]> (l_members s);
                         l_swarms_by_id := add_to (l_swarms_by_id s) swarm_id session_id |};
          lo_pruned_members := lo_pruned_members l; lo_pruned_plans := lo_pruned_plans l |}
      end
  end.

Definition load_snapshot (state : PersistedSwarmState) (l : Loading) : Loading :=
  let updated := ps_updated_at_unix_ms state in
  let l := match ps_plan state with Some pp => load_plan (ps_swarm_id state) updated pp l | None => l end in
  let l := match ps_coordinator_session_id state with Some c => load_coordinator (ps_swarm_id state) c l | None => l end in
  foldl (load_member updated) l (ps_members state).

(** A backup counts only when its primary is not there. *)
Definition is_shadowed (path : string) : Io bool :=
  let! primary_there := exists_file (with_extension "json" path) in
  io_ret (bool_decide (extension path = Some "bak") && primary_there).

Definition load_entry (l : Loading) (path : string) : Io Loading :=
  let! there := exists_file path in
  let! shadowed := is_shadowed path in
  if negb there || shadowed then io_ret l
  else
    let! state := io_try (read_json parse path) in
    io_ret (match state with Ok state => load_snapshot state l | Err _ => l end).

Fixpoint load_entries (l : Loading) (paths : list string) : Io Loading :=
  match paths with
  | [] => io_ret l
  | path :: paths => let! l := load_entry l path in load_entries l paths
  end.

(** Expired members are not coordinators and not participants. *)
Definition drop_pruned (l : Loading) : LoadedSwarmRuntimeState :=
  let s := lo_state l in
  let pruned swarm_id := default ∅ (lo_pruned_members l !! swarm_id) in {|
  l_plans := map_imap (λ w p, Some (set_participants (λ ps, ps ∖ pruned w) p)) (l_plans s);
  l_coordinators := filter (λ kv : string * string, kv.2 ∉ pruned kv.1) (l_coordinators s);
  l_members := l_members s; l_swarms_by_id := l_swarms_by_id s |}.

Definition retained_members (swarm_id : string) (s : LoadedSwarmRuntimeState) : list StoredMember :=
  omap (λ sid, l_members s !! sid) (elements (default ∅ (l_swarms_by_id s !! swarm_id))).

(** The snapshots from which something was left out are written again. *)
Fixpoint rewrite_snapshots (nonce : string) (s : LoadedSwarmRuntimeState) (swarms : list string) : Io unit :=
  match swarms with
  | [] => io_ret tt
  | w :: swarms =>
      let! _ := persist_swarm_state loaded_at_unix_ms instant nonce w (l_plans s !! w) (l_coordinators s !! w) (retained_members w s) in
      rewrite_snapshots nonce s swarms
  end.

(** [entries]: the paths of the directory, in the order in which it lists them; [before] and
    [legacy]: those of the directory and of its former place before the migration. *)
Definition load_runtime_state (nonce : string) (before legacy entries : list string) : Io LoadedSwarmRuntimeState :=
  let! _ := migrate_legacy_state before legacy in
  let! l := load_entries nothing_loaded entries in
  let s := drop_pruned l in
  let! _ := rewrite_snapshots nonce s (elements (dom (lo_pruned_members l) ∪ lo_pruned_plans l)) in
  io_ret s.
End loading.
End store.
