(* ===== verification/SwarmStoreTheorems.v ===== *)
(** * Theorems about swarms on disk

    Wherever a write of a snapshot stops, the old or the new one is found; a plan on disk
    never goes back to an older version; and a swarm that was written comes back after a
    restart, with nobody running. *)

From S2P Require Import MutationState.
From S2P Require Import Prelude RustStr RustText Disk PlanTypes Plan SwarmCore SwarmCoreTheorems SwarmProgress SwarmMembers SwarmStore.

(** ** Names of files *)

Lemma split_last_None c s : contains_chr c s = false → split_last c s = None.
Proof.
  unfold contains_chr. induction s as [|a s IH]; simpl; [done|]. rewrite orb_false_iff. intros [Ha Hs].
  rewrite IH by done. by rewrite Ascii.eqb_sym, Ha.
Qed.

Lemma split_last_app c x y : contains_chr c y = false → split_last c (x +:+ String c y) = Some (x, y).
Proof.
  intros Hy. induction x as [|a x IH].
  - rewrite str_app_nil_l. simpl. rewrite split_last_None by done. by rewrite Ascii.eqb_refl.
  - rewrite str_app_cons. simpl. by rewrite IH.
Qed.

Lemma sanitized_without c s : key_chr c = false → contains_chr c (sanitize_session_id s) = false.
Proof.
  intros Hc. unfold contains_chr. induction s as [|a s IH]; simpl; [done|]. destruct (is_continuation a); [done|].
  simpl. rewrite IH, orb_false_r. destruct (Ascii.eqb_spec c (if key_chr a then a else "_"%char)) as [->|]; [|done].
  destruct (key_chr a) eqn:E; [congruence|]. by vm_compute in Hc.
Qed.

Lemma str_app_inj_l p a b : p +:+ a = p +:+ b → a = b.
Proof. induction p as [|c p IH]; [done|]. rewrite !str_app_cons. intros [= H]. by apply IH. Qed.

Lemma with_extension_inj e1 e2 p : with_extension e1 p = with_extension e2 p → e1 = e2.
Proof.
  unfold with_extension. destruct (split_dir p) as [d name]. intros H. by do 3 apply str_app_inj_l in H.
Qed.

Lemma contains_app c s t : contains_chr c (s +:+ t) = contains_chr c s || contains_chr c t.
Proof. apply any_chr_app. Qed.

Lemma with_extension_state dir id e :
  with_extension e (state_path dir id) =
    dir +:+ "/" +:+ (if is_empty (sanitize_session_id id) then ".json" else sanitize_session_id id) +:+ "." +:+ e.
Proof.
  unfold with_extension, split_dir, state_path. set (st := sanitize_session_id id).
  assert (contains_chr "/" (st +:+ ".json") = false) as Hslash
    by (rewrite contains_app; apply orb_false_iff; split; [by apply sanitized_without|done]).
  change ("/" +:+ ?x) with (String "/" x). rewrite split_last_app by done. unfold split_extension.
  change ".json" with (String "." "json"). rewrite split_last_app by done.
  destruct (is_empty st) eqn:E; rewrite str_app_assoc; [|done]. by destruct st.
Qed.

Lemma state_path_ne dir id e : e ≠ "json" → with_extension e (state_path dir id) ≠ state_path dir id.
Proof.
  intros He. rewrite with_extension_state. unfold state_path. intros H. do 2 apply str_app_inj_l in H.
  destruct (sanitize_session_id id) as [|c st]; simpl is_empty in H; cbv iota in H.
  - apply (f_equal String.length) in H. rewrite !str_length_app in H. simpl in H. lia.
  - apply str_app_inj_l in H. change ".json" with ("." +:+ "json") in H. by apply str_app_inj_l in H.
Qed.

(** ** What a reader finds *)

Section finding.
Context {T : Type}.
Context (parse : string → option T).

(** The content of a file, or of its backup when the file is not there or does not parse. *)
Definition finds (path : string) (fs : Files) : option T :=
  let backup := fs !! with_extension "bak" path ≫= parse in
  match fs !! path with
  | Some text => match parse text with Some value => Some value | None => backup end
  | None => backup
  end.

Context (path nonce bytes : string).
Abbreviation bak := (with_extension "bak" path).
Abbreviation tmp := (with_extension ("tmp." +:+ nonce) path).
Context (Hbak : bak ≠ path) (Htmp : tmp ≠ path).

Lemma tmp_ne_bak : tmp ≠ bak.
Proof. intros H. by apply with_extension_inj in H. Qed.

(** The file is as it was; the backup too, when there is no file. *)
Definition kept (before fs : Files) : Prop := fs !! path = before !! path ∧ (before !! path = None → fs !! bak = before !! bak).

Lemma kept_refl fs : kept fs fs.
Proof. done. Qed.

Lemma kept_insert_tmp before fs t : kept before fs → kept before (<[tmp := t]> fs).
Proof. intros [H1 H2]. pose proof tmp_ne_bak. split; [by rewrite lookup_insert_ne|]. intros Hn. rewrite lookup_insert_ne by done. auto. Qed.

Lemma kept_alter_tmp before fs f : kept before fs → kept before (alter f tmp fs).
Proof. intros [H1 H2]. pose proof tmp_ne_bak. split; [by rewrite lookup_alter_ne|]. intros Hn. rewrite lookup_alter_ne by done. auto. Qed.

Lemma kept_delete_tmp before fs : kept before fs → kept before (delete tmp fs).
Proof. intros [H1 H2]. pose proof tmp_ne_bak. split; [by rewrite lookup_delete_ne|]. intros Hn. rewrite lookup_delete_ne by done. auto. Qed.

Lemma kept_delete_bak before fs : is_Some (fs !! path) → kept before fs → kept before (delete bak fs).
Proof. intros [t Ht] [H1 H2]. split; [by rewrite lookup_delete_ne|]. intros Hn. congruence. Qed.

Lemma kept_insert_bak before fs t : is_Some (fs !! path) → kept before fs → kept before (<[bak := t]> fs).
Proof. intros [u Hu] [H1 H2]. split; [by rewrite lookup_insert_ne|]. intros Hn. congruence. Qed.

(** A file that parses, or that is not there, is found as it was. *)
Lemma kept_finds before fs :
  (∀ t, before !! path = Some t → is_Some (parse t)) → kept before fs → finds path fs = finds path before.
Proof.
  intros Hp [H1 H2]. unfold finds. rewrite H1. destruct (before !! path) as [t|] eqn:E; [|by rewrite H2].
  by destruct (Hp t eq_refl) as [v ->].
Qed.

Section guarded.
Context (I : Files → Prop) (before : Files).
Context (I_kept : ∀ fs, kept before fs → I fs) (I_new : ∀ fs, fs !! path = Some bytes → I fs).

Abbreviation filled := (λ fs : Files, kept before fs ∧ fs !! tmp = Some bytes).
Abbreviation filled_over := (λ fs : Files, filled fs ∧ is_Some (fs !! path)).

Lemma guarded_hard_link (E : Files → Prop) :
  guarded I filled_over (io_try (hard_link path bak)) (λ _, filled_over) E.
Proof.
  pose proof tmp_ne_bak as Hne.
  eapply (guarded_weaken _ filled_over); [apply (guarded_try _ _ _ (λ _, filled_over) filled_over E)|auto| |auto].
  2: { by intros [[]|e] fs. }
  unfold hard_link. eapply guarded_bind; [by apply (guarded_exists _ _ _ (λ _, filled_over))|].
  intros [|]; [by apply guarded_err|]. eapply guarded_bind; [by apply (guarded_exists _ _ _ (λ _, filled_over))|].
  intros [|]; [|by apply guarded_err]. apply guarded_change. intros fs [[Hk Ht] Hp].
  assert (filled_over (match fs !! path with Some text => <[bak := text]> fs | None => fs end)) as H; [|by split; [apply I_kept, H|]].
  destruct Hp as [t Hp]. rewrite Hp. split; [split|].
  - apply kept_insert_bak; eauto.
  - by rewrite lookup_insert_ne.
  - exists t. by rewrite lookup_insert_ne.
Qed.

Lemma guarded_keep_backup : guarded I filled (keep_backup path) (λ _, filled) (kept before).
Proof.
  pose proof tmp_ne_bak as Hne. unfold keep_backup.
  eapply guarded_bind; [apply (guarded_exists _ _ _ (λ b fs, filled fs ∧ (b = true → is_Some (fs !! path))))|].
  { intros fs H. split; [done|]. by intros H1%bool_decide_eq_true. }
  intros [|]; [|by apply guarded_ret; intros fs [H _]].
  apply (guarded_weaken _ filled_over _ _ (λ _, filled) _ (kept before)); [|by intros fs [H1 H2]; auto|auto|auto].
  eapply guarded_bind; [apply (guarded_remove _ _ _ (λ _, filled_over))|].
  { intros fs [[Hk Ht] Hp]. assert (filled_over (delete bak fs)) as H; [|split; [apply I_kept, H|auto]].
    split; [split|]; [by apply kept_delete_bak|by rewrite lookup_delete_ne|by rewrite lookup_delete_ne]. }
  intros r. eapply guarded_bind; [apply guarded_hard_link|]. intros r'. apply guarded_ret. by intros fs [H _].
Qed.

Lemma guarded_fill :
  guarded I (kept before) (truncate_file tmp ;! append_file tmp bytes ;! keep_backup path ;! rename_file tmp path)
    (λ _ fs, fs !! path = Some bytes) (kept before).
Proof.
  pose proof tmp_ne_bak as Hne.
  eapply guarded_bind; [apply (guarded_change _ _ _ (λ _ fs, kept before fs ∧ fs !! tmp = Some ""))|].
  { intros fs Hk. pose proof (kept_insert_tmp before fs "" Hk) as H. split_and!; [by apply I_kept|done| |done].
    by rewrite lookup_insert_eq. }
  intros []. eapply guarded_bind; [apply (guarded_append _ _ _ _ (λ _, filled) (kept before))|].
  { intros fs [Hk Ht]. split; [by apply kept_alter_tmp|]. by rewrite lookup_alter_eq, Ht. }
  { intros fs b' [Hk _]. pose proof (kept_alter_tmp before fs (λ old, old +:+ b') Hk). auto. }
  intros []. eapply guarded_bind; [apply guarded_keep_backup|].
  intros []. eapply guarded_bind; [by apply (guarded_exists _ _ _ (λ _, filled))|].
  intros [|]; [|by apply guarded_err; intros fs [H _]]. apply guarded_change. intros fs [Hk Ht]. rewrite Ht.
  assert ((<[path:=bytes]> (delete tmp fs)) !! path = Some bytes) as H by by rewrite lookup_insert_eq. auto.
Qed.

Lemma guarded_write_bytes :
  guarded I (kept before) (write_bytes_fast nonce path bytes) (λ _ fs, fs !! path = Some bytes) (kept before).
Proof.
  unfold write_bytes_fast. eapply guarded_bind; [by apply (guarded_check _ _ (λ _, kept before))|]. intros [].
  eapply guarded_bind; [apply guarded_try, guarded_fill|]. intros [[]|e]; [by apply guarded_ret|].
  eapply guarded_bind; [apply (guarded_remove _ _ _ (λ _, kept before))|by intros; apply guarded_err].
  intros fs Hk. pose proof (kept_delete_tmp before fs Hk). auto.
Qed.
End guarded.
End finding.

(** ** Writing *)

Section store.
Context (to_json : PersistedSwarmState → result string string).
Context (parse : string → option PersistedSwarmState).
Context (dir : string).

Abbreviation state_path := (state_path dir).
Abbreviation persist_swarm_state := (persist_swarm_state to_json parse dir).
Abbreviation write_snapshot := (write_snapshot to_json dir).

(** The snapshot of the swarm parses, or is not there. *)
Definition in_order (id : string) (fs : Files) : Prop := ∀ t, fs !! state_path id = Some t → is_Some (parse t).

Lemma bak_ne id : with_extension "bak" (state_path id) ≠ state_path id.
Proof. by apply state_path_ne. Qed.

Lemma tmp_ne nonce id : with_extension ("tmp." +:+ nonce) (state_path id) ≠ state_path id.
Proof. by apply state_path_ne. Qed.

Lemma kept_in_order id before fs : in_order id before → kept (state_path id) before fs → in_order id fs.
Proof. intros H [H1 _] t. rewrite H1. apply H. Qed.

(** Reading a file that is in order changes nothing. *)
Lemma guarded_read_json I id before :
  in_order id before →
  guarded I (kept (state_path id) before) (read_json parse (state_path id)) (λ _, kept (state_path id) before)
    (kept (state_path id) before).
Proof.
  intros Ho. unfold read_json.
  eapply guarded_bind; [apply (guarded_read _ _ _ (λ t fs, kept (state_path id) before fs ∧ is_Some (parse t)))|].
  { intros fs Hk. split; [done|]. intros t Ht. split; [done|]. by apply (kept_in_order _ _ _ Ho Hk). }
  intros t. apply guarded_fact. intros [v ->]. by apply guarded_ret.
Qed.

Lemma guarded_write_snapshot I before now instant nonce id plan coordinator members bytes :
  to_json (snapshot now instant id plan coordinator members) = Ok bytes →
  (∀ fs, kept (state_path id) before fs → I fs) → (∀ fs, fs !! state_path id = Some bytes → I fs) →
  guarded I (kept (state_path id) before) (write_snapshot now instant nonce id plan coordinator members) (λ _, I) I.
Proof.
  intros Hj Hk Hn. unfold SwarmStore.write_snapshot, write_json_fast. rewrite Hj.
  eapply guarded_bind; [|intros r; apply guarded_ret; exact (λ fs H, H)].
  eapply guarded_weaken; [apply guarded_try, (guarded_bind _ _ _ _ (λ b fs, kept (state_path id) before fs ∧ b = bytes))| | |].
  - by apply guarded_of.
  - intros b. apply guarded_fact. intros ->. apply (guarded_write_bytes _ _ _ (bak_ne id) (tmp_ne nonce id) I before Hk Hn).
  - done.
  - intros [[]|e] fs; simpl; auto.
  - exact (λ fs H, H).
Qed.

(** C35 (safety). A write of a swarm that is cut short leaves the old or the new snapshot.
    Whatever fails while a swarm is written, and wherever the server stops: in each state of
    the files on the way, and in the last one, the snapshot that is read is the one from
    before or the one to be written.  (The file from before parses, or is not there.) *)
Theorem a_cut_short_write_leaves_the_old_or_the_new_snapshot now instant nonce id plan coordinator members bytes d :
  let new := snapshot now instant id plan coordinator members in
  in_order id (d_files d) → to_json new = Ok bytes → parse bytes = Some new →
  ¬ (plan = None ∧ coordinator = None ∧ members = []) →
  let d' := (persist_swarm_state now instant nonce id plan coordinator members d).2 in
  ∃ seen, d_trace d' = d_trace d ++ seen ∧
    ∀ fs, fs ∈ d_files d' :: seen →
      finds parse (state_path id) fs = finds parse (state_path id) (d_files d) ∨ finds parse (state_path id) fs = Some new.
Proof.
  intros new Ho Hj Hp Hne d'. set (path := state_path id).
  set (I := λ fs, finds parse path fs = finds parse path (d_files d) ∨ finds parse path fs = Some new).
  assert (∀ fs, kept path (d_files d) fs → I fs) as Hk by (intros fs H; left; by apply kept_finds).
  assert (∀ fs, fs !! path = Some bytes → I fs) as Hn by (intros fs H; right; unfold finds; by rewrite H, Hp).
  assert (guarded I (kept path (d_files d)) (write_snapshot now instant nonce id plan coordinator members) (λ _, I) I) as Hw
    by by eapply guarded_write_snapshot.
  assert (guarded I (kept path (d_files d)) (persist_swarm_state now instant nonce id plan coordinator members) (λ _, I) I) as Hg.
  { unfold SwarmStore.persist_swarm_state. destruct plan as [p|].
    - eapply guarded_bind; [apply guarded_try, guarded_read_json, Ho|]. intros r.
      eapply (guarded_weaken _ (kept path (d_files d))); [|by intros fs; destruct r|exact (λ x fs H, H)|exact (λ fs H, H)].
      destruct (is_newer r p); [by apply guarded_ret|exact Hw].
    - destruct coordinator; [exact Hw|]. destruct members; [by destruct Hne|exact Hw]. }
  destruct (Hg d (kept_refl _ _)) as [(seen & Hs & Hf) Hl]. exists seen. split; [exact Hs|].
  intros fs [->|Hin]%elem_of_cons; [|by rewrite Forall_forall in Hf; apply (Hf fs)]. unfold d'.
  by destruct ((persist_swarm_state now instant nonce id plan coordinator members d).1).
Qed.

(** ** On a disk that works *)

Lemma total_try_link P from to :
  (∀ fs t, P fs → P (<[to := t]> fs)) → total P (io_try (hard_link from to)) (λ _, P).
Proof.
  intros H d Hh Hd. unfold io_try, hard_link, io_bind, exists_file, io_err. cbn [fst snd].
  case_bool_decide; [by eexists _, _|]. case_bool_decide as Hf; [|by eexists _, _].
  unfold sys_change. rewrite next_fault_healthy by done. eexists _, _. split; [reflexivity|]. split; [exact Hh|]. simpl.
  destruct Hf as [t ->]. by apply H.
Qed.

Lemma total_write_bytes nonce path bytes :
  total (λ _, True) (write_bytes_fast nonce path bytes) (λ _ fs, fs !! path = Some bytes).
Proof.
  set (tmp := with_extension ("tmp." +:+ nonce) path). assert (tmp ≠ with_extension "bak" path) as Hne
    by (intros H; by apply with_extension_inj in H).
  unfold write_bytes_fast. fold tmp. eapply total_bind; [by apply (total_check _ (λ _ _, True))|]. intros [].
  eapply total_bind; [apply (total_try _ _ (λ _ fs, fs !! path = Some bytes))|].
  - eapply total_bind; [apply (total_change _ _ (λ _ fs, fs !! tmp = Some ""))|].
    { intros fs _. by rewrite lookup_insert_eq. }
    intros []. eapply total_bind; [apply (total_append _ _ _ (λ _ fs, fs !! tmp = Some bytes))|].
    { intros fs H. by rewrite lookup_alter_eq, H. }
    intros []. eapply (total_bind _ _ _ (λ _ fs, fs !! tmp = Some bytes)).
    + unfold keep_backup. eapply total_bind; [by apply (total_exists _ _ (λ _ fs, fs !! tmp = Some bytes))|].
      intros [|]; [|by apply total_ret].
      eapply total_bind; [apply (total_remove _ _ (λ _ fs, fs !! tmp = Some bytes))|].
      { intros fs H. by rewrite lookup_delete_ne. }
      intros r. eapply total_bind; [apply (total_try_link (λ fs, fs !! tmp = Some bytes))|by intros; apply total_ret].
      intros fs t H. by rewrite lookup_insert_ne.
    + intros []. eapply total_bind; [apply (total_exists _ _ (λ b fs, fs !! tmp = Some bytes ∧ b = true))|].
      { intros fs H. split; [done|]. by rewrite H. }
      intros b. apply total_fact. intros ->. apply total_change. intros fs ->. by rewrite lookup_insert_eq.
  - intros r d Hh (u & -> & Hd). by eexists tt, d.
Qed.

(** The plan on disk. *)
Definition durable_plan (id : string) (fs : Files) : option PersistedVersionedPlan :=
  (fs !! state_path id ≫= parse) ≫= ps_plan.

(** A request to write a plan of the swarm. *)
Record PlanWrite := {
  pw_now : N;
  pw_instant : N;
  pw_nonce : string;
  pw_plan : VersionedPlan;
  pw_coordinator : option string;
  pw_members : list StoredMember;
}.

Definition snapshot_of (id : string) (w : PlanWrite) : PersistedSwarmState :=
  snapshot (pw_now w) (pw_instant w) id (Some (pw_plan w)) (pw_coordinator w) (pw_members w).

Definition persist_plan (id : string) (w : PlanWrite) : Io unit :=
  persist_swarm_state (pw_now w) (pw_instant w) (pw_nonce w) id (Some (pw_plan w)) (pw_coordinator w) (pw_members w).

(** The serializer writes the snapshot, and it is read back. *)
Definition survives (state : PersistedSwarmState) : Prop := ∃ bytes, to_json state = Ok bytes ∧ parse bytes = Some state.

Lemma read_json_healthy id d :
  healthy d → in_order id (d_files d) →
  ∃ r, io_try (read_json parse (state_path id)) d = (Ok r, d) ∧
    match r with Ok st => d_files d !! state_path id ≫= parse = Some st | Err _ => d_files d !! state_path id = None end.
Proof.
  intros Hh Ho. unfold io_try, read_json, io_bind, read_file, io_bind, sys_get. rewrite next_fault_healthy by done.
  destruct (d_files d !! state_path id) as [t|] eqn:E; [|eexists; by split].
  destruct (Ho t E) as [v Hv]. simpl. rewrite Hv. by eexists.
Qed.

Lemma persist_plan_healthy id w d :
  healthy d → in_order id (d_files d) → survives (snapshot_of id w) →
  ∃ d', persist_plan id w d = (Ok tt, d') ∧ healthy d' ∧ in_order id (d_files d') ∧
    ((d' = d ∧ ∃ pp, durable_plan id (d_files d) = Some pp ∧ (v_version (pw_plan w) < pp_version pp)%N)
     ∨ (d_files d' !! state_path id ≫= parse = Some (snapshot_of id w)
        ∧ ∀ pp, durable_plan id (d_files d) = Some pp → (pp_version pp ≤ v_version (pw_plan w))%N)).
Proof.
  intros Hh Ho (bytes & Hj & Hp). unfold persist_plan, SwarmStore.persist_swarm_state.
  destruct (read_json_healthy id d Hh Ho) as (r & Hr & Hst). unfold io_bind at 1. rewrite Hr. unfold durable_plan.
  destruct (is_newer r (pw_plan w)) eqn:Hn.
  - exists d. split; [done|]. split; [done|]. split; [done|]. left. split; [done|].
    destruct r as [st|e]; [|done]. rewrite Hst. simpl in Hn |- *. destruct (ps_plan st) as [pp|]; [|done].
    exists pp. split; [done|]. by apply N.ltb_lt.
  - destruct (total_write_bytes (pw_nonce w) (state_path id) bytes d Hh I) as ([] & d' & Hw & Hh' & Hf).
    exists d'. unfold SwarmStore.write_snapshot, write_json_fast, io_bind, io_try. unfold snapshot_of in Hj. rewrite Hj. simpl.
    rewrite Hw. split; [done|]. split; [done|]. split; [intros t; rewrite Hf; intros [= <-]; by eexists|]. right.
    rewrite Hf. simpl. rewrite Hp. split; [done|]. intros pp Hpp. destruct r as [st|e]; [|by rewrite Hst in Hpp].
    rewrite Hst in Hpp. simpl in Hpp, Hn. rewrite Hpp in Hn. apply N.ltb_ge in Hn. exact Hn.
Qed.

Fixpoint persist_plans (id : string) (ws : list PlanWrite) : Io unit :=
  match ws with [] => io_ret tt | w :: ws => let! _ := persist_plan id w in persist_plans id ws end.

Definition durable_version (id : string) (fs : Files) : N :=
  match durable_plan id fs with Some pp => pp_version pp | None => 0%N end.

(** A plan on disk never goes back to an older version.  However many snapshots
    of a swarm are written, in whatever order they were taken: on a disk that works, the plan
    that is on disk afterwards has at least the version of the one from before and of every
    plan written, and it is one of these. *)
Theorem a_plan_on_disk_never_goes_back id ws d :
  healthy d → in_order id (d_files d) → Forall (λ w, survives (snapshot_of id w)) ws →
  ∃ d', persist_plans id ws d = (Ok tt, d') ∧
    let version := durable_version id (d_files d') in
    (durable_version id (d_files d) ≤ version)%N
    ∧ Forall (λ w, (v_version (pw_plan w) ≤ version)%N) ws
    ∧ (durable_plan id (d_files d') = durable_plan id (d_files d)
       ∨ ∃ w, w ∈ ws ∧ durable_plan id (d_files d') = Some (to_persisted_plan (pw_plan w))).
Proof.
  revert d. induction ws as [|w ws IH]; intros d Hh Ho Hs; [by exists d; auto using N.le_refl|].
  apply Forall_cons in Hs as [Hw Hs]. destruct (persist_plan_healthy id w d Hh Ho Hw) as (d1 & Hd1 & Hh1 & Ho1 & Hc).
  assert ((d1 = d ∧ ∃ pp, durable_plan id (d_files d) = Some pp ∧ (v_version (pw_plan w) < pp_version pp)%N)
    ∨ (durable_plan id (d_files d1) = Some (to_persisted_plan (pw_plan w))
       ∧ ∀ pp, durable_plan id (d_files d) = Some pp → (pp_version pp ≤ v_version (pw_plan w))%N)) as Hc'
    by (destruct Hc as [Hc|[Hc Hle]]; [by left|right; split; [unfold durable_plan; by rewrite Hc|exact Hle]]).
  clear Hc. rename Hc' into Hc. destruct (IH d1 Hh1 Ho1 Hs) as (d' & Hd' & Hle & Hall & Hwhich). exists d'. simpl. unfold io_bind. rewrite Hd1.
  split; [exact Hd'|].
  assert (durable_version id (d_files d) ≤ durable_version id (d_files d1) ∧
          v_version (pw_plan w) ≤ durable_version id (d_files d1))%N as [H1 H2].
  { unfold durable_version. destruct Hc as [[-> (pp & -> & Hlt)]|[-> Hlt]]; [lia|]. simpl.
    destruct (durable_plan id (d_files d)) as [pp|]; [|lia]. specialize (Hlt pp eq_refl). lia. }
  cbv zeta in Hle, Hall |- *. split; [lia|]. split; [constructor; [lia|exact Hall]|].
  destruct Hwhich as [Heq|(w' & Hin & Heq)]; [|right; exists w'; split; [by right|done]].
  rewrite Heq. destruct Hc as [[-> _]|[-> _]]; [by left|right; exists w; split; [by left|done]].
Qed.

(** ** A restart *)

(** What a restart makes of the status of a session. *)
Definition restart_status (status : string) (is_headless : bool) : string :=
  if bool_decide (status = "running") then "crashed"
  else if bool_decide (status = "ready") then "stopped"
  else if is_headless && negb (mem status ["completed"; "done"; "failed"; "stopped"]) then "crashed"
  else status.

(** The session is the same, and does not run. *)
Record comes_back (m m' : SwarmMember) : Prop := {
  back_id : m_session_id m' = m_session_id m;
  back_swarm : m_swarm_id m' = m_swarm_id m;
  back_status : m_status m' = restart_status (m_status m) (m_is_headless m);
  back_label : m_task_label m' = m_task_label m;
  back_name : m_friendly_name m' = m_friendly_name m;
  back_owner : m_report_back_to m' = m_report_back_to m;
  back_report : m_latest_completion_report m' = m_latest_completion_report m;
  back_role : m_role m' = m_role m;
  back_headless : m_is_headless m' = m_is_headless m;
}.

(** The plan is the same, and what ran is stale since the time it was written. *)
Record plan_comes_back (t : N) (p p' : VersionedPlan) : Prop := {
  back_items : v_items p' =
    map (λ i, if bool_decide (i_status i = "running") then set_status "running_stale" i else i) (v_items p);
  back_version : v_version p' = v_version p;
  back_participants : v_participants p' = v_participants p;
  back_mode : v_mode p' = v_mode p;
  back_meta : v_node_meta p' = v_node_meta p;
  back_progress : ∀ x, v_task_progress p' !! x =
    if existsb (λ i, bool_decide (i_id i = x ∧ i_status i = "running")) (v_items p) then
      let r := progress_entry p x in Some (set_stale_since (or_keep (p_stale_since_unix_ms r) (Some t)) r)
    else v_task_progress p !! x;
}.

Lemma lifecycle_text text : lifecycle_as_str (lifecycle_from text) = text.
Proof. apply roles_and_states_survive_the_wire. Qed.

(** The status of a record, as its text decides. *)
Lemma status_decides text status : status ∈ named_statuses → lifecycle_from text = status ↔ text = lifecycle_as_str status.
Proof.
  intros Hin. split.
  - intros <-. by rewrite lifecycle_text.
  - intros ->. repeat (apply elem_of_cons in Hin as [->|Hin]; [by vm_compute|]). by apply elem_of_nil in Hin.
Qed.

Lemma recovered_status text detail h :
  lifecycle_as_str (recover_member_status (lifecycle_from text) detail h).1 = restart_status text h.
Proof.
  unfold recover_member_status, restart_status, mem.
  assert (∀ status, status ∈ named_statuses → bool_decide (lifecycle_from text = status) = bool_decide (text = lifecycle_as_str status)) as H
    by (intros; by apply bool_decide_ext, status_decides).
  rewrite (H Running), (H Ready) by (vm_compute; set_solver). simpl lifecycle_as_str.
  assert (bool_decide (lifecycle_from text ∈ [Completed; Done; Failed; Stopped])
          = bool_decide (text ∈ ["completed"; "done"; "failed"; "stopped"])) as ->.
  { apply bool_decide_ext. rewrite !elem_of_cons, !status_decides by (vm_compute; set_solver). simpl. set_solver. }
  case_bool_decide; [done|]. case_bool_decide; [done|]. destruct (h && _); [done|]. apply lifecycle_text.
Qed.

Lemma retention_positive env : (0 < swarm_terminal_member_retention env)%N.
Proof.
  unfold swarm_terminal_member_retention, configured_positive_u64.
  destruct (env _ ≫= _) as [n|]; [|lia]. destruct (N.ltb_spec 0 n); lia.
Qed.

(** A terminal session is not yet due. *)
Definition is_remembered (env : string → option string) (i1 t1 t2 : N) (s : StoredMember) : Prop :=
  member_status_is_terminal (m_status (sm_member s)) = true →
  (t2 - (t1 - elapsed i1 (sm_member s)) < swarm_terminal_member_retention env)%N.

Lemma from_persisted_comes_back env i1 i2 t1 t2 s :
  is_remembered env i1 t1 t2 s →
  ∃ s', from_persisted_member i2 t1 t2 (swarm_terminal_member_retention env) (to_persisted_member i1 t1 s) = Some s'
        ∧ comes_back (sm_member s) (sm_member s').
Proof.
  intros Hr. unfold from_persisted_member, to_persisted_member, durable_record. simpl. rewrite lifecycle_text.
  pose proof (recovered_status (m_status (sm_member s)) (m_detail (sm_member s)) (m_is_headless (sm_member s))) as Hst.
  destruct (recover_member_status _ _ _) as [status detail]. simpl in Hst.
  assert (∀ s', sm_member s' = sm_member (from_record i2 (with_status status detail (durable_record s))) ∨
     (∃ t, s' = changed_at t (from_record i2 (with_status status detail (durable_record s)))) → comes_back (sm_member s) (sm_member s')) as Hback.
  { assert (∀ r, role_as_str (role_from r) = r) as Hrole by apply roles_and_states_survive_the_wire.
    intros s' [->|[t ->]]; split; simpl; auto. }
  destruct (member_status_is_terminal (lifecycle_as_str status)); [|by eexists; split; [done|]; apply Hback; left].
  match goal with |- context [(_ <=? ?age)%N] => assert (age < swarm_terminal_member_retention env)%N as Hage end.
  { destruct (member_status_is_terminal (m_status (sm_member s))) eqn:E; simpl; [by apply Hr|].
    pose proof (retention_positive env). rewrite N.sub_diag. done. }
  apply N.leb_gt in Hage. rewrite Hage. eexists. split; [done|]. apply Hback. right. by eexists.
Qed.

(** *** The plan *)

Lemma mark_stale_all t items progress x :
  foldl (mark_stale t) progress items !! x =
    if existsb (λ i, bool_decide (i_id i = x ∧ i_status i = "running")) items then
      let r := default progress_default (progress !! x) in
      Some (set_stale_since (or_keep (p_stale_since_unix_ms r) (Some t)) r)
    else progress !! x.
Proof.
  revert progress. induction items as [|i items IH]; intros progress; simpl; [done|]. rewrite IH. unfold mark_stale.
  destruct (decide (i_status i = "running")) as [Hs|Hs].
  - rewrite (bool_decide_eq_true_2 (i_status i = "running")) by done. destruct (decide (i_id i = x)) as [<-|Hx].
    + rewrite (bool_decide_eq_true_2 (i_id i = i_id i ∧ _)) by done. rewrite lookup_insert_eq. simpl.
      destruct (existsb _ items); [|done]. simpl. by destruct (p_stale_since_unix_ms _).
    + rewrite (bool_decide_eq_false_2 (i_id i = x ∧ _)) by tauto. by rewrite lookup_insert_ne by done.
  - rewrite (bool_decide_eq_false_2 (i_status i = "running")) by done.
    by rewrite (bool_decide_eq_false_2 (i_id i = x ∧ _)) by tauto.
Qed.

Lemma stale_item_id i : i_id (stale_item i) = i_id i.
Proof. unfold stale_item. by case_bool_decide. Qed.

Lemma item_ids_stale items : item_ids (map stale_item items) = item_ids items.
Proof. unfold item_ids. rewrite map_map. f_equal. apply map_ext, stale_item_id. Qed.

Lemma plan_survives_restart p t : prune_side_maps p = p → plan_comes_back t p (from_persisted_plan (to_persisted_plan p) t).
Proof.
  intros Hprune. unfold from_persisted_plan, prune_side_maps. simpl.
  rewrite item_ids_stale. pose proof (f_equal v_task_progress Hprune) as Hpr. pose proof (f_equal v_node_meta Hprune) as Hme.
  simpl in Hpr, Hme. split; simpl; [done|done| |done|done|].
  - apply set_eq. intros x. rewrite elem_of_list_to_set, merge_sort_Permutation. apply elem_of_elements.
  - intros x. destruct (decide (x ∈ item_ids (v_items p))) as [Hin|Hin].
    + rewrite map_lookup_filter, mark_stale_all. unfold progress_entry.
      destruct (existsb _ _); simpl; [by rewrite option_guard_True|].
      destruct (v_task_progress p !! x); simpl; [by rewrite option_guard_True|done].
    + assert (existsb (λ i, bool_decide (i_id i = x ∧ i_status i = "running")) (v_items p) = false) as ->.
      { apply not_true_is_false. intros H. apply existsb_exists in H as (i & Hi & H%bool_decide_eq_true). apply Hin.
        destruct H as [<- _]. unfold item_ids. apply elem_of_list_to_set, list_elem_of_In, in_map, Hi. }
      rewrite map_lookup_filter_None_2; [|right; by intros].
      symmetry. rewrite <-Hpr. apply map_lookup_filter_None_2. right. by intros.
Qed.

(** A plan that is worked on, or was written not long ago. *)
Definition is_kept (env : string → option string) (t1 t2 : N) (p : VersionedPlan) : Prop :=
  v_items p ≠ [] ∧
  ((t2 - t1 < dormant_plan_retention env)%N
   ∨ ∃ i, i ∈ v_items p ∧ (is_Some (i_assigned_to i) ∨ is_active_status (i_status i) = true)).

Lemma kept_not_expired env t1 t2 p :
  is_kept env t1 t2 p → persisted_plan_is_expired (to_persisted_plan p) t1 t2 (dormant_plan_retention env) = false.
Proof.
  intros [Hne H]. unfold persisted_plan_is_expired, persisted_plan_is_dormant. simpl.
  destruct (v_items p) as [|i0 items] eqn:Hi; [done|]. rewrite <-Hi in *. assert (is_nil (v_items p) = false) as -> by by rewrite Hi.
  simpl. destruct H as [H|(i & Hin & H)]; [apply andb_false_iff; right; by apply N.leb_gt|].
  apply andb_false_iff. left. apply not_true_is_false. intros Hall. rewrite forallb_elem in Hall. specialize (Hall i Hin).
  apply andb_true_iff in Hall as [Ha%bool_decide_eq_true Hb]. destruct H as [[x Hx]|H]; [congruence|by rewrite H in Hb].
Qed.

(** *** The members *)

Definition sid_of (pm : PersistedSwarmMember) : string := mr_session_id (pm_record pm).

Section load.
Context (env : string → option string) (i2 t2 : N).
Abbreviation from_persisted t1 := (from_persisted_member i2 t1 t2 (swarm_terminal_member_retention env)).

(** Members of one swarm of which none is due: each is loaded, and nothing is left out. *)
Lemma load_members id t1 pms l :
  Forall (λ pm, mr_swarm_id (pm_record pm) = Some id ∧ is_Some (from_persisted t1 pm)) pms → NoDup (map sid_of pms) →
  let l' := foldl (load_member env i2 t2 t1) l pms in
  (∀ pm, pm ∈ pms → l_members (lo_state l') !! sid_of pm = from_persisted t1 pm)
  ∧ (∀ x, x ∉ map sid_of pms → l_members (lo_state l') !! x = l_members (lo_state l) !! x)
  ∧ l_plans (lo_state l') = l_plans (lo_state l) ∧ l_coordinators (lo_state l') = l_coordinators (lo_state l)
  ∧ default ∅ (l_swarms_by_id (lo_state l') !! id) = list_to_set (map sid_of pms) ∪ default ∅ (l_swarms_by_id (lo_state l) !! id)
  ∧ lo_pruned_members l' = lo_pruned_members l ∧ lo_pruned_plans l' = lo_pruned_plans l.
Proof.
  revert l. induction pms as [|pm pms IH]; intros l Hall Hnd.
  { simpl. split_and!; try done; [by intros ? ?%elem_of_nil|set_solver]. }
  apply Forall_cons in Hall as [[Hw [m Hm]] Hall]. apply NoDup_cons in Hnd as [Hni Hnd].
  simpl. set (l1 := load_member env i2 t2 t1 l pm).
  assert (lo_state l1 = {| l_plans := l_plans (lo_state l); l_coordinators := l_coordinators (lo_state l);
            l_members := <[sid_of pm := m]> (l_members (lo_state l));
            l_swarms_by_id := add_to (l_swarms_by_id (lo_state l)) id (sid_of pm) |}
          ∧ lo_pruned_members l1 = lo_pruned_members l ∧ lo_pruned_plans l1 = lo_pruned_plans l) as (E1 & E2 & E3).
  { unfold l1, load_member. rewrite Hw, Hm. done. }
  destruct (IH l1 Hall Hnd) as (H1 & H2 & H3 & H4 & H5 & H6 & H7). rewrite E1 in H2, H3, H4, H5. simpl in H2, H3, H4, H5.
  rewrite E2 in H6. rewrite E3 in H7. split_and!; [| |done|done| |done|done].
  - intros pm' [->|Hin]%elem_of_cons; [|by apply H1]. by rewrite H2, lookup_insert_eq.
  - intros x Hx. apply not_elem_of_cons in Hx as [Hx1 Hx2]. by rewrite H2, lookup_insert_ne.
  - rewrite H5. unfold add_to. rewrite lookup_insert_eq. simpl. set_solver.
Qed.

Lemma extension_state id : extension (state_path id) ≠ Some "bak".
Proof.
  unfold extension, split_dir, SwarmStore.state_path. set (st := sanitize_session_id id).
  assert (contains_chr "/" (st +:+ ".json") = false) as Hslash
    by (rewrite contains_app; apply orb_false_iff; split; [by apply sanitized_without|done]).
  change ("/" +:+ ?x) with (String "/" x). rewrite split_last_app by done. unfold split_extension. simpl.
  change ".json" with (String "." "json"). rewrite split_last_app by done. by destruct (is_empty st).
Qed.

(** *** The other snapshots of the directory *)

(** The loaded tables are the same as far as the swarm and these sessions go. *)
Record agrees (id : string) (sessions : list string) (l l' : Loading) : Prop := {
  agrees_plan : l_plans (lo_state l') !! id = l_plans (lo_state l) !! id;
  agrees_coordinator : l_coordinators (lo_state l') !! id = l_coordinators (lo_state l) !! id;
  agrees_swarm : l_swarms_by_id (lo_state l') !! id = l_swarms_by_id (lo_state l) !! id;
  agrees_pruned : lo_pruned_members l' !! id = lo_pruned_members l !! id;
  agrees_members x : x ∈ sessions → l_members (lo_state l') !! x = l_members (lo_state l) !! x;
}.

#[export] Instance agrees_preorder id sessions : PreOrder (agrees id sessions).
Proof.
  split; [by intros l|]. intros l1 l2 l3 [] []. split; try congruence. intros x Hx.
  by rewrite agrees_members1, agrees_members0.
Qed.

(** A snapshot of another swarm, with none of these sessions. *)
Definition of_others (id : string) (sessions : list string) (st : PersistedSwarmState) : Prop :=
  ps_swarm_id st ≠ id
  ∧ Forall (λ pm, mr_swarm_id (pm_record pm) ≠ Some id ∧ sid_of pm ∉ sessions) (ps_members st).

Lemma load_member_of_others id sessions t1 l pm :
  mr_swarm_id (pm_record pm) ≠ Some id → sid_of pm ∉ sessions → agrees id sessions l (load_member env i2 t2 t1 l pm).
Proof.
  intros Hw Hs. unfold load_member. destruct (mr_swarm_id (pm_record pm)) as [v|]; [|done]. assert (v ≠ id) as Hne by congruence.
  destruct (from_persisted_member _ _ _ _ _) as [m|]; split; simpl; unfold add_to; rewrite ?lookup_insert_ne by done; try done.
  intros x Hx. rewrite lookup_insert_ne; [done|]. intros E. apply Hs. by subst x.
Qed.

Lemma load_snapshot_of_others id sessions st l :
  of_others id sessions st → agrees id sessions l (load_snapshot env i2 t2 st l).
Proof.
  intros [Hid Hms]. unfold load_snapshot. cbv zeta.
  set (l1 := match ps_plan st with Some _ => _ | None => _ end).
  set (l2 := match ps_coordinator_session_id st with Some _ => _ | None => _ end).
  assert (agrees id sessions l l1) as H1.
  { subst l1. destruct (ps_plan st); [|done]. unfold load_plan. destruct (persisted_plan_is_expired _ _ _ _); split; simpl; try done.
    by rewrite lookup_insert_ne. }
  assert (agrees id sessions l1 l2) as H2.
  { subst l2. destruct (ps_coordinator_session_id st); [|done]. split; simpl; try done. by rewrite lookup_insert_ne. }
  etrans; [exact H1|]. etrans; [exact H2|]. clearbody l2. clear H1 H2 l1. revert l2.
  induction Hms as [|pm pms [Hw Hs] _ IH]; intros l2; [done|]. simpl.
  etrans; [by apply load_member_of_others|apply IH].
Qed.

(** The file is skipped as a backup whose primary is there, or it holds a snapshot of others, or
    it can neither be read nor be restored from its backup. *)
Definition is_foreign (id : string) (sessions : list string) (d : Disk) (path : string) : Prop :=
  (extension path = Some "bak" ∧ is_Some (d_files d !! with_extension "json" path))
  ∨ ∀ t, d_files d !! path = Some t →
      match parse t with
      | Some st => of_others id sessions st
      | None => d_files d !! with_extension "bak" path ≫= parse = None
      end.

Lemma load_entry_foreign id sessions l path d :
  healthy d → is_foreign id sessions d path →
  ∃ l', load_entry parse env i2 t2 l path d = (Ok l', d) ∧ agrees id sessions l l'.
Proof.
  intros Hh Hf. unfold load_entry, is_shadowed, io_bind, exists_file, io_ret.
  destruct (d_files d !! path) as [t|] eqn:E; [|by exists l]. rewrite (bool_decide_eq_true_2 (is_Some (Some t))) by done. cbn [negb orb].
  destruct (bool_decide (extension path = Some "bak") && _) eqn:Es; [by exists l|].
  destruct Hf as [[H1 H2]|Hf]; [by rewrite !bool_decide_eq_true_2 in Es by done|]. specialize (Hf t E).
  assert (∃ r, read_json parse path d = (r, d) ∧ ∀ st, r = Ok st → of_others id sessions st) as (r & Hr & Hst).
  { unfold read_json, io_bind. rewrite read_file_healthy, E by done. destruct (parse t) as [st|].
    { eexists. split; [done|]. by intros st' [= <-]. }
    unfold exists_file. cbv beta iota.
    destruct (bool_decide (is_Some (d_files d !! with_extension "bak" path))); [|by eexists; split; [reflexivity|]].
    rewrite read_file_healthy by done. destruct (d_files d !! with_extension "bak" path) as [t'|]; [|by eexists; split; [done|]].
    simpl in Hf. rewrite Hf. by eexists; split; [done|]. }
  unfold io_try. rewrite Hr. destruct r as [st|e]; [|by exists l]. eexists. split; [done|].
  apply load_snapshot_of_others. by apply Hst.
Qed.

Lemma load_entries_foreign id sessions l paths d :
  healthy d → Forall (is_foreign id sessions d) paths →
  ∃ l', load_entries parse env i2 t2 l paths d = (Ok l', d) ∧ agrees id sessions l l'.
Proof.
  intros Hh Hf. revert l. induction Hf as [|path paths Hp _ IH]; intros l; [by exists l|].
  destruct (load_entry_foreign id sessions l path d Hh Hp) as (l1 & Hl1 & Ha1). destruct (IH l1) as (l2 & Hl2 & Ha2).
  exists l2. simpl. unfold io_bind. rewrite Hl1. split; [exact Hl2|by etrans].
Qed.

Lemma load_entries_app l paths paths' d :
  load_entries parse env i2 t2 l (paths ++ paths') d =
    io_bind (load_entries parse env i2 t2 l paths) (λ l', load_entries parse env i2 t2 l' paths') d.
Proof.
  revert l d. induction paths as [|path paths IH]; intros l d; [done|]. simpl. unfold io_bind.
  destruct (load_entry _ _ _ _ l path d) as [[l1|e] d1]; [|done]. apply IH.
Qed.

(** Writing a snapshot does not fail, whatever the disk does. *)
Lemma persist_never_fails now instant nonce id plan coordinator members d :
  ∃ d', persist_swarm_state now instant nonce id plan coordinator members d = (Ok tt, d').
Proof.
  assert (∀ d, ∃ d', write_snapshot now instant nonce id plan coordinator members d = (Ok tt, d')) as Hw.
  { intros d0. unfold SwarmStore.write_snapshot, io_bind, io_try. destruct (write_json_fast _ _ _ _ d0) as [r d1]. by eexists. }
  assert (∀ path d, ∃ r d', remove_file path d = (Ok r, d')) as Hr.
  { intros path d0. unfold remove_file. destruct (d_files d0 !! path); [|by eexists _, _].
    destruct (next_fault d0) as [[] ?]; by eexists _, _. }
  unfold SwarmStore.persist_swarm_state. destruct plan as [p|].
  - unfold io_bind, io_try. destruct (read_json _ _ d) as [r d1]. destruct (is_newer r p); [by eexists|apply Hw].
  - destruct coordinator; [apply Hw|]. destruct members; [|apply Hw]. unfold remove_snapshot_files, io_bind, io_try.
    destruct (write_json_fast _ _ _ _ d) as [[u|e] d1]; [|by eexists].
    destruct (Hr (with_extension "bak" (state_path id)) d1) as (r2 & d2 & ->). destruct (Hr (state_path id) d2) as (r3 & d3 & ->).
    by eexists.
Qed.

Lemma rewrite_never_fails nonce s swarms d :
  ∃ d', rewrite_snapshots to_json parse dir i2 t2 nonce s swarms d = (Ok tt, d').
Proof.
  revert d. induction swarms as [|w swarms IH]; intros d; simpl; [by eexists|]. unfold io_bind.
  destruct (persist_never_fails t2 i2 nonce w (l_plans s !! w) (l_coordinators s !! w) (retained_members w s) d) as [d1 ->]. apply IH.
Qed.

(** A directory with the snapshot of the swarm, among others. *)
Lemma load_among id sessions st d nonce before legacy paths paths' :
  healthy d → d_files d !! state_path id ≫= parse = Some st → existsb is_json before = true →
  Forall (is_foreign id sessions d) (paths ++ paths') →
  ∃ l l' d', agrees id sessions nothing_loaded l ∧ agrees id sessions (load_snapshot env i2 t2 st l) l'
    ∧ load_runtime_state to_json parse dir env i2 t2 nonce before legacy (paths ++ state_path id :: paths') d = (Ok (drop_pruned l'), d').
Proof.
  intros Hh Hst Hmig [Hf Hf']%Forall_app. destruct (d_files d !! state_path id) as [t|] eqn:E; [|done]. simpl in Hst.
  destruct (load_entries_foreign id sessions nothing_loaded paths d Hh Hf) as (l & Hl & Ha).
  assert (load_entry parse env i2 t2 l (state_path id) d = (Ok (load_snapshot env i2 t2 st l), d)) as Hent.
  { unfold load_entry, io_bind, exists_file, is_shadowed, io_bind, exists_file, io_ret, io_try, read_json, io_bind, read_file,
      io_bind, sys_get. rewrite E, (bool_decide_eq_false_2 (extension _ = _)) by apply extension_state.
    rewrite bool_decide_eq_true_2 by done. simpl. rewrite next_fault_healthy by done. rewrite E. simpl. by rewrite Hst. }
  destruct (load_entries_foreign id sessions (load_snapshot env i2 t2 st l) paths' d Hh Hf') as (l' & Hl' & Ha').
  assert (load_entries parse env i2 t2 nothing_loaded (paths ++ state_path id :: paths') d = (Ok l', d)) as Hall.
  { rewrite load_entries_app. unfold io_bind. rewrite Hl. simpl. unfold io_bind. by rewrite Hent. }
  destruct (rewrite_never_fails nonce (drop_pruned l') (elements (dom (lo_pruned_members l') ∪ lo_pruned_plans l')) d) as [d' Hrw].
  exists l, l', d'. split; [done|]. split; [done|].
  unfold load_runtime_state, migrate_legacy_state, io_bind. rewrite Hmig. unfold io_ret at 1. rewrite Hall, Hrw. done.
Qed.

(** Its snapshot gives the swarm all that was written. *)
Lemma load_own id t1 i1 p coordinator ms l :
  is_kept env t1 t2 p → NoDup (map (λ s, m_session_id (sm_member s)) ms) →
  Forall (λ s, m_swarm_id (sm_member s) = Some id ∧ is_remembered env i1 t1 t2 s) ms →
  agrees id (map (λ s, m_session_id (sm_member s)) ms) nothing_loaded l →
  let l' := load_snapshot env i2 t2 (snapshot t1 i1 id (Some p) coordinator ms) l in
  l_plans (lo_state l') !! id = Some (from_persisted_plan (to_persisted_plan p) t1)
  ∧ l_coordinators (lo_state l') !! id = coordinator
  ∧ default ∅ (l_swarms_by_id (lo_state l') !! id) = list_to_set (map (λ s, m_session_id (sm_member s)) ms)
  ∧ lo_pruned_members l' !! id = None
  ∧ Forall (λ m, ∃ m', l_members (lo_state l') !! m_session_id (sm_member m) = Some m' ∧ comes_back (sm_member m) (sm_member m')) ms.
Proof.
  intros Hkept Hnd Hms [A1 A2 A3 A4 A5] l'. simpl in A1, A2, A3, A4. rewrite lookup_empty in A3. rewrite lookup_empty in A4.
  set (st := snapshot t1 i1 id (Some p) coordinator ms) in *.
  set (l0 := match coordinator with
             | Some c => load_coordinator id c (load_plan env t2 id t1 (to_persisted_plan p) l)
             | None => load_plan env t2 id t1 (to_persisted_plan p) l
             end).
  assert (l' = foldl (load_member env i2 t2 t1) l0 (ps_members st)) as Hload by by destruct coordinator.
  assert (l_plans (lo_state l0) !! id = Some (from_persisted_plan (to_persisted_plan p) t1)
    ∧ l_coordinators (lo_state l0) !! id = coordinator ∧ l_swarms_by_id (lo_state l0) = l_swarms_by_id (lo_state l)
    ∧ lo_pruned_members l0 = lo_pruned_members l) as (E1 & E2 & E3 & E4).
  { subst l0. unfold load_plan. rewrite kept_not_expired by done.
    destruct coordinator; simpl; rewrite ?lookup_insert_eq; split_and!; done. }
  assert (map sid_of (ps_members st) ≡ₚ map (λ s, m_session_id (sm_member s)) ms) as Hids.
  { unfold st, snapshot. simpl. rewrite merge_sort_Permutation, map_map. done. }
  assert (∀ pm, pm ∈ ps_members st ↔ ∃ m, m ∈ ms ∧ pm = to_persisted_member i1 t1 m) as Hin.
  { intros pm. unfold st, snapshot. simpl. rewrite merge_sort_Permutation, list_elem_of_fmap. naive_solver. }
  destruct (load_members id t1 (ps_members st) l0) as (H1 & _ & H3 & H4 & H5 & H6 & _).
  { apply Forall_forall. intros pm (m & Hm & ->)%Hin. rewrite Forall_forall in Hms. destruct (Hms m Hm) as [Hw Hr].
    split; [exact Hw|]. destruct (from_persisted_comes_back env i1 i2 t1 t2 m Hr) as (s' & -> & _). by eexists. }
  { by rewrite Hids. }
  rewrite <-Hload in *. rewrite H3, H4, H5, H6, E3, E4, A3, A4. split_and!; [done|done| |done|].
  - simpl. apply set_eq. intros x. rewrite elem_of_union, !elem_of_list_to_set.
    rewrite (elem_of_Permutation_proper x _ _ Hids : x ∈ map sid_of (merge_sort _ _) ↔ _). set_solver.
  - apply Forall_forall. intros m Hm. rewrite Forall_forall in Hms. destruct (Hms m Hm) as [_ Hr].
    destruct (from_persisted_comes_back env i1 i2 t1 t2 m Hr) as (s' & Hs' & Hb). exists s'. split; [|exact Hb].
    rewrite <-Hs'. apply (H1 (to_persisted_member i1 t1 m)), Hin. by exists m.
Qed.
End load.

(** C36 (roundtrip). A swarm that was written comes back after a restart.  A plan with items, a
    coordinator and the members of a swarm are written on a disk that works, over no newer
    snapshot; later the server starts from this directory, which lists the file of the swarm
    once, and in which every other file is a backup whose primary is there, can neither be
    read nor restored, or holds other swarms and sessions; some json file is there when the
    start decides about migration.  Then the plan is the same, with what ran marked as stale;
    the coordinator is the same; and the members are those written, each with its names,
    role, owner and report, and nobody running or ready.  (The plan is worked on or not a week
    old and its side tables name items only, no member ended longer ago than members are
    remembered, and the serializer is read back.  Where the conditions on other files fail,
    older plans come back: [a_leftover_temporary_file_is_loaded], [two_swarms_share_a_file].) *)
Theorem a_swarm_comes_back_after_a_restart id t1 i1 n1 p coordinator ms d :
  healthy d → in_order id (d_files d) → (∀ pp, durable_plan id (d_files d) = Some pp → (pp_version pp ≤ v_version p)%N) →
  survives (snapshot t1 i1 id (Some p) coordinator ms) → prune_side_maps p = p →
  NoDup (map (λ s, m_session_id (sm_member s)) ms) →
  ∃ d1, persist_swarm_state t1 i1 n1 id (Some p) coordinator ms d = (Ok tt, d1) ∧ healthy d1
    ∧ ∀ env t2 i2 n2 d2 before legacy paths paths',
        healthy d2 → d_files d2 !! state_path id = d_files d1 !! state_path id → existsb is_json before = true →
        Forall (is_foreign id (map (λ s, m_session_id (sm_member s)) ms) d2) (paths ++ paths') →
        is_kept env t1 t2 p → Forall (λ s, m_swarm_id (sm_member s) = Some id ∧ is_remembered env i1 t1 t2 s) ms →
        ∃ s d', load_runtime_state to_json parse dir env i2 t2 n2 before legacy (paths ++ state_path id :: paths') d2 = (Ok s, d')
          ∧ (∃ p', l_plans s !! id = Some p' ∧ plan_comes_back t1 p p')
          ∧ l_coordinators s !! id = coordinator
          ∧ default ∅ (l_swarms_by_id s !! id) = list_to_set (map (λ s, m_session_id (sm_member s)) ms)
          ∧ Forall (λ m, ∃ m', l_members s !! m_session_id (sm_member m) = Some m' ∧ comes_back (sm_member m) (sm_member m')) ms.
Proof.
  intros Hh Ho Hold Hsv Hprune Hnd. set (w := {| pw_now := t1; pw_instant := i1; pw_nonce := n1; pw_plan := p;
    pw_coordinator := coordinator; pw_members := ms |}).
  destruct (persist_plan_healthy id w d Hh Ho Hsv) as (d1 & Hd1 & Hh1 & _ & [[_ (pp & Hpp & Hlt)]|[Hst _]]).
  { specialize (Hold pp Hpp). simpl in Hlt. lia. }
  exists d1. split; [exact Hd1|]. split; [done|]. intros env t2 i2 n2 d2 before legacy paths paths' Hh2 Hsame Hb Hf Hkept Hms.
  unfold snapshot_of in Hst. simpl in Hst. rewrite <-Hsame in Hst.
  destruct (load_among env i2 t2 id _ _ d2 n2 before legacy paths paths' Hh2 Hst Hb Hf) as (l & l' & d' & Ha & Ha' & Hload).
  destruct (load_own env i2 t2 id t1 i1 p coordinator ms l Hkept Hnd Hms Ha) as (H1 & H2 & H3 & H4 & H5).
  destruct Ha' as [A1 A2 A3 A4 A5]. eexists _, d'. split; [exact Hload|]. unfold drop_pruned. simpl. split_and!.
  - rewrite map_lookup_imap, A1, H1. simpl. eexists. split; [reflexivity|]. rewrite A4, H4. simpl.
    destruct (plan_survives_restart p t1 Hprune). split; simpl; try done. set_solver.
  - rewrite map_lookup_filter, A2, H2. destruct coordinator as [c|]; [|done]. simpl. rewrite A4, H4. simpl.
    by rewrite option_guard_True by set_solver.
  - by rewrite A3, H3.
  - apply Forall_forall. intros m Hm. rewrite Forall_forall in H5. rewrite A5; [by apply H5|].
    apply list_elem_of_fmap. by exists m.
Qed.
End store.

(** ** The theorems at work *)

Definition stored (id : string) (status : string) : StoredMember := {|
  sm_member := {|
    m_session_id := id; m_swarm_id := Some "w"; m_status := status; m_detail := None; m_task_label := None;
    m_friendly_name := None; m_report_back_to := Some "alice"; m_latest_completion_report := None; m_role := "agent";
    m_joined_at := 0; m_last_status_change := 0; m_is_headless := true; m_output_tail := None; m_elapsed_secs := None |};
  sm_working_dir := None; sm_swarm_enabled := true |}.

Definition running_item : PlanItem := {|
  i_content := "do it"; i_status := "running"; i_priority := "high"; i_id := "t"; i_subsystem := None; i_file_scope := [];
  i_blocked_by := []; i_assigned_to := Some "bob" |}.

Definition plan_of_version (v : N) : VersionedPlan := {|
  v_items := [running_item]; v_version := v; v_participants := {["alice"]}; v_task_progress := ∅; v_mode := "light"; v_node_meta := ∅ |}.

Definition write_of (v : N) (nonce : string) : PlanWrite := {|
  pw_now := 100; pw_instant := 50; pw_nonce := nonce; pw_plan := plan_of_version v; pw_coordinator := Some "alice";
  pw_members := [stored "bob" "running"; stored "carol" "completed"] |}.

Definition state_of (v : N) : PersistedSwarmState := snapshot_of "w" (write_of v "n").

(** A serializer for these states: it writes the version. *)
Definition tiny_json (s : PersistedSwarmState) : result string string :=
  match ps_plan s with Some pp => Ok (pretty (pp_version pp)) | None => Ok "none" end.

Definition tiny_parse (t : string) : option PersistedSwarmState :=
  if bool_decide (t = "1") then Some (state_of 1)
  else if bool_decide (t = "2") then Some (state_of 2)
  else if bool_decide (t = "none") then Some (tombstone 200 "w")
  else None.

Definition disk_with (files : Files) (faults : list Fault) : Disk := {| d_files := files; d_faults := faults; d_trace := [] |}.

Definition path_w : string := state_path "/s" "w".

(** The second write stops after the first byte of the temporary file. *)
Definition torn : Disk := disk_with {[path_w := "1"]} [Works; Works; Works; FailsAfter 1].

Lemma a_cut_short_write_leaves_the_old_or_the_new_snapshot_witness :
  let d' := (persist_plan tiny_json tiny_parse "/s" "w" (write_of 2 "n") torn).2 in
  finds tiny_parse path_w (d_files d') = finds tiny_parse path_w (d_files torn)
  ∨ finds tiny_parse path_w (d_files d') = Some (state_of 2).
Proof.
  destruct (a_cut_short_write_leaves_the_old_or_the_new_snapshot tiny_json tiny_parse "/s" 100 50 "n" "w" (Some (plan_of_version 2))
    (Some "alice") [stored "bob" "running"; stored "carol" "completed"] "2" torn) as (seen & _ & H).
  - intros t. vm_compute. intros [= <-]. by eexists.
  - by vm_compute.
  - by vm_compute.
  - by intros (H & _).
  - apply H. left.
Defined.

Lemma a_plan_on_disk_never_goes_back_witness :
  ∃ d', persist_plans tiny_json tiny_parse "/s" "w" [write_of 2 "n"; write_of 1 "m"] (disk_with ∅ []) = (Ok tt, d')
        ∧ (2 ≤ durable_version tiny_parse "/s" "w" (d_files d'))%N.
Proof.
  destruct (a_plan_on_disk_never_goes_back tiny_json tiny_parse "/s" "w" [write_of 2 "n"; write_of 1 "m"] (disk_with ∅ []))
    as (d' & Hd & _ & H & _).
  - done.
  - by intros t.
  - repeat constructor; eexists; split; vm_compute; reflexivity.
  - exists d'. split; [exact Hd|]. by apply Forall_cons in H as [H _].
Defined.

(** The swarm of another directory. *)
Definition path_v : string := state_path "/s" "v".

Definition two_parse (t : string) : option PersistedSwarmState := if bool_decide (t = "v") then Some (tombstone 200 "v") else tiny_parse t.

Definition backup_w : string := with_extension "bak" path_w.

(** The second plan was written over the first. *)
Definition rewritten : Disk := (persist_plan tiny_json two_parse "/s" "w" (write_of 2 "n") (disk_with {[path_w := "1"; path_v := "v"]} [])).2.

Lemma a_swarm_comes_back_after_a_restart_witness :
  ∃ s d', load_runtime_state tiny_json two_parse "/s" (λ _, None) 20 5000 "m" [path_w] [] [path_v; path_w; backup_w] rewritten = (Ok s, d')
    ∧ (∃ m, l_members s !! "bob" = Some m ∧ m_status (sm_member m) = "crashed") ∧ l_coordinators s !! "w" = Some "alice".
Proof.
  destruct (a_swarm_comes_back_after_a_restart tiny_json two_parse "/s" "w" 100 50 "n" (plan_of_version 2)
    (Some "alice") [stored "bob" "running"; stored "carol" "completed"] (disk_with {[path_w := "1"; path_v := "v"]} []))
    as (d1 & Hd1 & Hh1 & H).
  - done.
  - intros t. vm_compute. intros [= <-]. by eexists.
  - intros pp Hpp. vm_compute in Hpp. injection Hpp as <-. vm_compute. congruence.
  - eexists; split; vm_compute; reflexivity.
  - vm_compute. reflexivity.
  - apply (bool_decide_unpack _). vm_compute. exact I.
  - pose proof (f_equal snd Hd1) as E. change (rewritten = d1) in E. subst d1.
    destruct (H (λ _, None) 5000%N 20%N "m" rewritten [path_w] [] [path_v] [backup_w]) as (s & d' & Hs & _ & Hc & _ & Hm).
    + exact Hh1.
    + done.
    + vm_compute. reflexivity.
    + constructor; [|constructor; [|constructor]].
      * right. intros t Ht. vm_compute in Ht. injection Ht as <-. split; [by vm_compute|constructor].
      * left. split; [by vm_compute|]. apply (bool_decide_unpack _). vm_compute. exact I.
    + split; [done|]. right. exists running_item. split; [left|]. left. by eexists.
    + repeat constructor; simpl; intros E; vm_compute in E |- *; congruence.
    + exists s, d'. split; [exact Hs|]. split; [|exact Hc]. apply Forall_cons in Hm as [(m & H1 & H2) _]. exists m.
      split; [exact H1|]. rewrite (back_status _ _ H2). reflexivity.
Defined.

(** ** What is not so *)

(** Two directories whose names differ in a character that file names leave out have one
    snapshot: writing the one overwrites the other. *)
Example two_swarms_share_a_file : state_path "/s" "/home/u/a_b" = state_path "/s" "/home/u/a/b".
Proof. by vm_compute. Qed.

(** The server stops between the filling of the temporary file and its renaming, and later
    writes a newer plan: the next start reads the temporary file too, and takes the older
    plan when the directory lists it last. *)
Definition tmp_w : string := with_extension "tmp.7.7" path_w.

Example a_leftover_temporary_file_is_loaded :
  let after_crash := disk_with {[tmp_w := "1"]} [] in
  let d := (persist_plan tiny_json tiny_parse "/s" "w" (write_of 2 "n") after_crash).2 in
  let load entries := (load_runtime_state tiny_json tiny_parse "/s" (λ _, None) 20 5000 "m" [] [] entries d).1 in
  match load [tmp_w; path_w], load [path_w; tmp_w] with
  | Ok s, Ok s' => v_version <$> l_plans s !! "w" = Some 2%N ∧ v_version <$> l_plans s' !! "w" = Some 1%N
  | _, _ => False
  end.
Proof. by vm_compute. Qed.

(** The backup cannot be removed and the snapshot can: the removed swarm is back. *)
Example a_failed_removal_brings_the_swarm_back :
  let d := disk_with {[path_w := "1"]} [Works; Works; Works; Works; Works; FailsAfter 0] in
  let r := remove_snapshot_files tiny_json "/s" 200 "n" "w" d in
  r.1 = Ok false ∧ finds tiny_parse path_w (d_files r.2) = Some (state_of 1).
Proof. by vm_compute. Qed.
