(* ===== verification/CommFormat.v ===== *)
(** * What tools print about a swarm

    crates/jcode-protocol/src/comm_format.rs: the default statuses of a wait and of a
    cleanup, the workers that a cleanup stops, the names of members, the target of a
    request that names none, and the texts of awaited members, channels, shared context and
    the follow-up of a plan.  A slice of a string outside its character boundaries panics:
    the operations that slice return an [option]. *)

From S2P Require Import Prelude RustStr RustText PlanStatus.

(** [AwaitedMemberStatus] of crates/jcode-protocol/src/lib.rs. *)
Record AwaitedMemberStatus := {
  am_session_id : string;
  am_friendly_name : option string;
  am_status : string;
  am_done : bool;
  am_completion_report : option string;
}.

(** The fields of [AgentInfo] that the tools look at. *)
Record AgentInfo := {
  ai_session_id : string;
  ai_status : option string;
  ai_detail : option string;
  ai_is_headless : option bool;
  ai_report_back_to_session_id : option string;
  ai_status_age_secs : option N;
  ai_provider_name : option string;
}.

Definition default_comm_cleanup_target_statuses : list string :=
  ["ready"; "completed"; "failed"; "stopped"; "crashed"].

Definition default_comm_run_await_statuses : list string :=
  ["ready"; "completed"; "failed"; "stopped"; "crashed"].

Definition default_comm_await_target_statuses : list string :=
  ["ready"; "completed"; "stopped"; "failed"; "crashed"].

(** Sorted as [Vec<String>::sort] does; the list may hold a session twice. *)
Definition comm_cleanup_candidate_session_ids (owner_session_id : string) (members : list AgentInfo)
    (target_status requested_session_ids : list string) (force : bool) : list string :=
  merge_sort String.le (map ai_session_id (List.filter (λ m,
    negb (bool_decide (ai_session_id m = owner_session_id))
    && (bool_decide (requested_session_ids = []) || mem (ai_session_id m) requested_session_ids)
    && match ai_status m with Some status => mem status target_status | None => false end
    && (force || bool_decide (ai_report_back_to_session_id m = Some owner_session_id))) members)).

(** ** Names *)

(** The names that more than one member has. *)
Definition duplicate_comm_friendly_names (names : list (option string)) : gset string :=
  list_to_set (List.filter (λ name, 1 <? length (List.filter (λ n, bool_decide (n = Some name)) names))
    (omap id names)).

(** [s[from..]]. *)
Definition str_from (from : nat) (s : string) : option string :=
  if is_char_boundary s from then Some (String.substring from (String.length s - from) s) else None.

(** [s[..to]] where [to] is at most the length. *)
Definition str_to (to : nat) (s : string) : option string :=
  if is_char_boundary s to then Some (String.substring 0 to s) else None.

Definition comm_session_display_suffix (session_id : string) : option string :=
  let suffix := List.last (split_chr "_"%char session_id) session_id in
  if 6 <? String.length suffix then str_from (String.length suffix - 6) suffix else Some suffix.

Definition comm_display_friendly_name (friendly_name : option string) (session_id : string)
    (duplicate_names : gset string) : option string :=
  match friendly_name with
  | Some name =>
      if bool_decide (name ∈ duplicate_names)
      then suffix ← comm_session_display_suffix session_id; Some (name +:+ " [" +:+ suffix +:+ "]")
      else Some name
  | None => Some session_id
  end.

(** ** Targets *)

Definition resolve_optional_comm_target_session (target_session : option string) (current_session_id : string) : string :=
  match target_session with
  | Some target => if bool_decide (target = "current") then current_session_id else target
  | None => current_session_id
  end.

(** ** Texts *)

Definition check_mark : string := String "226" (String "156" (String "147" "")).
Definition ballot_x : string := String "226" (String "156" (String "151" "")).
Definition middle_dot : string := String "194" (String "183" "").

Definition format_comm_plan_followup (summary : PlanGraphStatus) : string :=
  join (" " +:+ middle_dot +:+ " ")
    (("active=" +:+ pretty_nat (length (st_active_ids summary)))
     :: (if bool_decide (st_next_ready_ids summary = []) then []
         else ["next=" +:+ join ", " (st_next_ready_ids summary)])
     ++ (if bool_decide (st_newly_ready_ids summary = []) then []
         else ["newly_ready=" +:+ join ", " (st_newly_ready_ids summary)])).

Definition display_name (members : list AwaitedMemberStatus) (m : AwaitedMemberStatus) : option string :=
  comm_display_friendly_name (am_friendly_name m) (am_session_id m)
    (duplicate_comm_friendly_names (map am_friendly_name members)).

Definition headline (completed : bool) (summary : string) (members : list AwaitedMemberStatus) : string :=
  (if completed && forallb am_done members then "All members done. "
   else if completed then "Await satisfied. " else "Await incomplete. ") +:+ summary +:+ newline.

Definition member_line (members : list AwaitedMemberStatus) (m : AwaitedMemberStatus) : option string :=
  name ← display_name members m;
  Some ("  " +:+ (if am_done m then check_mark else ballot_x) +:+ " " +:+ name +:+ " (" +:+ am_status m +:+ ")" +:+ newline).

Definition reported (reports : gmap string string) (m : AwaitedMemberStatus) :
    option (AwaitedMemberStatus * string) :=
  match am_completion_report m with
  | Some report => Some (m, report)
  | None => match reports !! am_session_id m with Some report => Some (m, report) | None => None end
  end.

Definition report_before (l r : AwaitedMemberStatus * string) : bool :=
  bool_decide (String.le (am_session_id l.1) (am_session_id r.1)).

Definition report_lines (members : list AwaitedMemberStatus) (entry : AwaitedMemberStatus * string) : option string :=
  name ← display_name members entry.1;
  Some (newline +:+ "--- " +:+ name +:+ " (" +:+ am_status entry.1 +:+ ") ---" +:+ newline +:+ entry.2 +:+ newline).

(** The members one after the other, then their reports ordered by session. *)
Definition format_comm_awaited_members_with_reports (completed : bool) (summary : string)
    (members : list AwaitedMemberStatus) (reports : gmap string string) : option string :=
  lines ← mapM (member_line members) members;
  let report_members := sort_stable report_before (omap (reported reports) members) in
  bodies ← mapM (report_lines members) report_members;
  Some (headline completed summary members
    +:+ (if bool_decide (members = []) then "" else newline +:+ "Member statuses:" +:+ newline +:+ join "" lines)
    +:+ (if bool_decide (report_members = []) then ""
         else newline +:+ "Completion reports:" +:+ newline +:+ join "" bodies)).
