(* ===== verification/Await.v ===== *)
(** * Waiting for members of a swarm

    crates/jcode-app-core/src/server/comm_await.rs and await_members_state.rs: an agent asks
    to be told when other members have reached a status.  A request waits on its socket or
    is handed to a watcher in the background; requests with one key share one watcher and
    one file of state, which a server that starts again resumes.  Every handler and every
    watcher is an [AwaitTask]; [advance] takes it past its next access to what they share
    (the tables, the runtime, a file, the clock, a channel), and [await_step] is the server,
    in which any task may move and the members, the clients and the clock do what they like. *)

From S2P Require Import MutationState.
From S2P Require Import Prelude RustStr RustText PlanTypes SwarmCore SwarmProgress SwarmMembers PlanStatus CommFormat.

(** ** What is awaited *)

(** The fields of a request or of a persisted state that say what it waits for. *)
Record Wait := {
  wa_session_id : string;
  wa_swarm_id : string;
  wa_requested_ids : list string;
  wa_target_status : list string;
  wa_mode : option string;
}.

(** The sessions to watch: those asked for, or the others of the swarm in order. *)
Definition watch_ids (w : Wait) (swarms : gmap string (gset string)) : list string :=
  match wa_requested_ids w with
  | [] => sorted_ids (default ∅ (swarms !! wa_swarm_id w) ∖ {[wa_session_id w]})
  | _ => wa_requested_ids w
  end.

Definition counts_as_done (target_status : list string) (status : string) : bool :=
  mem status target_status
  || (bool_decide (status = "unknown") && (mem "stopped" target_status || mem "completed" target_status)).

Definition awaited_member_status (w : Wait) (members : Members) (session_id : string) : AwaitedMemberStatus :=
  let '(name, status, report) :=
    match members !! session_id with
    | Some m => (m_friendly_name m, m_status m, m_latest_completion_report m)
    | None => (None, "unknown", None)
    end in
  {| am_session_id := session_id; am_friendly_name := name; am_status := status;
     am_done := counts_as_done (wa_target_status w) status; am_completion_report := report |}.

Definition awaited_member_statuses (w : Wait) (members : Members) (ids : list string) : list AwaitedMemberStatus :=
  map (awaited_member_status w members) ids.

Definition completion_mode (mode : option string) : string :=
  match mode with
  | Some m => if bool_decide (m = "any") then "any" else "all"
  | None => "all"
  end.

Definition mode_satisfied (member_statuses : list AwaitedMemberStatus) (mode : option string) : bool :=
  if bool_decide (completion_mode mode = "any") then existsb am_done member_statuses
  else forallb am_done member_statuses.

(** ** Summaries: [None] is a panic *)

Definition short_member_name (m : AwaitedMemberStatus) : option string :=
  match am_friendly_name m with
  | Some name => Some name
  | None => str_to (Nat.min 8 (String.length (am_session_id m))) (am_session_id m)
  end.

Definition pending_members (member_statuses : list AwaitedMemberStatus) : list AwaitedMemberStatus :=
  List.filter (λ m, negb (am_done m)) member_statuses.

Definition timeout_summary (member_statuses : list AwaitedMemberStatus) : option string :=
  pending ← mapM (λ m, name ← short_member_name m; Some (name +:+ " (" +:+ am_status m +:+ ")"))
    (pending_members member_statuses);
  Some ("Timed out. Still waiting on: " +:+ join ", " pending).

Definition completion_summary (member_statuses : list AwaitedMemberStatus) : option string :=
  done_names ← mapM short_member_name member_statuses;
  Some ("All " +:+ pretty_nat (length done_names) +:+ " members are done: " +:+ join ", " done_names).

Definition mode_summary (member_statuses : list AwaitedMemberStatus) (mode : option string) : option string :=
  if bool_decide (completion_mode mode = "any") then
    matching ← mapM short_member_name (List.filter am_done member_statuses);
    Some ("Matched " +:+ pretty_nat (length matching) +:+ " member" +:+ (if length matching =? 1 then "" else "s")
          +:+ ": " +:+ join ", " matching)
  else completion_summary member_statuses.

Definition no_members_summary : string := "No other members in swarm to wait for.".

Definition background_started_summary (member_statuses : list AwaitedMemberStatus) (mode : option string)
    (wake : bool) : option string :=
  pending ← mapM short_member_name (pending_members member_statuses);
  let scope := if bool_decide (completion_mode mode = "any") then "any of" else "all of" in
  let delivery := if wake then "You'll be woken with the result when it resolves."
                  else "A notification will appear when it resolves." in
  Some (if bool_decide (pending = []) then "Watching swarm members in the background. " +:+ delivery
        else "Watching " +:+ scope +:+ " " +:+ join ", " pending +:+ " in the background. " +:+ delivery).

Definition bee : string := String "240" (String "159" (String "144" (String "157" ""))).

Definition background_completion_notification (completed : bool) (summary : string)
    (members : list AwaitedMemberStatus) : option string :=
  body ← format_comm_awaited_members_with_reports completed summary members ∅;
  Some (bee +:+ " **Swarm await finished**" +:+ newline +:+ newline +:+ body).

(** ** Persisted states *)

Record PersistedAwaitMembersResult := {
  pr_completed : bool;
  pr_members : list AwaitedMemberStatus;
  pr_summary : string;
  pr_resolved_at_unix_ms : N;
}.

Record PersistedAwaitMembersState := {
  pa_key : string;
  pa_wait : Wait;
  pa_created_at_unix_ms : N;
  pa_deadline_unix_ms : N;
  pa_background : bool;
  pa_notify : bool;
  pa_wake : bool;
  pa_final_response : option PersistedAwaitMembersResult;
}.

Definition is_pending (st : PersistedAwaitMembersState) : bool :=
  bool_decide (pa_final_response st = None).

Definition remaining_timeout (now : N) (st : PersistedAwaitMembersState) : N := (pa_deadline_unix_ms st - now)%N.

Definition AWAIT_FINAL_STATE_TTL : N := 21600000.
Definition AWAIT_PENDING_STATE_TTL : N := 86400000.

Definition await_is_stale (now : N) (st : PersistedAwaitMembersState) : bool :=
  match pa_final_response st with
  | Some response => (AWAIT_FINAL_STATE_TTL <? now - pr_resolved_at_unix_ms response)%N
  | None => (AWAIT_PENDING_STATE_TTL <? now - pa_deadline_unix_ms st)%N
  end.

(** The unit separator. *)
Definition unit_separator : string := String "031" "".

Definition await_request_key (hash : string → N) (w : Wait) : string :=
  hashed_request_key hash (wa_session_id w) "await_members"
    [wa_swarm_id w;
     join unit_separator (merge_sort String.le (wa_requested_ids w));
     join unit_separator (merge_sort String.le (wa_target_status w));
     default "all" (wa_mode w)].

(** The files of the state directory by key; one that cannot be read is absent. *)
Abbreviation AwaitFiles := (gmap string PersistedAwaitMembersState).

(** [load_json_state] up to the removal of a stale file, a step of its own. *)
Inductive AwaitLoaded := NoFile | StaleFile | Loaded (st : PersistedAwaitMembersState).

Definition load_await (now : N) (key : string) (files : AwaitFiles) : AwaitLoaded :=
  match files !! key with
  | None => NoFile
  | Some st => if await_is_stale now st then StaleFile else Loaded st
  end.

Definition save_await (written : bool) (st : PersistedAwaitMembersState) (files : AwaitFiles) : AwaitFiles :=
  if written then <[pa_key st := st]> files else files.

Definition discard_await (removed : bool) (key : string) (files : AwaitFiles) : AwaitFiles :=
  if removed then delete key files else files.

Definition resolved (st : PersistedAwaitMembersState) (completed : bool) (members : list AwaitedMemberStatus)
    (summary : string) (now : N) : PersistedAwaitMembersState := {|
  pa_key := pa_key st; pa_wait := pa_wait st; pa_created_at_unix_ms := pa_created_at_unix_ms st;
  pa_deadline_unix_ms := pa_deadline_unix_ms st; pa_background := pa_background st; pa_notify := pa_notify st;
  pa_wake := pa_wake st;
  pa_final_response := Some {| pr_completed := completed; pr_members := members; pr_summary := summary;
                               pr_resolved_at_unix_ms := now |} |}.

(** [load_state(key).filter(PersistedAwaitMembersState::is_pending)]. *)
Definition only_pending (st : option PersistedAwaitMembersState) : option PersistedAwaitMembersState :=
  match st with Some st => if is_pending st then Some st else None | None => None end.

(** ** What the tasks share *)

Record AwaitRequest := {
  rq_id : N;
  rq_client : nat;                     (** the address of [client_event_tx] *)
  rq_session_id : string;
  rq_target_status : list string;
  rq_requested_ids : list string;
  rq_mode : option string;
  rq_timeout_secs : option N;
  rq_background : bool;
  rq_notify : bool;
  rq_wake : bool;
}.

Definition wait_of (r : AwaitRequest) (swarm_id : string) : Wait := {|
  wa_session_id := rq_session_id r; wa_swarm_id := swarm_id; wa_requested_ids := rq_requested_ids r;
  wa_target_status := rq_target_status r; wa_mode := rq_mode r |}.

Inductive AwaitEvent :=
| AwaitResponse (id : N) (completed : bool) (members : list AwaitedMemberStatus) (summary : string)
    (background_started : bool)                         (** [CommAwaitMembersResponse] *)
| AwaitError (id : N) (message : string).

Inductive BusMessage :=
| SwarmAwaitCompleted (session_id : string) (completed : bool) (summary notification : string) (notify wake : bool)
| AwaitStartedCard (session_id message status : string).

Record AwaitMembersWaiter := { wt_request_id : N; wt_client : nat }.

(** [sh_active] and [sh_waiters] are [AwaitMembersRuntime]; [sh_clock] is the time of day and
    [sh_uptime] the clock of [Instant]; [sh_closed] are the clients that are gone; [sh_sent]
    and [sh_bus] log what was sent to clients and published. *)
Record AwaitShared := {
  sh_members : Members;
  sh_swarms : gmap string (gset string);
  sh_active : gset string;
  sh_waiters : gmap string (list AwaitMembersWaiter);
  sh_files : AwaitFiles;
  sh_clock : N;
  sh_uptime : N;
  sh_closed : gset nat;
  sh_sent : list (nat * AwaitEvent);
  sh_bus : list BusMessage;
}.

Definition with_runtime (active : gset string) (waiters : gmap string (list AwaitMembersWaiter)) (s : AwaitShared) :
    AwaitShared := {|
  sh_members := sh_members s; sh_swarms := sh_swarms s; sh_active := active; sh_waiters := waiters;
  sh_files := sh_files s; sh_clock := sh_clock s; sh_uptime := sh_uptime s; sh_closed := sh_closed s;
  sh_sent := sh_sent s; sh_bus := sh_bus s |}.

Definition with_files (files : AwaitFiles) (s : AwaitShared) : AwaitShared := {|
  sh_members := sh_members s; sh_swarms := sh_swarms s; sh_active := sh_active s; sh_waiters := sh_waiters s;
  sh_files := files; sh_clock := sh_clock s; sh_uptime := sh_uptime s; sh_closed := sh_closed s;
  sh_sent := sh_sent s; sh_bus := sh_bus s |}.

Definition with_outbox (sent : list (nat * AwaitEvent)) (bus : list BusMessage) (s : AwaitShared) : AwaitShared := {|
  sh_members := sh_members s; sh_swarms := sh_swarms s; sh_active := sh_active s; sh_waiters := sh_waiters s;
  sh_files := sh_files s; sh_clock := sh_clock s; sh_uptime := sh_uptime s; sh_closed := sh_closed s;
  sh_sent := sent; sh_bus := bus |}.

(** What happens around the tasks: other members change, time passes, clients leave. *)
Definition with_world (members : Members) (swarms : gmap string (gset string)) (clock uptime : N) (closed : gset nat)
    (s : AwaitShared) : AwaitShared := {|
  sh_members := members; sh_swarms := swarms; sh_active := sh_active s; sh_waiters := sh_waiters s;
  sh_files := sh_files s; sh_clock := clock; sh_uptime := uptime; sh_closed := closed;
  sh_sent := sh_sent s; sh_bus := sh_bus s |}.

Definition send_to (client : nat) (e : AwaitEvent) (s : AwaitShared) : AwaitShared :=
  with_outbox (sh_sent s ++ [(client, e)]) (sh_bus s) s.

Definition publish (m : BusMessage) (s : AwaitShared) : AwaitShared :=
  with_outbox (sh_sent s) (sh_bus s ++ [m]) s.

Definition add_waiter (key : string) (r : AwaitRequest) (s : AwaitShared) : AwaitShared :=
  with_runtime (sh_active s)
    (<[key := default [] (sh_waiters s !! key) ++ [{| wt_request_id := rq_id r; wt_client := rq_client r |}]]>
       (sh_waiters s)) s.

Definition mark_active_if_new (key : string) (s : AwaitShared) : bool * AwaitShared :=
  (negb (bool_decide (key ∈ sh_active s)), with_runtime ({[key]} ∪ sh_active s) (sh_waiters s) s).

Definition clear_active (key : string) (s : AwaitShared) : AwaitShared :=
  with_runtime (sh_active s ∖ {[key]}) (sh_waiters s) s.

Definition is_open (s : AwaitShared) (w : AwaitMembersWaiter) : bool :=
  negb (bool_decide (wt_client w ∈ sh_closed s)).

(** Also how many remain. *)
Definition retain_open_waiters (key : string) (s : AwaitShared) : nat * AwaitShared :=
  match sh_waiters s !! key with
  | None => (0, s)
  | Some entries =>
      let remaining := List.filter (is_open s) entries in
      (length remaining,
       with_runtime (sh_active s)
         (match remaining with [] => delete key (sh_waiters s) | _ => <[key := remaining]> (sh_waiters s) end) s)
  end.

Definition take_waiters (key : string) (s : AwaitShared) : list AwaitMembersWaiter * AwaitShared :=
  (default [] (sh_waiters s !! key), with_runtime (sh_active s) (delete key (sh_waiters s)) s).

(** ** Tasks *)

(** How a wait ended, and the key whose waiters are told. *)
Record Verdict := {
  v_key : string;
  v_state : PersistedAwaitMembersState;
  v_completed : bool;
  v_members : list AwaitedMemberStatus;
  v_summary : string;
}.

(** A detached watcher: the session it was spawned for and when its [sleep_until] ends. *)
Record Watcher := {
  w_state : PersistedAwaitMembersState;
  w_session_id : string;
  w_deadline : N;
}.

(** What a task does when it has finalized a wait. *)
Inductive Afterwards :=
| AndEnd
| AndAnswer (client : nat) (e : AwaitEvent)
| AndResume (now : N) (rest : list PersistedAwaitMembersState).

Inductive AwaitTask :=
(* [handle_comm_await_members] *)
| Arrived (r : AwaitRequest)
| LoadingState (r : AwaitRequest) (swarm_id : string)
| ListingIds (r : AwaitRequest) (swarm_id : string) (persisted : option PersistedAwaitMembersState)
| ReadingStatuses (r : AwaitRequest) (swarm_id : string) (persisted : option PersistedAwaitMembersState) (ids : list string)
| SettingDeadline (r : AwaitRequest) (swarm_id : string) (persisted : option PersistedAwaitMembersState)
    (statuses : list AwaitedMemberStatus)
| Ensuring (r : AwaitRequest) (swarm_id : string) (deadline : N) (statuses : list AwaitedMemberStatus)
| Opening (r : AwaitRequest) (swarm_id : string) (deadline : N) (statuses : list AwaitedMemberStatus)
| SavingNew (r : AwaitRequest) (swarm_id : string) (st : PersistedAwaitMembersState)
    (statuses : list AwaitedMemberStatus)
| SavingPreferences (r : AwaitRequest) (swarm_id : string) (st : PersistedAwaitMembersState)
    (statuses : list AwaitedMemberStatus)
| CheckingDeadline (r : AwaitRequest) (swarm_id : string) (st : PersistedAwaitMembersState)
    (statuses : list AwaitedMemberStatus)
| Joining (r : AwaitRequest) (swarm_id : string) (st : PersistedAwaitMembersState)
    (statuses : list AwaitedMemberStatus) (expired : bool)
| MarkingBlocking (r : AwaitRequest) (swarm_id : string) (st : PersistedAwaitMembersState)
| MarkingBackground (r : AwaitRequest) (swarm_id : string) (st : PersistedAwaitMembersState)
    (statuses : list AwaitedMemberStatus)
| Announcing (r : AwaitRequest) (swarm_id : string) (st : PersistedAwaitMembersState)
    (statuses : list AwaitedMemberStatus)
| Answering (client : nat) (e : AwaitEvent)
(* [finalize_await] and [respond_to_waiters] *)
| Refreshing (v : Verdict) (next : Afterwards)
| Resolving (v : Verdict) (announce : bool) (next : Afterwards)
| SavingFinal (v : Verdict) (now : N) (announce : bool) (next : Afterwards)
| Publishing (v : Verdict) (next : Afterwards)
| Taking (v : Verdict) (next : Afterwards)
| Responding (ws : list AwaitMembersWaiter) (v : Verdict) (next : Afterwards)
| Clearing (key : string) (next : Afterwards)
(* the task that [spawn_or_resume_await_members] spawns *)
| Starting (st : PersistedAwaitMembersState) (session_id : string)
| WatchingIds (w : Watcher)
| WatchingStatuses (w : Watcher) (ids : list string)
| RefreshingPreferences (w : Watcher) (statuses : list AwaitedMemberStatus)
| Retaining (w : Watcher) (statuses : list AwaitedMemberStatus)
| Sleeping (w : Watcher) (statuses : list AwaitedMemberStatus)
(* [resume_background_awaits] *)
| Scanning (names : list string) (pending : list PersistedAwaitMembersState)
| Resuming (now : N) (pending : list PersistedAwaitMembersState)
| ResumingIds (now : N) (st : PersistedAwaitMembersState) (rest : list PersistedAwaitMembersState)
| ResumingStatuses (now : N) (st : PersistedAwaitMembersState) (rest : list PersistedAwaitMembersState) (ids : list string)
(* everywhere *)
| Discarding (key : string) (next : AwaitTask)          (** about to remove a stale file *)
| Finished
| Panicked (during : AwaitTask).

Section tasks.
Context (hash : string → N).

Definition key_of (r : AwaitRequest) (swarm_id : string) : string := await_request_key hash (wait_of r swarm_id).

(** ** Between two accesses *)

Definition or_panic {A} (here : AwaitTask) (x : option A) (next : A → AwaitTask) : AwaitTask :=
  match x with Some a => next a | None => Panicked here end.

Definition after_load (l : AwaitLoaded) (key : string) (next : option PersistedAwaitMembersState → AwaitTask) : AwaitTask :=
  match l with
  | NoFile => next None
  | StaleFile => Discarding key (next None)
  | Loaded st => next (Some st)
  end.

Definition afterwards (next : Afterwards) : AwaitTask :=
  match next with
  | AndEnd => Finished
  | AndAnswer client e => Answering client e
  | AndResume now rest => Resuming now rest
  end.

Definition respond (r : AwaitRequest) (completed : bool) (members : list AwaitedMemberStatus) (summary : string)
    (background_started : bool) : AwaitTask :=
  Answering (rq_client r) (AwaitResponse (rq_id r) completed members summary background_started).

(** The handler, from the statuses to the deadline: a final response that still holds is
    replayed, a wait that is over already is answered. *)
Definition answer_or_wait (here : AwaitTask) (r : AwaitRequest) (swarm_id : string)
    (persisted : option PersistedAwaitMembersState) (statuses : list AwaitedMemberStatus) : AwaitTask :=
  let still_satisfies := bool_decide (statuses = []) || mode_satisfied statuses (rq_mode r) in
  match persisted ≫= pa_final_response, still_satisfies with
  | Some f, true => respond r (pr_completed f) (pr_members f) (pr_summary f) false
  | f, _ =>
      let persisted := match f with Some _ => None | None => persisted end in
      if bool_decide (statuses = []) then respond r true [] no_members_summary false
      else if mode_satisfied statuses (rq_mode r)
      then or_panic here (mode_summary statuses (rq_mode r)) (λ summary, respond r true statuses summary false)
      else SettingDeadline r swarm_id persisted statuses
  end.

(** [now + Duration::from_secs(timeout).as_millis() as u64] of a release build. *)
Definition requested_deadline (now : N) (timeout_secs : option N) : N :=
  ((now + default 3600 timeout_secs * 1000) mod 2 ^ 64)%N.

Definition pending_await (key : string) (w : Wait) (r : AwaitRequest) (deadline now : N) : PersistedAwaitMembersState := {|
  pa_key := key; pa_wait := w; pa_created_at_unix_ms := now; pa_deadline_unix_ms := deadline;
  pa_background := rq_background r; pa_notify := rq_notify r; pa_wake := rq_wake r; pa_final_response := None |}.

Definition with_preferences (r : AwaitRequest) (st : PersistedAwaitMembersState) : PersistedAwaitMembersState := {|
  pa_key := pa_key st; pa_wait := pa_wait st; pa_created_at_unix_ms := pa_created_at_unix_ms st;
  pa_deadline_unix_ms := pa_deadline_unix_ms st; pa_background := rq_background r; pa_notify := rq_notify r;
  pa_wake := rq_wake r; pa_final_response := pa_final_response st |}.

(** The latest call's preferences win. *)
Definition prefer (r : AwaitRequest) (swarm_id : string) (st : PersistedAwaitMembersState)
    (statuses : list AwaitedMemberStatus) : AwaitTask :=
  if Bool.eqb (pa_background st) (rq_background r) && Bool.eqb (pa_notify st) (rq_notify r)
     && Bool.eqb (pa_wake st) (rq_wake r)
  then CheckingDeadline r swarm_id st statuses
  else SavingPreferences r swarm_id (with_preferences r st) statuses.

Definition verdict (st : PersistedAwaitMembersState) (completed : bool) (members : list AwaitedMemberStatus)
    (summary : string) : Verdict := {|
  v_key := pa_key st; v_state := st; v_completed := completed; v_members := members; v_summary := summary |}.

Definition check_deadline (here : AwaitTask) (r : AwaitRequest) (swarm_id : string) (st : PersistedAwaitMembersState)
    (statuses : list AwaitedMemberStatus) (now : N) : AwaitTask :=
  let already_expired := (pa_deadline_unix_ms st <=? now)%N in
  if rq_background r then
    if already_expired then
      or_panic here (timeout_summary statuses) (λ summary,
        Refreshing (verdict st false statuses summary)
          (AndAnswer (rq_client r) (AwaitResponse (rq_id r) false statuses summary false)))
    else MarkingBackground r swarm_id st statuses
  else Joining r swarm_id st statuses already_expired.

Definition joined (here : AwaitTask) (r : AwaitRequest) (swarm_id : string) (st : PersistedAwaitMembersState)
    (statuses : list AwaitedMemberStatus) (expired : bool) : AwaitTask :=
  if expired then
    or_panic here (timeout_summary statuses) (λ summary,
      Resolving {| v_key := key_of r swarm_id; v_state := st; v_completed := false; v_members := statuses;
                   v_summary := summary |} false AndEnd)
  else MarkingBlocking r swarm_id st.

Definition background_started (here : AwaitTask) (r : AwaitRequest) (statuses : list AwaitedMemberStatus) : AwaitTask :=
  or_panic here (background_started_summary statuses (rq_mode r) (rq_wake r)) (λ summary,
    respond r false statuses summary true).

(** [None] is a panic; a state that is not to notify has no card. *)
Definition publish_await_started_card (st : PersistedAwaitMembersState) (statuses : list AwaitedMemberStatus) :
    option (list BusMessage) :=
  if pa_notify st then
    pending ← mapM short_member_name (pending_members statuses);
    let watching := if bool_decide (pending = []) then "swarm members" else join ", " pending in
    Some [AwaitStartedCard (wa_session_id (pa_wait st))
      (bee +:+ " **Swarm await started** " +:+ middle_dot +:+ " watching `" +:+ watching +:+ "`" +:+ newline +:+ newline
       +:+ "Jcode is waiting for these members in the background and will report back when they finish.")
      ("Swarm await started " +:+ middle_dot +:+ " " +:+ watching)]
  else Some [].

(** [finalize_await] goes on with the latest persisted preferences. *)
Definition with_latest (v : Verdict) (latest : option PersistedAwaitMembersState) : Verdict :=
  verdict (default (v_state v) (only_pending latest)) (v_completed v) (v_members v) (v_summary v).

(** What [finalize_await] publishes; [None] is a panic. *)
Definition completion_messages (v : Verdict) : option (list BusMessage) :=
  let st := v_state v in
  if pa_background st && (pa_notify st || pa_wake st) then
    notification ← background_completion_notification (v_completed v) (v_summary v) (v_members v);
    Some [SwarmAwaitCompleted (wa_session_id (pa_wait st)) (v_completed v) (v_summary v) notification
            (pa_notify st) (pa_wake st)]
  else Some [].

Definition watched (w : Watcher) : Wait :=
  let a := pa_wait (w_state w) in
  {| wa_session_id := w_session_id w; wa_swarm_id := wa_swarm_id a; wa_requested_ids := wa_requested_ids a;
     wa_target_status := wa_target_status a; wa_mode := wa_mode a |}.

(** The head of the watcher's loop. *)
Definition judge (here : AwaitTask) (w : Watcher) (statuses : list AwaitedMemberStatus) : AwaitTask :=
  if bool_decide (statuses = []) then Refreshing (verdict (w_state w) true [] no_members_summary) AndEnd
  else if mode_satisfied statuses (wa_mode (watched w)) then
    or_panic here (mode_summary statuses (wa_mode (watched w))) (λ summary,
      Refreshing (verdict (w_state w) true statuses summary) AndEnd)
  else RefreshingPreferences w statuses.

Definition is_background (w : Watcher) (latest : option PersistedAwaitMembersState) : bool :=
  match only_pending latest with Some st => pa_background st | None => pa_background (w_state w) end.

(** A wait that expired while the server was down. *)
Definition settle (here : AwaitTask) (now : N) (st : PersistedAwaitMembersState) (rest : list PersistedAwaitMembersState)
    (statuses : list AwaitedMemberStatus) : AwaitTask :=
  let mode := wa_mode (pa_wait st) in
  let '(completed, summary) :=
    if bool_decide (statuses = []) then (true, Some no_members_summary)
    else if mode_satisfied statuses mode then (true, mode_summary statuses mode)
    else (false, timeout_summary statuses) in
  or_panic here summary (λ summary, Refreshing (verdict st completed statuses summary) (AndResume now rest)).

(** ** One step of a task *)

Inductive WakeUp := DeadlinePassed | EventSeen | SendersGone.

(** What a step depends on from outside: whether the file system obliges, and which branch
    of [select!] is taken. *)
Record AwaitOutcome := { o_file_ok : bool; o_wake_up : WakeUp }.

(** The task goes on as [t], having spawned [spawned]. *)
Definition goes (t : AwaitTask) (s : AwaitShared) : option (AwaitTask * list AwaitTask * AwaitShared) := Some (t, [], s).

Definition advance_handler (o : AwaitOutcome) (here : AwaitTask) (s : AwaitShared) :
    option (AwaitTask * list AwaitTask * AwaitShared) :=
  match here with
  | Arrived r =>
      goes match sh_members s !! rq_session_id r ≫= m_swarm_id with
           | Some swarm_id => LoadingState r swarm_id
           | None => Answering (rq_client r) (AwaitError (rq_id r)
                       "Not in a swarm. Use a git repository to enable swarm features.")
           end s
  | LoadingState r sw =>
      goes (after_load (load_await (sh_clock s) (key_of r sw) (sh_files s)) (key_of r sw) (ListingIds r sw)) s
  | ListingIds r sw persisted =>
      goes (ReadingStatuses r sw persisted (watch_ids (wait_of r sw) (sh_swarms s))) s
  | ReadingStatuses r sw persisted ids =>
      goes (answer_or_wait here r sw persisted (awaited_member_statuses (wait_of r sw) (sh_members s) ids)) s
  | SettingDeadline r sw persisted statuses =>
      goes match persisted with
           | Some st => prefer r sw st statuses
           | None => Ensuring r sw (requested_deadline (sh_clock s) (rq_timeout_secs r)) statuses
           end s
  | Ensuring r sw deadline statuses =>
      goes (after_load (load_await (sh_clock s) (key_of r sw) (sh_files s)) (key_of r sw) (λ st,
              match only_pending st with
              | Some existing => prefer r sw existing statuses
              | None => Opening r sw deadline statuses
              end)) s
  | Opening r sw deadline statuses =>
      goes (SavingNew r sw (pending_await (key_of r sw) (wait_of r sw) r deadline (sh_clock s)) statuses) s
  | SavingNew r sw st statuses =>
      goes (prefer r sw st statuses) (with_files (save_await (o_file_ok o) st (sh_files s)) s)
  | SavingPreferences r sw st statuses =>
      goes (CheckingDeadline r sw st statuses) (with_files (save_await (o_file_ok o) st (sh_files s)) s)
  | CheckingDeadline r sw st statuses => goes (check_deadline here r sw st statuses (sh_clock s)) s
  | Joining r sw st statuses expired => goes (joined here r sw st statuses expired) (add_waiter (key_of r sw) r s)
  | MarkingBackground r sw st statuses =>
      let '(new, s') := mark_active_if_new (key_of r sw) s in
      goes (if new then Announcing r sw st statuses else background_started here r statuses) s'
  | MarkingBlocking r sw st =>
      let '(new, s') := mark_active_if_new (key_of r sw) s in
      Some (Finished, if new then [Starting st (rq_session_id r)] else [], s')
  | Announcing r sw st statuses =>
      match publish_await_started_card st statuses with
      | Some messages =>
          Some (background_started here r statuses, [Starting st (rq_session_id r)], foldl (flip publish) s messages)
      | None => goes (Panicked here) s
      end
  | Answering client e => goes Finished (send_to client e s)
  | _ => None
  end.

Definition advance_finalize (o : AwaitOutcome) (here : AwaitTask) (s : AwaitShared) :
    option (AwaitTask * list AwaitTask * AwaitShared) :=
  match here with
  | Refreshing v next =>
      let key := pa_key (v_state v) in
      goes (after_load (load_await (sh_clock s) key (sh_files s)) key (λ st, Resolving (with_latest v st) true next)) s
  | Resolving v announce next => goes (SavingFinal v (sh_clock s) announce next) s
  | SavingFinal v now announce next =>
      let st := resolved (v_state v) (v_completed v) (v_members v) (v_summary v) now in
      goes (if announce then Publishing v next else Taking v next)
        (with_files (save_await (o_file_ok o) st (sh_files s)) s)
  | Publishing v next =>
      match completion_messages v with
      | Some messages => goes (Taking v next) (foldl (flip publish) s messages)
      | None => goes (Panicked here) s
      end
  | Taking v next => let '(ws, s') := take_waiters (v_key v) s in goes (Responding ws v next) s'
  | Responding [] v next => goes (Clearing (v_key v) next) s
  | Responding (w :: ws) v next =>
      goes (Responding ws v next) (send_to (wt_client w)
        (AwaitResponse (wt_request_id w) (v_completed v) (v_members v) (v_summary v) false) s)
  | Clearing key next => goes (afterwards next) (clear_active key s)
  | _ => None
  end.

Definition advance_watcher (o : AwaitOutcome) (here : AwaitTask) (s : AwaitShared) :
    option (AwaitTask * list AwaitTask * AwaitShared) :=
  match here with
  | Starting st session_id =>
      goes (WatchingIds {| w_state := st; w_session_id := session_id;
                           w_deadline := (sh_uptime s + remaining_timeout (sh_clock s) st)%N |}) s
  | WatchingIds w => goes (WatchingStatuses w (watch_ids (watched w) (sh_swarms s))) s
  | WatchingStatuses w ids => goes (judge here w (awaited_member_statuses (watched w) (sh_members s) ids)) s
  | RefreshingPreferences w statuses =>
      let key := pa_key (w_state w) in
      goes (after_load (load_await (sh_clock s) key (sh_files s)) key (λ st,
              if is_background w st then Sleeping w statuses else Retaining w statuses)) s
  | Retaining w statuses =>
      let '(n, s') := retain_open_waiters (pa_key (w_state w)) s in
      goes (if n =? 0 then Clearing (pa_key (w_state w)) AndEnd else Sleeping w statuses) s'
  | Sleeping w statuses =>
      match o_wake_up o with
      | DeadlinePassed =>
          if (w_deadline w <=? sh_uptime s)%N
          then goes (or_panic here (timeout_summary statuses) (λ summary,
                       Refreshing (verdict (w_state w) false statuses summary) AndEnd)) s
          else None
      | EventSeen => goes (WatchingIds w) s
      | SendersGone => goes (Clearing (pa_key (w_state w)) AndEnd) s
      end
  | _ => None
  end.

Definition advance_resume (o : AwaitOutcome) (here : AwaitTask) (s : AwaitShared) :
    option (AwaitTask * list AwaitTask * AwaitShared) :=
  match here with
  | Scanning (name :: names) pending =>
      goes (after_load (load_await (sh_clock s) name (sh_files s)) name (λ st,
              Scanning names (pending ++ match only_pending st with Some st => [st] | None => [] end))) s
  | Scanning [] pending => goes (Resuming (sh_clock s) (List.filter pa_background pending)) s
  | Resuming now [] => goes Finished s
  | Resuming now (st :: rest) =>
      if (pa_deadline_unix_ms st <=? now)%N then goes (ResumingIds now st rest) s
      else let '(new, s') := mark_active_if_new (pa_key st) s in
           Some (Resuming now rest, if new then [Starting st (wa_session_id (pa_wait st))] else [], s')
  | ResumingIds now st rest => goes (ResumingStatuses now st rest (watch_ids (pa_wait st) (sh_swarms s))) s
  | ResumingStatuses now st rest ids =>
      goes (settle here now st rest (awaited_member_statuses (pa_wait st) (sh_members s) ids)) s
  | _ => None
  end.

(** [None] when the task has ended, or sleeps. *)
Definition advance_await (o : AwaitOutcome) (t : AwaitTask) (s : AwaitShared) :
    option (AwaitTask * list AwaitTask * AwaitShared) :=
  match t with
  | Discarding key next => goes next (with_files (discard_await (o_file_ok o) key (sh_files s)) s)
  | Arrived _ | LoadingState _ _ | ListingIds _ _ _ | ReadingStatuses _ _ _ _ | SettingDeadline _ _ _ _
  | Ensuring _ _ _ _ | Opening _ _ _ _ | SavingNew _ _ _ _ | SavingPreferences _ _ _ _ | CheckingDeadline _ _ _ _
  | Joining _ _ _ _ _ | MarkingBackground _ _ _ _ | MarkingBlocking _ _ _ | Announcing _ _ _ _ | Answering _ _ => advance_handler o t s
  | Refreshing _ _ | Resolving _ _ _ | SavingFinal _ _ _ _ | Publishing _ _ | Taking _ _ | Responding _ _ _
  | Clearing _ _ => advance_finalize o t s
  | Starting _ _ | WatchingIds _ | WatchingStatuses _ _ | RefreshingPreferences _ _ | Retaining _ _
  | Sleeping _ _ => advance_watcher o t s
  | Scanning _ _ | Resuming _ _ | ResumingIds _ _ _ | ResumingStatuses _ _ _ _ => advance_resume o t s
  | Finished | Panicked _ => None
  end.

(** ** The server *)

Record AwaitServer := {
  as_shared : AwaitShared;
  as_tasks : list AwaitTask;
  as_requests : list AwaitRequest;     (** the log of the requests that arrived *)
}.

(** A server that starts with the files that are there. *)
Definition start_await (files : AwaitFiles) (now uptime : N) (members : Members) (swarms : gmap string (gset string)) :
    AwaitServer := {|
  as_shared := {| sh_members := members; sh_swarms := swarms; sh_active := ∅; sh_waiters := ∅; sh_files := files;
                  sh_clock := now; sh_uptime := uptime; sh_closed := ∅; sh_sent := []; sh_bus := [] |};
  as_tasks := []; as_requests := [] |}.

Inductive await_task_step (s : AwaitServer) : AwaitServer → Prop :=
| await_task_step_advance o before t after t' spawned sh :
    as_tasks s = before ++ t :: after →
    advance_await o t (as_shared s) = Some (t', spawned, sh) →
    await_task_step s {| as_shared := sh; as_tasks := before ++ t' :: after ++ spawned; as_requests := as_requests s |}.

Inductive await_step (s : AwaitServer) : AwaitServer → Prop :=
| await_step_request r :
    await_step s {| as_shared := as_shared s; as_tasks := as_tasks s ++ [Arrived r]; as_requests := as_requests s ++ [r] |}
| await_step_resume names :
    await_step s {| as_shared := as_shared s; as_tasks := as_tasks s ++ [Scanning names []]; as_requests := as_requests s |}
| await_step_world members swarms clock uptime closed :
    (sh_uptime (as_shared s) ≤ uptime)%N → sh_closed (as_shared s) ⊆ closed →
    await_step s {| as_shared := with_world members swarms clock uptime closed (as_shared s); as_tasks := as_tasks s;
                    as_requests := as_requests s |}
| await_step_task s' : await_task_step s s' → await_step s s'.

(** ** Pending waits of a session *)

(** [all_pending_await_members] after the scan, ordered by deadline. *)
Definition pending_await_members_for_session (now : N) (session_id : string) (scanned : list PersistedAwaitMembersState) :
    list PersistedAwaitMembersState :=
  sort_stable (λ a b, (pa_deadline_unix_ms a <=? pa_deadline_unix_ms b)%N)
    (List.filter (λ st, bool_decide (wa_session_id (pa_wait st) = session_id))
       (List.filter (λ st, now <? pa_deadline_unix_ms st)%N scanned)).
End tasks.
