(* ===== verification/AwaitTheorems.v ===== *)
(** * Theorems about waiting for members

    Two invariants of the interleaved handlers and watchers of [Await], by induction on the
    steps: a count of the answers that are due, and what is known of every answer, state and
    verdict on its way.  The examples at the end are schedules in which the code loses an
    answer, gives one twice, or panics. *)

From S2P Require Import MutationState MutationTheorems.
From S2P Require Import Prelude RustStr RustText PlanTypes SwarmCore SwarmProgress SwarmMembers PlanStatus CommFormat Await.

(** ** The answers that are due *)

Definition of_await_request (a : Address) (r : AwaitRequest) : nat :=
  Nat.b2n (bool_decide ((rq_client r, rq_id r) = a)).

Definition of_await_waiter (a : Address) (w : AwaitMembersWaiter) : nat :=
  Nat.b2n (bool_decide ((wt_client w, wt_request_id w) = a)).

Definition await_event_id (e : AwaitEvent) : N :=
  match e with AwaitResponse id _ _ _ _ | AwaitError id _ => id end.

Definition of_await_message (a : Address) (m : nat * AwaitEvent) : nat :=
  Nat.b2n (bool_decide ((m.1, await_event_id m.2) = a)).

Definition owes_afterwards (a : Address) (next : Afterwards) : nat :=
  match next with AndAnswer client e => of_await_message a (client, e) | _ => 0 end.

(** A handler owes its answer until it has sent it or left a waiter; one that panicked owes it
    for ever. *)
Fixpoint owes_await (a : Address) (t : AwaitTask) : nat :=
  match t with
  | Arrived r | LoadingState r _ | ListingIds r _ _ | ReadingStatuses r _ _ _ | SettingDeadline r _ _ _
  | Ensuring r _ _ _ | Opening r _ _ _ | SavingNew r _ _ _ | SavingPreferences r _ _ _ | CheckingDeadline r _ _ _
  | Joining r _ _ _ _ | MarkingBackground r _ _ _ | Announcing r _ _ _ => of_await_request a r
  | Answering client e => of_await_message a (client, e)
  | Refreshing _ next | Resolving _ _ next | SavingFinal _ _ _ next | Publishing _ next | Taking _ next
  | Clearing _ next => owes_afterwards a next
  | Responding ws _ next => sum_list_with (of_await_waiter a) ws + owes_afterwards a next
  | Discarding _ t => owes_await a t
  | Panicked t => match t with Joining _ _ _ _ _ => 0 | _ => owes_await a t end
  | _ => 0
  end.

Definition await_asked (a : Address) (s : AwaitServer) : nat := sum_list_with (of_await_request a) (as_requests s).
Definition await_answered (a : Address) (s : AwaitServer) : nat :=
  sum_list_with (of_await_message a) (sh_sent (as_shared s)).
Definition await_waiting (a : Address) (s : AwaitServer) : nat :=
  waiting (of_await_waiter a) (sh_waiters (as_shared s)).

(** What is sent, and who waits, in the shared state. *)
Definition settled (a : Address) (s : AwaitShared) : nat :=
  sum_list_with (of_await_message a) (sh_sent s) + waiting (of_await_waiter a) (sh_waiters s).

#[local] Arguments or_panic : simpl never.
#[local] Arguments after_load : simpl never.
#[local] Arguments respond : simpl never.
#[local] Arguments Nat.b2n : simpl never.

Ltac run_await H := simpl in H; unfold goes in H; break_in H; simplify_eq/=.

Lemma owes_after_load a l key next n :
  (∀ st, owes_await a (next st) = n) → owes_await a (after_load l key next) = n.
Proof. intros H. destruct l; simpl; apply H. Qed.

Lemma owes_or_panic {A} a here (x : option A) next n :
  owes_await a (Panicked here) = n → (∀ y, owes_await a (next y) = n) → owes_await a (or_panic here x next) = n.
Proof. intros Hh Hn. destruct x; [apply Hn|exact Hh]. Qed.

Lemma owes_respond a r completed members summary bg :
  owes_await a (respond r completed members summary bg) = of_await_request a r.
Proof. done. Qed.

Lemma owes_prefer a r sw st statuses : owes_await a (prefer r sw st statuses) = of_await_request a r.
Proof. unfold prefer. by destruct (_ && _). Qed.

Lemma owes_afterwards_task a next : owes_await a (afterwards next) = owes_afterwards a next.
Proof. by destruct next. Qed.

Lemma published_settled a messages s : settled a (foldl (flip publish) s messages) = settled a s.
Proof. revert s. induction messages as [|m messages IH]; intros s; simpl; [done|]. by rewrite IH. Qed.

#[export] Hint Rewrite owes_respond owes_prefer owes_afterwards_task @published_settled : await.

Section accounts.
Context (hash : string → N) (a : Address).

Lemma owes_answer_or_wait here r sw persisted statuses :
  owes_await a (Panicked here) = of_await_request a r →
  owes_await a (answer_or_wait here r sw persisted statuses) = of_await_request a r.
Proof.
  intros H. unfold answer_or_wait. cbv zeta.
  destruct (persisted ≫= pa_final_response), (bool_decide (statuses = [])), (mode_satisfied statuses (rq_mode r)); simpl;
    try done.
  all: by apply owes_or_panic.
Qed.

Lemma owes_check_deadline here r sw st statuses now :
  owes_await a (Panicked here) = of_await_request a r →
  owes_await a (check_deadline here r sw st statuses now) = of_await_request a r.
Proof.
  intros H. unfold check_deadline. destruct (rq_background r); [|done].
  destruct (_ <=? _)%N; [by apply owes_or_panic|done].
Qed.

Lemma owes_background_started here r statuses :
  owes_await a (Panicked here) = of_await_request a r →
  owes_await a (background_started here r statuses) = of_await_request a r.
Proof. intros H. by apply owes_or_panic. Qed.

Lemma joined_owes r sw st statuses expired :
  owes_await a (joined hash (Joining r sw st statuses expired) r sw st statuses expired) = 0.
Proof. unfold joined. destruct expired; [|done]. by apply owes_or_panic. Qed.

Lemma settled_send client e s : settled a (send_to client e s) = settled a s + of_await_message a (client, e).
Proof. unfold settled. simpl. rewrite sum_list_with_app. simpl. lia. Qed.

Lemma settled_join key r s : settled a (add_waiter key r s) = settled a s + of_await_request a r.
Proof. unfold settled. simpl. rewrite waiting_push. unfold of_await_waiter at 1, of_await_request. simpl. lia. Qed.

Lemma handler_accounts o t s t' spawned s' :
  advance_handler hash o t s = Some (t', spawned, s') →
  settled a s' + owes_await a t' + sum_list_with (owes_await a) spawned = settled a s + owes_await a t.
Proof.
  intros H. destruct t; run_await H; autorewrite with await; rewrite ?Nat.add_0_r; try done.
  - by rewrite owes_after_load with (n := of_await_request a r).
  - by rewrite owes_answer_or_wait.
  - rewrite owes_after_load with (n := of_await_request a r); [done|]. intros st.
    destruct (only_pending st); by autorewrite with await.
  - by rewrite owes_check_deadline.
  - by rewrite joined_owes, settled_join, Nat.add_0_r.
  - by rewrite owes_background_started.
  - by rewrite owes_background_started.
  - apply settled_send.
Qed.

Lemma of_response_to_waiter w completed members summary bg :
  of_await_message a (wt_client w, AwaitResponse (wt_request_id w) completed members summary bg) = of_await_waiter a w.
Proof. done. Qed.

Lemma finalize_accounts o t s t' spawned s' :
  advance_finalize o t s = Some (t', spawned, s') →
  settled a s' + owes_await a t' + sum_list_with (owes_await a) spawned = settled a s + owes_await a t.
Proof.
  intros H. destruct t; run_await H; autorewrite with await; rewrite ?Nat.add_0_r; try done.
  - by rewrite owes_after_load with (n := owes_afterwards a next).
  - unfold settled; simpl. rewrite (waiting_delete (of_await_waiter a) (v_key v) (sh_waiters s)). lia.
  - rewrite settled_send, of_response_to_waiter. lia.
Qed.

Lemma retained_settled key s n s' :
  retain_open_waiters key s = (n, s') →
  settled a s' ≤ settled a s ∧ (a.1 ∉ sh_closed s → settled a s' = settled a s).
Proof.
  unfold retain_open_waiters, settled. destruct (sh_waiters s !! key) as [ws|] eqn:E; intros H; simplify_eq/=; [|done].
  assert (∀ m, m = (match List.filter (is_open s) ws with [] => delete key (sh_waiters s)
                    | _ => <[key := List.filter (is_open s) ws]> (sh_waiters s) end) →
            waiting (of_await_waiter a) m
            = sum_list_with (of_await_waiter a) (List.filter (is_open s) ws)
              + waiting (of_await_waiter a) (delete key (sh_waiters s))) as Hm.
  { intros m ->. destruct (List.filter (is_open s) ws); [done|]. apply waiting_insert. }
  rewrite (Hm _ eq_refl), (waiting_delete (of_await_waiter a) key (sh_waiters s)), E. simpl.
  destruct (sum_list_with_filterb (of_await_waiter a) (is_open s) ws) as [Hle Heq]. split; [lia|].
  intros Hopen. rewrite Heq; [done|]. intros w _ Hw. unfold of_await_waiter. case_bool_decide as Ha; [|done]. subst a.
  unfold is_open in Hw. apply negb_false_iff, bool_decide_eq_true in Hw. done.
Qed.

Lemma watcher_accounts o t s t' spawned s' :
  advance_watcher o t s = Some (t', spawned, s') →
  owes_await a t = 0 ∧ owes_await a t' = 0 ∧ spawned = []
  ∧ settled a s' ≤ settled a s ∧ (a.1 ∉ sh_closed s → settled a s' = settled a s).
Proof.
  intros H. destruct t; run_await H; try by split_and!.
  - split_and!; try done. unfold judge. case_bool_decide; [done|]. destruct (mode_satisfied _ _); [|done].
    by apply owes_or_panic.
  - split_and!; try done. apply owes_after_load. intros st. by destruct (is_background w st).
  - apply retained_settled in Heqp as [Hle Heq]. split_and!; try done. by destruct (_ =? 0).
  - split_and!; try done. by apply owes_or_panic.
Qed.

Lemma resume_accounts o t s t' spawned s' :
  advance_resume o t s = Some (t', spawned, s') →
  owes_await a t = 0 ∧ owes_await a t' = 0 ∧ sum_list_with (owes_await a) spawned = 0 ∧ settled a s' = settled a s.
Proof.
  intros H. destruct t; run_await H; try by split_and!.
  - split_and!; try done. by apply owes_after_load.
  - split_and!; try done. by destruct (negb _).
  - split_and!; try done. unfold settle. destruct (if bool_decide _ then _ else _). by apply owes_or_panic.
Qed.

Lemma advance_accounts o t s t' spawned s' :
  advance_await hash o t s = Some (t', spawned, s') →
  settled a s' + owes_await a t' + sum_list_with (owes_await a) spawned ≤ settled a s + owes_await a t
  ∧ (a.1 ∉ sh_closed s →
     settled a s' + owes_await a t' + sum_list_with (owes_await a) spawned = settled a s + owes_await a t).
Proof.
  intros H.
  assert (advance_handler hash o t s = Some (t', spawned, s') ∨ advance_finalize o t s = Some (t', spawned, s')
    ∨ advance_watcher o t s = Some (t', spawned, s') ∨ advance_resume o t s = Some (t', spawned, s')
    ∨ ∃ key, t = Discarding key t' ∧ spawned = [] ∧ settled a s' = settled a s) as [E|[E|[E|[E|E]]]].
  { destruct t; simpl in H |- *; try tauto; try done. unfold goes in H. simplify_eq. right; right; right; right. by eexists. }
  - apply handler_accounts in E. lia.
  - apply finalize_accounts in E. lia.
  - apply watcher_accounts in E as (E1 & E2 & -> & E3 & E4). simpl. rewrite E1, E2. split; [lia|]. intros Ho. rewrite E4; [lia|done].
  - apply resume_accounts in E as (E1 & E2 & E3 & E4). lia.
  - destruct E as (key & -> & -> & E). simpl. lia.
Qed.
End accounts.

Section answers.
Context (hash : string → N).

Definition due (a : Address) (s : AwaitServer) : nat :=
  settled a (as_shared s) + sum_list_with (owes_await a) (as_tasks s).

Definition accounted (a : Address) (s : AwaitServer) : Prop :=
  due a s ≤ await_asked a s ∧ (a.1 ∉ sh_closed (as_shared s) → due a s = await_asked a s).

Lemma advance_closed o t s t' spawned s' :
  advance_await hash o t s = Some (t', spawned, s') → sh_closed s' = sh_closed s.
Proof.
  assert (∀ messages s0, sh_closed (foldl (flip publish) s0 messages) = sh_closed s0) as Hp.
  { induction messages as [|m messages IH]; intros s0; simpl; [done|]. by rewrite IH. }
  intros H. destruct t; run_await H; rewrite ?Hp; try done.
  unfold retain_open_waiters in *. by destruct (_ !! _); simplify_eq.
Qed.

Lemma accounted_step a s s' : accounted a s → await_step hash s s' → accounted a s'.
Proof.
  unfold accounted, due, await_asked. intros [Hle Heq] [r|names|members swarms clock uptime closed Hu Hc|s'' Hs]; simpl.
  - rewrite !sum_list_with_app. simpl. split; [lia|]. intros Ho. specialize (Heq Ho). lia.
  - rewrite sum_list_with_app. simpl. rewrite !Nat.add_0_r. done.
  - split; [done|]. intros Ho. apply Heq. set_solver.
  - destruct Hs as [o before t after t' spawned sh Ht Had]. simpl.
    pose proof (advance_accounts hash a _ _ _ _ _ _ Had) as [Hl He]. rewrite (advance_closed _ _ _ _ _ _ Had).
    rewrite Ht in *. rewrite !sum_list_with_app in *. simpl in *. rewrite sum_list_with_app in *.
    split; [lia|]. intros Ho. specialize (Heq Ho). specialize (He Ho). lia.
Qed.

(** Every task has ended, or is a watcher that sleeps. *)
Definition at_rest (s : AwaitServer) : Prop :=
  ∀ t, t ∈ as_tasks s → t = Finished ∨ ∃ w statuses, t = Sleeping w statuses.

(** However handlers, watchers and clients interleave, no request is answered
    more often than it was made; and when every task has ended or sleeps, each request of a
    client that still listens has had its answer or stands in the queue of its key. *)
Theorem no_await_is_answered_twice files now uptime members swarms s a :
  rtc (await_step hash) (start_await files now uptime members swarms) s →
  await_answered a s + await_waiting a s ≤ await_asked a s
  ∧ (at_rest s → a.1 ∉ sh_closed (as_shared s) → await_answered a s + await_waiting a s = await_asked a s).
Proof.
  intros Hr. assert (accounted a s) as [Hle Heq].
  { apply (rtc_ind_r (accounted a) (start_await files now uptime members swarms)) in Hr; [done| |].
    { by assert (due a (start_await files now uptime members swarms) = 0) as E by reflexivity; split; rewrite E. }
    intros s1 s2 _ Hs H1. by eapply accounted_step. }
  unfold due, settled in *. unfold await_answered, await_waiting. split; [lia|].
  intros Hrest Ho. specialize (Heq Ho).
  assert (sum_list_with (owes_await a) (as_tasks s) = 0) as Hz; [|lia].
  apply sum_list_with_zero. intros t Ht. by destruct (Hrest t Ht) as [->|(w & statuses & ->)].
Qed.
End answers.

(** ** What is known of every answer *)

Section truth.
Context (hash : string → N).

(** The tables of the members and of the swarms, as they were at some time. *)
Section at_some_time.
Context (seen : Members → gmap string (gset string) → Prop).

(** The status of a session; one that is gone is unknown. *)
Definition status_in (members : Members) (id : string) : string :=
  match members !! id with Some m => m_status m | None => "unknown" end.

(** The sessions that [w] names; or else those of its swarm but one, at a time. *)
Definition ids_good (w : Wait) (ids : list string) : Prop :=
  (wa_requested_ids w ≠ [] → ids = wa_requested_ids w)
  ∧ (wa_requested_ids w = [] → ∃ members swarms waiting, seen members swarms
       ∧ ∀ id, id ∈ ids ↔ id ∈ (default ∅ (swarms !! wa_swarm_id w) : gset string) ∧ id ≠ waiting).

(** The members [ms] are those that [w] names, each with the status that it had, all at one
    time; a member is done when its status is one that was waited for, or it is gone and
    stopped or completed ones were waited for; and together they satisfy the mode. *)
Definition fulfils (w : Wait) (ms : list AwaitedMemberStatus) : Prop :=
  let targets := wa_target_status w in
  ids_good w (map am_session_id ms)
  ∧ (∃ members swarms, seen members swarms ∧ ∀ m, m ∈ ms →
       am_status m = status_in members (am_session_id m)
       ∧ (am_done m = true ↔ am_status m ∈ targets
                             ∨ am_status m = "unknown" ∧ ("stopped" ∈ targets ∨ "completed" ∈ targets)))
  ∧ (if bool_decide (wa_mode w = Some "any") then ms = [] ∨ ∃ m, m ∈ ms ∧ am_done m = true
     else ∀ m, m ∈ ms → am_done m = true).

Definition answer_good (key : string) (completed : bool) (ms : list AwaitedMemberStatus) : Prop :=
  completed = true → ∃ w, await_request_key hash w = key ∧ fulfils w ms.

Definition state_good (key : string) (st : PersistedAwaitMembersState) : Prop :=
  pa_key st = key ∧ await_request_key hash (pa_wait st) = key
  ∧ ∀ f, pa_final_response st = Some f → answer_good key (pr_completed f) (pr_members f).

(** What the files of an earlier run of the server are. *)
Definition files_good (files : AwaitFiles) : Prop := map_Forall state_good files.

Definition own_good (st : PersistedAwaitMembersState) : Prop := state_good (pa_key st) st.

Section with_requests.
Context (reqs : list AwaitRequest).

Definition event_good (client : nat) (e : AwaitEvent) : Prop :=
  ∃ r, r ∈ reqs ∧ rq_client r = client ∧ rq_id r = await_event_id e
    ∧ match e with
      | AwaitResponse _ completed ms _ bg => (∃ sw, answer_good (key_of hash r sw) completed ms) ∧ (completed = true → bg = false)
      | AwaitError _ _ => True
      end.

Definition waiter_good (key : string) (w : AwaitMembersWaiter) : Prop :=
  ∃ r sw, r ∈ reqs ∧ rq_client r = wt_client w ∧ rq_id r = wt_request_id w ∧ key_of hash r sw = key.

Definition verdict_good (v : Verdict) : Prop :=
  state_good (v_key v) (v_state v) ∧ answer_good (v_key v) (v_completed v) (v_members v).

Definition next_good (next : Afterwards) : Prop :=
  match next with
  | AndEnd => True
  | AndAnswer client e => event_good client e
  | AndResume _ rest => Forall own_good rest
  end.

Fixpoint task_good (t : AwaitTask) : Prop :=
  match t with
  | Arrived r | LoadingState r _ | Ensuring r _ _ _ | Opening r _ _ _ => r ∈ reqs
  | ListingIds r sw p | SettingDeadline r sw p _ => r ∈ reqs ∧ ∀ st, p = Some st → state_good (key_of hash r sw) st
  | ReadingStatuses r sw p ids =>
      r ∈ reqs ∧ (∀ st, p = Some st → state_good (key_of hash r sw) st) ∧ ids_good (wait_of r sw) ids
  | SavingNew r sw st _ | SavingPreferences r sw st _ | CheckingDeadline r sw st _ | Joining r sw st _ _
  | MarkingBackground r sw st _ | MarkingBlocking r sw st | Announcing r sw st _ =>
      r ∈ reqs ∧ state_good (key_of hash r sw) st
  | Answering client e => event_good client e
  | Refreshing v next => v_key v = pa_key (v_state v) ∧ verdict_good v ∧ next_good next
  | Resolving v _ next | SavingFinal v _ _ next | Publishing v next | Taking v next => verdict_good v ∧ next_good next
  | Responding ws v next => Forall (waiter_good (v_key v)) ws ∧ verdict_good v ∧ next_good next
  | Clearing _ next => next_good next
  | Starting st _ => own_good st
  | WatchingIds w | RefreshingPreferences w _ | Retaining w _ | Sleeping w _ => own_good (w_state w)
  | WatchingStatuses w ids => own_good (w_state w) ∧ ids_good (pa_wait (w_state w)) ids
  | Scanning _ pending | Resuming _ pending => Forall own_good pending
  | ResumingIds _ st rest => own_good st ∧ Forall own_good rest
  | ResumingStatuses _ st rest ids => own_good st ∧ Forall own_good rest ∧ ids_good (pa_wait st) ids
  | Discarding _ t => task_good t
  | Finished | Panicked _ => True
  end.

Record shared_good (s : AwaitShared) : Prop := {
  good_files : files_good (sh_files s);
  good_waiters : map_Forall (λ k ws, Forall (waiter_good k) ws) (sh_waiters s);
  good_sent : Forall (λ m, event_good m.1 m.2) (sh_sent s);
}.

Lemma good_after_load now key files next :
  files_good files → task_good (next None) → (∀ st, state_good key st → task_good (next (Some st))) →
  task_good (after_load (load_await now key files) key next).
Proof.
  intros Hf Hn Hs. unfold load_await. destruct (files !! key) as [st|] eqn:E; [|done].
  destruct (await_is_stale now st); [done|]. apply Hs. exact (Hf _ _ E).
Qed.

Lemma good_or_panic {A} here (x : option A) next :
  (∀ y, task_good (next y)) → task_good (or_panic here x next).
Proof. intros H. by destruct x; [apply H|]. Qed.

Lemma watch_ids_good v w members swarms :
  wa_requested_ids v = wa_requested_ids w → wa_swarm_id v = wa_swarm_id w → seen members swarms →
  ids_good w (watch_ids v swarms).
Proof.
  intros Hr Hsw Hs. unfold ids_good, watch_ids. rewrite <-Hr, <-Hsw. split; [by destruct (wa_requested_ids v)|]. intros ->.
  exists members, swarms, (wa_session_id v). split; [done|]. intros id. rewrite elem_of_sorted_ids. set_solver.
Qed.

Lemma counts_as_done_spec targets status :
  counts_as_done targets status = true ↔ status ∈ targets ∨ status = "unknown" ∧ ("stopped" ∈ targets ∨ "completed" ∈ targets).
Proof. unfold counts_as_done, mem. rewrite orb_true_iff, andb_true_iff, orb_true_iff, !bool_decide_eq_true. done. Qed.

Lemma mode_satisfied_spec ms mode :
  ms = [] ∨ mode_satisfied ms mode = true →
  if bool_decide (mode = Some "any") then ms = [] ∨ ∃ m, m ∈ ms ∧ am_done m = true else ∀ m, m ∈ ms → am_done m = true.
Proof.
  intros [->|H]; [case_bool_decide; [by left|by intros m ?%elem_of_nil]|]. unfold mode_satisfied, completion_mode in H.
  assert (bool_decide (match mode with Some m => if bool_decide (m = "any") then "any" else "all" | None => "all" end = "any")
    = bool_decide (mode = Some "any")) as E.
  { destruct mode as [m|]; [|done]. destruct (decide (m = "any")) as [->|Hne]; [done|].
    rewrite (bool_decide_eq_false_2 (m = "any")) by done. rewrite (bool_decide_eq_false_2 (Some m = Some "any")) by congruence. done. }
  rewrite E in H. destruct (bool_decide (mode = Some "any")); cbn [negb] in *.
  - right. apply existsb_exists in H as (m & Hm%list_elem_of_In & Hd). eauto.
  - rewrite forallb_forall in H. intros m Hm%list_elem_of_In. auto.
Qed.

Lemma fulfils_now w v members swarms ids :
  wa_target_status v = wa_target_status w → ids_good w ids → seen members swarms →
  let statuses := awaited_member_statuses v members ids in
  statuses = [] ∨ mode_satisfied statuses (wa_mode w) = true → fulfils w statuses.
Proof.
  intros Ht Hids Hs statuses Hor. assert (map am_session_id statuses = ids) as Hmap.
  { unfold statuses, awaited_member_statuses. rewrite map_map. rewrite <-(map_id ids) at 2. apply map_ext.
    intros id. unfold awaited_member_status. by destruct (members !! id). }
  split; [by rewrite Hmap|]. split; [|by apply mode_satisfied_spec].
  exists members, swarms. split; [done|]. intros m Hm. apply list_elem_of_fmap in Hm as (id & -> & _).
  rewrite <-counts_as_done_spec, <-Ht. unfold awaited_member_status, status_in. by destruct (members !! id) eqn:E; simpl; rewrite E.
Qed.

Lemma own_of_good key st : state_good key st → own_good st.
Proof. intros H. unfold own_good. by rewrite (proj1 H). Qed.
Lemma only_pending_some st st' : only_pending st = Some st' → st = Some st' ∧ pa_final_response st' = None.
Proof.
  unfold only_pending, is_pending. destruct st as [st0|]; [|done]. case_bool_decide; intros; by simplify_eq.
Qed.

Lemma good_preferences key r st : state_good key st → state_good key (with_preferences r st).
Proof. done. Qed.

Lemma good_prefer r sw st statuses :
  r ∈ reqs → state_good (key_of hash r sw) st → task_good (prefer r sw st statuses).
Proof. intros Hr Hst. unfold prefer. by destruct (_ && _). Qed.

Lemma good_respond r sw completed members summary bg :
  r ∈ reqs → answer_good (key_of hash r sw) completed members → (completed = true → bg = false) →
  task_good (respond r completed members summary bg).
Proof. intros Hr Ha Hb. exists r. split_and!; try done. by exists sw. Qed.

Lemma good_afterwards next : next_good next → task_good (afterwards next).
Proof. by destruct next. Qed.

Lemma good_save ok st key files : files_good files → state_good key st → files_good (save_await ok st files).
Proof.
  intros Hf Hst. unfold save_await. destruct ok; [|done]. apply map_Forall_insert_2; [|done].
  by rewrite (proj1 Hst).
Qed.

Lemma good_answer_or_wait here r sw persisted statuses :
  r ∈ reqs → (∀ st, persisted = Some st → state_good (key_of hash r sw) st) →
  (statuses = [] ∨ mode_satisfied statuses (rq_mode r) = true → fulfils (wait_of r sw) statuses) →
  task_good (answer_or_wait here r sw persisted statuses).
Proof.
  intros Hr Hp Hnow. unfold answer_or_wait. cbv zeta.
  assert (∀ p, (∀ st, p = Some st → state_good (key_of hash r sw) st) → task_good (
    if bool_decide (statuses = []) then respond r true [] no_members_summary false
    else if mode_satisfied statuses (rq_mode r)
    then or_panic here (mode_summary statuses (rq_mode r)) (λ summary, respond r true statuses summary false)
    else SettingDeadline r sw p statuses)) as Hrest.
  { intros p Hp'. case_bool_decide as He.
    - subst. apply (good_respond r sw); [done| |done]. intros _. exists (wait_of r sw). auto.
    - destruct (mode_satisfied statuses (rq_mode r)); [|done]. apply good_or_panic. intros y.
      apply (good_respond r sw); [done| |done]. intros _. exists (wait_of r sw). auto. }
  destruct (persisted ≫= pa_final_response) as [f|] eqn:E; [|by apply Hrest].
  destruct (_ || _); [|by apply Hrest].
  apply bind_Some in E as (st & -> & Hf). apply (good_respond r sw); [done| |done].
  by apply (Hp st eq_refl).
Qed.

Lemma good_check_deadline here r sw st statuses now :
  r ∈ reqs → state_good (key_of hash r sw) st → task_good (check_deadline here r sw st statuses now).
Proof.
  intros Hr Hst. unfold check_deadline. destruct (rq_background r); [|done]. destruct (_ <=? _)%N; [|done].
  apply good_or_panic. intros y. split_and!; [done|..].
  - split; [|done]. by apply own_of_good in Hst.
  - exists r. split_and!; try done. by exists sw.
Qed.

Lemma good_background_started here r statuses : r ∈ reqs → task_good (background_started here r statuses).
Proof. intros Hr. apply good_or_panic. intros y. by apply (good_respond r ""). Qed.

Lemma good_publish messages s : shared_good s → shared_good (foldl (flip publish) s messages).
Proof. revert s. induction messages as [|m messages IH]; intros s H; simpl; [done|]. apply IH. by destruct H. Qed.

Lemma good_send client e s : event_good client e → shared_good s → shared_good (send_to client e s).
Proof. intros He [Hf Hw Hs]. split; simpl; [done..|]. apply Forall_app. split; [done|]. by constructor. Qed.

Lemma good_add_waiter r sw s : r ∈ reqs → shared_good s → shared_good (add_waiter (key_of hash r sw) r s).
Proof.
  intros Hr [Hf Hw Hs]. split; simpl; [done| |done]. apply map_Forall_insert_2; [|done]. apply Forall_app. split.
  - destruct (sh_waiters s !! key_of hash r sw) as [ws|] eqn:E; [exact (Hw _ _ E)|by constructor].
  - constructor; [|constructor]. by exists r, sw.
Qed.

Lemma good_runtime active s : shared_good s → shared_good (with_runtime active (sh_waiters s) s).
Proof. by intros []. Qed.

Lemma good_saved ok st key s :
  state_good key st → shared_good s → shared_good (with_files (save_await ok st (sh_files s)) s).
Proof. intros Hst [Hf Hw Hs]. split; simpl; [by eapply good_save|done..]. Qed.

Lemma good_error r message : r ∈ reqs → event_good (rq_client r) (AwaitError (rq_id r) message).
Proof. intros Hr. by exists r. Qed.

Lemma good_spawn st sid : own_good st → Forall task_good [Starting st sid].
Proof. by constructor. Qed.

Lemma good_joined r sw st statuses expired :
  r ∈ reqs → state_good (key_of hash r sw) st →
  task_good (joined hash (Joining r sw st statuses expired) r sw st statuses expired).
Proof. intros Hr Hst. unfold joined. destruct expired; [|done]. by apply good_or_panic. Qed.

#[local] Hint Resolve good_prefer good_check_deadline good_background_started good_publish good_send good_add_waiter
  own_of_good good_runtime good_saved good_error good_spawn good_joined good_afterwards : await_good.

Lemma handler_good o t s t' spawned s' :
  seen (sh_members s) (sh_swarms s) → task_good t → shared_good s → advance_handler hash o t s = Some (t', spawned, s') →
  task_good t' ∧ Forall task_good spawned ∧ shared_good s'.
Proof.
  intros Hsn Ht Hs H. pose proof (good_files _ Hs) as Hf. destruct t; run_await H; destruct_and?; split_and!;
    eauto 8 using Forall_nil_2, watch_ids_good with await_good.
  - apply good_after_load; [done| |]; simpl; [done|]. intros st Hst. split; [done|]. intros st' E. by simplify_eq.
  - apply good_answer_or_wait; [done..|]. by apply (fulfils_now (wait_of r swarm_id) _ _ (sh_swarms s')).
  - apply good_after_load; [done..|]. intros st Hst. destruct (only_pending (Some st)) as [st'|] eqn:E; [|done].
    apply only_pending_some in E as [E _]. simplify_eq. by apply good_prefer.
  - done.
Qed.

Lemma good_latest v st :
  v_key v = pa_key (v_state v) → verdict_good v → (∀ st', st = Some st' → state_good (v_key v) st') →
  verdict_good (with_latest v st).
Proof.
  intros Hk [Hst Ha] Hl. unfold with_latest, verdict_good, verdict; simpl.
  assert (state_good (v_key v) (default (v_state v) (only_pending st))) as Hg.
  { destruct (only_pending st) as [st'|] eqn:E; [|done]. apply only_pending_some in E as [E _]. auto. }
  rewrite (proj1 Hg). done.
Qed.

Lemma good_resolved v now :
  verdict_good v → state_good (v_key v) (resolved (v_state v) (v_completed v) (v_members v) (v_summary v) now).
Proof. intros [(Hk & Hw & _) Ha]. split_and!; [done..|]. intros f Hf. by simplify_eq/=. Qed.

Lemma good_taken key s :
  shared_good s → Forall (waiter_good key) (default [] (sh_waiters s !! key))
  ∧ shared_good (with_runtime (sh_active s) (delete key (sh_waiters s)) s).
Proof.
  intros [Hf Hw Hs]. split.
  - destruct (sh_waiters s !! key) as [ws|] eqn:E; [exact (Hw _ _ E)|by constructor].
  - split; simpl; [done| |done]. by apply map_Forall_delete.
Qed.

Lemma good_response w ws v :
  Forall (waiter_good (v_key v)) (w :: ws) → verdict_good v →
  event_good (wt_client w) (AwaitResponse (wt_request_id w) (v_completed v) (v_members v) (v_summary v) false).
Proof.
  intros (r & sw & Hr & Hc & Hi & Hk)%Forall_inv [_ Ha]. exists r. split_and!; try done. exists sw. by rewrite Hk.
Qed.

Lemma finalize_good o t s t' spawned s' :
  task_good t → shared_good s → advance_finalize o t s = Some (t', spawned, s') →
  task_good t' ∧ Forall task_good spawned ∧ shared_good s'.
Proof.
  intros Ht Hs H. pose proof (good_files _ Hs) as Hf. destruct t; run_await H; destruct_and?; split_and!;
    eauto 8 using Forall_nil_2, good_resolved with await_good.
  - rewrite <-H. apply good_after_load; [done|..]; simpl.
    + split; [|done]. by apply good_latest.
    + intros st Hst. split; [|done]. apply good_latest; [done..|]. intros st' E. by simplify_eq.
  - by apply good_taken.
  - by apply good_taken.
  - by eapply Forall_inv_tail.
  - apply good_send; [|done]. by eapply good_response.
  - by apply good_runtime.
Qed.

Lemma good_retained key s n s' : shared_good s → retain_open_waiters key s = (n, s') → shared_good s'.
Proof.
  unfold retain_open_waiters. intros [Hf Hw Hs] H. destruct (sh_waiters s !! key) as [ws|] eqn:E; simplify_eq; [|done].
  split; simpl; [done| |done].
  assert (Forall (waiter_good key) (List.filter (is_open s) ws)) as Hk.
  { apply Forall_forall. intros w Hin%elem_of_filterb. pose proof (Hw _ _ E) as Hk.
    simpl in Hk. rewrite Forall_forall in Hk. apply Hk, Hin. }
  destruct (List.filter (is_open s) ws); [by apply map_Forall_delete|by apply map_Forall_insert_2].
Qed.

Lemma good_verdict st completed members summary next :
  own_good st → answer_good (pa_key st) completed members → next_good next →
  task_good (Refreshing (verdict st completed members summary) next).
Proof. intros Hst Ha Hn. split; [done|]. split; [split; [exact Hst|exact Ha]|exact Hn]. Qed.

Lemma good_judge here w members swarms ids :
  seen members swarms → own_good (w_state w) → ids_good (pa_wait (w_state w)) ids →
  task_good (judge here w (awaited_member_statuses (watched w) members ids)).
Proof.
  intros Hsn Hw Hids. unfold judge.
  assert (∀ statuses, statuses = [] ∨ mode_satisfied statuses (wa_mode (pa_wait (w_state w))) = true →
    statuses = awaited_member_statuses (watched w) members ids → answer_good (pa_key (w_state w)) true statuses) as Ha.
  { intros statuses Hor -> _. exists (pa_wait (w_state w)). split; [apply Hw|]. by eapply fulfils_now. }
  case_bool_decide as He.
  - apply good_verdict; [done| |done]. apply Ha; [by left|done].
  - destruct (mode_satisfied _ _) eqn:E; [|done]. apply good_or_panic. intros summary.
    apply good_verdict; [done| |done]. apply Ha; [by right|done].
Qed.

Lemma good_settle here now st rest members swarms ids :
  seen members swarms → own_good st → Forall own_good rest → ids_good (pa_wait st) ids →
  task_good (settle here now st rest (awaited_member_statuses (pa_wait st) members ids)).
Proof.
  intros Hsn Hst Hrest Hids. unfold settle. cbv zeta. case_bool_decide as He.
  - apply good_or_panic. intros y. apply good_verdict; [done| |done].
    intros _. exists (pa_wait st). split; [apply Hst|]. eapply fulfils_now; [done..|]. by left.
  - destruct (mode_satisfied _ _) eqn:E; apply good_or_panic; intros y; apply good_verdict; try done.
    intros _. exists (pa_wait st). split; [apply Hst|]. eapply fulfils_now; [done..|]. by right.
Qed.

Lemma watcher_good o t s t' spawned s' :
  seen (sh_members s) (sh_swarms s) → task_good t → shared_good s → advance_watcher o t s = Some (t', spawned, s') →
  task_good t' ∧ Forall task_good spawned ∧ shared_good s'.
Proof.
  intros Hsn Ht Hs H. pose proof (good_files _ Hs) as Hf. destruct t; run_await H; destruct_and?; split_and!;
    eauto 8 using Forall_nil_2, good_retained, good_judge with await_good.
  - by eapply watch_ids_good.
  - apply good_after_load; [done|..]; simpl; [by destruct (is_background w None)|].
    intros st _. by destruct (is_background w (Some st)).
  - by destruct (n =? 0).
  - apply good_or_panic. intros summary. by apply good_verdict.
Qed.

Lemma resume_good o t s t' spawned s' :
  seen (sh_members s) (sh_swarms s) → task_good t → shared_good s → advance_resume o t s = Some (t', spawned, s') →
  task_good t' ∧ Forall task_good spawned ∧ shared_good s'.
Proof.
  intros Hsn Ht Hs H. pose proof (good_files _ Hs) as Hf.
  destruct t; run_await H; destruct_and?; decompose_Forall_hyps; split_and!;
    eauto 8 using Forall_nil_2, good_settle, watch_ids_good with await_good.
  - apply Forall_forall. intros st Hin%elem_of_filterb. rewrite Forall_forall in Ht. apply Ht, Hin.
  - apply good_after_load; [done|..]; simpl; [by rewrite app_nil_r|].
    intros st Hst. apply Forall_app. split; [done|]. unfold is_pending. case_bool_decide; [|done].
    constructor; [by eapply own_of_good|done].
  - destruct (negb _); [|done]. by apply good_spawn.
Qed.

Lemma advance_good o t s t' spawned s' :
  seen (sh_members s) (sh_swarms s) → task_good t → shared_good s → advance_await hash o t s = Some (t', spawned, s') →
  task_good t' ∧ Forall task_good spawned ∧ shared_good s'.
Proof.
  intros Hsn Ht Hs H. destruct t; simpl in H;
    try (first [by eapply (handler_good o)|by eapply (finalize_good o)|by eapply (watcher_good o)
               |by eapply (resume_good o)]);
    unfold goes in H; simplify_eq.
  split_and!; [done..|]. destruct Hs as [Hf Hw Hsent]. split; simpl; [|done..].
  unfold discard_await. destruct (o_file_ok o); [by apply map_Forall_delete|done].
Qed.
End with_requests.

Lemma event_good_mono reqs reqs' client e : reqs ⊆ reqs' → event_good reqs client e → event_good reqs' client e.
Proof. intros Hsub (r & Hr & H). exists r. auto. Qed.

Lemma waiter_good_mono reqs reqs' key w : reqs ⊆ reqs' → waiter_good reqs key w → waiter_good reqs' key w.
Proof. intros Hsub (r & sw & Hr & H). exists r, sw. auto. Qed.

Lemma next_good_mono reqs reqs' next : reqs ⊆ reqs' → next_good reqs next → next_good reqs' next.
Proof. intros Hsub. destruct next; simpl; eauto using event_good_mono. Qed.

Lemma task_good_mono reqs reqs' t : reqs ⊆ reqs' → task_good reqs t → task_good reqs' t.
Proof.
  intros Hsub. induction t; simpl; intros; destruct_and?; split_and?; eauto using event_good_mono, next_good_mono.
  eapply Forall_impl; [done|]. eauto using waiter_good_mono.
Qed.

Definition server_good (s : AwaitServer) : Prop :=
  shared_good (as_requests s) (as_shared s) ∧ Forall (task_good (as_requests s)) (as_tasks s).

Lemma server_good_step s s' :
  seen (sh_members (as_shared s)) (sh_swarms (as_shared s)) → server_good s → await_step hash s s' → server_good s'.
Proof.
  intros Hsn [Hs Ht] [r|names|members swarms clock uptime closed Hu Hc|s'' Hst]; simpl.
  - assert (as_requests s ⊆ as_requests s ++ [r]) as Hsub by set_solver. destruct Hs as [Hf Hw Hsent].
    split; [split|]; simpl.
    + done.
    + eapply map_Forall_impl; [done|]. intros k ws Hws. simpl in *.
      eapply Forall_impl; [exact Hws|]. intros w. by apply waiter_good_mono.
    + eapply Forall_impl; [exact Hsent|]. intros m. by apply event_good_mono.
    + apply Forall_app. split; [eapply Forall_impl; [exact Ht|]; intros t; by apply task_good_mono|]. constructor; [|done]. simpl. set_solver.
  - split; [done|]. apply Forall_app. split; [done|]. by repeat constructor.
  - split; [|done]. by destruct Hs.
  - destruct Hst as [o before t after t' spawned sh Hts Had]. simpl in *. rewrite Hts in Ht.
    apply Forall_app in Ht as [Hb [Ht Ha]%Forall_cons].
    destruct (advance_good _ _ _ _ _ _ _ Hsn Ht Hs Had) as (Ht' & Hsp & Hs').
    split; [done|]. simpl. rewrite Forall_app, Forall_cons, Forall_app. auto.
Qed.

End at_some_time.

Lemma files_good_mono (seen seen' : Members → gmap string (gset string) → Prop) files :
  (∀ members swarms, seen members swarms → seen' members swarms) → files_good seen files → files_good seen' files.
Proof.
  intros H Hfiles. eapply map_Forall_impl; [exact Hfiles|]. intros key st (Hk & Hw & Hf). split_and!; [done..|]. intros f Hfin Hc.
  destruct (Hf f Hfin Hc) as (w & Hkey & [Hreq Hnone] & (members & swarms & Hs & Hms) & Hmode). exists w. split; [done|].
  split; [split; [done|]|]; [intros Hr; destruct (Hnone Hr) as (m & sw & waiting & ? & ?); exists m, sw, waiting; auto|].
  split; [|done]. exists members, swarms. auto.
Qed.

(** The server had these tables at some time between [s0] and [s]. *)
Definition held (s0 s : AwaitServer) (members : Members) (swarms : gmap string (gset string)) : Prop :=
  ∃ s1, rtc (await_step hash) s0 s1 ∧ rtc (await_step hash) s1 s
      ∧ sh_members (as_shared s1) = members ∧ sh_swarms (as_shared s1) = swarms.

Lemma server_good_steps seen s0 s1 s :
  (∀ members swarms, held s0 s members swarms → seen members swarms) →
  rtc (await_step hash) s0 s1 → rtc (await_step hash) s1 s → server_good seen s1 → server_good seen s.
Proof.
  intros Hseen H01 H1s. induction H1s as [s1|s1 s2 s H12 H2s IH]; intros Hg; [done|].
  apply IH; [done|by eapply rtc_r|]. eapply server_good_step; [|exact Hg|exact H12].
  apply Hseen. exists s1. split_and!; [done| |done|done]. by eapply rtc_l.
Qed.

(** C31 (safety). What an agent is told is so.  When a wait is reported as over, the members
    listed are those that a wait with the same key names, or, when it names none, those of its
    swarm at some time without one session.  There was a time, in this run or an earlier one
    that left the result in a file, at which each of them had the status that is listed;
    sessions that are gone are listed as unknown.  A member is marked as done exactly when its
    status is one that was waited for, or when it is unknown and stopped or completed ones
    were waited for.  In mode any one of them is done (or there is none), else all are.  And a
    report that the wait is over is never given to a request whose watch has only begun.
    ([before] are the tables of earlier runs.) *)
Theorem a_finished_wait_is_over before files now uptime members swarms s client id ms summary bg :
  files_good before files → rtc (await_step hash) (start_await files now uptime members swarms) s →
  (client, AwaitResponse id true ms summary bg) ∈ sh_sent (as_shared s) →
  let seen members' swarms' := before members' swarms' ∨ held (start_await files now uptime members swarms) s members' swarms' in
  bg = false
  ∧ ∃ r sw w, r ∈ as_requests s ∧ rq_client r = client ∧ rq_id r = id
      ∧ await_request_key hash w = key_of hash r sw ∧ fulfils seen w ms.
Proof.
  intros Hf Hr Hin seen. assert (server_good seen s) as [[_ _ Hsent] _].
  { apply (server_good_steps seen (start_await files now uptime members swarms) (start_await files now uptime members swarms));
      [by right|done|done|]. split; [|done]. split; [|done..]. eapply files_good_mono; [|exact Hf]. by left. }
  rewrite Forall_forall in Hsent. destruct (Hsent _ Hin) as (r & Hreq & Hc & Hid & (sw & Ha) & Hb); simpl in *.
  split; [by apply Hb|]. destruct (Ha eq_refl) as (w & Hw & Hful). by exists r, sw, w.
Qed.
End truth.

(** ** Schedules, for concrete runs *)

Inductive AwaitMove :=
| Ask (r : AwaitRequest)
| StartUp (names : list string)
| Meanwhile (members : Members) (swarms : gmap string (gset string)) (clock uptime : N) (closed : gset nat)
| Run (i : nat) (o : AwaitOutcome).

Definition await_move (hash : string → N) (m : AwaitMove) (s : AwaitServer) : option AwaitServer :=
  match m with
  | Ask r => Some {| as_shared := as_shared s; as_tasks := as_tasks s ++ [Arrived r]; as_requests := as_requests s ++ [r] |}
  | StartUp names =>
      Some {| as_shared := as_shared s; as_tasks := as_tasks s ++ [Scanning names []]; as_requests := as_requests s |}
  | Meanwhile members swarms clock uptime closed =>
      if bool_decide ((sh_uptime (as_shared s) ≤ uptime)%N ∧ sh_closed (as_shared s) ⊆ closed)
      then Some {| as_shared := with_world members swarms clock uptime closed (as_shared s); as_tasks := as_tasks s;
                   as_requests := as_requests s |}
      else None
  | Run i o =>
      t ← as_tasks s !! i;
      '(t', spawned, sh) ← advance_await hash o t (as_shared s);
      Some {| as_shared := sh; as_tasks := take i (as_tasks s) ++ t' :: drop (S i) (as_tasks s) ++ spawned;
              as_requests := as_requests s |}
  end.

Fixpoint await_play (hash : string → N) (ms : list AwaitMove) (s : AwaitServer) : option AwaitServer :=
  match ms with
  | [] => Some s
  | m :: ms => s ← await_move hash m s; await_play hash ms s
  end.

Lemma await_play_reachable hash ms s s' : await_play hash ms s = Some s' → rtc (await_step hash) s s'.
Proof.
  revert s. induction ms as [|m ms IH]; intros s H; simpl in H; [by simplify_eq|].
  apply bind_Some in H as (s1 & Hm & H). eapply rtc_l; [|by apply IH].
  destruct m as [r|names|members swarms clock uptime closed|i o]; simpl in Hm; simplify_eq; try by constructor.
  - case_bool_decide as Hb; simplify_eq. destruct Hb. by constructor.
  - apply bind_Some in Hm as (t & Ht & [[[t' spawned] sh] [Had Hm]]%bind_Some). simplify_eq.
    apply await_step_task. econstructor; [|done]. by rewrite take_drop_middle.
Qed.

Definition plain_member (session_id status : string) : SwarmMember := {|
  m_session_id := session_id; m_swarm_id := Some "s"; m_status := status; m_detail := None; m_task_label := None;
  m_friendly_name := Some session_id; m_report_back_to := None; m_latest_completion_report := None; m_role := "agent";
  m_joined_at := 0; m_last_status_change := 0; m_is_headless := false; m_output_tail := None; m_elapsed_secs := None |}.

Definition lead_and_worker (status : string) : Members :=
  <["lead" := plain_member "lead" "running"]> {["w1" := plain_member "w1" status]}.

Definition the_swarm : gmap string (gset string) := {["s" := {["lead"; "w1"]}]}.

Definition ask (id : N) (client : nat) (background : bool) : AwaitRequest := {|
  rq_id := id; rq_client := client; rq_session_id := "lead"; rq_target_status := ["completed"];
  rq_requested_ids := []; rq_mode := None; rq_timeout_secs := Some 60%N; rq_background := background;
  rq_notify := true; rq_wake := true |}.

Definition zero_hash (_ : string) : N := 0.

Definition fresh_start : AwaitServer := start_await ∅ 0 0 (lead_and_worker "running") the_swarm.

Definition works (w : WakeUp) : AwaitOutcome := {| o_file_ok := true; o_wake_up := w |}.
Definition runs (i n : nat) : list AwaitMove := repeat (Run i (works EventSeen)) n.

(** The lead waits on its socket; its watcher sleeps; the worker completes and the watcher,
    woken by the event, tells the lead. *)
Definition waited_out : list AwaitMove :=
  [Ask (ask 1 0 false)] ++ runs 0 11 ++ runs 1 5
  ++ [Meanwhile (lead_and_worker "completed") the_swarm 500 500 ∅] ++ runs 1 11.

Definition played (ms : list AwaitMove) : AwaitServer := default fresh_start (await_play zero_hash ms fresh_start).


Lemma no_await_is_answered_twice_witness :
  await_answered (0, 1%N) (played waited_out) = 1
  ∧ await_answered (0, 1%N) (played waited_out) + await_waiting (0, 1%N) (played waited_out)
    = await_asked (0, 1%N) (played waited_out).
Proof.
  split; [by vm_compute|]. apply (no_await_is_answered_twice zero_hash ∅ 0 0 (lead_and_worker "running") the_swarm).
  - apply (await_play_reachable zero_hash waited_out). by vm_compute.
  - intros t Ht. left. assert (as_tasks (played waited_out) = [Finished; Finished]) as E by (by vm_compute).
    rewrite E in Ht. by apply list_elem_of_In in Ht as [<-|[<-|[]]].
  - apply (bool_decide_eq_true_1 _). by vm_compute.
Defined.

Definition worker_is_done : AwaitedMemberStatus := {|
  am_session_id := "w1"; am_friendly_name := Some "w1"; am_status := "completed"; am_done := true;
  am_completion_report := None |}.

Lemma the_lead_is_told :
  sh_sent (as_shared (played waited_out)) = [(0, AwaitResponse 1 true [worker_is_done] "All 1 members are done: w1" false)].
Proof. by vm_compute. Qed.

Lemma a_finished_wait_is_over_witness :
  ∃ r w members swarms, r ∈ as_requests (played waited_out) ∧ rq_id r = 1%N
    ∧ held zero_hash (start_await ∅ 0 0 (lead_and_worker "running") the_swarm) (played waited_out) members swarms
    ∧ status_in members "w1" = "completed" ∧ "completed" ∈ wa_target_status w.
Proof.
  destruct (a_finished_wait_is_over zero_hash (λ _ _, False) ∅ 0 0 (lead_and_worker "running") the_swarm (played waited_out) 0 1%N
    [worker_is_done] "All 1 members are done: w1" false) as [_ (r & sw & w & Hr & _ & Hid & Hk & _ & (members & swarms & Hs & Hms) & _)].
  - apply map_Forall_empty.
  - apply (await_play_reachable zero_hash waited_out). by vm_compute.
  - rewrite the_lead_is_told. constructor.
  - destruct Hs as [[]|Hs]. destruct (Hms worker_is_done) as [Hst [Hdone _]]; [constructor|].
    exists r, w, members, swarms. split_and!; [exact Hr|exact Hid|exact Hs|exact (eq_sym Hst)|].
    destruct (Hdone eq_refl) as [H|[H _]]; [exact H|discriminate].
Defined.

(** ** Where the code departs from what it promises *)

(** The client of a wait leaves; the watcher finds no waiter, and before it has cleared the
    key a second request joins: it takes the watcher that ends for one that watches. *)
Definition joined_too_late : list AwaitMove :=
  [Ask (ask 1 0 false)] ++ runs 0 11 ++ runs 1 4
  ++ [Meanwhile (lead_and_worker "running") the_swarm 500 500 {[0]}] ++ runs 1 1
  ++ [Ask (ask 2 7 false)] ++ runs 2 8 ++ runs 1 1.

Example a_waiter_is_forgotten :
  as_tasks (played joined_too_late) = [Finished; Finished; Finished]
  ∧ await_answered (7, 2%N) (played joined_too_late) = 0 ∧ await_waiting (7, 2%N) (played joined_too_late) = 1
  ∧ sh_active (as_shared (played joined_too_late)) = ∅ ∧ bool_decide (7 ∈ sh_closed (as_shared (played joined_too_late))) = false.
Proof. by vm_compute. Qed.

(** A request that finds the wait expired finalizes it, and so does the watcher. *)
Definition expired_twice : list AwaitMove :=
  [Ask (ask 1 0 true)] ++ runs 0 12 ++ runs 1 4
  ++ [Meanwhile (lead_and_worker "running") the_swarm 60000 60000 ∅; Ask (ask 2 1 true)] ++ runs 2 14
  ++ [Run 1 (works DeadlinePassed)] ++ runs 1 7.

Definition is_completion (m : BusMessage) : bool :=
  match m with SwarmAwaitCompleted _ _ _ _ _ _ => true | _ => false end.

Example one_wait_is_announced_twice :
  as_tasks (played expired_twice) = [Finished; Finished; Finished]
  ∧ length (List.filter is_completion (sh_bus (as_shared (played expired_twice)))) = 2.
Proof. by vm_compute. Qed.

(** The eighth byte of the awaited session is inside a character: the task that is about to
    name it panics, and the key stays active without a watcher. *)
Definition odd_session : string := "abcdefg" +:+ String "195" (String "169" "").

Definition ask_for_odd : AwaitRequest := {|
  rq_id := 1; rq_client := 0; rq_session_id := "lead"; rq_target_status := ["ready"];
  rq_requested_ids := [odd_session]; rq_mode := None; rq_timeout_secs := None; rq_background := true;
  rq_notify := true; rq_wake := true |}.

Example naming_a_session_panics :
  valid_utf8 odd_session = true
  ∧ (let s := played ([Ask ask_for_odd] ++ runs 0 11) in
     (∃ t, as_tasks s = [Panicked t]) ∧ sh_sent (as_shared s) = [] ∧ size (sh_active (as_shared s)) = 1).
Proof. split; [by vm_compute|]. split; [|by vm_compute]. vm_compute. by eexists. Qed.

(** A wait that timed out is asked for again when its member has completed: the statuses are
    read and satisfy it, and so the old response is replayed, which says that it timed out. *)
Definition asked_again : list AwaitMove :=
  [Ask (ask 1 0 false)] ++ runs 0 11 ++ runs 1 5
  ++ [Meanwhile (lead_and_worker "running") the_swarm 60000 60000 ∅; Run 1 (works DeadlinePassed)] ++ runs 1 8
  ++ [Meanwhile (lead_and_worker "completed") the_swarm 61000 61000 ∅; Ask (ask 2 1 false)] ++ runs 2 5.

Example a_timeout_is_replayed_when_all_are_done :
  ∃ ms summary, last (sh_sent (as_shared (played asked_again))) = Some (1, AwaitResponse 2 false ms summary false)
    ∧ summary = "Timed out. Still waiting on: w1 (running)"
    ∧ mode_satisfied (awaited_member_statuses (wait_of (ask 2 1 false) "s") (sh_members (as_shared (played asked_again)))
        ["w1"]) None = true.
Proof. eexists _, _. split; [by vm_compute|]. by split; vm_compute. Qed.
