(* ===== verification/RunPlan.v ===== *)
(** * The driver of a plan

    crates/jcode-app-core/src/tool/communicate.rs, the action run_plan: a coordinator reads
    the status of the plan and the members of the swarm, assigns what is runnable up to a
    limit, waits until a worker is done, and begins again, until nothing is left to run.
    The driver is a client of the server: whatever it learns is an [Answer] to its last
    request, and [advance_driver] says what it does next with any answer.  So the theorems
    hold for every server, the one modelled here and every state it can be in.  The requests
    and the lines for the progress card are the [Action]s of a step. *)

From S2P Require Import MutationState.
From S2P Require Import Prelude RustStr RustText SwarmProgress SwarmMembers PlanStatus Effects CommFormat.

(** [usize::MAX] on a machine with 64 bits. *)
Definition USIZE_MAX : N := 2 ^ 64 - 1.

Definition LIGHT_MODE_DEFAULT_CONCURRENCY : N := 4.

(** ** Members *)

Definition swarm_member_is_in_flight (m : AgentInfo) : bool :=
  match ai_status m with Some status => mem status ["queued"; "running"; "running_stale"] | None => false end.

Definition swarm_member_is_drivable_worker (m : AgentInfo) (coordinator_session_id : string) : bool :=
  default false (ai_is_headless m) || bool_decide (ai_report_back_to_session_id m = Some coordinator_session_id).

(** The members that a run may wait for. *)
Definition is_driven (coordinator_session_id : string) (m : AgentInfo) : bool :=
  negb (bool_decide (ai_session_id m = coordinator_session_id))
  && swarm_member_is_in_flight m && swarm_member_is_drivable_worker m coordinator_session_id.

Definition in_flight_swarm_session_ids (members : list AgentInfo) (coordinator_session_id : string) : list string :=
  map ai_session_id (List.filter (is_driven coordinator_session_id) members).

Definition coordination_in_flight_count (summary : PlanGraphStatus) (members : list AgentInfo)
    (current_session_id : string) : nat :=
  Nat.max (length (st_active_ids summary)) (length (List.filter (is_driven current_session_id) members)).

(** ** How many workers *)

Definition resolve_run_plan_concurrency (requested : option N) (is_deep : bool) (deep_cap : N) : N :=
  match requested with
  | Some explicit => N.max explicit 1
  | None =>
      if is_deep then if (deep_cap =? 0)%N then USIZE_MAX else deep_cap
      else LIGHT_MODE_DEFAULT_CONCURRENCY
  end.

Record RunPlanUtilization := { peak_in_flight : N; loops : N; starved_loops : N }.

Definition no_utilization : RunPlanUtilization := {| peak_in_flight := 0; loops := 0; starved_loops := 0 |}.

Definition record_loop (in_flight : N) (open_slots : option N) (dispatched : N) (u : RunPlanUtilization) :
    RunPlanUtilization := {|
  peak_in_flight := N.max (peak_in_flight u) (in_flight + dispatched);
  loops := loops u + 1;
  starved_loops :=
    starved_loops u + match open_slots with
                      | Some slots => if (0 <? slots) && (dispatched <? slots) then 1 else 0
                      | None => 0
                      end |}%N.

Definition report (concurrency_limit : N) (is_deep : bool) (u : RunPlanUtilization) : string :=
  let limit_label := if (concurrency_limit =? USIZE_MAX)%N then "unbounded" else pretty concurrency_limit in
  let line :=
    "Budget utilization: peak " +:+ pretty (peak_in_flight u) +:+ " of " +:+ limit_label
    +:+ " concurrent worker slot(s); " +:+ pretty (starved_loops u) +:+ " of " +:+ pretty (loops u)
    +:+ " loop(s) had idle capacity with nothing ready." in
  let mostly_starved := (0 <? loops u)%N && (loops u <=? starved_loops u * 2)%N in
  let ran_narrow := (3 <=? loops u)%N && (peak_in_flight u <=? 2)%N in
  if is_deep && (mostly_starved || ran_narrow) then
    line +:+ newline
    +:+ "Deep-mode hint: the graph ran much narrower than the agent budget. If coverage "
    +:+ "matters, expand remaining or follow-up work into MANY independent sibling nodes "
    +:+ "(depends_on only for real data dependencies) so the ready set fills the budget."
  else line.

(** ** Errors *)

Definition RUN_PLAN_WORKER_RETENTION_HINT : string :=
  newline +:+ "Spawned workers were retained; run `swarm cleanup` to stop them, rerun `swarm run_plan` to resume driving the same plan, or `swarm plan_status` to inspect.".

Definition with_worker_retention_hint (message : string) : string :=
  if contains_str "swarm cleanup" message then message else message +:+ RUN_PLAN_WORKER_RETENTION_HINT.

Inductive AssignErrorAction := BreakGracefully | RecoverCapacity | FailRun.

Definition classify_assign_error (message : string) : AssignErrorAction :=
  if contains_str "No runnable unassigned tasks" message || contains_str "No ready or completed swarm agents" message
  then BreakGracefully
  else if contains_str "Swarm member limit reached" message then RecoverCapacity
  else FailRun.

Inductive CapRecoveryStep := RetryFresh | RetryReuse | GiveUp.

Definition cap_recovery_step (cap_hits freed : nat) : CapRecoveryStep :=
  if 1 <? cap_hits then GiveUp else if 0 <? freed then RetryFresh else RetryReuse.

(** ** Summaries *)

Definition plan_terminal_node_count (summary : PlanGraphStatus) : nat :=
  size (list_to_set (st_completed_ids summary ++ st_failed_ids summary ++ st_blocked_ids summary
                     ++ st_cycle_ids summary) : gset string).

Definition dot_separated (parts : list string) : string := join (" " +:+ middle_dot +:+ " ") parts.

Definition run_plan_progress_snapshot (summary : PlanGraphStatus) (live_active assignment_count : nat) :
    nat * nat * string :=
  let completed := length (st_completed_ids summary) in
  let active := Nat.max (length (st_active_ids summary)) live_active in
  (completed, st_item_count summary,
   dot_separated ["completed " +:+ pretty_nat completed; "failed " +:+ pretty_nat (length (st_failed_ids summary));
                  "blocked " +:+ pretty_nat (length (st_blocked_ids summary)); "active " +:+ pretty_nat active;
                  "assignments " +:+ pretty_nat assignment_count]).

Definition failure_line (summary : PlanGraphStatus) (id : string) : string :=
  match st_failed_reasons summary !! id with
  | Some reason => newline +:+ "  " +:+ id +:+ ": " +:+ reason
  | None => ""
  end.

Definition format_run_plan_terminal_summary (loop_count : nat) (summary : PlanGraphStatus) (assignment_count : nat) :
    string :=
  "Swarm plan reached terminal/blocked state after " +:+ pretty_nat loop_count +:+ " loop(s). completed="
  +:+ pretty_nat (length (st_completed_ids summary)) +:+ " failed=" +:+ pretty_nat (length (st_failed_ids summary))
  +:+ " blocked=" +:+ pretty_nat (length (st_blocked_ids summary)) +:+ " cycles="
  +:+ pretty_nat (length (st_cycle_ids summary)) +:+ " active=" +:+ pretty_nat (length (st_active_ids summary))
  +:+ " assignments=" +:+ pretty_nat assignment_count
  +:+ (if eq_ignore_ascii_case (st_mode summary) "deep" then
         newline +:+ "Growth: " +:+ pretty_nat (st_seeded_count summary) +:+ " seeded -> "
         +:+ pretty_nat (st_item_count summary) +:+ " nodes (" +:+ pretty_nat (st_grown_count summary)
         +:+ " machinery-grown: expansions, gate-injected gaps, gates)."
       else "")
  +:+ (if bool_decide (st_failed_ids summary = []) then ""
       else newline +:+ "Failed nodes: " +:+ join ", " (st_failed_ids summary)
            +:+ ". This run did NOT finish cleanly; inspect them with `swarm plan_status` and retry or salvage before trusting the result."
            +:+ join "" (map (failure_line summary) (st_failed_ids summary))).

(** ** Broken credentials *)

Definition CREDENTIAL_FAILURE_WAVE_MIN_WORKERS : nat := 2.
Definition CREDENTIAL_FAILURE_WAVE_WINDOW_SECS : N := 60.

(** crates/jcode-provider-core/src/fallback_pick.rs. *)
Definition error_looks_like_credential_failure (error : string) : bool :=
  let lower := to_ascii_lowercase error in
  existsb (λ marker, contains_str marker lower)
    ["token refresh failed"; "refresh_token_invalidated"; "re-authenticate"; "session has ended"; "authentication_error";
     "invalid_grant"; "invalid x-api-key"; "invalid api key"; "incorrect api key"; "api key not valid"; "token expired";
     "unauthorized"; "oauth token expired"; "no refresh token"; "credentials have been revoked"; "please log in again";
     "run /login"].

Record CredentialFailureWave := {
  cw_session_ids : list string;
  cw_sample_detail : string;
  cw_provider : option string;
}.

(** A worker of the run that failed lately for want of a credential, with the detail. *)
Definition credential_failure (coordinator_session_id : string) (window_secs : N) (m : AgentInfo) :
    option (string * string * option string) :=
  if bool_decide (ai_session_id m = coordinator_session_id)
     || negb (swarm_member_is_drivable_worker m coordinator_session_id)
     || negb (bool_decide (ai_status m = Some "failed"))
  then None
  else match ai_detail m with
       | None => None
       | Some detail =>
           if error_looks_like_credential_failure detail
              && match ai_status_age_secs m with Some age => (age <=? window_secs)%N | None => false end
           then Some (ai_session_id m, detail, ai_provider_name m) else None
       end.

Definition detect_credential_failure_wave (members : list AgentInfo) (coordinator_session_id : string)
    (completed_node_count : nat) (window_secs : N) : option CredentialFailureWave :=
  if 0 <? completed_node_count then None
  else
    let failures := omap (credential_failure coordinator_session_id window_secs) members in
    if length failures <? CREDENTIAL_FAILURE_WAVE_MIN_WORKERS then None
    else Some {| cw_session_ids := map (λ f, f.1.1) failures;
                 cw_sample_detail := default "" (head (map (λ f, f.1.2) failures));
                 cw_provider := head (omap snd failures) |}.

Definition credential_login_fix_hint (provider : option string) : string :=
  let target :=
    match to_ascii_lowercase <$> provider with
    | Some p =>
        if mem p ["anthropic"; "claude"] then "claude"
        else if mem p ["openai"; "codex"] then "openai"
        else if mem p ["google"; "gemini"] then "gemini"
        else if is_blank p then "<provider>" else p
    | None => "<provider>"
    end in
  "`jcode login --provider " +:+ target +:+ "`".

Definition format_credential_failure_wave_error (wave : CredentialFailureWave) (window_secs : N) : string :=
  "run_plan paused dispatching: " +:+ pretty_nat (length (cw_session_ids wave)) +:+ " worker(s) failed within "
  +:+ pretty window_secs +:+ "s with credential/auth failures and no plan node has completed (e.g. "
  +:+ default "worker" (head (cw_session_ids wave)) +:+ ": " +:+ dquote +:+ cw_sample_detail wave +:+ dquote
  +:+ "). A broken credential (expired OAuth session, revoked refresh token, or invalid API key) "
  +:+ "fails every worker on that route, so assigning more nodes would only fail more of the "
  +:+ "plan. Fix auth first: run " +:+ credential_login_fix_hint (cw_provider wave)
  +:+ " (or pin a working API-key route), then requeue the failed nodes (`swarm retry`) and run `swarm run_plan` again.".

(** ** Requests, answers, and what a driver knows *)

Record RunOptions := {
  ro_session_id : string;
  ro_target_session : option string;
  ro_working_dir : option string;
  ro_message : option string;
  ro_model : option string;
  ro_effort : option string;
  ro_concurrency_limit : option N;
  ro_timeout_minutes : option N;
  ro_retain_agents : option bool;
  ro_spawn_if_needed : option bool;
  ro_prefer_spawn : option bool;
  ro_deep_cap : N;              (** [swarm_max_concurrent_agents] of the configuration *)
  ro_background : bool;         (** whether the reporter feeds a progress card *)
}.

Inductive DriverRequest :=
| CommPlanStatus
| CommList
| CommAssignNext (target_session working_dir : option string) (prefer_spawn spawn_if_needed : option bool)
    (message model effort : option string)
| CommStop (target_session : string) (force : bool)
| CommAwaitMembers (target_status session_ids : list string) (mode : string) (timeout_secs : N)
| CommMessage (message : string)
| Sleep (millis : N).

Inductive Action :=
| Request (r : DriverRequest)
| Log (line : string)
| ShowProgress (progress : nat * nat * string)
| Checkpoint (message : string).

Inductive ServerReply :=
| PlanStatusReply (summary : PlanGraphStatus)
| MembersReply (members : list AgentInfo)
| AssignTaskReply (task_id target_session : string)
| AwaitReply (completed : bool) (summary : string)
| ErrorReply (message : string)
| OtherReply.

Inductive Answer :=
| Reply (r : ServerReply)
| Unsent (error : string)       (** the request was not answered *)
| Ticked                        (** time to refresh the progress card *)
| Woken.                        (** the sleep is over *)

(** [ensure_success]. *)
Definition ensure_success (r : ServerReply) : option string :=
  match r with ErrorReply message => Some message | _ => None end.

Definition fetched_plan_status (a : Answer) : option (result PlanGraphStatus string) :=
  match a with
  | Reply (PlanStatusReply summary) => Some (Ok summary)
  | Reply r => Some (Err (default "No plan status returned." (ensure_success r)))
  | Unsent e => Some (Err ("Failed to get plan status: " +:+ e))
  | _ => None
  end.

Definition fetched_swarm_members (a : Answer) : option (result (list AgentInfo) string) :=
  match a with
  | Reply (MembersReply members) => Some (Ok members)
  | Reply r => Some (match ensure_success r with Some message => Err message | None => Ok [] end)
  | Unsent e => Some (Err ("Failed to list swarm members: " +:+ e))
  | _ => None
  end.

(** Whether a session was stopped. *)
Definition stop_result (a : Answer) : option (result unit string) :=
  match a with
  | Reply r => Some (match ensure_success r with Some message => Err message | None => Ok tt end)
  | Unsent e => Some (Err e)
  | _ => None
  end.

Record WorkerCleanupOutcome := { wc_stopped : list string; wc_failed : list string }.

Definition nothing_stopped : WorkerCleanupOutcome := {| wc_stopped := []; wc_failed := [] |}.

Definition describe (o : WorkerCleanupOutcome) : string :=
  (if bool_decide (wc_stopped o = []) then "Stopped no swarm workers."
   else "Stopped " +:+ pretty_nat (length (wc_stopped o)) +:+ " swarm worker(s): " +:+ join ", " (wc_stopped o))
  +:+ (if bool_decide (wc_failed o = []) then ""
       else newline +:+ "Failed to stop " +:+ pretty_nat (length (wc_failed o)) +:+ " worker(s): "
            +:+ join ", " (wc_failed o)).

Definition with_stop (target : string) (r : result unit string) (o : WorkerCleanupOutcome) : WorkerCleanupOutcome :=
  match r with
  | Ok _ => {| wc_stopped := wc_stopped o ++ [target]; wc_failed := wc_failed o |}
  | Err e => {| wc_stopped := wc_stopped o; wc_failed := wc_failed o ++ [target +:+ " (" +:+ e +:+ ")"] |}
  end.

(** The workers of a coordinator that are at rest. *)
Definition finished_workers (session_id : string) (members : list AgentInfo) : list string :=
  comm_cleanup_candidate_session_ids session_id members default_comm_cleanup_target_statuses [] false.

(** One round of assignments: what the loop has read and what it has assigned. *)
Record Wave := {
  wv_summary : PlanGraphStatus;
  wv_in_flight : list string;
  wv_active_count : N;
  wv_available_slots : N;
  wv_slots_remaining : N;
  wv_assigned_sessions : list string;
  wv_cap_hits : nat;
  wv_reuse_only : bool;
}.

Definition open_wave (limit : N) (summary : PlanGraphStatus) (in_flight : list string) : Wave :=
  let active_count := N.of_nat (Nat.max (length (st_active_ids summary)) (length in_flight)) in
  {| wv_summary := summary; wv_in_flight := in_flight; wv_active_count := active_count;
     wv_available_slots := limit - active_count; wv_slots_remaining := limit - active_count;
     wv_assigned_sessions := []; wv_cap_hits := 0; wv_reuse_only := false |}%N.

Definition assigned_to (target_session : string) (w : Wave) : Wave := {|
  wv_summary := wv_summary w; wv_in_flight := wv_in_flight w; wv_active_count := wv_active_count w;
  wv_available_slots := wv_available_slots w; wv_slots_remaining := wv_slots_remaining w - 1;
  wv_assigned_sessions := wv_assigned_sessions w ++ [target_session]; wv_cap_hits := wv_cap_hits w;
  wv_reuse_only := wv_reuse_only w |}%N.

Definition with_cap_hits (cap_hits : nat) (reuse_only : bool) (w : Wave) : Wave := {|
  wv_summary := wv_summary w; wv_in_flight := wv_in_flight w; wv_active_count := wv_active_count w;
  wv_available_slots := wv_available_slots w; wv_slots_remaining := wv_slots_remaining w;
  wv_assigned_sessions := wv_assigned_sessions w; wv_cap_hits := cap_hits; wv_reuse_only := reuse_only |}.

(** Where the driver waits for an answer. *)
Inductive Phase :=
| ReadingMode                                        (** the first status, for the mode *)
| ReadingStatus                                      (** the head of the loop *)
| ReadingMembers (summary : PlanGraphStatus)
| Alerting (message : string)
| Assigning (w : Wave)
| ListingFinished (w : Wave)                         (** capacity recovery *)
| Freeing (w : Wave) (target : string) (rest : list string) (o : WorkerCleanupOutcome)
| BackingOff
| AwaitingProgress (ready_baseline : list string)
| RefreshingStatus (ready_baseline : list string)
| RefreshingMembers (ready_baseline : list string) (summary : PlanGraphStatus)
| ListingForCleanup (output : string)
| CleaningUp (output target : string) (rest : list string) (o : WorkerCleanupOutcome)
| Ended (outcome : result string string).

Record Driver := {
  d_limit : N;
  d_is_deep : bool;
  d_assignment_count : nat;
  d_loop_count : nat;
  d_utilization : RunPlanUtilization;
  d_transient_stall_loops : nat;
  d_phase : Phase;
}.

Definition with_phase (p : Phase) (d : Driver) : Driver := {|
  d_limit := d_limit d; d_is_deep := d_is_deep d; d_assignment_count := d_assignment_count d;
  d_loop_count := d_loop_count d; d_utilization := d_utilization d;
  d_transient_stall_loops := d_transient_stall_loops d; d_phase := p |}.

Definition with_counts (assignments loop_count transient : nat) (u : RunPlanUtilization) (d : Driver) : Driver := {|
  d_limit := d_limit d; d_is_deep := d_is_deep d; d_assignment_count := assignments; d_loop_count := loop_count;
  d_utilization := u; d_transient_stall_loops := transient; d_phase := d_phase d |}.

Definition max_loops : nat := 200.
Definition max_transient_stall_loops : nat := 5.

(** ** The steps of the loop *)

Section driver.
Context (o : RunOptions).

Definition fail_run (message : string) (d : Driver) : Driver * list Action :=
  (with_phase (Ended (Err (with_worker_retention_hint message))) d, []).

Definition finish_run (output : string) (d : Driver) : Driver * list Action := (with_phase (Ended (Ok output)) d, []).

Definition ask (p : Phase) (r : DriverRequest) (d : Driver) : Driver * list Action := (with_phase p d, [Request r]).

Definition and_before (actions : list Action) (next : Driver * list Action) : Driver * list Action :=
  (next.1, actions ++ next.2).

Definition start_loop (d : Driver) : Driver * list Action :=
  let d := with_counts (d_assignment_count d) (S (d_loop_count d)) (d_transient_stall_loops d) (d_utilization d) d in
  if max_loops <? d_loop_count d
  then fail_run ("run_plan exceeded " +:+ pretty_nat max_loops
                 +:+ " coordination loops; leaving workers untouched for inspection") d
  else ask ReadingStatus CommPlanStatus d.

(** The wait is over: the next loop, without a memory of stalls. *)
Definition after_progress (d : Driver) : Driver * list Action :=
  start_loop (with_counts (d_assignment_count d) (d_loop_count d) 0 (d_utilization d) d).

Definition await_timeout_secs : N := ((N.max (N.max (default 60 (ro_timeout_minutes o)) 1) 1 * 60) mod 2 ^ 64)%N.

Definition await_request (session_ids : list string) : DriverRequest :=
  CommAwaitMembers default_comm_run_await_statuses session_ids "any" await_timeout_secs.

Definition stall_detail (summary : PlanGraphStatus) : string :=
  let stuck := sorted_ids (list_to_set (st_next_ready_ids summary ++ st_ready_ids summary)) in
  if bool_decide (stuck = []) then "no ready tasks and no in-flight workers"
  else "runnable task(s) " +:+ join ", " stuck +:+ " could not be assigned to any drivable worker".

(** Nothing to wait for: a moment's patience when something is active, else the run is stuck. *)
Definition nothing_to_await (w : Wave) (d : Driver) : Driver * list Action :=
  if (0 <? wv_active_count w)%N then
    let d := with_counts (d_assignment_count d) (d_loop_count d) (S (d_transient_stall_loops d)) (d_utilization d) d in
    if d_transient_stall_loops d <=? max_transient_stall_loops then ask BackingOff (Sleep 500) d
    else fail_run ("run_plan found " +:+ pretty (wv_active_count w)
                   +:+ " active task(s) but no running swarm members to await after "
                   +:+ pretty_nat max_transient_stall_loops
                   +:+ " re-checks; inspect plan_status and member list before retrying") d
  else fail_run ("run_plan stalled after " +:+ pretty_nat (d_loop_count d) +:+ " loop(s): "
                 +:+ stall_detail (wv_summary w)
                 +:+ ". This usually means a task is assigned to a session run_plan cannot drive (foreign or stale member). Reassign with an explicit target_session, or clear the stale assignment, then retry.") d.

(** The sessions to wait for: those that were assigned, or those that were already at work. *)
Definition await_sessions (w : Wave) : list string :=
  match wv_assigned_sessions w with [] => wv_in_flight w | assigned => assigned end.

Definition close_wave (w : Wave) (d : Driver) : Driver * list Action :=
  let u := record_loop (wv_active_count w)
             (if (d_limit d =? USIZE_MAX)%N then None else Some (wv_available_slots w))
             (N.of_nat (length (wv_assigned_sessions w))) (d_utilization d) in
  let d := with_counts (d_assignment_count d) (d_loop_count d) (d_transient_stall_loops d) u d in
  match await_sessions w with
  | [] => nothing_to_await w d
  | sessions => ask (AwaitingProgress (st_ready_ids (wv_summary w))) (await_request sessions) d
  end.

Definition assign_next_request (reuse_only : bool) : DriverRequest :=
  CommAssignNext (ro_target_session o) (ro_working_dir o)
    (if reuse_only then Some false else Some (default true (ro_prefer_spawn o)))
    (if reuse_only then Some false else Some (default true (ro_spawn_if_needed o)))
    (ro_message o) (ro_model o) (ro_effort o).

(** The head of [while slots_remaining > 0]. *)
Definition fill_slots (w : Wave) (d : Driver) : Driver * list Action :=
  if (0 <? wv_slots_remaining w)%N then ask (Assigning w) (assign_next_request (wv_reuse_only w)) d
  else close_wave w d.

(** After the cleanup freed that many members. *)
Definition recovered (w : Wave) (freed : nat) (d : Driver) : Driver * list Action :=
  match cap_recovery_step (wv_cap_hits w) freed with
  | RetryFresh => fill_slots w d
  | RetryReuse =>
      and_before [Log "member cap reached and no finished workers to free; falling back to reusing ready workers (prefer_spawn=false)"]
        (fill_slots (with_cap_hits (wv_cap_hits w) true w) d)
  | GiveUp =>
      and_before [Log "member cap still reached after recovery; continuing with in-flight work"] (close_wave w d)
  end.

Definition assign_refused (message : string) (w : Wave) (d : Driver) : Driver * list Action :=
  match classify_assign_error message with
  | BreakGracefully => close_wave w d
  | RecoverCapacity =>
      let w := with_cap_hits (S (wv_cap_hits w)) (wv_reuse_only w) w in
      if wv_cap_hits w =? 1 then ask (ListingFinished w) CommList d else recovered w 0 d
  | FailRun => fail_run message d
  end.

Definition assign_answered (a : Answer) (w : Wave) (d : Driver) : option (Driver * list Action) :=
  match a with
  | Reply (AssignTaskReply task_id target_session) =>
      let d := with_counts (S (d_assignment_count d)) (d_loop_count d) (d_transient_stall_loops d) (d_utilization d) d in
      Some (and_before [Log ("assigned " +:+ task_id +:+ " -> " +:+ target_session)]
              (fill_slots (assigned_to target_session w) d))
  | Reply (ErrorReply message) => Some (assign_refused message w d)
  | Reply _ => Some (fill_slots w d)
  | Unsent e => Some (fail_run ("Failed to assign next swarm task: " +:+ e) d)
  | _ => None
  end.

(** The finished workers that may be stopped: none that this wave has assigned. *)
Definition freeable (members : list AgentInfo) (w : Wave) : list string :=
  List.filter (λ session_id, negb (mem session_id (wv_assigned_sessions w)))
    (finished_workers (ro_session_id o) members).

Definition free_next (w : Wave) (candidates : list string) (out : WorkerCleanupOutcome) (d : Driver) : Driver * list Action :=
  match candidates with
  | target :: rest => ask (Freeing w target rest out) (CommStop target false) d
  | [] => and_before [Log ("member-cap recovery: " +:+ describe out)] (recovered w (length (wc_stopped out)) d)
  end.

Definition finished_listed (members : result (list AgentInfo) string) (w : Wave) (d : Driver) : Driver * list Action :=
  match members with
  | Ok members =>
      match freeable members w with [] => recovered w 0 d | candidates => free_next w candidates nothing_stopped d end
  | Err _ => recovered w 0 d
  end.

(** ** The end of a run *)

Definition terminal_output (summary : PlanGraphStatus) (d : Driver) : string :=
  format_run_plan_terminal_summary (d_loop_count d) summary (d_assignment_count d)
  +:+ newline +:+ report (d_limit d) (d_is_deep d) (d_utilization d)
  +:+ (if bool_decide (st_low_confidence_ids summary = []) then ""
       else newline +:+ "Confidence coverage: " +:+ pretty_nat (length (st_low_confidence_ids summary))
            +:+ " completed node(s) self-reported LOW confidence: " +:+ join ", " (st_low_confidence_ids summary)
            +:+ ". Consider seeding follow-up nodes to shore these up before trusting the result.").

Definition terminate (summary : PlanGraphStatus) (d : Driver) : Driver * list Action :=
  let output := terminal_output summary d in
  if default false (ro_retain_agents o)
  then finish_run (output +:+ newline +:+ "Retained spawned workers because retain_agents=true.") d
  else ask (ListingForCleanup output) CommList d.

Definition clean_next (output : string) (candidates : list string) (out : WorkerCleanupOutcome) (d : Driver) :
    Driver * list Action :=
  match candidates with
  | target :: rest => ask (CleaningUp output target rest out) (CommStop target false) d
  | [] => finish_run (output +:+ newline +:+ describe out) d
  end.

Definition cleanup_listed (output : string) (members : result (list AgentInfo) string) (d : Driver) : Driver * list Action :=
  match members with
  | Err message => fail_run message d
  | Ok members =>
      match finished_workers (ro_session_id o) members with
      | [] => finish_run (output +:+ newline
                +:+ "No cleanup candidates found. Default cleanup only stops sessions spawned by this coordinator with status in ["
                +:+ join ", " default_comm_cleanup_target_statuses +:+ "].") d
      | candidates => clean_next output candidates nothing_stopped d
      end
  end.

(** ** One loop, from the status and the members *)

Definition is_over (summary : PlanGraphStatus) (in_flight : list string) : bool :=
  let no_more_runnable :=
    bool_decide (st_active_ids summary = []) && bool_decide (st_next_ready_ids summary = []) && bool_decide (in_flight = []) in
  no_more_runnable || (st_item_count summary <=? plan_terminal_node_count summary).

Definition status_read (summary : PlanGraphStatus) (d : Driver) : Driver * list Action :=
  if st_item_count summary =? 0 then finish_run "No swarm plan items to run." d
  else ask (ReadingMembers summary) CommList d.

Definition members_read (summary : PlanGraphStatus) (members : list AgentInfo) (d : Driver) : Driver * list Action :=
  let in_flight := in_flight_swarm_session_ids members (ro_session_id o) in
  match detect_credential_failure_wave members (ro_session_id o) (length (st_completed_ids summary))
          CREDENTIAL_FAILURE_WAVE_WINDOW_SECS with
  | Some wave =>
      let message := format_credential_failure_wave_error wave CREDENTIAL_FAILURE_WAVE_WINDOW_SECS in
      and_before [Checkpoint message] (ask (Alerting message) (CommMessage message) d)
  | None =>
      and_before [ShowProgress (run_plan_progress_snapshot summary (length in_flight) (d_assignment_count d))]
        (if is_over summary in_flight then terminate summary d
         else fill_slots (open_wave (d_limit d) summary in_flight) d)
  end.

Definition alert_answered (a : Answer) (message : string) (d : Driver) : option (Driver * list Action) :=
  let failed_alert error := and_before [Log ("failed to broadcast credential-failure alert to the swarm: " +:+ error)] in
  match a with
  | Reply r =>
      Some (match ensure_success r with
            | Some error => failed_alert error (fail_run message d)
            | None => fail_run message d
            end)
  | Unsent e => Some (failed_alert ("Failed to broadcast plan alert: " +:+ e) (fail_run message d))
  | _ => None
  end.

(** ** Waiting *)

Definition await_should_wake_for_new_ready (ready_baseline : list string) (summary : PlanGraphStatus) : bool :=
  existsb (λ id, negb (mem id ready_baseline)) (st_ready_ids summary).

Definition await_answered (a : Answer) (ready_baseline : list string) (d : Driver) : option (Driver * list Action) :=
  match a with
  | Reply (AwaitReply completed summary) =>
      Some (if completed then after_progress d else fail_run ("Timed out waiting for swarm progress: " +:+ summary) d)
  | Reply r => Some (match ensure_success r with Some message => fail_run message d | None => after_progress d end)
  | Unsent e => Some (fail_run ("Failed while awaiting swarm progress: " +:+ e) d)
  | Ticked => Some (ask (RefreshingStatus ready_baseline) CommPlanStatus d)
  | Woken => None
  end.

(** New work cuts the wait short; the request that waits is dropped. *)
Definition wake_or_wait (ready_baseline : list string) (summary : PlanGraphStatus) (d : Driver) : Driver * list Action :=
  if await_should_wake_for_new_ready ready_baseline summary
  then and_before [Log "ready frontier grew during await (retry/requeue or external unblock); re-entering dispatch loop"]
         (after_progress d)
  else (with_phase (AwaitingProgress ready_baseline) d, []).

Definition refreshed_status (ready_baseline : list string) (r : result PlanGraphStatus string) (d : Driver) :
    Driver * list Action :=
  match r with
  | Err _ => (with_phase (AwaitingProgress ready_baseline) d, [])
  | Ok summary =>
      if ro_background o then ask (RefreshingMembers ready_baseline summary) CommList d
      else wake_or_wait ready_baseline summary d
  end.

Definition refreshed_members (ready_baseline : list string) (summary : PlanGraphStatus)
    (members : result (list AgentInfo) string) (d : Driver) : Driver * list Action :=
  let live_active := match members with
                     | Ok members => length (in_flight_swarm_session_ids members (ro_session_id o))
                     | Err _ => 0
                     end in
  and_before [ShowProgress (run_plan_progress_snapshot summary live_active (d_assignment_count d))]
    (wake_or_wait ready_baseline summary d).

Definition choose_mode (summary : PlanGraphStatus) (d : Driver) : Driver := 
  let is_deep := eq_ignore_ascii_case (st_mode summary) "deep" in {|
  d_limit := resolve_run_plan_concurrency (ro_concurrency_limit o) is_deep (ro_deep_cap o); d_is_deep := is_deep;
  d_assignment_count := d_assignment_count d; d_loop_count := d_loop_count d; d_utilization := d_utilization d;
  d_transient_stall_loops := d_transient_stall_loops d; d_phase := d_phase d |}.

(** [x?] of a fetch. *)
Definition or_fail {A} (r : result A string) (d : Driver) (next : A → Driver * list Action) : Driver * list Action :=
  match r with Ok x => next x | Err message => fail_run message d end.

(** What the driver does with an answer; [None] when it does not wait for one of that kind. *)
Definition advance_driver (a : Answer) (d : Driver) : option (Driver * list Action) :=
  match d_phase d with
  | ReadingMode => r ← fetched_plan_status a; Some (or_fail r d (λ summary, start_loop (choose_mode summary d)))
  | ReadingStatus => r ← fetched_plan_status a; Some (or_fail r d (λ summary, status_read summary d))
  | ReadingMembers summary =>
      r ← fetched_swarm_members a; Some (or_fail r d (λ members, members_read summary members d))
  | Alerting message => alert_answered a message d
  | Assigning w => assign_answered a w d
  | ListingFinished w => r ← fetched_swarm_members a; Some (finished_listed r w d)
  | Freeing w target rest out => r ← stop_result a; Some (free_next w rest (with_stop target r out) d)
  | BackingOff => match a with Woken => Some (start_loop d) | _ => None end
  | AwaitingProgress baseline => await_answered a baseline d
  | RefreshingStatus baseline => r ← fetched_plan_status a; Some (refreshed_status baseline r d)
  | RefreshingMembers baseline summary => r ← fetched_swarm_members a; Some (refreshed_members baseline summary r d)
  | ListingForCleanup output => r ← fetched_swarm_members a; Some (cleanup_listed output r d)
  | CleaningUp output target rest out => r ← stop_result a; Some (clean_next output rest (with_stop target r out) d)
  | Ended _ => None
  end.

(** [run_swarm_plan_to_terminal] begins with a request for the status. *)
Definition new_driver : Driver := {|
  d_limit := 0; d_is_deep := false; d_assignment_count := 0; d_loop_count := 0; d_utilization := no_utilization;
  d_transient_stall_loops := 0; d_phase := ReadingMode |}.

(** A run: the answers so far, the driver they led to, and everything it did. *)
Inductive run_plan : list Answer → Driver → list Action → Prop :=
| run_begins : run_plan [] new_driver [Request CommPlanStatus]
| run_goes_on seen d done a d' actions :
    run_plan seen d done → advance_driver a d = Some (d', actions) → run_plan (seen ++ [a]) d' (done ++ actions).

End driver.

(** ** One driver for a session

    Background runs are registered per session, in a table behind one lock; the guard of a
    claim releases it when the start is given up. *)

Inductive RunPlanDriverClaim := Starting | Running (task_id : string).

Abbreviation DriverClaims := (gmap string RunPlanDriverClaim).

Inductive RunPlanDriverClaimResult := Claimed | AlreadyRunning (task_id : option string).

(** [BackgroundTaskManager::is_live_task]: a table whose lock is taken is not read. *)
Definition is_live_task (locked : bool) (live : gset string) (task_id : string) : bool :=
  if locked then false else bool_decide (task_id ∈ live).

Definition try_claim_run_plan_driver (is_live : string → bool) (session_id : string) (claims : DriverClaims) :
    RunPlanDriverClaimResult * DriverClaims :=
  let take := (Claimed, <[session_id := Starting]> claims) in
  match claims !! session_id with
  | Some Starting => (AlreadyRunning None, claims)
  | Some (Running task_id) => if is_live task_id then (AlreadyRunning (Some task_id), claims) else take
  | None => take
  end.

Definition record_task (session_id task_id : string) (claims : DriverClaims) : DriverClaims :=
  <[session_id := Running task_id]> claims.

(** A guard that is dropped before [record_task]. *)
Definition drop_guard (session_id : string) (claims : DriverClaims) : DriverClaims :=
  match claims !! session_id with Some Starting => delete session_id claims | _ => claims end.

(** The table, the guards between claim and spawn, those between spawn and [record_task], the
    drivers that run in the background, those that run inline, and the ids that were given to
    tasks. *)
Record DriverTable := {
  dt_claims : DriverClaims;
  dt_guards : list string;
  dt_spawned : list (string * string);
  dt_live : list (string * string);
  dt_inline : list string;
  dt_used : gset string;
}.

Definition no_drivers : DriverTable := {|
  dt_claims := ∅; dt_guards := []; dt_spawned := []; dt_live := []; dt_inline := []; dt_used := ∅ |}.

Inductive TableMove :=
| TryClaim (session_id : string) (locked : bool)     (** whether the lock of the task table is taken *)
| GiveUpGuard (session_id : string)
| SpawnDriver (session_id task_id : string)
| RecordDriver (session_id task_id : string)
| DropStart (session_id task_id : string)            (** the start is dropped while it waits for the task table *)
| DriverEnds (session_id task_id : string)
| InlineBegins (session_id : string)                 (** [background=false] claims nothing *)
| InlineEnds (session_id : string).

Definition without {A} `{EqDecision A} (x : A) (l : list A) : list A := List.filter (λ y, negb (bool_decide (y = x))) l.

Definition table_move (m : TableMove) (t : DriverTable) : option DriverTable :=
  match m with
  | TryClaim s locked =>
      let live := list_to_set (map snd (dt_live t)) in
      let '(r, claims) := try_claim_run_plan_driver (is_live_task locked live) s (dt_claims t) in
      Some {| dt_claims := claims; dt_guards := match r with Claimed => s :: dt_guards t | _ => dt_guards t end;
              dt_spawned := dt_spawned t; dt_live := dt_live t; dt_inline := dt_inline t; dt_used := dt_used t |}
  | GiveUpGuard s =>
      if mem s (dt_guards t) then
        Some {| dt_claims := drop_guard s (dt_claims t); dt_guards := without s (dt_guards t); dt_spawned := dt_spawned t;
                dt_live := dt_live t; dt_inline := dt_inline t; dt_used := dt_used t |}
      else None
  | SpawnDriver s task =>
      if mem s (dt_guards t) && negb (bool_decide (task ∈ dt_used t)) then
        Some {| dt_claims := dt_claims t; dt_guards := without s (dt_guards t); dt_spawned := (s, task) :: dt_spawned t;
                dt_live := (s, task) :: dt_live t; dt_inline := dt_inline t; dt_used := {[task]} ∪ dt_used t |}
      else None
  | RecordDriver s task =>
      if mem (s, task) (dt_spawned t) then
        Some {| dt_claims := record_task s task (dt_claims t); dt_guards := dt_guards t;
                dt_spawned := without (s, task) (dt_spawned t); dt_live := dt_live t; dt_inline := dt_inline t; dt_used := dt_used t |}
      else None
  | DropStart s task =>
      if mem (s, task) (dt_spawned t) then
        Some {| dt_claims := drop_guard s (dt_claims t); dt_guards := dt_guards t;
                dt_spawned := without (s, task) (dt_spawned t); dt_live := dt_live t; dt_inline := dt_inline t;
                dt_used := dt_used t |}
      else None
  | DriverEnds s task =>
      if mem (s, task) (dt_live t) then
        Some {| dt_claims := dt_claims t; dt_guards := dt_guards t; dt_spawned := dt_spawned t;
                dt_live := without (s, task) (dt_live t); dt_inline := dt_inline t; dt_used := dt_used t |}
      else None
  | InlineBegins s =>
      Some {| dt_claims := dt_claims t; dt_guards := dt_guards t; dt_spawned := dt_spawned t; dt_live := dt_live t;
              dt_inline := s :: dt_inline t; dt_used := dt_used t |}
  | InlineEnds s =>
      Some {| dt_claims := dt_claims t; dt_guards := dt_guards t; dt_spawned := dt_spawned t; dt_live := dt_live t;
              dt_inline := without s (dt_inline t); dt_used := dt_used t |}
  end.

Fixpoint table_moves (ms : list TableMove) (t : DriverTable) : option DriverTable :=
  match ms with
  | [] => Some t
  | m :: ms => t ← table_move m t; table_moves ms t
  end.
