(* ===== verification/SeedRetry.v ===== *)
(** * A seed that is repeated with new names

    crates/jcode-app-core/src/tool/communicate.rs, the action task_graph: when the server
    refuses a seed because a node id is taken, the tool renames that node and its
    dependents and sends the seed again, once for each colliding id. *)

From S2P Require Import MutationState.
From S2P Require Import Prelude RustStr RustText PlanStatus GraphHandlers RunPlan.

(** The text after the first occurrence of [p]. *)
Fixpoint after_first (p s : string) : option string :=
  match strip_prefix p s with
  | Some rest => Some rest
  | None => match s with EmptyString => None | String _ s => after_first p s end
  end.

Definition seed_node_id_collision (response : ServerReply) : option string :=
  match response with
  | ErrorReply message =>
      tail ← after_first "duplicate node id '" message;
      '(id, _) ← split_once "'"%char tail;
      if is_empty id then None else Some id
  | _ => None
  end.

Definition plan_graph_node_ids (summary : PlanGraphStatus) : gset string :=
  list_to_set (st_ready_ids summary ++ st_blocked_ids summary ++ st_active_ids summary ++ st_completed_ids summary
               ++ st_failed_ids summary ++ st_cycle_ids summary ++ st_unresolved_dependency_ids summary).

(** [format!("seed-{:08x}", finish() as u32)]. *)
Definition seed_retry_scope (hash : string → N) (session_id message_id : string) : string :=
  "seed-" +:+ hex_low 8 (hash (hash_str session_id +:+ hash_str message_id) mod 2 ^ 32) "".

(** [base], or the first of [base-2], [base-3], ... that is not reserved. *)
Fixpoint free_candidate (reserved : gset string) (base : string) (fuel : nat) (discriminator : N) : string :=
  let candidate := base +:+ "-" +:+ pretty discriminator in
  match fuel with
  | O => candidate
  | S fuel =>
      if bool_decide (candidate ∈ reserved) then free_candidate reserved base fuel (discriminator + 1) else candidate
  end.

Definition seed_candidate (reserved : gset string) (base : string) : string :=
  if bool_decide (base ∈ reserved) then free_candidate reserved base (size reserved) 2 else base.

Definition node_ids (nodes : list TaskGraphNodeSpec) : gset string := list_to_set (map t_id nodes).

(** The new name of one id, in ids and dependencies. *)
Definition rename_to (from to_ id : string) : string := if bool_decide (id = from) then to_ else id.

Definition rename_node (f : string → string) (node : TaskGraphNodeSpec) : TaskGraphNodeSpec := {|
  t_id := f (t_id node); t_content := t_content node; t_kind := t_kind node;
  t_depends_on := map f (t_depends_on node); t_priority := t_priority node |}.

Definition remap_conflicting_seed_nodes (nodes : list TaskGraphNodeSpec) (occupied : gset string)
    (conflicting_id scope : string) : list TaskGraphNodeSpec * list (string * string) :=
  if bool_decide (conflicting_id ∈ occupied) && mem conflicting_id (map t_id nodes) then
    let candidate := seed_candidate (occupied ∪ node_ids nodes) (conflicting_id +:+ "::" +:+ scope) in
    (map (rename_node (rename_to conflicting_id candidate)) nodes,
     map (λ node, (t_id node, candidate)) (List.filter (λ node, bool_decide (t_id node = conflicting_id)) nodes))
  else (nodes, []).

Definition format_seed_remaps (changes : list (string * string)) : string :=
  join ", " (map (λ c, c.1 +:+ " -> " +:+ c.2) changes).

(** ** The loop *)

Inductive SeedOutcome :=
| Seeded (nodes : list TaskGraphNodeSpec) (changes : list (string * string)) (output : string)
| SeedFailed (message : string)
| SeedPanicked.                      (** [unreachable!] *)

Section seeding.
(** The server and all that happens to it between two requests. *)
Context {World : Type}.
Context (send_seed : list TaskGraphNodeSpec → World → result ServerReply string * World).
Context (fetch_plan_status : World → result PlanGraphStatus string * World).
Context (scope : string) (count : nat).

Definition seeded_output (changes : list (string * string)) : string :=
  "Seeded task graph (" +:+ pretty_nat count +:+ " nodes)."
  +:+ (if bool_decide (changes = []) then "" else " Renamed conflicting ids: " +:+ format_seed_remaps changes +:+ ".").

(** The ids of the plan, fetched at the first collision. *)
Definition occupied_ids (occupied : option (gset string)) (w : World) : result (gset string) string * World :=
  match occupied with
  | Some ids => (Ok ids, w)
  | None => let '(r, w) := fetch_plan_status w in (let? summary := r in Ok (plan_graph_node_ids summary), w)
  end.

Fixpoint seed_loop (iterations : nat) (nodes : list TaskGraphNodeSpec) (response : ServerReply)
    (changes : list (string * string)) (occupied : option (gset string)) (w : World) : SeedOutcome * World :=
  match iterations with
  | O => (match ensure_success response with Some message => SeedFailed message | None => SeedPanicked end, w)
  | S iterations =>
      match seed_node_id_collision response with
      | None => (match ensure_success response with
                 | Some message => SeedFailed message
                 | None => Seeded nodes changes (seeded_output changes)
                 end, w)
      | Some conflicting_id =>
          let '(ids, w) := occupied_ids occupied w in
          match ids with
          | Err message => (SeedFailed message, w)
          | Ok ids =>
              let '(remapped, remaps) := remap_conflicting_seed_nodes nodes ids conflicting_id scope in
              if bool_decide (remaps = []) then
                (match ensure_success response with Some message => SeedFailed message | None => SeedPanicked end, w)
              else
                let '(r, w) := send_seed remapped w in
                match r with
                | Err e => (SeedFailed ("Failed to retry task graph seed: " +:+ e), w)
                | Ok response => seed_loop iterations remapped response (changes ++ remaps) (Some ids) w
                end
          end
      end
  end.
End seeding.

(** The action, once the arguments are there. *)
Definition seed_task_graph {World : Type} (send_seed : list TaskGraphNodeSpec → World → result ServerReply string * World)
    (fetch_plan_status : World → result PlanGraphStatus string * World) (scope : string)
    (nodes : list TaskGraphNodeSpec) (w : World) : SeedOutcome * World :=
  match nodes with
  | [] => (SeedFailed "'nodes' must include at least one node", w)
  | _ =>
      let '(r, w) := send_seed nodes w in
      match r with
      | Err e => (SeedFailed ("Failed to seed task graph: " +:+ e), w)
      | Ok response => seed_loop send_seed fetch_plan_status scope (length nodes) (S (length nodes)) nodes response [] None w
      end
  end.
