(* ===== verification/RunPlanTheorems.v ===== *)
(** * Theorems about the driver of a plan

    Whatever the server answers: a run ends, keeps to its limit, waits for and stops only
    workers of its own, and reports success only when nothing is left that could run.  Then
    the registry of drivers, and the loop that renames the nodes of a refused seed. *)

From S2P Require Import MutationState.
From S2P Require Import Prelude RustStr RustText DagTypes PlanTypes PlanCycle Plan PlanLemmas SwarmCore SwarmProgress SwarmMembers PlanStatus Effects CommFormat GraphHandlers RunPlan SeedRetry.

(** ** What a run may do *)

Section driver.
Context (o : RunOptions).

(** A member that a reply has shown to be a worker of this coordinator, at rest. *)
Definition own_finished (seen : list Answer) (s : string) : Prop :=
  ∃ members m, Reply (MembersReply members) ∈ seen ∧ m ∈ members ∧ ai_session_id m = s ∧ s ≠ ro_session_id o
    ∧ ai_report_back_to_session_id m = Some (ro_session_id o)
    ∧ ∃ status, ai_status m = Some status ∧ status ∈ default_comm_cleanup_target_statuses.

(** A session that was given a task by this run, or that a reply has shown at work for it. *)
Definition own_worker (seen : list Answer) (s : string) : Prop :=
  (∃ task, Reply (AssignTaskReply task s) ∈ seen)
  ∨ ∃ members m, Reply (MembersReply members) ∈ seen ∧ m ∈ members ∧ ai_session_id m = s
      ∧ is_driven (ro_session_id o) m = true.

Definition action_ok (seen : list Answer) (act : Action) : Prop :=
  match act with
  | Request (CommStop s force) => force = false ∧ own_finished seen s
  | Request (CommAwaitMembers _ sessions _ _) => sessions ≠ [] ∧ ∀ s, s ∈ sessions → own_worker seen s
  | _ => True
  end.

Definition wave_ok (limit : N) (seen : list Answer) (w : Wave) : Prop :=
  (wv_slots_remaining w + N.of_nat (length (wv_assigned_sessions w)) = wv_available_slots w)%N
  ∧ wv_available_slots w = (limit - wv_active_count w)%N
  ∧ Forall (own_worker seen) (wv_in_flight w) ∧ Forall (own_worker seen) (wv_assigned_sessions w).

Definition phase_ok (limit : N) (seen : list Answer) (p : Phase) : Prop :=
  match p with
  | Assigning w => wave_ok limit seen w ∧ (0 < wv_slots_remaining w)%N
  | ListingFinished w => wave_ok limit seen w
  | Freeing w _ rest _ => wave_ok limit seen w ∧ Forall (own_finished seen) rest
  | CleaningUp _ _ rest _ => Forall (own_finished seen) rest
  | _ => True
  end.

Definition step_ok (seen : list Answer) (r : Driver * list Action) : Prop :=
  phase_ok (d_limit r.1) seen (d_phase r.1) ∧ Forall (action_ok seen) r.2.

Section with_seen.
Context (seen : list Answer).

Lemma fail_run_ok message d : step_ok seen (fail_run message d).
Proof. by split. Qed.

Lemma finish_run_ok output d : step_ok seen (finish_run output d).
Proof. by split. Qed.

Lemma and_before_ok actions r : Forall (action_ok seen) actions → step_ok seen r → step_ok seen (and_before actions r).
Proof. intros Ha [Hp Hr]. split; [done|]. by apply Forall_app. Qed.

Lemma log_before_ok line r : step_ok seen r → step_ok seen (and_before [Log line] r).
Proof. apply and_before_ok. by repeat constructor. Qed.

Lemma ask_ok p r d : phase_ok (d_limit d) seen p → action_ok seen (Request r) → step_ok seen (ask p r d).
Proof. intros Hp Hr. split; [done|]. by repeat constructor. Qed.

Lemma start_loop_ok d : step_ok seen (start_loop d).
Proof. unfold start_loop. case_match; [apply fail_run_ok|by apply ask_ok]. Qed.

Lemma after_progress_ok d : step_ok seen (after_progress d).
Proof. apply start_loop_ok. Qed.

Lemma nothing_to_await_ok w d : step_ok seen (nothing_to_await w d).
Proof.
  unfold nothing_to_await. cbv zeta. repeat case_match; try apply fail_run_ok. by apply ask_ok.
Qed.

Lemma close_wave_ok w d : wave_ok (d_limit d) seen w → step_ok seen (close_wave o w d).
Proof.
  intros (_ & _ & Hi & Ha). unfold close_wave. cbv zeta.
  assert (Forall (own_worker seen) (await_sessions w)) as Hall.
  { unfold await_sessions. by destruct (wv_assigned_sessions w). }
  destruct (await_sessions w) as [|s l] eqn:E; [apply nothing_to_await_ok|].
  apply ask_ok; [done|]. split; [done|]. by apply Forall_forall.
Qed.

Lemma fill_slots_ok w d : wave_ok (d_limit d) seen w → step_ok seen (fill_slots o w d).
Proof.
  intros Hw. unfold fill_slots. destruct (0 <? _)%N eqn:E; [|by apply close_wave_ok].
  apply ask_ok; [|done]. split; [done|]. by apply N.ltb_lt.
Qed.

Lemma recovered_ok w freed d : wave_ok (d_limit d) seen w → step_ok seen (recovered o w freed d).
Proof.
  intros Hw. unfold recovered. destruct (cap_recovery_step _ _); [by apply fill_slots_ok|..]; apply log_before_ok.
  - by apply fill_slots_ok.
  - by apply close_wave_ok.
Qed.

Lemma assign_refused_ok message w d : wave_ok (d_limit d) seen w → step_ok seen (assign_refused o message w d).
Proof.
  intros Hw. unfold assign_refused. destruct (classify_assign_error message); [by apply close_wave_ok| |apply fail_run_ok].
  cbv zeta. case_match; [by apply ask_ok|by apply recovered_ok].
Qed.

Lemma free_next_ok w candidates out d :
  wave_ok (d_limit d) seen w → Forall (own_finished seen) candidates → step_ok seen (free_next o w candidates out d).
Proof.
  intros Hw Hc. destruct candidates as [|target rest]; simpl; [by apply log_before_ok, recovered_ok|].
  apply Forall_cons in Hc as [Ht Hr]. by apply ask_ok.
Qed.

Lemma finished_workers_own members :
  Reply (MembersReply members) ∈ seen → Forall (own_finished seen) (finished_workers (ro_session_id o) members).
Proof.
  intros Hin. apply Forall_forall. intros s Hs. unfold finished_workers, comm_cleanup_candidate_session_ids in Hs.
  rewrite merge_sort_Permutation in Hs. apply list_elem_of_fmap in Hs as (m & -> & [Hm Hf]%elem_of_filterb).
  rewrite !andb_true_iff, negb_true_iff, bool_decide_eq_false in Hf. destruct Hf as [[[Hne _] Hstatus] Hown].
  exists members, m. split_and!; try done.
  - by apply bool_decide_eq_true in Hown.
  - destruct (ai_status m) as [status|]; [|done]. exists status. split; [done|]. by apply mem_true.
Qed.

Lemma in_flight_own members :
  Reply (MembersReply members) ∈ seen →
  Forall (own_worker seen) (in_flight_swarm_session_ids members (ro_session_id o)).
Proof.
  intros Hin. apply Forall_forall. intros s Hs. apply list_elem_of_fmap in Hs as (m & -> & [Hm Hf]%elem_of_filterb).
  right. by exists members, m.
Qed.

Lemma freeable_own members w :
  Reply (MembersReply members) ∈ seen → Forall (own_finished seen) (freeable o members w).
Proof.
  intros Hin. apply Forall_forall. intros s [Hs _]%elem_of_filterb.
  pose proof (finished_workers_own members Hin) as Hall. rewrite Forall_forall in Hall. by apply Hall.
Qed.

Lemma open_wave_ok limit summary members :
  Reply (MembersReply members) ∈ seen →
  wave_ok limit seen (open_wave limit summary (in_flight_swarm_session_ids members (ro_session_id o))).
Proof. intros Hin. split_and!; simpl; [lia|done|by apply in_flight_own|done]. Qed.

Lemma assigned_ok limit w task target :
  Reply (AssignTaskReply task target) ∈ seen → wave_ok limit seen w → (0 < wv_slots_remaining w)%N →
  wave_ok limit seen (assigned_to target w).
Proof.
  intros Hin (H1 & H2 & H3 & H4) Hpos. split_and!; simpl; try done.
  - rewrite length_app. simpl. lia.
  - apply Forall_app. split; [done|]. constructor; [|done]. left. by exists task.
Qed.

Lemma finished_listed_ok r w d :
  (∀ members, r = Ok members → Forall (own_finished seen) (freeable o members w)) →
  wave_ok (d_limit d) seen w → step_ok seen (finished_listed o r w d).
Proof.
  intros Hr Hw. unfold finished_listed. destruct r as [members|e]; [|by apply recovered_ok].
  specialize (Hr members eq_refl). destruct (freeable o members w) as [|c cs] eqn:E; [by apply recovered_ok|].
  by apply free_next_ok.
Qed.

Lemma clean_next_ok output candidates out d :
  Forall (own_finished seen) candidates → step_ok seen (clean_next output candidates out d).
Proof.
  intros Hc. destruct candidates as [|target rest]; simpl; [apply finish_run_ok|].
  apply Forall_cons in Hc as [Ht Hr]. by apply ask_ok.
Qed.

Lemma cleanup_listed_ok output r d :
  (∀ members, r = Ok members → Forall (own_finished seen) (finished_workers (ro_session_id o) members)) →
  step_ok seen (cleanup_listed o output r d).
Proof.
  intros Hr. unfold cleanup_listed. destruct r as [members|e]; [|apply fail_run_ok].
  specialize (Hr members eq_refl). destruct (finished_workers _ members) as [|c cs] eqn:E; [apply finish_run_ok|].
  by apply clean_next_ok.
Qed.

Lemma members_read_ok summary members d :
  Reply (MembersReply members) ∈ seen ∨ members = [] → step_ok seen (members_read o summary members d).
Proof.
  intros Hin. unfold members_read. cbv zeta. destruct (detect_credential_failure_wave _ _ _ _).
  - apply and_before_ok; [by repeat constructor|]. by apply ask_ok.
  - apply and_before_ok; [by repeat constructor|]. destruct (is_over _ _).
    + unfold terminate. case_match; [apply finish_run_ok|by apply ask_ok].
    + apply fill_slots_ok. destruct Hin as [Hin| ->]; [by apply open_wave_ok|].
      split_and!; simpl; [lia|done..].
Qed.

Lemma wake_or_wait_ok baseline summary d : step_ok seen (wake_or_wait baseline summary d).
Proof. unfold wake_or_wait. case_match; [apply log_before_ok, after_progress_ok|by split]. Qed.

(** The list of members that a driver believes. *)
Lemma fetched_members_seen a r members :
  a ∈ seen → fetched_swarm_members a = Some r → r = Ok members → Reply (MembersReply members) ∈ seen ∨ members = [].
Proof.
  intros Ha Hf ->. destruct a as [reply|e| |]; simpl in Hf; try done.
  destruct reply; simplify_eq/=; auto.
Qed.

Lemma fetched_finished a r members :
  a ∈ seen → fetched_swarm_members a = Some r → r = Ok members →
  Forall (own_finished seen) (finished_workers (ro_session_id o) members).
Proof.
  intros Ha Hf Hr. destruct (fetched_members_seen a r members Ha Hf Hr) as [Hin| ->]; [|done].
  by apply finished_workers_own.
Qed.

Lemma fetched_freeable a r w members :
  a ∈ seen → fetched_swarm_members a = Some r → r = Ok members → Forall (own_finished seen) (freeable o members w).
Proof.
  intros Ha Hf Hr. destruct (fetched_members_seen a r members Ha Hf Hr) as [Hin| ->]; [|done].
  by apply freeable_own.
Qed.

Lemma or_fail_ok {A} (r : result A string) d next :
  (∀ x, r = Ok x → step_ok seen (next x)) → step_ok seen (or_fail r d next).
Proof. intros H. destruct r; simpl; [by apply H|apply fail_run_ok]. Qed.

Lemma assign_answered_ok a w d r :
  a ∈ seen → wave_ok (d_limit d) seen w → (0 < wv_slots_remaining w)%N → assign_answered o a w d = Some r → step_ok seen r.
Proof.
  intros Ha Hw Hpos H. destruct a as [reply|e| |]; simpl in H; simplify_eq; [|apply fail_run_ok].
  destruct reply; simplify_eq; try by apply fill_slots_ok.
  - apply log_before_ok, fill_slots_ok. by eapply assigned_ok.
  - by apply assign_refused_ok.
Qed.

Lemma alert_answered_ok a message d r : alert_answered a message d = Some r → step_ok seen r.
Proof.
  intros H. destruct a as [reply|e| |]; simpl in H; simplify_eq; [|apply log_before_ok, fail_run_ok].
  destruct (ensure_success reply); [apply log_before_ok|]; apply fail_run_ok.
Qed.

Lemma await_answered_ok a baseline d r : await_answered a baseline d = Some r → step_ok seen r.
Proof.
  intros H. destruct a as [reply|e| |]; simpl in H; simplify_eq; [|apply fail_run_ok|by apply ask_ok].
  destruct reply as [| | |[]| |]; simplify_eq/=; solve [apply fail_run_ok|apply after_progress_ok].
Qed.

Lemma advance_ok a d r :
  a ∈ seen → phase_ok (d_limit d) seen (d_phase d) → advance_driver o a d = Some r → step_ok seen r.
Proof.
  intros Ha Hp H. unfold advance_driver in H. destruct (d_phase d) eqn:E; simpl in Hp; try done.
  all: try (apply bind_Some in H as (x & Hr & H)); try (apply (inj Some) in H; rewrite <-H; clear H).
  - apply or_fail_ok. intros. apply start_loop_ok.
  - apply or_fail_ok. intros summary _. unfold status_read. case_match; [apply finish_run_ok|by apply ask_ok].
  - apply or_fail_ok. intros members Hm. apply members_read_ok. by eapply fetched_members_seen.
  - by eapply alert_answered_ok.
  - destruct Hp. by eapply assign_answered_ok.
  - apply finished_listed_ok; [|done]. intros members. by eapply fetched_freeable.
  - destruct Hp. by apply free_next_ok.
  - destruct a; simplify_eq. apply start_loop_ok.
  - by eapply await_answered_ok.
  - unfold refreshed_status. destruct x; [|by split]. case_match; [by apply ask_ok|apply wake_or_wait_ok].
  - apply and_before_ok; [by repeat constructor|]. apply wake_or_wait_ok.
  - apply cleanup_listed_ok. intros members. by eapply fetched_finished.
  - by apply clean_next_ok.
Qed.
End with_seen.

(** What was seen stays seen. *)
Lemma own_finished_mono seen seen' s : seen ⊆ seen' → own_finished seen s → own_finished seen' s.
Proof. intros Hsub (members & m & Hin & H). exists members, m. auto. Qed.

Lemma own_worker_mono seen seen' s : seen ⊆ seen' → own_worker seen s → own_worker seen' s.
Proof. intros Hsub [(task & Hin)|(members & m & Hin & H)]; [left|right]; [by exists task; auto|by exists members, m; auto]. Qed.

Lemma action_ok_mono seen seen' act : seen ⊆ seen' → action_ok seen act → action_ok seen' act.
Proof.
  intros Hsub. destruct act as [[]| | |]; simpl; try done.
  - intros [Hf H]. eauto using own_finished_mono.
  - intros [Hne H]. eauto using own_worker_mono.
Qed.

Lemma wave_ok_mono limit seen seen' w : seen ⊆ seen' → wave_ok limit seen w → wave_ok limit seen' w.
Proof.
  intros Hsub (H1 & H2 & H3 & H4). split_and!; [done..| |]; (eapply Forall_impl; [done|]; intros; by eapply own_worker_mono).
Qed.

Lemma phase_ok_mono limit seen seen' p : seen ⊆ seen' → phase_ok limit seen p → phase_ok limit seen' p.
Proof.
  intros Hsub. destruct p; simpl; try done.
  - intros []. split; [by eapply wave_ok_mono|done].
  - by apply wave_ok_mono.
  - intros [Hw Hr]. split; [by eapply wave_ok_mono|]. eapply Forall_impl; [done|]. intros. by eapply own_finished_mono.
  - intros Hr. eapply Forall_impl; [done|]. intros. by eapply own_finished_mono.
Qed.

Lemma run_ok seen d done :
  run_plan o seen d done → phase_ok (d_limit d) seen (d_phase d) ∧ Forall (action_ok seen) done.
Proof.
  induction 1 as [|seen d done a d' actions Hrun [Hp Hd] Had]; [split; [done|by repeat constructor]|].
  assert (seen ⊆ seen ++ [a]) as Hsub by set_solver.
  destruct (advance_ok (seen ++ [a]) a d (d', actions)) as [Hp' Ha]; [set_solver|by eapply phase_ok_mono|done|].
  split; [done|]. apply Forall_app. split; [|done]. eapply Forall_impl; [done|]. intros. by eapply action_ok_mono.
Qed.

(** Whatever the server answers, a run stops only workers of its own coordinator
    that a reply has shown at rest, never by force, and waits only for sessions that it has
    given a task or that a reply has shown at work for it: the sessions of other people in the
    swarm are left alone and cannot hold it up. *)
Theorem a_run_touches_only_its_workers seen d done :
  run_plan o seen d done →
  (∀ s force, Request (CommStop s force) ∈ done → force = false ∧ own_finished seen s)
  ∧ (∀ targets sessions mode timeout s,
       Request (CommAwaitMembers targets sessions mode timeout) ∈ done → s ∈ sessions → own_worker seen s).
Proof.
  intros Hrun. destruct (run_ok _ _ _ Hrun) as [_ Hall]. rewrite Forall_forall in Hall. split.
  - intros s force Hin. exact (Hall _ Hin).
  - intros targets sessions mode timeout s Hin. exact (proj2 (Hall _ Hin) s).
Qed.

(** A task is only ever assigned to a free slot: when the driver asks for the next
    assignment, the workers it saw at work and those it has assigned since are fewer than its
    limit. *)
Theorem rounds_stay_within_the_limit seen d done w :
  run_plan o seen d done → d_phase d = Assigning w →
  (wv_active_count w + N.of_nat (length (wv_assigned_sessions w)) < d_limit d)%N
  ∧ (wv_active_count w + N.of_nat (length (wv_assigned_sessions w)) + wv_slots_remaining w = d_limit d)%N.
Proof.
  intros Hrun Hp. destruct (run_ok _ _ _ Hrun) as [Hw _]. rewrite Hp in Hw.
  destruct Hw as [(H1 & H2 & _) Hpos]. lia.
Qed.
End driver.

(** ** A run ends *)

(** Loops left; the stage of the loop; free slots; refusals left; and the step of a cleanup
    with the workers still to stop. *)
Definition Measure : Type := nat * (nat * (nat * (nat * (nat * nat)))).

Definition measure_lt : relation Measure := lex_lt lt (lex_lt lt (lex_lt lt (lex_lt lt (lex_lt lt lt)))).

Lemma measure_lt_wf : well_founded measure_lt.
Proof. repeat (apply lex_lt_wf; [apply lt_wf|]). apply lt_wf. Qed.

Definition in_wave (w : Wave) (part left : nat) : nat * (nat * (nat * (nat * nat))) :=
  (5, (N.to_nat (wv_slots_remaining w), (2 - wv_cap_hits w, (part, left)))).

Definition phase_measure (p : Phase) : nat * (nat * (nat * (nat * nat))) :=
  match p with
  | ReadingMode => (9, (0, (0, (0, 0))))
  | ReadingStatus => (8, (0, (0, (0, 0))))
  | ReadingMembers _ => (7, (0, (0, (0, 0))))
  | Alerting _ => (6, (0, (0, (0, 0))))
  | ListingFinished w => in_wave w 2 0
  | Freeing w _ rest _ => in_wave w 1 (length rest)
  | Assigning w => in_wave w 0 0
  | RefreshingStatus _ => (4, (0, (0, (0, 0))))
  | RefreshingMembers _ _ => (3, (0, (0, (0, 0))))
  | AwaitingProgress _ | BackingOff | ListingForCleanup _ => (2, (0, (0, (0, 0))))
  | CleaningUp _ _ rest _ => (1, (0, (0, (0, length rest))))
  | Ended _ => (0, (0, (0, (0, 0))))
  end.

Definition measure (d : Driver) : Measure := (max_loops - d_loop_count d, phase_measure (d_phase d)).

(** An answer that answers the question: no tick of the progress card, and to a request for an
    assignment an assignment or an error. *)
Definition proper (a : Answer) (d : Driver) : Prop :=
  match a, d_phase d with
  | Ticked, _ => False
  | Reply (AssignTaskReply _ _), Assigning _ | Reply (ErrorReply _), Assigning _ => True
  | Reply _, Assigning _ => False
  | _, _ => True
  end.

(** The driver moved on in its loop, or to the next one. *)
Definition descends (d d' : Driver) : Prop := measure_lt (measure d') (measure d).

Definition stage_below (stage : nat) (d d' : Driver) : Prop :=
  max_loops - d_loop_count d' < max_loops - d_loop_count d
  ∨ max_loops - d_loop_count d' = max_loops - d_loop_count d ∧ (phase_measure (d_phase d')).1 < stage.

Lemma stage_descends d d' : stage_below (phase_measure (d_phase d)).1 d d' → descends d d'.
Proof. intros [H|[H1 H2]]; [by left|]. right. simpl. rewrite H1. split; [done|]. by left. Qed.

#[local] Arguments max_loops : simpl never.

Section descent.
Context (o : RunOptions).

Lemma fail_run_below k message d : 0 < k → stage_below k d (fail_run message d).1.
Proof. intros Hk. by right. Qed.

Lemma finish_run_below k output d : 0 < k → stage_below k d (finish_run output d).1.
Proof. intros Hk. by right. Qed.

Lemma ask_below k p r d : (phase_measure p).1 < k → stage_below k d (ask p r d).1.
Proof. intros Hk. by right. Qed.

Lemma start_loop_below k d : 0 < k → stage_below k d (start_loop d).1.
Proof.
  intros Hk. unfold start_loop. cbv zeta. case_match eqn:E; simpl in E.
  - apply Nat.ltb_lt in E. destruct (decide (d_loop_count d < max_loops)) as [Hl|Hl]; [left|right]; simpl in *; unfold max_loops in *; lia.
  - apply Nat.ltb_ge in E. left. simpl in *. unfold max_loops in *. lia.
Qed.

Lemma after_progress_below k d : 0 < k → stage_below k d (after_progress d).1.
Proof.
  apply (start_loop_below k (with_counts (d_assignment_count d) (d_loop_count d) 0 (d_utilization d) d)).
Qed.

Lemma close_wave_below k w d : 2 < k → stage_below k d (close_wave o w d).1.
Proof.
  intros Hk. unfold close_wave, nothing_to_await. cbv zeta. destruct (await_sessions w); [|by right].
  repeat case_match; right; simpl; (split; [done|lia]).
Qed.

(** After a step inside a wave: the wave [w], or a later stage. *)
Definition wave_or_below (w : Wave) (d d' : Driver) : Prop :=
  (max_loops - d_loop_count d' = max_loops - d_loop_count d ∧ phase_measure (d_phase d') = in_wave w 0 0)
  ∨ stage_below 5 d d'.

Lemma fill_slots_wave w d : wave_or_below w d (fill_slots o w d).1.
Proof. unfold fill_slots. case_match; [by left|]. right. apply close_wave_below. lia. Qed.

Lemma recovered_wave w freed d : wave_or_below w d (recovered o w freed d).1.
Proof.
  unfold recovered. destruct (cap_recovery_step _ _); simpl; [apply fill_slots_wave| |right; apply close_wave_below; lia].
  apply (fill_slots_wave (with_cap_hits (wv_cap_hits w) true w) d).
Qed.

(** The wave [w'] comes after the wave that the driver is in. *)
Lemma wave_descends w w' part left d d' :
  phase_measure (d_phase d) = in_wave w part left →
  lex_lt lt (lex_lt lt (lex_lt lt lt)) (in_wave w' 0 0).2 (in_wave w part left).2 →
  wave_or_below w' d d' → descends d d'.
Proof.
  intros Hd Hlt [[Hl Hw]|Hb].
  - right. split; [done|]. simpl. rewrite Hd, Hw. by right.
  - apply stage_descends. by rewrite Hd.
Qed.

Lemma assign_descends a w d r :
  d_phase d = Assigning w → (0 < wv_slots_remaining w)%N → proper a d → assign_answered o a w d = Some r →
  descends d r.1.
Proof.
  intros Hd Hpos Hproper H. unfold proper in Hproper. rewrite Hd in Hproper.
  assert (phase_measure (d_phase d) = in_wave w 0 0) as Hm by (by rewrite Hd).
  assert (∀ d', stage_below 5 d d' → descends d d') as Hbelow by (intros d' Hb; apply stage_descends; by rewrite Hm).
  destruct a as [reply|e| |]; simpl in H; simplify_eq; [|apply Hbelow, fail_run_below; lia].
  destruct reply; simplify_eq; try done.
  - eapply (wave_descends w (assigned_to target_session w)); [done| |exact (fill_slots_wave _ (with_counts _ _ _ _ d))].
    left. simpl. lia.
  - unfold assign_refused. destruct (classify_assign_error message);
      [apply Hbelow, close_wave_below; lia| |apply Hbelow, fail_run_below; lia].
    cbv zeta. simpl. destruct (wv_cap_hits w =? 0) eqn:E.
    + apply Nat.eqb_eq in E. right. simpl. split; [done|]. rewrite Hm. right. split; [done|]. right. split; [done|].
      left. simpl. rewrite E. lia.
    + apply Nat.eqb_neq in E. unfold recovered. cbn [wv_cap_hits with_cap_hits].
      unfold cap_recovery_step. destruct (1 <? S (wv_cap_hits w)) eqn:E1; [|apply Nat.ltb_ge in E1; lia].
      simpl. apply Hbelow, close_wave_below. lia.
Qed.

Lemma listed_descends r w d : d_phase d = ListingFinished w → descends d (finished_listed o r w d).1.
Proof.
  intros Hd. assert (phase_measure (d_phase d) = in_wave w 2 0) as Hm by (by rewrite Hd).
  assert (∀ freed, descends d (recovered o w freed d).1) as Hrec.
  { intros freed. eapply (wave_descends w w); [done| |apply recovered_wave]. right. split; [done|]. right. split; [done|]. left. simpl. lia. }
  unfold finished_listed. destruct r as [members|e]; [|apply Hrec].
  destruct (freeable o members w) as [|c cs]; [apply Hrec|]. right. simpl. split; [done|]. rewrite Hm.
  right. split; [done|]. right. split; [done|]. right. split; [done|]. left. simpl. lia.
Qed.

Lemma freeing_descends w target rest out out' d :
  d_phase d = Freeing w target rest out → descends d (free_next o w rest out' d).1.
Proof.
  intros Hd. assert (phase_measure (d_phase d) = in_wave w 1 (length rest)) as Hm by (by rewrite Hd).
  destruct rest as [|c cs]; simpl.
  - eapply (wave_descends w w); [done| |apply recovered_wave]. right. split; [done|]. right. split; [done|]. left. simpl. lia.
  - right. simpl. split; [done|]. rewrite Hm. right. split; [done|]. right. split; [done|]. right. split; [done|]. right.
    split; [done|]. simpl. lia.
Qed.

Lemma cleaning_descends output target rest out out' d :
  d_phase d = CleaningUp output target rest out → descends d (clean_next output rest out' d).1.
Proof.
  intros Hd. destruct rest as [|c cs]; simpl.
  - apply stage_descends. rewrite Hd. apply finish_run_below. simpl. lia.
  - right. simpl. rewrite Hd. split; [done|]. right. split; [done|]. right. split; [done|]. right. split; [done|].
    right. split; [done|]. simpl. lia.
Qed.

Lemma members_read_below summary members d : stage_below 7 d (members_read o summary members d).1.
Proof.
  unfold members_read. cbv zeta. destruct (detect_credential_failure_wave _ _ _ _); simpl; [right; simpl; split; [done|lia]|].
  destruct (is_over _ _); simpl.
  - unfold terminate. case_match; right; simpl; (split; [done|lia]).
  - destruct (fill_slots_wave (open_wave (d_limit d) summary (in_flight_swarm_session_ids members (ro_session_id o))) d)
      as [[Hl Hw]|[Hl|[Hl Hw]]]; [right; rewrite Hw; simpl; lia|by left|right; lia].
Qed.
End descent.

(** ** The theorem *)

Section ends.
Context (o : RunOptions).

Lemma or_fail_descends {A} (r : result A string) d next :
  0 < (phase_measure (d_phase d)).1 →
  (∀ x, r = Ok x → descends d (next x).1) → descends d (or_fail r d next).1.
Proof. intros Hk H. destruct r; simpl; [by apply H|]. by apply stage_descends, fail_run_below. Qed.

Lemma await_descends a baseline d r :
  d_phase d = AwaitingProgress baseline → proper a d → await_answered a baseline d = Some r → descends d r.1.
Proof.
  intros Hd Hp H. apply stage_descends. rewrite Hd. simpl.
  destruct a as [reply|e| |]; simpl in H; simplify_eq; [|apply fail_run_below; lia|done].
  destruct reply as [| | |[]| |]; simplify_eq/=; solve [apply fail_run_below; lia|apply after_progress_below; lia].
Qed.

Lemma wake_or_wait_below k baseline summary d : 2 < k → stage_below k d (wake_or_wait baseline summary d).1.
Proof.
  intros Hk. unfold wake_or_wait. case_match; [|by right]. apply after_progress_below. lia.
Qed.

(** The slots of the wave that asks for an assignment. *)
Definition slots_open (d : Driver) : Prop :=
  match d_phase d with Assigning w => (0 < wv_slots_remaining w)%N | _ => True end.

Lemma advance_descends a d r :
  slots_open d → proper a d → advance_driver o a d = Some r → descends d r.1.
Proof.
  intros Hs Hp H. unfold advance_driver in H. unfold slots_open in Hs. destruct (d_phase d) eqn:E; try done.
  all: try (apply bind_Some in H as (x & Hr & H)); try (apply (inj Some) in H; rewrite <-H; clear H).
  - apply or_fail_descends; [rewrite E; simpl; lia|]. intros summary _. apply stage_descends. rewrite E.
    apply (start_loop_below _ (choose_mode o summary d)). simpl. lia.
  - apply or_fail_descends; [rewrite E; simpl; lia|]. intros summary _. apply stage_descends. rewrite E.
    unfold status_read. case_match; [apply finish_run_below|apply ask_below]; simpl; lia.
  - apply or_fail_descends; [rewrite E; simpl; lia|]. intros members _. apply stage_descends. rewrite E.
    apply members_read_below.
  - apply stage_descends. rewrite E. destruct a as [reply|e| |]; simpl in H; simplify_eq; [|right; simpl; split; [done|lia]].
    destruct (ensure_success reply); right; simpl; (split; [done|lia]).
  - by eapply assign_descends.
  - by apply listed_descends.
  - by eapply freeing_descends.
  - destruct a; simplify_eq. apply stage_descends. rewrite E. apply start_loop_below. simpl. lia.
  - by eapply await_descends.
  - apply stage_descends. rewrite E. unfold refreshed_status. destruct x; [|right; simpl; split; [done|lia]].
    case_match; [right; simpl; split; [done|lia]|]. apply wake_or_wait_below. simpl. lia.
  - apply stage_descends. rewrite E. apply wake_or_wait_below. simpl. lia.
  - apply stage_descends. rewrite E. destruct x as [members|e]; simpl; [|right; simpl; split; [done|lia]].
    destruct (finished_workers _ members); right; simpl; (split; [done|lia]).
  - by eapply cleaning_descends.
Qed.

(** A driver that is not at its end takes any reply, and [Woken] when it sleeps. *)
Lemma advance_progress d :
  (∃ outcome, d_phase d = Ended outcome) ∨ is_Some (advance_driver o Woken d)
  ∨ ∀ reply, is_Some (advance_driver o (Reply reply) d).
Proof.
  unfold advance_driver. destruct (d_phase d) eqn:E; eauto.
  all: right; right; intros reply; destruct reply; simpl; eauto.
Qed.

(** C33 (termination). A run ends: from every driver that a run can reach, whatever the answers,
    only finitely many of them can follow one another, unless they are ticks of the progress
    card or answer a request for an assignment with something else; and a driver that has not
    ended goes on with any reply. *)
Theorem a_run_ends seen d done :
  run_plan o seen d done →
  Acc (λ d' d, slots_open d ∧ ∃ a actions, proper a d ∧ advance_driver o a d = Some (d', actions)) d
  ∧ slots_open d
  ∧ ((∃ outcome, d_phase d = Ended outcome) ∨ is_Some (advance_driver o Woken d)
     ∨ ∀ reply, is_Some (advance_driver o (Reply reply) d)).
Proof.
  intros Hrun. split_and!.
  - clear Hrun seen done. remember (measure d) as m eqn:Hm. revert d Hm.
    induction (measure_lt_wf m) as [m _ IH]. intros d ->. constructor. intros d' (Hs & a & actions & Hp & Had).
    apply (IH (measure d')); [|done]. exact (advance_descends _ _ _ Hs Hp Had).
  - destruct (run_ok _ _ _ _ Hrun) as [Hw _]. unfold slots_open. destruct (d_phase d); try done. apply Hw.
  - apply advance_progress.
Qed.
End ends.

(** ** A run that succeeds *)

Section success.
Context (o : RunOptions).

(** The driver waits for the status that it asked for. *)
Definition reads_status (p : Phase) : bool :=
  match p with ReadingMode | ReadingStatus | RefreshingStatus _ => true | _ => false end.

(** The status read last, after an answer. *)
Definition read_last (p : Phase) (a : Answer) (last : option PlanGraphStatus) : option PlanGraphStatus :=
  match a with
  | Reply (PlanStatusReply summary) => if reads_status p then Some summary else last
  | _ => last
  end.

Definition read_step (acc : option (Driver * option PlanGraphStatus)) (a : Answer) : option (Driver * option PlanGraphStatus) :=
  '(d, last) ← acc; '(d', _) ← advance_driver o a d; Some (d', read_last (d_phase d) a last).

Definition reading (seen : list Answer) : option (Driver * option PlanGraphStatus) :=
  foldl read_step (Some (new_driver, None)) seen.

(** The last of the answers that was a status and an answer to a request for one. *)
Definition last_status_read (seen : list Answer) : option PlanGraphStatus := reading seen ≫= snd.

(** The last loop saw that nothing is left to run. *)
Definition saw_the_end (last : option PlanGraphStatus) : Prop :=
  ∃ summary, last = Some summary ∧ (st_item_count summary = 0 ∨ ∃ in_flight, is_over summary in_flight = true).

Definition end_ok (last : option PlanGraphStatus) (p : Phase) : Prop :=
  match p with
  | ReadingMembers summary => last = Some summary
  | ListingForCleanup _ | CleaningUp _ _ _ _ | Ended (Ok _) => saw_the_end last
  | _ => True
  end.

(** The phases that say nothing about the end. *)
Definition goes_on (p : Phase) : Prop :=
  match p with ReadingMembers _ | ListingForCleanup _ | CleaningUp _ _ _ _ | Ended (Ok _) => False | _ => True end.

Lemma goes_on_ok last p : goes_on p → end_ok last p.
Proof. destruct p as [| | | | | | | | | | | | |[]]; simpl; tauto. Qed.

Lemma start_loop_on d : goes_on (d_phase (start_loop d).1).
Proof. unfold start_loop. cbv zeta. by case_match. Qed.

Lemma close_wave_on w d : goes_on (d_phase (close_wave o w d).1).
Proof.
  unfold close_wave, nothing_to_await. cbv zeta. destruct (await_sessions w); [|done].
  by repeat case_match.
Qed.

Lemma fill_slots_on w d : goes_on (d_phase (fill_slots o w d).1).
Proof. unfold fill_slots. case_match; [done|apply close_wave_on]. Qed.

Lemma recovered_on w freed d : goes_on (d_phase (recovered o w freed d).1).
Proof. unfold recovered. destruct (cap_recovery_step _ _); simpl; first [apply fill_slots_on|apply close_wave_on]. Qed.

Lemma assign_answered_on a w d r : assign_answered o a w d = Some r → goes_on (d_phase r.1).
Proof.
  intros H. destruct a as [reply|e| |]; simpl in H; simplify_eq; [|done].
  destruct reply; simplify_eq; try apply fill_slots_on. unfold assign_refused.
  destruct (classify_assign_error message); [apply close_wave_on| |done]. cbv zeta. case_match; [done|apply recovered_on].
Qed.

Lemma free_next_on w candidates out d : goes_on (d_phase (free_next o w candidates out d).1).
Proof. destruct candidates; simpl; [apply recovered_on|done]. Qed.

Lemma finished_listed_on r w d : goes_on (d_phase (finished_listed o r w d).1).
Proof.
  unfold finished_listed. destruct r as [members|e]; [|apply recovered_on].
  destruct (freeable o members w); [apply recovered_on|done].
Qed.

Lemma wake_or_wait_on baseline summary d : goes_on (d_phase (wake_or_wait baseline summary d).1).
Proof. unfold wake_or_wait. case_match; [apply start_loop_on|done]. Qed.

Lemma await_answered_on a baseline d r : await_answered a baseline d = Some r → goes_on (d_phase r.1).
Proof.
  intros H. destruct a as [reply|e| |]; simpl in H; simplify_eq; try done.
  destruct reply as [| | |[]| |]; simplify_eq/=; solve [done|apply start_loop_on].
Qed.

Lemma members_read_end last summary members d :
  last = Some summary → end_ok last (d_phase (members_read o summary members d).1).
Proof.
  intros ->. unfold members_read. cbv zeta. destruct (detect_credential_failure_wave _ _ _ _); [done|].
  destruct (is_over _ _) eqn:E; simpl; [|apply goes_on_ok, fill_slots_on].
  assert (saw_the_end (Some summary)) as Hend by (exists summary; eauto).
  unfold terminate. by case_match.
Qed.

Lemma advance_end last a d r :
  end_ok last (d_phase d) → advance_driver o a d = Some r → end_ok (read_last (d_phase d) a last) (d_phase r.1).
Proof.
  intros Hp H. unfold advance_driver in H.
  assert (reads_status (d_phase d) = false → read_last (d_phase d) a last = last) as Hl.
  { intros Hr. unfold read_last. rewrite Hr. by destruct a as [[]| | |]. }
  destruct (d_phase d) eqn:E; simpl in Hp; try done; try (rewrite Hl by done).
  all: try (apply bind_Some in H as (x & Hr & H)); try (apply (inj Some) in H; rewrite <-H; clear H).
  - destruct x; simpl; [apply goes_on_ok, start_loop_on|done].
  - destruct x as [summary|e]; simpl; [|done].
    assert (a = Reply (PlanStatusReply summary)) as -> by (destruct a as [[]| | |]; simpl in Hr; by simplify_eq).
    unfold status_read. case_match eqn:Ec; simpl; [|done]. apply Nat.eqb_eq in Ec. exists summary. auto.
  - destruct x; simpl; [by apply members_read_end|done].
  - apply goes_on_ok. destruct a as [reply|e| |]; simpl in H; simplify_eq; [|done]. by destruct (ensure_success reply).
  - by eapply goes_on_ok, assign_answered_on.
  - apply goes_on_ok, finished_listed_on.
  - apply goes_on_ok, free_next_on.
  - destruct a; simplify_eq. apply goes_on_ok, start_loop_on.
  - by eapply goes_on_ok, await_answered_on.
  - apply goes_on_ok. unfold refreshed_status. destruct x; [|done]. case_match; [done|apply wake_or_wait_on].
  - apply goes_on_ok, wake_or_wait_on.
  - destruct x as [members|e]; simpl; [|done]. by destruct (finished_workers _ members).
  - by destruct rest.
Qed.

(** What was read last in a run, and what it says at the end. *)
Lemma run_reads seen d done :
  run_plan o seen d done →
  reading seen = Some (d, last_status_read seen) ∧ end_ok (last_status_read seen) (d_phase d)
  ∧ ∀ s, last_status_read seen = Some s → Reply (PlanStatusReply s) ∈ seen.
Proof.
  induction 1 as [|seen d done a d' actions Hrun (IH1 & IH2 & IH3) Had]; [done|].
  assert (reading (seen ++ [a]) = Some (d', read_last (d_phase d) a (last_status_read seen))) as Hr.
  { unfold reading in *. rewrite foldl_app, IH1. simpl. by rewrite Had. }
  assert (last_status_read (seen ++ [a]) = read_last (d_phase d) a (last_status_read seen)) as Hl
    by (unfold last_status_read at 1; by rewrite Hr).
  rewrite Hr, Hl. split; [done|]. split; [exact (advance_end _ a d (d', actions) IH2 Had)|]. intros s Hs.
  assert (a = Reply (PlanStatusReply s) ∨ last_status_read seen = Some s) as [->|H]; [|set_solver|apply IH3 in H; set_solver].
  unfold read_last in Hs. destruct a as [[]| | |]; try (by right). destruct (reads_status _); [left; congruence|by right].
Qed.
End success.

Lemma fold_failed known completed cyclic items acc x :
  x ∈ c_failed (foldl (summarize_item known completed cyclic) acc items) ↔
  x ∈ c_failed acc ∨ ∃ i, i ∈ items ∧ i_id i = x ∧ is_failed_status (i_status i) = true.
Proof.
  revert acc. induction items as [|i l IH]; intros acc; simpl; [set_solver|].
  rewrite IH. simpl. unfold insert_if. setoid_rewrite elem_of_cons. destruct (is_failed_status (i_status i)) eqn:Ht.
  - rewrite elem_of_union, elem_of_singleton. naive_solver.
  - naive_solver congruence.
Qed.

Lemma elem_of_summary_failed items x :
  x ∈ g_failed_ids (summarize_plan_graph items) ↔
  ∃ i, i ∈ items ∧ i_id i = x ∧ is_failed_status (i_status i) = true.
Proof. simpl. unfold sorted_set. rewrite merge_sort_Permutation, elem_of_elements, fold_failed. simpl. set_solver. Qed.

(** No item can be started, and none is at work but on a cycle. *)
Definition nothing_runs (items : list PlanItem) : Prop :=
  ∀ i, i ∈ items → ¬ item_ready items i ∧ (is_active_status (i_status i) = true → on_cycle items (i_id i)).

(** The lists that the driver counts as terminal. *)
Definition counted (items : list PlanItem) : list string :=
  let g := summarize_plan_graph items in g_completed_ids g ++ g_failed_ids g ++ g_blocked_ids g ++ g_cycle_ids g.

Lemma counted_is_known items x : x ∈ counted items → x ∈ map i_id items.
Proof.
  unfold counted. cbv zeta. rewrite !elem_of_app, elem_of_summary_completed, elem_of_completed, elem_of_summary_failed,
    elem_of_blocked. intros [(i & Hi & <- & _)|[(i & Hi & <- & _)|[(i & Hi & <- & _)|Hc]]];
    [apply list_elem_of_fmap; eauto..|].
  apply elem_of_cycle_item_ids in Hc as [Hc _]. apply elem_of_item_ids in Hc as (i & Hi & <-).
  apply list_elem_of_fmap. eauto.
Qed.

Lemma counted_does_not_run items i :
  NoDup (map i_id items) → i ∈ items → i_id i ∈ counted items →
  ¬ item_ready items i ∧ (is_active_status (i_status i) = true → on_cycle items (i_id i)).
Proof.
  intros Hnd Hi. unfold counted. cbv zeta. rewrite !elem_of_app, elem_of_summary_completed, elem_of_completed,
    elem_of_summary_failed, elem_of_blocked. rewrite !(bucket_of_item items _ i Hnd Hi).
  assert (is_terminal_status (i_status i) = true →
    ¬ item_ready items i ∧ (is_active_status (i_status i) = true → on_cycle items (i_id i))) as Hterm.
  { intros Ht. split; [intros [Hr%runnable_not_terminal _]; congruence|].
    intros Ha%active_not_terminal. congruence. }
  intros [Hc|[Hf|[Hb|Hcy]]].
  - apply Hterm. unfold is_completed_status in Hc. unfold is_terminal_status. rewrite mem_true in *. set_solver.
  - apply Hterm. unfold is_failed_status in Hf. by apply andb_true_iff in Hf as [? _].
  - unfold is_item_blocked, counts_as_blocked in Hb. rewrite !andb_true_iff, !negb_true_iff in Hb.
    destruct Hb as [Hnr [[_ Hna] _]]. split; [|congruence]. intros Hr%is_item_ready_spec. congruence.
  - split; [|by intros _]. intros (_ & _ & Hn). by apply Hn.
Qed.

Lemma all_counted items :
  NoDup (map i_id items) → length items ≤ size (list_to_set (counted items) : gset string) →
  ∀ i, i ∈ items → i_id i ∈ counted items.
Proof.
  intros Hnd Hsize i Hi. destruct (decide (i_id i ∈ counted items)) as [|Hn]; [done|]. exfalso.
  assert ((list_to_set (counted items) : gset string) ⊆ list_to_set (map i_id items) ∖ {[i_id i]}) as Hsub.
  { intros x Hx%elem_of_list_to_set. apply elem_of_difference. split.
    - by apply elem_of_list_to_set, counted_is_known.
    - intros ->%elem_of_singleton. done. }
  apply subseteq_size in Hsub. rewrite size_difference in Hsub.
  - rewrite (size_list_to_set (map i_id items)), length_map, size_singleton in Hsub by done.
    assert (length items ≠ 0) by (intros E%nil_length_inv; subst; by apply elem_of_nil in Hi). lia.
  - apply singleton_subseteq_l, elem_of_list_to_set, list_elem_of_fmap. eauto.
Qed.

Lemma no_next_nothing_ready items n :
  next_runnable_item_ids items (Some (S n)) = [] → ∀ i, i ∈ items → ¬ item_ready items i.
Proof.
  unfold next_runnable_item_ids. intros Hnil i Hi Hr.
  assert (i ∈ merge_sort plan_le (List.filter (λ i, bool_decide (i_id i ∈
    (list_to_set (g_ready_ids (summarize_plan_graph items)) : gset string))) items)) as Hin.
  { rewrite merge_sort_Permutation. apply elem_of_filterb. split; [done|].
    apply bool_decide_eq_true, elem_of_list_to_set, elem_of_ready. eauto. }
  destruct (merge_sort _ _) as [|j l]; [by apply elem_of_nil in Hin|done].
Qed.

Lemma over_nothing_runs fj swarm p n newly in_flight :
  NoDup (map i_id (v_items p)) → is_over (from_versioned_plan fj swarm p (Some (S n)) newly) in_flight = true →
  nothing_runs (v_items p).
Proof.
  intros Hnd Ho i Hi. unfold is_over in Ho. rewrite orb_true_iff, !andb_true_iff, !bool_decide_eq_true, Nat.leb_le in Ho.
  destruct Ho as [[[Hactive Hnext] _]|Hcount].
  - split; [by apply (no_next_nothing_ready _ n Hnext)|]. intros Ha. exfalso.
    assert (i_id i ∈ g_active_ids (summarize_plan_graph (v_items p))) as Hin by (apply elem_of_active; eauto).
    change (g_active_ids (summarize_plan_graph (v_items p)) = []) in Hactive. rewrite Hactive in Hin. by apply elem_of_nil in Hin.
  - apply counted_does_not_run; [done..|]. by apply all_counted.
Qed.

(** C32 (functional). A run that reports success has seen the plan done: when the statuses it is
    sent describe plans with unique ids, then in the last one that it read there is no plan, or
    no item can be started and none is at work, cycles apart. *)
Theorem a_run_succeeds_when_nothing_can_run o fj seen d done output :
  run_plan o seen d done → d_phase d = Ended (Ok output) →
  (∀ s, Reply (PlanStatusReply s) ∈ seen → (∃ swarm, s = empty_for_swarm swarm)
     ∨ ∃ swarm p n newly, NoDup (map i_id (v_items p)) ∧ s = from_versioned_plan fj swarm p (Some (S n)) newly) →
  ∃ s, last_status_read o seen = Some s
    ∧ ((∃ swarm, s = empty_for_swarm swarm)
       ∨ ∃ swarm p n newly, s = from_versioned_plan fj swarm p (Some (S n)) newly ∧ nothing_runs (v_items p)).
Proof.
  intros Hrun Hd Hplans. destruct (run_reads o _ _ _ Hrun) as (_ & Hend & Hin). rewrite Hd in Hend.
  destruct Hend as (s & Hs & Hover). exists s. split; [done|].
  destruct (Hplans s (Hin s Hs)) as [Hempty|(swarm & p & n & newly & Hnd & ->)]; [by left|]. right.
  exists swarm, p, n, newly. split; [done|]. destruct Hover as [Hz|[in_flight Ho]]; [|by eapply over_nothing_runs].
  simpl in Hz. apply nil_length_inv in Hz. rewrite Hz. intros i Hi. by apply elem_of_nil in Hi.
Qed.

(** ** A run, step by step *)

Fixpoint drive (o : RunOptions) (answers : list Answer) (d : Driver) : option (Driver * list Action) :=
  match answers with
  | [] => Some (d, [])
  | a :: answers =>
      '(d', actions) ← advance_driver o a d;
      '(d'', rest) ← drive o answers d';
      Some (d'', actions ++ rest)
  end.

Lemma drive_run o answers seen d done d' actions :
  run_plan o seen d done → drive o answers d = Some (d', actions) → run_plan o (seen ++ answers) d' (done ++ actions).
Proof.
  revert seen d done actions. induction answers as [|a answers IH]; intros seen d done actions Hrun H; simpl in H.
  - simplify_eq. by rewrite !app_nil_r.
  - apply bind_Some in H as ([d1 acts] & Had & [[d2 rest] [Hdr H]]%bind_Some). simplify_eq.
    rewrite cons_middle, !app_assoc. eapply (IH _ d1); [|done]. by eapply run_goes_on.
Qed.

Definition options : RunOptions := {|
  ro_session_id := "c"; ro_target_session := None; ro_working_dir := None; ro_message := None; ro_model := None;
  ro_effort := None; ro_concurrency_limit := Some 2%N; ro_timeout_minutes := None; ro_retain_agents := None;
  ro_spawn_if_needed := None; ro_prefer_spawn := None; ro_deep_cap := 0; ro_background := false |}.

Definition one_item (status : string) : VersionedPlan := {|
  v_items := [{| i_content := "do a"; i_status := status; i_priority := "high"; i_id := "a"; i_subsystem := None;
                 i_file_scope := []; i_blocked_by := []; i_assigned_to := None |}];
  v_version := 1; v_participants := {["c"]}; v_task_progress := ∅; v_mode := "light"; v_node_meta := ∅ |}.

Definition status_of (status : string) : PlanGraphStatus :=
  from_versioned_plan (λ _, None) "s" (one_item status) (Some 8) [].

Definition worker (session_id status : string) : AgentInfo := {|
  ai_session_id := session_id; ai_status := Some status; ai_detail := None; ai_is_headless := Some true;
  ai_report_back_to_session_id := Some "c"; ai_status_age_secs := None; ai_provider_name := None |}.

(** The item is assigned, done, and its worker stopped at the end. *)
Definition good_answers : list Answer :=
  [Reply (PlanStatusReply (status_of "queued")); Reply (PlanStatusReply (status_of "queued")); Reply (MembersReply []);
   Reply (AssignTaskReply "a" "w"); Reply (ErrorReply "No runnable unassigned tasks");
   Reply (AwaitReply true "Matched 1 member: w"); Reply (PlanStatusReply (status_of "completed"));
   Reply (MembersReply [worker "w" "completed"]); Reply (MembersReply [worker "w" "completed"]); Reply OtherReply].

Definition driven (n : nat) : Driver * list Action :=
  default (new_driver, []) (drive options (take n good_answers) new_driver).

Lemma driven_run n :
  drive options (take n good_answers) new_driver = Some (driven n) →
  run_plan options (take n good_answers) (driven n).1 ([Request CommPlanStatus] ++ (driven n).2).
Proof.
  intros H. apply (drive_run options (take n good_answers) [] new_driver); [constructor|]. rewrite H.
  by destruct (driven n).
Qed.

Lemma a_run_touches_only_its_workers_witness :
  Request (CommStop "w" false) ∈ [Request CommPlanStatus] ++ (driven 10).2
  ∧ own_finished options good_answers "w" ∧ own_worker options good_answers "w".
Proof.
  assert (run_plan options good_answers (driven 10).1 ([Request CommPlanStatus] ++ (driven 10).2)) as Hrun
    by (apply (driven_run 10); by vm_compute).
  assert (Request (CommStop "w" false) ∈ [Request CommPlanStatus] ++ (driven 10).2) as Hstop
    by (vm_compute; repeat (left + right)).
  assert (Request (await_request options ["w"]) ∈ [Request CommPlanStatus] ++ (driven 10).2) as Hwait
    by (vm_compute; repeat (left + right)).
  destruct (a_run_touches_only_its_workers options _ _ _ Hrun) as [H1 H2].
  split_and!; [exact Hstop|exact (proj2 (H1 _ _ Hstop))|]. eapply H2; [exact Hwait|left].
Defined.

Lemma rounds_stay_within_the_limit_witness :
  ∃ w, d_phase (driven 4).1 = Assigning w
    ∧ (wv_active_count w + N.of_nat (length (wv_assigned_sessions w)) < d_limit (driven 4).1)%N
    ∧ wv_assigned_sessions w = ["w"].
Proof.
  eexists. split; [by vm_compute|]. split; [|by vm_compute].
  apply (rounds_stay_within_the_limit options (take 4 good_answers) (driven 4).1 ([Request CommPlanStatus] ++ (driven 4).2)).
  - apply driven_run. by vm_compute.
  - by vm_compute.
Defined.

Lemma a_run_ends_witness :
  Acc (λ d' d, slots_open d ∧ ∃ a actions, proper a d ∧ advance_driver options a d = Some (d', actions)) (driven 4).1
  ∧ slots_open (driven 4).1.
Proof.
  destruct (a_run_ends options (take 4 good_answers) (driven 4).1 ([Request CommPlanStatus] ++ (driven 4).2)) as (H1 & H2 & _).
  - apply driven_run. by vm_compute.
  - split; [exact H1|exact H2].
Defined.

Lemma a_run_succeeds_when_nothing_can_run_witness :
  ∃ s, last_status_read options good_answers = Some s
    ∧ ((∃ swarm, s = empty_for_swarm swarm)
       ∨ ∃ swarm p n newly, s = from_versioned_plan (λ _, None) swarm p (Some (S n)) newly ∧ nothing_runs (v_items p)).
Proof.
  apply (a_run_succeeds_when_nothing_can_run options (λ _, None) good_answers (driven 10).1
    ([Request CommPlanStatus] ++ (driven 10).2) (match d_phase (driven 10).1 with Ended (Ok out) => out | _ => "" end)).
  - apply (driven_run 10). by vm_compute.
  - by vm_compute.
  - intros s Hs. right. exists "s".
    assert (s = status_of "queued" ∨ s = status_of "completed") as [-> | ->].
    { apply list_elem_of_In in Hs. simpl in Hs. naive_solver. }
    + exists (one_item "queued"), 7, []. split; [apply NoDup_singleton|done].
    + exists (one_item "completed"), 7, []. split; [apply NoDup_singleton|done].
Defined.

(** When the cleanup has freed a member the driver tries once more for a fresh worker and then
    gives up: the reuse of idle workers, which the comment on the loop has next, is not tried. *)
Definition capped_answers : list Answer :=
  [Reply (PlanStatusReply (status_of "queued")); Reply (PlanStatusReply (status_of "queued"));
   Reply (MembersReply [worker "busy" "running"; worker "idle" "completed"]);
   Reply (ErrorReply "Swarm member limit reached"); Reply (MembersReply [worker "idle" "completed"]); Reply OtherReply;
   Reply (ErrorReply "Swarm member limit reached")].

Definition asks_for_reuse (act : Action) : bool :=
  match act with Request (CommAssignNext _ _ (Some false) (Some false) _ _ _) => true | _ => false end.

Example recovery_does_not_reuse :
  ∃ d done, drive options capped_answers new_driver = Some (d, done)
    ∧ existsb asks_for_reuse done = false ∧ ∃ baseline, d_phase d = AwaitingProgress baseline.
Proof. eexists _, _. split; [by vm_compute|]. split; [by vm_compute|]. by eexists. Qed.

(** ** One driver for a session *)

(** The lock of the task table is free whenever a claim looks at it. *)
Definition calm (m : TableMove) : Prop :=
  match m with TryClaim _ locked => locked = false | DropStart _ _ => False | _ => True end.

(** The sessions whose driver is being started. *)
Definition starting (t : DriverTable) : list string := dt_guards t ++ map fst (dt_spawned t).

Record table_ok (t : DriverTable) : Prop := {
  starts_once : NoDup (starting t);
  starts_claimed s : s ∈ starting t → dt_claims t !! s = Some Starting;
  live_claimed s task : (s, task) ∈ dt_live t → dt_claims t !! s = Some (Running task) ∨ (s, task) ∈ dt_spawned t;
  live_used s task : (s, task) ∈ dt_live t → task ∈ dt_used t;
}.

Lemma elem_of_without {A} `{EqDecision A} (x y : A) l : y ∈ without x l ↔ y ∈ l ∧ y ≠ x.
Proof. unfold without. rewrite elem_of_filterb, negb_true_iff, bool_decide_eq_false. done. Qed.

Lemma NoDup_without {A} `{EqDecision A} (x : A) l : NoDup l → NoDup (without x l).
Proof. intros H. rewrite <-(map_id (without x l)). apply NoDup_map_filterb. by rewrite map_id. Qed.

Lemma NoDup_fst_eq {A B} (l : list (A * B)) a b b' : NoDup (map fst l) → (a, b) ∈ l → (a, b') ∈ l → b = b'.
Proof.
  intros Hnd [i Hi]%list_elem_of_lookup [j Hj]%list_elem_of_lookup.
  assert (i = j) as ->; [|congruence].
  eapply NoDup_lookup; [exact Hnd|..]; rewrite list_lookup_fmap; [by rewrite Hi|by rewrite Hj].
Qed.

Lemma table_ok_live_once t s t1 t2 : table_ok t → (s, t1) ∈ dt_live t → (s, t2) ∈ dt_live t → t1 = t2.
Proof.
  intros [Hnd Hst Hl _] H1 H2. apply NoDup_app in Hnd as (_ & _ & Hnd).
  assert (∀ task, (s, task) ∈ dt_spawned t → dt_claims t !! s = Some Starting) as Hs.
  { intros task Hin. apply Hst. unfold starting. apply elem_of_app. right. apply list_elem_of_fmap. by exists (s, task). }
  destruct (Hl _ _ H1) as [E1|S1], (Hl _ _ H2) as [E2|S2].
  - congruence.
  - apply Hs in S2. congruence.
  - apply Hs in S1. congruence.
  - by eapply NoDup_fst_eq.
Qed.

Lemma starting_guard s t : s ∈ dt_guards t → s ∈ starting t.
Proof. intros H. apply elem_of_app. by left. Qed.

Lemma starting_spawned s task t : (s, task) ∈ dt_spawned t → s ∈ starting t.
Proof. intros H. apply elem_of_app. right. apply list_elem_of_fmap. by exists (s, task). Qed.

(** A claimed session that is not being started has no live driver, unless its claim names it. *)
Lemma claim_fresh t s :
  table_ok t → dt_claims t !! s ≠ Some Starting →
  (∀ task, dt_claims t !! s = Some (Running task) → task ∉ map snd (dt_live t)) →
  s ∉ starting t ∧ ∀ task, (s, task) ∉ dt_live t.
Proof.
  intros [Hnd Hst Hl Hu] Hns Hrun. split; [by intros Hin%Hst|]. intros task Hin.
  destruct (Hl _ _ Hin) as [E|Hsp]; [|by apply starting_spawned, Hst in Hsp].
  apply (Hrun _ E). apply list_elem_of_fmap. by exists (s, task).
Qed.

Lemma table_ok_claim t s :
  table_ok t → s ∉ starting t → (∀ task, (s, task) ∉ dt_live t) →
  table_ok {| dt_claims := <[s := Starting]> (dt_claims t); dt_guards := s :: dt_guards t; dt_spawned := dt_spawned t;
              dt_live := dt_live t; dt_inline := dt_inline t; dt_used := dt_used t |}.
Proof.
  intros [Hnd Hst Hl Hu] Hs Hlive. split; simpl; [by apply NoDup_cons|..|done].
  - intros s' [->|Hin]%elem_of_cons; [by rewrite lookup_insert_eq|].
    rewrite lookup_insert_ne by (intros ->; done). by apply Hst.
  - intros s' task Hin. rewrite lookup_insert_ne by (intros ->; by apply Hlive in Hin). by apply Hl.
Qed.

Lemma table_ok_give_up t s :
  table_ok t → s ∈ dt_guards t →
  table_ok {| dt_claims := drop_guard s (dt_claims t); dt_guards := without s (dt_guards t); dt_spawned := dt_spawned t;
              dt_live := dt_live t; dt_inline := dt_inline t; dt_used := dt_used t |}.
Proof.
  intros [Hnd Hst Hl Hu] Hg. pose proof (Hst s (starting_guard _ _ Hg)) as Hs. unfold drop_guard. rewrite Hs.
  apply NoDup_app in Hnd as (Hn1 & Hn2 & Hn3).
  assert (∀ task, (s, task) ∉ dt_spawned t) as Hnsp.
  { intros task Hin. apply (Hn2 s Hg). apply list_elem_of_fmap. by exists (s, task). }
  split; simpl; [|intros s' Hin|intros s' task Hin|done].
  - apply NoDup_app. split_and!; [by apply NoDup_without| |done]. intros x [Hx _]%elem_of_without. by apply Hn2.
  - rewrite lookup_delete_ne.
    + apply Hst. unfold starting in *. simpl in Hin. apply elem_of_app in Hin as [[Hin _]%elem_of_without|Hin];
        apply elem_of_app; auto.
    + intros ->. apply elem_of_app in Hin as [[_ Hne]%elem_of_without|Hin]; [done|]. by apply (Hn2 s').
  - destruct (decide (s = s')) as [<-|Hne]; [|rewrite lookup_delete_ne by done; by apply Hl].
    destruct (Hl _ _ Hin) as [E|Hsp]; [congruence|by apply Hnsp in Hsp].
Qed.

Lemma table_ok_spawn t s task :
  table_ok t → s ∈ dt_guards t → task ∉ dt_used t →
  table_ok {| dt_claims := dt_claims t; dt_guards := without s (dt_guards t); dt_spawned := (s, task) :: dt_spawned t;
              dt_live := (s, task) :: dt_live t; dt_inline := dt_inline t; dt_used := {[task]} ∪ dt_used t |}.
Proof.
  intros [Hnd Hst Hl Hu] Hg Hfresh. pose proof (Hst s (starting_guard _ _ Hg)) as Hs.
  apply NoDup_app in Hnd as (Hn1 & Hn2 & Hn3). split; simpl.
  - apply NoDup_app. split_and!; [by apply NoDup_without| |].
    + intros x [Hx Hne]%elem_of_without. simpl. rewrite not_elem_of_cons. split; [done|]. by apply Hn2.
    + apply NoDup_cons. split; [by apply Hn2|done].
  - intros s' Hin. destruct (decide (s' = s)) as [->|Hne]; [done|]. apply Hst. unfold starting in *. simpl in Hin.
    apply elem_of_app in Hin as [[Hin _]%elem_of_without|[->|Hin]%elem_of_cons]; [apply elem_of_app; auto|done|].
    apply elem_of_app; auto.
  - intros s' task' [E|Hin]%elem_of_cons; [simplify_eq; right; left|].
    destruct (Hl _ _ Hin); [by left|right; by right].
  - intros s' task' [E|Hin]%elem_of_cons; [simplify_eq; set_solver|]. apply Hu in Hin. set_solver.
Qed.

Lemma table_ok_record t s task :
  table_ok t → (s, task) ∈ dt_spawned t →
  table_ok {| dt_claims := record_task s task (dt_claims t); dt_guards := dt_guards t;
              dt_spawned := without (s, task) (dt_spawned t); dt_live := dt_live t; dt_inline := dt_inline t; dt_used := dt_used t |}.
Proof.
  intros [Hnd Hst Hl Hu] Hsp. pose proof (Hst s (starting_spawned _ _ _ Hsp)) as Hs.
  apply NoDup_app in Hnd as (Hn1 & Hn2 & Hn3).
  assert (∀ x, x ∈ map fst (without (s, task) (dt_spawned t)) → x ∈ map fst (dt_spawned t) ∧ x ≠ s) as Hrest.
  { intros x ([s' task'] & -> & [Hin Hne]%elem_of_without)%list_elem_of_fmap. simpl. split.
    - apply list_elem_of_fmap. by exists (s', task').
    - intros ->. apply Hne. f_equal. by eapply NoDup_fst_eq. }
  split; simpl; [|intros s' Hin|intros s' task' Hin|done].
  - apply NoDup_app. split_and!; [done| |by apply NoDup_map_filterb]. intros x Hx [Hin _]%Hrest. by apply (Hn2 x).
  - unfold record_task. rewrite lookup_insert_ne.
    + apply Hst. unfold starting in *. simpl in Hin. apply elem_of_app in Hin as [Hin|[Hin _]%Hrest]; apply elem_of_app; auto.
    + intros ->. apply elem_of_app in Hin as [Hin|[_ Hne]%Hrest]; [|done].
      apply (Hn2 s' Hin). apply list_elem_of_fmap. by exists (s', task).
  - unfold record_task. destruct (decide (s = s')) as [<-|Hne].
    + rewrite lookup_insert_eq. left. destruct (Hl _ _ Hin) as [E|Hsp']; [congruence|].
      f_equal. f_equal. by eapply NoDup_fst_eq.
    + rewrite lookup_insert_ne by done. destruct (Hl _ _ Hin) as [E|Hsp']; [by left|right].
      apply elem_of_without. split; [done|]. intros E. simplify_eq.
Qed.

Lemma table_move_ok m t t' : table_ok t → calm m → table_move m t = Some t' → table_ok t'.
Proof.
  intros Hok Hcalm H. destruct m as [s locked|s|s task|s task|s task|s task|s|s]; simpl in H.
  - simpl in Hcalm. subst locked. unfold try_claim_run_plan_driver in H.
    destruct (dt_claims t !! s) as [[|task]|] eqn:E; [|unfold is_live_task in H; case_bool_decide as Hlive|];
      simplify_eq; try (by destruct t).
    + apply table_ok_claim; [done|..]; apply claim_fresh; try done; try congruence;
        intros task' E'; rewrite E in E'; simplify_eq; intros Hin; apply Hlive; by apply elem_of_list_to_set.
    + apply table_ok_claim; [done|..]; apply claim_fresh; try done; congruence.
  - destruct (mem s (dt_guards t)) eqn:E; simplify_eq. apply mem_true in E. by apply table_ok_give_up.
  - destruct (mem s (dt_guards t)) eqn:E; simpl in H; [|done]. apply mem_true in E. case_bool_decide; simplify_eq/=.
    by apply table_ok_spawn.
  - destruct (mem (s, task) (dt_spawned t)) eqn:E; simplify_eq. apply mem_true in E. by apply table_ok_record.
  - by simpl in Hcalm.
  - destruct (mem (s, task) (dt_live t)) eqn:E; simplify_eq. destruct Hok as [Hnd Hst Hl Hu].
    split; simpl; [done..| |]; intros s' task' [Hin _]%elem_of_without; eauto.
  - simplify_eq. by destruct Hok.
  - simplify_eq. by destruct Hok.
Qed.

Lemma table_moves_ok ms t t' : table_ok t → Forall calm ms → table_moves ms t = Some t' → table_ok t'.
Proof.
  intros Hok Hcalm. revert t Hok. induction Hcalm as [|m ms Hm Hms IH]; intros t Hok H; simpl in H; [by simplify_eq|].
  apply bind_Some in H as (t1 & Hm1 & H). apply (IH t1); [|done]. by eapply table_move_ok.
Qed.

(** C34 (safety). A session has one driver in the background at a time: however claims, starts
    that are given up before their spawn, spawns and ends of drivers interleave, no two drivers
    in the background of a session are live together, as long as no claim finds the task table
    locked and no start is dropped while it waits for that table.  (Either lets a second driver
    start: [a_locked_table_lets_a_second_driver_start], [a_dropped_start_is_forgotten].  A run
    with background=false claims nothing and may go on beside the others:
    [an_inline_run_claims_nothing].) *)
Theorem a_session_has_one_background_driver ms t s t1 t2 :
  Forall calm ms → table_moves ms no_drivers = Some t → (s, t1) ∈ dt_live t → (s, t2) ∈ dt_live t → t1 = t2.
Proof.
  intros Hcalm H. apply table_ok_live_once. eapply table_moves_ok; [|done..].
  split; simpl; [constructor|..]; intros; by apply elem_of_nil in H0.
Qed.

Definition restarts : list TableMove :=
  [TryClaim "s" false; SpawnDriver "s" "t1"; TryClaim "s" false; RecordDriver "s" "t1"; TryClaim "s" false;
   DriverEnds "s" "t1"; TryClaim "s" false; SpawnDriver "s" "t2"].

Definition table_after (ms : list TableMove) : DriverTable := default no_drivers (table_moves ms no_drivers).

Lemma a_session_has_one_background_driver_witness :
  dt_live (table_after restarts) = [("s", "t2")]
  ∧ ∀ task, ("s", task) ∈ dt_live (table_after restarts) → task = "t2".
Proof.
  split; [by vm_compute|]. intros task Hin. apply (a_session_has_one_background_driver restarts (table_after restarts) "s"); [..|done|].
  - by repeat constructor.
  - by vm_compute.
  - assert (dt_live (table_after restarts) = [("s", "t2")]) as -> by (by vm_compute). left.
Defined.

(** A claim that finds the table locked takes the running driver for one that has ended. *)
Example a_locked_table_lets_a_second_driver_start :
  dt_live (table_after [TryClaim "s" false; SpawnDriver "s" "t1"; RecordDriver "s" "t1"; TryClaim "s" true;
                        SpawnDriver "s" "t2"]) = [("s", "t2"); ("s", "t1")].
Proof. by vm_compute. Qed.

(** A start that is dropped after its spawn releases the claim of the driver that it started. *)
Example a_dropped_start_is_forgotten :
  dt_live (table_after [TryClaim "s" false; SpawnDriver "s" "t1"; DropStart "s" "t1"; TryClaim "s" false;
                        SpawnDriver "s" "t2"]) = [("s", "t2"); ("s", "t1")].
Proof. by vm_compute. Qed.

(** Inline runs know nothing of each other, nor of the driver in the background. *)
Example an_inline_run_claims_nothing :
  let t := table_after [TryClaim "s" false; SpawnDriver "s" "t1"; RecordDriver "s" "t1"; InlineBegins "s"; InlineBegins "s"] in
  dt_live t = [("s", "t1")] ∧ dt_inline t = ["s"; "s"].
Proof. by vm_compute. Qed.

(** ** Seeds that are repeated *)

Section seeds.
Context {World : Type}.
Context (send_seed : list TaskGraphNodeSpec → World → result ServerReply string * World).
Context (fetch_plan_status : World → result PlanGraphStatus string * World).
Context (scope : string).

Lemma free_candidate_fresh reserved base fuel n :
  (∃ i, n ≤ i ≤ n + N.of_nat fuel ∧ base +:+ "-" +:+ pretty i ∉ reserved)%N →
  free_candidate reserved base fuel n ∉ reserved.
Proof.
  revert n. induction fuel as [|fuel IH]; intros n (i & Hi & Hc); simpl; [by replace n with i by lia|].
  case_bool_decide as E; [|done]. apply IH. exists i. split; [|done]. assert (i ≠ n) by (intros ->; done). lia.
Qed.

Lemma seed_candidate_fresh reserved base : seed_candidate reserved base ∉ reserved.
Proof.
  unfold seed_candidate. case_bool_decide as E; [|done]. apply free_candidate_fresh.
  set (cands := map (λ i, base +:+ "-" +:+ pretty (2 + N.of_nat i)%N) (seq 0 (S (size reserved)))).
  destruct (pigeonhole_not_incl cands (elements reserved)) as (c & Hc & Hout).
  - apply NoDup_fmap_2_strong; [|apply NoDup_seq]. intros i j _ _ Heq.
    apply (inj (String.app base)), (inj (String.app "-")), (inj pretty) in Heq. lia.
  - unfold cands. rewrite length_map, length_seq. unfold size, set_size. simpl. lia.
  - apply list_elem_of_fmap in Hc as (i & -> & Hi%elem_of_seq). exists (2 + N.of_nat i)%N. split; [lia|].
    by rewrite elem_of_elements in Hout.
Qed.

Lemma collision_is_error response id :
  seed_node_id_collision response = Some id → ∃ message, ensure_success response = Some message.
Proof. destruct response; simpl; try done. eauto. Qed.

Lemma map_t_id_rename f nodes : map t_id (map (rename_node f) nodes) = map f (map t_id nodes).
Proof. by rewrite !map_map. Qed.

Lemma rename_node_compose f g nodes :
  map (rename_node f) (map (rename_node g) nodes) = map (rename_node (f ∘ g)) nodes.
Proof. rewrite map_map. apply map_ext. intros []. unfold rename_node. simpl. by rewrite map_map. Qed.

Lemma elem_of_node_ids x nodes : x ∈ node_ids nodes ↔ x ∈ map t_id nodes.
Proof. apply elem_of_list_to_set. Qed.

(** What a remap does, when it does something. *)
Lemma remap_cases nodes occupied c remapped remaps :
  remap_conflicting_seed_nodes nodes occupied c scope = (remapped, remaps) →
  remaps = [] ∨
  ∃ cand, c ∈ occupied ∧ c ∈ map t_id nodes ∧ cand ∉ occupied ∧ cand ∉ map t_id nodes
    ∧ remapped = map (rename_node (rename_to c cand)) nodes
    ∧ ∀ x y, (x, y) ∈ remaps ↔ x = c ∧ y = cand.
Proof.
  unfold remap_conflicting_seed_nodes. intros H. case_bool_decide as Ho; simpl in H; [|simplify_eq; by left].
  destruct (mem c (map t_id nodes)) eqn:E; simplify_eq; [|by left]. apply mem_true in E. right.
  eexists. pose proof (seed_candidate_fresh (occupied ∪ node_ids nodes) (c +:+ "::" +:+ scope)) as Hf.
  rewrite not_elem_of_union, elem_of_node_ids in Hf. destruct Hf. split_and!; [done..|].
  intros x y. rewrite list_elem_of_fmap. split.
  - intros (node & Hxy & Hin). simplify_eq. by apply elem_of_filterb in Hin as [_ Hin%bool_decide_eq_true].
  - intros [-> ->]. apply list_elem_of_fmap in E as (node & -> & Hin). exists node. split; [done|].
    apply elem_of_filterb. by rewrite bool_decide_eq_true.
Qed.

Lemma list_to_set_size (l : list string) : size (list_to_set l : gset string) ≤ length l.
Proof.
  induction l as [|x l IH]; simpl; [by apply Nat.eq_le_incl|].
  rewrite size_union_alt, size_singleton.
  assert (size (list_to_set l ∖ {[x]} : gset string) ≤ size (list_to_set l : gset string)) by (apply subseteq_size; set_solver).
  lia.
Qed.

(** The ids that may still collide become fewer. *)
Lemma remap_budget nodes occupied c cand :
  c ∈ occupied → c ∈ map t_id nodes → cand ∉ occupied →
  S (size (node_ids (map (rename_node (rename_to c cand)) nodes) ∩ occupied)) ≤ size (node_ids nodes ∩ occupied).
Proof.
  intros Hc Hn Hcand. set (after := node_ids _ ∩ occupied).
  assert (after ⊆ (node_ids nodes ∩ occupied) ∖ {[c]}) as Hsub.
  { intros x [Hx Hxo]%elem_of_intersection. rewrite elem_of_node_ids, map_t_id_rename in Hx.
    apply list_elem_of_fmap in Hx as (y & -> & Hy). unfold rename_to in *. case_bool_decide; [done|].
    rewrite elem_of_difference, elem_of_intersection, elem_of_node_ids. set_solver. }
  apply subseteq_size in Hsub. rewrite size_difference, size_singleton in Hsub.
  - assert (size (node_ids nodes ∩ occupied) ≠ 0); [|lia]. intros E%size_empty_inv.
    assert (c ∈ (∅ : gset string)) as Hin by (apply E; rewrite elem_of_intersection, elem_of_node_ids; done).
    by apply elem_of_empty in Hin.
  - apply singleton_subseteq_l. rewrite elem_of_intersection, elem_of_node_ids. done.
Qed.

Section one_seed.
Context (nodes0 : list TaskGraphNodeSpec).

(** Ids that the server has given for those of the plan. *)
Definition fetched (ids : gset string) : Prop :=
  ∃ w summary w', fetch_plan_status w = (Ok summary, w') ∧ ids = plan_graph_node_ids summary.

(** The renaming of the nodes so far: one to one, only of ids that were taken, and listed in
    the changes. *)
Record renamed (f : string → string) (nodes : list TaskGraphNodeSpec) (changes : list (string * string))
    (occupied : option (gset string)) : Prop := {
  ren_nodes : nodes = map (rename_node f) nodes0;
  ren_inj x y : x ∈ map t_id nodes0 → y ∈ map t_id nodes0 → f x = f y → x = y;
  ren_taken x : f x ≠ x → x ∈ map t_id nodes0 ∧ ∃ ids, occupied = Some ids ∧ x ∈ ids ∧ f x ∉ ids;
  ren_changes x y : (x, y) ∈ changes ↔ f x ≠ x ∧ y = f x;
  ren_fetched ids : occupied = Some ids → fetched ids;
}.

Lemma renamed_start : renamed (λ x, x) nodes0 [] None.
Proof.
  split; try done.
  - rewrite <-(map_id nodes0) at 1. apply map_ext. intros []. unfold rename_node. simpl. by rewrite map_id.
  - intros x y. split; [by intros ?%elem_of_nil|by intros []].
Qed.

Lemma renamed_learn f nodes changes ids :
  fetched ids → renamed f nodes changes None → renamed f nodes changes (Some ids).
Proof.
  intros Hids [H1 H2 H3 H4 _]. split; [done..| |done|by intros; simplify_eq].
  intros x Hx. by destruct (H3 x Hx) as (_ & ? & ? & _).
Qed.

Lemma renamed_step f nodes changes ids c cand remaps :
  renamed f nodes changes (Some ids) → c ∈ ids → c ∈ map t_id nodes → cand ∉ ids → cand ∉ map t_id nodes →
  (∀ x y, (x, y) ∈ remaps ↔ x = c ∧ y = cand) →
  renamed (rename_to c cand ∘ f) (map (rename_node (rename_to c cand)) nodes) (changes ++ remaps) (Some ids).
Proof.
  intros [-> Hinj Htaken Hch Hf] Hc Hcn Hci Hcand Hremaps. rewrite map_t_id_rename in Hcn, Hcand.
  assert (∀ x, f x = c → x = c) as Hfix.
  { intros x Hx. destruct (decide (f x = x)) as [|Hne]; [congruence|].
    destruct (Htaken x Hne) as (_ & ids' & ? & _ & Hni). by simplify_eq. }
  assert (c ∈ map t_id nodes0 ∧ f c = c) as [Hc0 Hfc].
  { apply list_elem_of_fmap in Hcn as (z & Hz & Hin). pose proof (Hfix z (eq_sym Hz)). by subst z. }
  assert (∀ x, x ∈ map t_id nodes0 → f x ≠ cand) as Hfresh.
  { intros x Hx E. apply Hcand. apply list_elem_of_fmap. eauto. }
  split; [by rewrite rename_node_compose|..]; [| | |done].
  - intros x y Hx Hy E. simpl in E. unfold rename_to in E. repeat case_bool_decide; auto.
    + rewrite (Hfix x), (Hfix y); done.
    + by destruct (Hfresh y Hy).
    + by destruct (Hfresh x Hx).
  - intros x Hx. simpl in *. unfold rename_to in *. case_bool_decide as E.
    + rewrite (Hfix x E). split; [done|]. by exists ids.
    + by apply Htaken.
  - intros x y. rewrite elem_of_app, Hch, Hremaps. simpl. unfold rename_to. case_bool_decide as E; [|naive_solver].
    rewrite (Hfix x E), Hfc. assert (cand ≠ c) by congruence. naive_solver.
Qed.

Definition sent (nodes : list TaskGraphNodeSpec) (response : ServerReply) : Prop :=
  ∃ w w', send_seed nodes w = (Ok response, w').

Definition good_seed (count : nat) (r : SeedOutcome) : Prop :=
  r ≠ SeedPanicked
  ∧ ∀ nodes changes output, r = Seeded nodes changes output →
      output = seeded_output count changes
      ∧ (∃ response, sent nodes response ∧ ensure_success response = None)
      ∧ ∃ f occupied, renamed f nodes changes occupied.

(** Iterations that are left, for the ids that may still collide. *)
Definition enough (iterations : nat) (nodes : list TaskGraphNodeSpec) (occupied : option (gset string)) : Prop :=
  match occupied with
  | Some ids => size (node_ids nodes ∩ ids) < iterations
  | None => size (node_ids nodes) < iterations
  end.

Lemma enough_learn n nodes ids : enough n nodes None → enough n nodes (Some ids).
Proof. simpl. intros H. assert (size (node_ids nodes ∩ ids) ≤ size (node_ids nodes)) by (apply subseteq_size; set_solver). lia. Qed.

Lemma occupied_learn f n nodes changes occupied w ids w' :
  renamed f nodes changes occupied → enough n nodes occupied → occupied_ids fetch_plan_status occupied w = (Ok ids, w') →
  renamed f nodes changes (Some ids) ∧ enough n nodes (Some ids).
Proof.
  intros Hr He H. destruct occupied as [ids0|]; simpl in H; [by simplify_eq|].
  destruct (fetch_plan_status w) as [[summary|e] w1] eqn:Ef; simplify_eq/=.
  split; [|by apply enough_learn]. apply renamed_learn; [|done]. by exists w, summary, w'.
Qed.

Lemma seed_loop_good count n nodes response changes occupied w f :
  sent nodes response → renamed f nodes changes occupied → enough n nodes occupied →
  good_seed count (seed_loop send_seed fetch_plan_status scope count n nodes response changes occupied w).1.
Proof.
  revert nodes response changes occupied w f. induction n as [|n IH]; intros nodes response changes occupied w f Hs Hr He.
  { destruct occupied; simpl in He; lia. }
  simpl. destruct (seed_node_id_collision response) as [c|] eqn:Ec.
  - destruct (occupied_ids fetch_plan_status occupied w) as [[ids|e] w1] eqn:Eo; simpl; [|by split].
    destruct (occupied_learn _ _ _ _ _ _ _ _ Hr He Eo) as [Hr1 He1].
    destruct (remap_conflicting_seed_nodes nodes ids c scope) as [remapped remaps] eqn:Em.
    case_bool_decide as Hn; simpl.
    { destruct (collision_is_error _ _ Ec) as [message ->]. by split. }
    destruct (send_seed remapped w1) as [[response'|e] w2] eqn:Es; simpl; [|by split].
    destruct (remap_cases _ _ _ _ _ Em) as [|(cand & Hc & Hcn & Hci & Hcand & -> & Hremaps)]; [done|].
    eapply IH; [by exists w1, w2|by apply renamed_step|]. simpl in *. pose proof (remap_budget nodes ids c cand Hc Hcn Hci). lia.
  - destruct (ensure_success response) eqn:Ee; simpl; [by split|]. split; [done|]. intros. simplify_eq. split; [done|]. split; eauto.
Qed.
End one_seed.

(** C38 (error). A seed whose ids are taken is repeated without end or panic: whatever the server
    answers, the loop never reaches its [unreachable].  When the tool reports success, the
    nodes it sent last were accepted; they are those of the request, dependencies included,
    under a one-to-one renaming that touches only ids of the request which the server
    listed among those of the plan, to ids it did not list; and the report names exactly
    the renamed ids, each with its new name. *)
Theorem a_repeated_seed_keeps_its_shape nodes w :
  (seed_task_graph send_seed fetch_plan_status scope nodes w).1 ≠ SeedPanicked
  ∧ ∀ final changes output,
      (seed_task_graph send_seed fetch_plan_status scope nodes w).1 = Seeded final changes output →
      output = "Seeded task graph (" +:+ pretty_nat (length nodes) +:+ " nodes)."
               +:+ match changes with
                   | [] => ""
                   | _ => " Renamed conflicting ids: " +:+ join ", " (map (λ c, c.1 +:+ " -> " +:+ c.2) changes) +:+ "."
                   end
      ∧ (∃ response, sent final response ∧ ensure_success response = None)
      ∧ ∃ f : string → string,
          final = map (rename_node f) nodes
          ∧ (∀ x y, x ∈ map t_id nodes → y ∈ map t_id nodes → f x = f y → x = y)
          ∧ (∀ x, f x ≠ x → x ∈ map t_id nodes ∧ ∃ ids, fetched ids ∧ x ∈ ids ∧ f x ∉ ids)
          ∧ ∀ x y, (x, y) ∈ changes ↔ f x ≠ x ∧ y = f x.
Proof.
  assert (good_seed nodes (length nodes) (seed_task_graph send_seed fetch_plan_status scope nodes w).1) as [Hp Hg].
  { unfold seed_task_graph. destruct nodes as [|node nodes]; [by split|].
    destruct (send_seed (node :: nodes) w) as [[response|e] w1] eqn:Es; [|by split].
    eapply seed_loop_good; [by exists w, w1|apply renamed_start|]. simpl.
    assert (size (node_ids (node :: nodes)) ≤ length (node :: nodes)); [|simpl in *; lia].
    unfold node_ids. rewrite <-(length_map t_id (node :: nodes)). apply list_to_set_size. }
  split; [done|]. intros final changes output E. destruct (Hg _ _ _ E) as (-> & Hs & (f & occupied & [H1 H2 H3 H4 H5])).
  split; [unfold seeded_output, format_seed_remaps; by destruct changes|]. split; [done|]. exists f. split_and!; [done..| |done].
  intros x Hx. destruct (H3 x Hx) as (? & ids & ? & ? & ?). split; [done|]. exists ids. auto.
Qed.
End seeds.

(** A plan that has the node a, and a server that refuses it; the world counts the requests. *)
Definition spec_of (id : string) (deps : list string) : TaskGraphNodeSpec := {|
  t_id := id; t_content := "work"; t_kind := None; t_depends_on := deps; t_priority := 0 |}.

Definition refusing_server (nodes : list TaskGraphNodeSpec) (requests : nat) : result ServerReply string * nat :=
  (Ok (if mem "a" (map t_id nodes) then ErrorReply "duplicate node id 'a'" else OtherReply), S requests).

Definition plan_of_a (requests : nat) : result PlanGraphStatus string * nat := (Ok (status_of "queued"), S requests).

Definition seeded_again : SeedOutcome * nat :=
  seed_task_graph refusing_server plan_of_a "seed-1" [spec_of "a" []; spec_of "b" ["a"]] 0.

Lemma a_repeated_seed_keeps_its_shape_witness :
  seeded_again = (Seeded [spec_of "a::seed-1" []; spec_of "b" ["a::seed-1"]] [("a", "a::seed-1")]
                    "Seeded task graph (2 nodes). Renamed conflicting ids: a -> a::seed-1.", 3)
  ∧ ∃ f : string → string, f "a" = "a::seed-1".
Proof.
  assert (seeded_again = (Seeded [spec_of "a::seed-1" []; spec_of "b" ["a::seed-1"]] [("a", "a::seed-1")]
                    "Seeded task graph (2 nodes). Renamed conflicting ids: a -> a::seed-1.", 3)) as E by (by vm_compute).
  split; [done|].
  destruct (a_repeated_seed_keeps_its_shape refusing_server plan_of_a "seed-1" [spec_of "a" []; spec_of "b" ["a"]] 0)
    as [_ H]. apply (f_equal fst) in E. destruct (H _ _ _ E) as (_ & _ & f & _ & _ & _ & Hch). exists f.
  symmetry. apply Hch. left.
Defined.
