(* ===== verification/CheckpointModel.v ===== *)
(** * Checkpoints of a receipt ledger

    crates/jcode-omnis: an authority of its own process, user and key signs checkpoints of
    the receipt ledger, so that whoever can write the ledger cannot take receipts back.
    Here model.rs (requests, records and their validation) and crypto.rs (digests,
    signatures, key files).  Ed25519, SHA-256, hexadecimal coding and the JSON serializer
    are arguments. *)

From S2P Require Import Prelude RustStr RustText Omnis.

Definition PROTOCOL : string := "jourdanlabs.omnis-checkpoint.v1".
Definition MAX_REQUEST_ID_BYTES : N := 256.
Definition MAX_LEDGER_ID_BYTES : N := 256.
Definition MAX_LEDGER_PATH_BYTES : N := 4096.
Definition MAX_CONTINUITY_LINKS : N := 4900.

Record ReceiptLinkWitness := {
  lw_sequence : N;
  lw_parent_hash : option string;
  lw_receipt_hash : string;
}.

#[export] Instance ReceiptLinkWitness_eq_dec : EqDecision ReceiptLinkWitness.
Proof. solve_decision. Defined.

Record AnchorRequest := {
  aq_protocol : string;
  aq_request_id : string;
  aq_ledger_id : string;
  aq_receipt_ledger_path : string;
  aq_prior_checkpoint_hash : option string;
  aq_observed_receipt_sequence : N;
  aq_observed_receipt_head : string;
  aq_continuity : list ReceiptLinkWitness;
}.

#[export] Instance AnchorRequest_eq_dec : EqDecision AnchorRequest.
Proof. solve_decision. Defined.

Record CheckpointRecord := {
  cr_protocol : string;
  cr_authority_id : string;
  cr_checkpoint_sequence : N;
  cr_parent_checkpoint_hash : option string;
  cr_request_id : string;
  cr_request_digest : string;
  cr_peer_uid : N;
  cr_ledger_id : string;
  cr_receipt_ledger_path : string;
  cr_observed_receipt_sequence : N;
  cr_observed_receipt_head : string;
  cr_issued_at_unix_ms : N;
  cr_signing_key_id : string;
}.

#[export] Instance CheckpointRecord_eq_dec : EqDecision CheckpointRecord.
Proof. solve_decision. Defined.

Record SignedCheckpoint := {
  sc_record : CheckpointRecord;
  sc_record_hash : string;
  sc_signature_ed25519 : string;
}.

#[export] Instance SignedCheckpoint_eq_dec : EqDecision SignedCheckpoint.
Proof. solve_decision. Defined.

(** ** Validation *)

Definition len (s : string) : N := N.of_nat (String.length s).

(** [a.checked_add(b)] and [a.checked_sub(b)] of [u64]. *)
Definition checked_add (a b : N) : option N := if (a + b <? 2 ^ 64)%N then Some (a + b)%N else None.
Definition checked_sub (a b : N) : option N := if (b <=? a)%N then Some (a - b)%N else None.

Definition or_err {A} (x : option A) (code : string) : result A string :=
  match x with Some x => Ok x | None => Err code end.

(** A check of something that may be missing. *)
Definition if_some {A} (x : option A) (check : A → result unit string) : result unit string :=
  match x with Some x => check x | None => Ok tt end.

Definition validate_protocol (protocol : string) : result unit string :=
  fail_if negb (String.eqb protocol PROTOCOL) with "OMNIS_CHECKPOINT_PROTOCOL_MISMATCH" ;; Ok tt.

(** Identities have the characters of the event ids of receipts. *)
Definition is_identity (max : N) (value : string) : bool :=
  negb (is_empty value) && (len value <=? max)%N && all_chr event_id_chr value.

Definition validate_request_id (value : string) : result unit string :=
  fail_if negb (is_identity MAX_REQUEST_ID_BYTES value) with "OMNIS_CHECKPOINT_INVALID_REQUEST_ID" ;; Ok tt.

Definition validate_ledger_id (value : string) : result unit string :=
  fail_if negb (is_identity MAX_LEDGER_ID_BYTES value) with "OMNIS_CHECKPOINT_INVALID_LEDGER_ID" ;; Ok tt.

(** [value.chars().any(char::is_control)]: the control characters are those of ASCII and
    U+0080 to U+009F. *)
Fixpoint contains_control (s : string) : bool :=
  match s with
  | EmptyString => false
  | String a r =>
      byte_between 0 31 a || is_byte 127 a
      || match r with String b _ => is_byte 194 a && byte_between 128 159 b | EmptyString => false end
      || contains_control r
  end.

Definition validate_receipt_ledger_path (value : string) : result unit string :=
  let invalid := "OMNIS_CHECKPOINT_INVALID_RECEIPT_LEDGER_PATH" in
  fail_if is_empty value || (MAX_LEDGER_PATH_BYTES <? len value)%N || contains_control value with invalid ;;
  match split_chr "/" value with
  | first :: components =>
      fail_if negb (is_empty first) || bool_decide (components = []) || existsb (λ c, mem c [""; "."; ".."]) components
        with invalid ;;
      Ok tt
  | [] => Err invalid
  end.

Definition validate_digest (value code : string) : result unit string :=
  match strip_prefix "sha256:" value with
  | None => Err (code +:+ ": digest prefix missing")
  | Some raw =>
      fail_if negb (len raw =? 64)%N || negb (all_chr is_ascii_hexdigit raw) || any_chr (byte_between 65 90) raw
        with (code +:+ ": digest must be 64 lowercase hexadecimal characters") ;;
      Ok tt
  end.

Definition validate_link (link : ReceiptLinkWitness) : result unit string :=
  fail_if (lw_sequence link =? 0)%N with "OMNIS_CHECKPOINT_INVALID_RECEIPT_SEQUENCE" ;;
  let? _ := if_some (lw_parent_hash link) (λ parent, validate_digest parent "OMNIS_CHECKPOINT_INVALID_RECEIPT_PARENT") in
  validate_digest (lw_receipt_hash link) "OMNIS_CHECKPOINT_INVALID_RECEIPT_HASH".

Fixpoint validate_links (links : list ReceiptLinkWitness) : result unit string :=
  match links with
  | [] => Ok tt
  | link :: links => let? _ := validate_link link in validate_links links
  end.

(** [for window in continuity.windows(2)]. *)
Fixpoint validate_windows (links : list ReceiptLinkWitness) : result unit string :=
  match links with
  | a :: (b :: _) as rest =>
      let? expected_sequence := or_err (checked_add (lw_sequence a) 1) "OMNIS_CHECKPOINT_RECEIPT_SEQUENCE_OVERFLOW" in
      fail_if negb (lw_sequence b =? expected_sequence)%N || bool_decide (lw_parent_hash b ≠ Some (lw_receipt_hash a))
        with "OMNIS_CHECKPOINT_CONTINUITY_LINK_MISMATCH" ;;
      validate_windows rest
  | _ => Ok tt
  end.

Definition validate_start (prior : option string) (first : ReceiptLinkWitness) : result unit string :=
  match prior with
  | None =>
      fail_if negb (lw_sequence first =? 1)%N || bool_decide (is_Some (lw_parent_hash first))
        with "OMNIS_CHECKPOINT_GENESIS_CONTINUITY_MISMATCH" ;; Ok tt
  | Some _ =>
      fail_if (lw_sequence first =? 1)%N || negb (bool_decide (is_Some (lw_parent_hash first)))
        with "OMNIS_CHECKPOINT_EXTENSION_CONTINUITY_MISMATCH" ;; Ok tt
  end.

Definition validate_anchor_request (request : AnchorRequest) : result unit string :=
  let? _ := validate_protocol (aq_protocol request) in
  let? _ := validate_request_id (aq_request_id request) in
  let? _ := validate_ledger_id (aq_ledger_id request) in
  let? _ := validate_receipt_ledger_path (aq_receipt_ledger_path request) in
  let? _ := if_some (aq_prior_checkpoint_hash request)
              (λ parent, validate_digest parent "OMNIS_CHECKPOINT_INVALID_PRIOR_HASH") in
  fail_if (aq_observed_receipt_sequence request =? 0)%N with "OMNIS_CHECKPOINT_EMPTY_RECEIPT_CHAIN" ;;
  let? _ := validate_digest (aq_observed_receipt_head request) "OMNIS_CHECKPOINT_INVALID_OBSERVED_HEAD" in
  let continuity_len := N.of_nat (length (aq_continuity request)) in
  fail_if (continuity_len =? 0)%N || (MAX_CONTINUITY_LINKS <? continuity_len)%N
    with "OMNIS_CHECKPOINT_INVALID_CONTINUITY_LENGTH" ;;
  let? _ := validate_links (aq_continuity request) in
  let? expected_first := or_err (checked_sub (aq_observed_receipt_sequence request) (continuity_len - 1))
                           "OMNIS_CHECKPOINT_CONTINUITY_SEQUENCE_UNDERFLOW" in
  let? first := or_err (head (aq_continuity request)) "OMNIS_CHECKPOINT_INVALID_CONTINUITY_LENGTH" in
  fail_if negb (lw_sequence first =? expected_first)%N with "OMNIS_CHECKPOINT_CONTINUITY_START_MISMATCH" ;;
  let? _ := validate_start (aq_prior_checkpoint_hash request) first in
  let? _ := validate_windows (aq_continuity request) in
  let? last := or_err (last (aq_continuity request)) "OMNIS_CHECKPOINT_INVALID_CONTINUITY_LENGTH" in
  fail_if negb (lw_sequence last =? aq_observed_receipt_sequence request)%N
          || negb (String.eqb (lw_receipt_hash last) (aq_observed_receipt_head request))
    with "OMNIS_CHECKPOINT_CONTINUITY_HEAD_MISMATCH" ;;
  Ok tt.

Definition validate_checkpoint_record (record : CheckpointRecord) : result unit string :=
  let? _ := validate_protocol (cr_protocol record) in
  let? _ := validate_ledger_id (cr_authority_id record) in
  fail_if (cr_checkpoint_sequence record =? 0)%N || (cr_observed_receipt_sequence record =? 0)%N
    with "OMNIS_CHECKPOINT_INVALID_SEQUENCE" ;;
  fail_if (cr_peer_uid record =? 0)%N with "OMNIS_CHECKPOINT_ZERO_PEER_UID_REFUSED" ;;
  fail_if (cr_issued_at_unix_ms record =? 0)%N with "OMNIS_CHECKPOINT_INVALID_ISSUED_AT" ;;
  let has_parent := bool_decide (is_Some (cr_parent_checkpoint_hash record)) in
  fail_if ((cr_checkpoint_sequence record =? 1)%N && has_parent)
          || ((1 <? cr_checkpoint_sequence record)%N && negb has_parent)
    with "OMNIS_CHECKPOINT_PARENT_PRESENCE_MISMATCH" ;;
  let? _ := if_some (cr_parent_checkpoint_hash record)
              (λ parent, validate_digest parent "OMNIS_CHECKPOINT_INVALID_PARENT_HASH") in
  let? _ := validate_request_id (cr_request_id record) in
  let? _ := validate_digest (cr_request_digest record) "OMNIS_CHECKPOINT_INVALID_REQUEST_DIGEST" in
  let? _ := validate_ledger_id (cr_ledger_id record) in
  let? _ := validate_receipt_ledger_path (cr_receipt_ledger_path record) in
  let? _ := validate_digest (cr_observed_receipt_head record) "OMNIS_CHECKPOINT_INVALID_OBSERVED_HEAD" in
  validate_digest (cr_signing_key_id record) "OMNIS_CHECKPOINT_INVALID_SIGNING_KEY_ID".

(** ** Digests and signatures *)

Definition REQUEST_DIGEST_DOMAIN : string := "jourdanlabs.omnis-checkpoint.request-digest.v1".
Definition RECORD_HASH_DOMAIN : string := "jourdanlabs.omnis-checkpoint.record-hash.v1".
Definition SIGNATURE_DOMAIN : string := "jourdanlabs.omnis-checkpoint.signature.v1".
Definition KEY_ID_DOMAIN : string := "jourdanlabs.omnis-checkpoint.signing-key.v1".

(** The primitives: SHA-256 in hexadecimal, hexadecimal coding of bytes, Ed25519 (the key
    pair of a PKCS#8 document, as the public key and the signing function; the
    verification of a signature), and [serde_json::to_vec]. *)
Class Primitives := {
  sha256_hex : string → string;
  hex_encode : string → string;
  hex_decode : string → option string;
  pkcs8_key_pair : string → option (string * (string → string));
  ed25519_verify : string → string → string → bool;
  json_request : AnchorRequest → result string string;
  json_record : CheckpointRecord → result string string;
}.

Section crypto.
Context `{!Primitives}.

Definition domain_digest (domain bytes : string) : string :=
  "sha256:" +:+ sha256_hex (length_prefixed domain +:+ length_prefixed bytes).

Definition request_digest (request : AnchorRequest) : result string string :=
  let? _ := validate_anchor_request request in
  let? bytes := json_request request in
  Ok (domain_digest REQUEST_DIGEST_DOMAIN bytes).

Definition checkpoint_record_hash (record : CheckpointRecord) : result string string :=
  let? _ := validate_checkpoint_record record in
  let? bytes := json_record record in
  Ok (domain_digest RECORD_HASH_DOMAIN bytes).

Definition signing_key_id (public_key : string) : string := domain_digest KEY_ID_DOMAIN public_key.

Definition signature_message (record_hash : string) : result string string :=
  let? _ := validate_digest record_hash "OMNIS_CHECKPOINT_INVALID_RECORD_HASH" in
  Ok (length_prefixed SIGNATURE_DOMAIN +:+ length_prefixed record_hash).

Record SigningIdentity := {
  si_public_key : string;
  si_sign_bytes : string → string;
  si_key_id : string;
}.

Definition from_pkcs8 (bytes : string) : result SigningIdentity string :=
  match pkcs8_key_pair bytes with
  | None => Err "OMNIS_CHECKPOINT_INVALID_PRIVATE_KEY"
  | Some (public_key, sign_bytes) =>
      Ok {| si_public_key := public_key; si_sign_bytes := sign_bytes; si_key_id := signing_key_id public_key |}
  end.

Definition sign (identity : SigningIdentity) (record : CheckpointRecord) : result SignedCheckpoint string :=
  let? _ := validate_checkpoint_record record in
  fail_if negb (String.eqb (cr_signing_key_id record) (si_key_id identity))
    with "OMNIS_CHECKPOINT_SIGNING_KEY_ID_MISMATCH" ;;
  let? record_hash := checkpoint_record_hash record in
  let? message := signature_message record_hash in
  Ok {| sc_record := record; sc_record_hash := record_hash;
        sc_signature_ed25519 := hex_encode (si_sign_bytes identity message) |}.

Definition encode_public_key (public_key : string) : result string string :=
  fail_if negb (len public_key =? 32)%N with "OMNIS_CHECKPOINT_INVALID_PUBLIC_KEY_LENGTH" ;;
  Ok ("ed25519:" +:+ hex_encode public_key +:+ newline).

(** [s.strip_suffix(p)]. *)
Fixpoint strip_suffix (p s : string) : option string :=
  if String.eqb s p then Some ""
  else match s with EmptyString => None | String c s => String c <$> strip_suffix p s end.

Definition parse_public_key (text : string) : result string string :=
  fail_if negb (valid_utf8 text) with "OMNIS_CHECKPOINT_PUBLIC_KEY_NOT_UTF8" ;;
  let invalid := "OMNIS_CHECKPOINT_INVALID_PUBLIC_KEY_ENCODING" in
  let? encoded := or_err (line ← strip_suffix newline text; strip_prefix "ed25519:" line) invalid in
  fail_if negb (len encoded =? 64)%N || negb (all_chr is_ascii_hexdigit encoded) || any_chr (byte_between 65 90) encoded
    with invalid ;;
  let? public_key := or_err (hex_decode encoded) invalid in
  fail_if negb (len public_key =? 32)%N with "OMNIS_CHECKPOINT_INVALID_PUBLIC_KEY_LENGTH" ;;
  Ok public_key.

Definition verify_checkpoint (checkpoint : SignedCheckpoint) (public_key : string) : result unit string :=
  let record := sc_record checkpoint in
  let? _ := validate_checkpoint_record record in
  let? _ := validate_digest (sc_record_hash checkpoint) "OMNIS_CHECKPOINT_INVALID_RECORD_HASH" in
  fail_if negb (String.eqb (cr_signing_key_id record) (signing_key_id public_key))
    with "OMNIS_CHECKPOINT_UNTRUSTED_SIGNING_KEY" ;;
  let? expected_hash := checkpoint_record_hash record in
  fail_if negb (String.eqb (sc_record_hash checkpoint) expected_hash) with "OMNIS_CHECKPOINT_RECORD_HASH_MISMATCH" ;;
  let encoded := sc_signature_ed25519 checkpoint in
  let? signature := or_err (hex_decode encoded) "OMNIS_CHECKPOINT_INVALID_SIGNATURE_ENCODING" in
  fail_if negb (len encoded =? 128)%N || any_chr (byte_between 65 90) encoded || negb (len signature =? 64)%N
    with "OMNIS_CHECKPOINT_INVALID_SIGNATURE_LENGTH" ;;
  let? message := signature_message (sc_record_hash checkpoint) in
  fail_if negb (ed25519_verify public_key message signature) with "OMNIS_CHECKPOINT_SIGNATURE_INVALID" ;;
  Ok tt.
End crypto.
