(* ===== verification/CheckpointStore.v ===== *)
(** * The checkpoints on disk

    crates/jcode-omnis/src/store.rs: the directory of signed checkpoints.  The whole chain
    is read and verified before every answer; a new checkpoint is published by filling a
    temporary file and giving it its final name with a hard link, which fails when the name
    is taken.  Files are those of [Disk]; the checks of owner, mode, links and access lists
    are calls that may fail.  Errors are texts: the outermost message. *)

From S2P Require Import Prelude RustStr RiskPaths RustText Disk Omnis CheckpointModel.

Definition MAX_KEY_BYTES : N := 16 * 1024.
Definition MAX_RECORD_BYTES : N := 8 * 1024 * 1024.
Definition RECORD_SUFFIX : string := ".checkpoint.json".
Definition TEMP_PREFIX : string := ".checkpoint-tmp-".

Record StorePaths := {
  authority_root : string;
  records_dir : string;
  signing_key_path : string;
  trust_public_key_path : string;
}.

Record StoreConfig := {
  sc_paths : StorePaths;
  sc_authority_id : string;
  sc_service_uid : N;
  sc_service_primary_gid : N;
  sc_trust_owner_uid : N;
  sc_trust_owner_gid : N;
  sc_allowed_peer_uid : N;
  sc_allowed_ledger_id : string;
  sc_allowed_receipt_ledger_path : string;
}.

Inductive AppendDisposition := Appended | Existing.

#[export] Instance AppendDisposition_eq_dec : EqDecision AppendDisposition.
Proof. solve_decision. Defined.

Record AnchorOutcome := { an_disposition : AppendDisposition; an_checkpoint : SignedCheckpoint }.

Record StoredCheckpoint := { st_request : AnchorRequest; st_checkpoint : SignedCheckpoint }.

#[export] Instance StoredCheckpoint_eq_dec : EqDecision StoredCheckpoint.
Proof. solve_decision. Defined.

(** ** Calls *)

(** [m.context(code)]. *)
Definition io_code {A} (code : string) (m : Io A) : Io A := λ d,
  match m d with
  | (Ok x, d) => (Ok x, d)
  | (Err _, d) => (Err code, d)
  end.

Definition open_file (path : string) : Io unit :=
  let! there := exists_file path in
  if there : bool then sys_check else io_err os_error.

Definition read_bounded_file (path : string) (maximum : N) (code : string) : Io string :=
  io_code (code +:+ "_OPEN_FAILED: " +:+ path) (open_file path) ;!
  sys_check ;!                          (* [metadata], type, owner and mode *)
  let! bytes := io_code (code +:+ "_READ_FAILED: " +:+ path) (read_file path) in
  if (maximum <? len bytes)%N then io_err (code +:+ "_TOO_LARGE: " +:+ path) else io_ret bytes.

(** [fs::hard_link(from, to)]; the inner result tells "already exists" apart. *)
Inductive LinkError := AlreadyExists | LinkFailed.

Definition link_file (from to : string) : Io (result unit LinkError) :=
  let! taken := exists_file to in
  if taken : bool then io_ret (Err AlreadyExists)
  else
    let! known := exists_file from in
    if known : bool then
      let! linked := io_try (sys_change (λ fs, match fs !! from with Some text => <[to := text]> fs | None => fs end)) in
      io_ret (match linked with Ok _ => Ok tt | Err _ => Err LinkFailed end)
    else io_ret (Err LinkFailed).

Definition sync_directory : Io unit := sys_check ;! sys_check.     (* [open], [sync_all] *)

(** The name of a file in a directory. *)
Definition entry_name (dir path : string) : option string :=
  rest ← strip_prefix (dir +:+ "/") path;
  if is_empty rest || contains_chr "/" rest then None else Some rest.

Definition names_in (dir : string) (fs : Files) : list string := omap (entry_name dir) (elements (dom fs)).

(** ** Names of records *)

(** [{n:020}]. *)
Fixpoint leading_zeros (n : nat) : string := match n with O => "" | S n => String "0" (leading_zeros n) end.

Definition padded (width : nat) (n : N) : string :=
  let digits := pretty n in leading_zeros (width - String.length digits) +:+ digits.

Definition record_filename (sequence : N) : string := padded 20 sequence +:+ RECORD_SUFFIX.

Definition invalid_name (name : string) : string := "OMNIS_CHECKPOINT_INVALID_RECORD_FILENAME: " +:+ name.

(** [number.parse::<u64>()] of a text of digits. *)
Definition parse_digits (number : string) : option N :=
  n ← digits_value 0 number; if (n <? 2 ^ 64)%N then Some n else None.

Definition parse_record_filename (name : string) : result N string :=
  let? number := or_err (strip_suffix RECORD_SUFFIX name) ("OMNIS_CHECKPOINT_UNKNOWN_RECORD_ENTRY: " +:+ name) in
  fail_if negb (len number =? 20)%N || negb (all_chr is_ascii_digit number) with invalid_name name ;;
  let? sequence := or_err (parse_digits number) "OMNIS_CHECKPOINT_INVALID_RECORD_FILENAME" in
  fail_if (sequence =? 0)%N || negb (String.eqb (record_filename sequence) name) with invalid_name name ;;
  Ok sequence.

Definition is_number (part : string) : bool := negb (is_empty part) && all_chr is_ascii_digit part.

Definition is_temp_name (name : string) : bool :=
  match strip_prefix TEMP_PREFIX name with
  | None => false
  | Some rest =>
      match split_chr "-" rest with
      | [sequence; pid; nonce] => (len sequence =? 20)%N && is_number sequence && is_number pid && is_number nonce
      | _ => false
      end
  end.

Definition temp_name (sequence pid nonce : N) : string :=
  TEMP_PREFIX +:+ padded 20 sequence +:+ "-" +:+ pretty pid +:+ "-" +:+ pretty nonce.

(** One line of text. *)
Definition exact_json_line (bytes : string) : result string string :=
  let? payload := or_err (strip_suffix newline bytes) "OMNIS_CHECKPOINT_RECORD_PARTIAL" in
  fail_if is_empty payload || contains_chr "010" payload || contains_chr "013" payload
    with "OMNIS_CHECKPOINT_RECORD_NOT_EXACTLY_ONE_LINE" ;;
  Ok payload.

(** ** Checks *)

Definition validate_config (config : StoreConfig) : result unit string :=
  let? _ := validate_ledger_id (sc_authority_id config) in
  let? _ := validate_ledger_id (sc_allowed_ledger_id config) in
  let? _ := validate_receipt_ledger_path (sc_allowed_receipt_ledger_path config) in
  fail_if (sc_service_uid config =? 0)%N || (sc_service_primary_gid config =? 0)%N || (sc_allowed_peer_uid config =? 0)%N
    with "OMNIS_CHECKPOINT_ZERO_IDENTITY_REFUSED" ;;
  fail_if (sc_service_uid config =? sc_allowed_peer_uid config)%N
    with "OMNIS_CHECKPOINT_SERVICE_CLIENT_UID_NOT_DISTINCT" ;;
  let paths := sc_paths config in
  let? _ :=
    match List.find (λ path, negb (is_absolute path))
            [authority_root paths; records_dir paths; signing_key_path paths; trust_public_key_path paths] with
    | Some path => Err ("OMNIS_CHECKPOINT_PATH_NOT_ABSOLUTE: " +:+ path)
    | None => Ok tt
    end in
  let in_root path := bool_decide (parent_components (components path) = Some (components (authority_root paths))) in
  fail_if negb (in_root (records_dir paths)) || negb (in_root (signing_key_path paths))
    with "OMNIS_CHECKPOINT_AUTHORITY_PATH_LAYOUT_MISMATCH" ;;
  Ok tt.

Definition validate_request_advance (request : AnchorRequest) (previous : option StoredCheckpoint) : result unit string :=
  match previous with
  | None =>
      fail_if bool_decide (is_Some (aq_prior_checkpoint_hash request))
        with "OMNIS_CHECKPOINT_GENESIS_PARENT_REFUSED" ;; Ok tt
  | Some previous =>
      let record := sc_record (st_checkpoint previous) in
      fail_if bool_decide (aq_prior_checkpoint_hash request ≠ Some (sc_record_hash (st_checkpoint previous)))
        with "OMNIS_CHECKPOINT_FORK_OR_ROLLBACK_REFUSED" ;;
      fail_if (aq_observed_receipt_sequence request <=? cr_observed_receipt_sequence record)%N
        with "OMNIS_CHECKPOINT_RECEIPT_NO_ADVANCE" ;;
      let? first := or_err (head (aq_continuity request)) "OMNIS_CHECKPOINT_CONTINUITY_EMPTY" in
      let? expected_first := or_err (checked_add (cr_observed_receipt_sequence record) 1)
                               "OMNIS_CHECKPOINT_RECEIPT_SEQUENCE_OVERFLOW" in
      fail_if negb (lw_sequence first =? expected_first)%N
              || bool_decide (lw_parent_hash first ≠ Some (cr_observed_receipt_head record))
        with "OMNIS_CHECKPOINT_RECEIPT_CONTINUITY_FORK" ;;
      Ok tt
  end.

Section store.
Context `{!Primitives}.

Definition record_of (stored : StoredCheckpoint) : CheckpointRecord := sc_record (st_checkpoint stored).

(** Whether the clock went back since the previous checkpoint. *)
Definition clock_rolled_back (previous : option StoredCheckpoint) (issued_at : N) : bool :=
  match previous with Some previous => (issued_at <? cr_issued_at_unix_ms (record_of previous))%N | None => false end.

(** The record repeats what the request says. *)
Definition bound_to_request (request : AnchorRequest) (digest : string) (record : CheckpointRecord) : bool :=
  String.eqb digest (cr_request_digest record) && String.eqb (aq_ledger_id request) (cr_ledger_id record)
  && String.eqb (aq_receipt_ledger_path request) (cr_receipt_ledger_path record)
  && (aq_observed_receipt_sequence request =? cr_observed_receipt_sequence record)%N
  && String.eqb (aq_observed_receipt_head request) (cr_observed_receipt_head record).

Definition validate_stored_checkpoint (config : StoreConfig) (public_key : string) (expected_sequence : N)
    (previous : option StoredCheckpoint) (stored : StoredCheckpoint) : result unit string :=
  let request := st_request stored in
  let record := record_of stored in
  let? _ := validate_anchor_request request in
  let? _ := verify_checkpoint (st_checkpoint stored) public_key in
  fail_if negb (cr_checkpoint_sequence record =? expected_sequence)%N
    with "OMNIS_CHECKPOINT_FILENAME_SEQUENCE_MISMATCH" ;;
  fail_if negb (String.eqb (cr_authority_id record) (sc_authority_id config))
    with "OMNIS_CHECKPOINT_AUTHORITY_ID_MISMATCH" ;;
  fail_if (cr_issued_at_unix_ms record =? 0)%N with "OMNIS_CHECKPOINT_INVALID_ISSUED_AT" ;;
  fail_if clock_rolled_back previous (cr_issued_at_unix_ms record) with "OMNIS_CHECKPOINT_STORED_CLOCK_ROLLBACK" ;;
  fail_if negb (String.eqb (cr_signing_key_id record) (signing_key_id public_key))
    with "OMNIS_CHECKPOINT_SIGNING_KEY_DRIFT" ;;
  fail_if negb (String.eqb (aq_request_id request) (cr_request_id record))
    with "OMNIS_CHECKPOINT_REQUEST_RECORD_BINDING_MISMATCH" ;;
  let? digest := request_digest request in
  fail_if negb (bound_to_request request digest record) with "OMNIS_CHECKPOINT_REQUEST_RECORD_BINDING_MISMATCH" ;;
  fail_if negb (cr_peer_uid record =? sc_allowed_peer_uid config)%N with "OMNIS_CHECKPOINT_STORED_PEER_UID_MISMATCH" ;;
  fail_if negb (String.eqb (cr_ledger_id record) (sc_allowed_ledger_id config))
    with "OMNIS_CHECKPOINT_STORED_LEDGER_ID_MISMATCH" ;;
  fail_if negb (String.eqb (cr_receipt_ledger_path record) (sc_allowed_receipt_ledger_path config))
    with "OMNIS_CHECKPOINT_STORED_RECEIPT_LEDGER_PATH_MISMATCH" ;;
  let expected_parent := sc_record_hash ∘ st_checkpoint <$> previous in
  fail_if bool_decide (cr_parent_checkpoint_hash record ≠ expected_parent)
          || bool_decide (aq_prior_checkpoint_hash request ≠ expected_parent)
    with "OMNIS_CHECKPOINT_CHAIN_FORK_OR_ROLLBACK" ;;
  validate_request_advance request previous.

(** ** The store *)

Record AuthorityStore := {
  as_config : StoreConfig;
  as_signing_identity : SigningIdentity;
  as_private_key_bytes : string;
  as_trust_file_bytes : string;
  as_public_key : string;
}.

(** [serde_json] on records with their requests, the order in which a directory is listed,
    and the process that names temporary files. *)
Context (json_stored : StoredCheckpoint → result string string) (parse_stored : string → option StoredCheckpoint).
Context (listed : list string → list string).
Context (pid nonce : N).

Section opened.
Context (store : AuthorityStore).
Abbreviation config := (as_config store).
Abbreviation paths := (sc_paths (as_config store)).

Definition record_path (name : string) : string := records_dir paths +:+ "/" +:+ name.

(** [validate_authority_paths]: every check may fail. *)
Definition validate_authority_paths : Io unit := sys_check.

Definition validate_live_authority : Io unit :=
  validate_authority_paths ;!
  let! private_key_bytes := read_bounded_file (signing_key_path paths) MAX_KEY_BYTES "OMNIS_CHECKPOINT_PRIVATE_KEY" in
  if negb (String.eqb private_key_bytes (as_private_key_bytes store)) then io_err "OMNIS_CHECKPOINT_PRIVATE_KEY_DRIFT"
  else
    let! trust_file_bytes := read_bounded_file (trust_public_key_path paths) MAX_KEY_BYTES "OMNIS_CHECKPOINT_PUBLIC_TRUST" in
    if negb (String.eqb trust_file_bytes (as_trust_file_bytes store)) then io_err "OMNIS_CHECKPOINT_PUBLIC_TRUST_DRIFT"
    else
      let! public_key := io_of (parse_public_key trust_file_bytes) in
      if negb (String.eqb public_key (as_public_key store)) then io_err "OMNIS_CHECKPOINT_PUBLIC_TRUST_DRIFT"
      else io_ret tt.

(** The entries of the directory that are not temporary, with their sequences. *)
Fixpoint record_entries (names : list string) : result (list (N * string)) string :=
  match names with
  | [] => Ok []
  | name :: names =>
      if is_temp_name name then record_entries names
      else
        let? sequence := parse_record_filename name in
        let? records := record_entries names in
        Ok ((sequence, record_path name) :: records)
  end.

(** What follows the reading of one file. *)
Definition accept_record (expected_sequence : N) (chain : list StoredCheckpoint) (request_ids : gset string)
    (bytes : string) : result StoredCheckpoint string :=
  let? payload := exact_json_line bytes in
  let? stored := or_err (parse_stored payload) "OMNIS_CHECKPOINT_RECORD_INVALID_JSON" in
  let? _ := validate_stored_checkpoint config (as_public_key store) expected_sequence (last chain) stored in
  fail_if bool_decide (aq_request_id (st_request stored) ∈ request_ids)
    with ("OMNIS_CHECKPOINT_DUPLICATE_REQUEST_ID: " +:+ aq_request_id (st_request stored)) ;;
  Ok stored.

Fixpoint load_records (index : nat) (chain : list StoredCheckpoint) (request_ids : gset string)
    (records : list (N * string)) : Io (list StoredCheckpoint) :=
  match records with
  | [] => io_ret chain
  | (filename_sequence, path) :: records =>
      let! expected_sequence := io_of (or_err (checked_add (N.of_nat index) 1) "OMNIS_CHECKPOINT_SEQUENCE_OVERFLOW") in
      if negb (filename_sequence =? expected_sequence)%N then
        io_err ("OMNIS_CHECKPOINT_SEQUENCE_GAP: expected " +:+ pretty expected_sequence +:+ ", found "
                +:+ pretty filename_sequence)
      else
        sys_check ;!                    (* [validate_record_file] *)
        let! bytes := read_bounded_file path MAX_RECORD_BYTES "OMNIS_CHECKPOINT_RECORD" in
        let! stored := io_of (accept_record expected_sequence chain request_ids bytes) in
        load_records (S index) (chain ++ [stored]) ({[ aq_request_id (st_request stored) ]} ∪ request_ids) records
  end.

Definition load_chain : Io (list StoredCheckpoint) :=
  validate_live_authority ;!
  let! names := io_code "OMNIS_CHECKPOINT_RECORDS_READ_FAILED" (sys_get (λ fs, listed (names_in (records_dir paths) fs))) in
  let! records := io_of (record_entries names) in
  load_records 0 [] ∅ (sort_stable (λ a b, (a.1 <=? b.1)%N) records).

Definition latest : Io (option SignedCheckpoint) :=
  let! chain := load_chain in io_ret (st_checkpoint <$> last chain).

Definition find_request (request_id : string) (chain : list StoredCheckpoint) : option StoredCheckpoint :=
  List.find (λ stored, String.eqb (aq_request_id (st_request stored)) request_id) chain.

Definition lookup_request (request_id : string) : Io (option SignedCheckpoint) :=
  let! _ := io_of (validate_request_id request_id) in
  let! chain := load_chain in
  io_ret (st_checkpoint <$> find_request request_id chain).

(** ** Anchoring *)

(** The same request of the same peer. *)
Definition same_request (peer_uid : N) (request : AnchorRequest) (stored : StoredCheckpoint) : bool :=
  bool_decide (st_request stored = request) && (cr_peer_uid (record_of stored) =? peer_uid)%N.

Definition existing (stored : StoredCheckpoint) : AnchorOutcome :=
  {| an_disposition := Existing; an_checkpoint := st_checkpoint stored |}.

Definition check_anchor (peer_uid : N) (request : AnchorRequest) (issued_at_unix_ms : N) : result unit string :=
  let? _ := validate_anchor_request request in
  fail_if (issued_at_unix_ms =? 0)%N with "OMNIS_CHECKPOINT_INVALID_ISSUED_AT" ;;
  fail_if negb (peer_uid =? sc_allowed_peer_uid config)%N
    with ("OMNIS_CHECKPOINT_PEER_UID_MISMATCH: expected " +:+ pretty (sc_allowed_peer_uid config) +:+ ", found "
          +:+ pretty peer_uid) ;;
  fail_if negb (String.eqb (aq_ledger_id request) (sc_allowed_ledger_id config))
    with "OMNIS_CHECKPOINT_LEDGER_ID_MISMATCH" ;;
  fail_if negb (String.eqb (aq_receipt_ledger_path request) (sc_allowed_receipt_ledger_path config))
    with "OMNIS_CHECKPOINT_RECEIPT_LEDGER_PATH_MISMATCH" ;;
  Ok tt.

(** What a chain answers to a request: the checkpoint it has, or the next one. *)
Inductive Prepared :=
| Known (outcome : AnchorOutcome)
| Unpublished (checkpoint_sequence : N) (checkpoint : SignedCheckpoint).

Definition next_record (chain : list StoredCheckpoint) (checkpoint_sequence : N) (digest : string) (peer_uid : N)
    (request : AnchorRequest) (issued_at_unix_ms : N) : CheckpointRecord := {|
  cr_protocol := PROTOCOL;
  cr_authority_id := sc_authority_id config;
  cr_checkpoint_sequence := checkpoint_sequence;
  cr_parent_checkpoint_hash := sc_record_hash ∘ st_checkpoint <$> last chain;
  cr_request_id := aq_request_id request;
  cr_request_digest := digest;
  cr_peer_uid := peer_uid;
  cr_ledger_id := aq_ledger_id request;
  cr_receipt_ledger_path := aq_receipt_ledger_path request;
  cr_observed_receipt_sequence := aq_observed_receipt_sequence request;
  cr_observed_receipt_head := aq_observed_receipt_head request;
  cr_issued_at_unix_ms := issued_at_unix_ms;
  cr_signing_key_id := si_key_id (as_signing_identity store) |}.

Definition answer_request (chain : list StoredCheckpoint) (peer_uid : N) (request : AnchorRequest)
    (issued_at_unix_ms : N) : result Prepared string :=
  match find_request (aq_request_id request) chain with
  | Some stored =>
      fail_if negb (same_request peer_uid request stored)
        with ("OMNIS_CHECKPOINT_REQUEST_ID_COLLISION: " +:+ aq_request_id request) ;;
      Ok (Known (existing stored))
  | None =>
      let? _ := validate_request_advance request (last chain) in
      fail_if clock_rolled_back (last chain) issued_at_unix_ms with "OMNIS_CHECKPOINT_CLOCK_ROLLBACK_REFUSED" ;;
      let? checkpoint_sequence := or_err (checked_add (N.of_nat (length chain)) 1) "OMNIS_CHECKPOINT_SEQUENCE_OVERFLOW" in
      let? digest := request_digest request in
      let? checkpoint := sign (as_signing_identity store)
                           (next_record chain checkpoint_sequence digest peer_uid request issued_at_unix_ms) in
      Ok (Unpublished checkpoint_sequence checkpoint)
  end.

(** The closure of [publish_record]: fill the temporary file, then name it. *)
Definition link_record (temporary final_path bytes : string) : Io bool :=
  io_code "OMNIS_CHECKPOINT_TEMP_CREATE_FAILED" (create_new_file temporary) ;!
  io_code "OMNIS_CHECKPOINT_TEMP_WRITE_FAILED" (append_file temporary bytes) ;!
  io_code "OMNIS_CHECKPOINT_TEMP_SYNC_FAILED" sys_check ;!
  sys_check ;!                          (* [metadata], owner and mode *)
  sys_check ;!                          (* access lists *)
  let! linked := link_file temporary final_path in
  match linked with
  | Ok _ => sync_directory ;! io_ret true
  | Err AlreadyExists => io_ret false
  | Err LinkFailed => io_err "OMNIS_CHECKPOINT_HARD_LINK_PUBLISH_FAILED"
  end.

Definition publish_record (sequence : N) (stored : StoredCheckpoint) : Io bool :=
  let final_path := record_path (record_filename sequence) in
  let temporary := record_path (temp_name sequence pid nonce) in
  let! payload := io_of (json_stored stored) in
  let! published := io_try (link_record temporary final_path (payload +:+ newline)) in
  let! removed := remove_file temporary in
  let cleanup : result unit string :=
    match removed with Ok _ | Err NotFound => Ok tt | Err RemoveFailed => Err "OMNIS_CHECKPOINT_TEMP_CLEANUP_FAILED" end in
  let! resync := io_try sync_directory in
  io_of
    match published with
    | Ok published => let? _ := cleanup in let? _ := resync in Ok published
    | Err error =>
        match cleanup, resync with
        | Err cleanup_error, _ =>
            Err ("OMNIS_CHECKPOINT_PUBLISH_AND_CLEANUP_FAILED: publish=" +:+ error +:+ "; cleanup=" +:+ cleanup_error)
        | _, Err resync_error =>
            Err ("OMNIS_CHECKPOINT_PUBLISH_AND_RESYNC_FAILED: publish=" +:+ error +:+ "; resync=" +:+ resync_error)
        | _, _ => Err error
        end
    end.

(** The three parts of [anchor_at], between which another process may work on the directory:
    read and sign, publish, and read again. *)
Definition prepare_anchor (peer_uid : N) (request : AnchorRequest) (issued_at_unix_ms : N) : Io Prepared :=
  validate_live_authority ;!
  let! _ := io_of (check_anchor peer_uid request issued_at_unix_ms) in
  let! chain := load_chain in
  io_of (answer_request chain peer_uid request issued_at_unix_ms).

Definition confirm_anchor (peer_uid : N) (request : AnchorRequest) (checkpoint_sequence : N)
    (checkpoint : SignedCheckpoint) (published : bool) : Io AnchorOutcome :=
  let! chain := load_chain in
  io_of
    (if published then
       let? latest := or_err (last chain) "OMNIS_CHECKPOINT_PUBLISHED_RECORD_MISSING" in
       fail_if bool_decide (st_checkpoint latest ≠ checkpoint) || bool_decide (st_request latest ≠ request)
         with "OMNIS_CHECKPOINT_PUBLISHED_RECORD_DRIFT" ;;
       Ok {| an_disposition := Appended; an_checkpoint := checkpoint |}
     else
       let collision := "OMNIS_CHECKPOINT_PUBLISH_COLLISION: sequence " +:+ pretty checkpoint_sequence in
       match find_request (aq_request_id request) chain with
       | Some stored => fail_if negb (same_request peer_uid request stored) with collision ;; Ok (existing stored)
       | None => Err collision
       end).

Definition anchor_at (peer_uid : N) (request : AnchorRequest) (issued_at_unix_ms : N) : Io AnchorOutcome :=
  let! prepared := prepare_anchor peer_uid request issued_at_unix_ms in
  match prepared with
  | Known outcome => io_ret outcome
  | Unpublished checkpoint_sequence checkpoint =>
      let! published := publish_record checkpoint_sequence {| st_request := request; st_checkpoint := checkpoint |} in
      confirm_anchor peer_uid request checkpoint_sequence checkpoint published
  end.
End opened.

(** [AuthorityStore::open]. *)
Definition open_authority (config : StoreConfig) : Io AuthorityStore :=
  let! _ := io_of (validate_config config) in
  validate_authority_paths ;!
  let! private_key_bytes := read_bounded_file (signing_key_path (sc_paths config)) MAX_KEY_BYTES "OMNIS_CHECKPOINT_PRIVATE_KEY" in
  let! trust_file_bytes :=
    read_bounded_file (trust_public_key_path (sc_paths config)) MAX_KEY_BYTES "OMNIS_CHECKPOINT_PUBLIC_TRUST" in
  let! signing_identity := io_of (from_pkcs8 private_key_bytes) in
  let! public_key := io_of (parse_public_key trust_file_bytes) in
  if negb (String.eqb (si_public_key signing_identity) public_key) then io_err "OMNIS_CHECKPOINT_TRUST_KEY_MISMATCH"
  else
    let store := {| as_config := config; as_signing_identity := signing_identity;
                    as_private_key_bytes := private_key_bytes; as_trust_file_bytes := trust_file_bytes;
                    as_public_key := public_key |} in
    let! _ := load_chain store in
    io_ret store.
End store.
