(* ===== verification/CheckpointChain.v ===== *)
(** * What validated checkpoints say

    A request that passes validation carries an unbroken segment of the receipt chain; the
    segments of a chain of checkpoints that was accepted join to the whole receipt chain. *)

From S2P Require Import Prelude RustStr RustText Disk Omnis CheckpointModel CheckpointStore.

(** ** Segments of the receipt chain *)

(** The links are numbered from [n] on, and each has the one before it as parent. *)
Fixpoint chained (parent : option string) (n : N) (links : list ReceiptLinkWitness) : Prop :=
  match links with
  | [] => True
  | link :: links =>
      lw_sequence link = n ∧ lw_parent_hash link = parent ∧ chained (Some (lw_receipt_hash link)) (n + 1) links
  end.

(** The hash that the next link has as its parent. *)
Definition end_hash (parent : option string) (links : list ReceiptLinkWitness) : option string :=
  match last links with Some link => Some (lw_receipt_hash link) | None => parent end.

Lemma end_hash_cons parent link links : end_hash parent (link :: links) = end_hash (Some (lw_receipt_hash link)) links.
Proof. unfold end_hash. rewrite last_cons. by destruct (last links). Qed.

Lemma chained_app parent n l1 l2 :
  chained parent n (l1 ++ l2) ↔ chained parent n l1 ∧ chained (end_hash parent l1) (n + N.of_nat (length l1)) l2.
Proof.
  revert parent n. induction l1 as [|link l1 IH]; intros parent n; cbn [chained app length].
  { change (end_hash parent []) with parent. rewrite N.add_0_r. tauto. }
  rewrite IH, end_hash_cons. replace (n + N.of_nat (S (length l1)))%N with (n + 1 + N.of_nat (length l1))%N by lia. tauto.
Qed.

(** The last number. *)
Lemma chained_last parent n links link :
  chained parent n links → last links = Some link → lw_sequence link = (n + N.of_nat (length links) - 1)%N.
Proof.
  revert parent n. induction links as [|a links IH]; intros parent n; [done|]. intros (Ha & _ & Hc). rewrite last_cons.
  destruct (last links) as [b|] eqn:E.
  - intros H. simplify_eq. rewrite (IH _ _ Hc eq_refl). destruct links; [done|]. cbn [length]. lia.
  - intros H. simplify_eq. apply last_None in E as ->. cbn [length]. lia.
Qed.

(** ** Requests *)

Lemma or_err_Ok {A} (x : option A) code y : or_err x code = Ok y ↔ x = Some y.
Proof. destruct x; simpl; split; by intros [=->]. Qed.

Lemma fail_if_Ok {A E} (b : bool) (e : E) (r : result A E) y : (fail_if b with e ;; r) = Ok y ↔ b = false ∧ r = Ok y.
Proof. destruct b; naive_solver. Qed.

Lemma bind_Ok {A B E} (m : result A E) (k : A → result B E) y :
  (let? x := m in k x) = Ok y ↔ ∃ x, m = Ok x ∧ k x = Ok y.
Proof. destruct m; naive_solver. Qed.

Lemma bind_unit_Ok {B E} (m : result unit E) (r : result B E) y :
  (let? _ := m in r) = Ok y ↔ m = Ok tt ∧ r = Ok y.
Proof. destruct m as [[]|]; naive_solver. Qed.

Lemma bool_decide_ne_false {A} `{EqDecision A} (x y : A) : bool_decide (x ≠ y) = false ↔ x = y.
Proof. by rewrite bool_decide_eq_false, not_not_iff. Qed.

Lemma validate_links_Ok links : validate_links links = Ok tt ↔ Forall (λ link, validate_link link = Ok tt) links.
Proof. induction links as [|link links IH]; cbn [validate_links]; [done|]. by rewrite bind_unit_Ok, IH, Forall_cons. Qed.

Lemma validate_windows_cons a b links :
  validate_windows (a :: b :: links) =
  (let? expected_sequence := or_err (checked_add (lw_sequence a) 1) "OMNIS_CHECKPOINT_RECEIPT_SEQUENCE_OVERFLOW" in
   fail_if negb (lw_sequence b =? expected_sequence)%N || bool_decide (lw_parent_hash b ≠ Some (lw_receipt_hash a))
     with "OMNIS_CHECKPOINT_CONTINUITY_LINK_MISMATCH" ;;
   validate_windows (b :: links)).
Proof. done. Qed.

Lemma windows_chained a links :
  validate_windows (a :: links) = Ok tt → chained (Some (lw_receipt_hash a)) (lw_sequence a + 1) links.
Proof.
  revert a. induction links as [|b links IH]; intros a H; [done|]. rewrite validate_windows_cons in H.
  apply bind_Ok in H as (n & Hn%or_err_Ok & H). apply fail_if_Ok in H as [Hb H].
  unfold checked_add in Hn. destruct (_ <? _)%N; [|done]. injection Hn as Hn.
  apply orb_false_iff in Hb as [Hs%negb_false_iff%N.eqb_eq Hp%bool_decide_eq_false]. apply dec_stable in Hp.
  cbn [chained]. split_and!; [congruence|done|]. rewrite Hn, <-Hs. by apply IH.
Qed.

Lemma chained_windows a links :
  chained (Some (lw_receipt_hash a)) (lw_sequence a + 1) links → (lw_sequence a + N.of_nat (length links) < 2 ^ 64)%N →
  validate_windows (a :: links) = Ok tt.
Proof.
  revert a. induction links as [|b links IH]; intros a H Hb; [done|]. destruct H as (Hs & Hp & H). cbn [length] in Hb.
  rewrite validate_windows_cons. unfold checked_add. destruct (N.ltb_spec (lw_sequence a + 1) (2 ^ 64)); [|lia]. cbn [or_err].
  rewrite Hs, N.eqb_refl, Hp, bool_decide_eq_false_2 by auto. cbn [negb orb]. apply IH; rewrite Hs; [done|lia].
Qed.

(** The request carries the receipts from [first] to the observed one, the first of them with
    that parent. *)
Definition segment (request : AnchorRequest) (parent : option string) (first : N) : Prop :=
  chained parent first (aq_continuity request)
  ∧ (first + N.of_nat (length (aq_continuity request)) = aq_observed_receipt_sequence request + 1)%N
  ∧ end_hash parent (aq_continuity request) = Some (aq_observed_receipt_head request).

(** Without a checkpoint before it a segment begins the chain, else it goes on. *)
Definition begins (prior parent : option string) (first : N) : Prop :=
  match prior with None => first = 1%N ∧ parent = None | Some _ => (1 < first)%N ∧ is_Some parent end.

(** What the fields of a request must look like, apart from the segment. *)
Definition fields_ok (request : AnchorRequest) : Prop :=
  aq_protocol request = PROTOCOL
  ∧ is_identity MAX_REQUEST_ID_BYTES (aq_request_id request) = true
  ∧ is_identity MAX_LEDGER_ID_BYTES (aq_ledger_id request) = true
  ∧ validate_receipt_ledger_path (aq_receipt_ledger_path request) = Ok tt
  ∧ (∀ prior, aq_prior_checkpoint_hash request = Some prior →
       validate_digest prior "OMNIS_CHECKPOINT_INVALID_PRIOR_HASH" = Ok tt)
  ∧ validate_digest (aq_observed_receipt_head request) "OMNIS_CHECKPOINT_INVALID_OBSERVED_HEAD" = Ok tt
  ∧ Forall (λ link, validate_link link = Ok tt) (aq_continuity request)
  ∧ (0 < N.of_nat (length (aq_continuity request)) ≤ MAX_CONTINUITY_LINKS)%N.

Lemma if_some_Ok {A} (x : option A) check : if_some x check = Ok tt ↔ ∀ y, x = Some y → check y = Ok tt.
Proof. destruct x; simpl; naive_solver. Qed.

Lemma validate_start_Ok prior first : (0 < lw_sequence first)%N →
  validate_start prior first = Ok tt ↔ begins prior (lw_parent_hash first) (lw_sequence first).
Proof.
  intros Hpos. unfold validate_start, begins. destruct prior.
  - rewrite fail_if_Ok, orb_false_iff, negb_false_iff, N.eqb_neq, bool_decide_eq_true. intuition lia.
  - rewrite fail_if_Ok, orb_false_iff, negb_false_iff, N.eqb_eq, bool_decide_eq_false, eq_None_not_Some. tauto.
Qed.

Lemma identity_Ok max code value :
  (fail_if negb (is_identity max value) with code ;; Ok tt) = @Ok unit string tt ↔ is_identity max value = true.
Proof. rewrite fail_if_Ok, negb_false_iff. tauto. Qed.

Lemma length_bounds n : (n =? 0)%N || (MAX_CONTINUITY_LINKS <? n)%N = false ↔ (0 < n ≤ MAX_CONTINUITY_LINKS)%N.
Proof. rewrite orb_false_iff, N.eqb_neq, N.ltb_ge. lia. Qed.

(** The last four checks, about the segment. *)
Definition validate_segment (request : AnchorRequest) : result unit string :=
  let? expected_first := or_err (checked_sub (aq_observed_receipt_sequence request)
                                   (N.of_nat (length (aq_continuity request)) - 1))
                           "OMNIS_CHECKPOINT_CONTINUITY_SEQUENCE_UNDERFLOW" in
  let? first := or_err (head (aq_continuity request)) "OMNIS_CHECKPOINT_INVALID_CONTINUITY_LENGTH" in
  fail_if negb (lw_sequence first =? expected_first)%N with "OMNIS_CHECKPOINT_CONTINUITY_START_MISMATCH" ;;
  let? _ := validate_start (aq_prior_checkpoint_hash request) first in
  let? _ := validate_windows (aq_continuity request) in
  let? last := or_err (last (aq_continuity request)) "OMNIS_CHECKPOINT_INVALID_CONTINUITY_LENGTH" in
  fail_if negb (lw_sequence last =? aq_observed_receipt_sequence request)%N
          || negb (String.eqb (lw_receipt_hash last) (aq_observed_receipt_head request))
    with "OMNIS_CHECKPOINT_CONTINUITY_HEAD_MISMATCH" ;;
  Ok tt.

Lemma validate_anchor_request_split request :
  validate_anchor_request request = Ok tt
  ↔ fields_ok request ∧ (aq_observed_receipt_sequence request ≠ 0)%N ∧ validate_segment request = Ok tt.
Proof.
  unfold validate_anchor_request, fields_ok, validate_protocol, validate_request_id, validate_ledger_id. cbv zeta.
  rewrite !bind_unit_Ok, if_some_Ok, !identity_Ok, !fail_if_Ok, bind_unit_Ok, fail_if_Ok, length_bounds, N.eqb_neq, bind_unit_Ok,
    validate_links_Ok, negb_false_iff, String.eqb_eq. fold (validate_segment request). tauto.
Qed.

Lemma validate_segment_sound request :
  aq_observed_receipt_sequence request ≠ 0%N → Forall (λ link, validate_link link = Ok tt) (aq_continuity request) →
  validate_segment request = Ok tt →
  ∃ parent first, segment request parent first ∧ begins (aq_prior_checkpoint_hash request) parent first.
Proof.
  intros Hobs Hlinks H. unfold validate_segment in H. apply bind_Ok in H as (n & Hn%or_err_Ok & H).
  apply bind_Ok in H as (a & Ha%or_err_Ok & H). apply fail_if_Ok in H as [Hs%negb_false_iff%N.eqb_eq H].
  apply bind_unit_Ok in H as [Hstart H]. apply bind_unit_Ok in H as [Hw H].
  apply bind_Ok in H as (b & Hb%or_err_Ok & H). apply fail_if_Ok in H as [Hend _].
  apply orb_false_iff in Hend as [He1%negb_false_iff%N.eqb_eq He2%negb_false_iff%String.eqb_eq].
  destruct (aq_continuity request) as [|a' links] eqn:E; [done|]. simpl in Ha. simplify_eq.
  apply Forall_cons in Hlinks as [Hl _]. unfold validate_link in Hl. apply fail_if_Ok in Hl as [Hpos%N.eqb_neq _].
  apply windows_chained in Hw. apply validate_start_Ok in Hstart; [|lia].
  exists (lw_parent_hash a), (lw_sequence a). split; [|done]. unfold segment. rewrite E. split_and!; [by cbn| |].
  - unfold checked_sub in Hn. destruct (N.leb_spec (N.of_nat (length (a :: links)) - 1) (aq_observed_receipt_sequence request)); [|done].
    injection Hn as Hn. cbn [length] in *. lia.
  - unfold end_hash. by rewrite Hb, He2.
Qed.

Lemma validate_segment_complete request parent first :
  (aq_observed_receipt_sequence request < 2 ^ 64)%N → (0 < N.of_nat (length (aq_continuity request)))%N →
  Forall (λ link, validate_link link = Ok tt) (aq_continuity request) →
  segment request parent first → begins (aq_prior_checkpoint_hash request) parent first →
  validate_segment request = Ok tt.
Proof.
  intros Hmax Hlen Hlinks (Hc & Hn & Hh) Hb. unfold validate_segment.
  destruct (aq_continuity request) as [|a links] eqn:E; [done|]. destruct (Hc) as (Hs & Hp & Hc').
  apply Forall_cons in Hlinks as [Hl _]. unfold validate_link in Hl. apply fail_if_Ok in Hl as [Hpos%N.eqb_neq _].
  set (k := N.of_nat (length (a :: links))) in *. unfold checked_sub. destruct (N.leb_spec (k - 1) (aq_observed_receipt_sequence request)); [|lia].
  cbn [or_err head]. rewrite (proj2 (N.eqb_eq _ _)) by lia. cbn [negb].
  rewrite <-Hs, <-Hp in Hb. apply validate_start_Ok in Hb as ->; [|lia].
  rewrite chained_windows; [|by rewrite Hs|subst k; cbn [length] in *; lia].
  unfold end_hash in Hh. destruct (last (a :: links)) as [b|] eqn:Eb; [|by apply last_None in Eb]. simplify_eq. cbn [or_err].
  rewrite (chained_last _ _ _ _ Hc Eb), Hh, String.eqb_refl. fold k. by rewrite (proj2 (N.eqb_eq _ _)) by lia.
Qed.

Lemma validated_request request :
  validate_anchor_request request = Ok tt →
  fields_ok request ∧ (aq_observed_receipt_sequence request ≠ 0)%N
  ∧ ∃ parent first, segment request parent first ∧ begins (aq_prior_checkpoint_hash request) parent first.
Proof.
  rewrite validate_anchor_request_split. intros (Hf & Hobs & Hs). split_and!; [done..|].
  apply validate_segment_sound; [done| |done]. unfold fields_ok in Hf. tauto.
Qed.

Lemma validated_continuity request : validate_anchor_request request = Ok tt → aq_continuity request ≠ [].
Proof. intros ((_ & _ & _ & _ & _ & _ & _ & Hlen) & _ & _)%validated_request E. rewrite E in Hlen. simpl in Hlen. lia. Qed.

Lemma segment_first request parent first link :
  segment request parent first → head (aq_continuity request) = Some link →
  lw_sequence link = first ∧ lw_parent_hash link = parent.
Proof. intros (Hc & _). destruct (aq_continuity request); simpl; [done|]. intros [= ->]. by destruct Hc as (? & ? & _). Qed.

(** ** Checkpoints *)

Section chain.
Context {prim : Primitives}.
Context (config : StoreConfig) (public_key : string).

Abbreviation validate_stored := (validate_stored_checkpoint config public_key).

(** Everything that is checked about a checkpoint when it is read. *)
Record stored_ok (expected_sequence : N) (previous : option StoredCheckpoint) (s : StoredCheckpoint) : Prop := {
  so_request : validate_anchor_request (st_request s) = Ok tt;
  so_verified : verify_checkpoint (st_checkpoint s) public_key = Ok tt;
  so_sequence : cr_checkpoint_sequence (record_of s) = expected_sequence;
  so_authority : cr_authority_id (record_of s) = sc_authority_id config;
  so_issued : cr_issued_at_unix_ms (record_of s) ≠ 0%N;
  so_clock : clock_rolled_back previous (cr_issued_at_unix_ms (record_of s)) = false;
  so_key : cr_signing_key_id (record_of s) = signing_key_id public_key;
  so_id : aq_request_id (st_request s) = cr_request_id (record_of s);
  so_digest : request_digest (st_request s) = Ok (cr_request_digest (record_of s));
  so_ledger_bound : aq_ledger_id (st_request s) = cr_ledger_id (record_of s);
  so_path_bound : aq_receipt_ledger_path (st_request s) = cr_receipt_ledger_path (record_of s);
  so_observed : aq_observed_receipt_sequence (st_request s) = cr_observed_receipt_sequence (record_of s);
  so_head : aq_observed_receipt_head (st_request s) = cr_observed_receipt_head (record_of s);
  so_peer : cr_peer_uid (record_of s) = sc_allowed_peer_uid config;
  so_ledger : cr_ledger_id (record_of s) = sc_allowed_ledger_id config;
  so_path : cr_receipt_ledger_path (record_of s) = sc_allowed_receipt_ledger_path config;
  so_parent : cr_parent_checkpoint_hash (record_of s) = sc_record_hash ∘ st_checkpoint <$> previous;
  so_prior : aq_prior_checkpoint_hash (st_request s) = sc_record_hash ∘ st_checkpoint <$> previous;
  so_advance : validate_request_advance (st_request s) previous = Ok tt;
}.

Lemma validate_stored_Ok n previous s : validate_stored n previous s = Ok tt ↔ stored_ok n previous s.
Proof.
  unfold validate_stored_checkpoint. cbv zeta. rewrite !bind_unit_Ok, !fail_if_Ok, bind_Ok, !negb_false_iff,
    !String.eqb_eq, !N.eqb_eq, N.eqb_neq. split.
  - intros (? & ? & ? & ? & ? & ? & ? & ? & digest & Hd & Hr). rewrite !fail_if_Ok, orb_false_iff in Hr.
    unfold bound_to_request in Hr. rewrite !negb_false_iff, !andb_true_iff, !String.eqb_eq, !N.eqb_eq, !bool_decide_ne_false in Hr.
    destruct_and! Hr. simplify_eq. by split.
  - intros []. split_and!; [done..|]. eexists. split; [done|]. unfold bound_to_request. rewrite !fail_if_Ok, orb_false_iff,
      !negb_false_iff, !andb_true_iff, !String.eqb_eq, !N.eqb_eq, !bool_decide_ne_false. by split_and!.
Qed.

(** The chain from a number on, after [previous]. *)
Fixpoint valid_from (index : nat) (previous : option StoredCheckpoint) (chain : list StoredCheckpoint) : Prop :=
  match chain with
  | [] => True
  | s :: chain => stored_ok (N.of_nat (S index)) previous s ∧ valid_from (S index) (Some s) chain
  end.

Definition last_of (previous : option StoredCheckpoint) (chain : list StoredCheckpoint) : option StoredCheckpoint :=
  match last chain with Some p => Some p | None => previous end.

Lemma valid_from_app index previous c1 c2 :
  valid_from index previous (c1 ++ c2)
  ↔ valid_from index previous c1 ∧ valid_from (index + length c1) (last_of previous c1) c2.
Proof.
  revert index previous. induction c1 as [|a c1 IH]; intros index previous; cbn [app valid_from length].
  { change (last_of previous []) with previous. rewrite Nat.add_0_r. tauto. }
  assert (last_of previous (a :: c1) = last_of (Some a) c1) as -> by (unfold last_of; rewrite last_cons; by destruct (last c1)).
  rewrite IH. replace (S index + length c1) with (index + S (length c1)) by lia. tauto.
Qed.

Lemma valid_from_snoc index previous chain s :
  valid_from index previous (chain ++ [s])
  ↔ valid_from index previous chain ∧ stored_ok (N.of_nat (S (index + length chain))) (last_of previous chain) s.
Proof. rewrite valid_from_app. simpl. tauto. Qed.

Lemma valid_from_lookup index previous chain i s :
  valid_from index previous chain → chain !! i = Some s →
  stored_ok (N.of_nat (S (index + i))) (match i with O => previous | S i => chain !! i end) s.
Proof.
  revert index previous i. induction chain as [|a chain IH]; intros index previous i; [done|]. intros [Ha Hc].
  destruct i as [|i]; simpl; [intros; simplify_eq; by rewrite Nat.add_0_r|]. intros Hi.
  specialize (IH _ _ _ Hc Hi). replace (S (index + S i)) with (S (S index + i)) by lia. by destruct i.
Qed.

(** ** One chain of receipts *)

Definition links_of (chain : list StoredCheckpoint) : list ReceiptLinkWitness :=
  mjoin (map (aq_continuity ∘ st_request) chain).

(** Where the next segment begins. *)
Definition next_start (previous : option StoredCheckpoint) : option string * N :=
  match previous with
  | None => (None, 1%N)
  | Some p => (Some (cr_observed_receipt_head (record_of p)), (cr_observed_receipt_sequence (record_of p) + 1)%N)
  end.

Lemma stored_segment n previous s :
  stored_ok n previous s → segment (st_request s) (next_start previous).1 (next_start previous).2.
Proof.
  intros Hs. destruct (validated_request _ (so_request _ _ _ Hs)) as (_ & _ & parent & first & Hseg & Hb).
  pose proof (so_advance _ _ _ Hs) as Ha. pose proof (validated_continuity _ (so_request _ _ _ Hs)) as Hne.
  unfold validate_request_advance in Ha. destruct previous as [p|]; simpl.
  - apply fail_if_Ok in Ha as [_ Ha]. apply fail_if_Ok in Ha as [_ Ha]. apply bind_Ok in Ha as (link & Hl%or_err_Ok & Ha).
    apply bind_Ok in Ha as (n' & Hn%or_err_Ok & Ha). apply fail_if_Ok in Ha as [Ha _].
    apply orb_false_iff in Ha as [H1%negb_false_iff%N.eqb_eq H2%bool_decide_eq_false]. apply dec_stable in H2.
    destruct (segment_first _ _ _ _ Hseg Hl) as [<- <-]. unfold checked_add in Hn. case_match; [|done].
    injection Hn as Hn. unfold record_of. rewrite Hn, <-H1, <-H2. done.
  - rewrite (so_prior _ _ _ Hs) in Hb. by destruct Hb as [-> ->].
Qed.

Lemma segment_next s parent first :
  segment (st_request s) parent first →
  aq_observed_receipt_sequence (st_request s) = cr_observed_receipt_sequence (record_of s) →
  aq_observed_receipt_head (st_request s) = cr_observed_receipt_head (record_of s) →
  end_hash parent (aq_continuity (st_request s)) = (next_start (Some s)).1
  ∧ (first + N.of_nat (length (aq_continuity (st_request s))))%N = (next_start (Some s)).2.
Proof. intros (_ & Hn & Hh) H1 H2. simpl. by rewrite Hn, Hh, H1, H2. Qed.

(** The segments join; after [i] checkpoints the links number as far as the last of them observed. *)
Lemma valid_chained index previous chain :
  valid_from index previous chain → chained (next_start previous).1 (next_start previous).2 (links_of chain).
Proof.
  revert index previous. induction chain as [|s chain IH]; intros index previous; [done|]. intros [Hs Hc].
  pose proof (stored_segment _ _ _ Hs) as Hseg.
  destruct (segment_next _ _ _ Hseg (so_observed _ _ _ Hs) (so_head _ _ _ Hs)) as [H1 H2].
  unfold links_of. simpl. apply chained_app. split; [apply Hseg|]. simpl. rewrite H1, H2. by apply (IH (S index)).
Qed.

Lemma links_of_app c1 c2 : links_of (c1 ++ c2) = links_of c1 ++ links_of c2.
Proof. unfold links_of. by rewrite map_app, join_app. Qed.

Lemma valid_links index previous chain s :
  valid_from index previous chain → last chain = Some s →
  end_hash (next_start previous).1 (links_of chain) = Some (cr_observed_receipt_head (record_of s))
  ∧ ((next_start previous).2 + N.of_nat (length (links_of chain)) = cr_observed_receipt_sequence (record_of s) + 1)%N.
Proof.
  revert s. induction chain as [|a chain IH] using rev_ind; intros s Hv; [done|].
  rewrite last_snoc. intros [= <-]. apply valid_from_snoc in Hv as [Hv Hs].
  pose proof (stored_segment _ _ _ Hs) as Hseg.
  destruct (segment_next _ _ _ Hseg (so_observed _ _ _ Hs) (so_head _ _ _ Hs)) as [H1 H2].
  pose proof (validated_continuity _ (so_request _ _ _ Hs)) as Hne. unfold last_of in *. rewrite links_of_app, length_app.
  assert (links_of [a] = aq_continuity (st_request a)) as -> by (unfold links_of; simpl; by rewrite app_nil_r).
  split.
  - destruct (aq_continuity (st_request a)) as [|l ls] eqn:E using rev_ind; [done|]. unfold end_hash in *.
    rewrite last_snoc in H1. rewrite app_assoc, last_snoc. by simpl in H1.
  - destruct (last chain) as [p|] eqn:Ep.
    + destruct (IH p Hv eq_refl) as [_ Hn]. simpl in H2. lia.
    + apply last_None in Ep as ->. simpl in *. lia.
Qed.
End chain.
