(* ===== verification/CheckpointPublish.v ===== *)
(** * Anchoring on a disk that can fail, and on one that works

    A prepared checkpoint continues the chain it was prepared for; publishing it leaves the
    chain or the chain with it, whatever fails; and the directory that several processes
    publish into only grows.  When no call fails, an acceptable request is anchored; with what
    holds after a failure, an anchor that failed can be repeated. *)

From S2P Require Import Prelude RustStr RiskPaths RustText Disk Omnis CheckpointModel CheckpointStore CheckpointChain CheckpointDisk.

Section publish.
Context {prim : Primitives} {laws : PrimitiveLaws}.
Context (json_stored : StoredCheckpoint → result string string) (parse_stored : string → option StoredCheckpoint).
Context (listed : list string → list string).
(** The serializer writes one line, of less than the limit, that is read back. *)
Context (json_line : ∀ s payload, json_stored s = Ok payload →
  one_line payload ∧ (len payload < MAX_RECORD_BYTES)%N ∧ parse_stored payload = Some s).
Context (listed_perm : ∀ names, listed names ≡ₚ names).
Context (store : AuthorityStore).
(** The key pair is that of the key file, its public key is trusted, and the key files are
    not among the records. *)
Context (identity_loaded : from_pkcs8 (as_private_key_bytes store) = Ok (as_signing_identity store)).
Context (public_key_trusted : si_public_key (as_signing_identity store) = as_public_key store).

Abbreviation config := (as_config store).
Abbreviation paths := (sc_paths (as_config store)).
Context (keys_apart : entry_name (records_dir paths) (signing_key_path paths) = None
                      ∧ entry_name (records_dir paths) (trust_public_key_path paths) = None).

Abbreviation record_path := (record_path store).
Abbreviation nth_path := (nth_path store).
Abbreviation holds := (holds parse_stored store).
Abbreviation load_chain := (load_chain parse_stored listed store).

(** ** Signed checkpoints verify *)

Lemma signed_verifies record checkpoint :
  sign (as_signing_identity store) record = Ok checkpoint →
  sc_record checkpoint = record ∧ verify_checkpoint checkpoint (as_public_key store) = Ok tt.
Proof.
  intros Hsign. unfold sign in Hsign. apply bind_unit_Ok in Hsign as [Hv Hsign].
  apply fail_if_Ok in Hsign as [Hk%negb_false_iff%String.eqb_eq Hsign]. apply bind_Ok in Hsign as (hash & Hh & Hsign).
  apply bind_Ok in Hsign as (message & Hm & [= <-]). split; [done|].
  unfold from_pkcs8 in identity_loaded. destruct (pkcs8_key_pair (as_private_key_bytes store)) as [[pk sgn]|] eqn:Ek; [|done].
  injection identity_loaded as Hid. rewrite <-Hid in *. simpl in *. subst pk.
  unfold verify_checkpoint. cbn [sc_record sc_record_hash sc_signature_ed25519]. rewrite Hv, Hk, String.eqb_refl, Hh, Hm, String.eqb_refl.
  unfold signature_message in Hm. apply bind_unit_Ok in Hm as [-> _]. cbn [negb]. rewrite hex_back. cbn [or_err].
  unfold len. rewrite hex_length, hex_lower, (signature_length _ _ _ _ Ek), (signature_verifies _ _ _ _ Ek). done.
Qed.

(** ** What is prepared continues the chain *)

Definition continues (chain : list StoredCheckpoint) (sequence : N) (s : StoredCheckpoint) : Prop :=
  sequence = N.of_nat (S (length chain)) ∧ (sequence < 2 ^ 64)%N
  ∧ stored_ok config (as_public_key store) sequence (last chain) s
  ∧ aq_request_id (st_request s) ∉ request_ids chain.

Lemma find_request_None id chain : find_request id chain = None ↔ id ∉ request_ids chain.
Proof.
  unfold find_request, request_ids. induction chain as [|s chain IH]; simpl; [split; [by intros _ ?%elem_of_nil|done]|].
  rewrite elem_of_cons. destruct (String.eqb_spec (aq_request_id (st_request s)) id) as [->|Hne].
  - split; [done|]. intros []. by left.
  - rewrite IH. split; [intros Hn [->|Hin]; by apply Hn || done|tauto].
Qed.

Lemma find_request_Some id chain s : find_request id chain = Some s → s ∈ chain ∧ aq_request_id (st_request s) = id.
Proof. intros [Hin Hid]%find_some. apply String.eqb_eq in Hid. by rewrite list_elem_of_In. Qed.

Lemma find_request_app id c1 c2 s : find_request id c1 = Some s → find_request id (c1 ++ c2) = Some s.
Proof. unfold find_request. induction c1 as [|a c1 IH]; simpl; [done|]. by destruct (String.eqb _ _). Qed.

Lemma find_request_snoc chain s :
  aq_request_id (st_request s) ∉ request_ids chain → find_request (aq_request_id (st_request s)) (chain ++ [s]) = Some s.
Proof.
  intros Hn%find_request_None. revert Hn. unfold find_request. induction chain as [|a chain IH]; simpl; [by rewrite String.eqb_refl|].
  by destruct (String.eqb _ _).
Qed.

Lemma answer_continues chain peer_uid request now sequence checkpoint :
  check_anchor store peer_uid request now = Ok tt →
  answer_request store chain peer_uid request now = Ok (Unpublished sequence checkpoint) →
  continues chain sequence {| st_request := request; st_checkpoint := checkpoint |}.
Proof.
  intros Hcheck Hanswer. unfold check_anchor in Hcheck. apply bind_unit_Ok in Hcheck as [Hreq Hcheck]. rewrite !fail_if_Ok in Hcheck.
  destruct Hcheck as (Hnow%N.eqb_neq & Hpeer%negb_false_iff%N.eqb_eq & Hledger%negb_false_iff%String.eqb_eq
    & Hpath%negb_false_iff%String.eqb_eq & _).
  unfold answer_request in Hanswer. destruct (find_request _ _) as [s|] eqn:Ef; [by apply fail_if_Ok in Hanswer as [_ ?]|].
  apply bind_unit_Ok in Hanswer as [Hadv Hanswer]. apply fail_if_Ok in Hanswer as [Hclock Hanswer].
  apply bind_Ok in Hanswer as (n & Hn%or_err_Ok & Hanswer). apply bind_Ok in Hanswer as (digest & Hd & Hanswer).
  apply bind_Ok in Hanswer as (chk & Hs & [= -> ->]). unfold checked_add in Hn. destruct (N.ltb_spec (N.of_nat (length chain) + 1) (2 ^ 64)); [|done].
  injection Hn as Hn. apply signed_verifies in Hs as [Hrec Hver]. unfold continues. split_and!; [lia..| |by apply find_request_None].
  assert (aq_prior_checkpoint_hash request = sc_record_hash ∘ st_checkpoint <$> last chain) as Hprior.
  { unfold validate_request_advance in Hadv. destruct (last chain) as [p|]; apply fail_if_Ok in Hadv as [Hb _].
    - apply bool_decide_eq_false in Hb. by apply dec_stable in Hb.
    - apply bool_decide_eq_false in Hb. by apply eq_None_not_Some in Hb. }
  split; unfold record_of; cbn [st_request st_checkpoint]; try done; rewrite Hrec; cbn; try done.
  unfold from_pkcs8 in identity_loaded. destruct (pkcs8_key_pair _) as [[pk sgn]|]; [|done].
  injection identity_loaded as Hid. rewrite <-public_key_trusted, <-Hid. done.
Qed.

(** ** Which changes of the files keep a chain, and which continue it *)

Lemma apart_from_keys name : plain_name name → record_path name ≠ signing_key_path paths ∧ record_path name ≠ trust_public_key_path paths.
Proof.
  intros Hn. destruct keys_apart as [H1 H2].
  assert (entry_name (records_dir paths) (record_path name) = Some name) as E by (by apply entry_name_Some).
  split; intros Heq; rewrite Heq in E; congruence.
Qed.

Lemma record_path_inj n1 n2 : record_path n1 = record_path n2 → n1 = n2.
Proof. unfold CheckpointStore.record_path. intros E. by apply (inj (String.app _)), (inj (String.app _)) in E. Qed.

Lemma temp_not_record t k : is_temp_name t = true → record_path t ≠ nth_path k.
Proof. intros Ht E%record_path_inj. subst t. by rewrite record_not_temp in Ht. Qed.

(** Only a temporary file differs. *)
Lemma holds_temp fs fs' chain t :
  is_temp_name t = true → plain_name t → (∀ p, p ≠ record_path t → fs' !! p = fs !! p) → holds fs chain → holds fs' chain.
Proof.
  intros Ht Hpl Hsame [Hpriv Htrust Hpk Hnames Hfiles Hv Hnd Hmax]. destruct (apart_from_keys t Hpl) as [Ha Hb].
  split; try done.
  - unfold key_file in *. by rewrite Hsame.
  - unfold key_file in *. by rewrite Hsame.
  - intros name [Hname Hin]%elem_of_names_in Htemp. apply Hnames; [|done]. apply elem_of_names_in. split; [done|].
    rewrite Hsame in Hin; [done|]. intros ->%record_path_inj. congruence.
  - intros i s (bytes & payload & Hf & Hrest)%Hfiles. exists bytes, payload. rewrite Hsame; [done|].
    apply not_eq_sym. by apply temp_not_record.
Qed.

Lemma nth_path_inj i j : nth_path i = nth_path j → i = j.
Proof. intros E%record_path_inj%record_filename_inj. lia. Qed.

(** The next record appears. *)
Lemma holds_snoc fs chain sequence s bytes payload :
  holds fs chain → continues chain sequence s → exact_json_line bytes = Ok payload → (len bytes ≤ MAX_RECORD_BYTES)%N →
  parse_stored payload = Some s → holds (<[nth_path (length chain) := bytes]> fs) (chain ++ [s]).
Proof.
  intros [Hpriv Htrust Hpk Hnames Hfiles Hv Hnd Hmax] (-> & Hmax' & Hok & Hid) Hp Hlen Hparse.
  destruct (apart_from_keys _ (record_plain (N.of_nat (S (length chain))))) as [Ha Hb].
  split; try done.
  - unfold key_file in *. by rewrite lookup_insert_ne.
  - unfold key_file in *. by rewrite lookup_insert_ne.
  - intros name [Hname Hin]%elem_of_names_in Htemp. rewrite length_app. simpl.
    destruct (decide (name = record_filename (N.of_nat (S (length chain))))) as [->|Hne]; [exists (length chain); split; [lia|done]|].
    rewrite lookup_insert_ne in Hin by (intros E; apply Hne; by apply record_path_inj).
    destruct (Hnames name) as (i & Hi & ->); [by apply elem_of_names_in|done|]. exists i. split; [lia|done].
  - intros i s' Hs'. destruct (decide (i = length chain)) as [->|Hne].
    + rewrite lookup_app_r, Nat.sub_diag in Hs' by lia. injection Hs' as <-. exists bytes, payload. by rewrite lookup_insert_eq.
    + assert (i < length chain) as Hi by (apply lookup_lt_Some in Hs'; rewrite length_app in Hs'; simpl in Hs'; lia).
      rewrite lookup_app_l in Hs' by done. destruct (Hfiles i s' Hs') as (b & pl & Hb' & Hrest). exists b, pl.
      rewrite lookup_insert_ne; [done|]. intros E%nth_path_inj. lia.
  - apply valid_from_snoc. split; [done|]. unfold last_of. by destruct (last chain).
  - unfold request_ids in *. rewrite map_app. apply NoDup_app. split_and!; [done| |apply NoDup_singleton].
    by intros x Hx ->%list_elem_of_singleton.
  - rewrite length_app. simpl. lia.
Qed.

Lemma holds_next fs chain k : holds fs chain → is_Some (fs !! nth_path k) ↔ k < length chain.
Proof.
  intros Hh. split.
  - intros Hs. destruct (ho_names _ _ _ _ Hh (record_filename (N.of_nat (S k)))) as (i & Hi & E).
    + apply elem_of_names_in. split; [apply record_plain|done].
    + apply record_not_temp.
    + apply record_filename_inj in E. lia.
  - intros [s Hs]%lookup_lt_is_Some_2. destruct (ho_files _ _ _ _ Hh k s Hs) as (b & _ & Hb & _). by eexists.
Qed.

(** ** Publishing *)

Section publishing.
Context (pid nonce : N).
(** The chain that the checkpoint was prepared for, and the one that is there now. *)
Context (prepared chain : list StoredCheckpoint) (sequence : N) (new : StoredCheckpoint).
Context (Hnew : continues prepared sequence new) (Hprefix : prepared `prefix_of` chain).

Abbreviation temporary := (record_path (temp_name sequence pid nonce)).
Abbreviation final_path := (record_path (record_filename sequence)).

(** The chain, or the prepared chain and the new checkpoint. *)
Definition published_or_not (fs : Files) : Prop := holds fs chain ∨ chain = prepared ∧ holds fs (prepared ++ [new]).

Definition publish_result (published : bool) (fs : Files) : Prop :=
  if published then chain = prepared ∧ holds fs (prepared ++ [new]) else holds fs chain ∧ length prepared < length chain.

Lemma temporary_named : is_temp_name (temp_name sequence pid nonce) = true ∧ plain_name (temp_name sequence pid nonce).
Proof. destruct Hnew as (-> & Hmax & _). split; [by apply temp_is_temp|apply temp_plain]. Qed.

Lemma holds_at_temp c fs text : holds fs c → holds (<[temporary := text]> fs) c.
Proof.
  destruct temporary_named. apply holds_temp with (t := temp_name sequence pid nonce); try done.
  intros p Hp. by apply lookup_insert_ne.
Qed.

Lemma holds_alter_temp c fs f : holds fs c → holds (alter f temporary fs) c.
Proof.
  destruct temporary_named. apply holds_temp with (t := temp_name sequence pid nonce); try done.
  intros p Hp. by apply lookup_alter_ne.
Qed.

Lemma holds_without_temp c fs : holds fs c → holds (delete temporary fs) c.
Proof.
  destruct temporary_named. apply holds_temp with (t := temp_name sequence pid nonce); try done.
  intros p Hp. by apply lookup_delete_ne.
Qed.

Lemma final_is_next : final_path = nth_path (length prepared).
Proof. destruct Hnew as (-> & _). done. Qed.

Lemma final_free fs : holds fs chain → fs !! final_path = None → chain = prepared.
Proof.
  rewrite final_is_next. intros Hh Hnone. destruct Hprefix as [rest ->]. destruct rest as [|s rest]; [by rewrite app_nil_r|].
  destruct (proj2 (holds_next fs (prepared ++ s :: rest) (length prepared) Hh)) as [b Hb]; [rewrite length_app; simpl; lia|congruence].
Qed.

Lemma final_taken fs : holds fs chain → is_Some (fs !! final_path) → length prepared < length chain.
Proof. rewrite final_is_next. intros Hh. by apply holds_next. Qed.

Lemma guarded_code {A} (I P : Files → Prop) c (m : Io A) Q E : guarded I P m Q E → guarded I P (io_code c m) Q E.
Proof. intros Hm d Hd. unfold io_code. specialize (Hm d Hd). by destruct (m d) as [[x|e] d']. Qed.

(** The temporary file has been filled. *)
Definition filled (bytes : string) (fs : Files) : Prop := holds fs chain ∧ fs !! temporary = Some bytes.

Lemma create_temp_guarded :
  guarded published_or_not (λ fs, holds fs chain) (create_new_file temporary) (λ _, filled "") (λ fs, holds fs chain).
Proof.
  eapply (guarded_bind _ _ _ _ (λ _ fs, holds fs chain)); [by apply guarded_exists|]. intros [|]; [by apply guarded_err|].
  apply guarded_change. intros fs Hh. split_and!; [left; by apply holds_at_temp| |done].
  split; [by apply holds_at_temp|apply lookup_insert_eq].
Qed.

Lemma fill_temp_guarded bytes :
  guarded published_or_not (filled "") (append_file temporary bytes) (λ _, filled bytes) (λ fs, holds fs chain).
Proof.
  apply guarded_append.
  - intros fs [Hh Ht]. split; [by apply holds_alter_temp|]. by rewrite lookup_alter_eq, Ht.
  - intros fs b [Hh _]. split; [left|]; by apply holds_alter_temp.
Qed.

Lemma link_guarded payload :
  json_stored new = Ok payload →
  guarded published_or_not (filled (payload +:+ newline)) (link_file temporary final_path)
    (λ r fs, match r with
             | Ok _ => publish_result true fs
             | Err AlreadyExists => publish_result false fs
             | Err LinkFailed => holds fs chain
             end) (λ fs, holds fs chain).
Proof.
  intros Hjson. destruct (json_line _ _ Hjson) as (Hline & Hlen & Hparse).
  eapply (guarded_bind _ _ _ _ (λ b fs, filled (payload +:+ newline) fs ∧ b = bool_decide (is_Some (fs !! final_path)))).
  { by apply guarded_exists. }
  intros [|].
  { apply guarded_ret. intros fs [[Hh _] Hb]. split; [done|]. apply (final_taken fs); [done|]. symmetry in Hb. by apply bool_decide_eq_true in Hb. }
  eapply (guarded_bind _ _ _ _ (λ _ fs, filled (payload +:+ newline) fs ∧ fs !! final_path = None)).
  { apply guarded_exists. intros fs [Hf Hb]. split; [done|]. apply eq_None_not_Some. symmetry in Hb. by apply bool_decide_eq_false in Hb. }
  intros [|]; [|apply guarded_ret; by intros fs [[Hh _] _]].
  eapply guarded_bind.
  - apply guarded_try. apply (guarded_change _ _ _ (λ _ fs, publish_result true fs) (λ fs, holds fs chain)).
    intros fs [[Hh Ht] Hnone]. rewrite Ht. pose proof (final_free fs Hh Hnone) as ->.
    assert (holds (<[final_path := payload +:+ newline]> fs) (prepared ++ [new])) as Hs.
    { rewrite final_is_next. apply (holds_snoc fs prepared sequence new _ payload); try done; [by apply exact_json_line_Ok|].
      unfold len in *. rewrite str_length_app. change (String.length newline) with 1. lia. }
    split_and!; [by right|done|done].
  - intros [u|e]; by apply guarded_ret.
Qed.

Lemma link_record_guarded payload :
  json_stored new = Ok payload →
  guarded published_or_not (λ fs, holds fs chain) (link_record temporary final_path (payload +:+ newline))
    publish_result published_or_not.
Proof.
  intros Hjson. unfold link_record.
  assert (∀ fs, holds fs chain → published_or_not fs) as Hleft by (by left).
  assert (∀ fs, publish_result true fs → published_or_not fs) as Hright by (by right).
  eapply (guarded_bind _ _ _ _ (λ _, filled "")).
  { apply guarded_code. eapply guarded_weaken; [apply create_temp_guarded|done..]. }
  intros _. eapply (guarded_bind _ _ _ _ (λ _, filled (payload +:+ newline))).
  { apply guarded_code. eapply guarded_weaken; [apply fill_temp_guarded|done..]. }
  intros _.
  assert (∀ fs, filled (payload +:+ newline) fs → filled (payload +:+ newline) fs ∧ published_or_not fs) as Hsame.
  { intros fs [Hh Ht]. by split; [|left]. }
  do 3 (eapply (guarded_bind _ _ _ _ (λ _, filled (payload +:+ newline)));
    [try apply guarded_code; by apply (guarded_check _ _ (λ _, filled (payload +:+ newline)))|intros _]).
  eapply guarded_bind; [eapply guarded_weaken; [by apply link_guarded|done..]|]. intros [u|[]].
  - assert (∀ fs, publish_result true fs → publish_result true fs ∧ published_or_not fs) as Hs by auto.
    eapply (guarded_bind _ _ _ _ (λ _, publish_result true)); [|by intros _; apply guarded_ret].
    eapply (guarded_bind _ _ _ _ (λ _, publish_result true)); [|intros _]; by apply guarded_check.
  - by apply guarded_ret.
  - by apply guarded_err.
Qed.

Lemma publish_result_without_temp b fs : publish_result b fs → publish_result b (delete temporary fs).
Proof. destruct b; simpl; intros []; split; try done; by apply holds_without_temp. Qed.

Lemma published_or_not_without_temp fs : published_or_not fs → published_or_not (delete temporary fs).
Proof. intros [H|[E H]]; [left|right; split; [done|]]; by apply holds_without_temp. Qed.

(** Publishing, whatever fails: the chain stays, or it was the prepared one and has the new
    checkpoint; and the answer tells which when there is one. *)
Lemma record_publish_guarded :
  guarded published_or_not (λ fs, holds fs chain) (publish_record json_stored pid nonce store sequence new)
    publish_result published_or_not.
Proof.
  unfold publish_record. cbv zeta.
  assert (∀ b fs, publish_result b fs → published_or_not fs) as Hweak by (intros [] fs; [by right|intros [? _]; by left]).
  eapply guarded_bind; [apply (guarded_of _ _ _ (λ payload fs, holds fs chain ∧ json_stored new = Ok payload))|].
  { intros fs Hh. destruct (json_stored new); [done|by left]. }
  intros payload. cbn beta. apply guarded_fact. intros Hjson.
  set (after := λ (r : result bool string) fs, match r with Ok b => publish_result b fs | Err _ => published_or_not fs end).
  assert (∀ r fs, after r fs → published_or_not fs) as Hafter by (intros [b|e] fs; [apply Hweak|done]).
  eapply (guarded_bind _ _ _ _ after); [by apply guarded_try, link_record_guarded|]. intros r.
  eapply (guarded_bind _ _ _ _ (λ _, after r)).
  { apply guarded_remove. intros fs Hr. assert (after r (delete temporary fs)) as Hd.
    { destruct r; [by apply publish_result_without_temp|by apply published_or_not_without_temp]. }
    split_and!; [by eapply Hafter|done|done|done]. }
  intros removed. eapply (guarded_bind _ _ _ _ (λ _, after r)).
  { eapply guarded_weaken; [apply (guarded_try _ _ _ (λ _, after r) (after r) published_or_not)|done| |done].
    - eapply (guarded_bind _ _ _ _ (λ _, after r)); [|intros _]; by apply guarded_check.
    - by intros [u|e] fs. }
  intros resync. apply guarded_of. intros fs Hr. destruct r as [b|e]; simpl in Hr.
  - destruct removed as [u|[]]; simpl; destruct resync; eauto.
  - destruct removed as [u|[]]; simpl; destruct resync; eauto.
Qed.
End publishing.

(** ** Preparing and confirming only read *)

Lemma find_request_in chain s :
  NoDup (request_ids chain) → s ∈ chain → find_request (aq_request_id (st_request s)) chain = Some s.
Proof.
  unfold find_request, request_ids. induction chain as [|a chain IH]; simpl; [by intros _ ?%elem_of_nil|].
  intros [Ha Hnd]%NoDup_cons [->|Hin]%elem_of_cons; [by rewrite String.eqb_refl|].
  destruct (String.eqb_spec (aq_request_id (st_request a)) (aq_request_id (st_request s))) as [E|_]; [|by apply IH].
  destruct Ha. rewrite E. apply list_elem_of_fmap. by exists s.
Qed.

(** The chain has the request, with the checkpoint of the outcome. *)
Definition recorded (request : AnchorRequest) (outcome : AnchorOutcome) (chain : list StoredCheckpoint) : Prop :=
  find_request (aq_request_id request) chain = Some {| st_request := request; st_checkpoint := an_checkpoint outcome |}.

Lemma same_request_Ok peer_uid request s : same_request peer_uid request s = true → st_request s = request.
Proof. by intros [?%bool_decide_eq_true_1 _]%andb_true_iff. Qed.

Lemma existing_recorded request chain s :
  find_request (aq_request_id request) chain = Some s → st_request s = request → recorded request (existing s) chain.
Proof. unfold recorded. intros -> <-. by destruct s. Qed.

Definition prepared_ok (request : AnchorRequest) (fs : Files) (p : Prepared) : Prop :=
  ∃ chain, holds fs chain ∧
    match p with
    | Known outcome => an_disposition outcome = Existing ∧ recorded request outcome chain
    | Unpublished sequence checkpoint => continues chain sequence {| st_request := request; st_checkpoint := checkpoint |}
    end.

Lemma reads_prepare fs peer_uid request now :
  reads fs (prepare_anchor parse_stored listed store peer_uid request now) (prepared_ok request fs).
Proof.
  unfold prepare_anchor. eapply reads_bind; [apply reads_live_authority|]. intros _ _.
  eapply reads_bind; [apply reads_pure|]. intros [] Hcheck.
  eapply reads_bind; [by apply reads_load_chain|]. intros chain Hh.
  apply reads_of. intros p Hp. exists chain. split; [done|]. destruct p as [outcome|sequence checkpoint].
  - unfold answer_request in Hp. destruct (find_request _ _) as [s|] eqn:Ef.
    + apply fail_if_Ok in Hp as [Hs%negb_false_iff%same_request_Ok [= <-]]. split; [done|by apply existing_recorded].
    + apply bind_unit_Ok in Hp as [_ Hp]. apply fail_if_Ok in Hp as [_ Hp]. apply bind_Ok in Hp as (? & _ & Hp).
      apply bind_Ok in Hp as (? & _ & Hp). by apply bind_Ok in Hp as (? & _ & Hp).
  - by eapply answer_continues.
Qed.

Lemma reads_confirm fs peer_uid request sequence checkpoint published :
  reads fs (confirm_anchor parse_stored listed store peer_uid request sequence checkpoint published)
    (λ outcome, ∃ chain, holds fs chain ∧ recorded request outcome chain
       ∧ an_disposition outcome = if published then Appended else Existing).
Proof.
  unfold confirm_anchor. eapply reads_bind; [by apply reads_load_chain|]. intros chain Hh. apply reads_of. intros outcome Ho.
  exists chain. split; [done|]. destruct published.
  - apply bind_Ok in Ho as (s & Hs%or_err_Ok & Ho). apply fail_if_Ok in Ho as [Hsame [= <-]].
    apply orb_false_iff in Hsame as [H1%bool_decide_eq_false H2%bool_decide_eq_false]. apply dec_stable in H1, H2. split; [|done].
    apply last_Some_elem_of in Hs. apply find_request_in in Hs; [|by eapply ho_ids]. unfold recorded. simpl.
    rewrite H2 in Hs. rewrite Hs, <-H1, <-H2. by destruct s.
  - destruct (find_request _ _) as [s|] eqn:Ef; [|done].
    apply fail_if_Ok in Ho as [Hs%negb_false_iff%same_request_Ok [= <-]]. split; [by apply existing_recorded|done].
Qed.

(** ** The whole of [anchor_at] *)

Section anchoring.
Context (pid nonce peer_uid : N) (request : AnchorRequest) (now : N) (chain : list StoredCheckpoint).

Definition anchored_or_not (fs : Files) : Prop :=
  holds fs chain ∨ ∃ s, st_request s = request ∧ holds fs (chain ++ [s]).

Definition anchor_result (outcome : AnchorOutcome) (fs : Files) : Prop :=
  ∃ chain', holds fs chain' ∧ recorded request outcome chain'
    ∧ chain' = match an_disposition outcome with
               | Existing => chain
               | Appended => chain ++ [{| st_request := request; st_checkpoint := an_checkpoint outcome |}]
               end.

Lemma confirm_guarded chain' (sequence : N) checkpoint (published : bool) :
  chain' = (if published then chain ++ [{| st_request := request; st_checkpoint := checkpoint |}] else chain) →
  guarded anchored_or_not (λ fs, holds fs chain')
    (confirm_anchor parse_stored listed store peer_uid request sequence checkpoint published) anchor_result anchored_or_not.
Proof.
  intros Hc. eapply guarded_weaken; [apply (guarded_reading _ (λ fs, holds fs chain')); intros fs _; apply reads_confirm|done| |].
  - intros outcome fs (Hh & chain'' & Hh'' & Hrec & Hd). pose proof (holds_unique _ _ listed_perm _ _ _ _ Hh Hh'') as <-.
    exists chain'. split_and!; [done..|]. rewrite Hd. destruct published; [|done]. subst chain'.
    unfold recorded in Hrec. pose proof (ho_ids _ _ _ _ Hh) as Hnd.
    pose proof (find_request_in _ {| st_request := request; st_checkpoint := checkpoint |} Hnd) as Hin.
    simpl in Hin. rewrite Hin in Hrec by (apply elem_of_app; right; by left). by injection Hrec as <-.
  - intros fs Hh. destruct published; subst chain'; [right|by left].
    by exists {| st_request := request; st_checkpoint := checkpoint |}.
Qed.

Lemma anchor_guarded :
  guarded anchored_or_not (λ fs, holds fs chain)
    (anchor_at json_stored parse_stored listed pid nonce store peer_uid request now) anchor_result anchored_or_not.
Proof.
  assert (∀ fs, holds fs chain → anchored_or_not fs) as Hleft by (by left). unfold anchor_at.
  eapply guarded_bind.
  { eapply guarded_weaken; [apply (guarded_reading _ (λ fs, holds fs chain)); intros fs _; apply reads_prepare|done| |exact Hleft].
    intros p fs Hp. exact Hp. }
  intros p. cbn beta.
  eapply (guarded_weaken _ (λ fs, holds fs chain ∧ match p with
     | Known outcome => an_disposition outcome = Existing ∧ recorded request outcome chain
     | Unpublished sequence checkpoint => continues chain sequence {| st_request := request; st_checkpoint := checkpoint |}
     end)); [| |intros x fs H; exact H|intros fs H; exact H].
  2:{ intros fs (Hh & chain' & Hh' & Hp). by pose proof (holds_unique _ _ listed_perm _ _ _ _ Hh Hh') as <-. }
  apply guarded_fact. intros Hp. destruct p as [outcome|sequence checkpoint].
  { destruct Hp as [Hd Hrec]. apply guarded_ret. intros fs Hh. exists chain. by rewrite Hd. }
  assert (∀ fs, published_or_not chain chain {| st_request := request; st_checkpoint := checkpoint |} fs →
                anchored_or_not fs) as Hpublished.
  { intros fs [Hh|[_ Hh]]; [by left|right]. by exists {| st_request := request; st_checkpoint := checkpoint |}. }
  eapply (guarded_bind _ _ _ _ (λ published fs, holds fs (if published : bool
    then chain ++ [{| st_request := request; st_checkpoint := checkpoint |}] else chain))).
  { eapply guarded_invariant; [eapply guarded_weaken; [by apply (record_publish_guarded pid nonce chain chain sequence _ Hp)|done| |]|].
    - by intros [] fs [].
    - exact Hpublished.
    - exact Hpublished. }
  intros published. by apply confirm_guarded.
Qed.
End anchoring.
End publish.

Section retry.
Context {prim : Primitives} {laws : PrimitiveLaws}.
Context (json_stored : StoredCheckpoint → result string string) (parse_stored : string → option StoredCheckpoint).
Context (listed : list string → list string).
Context (json_line : ∀ s payload, json_stored s = Ok payload →
  one_line payload ∧ (len payload < MAX_RECORD_BYTES)%N ∧ parse_stored payload = Some s).
Context (listed_perm : ∀ names, listed names ≡ₚ names).
Context (store : AuthorityStore).
Abbreviation config := (as_config store).
Abbreviation paths := (sc_paths (as_config store)).
Context (identity_loaded : from_pkcs8 (as_private_key_bytes store) = Ok (as_signing_identity store)).
Context (public_key_trusted : si_public_key (as_signing_identity store) = as_public_key store).
Context (keys_apart : entry_name (records_dir paths) (signing_key_path paths) = None
                      ∧ entry_name (records_dir paths) (trust_public_key_path paths) = None).
Abbreviation holds := (holds parse_stored store).
Context (pid nonce : N).

Abbreviation temporary_of sequence := (record_path store (temp_name sequence pid nonce)).
Abbreviation final_of sequence := (record_path store (record_filename sequence)).

(** ** Publishing *)

Lemma total_code {A} P c (m : Io A) Q : total P m Q → total P (io_code c m) Q.
Proof.
  intros Hm d Hh Hd. destruct (Hm d Hh Hd) as (x & d' & Hx & ?). exists x, d'. unfold io_code. by rewrite Hx.
Qed.

Lemma total_create p P (Q : unit → Files → Prop) :
  (∀ fs, P fs → fs !! p = None ∧ Q tt (<[p := ""]> fs)) → total P (create_new_file p) Q.
Proof.
  intros H. eapply (total_bind _ _ _ (λ b fs, P fs ∧ b = false)).
  - apply total_exists. intros fs Hd. split; [done|]. destruct (H fs Hd) as [-> _]. by apply bool_decide_eq_false, is_Some_None.
  - intros b. apply total_fact. intros ->. apply total_change. intros fs Hd. by apply H.
Qed.

Lemma total_link from to P (Q : result unit LinkError → Files → Prop) :
  (∀ fs, P fs → ∃ text, fs !! from = Some text ∧ fs !! to = None ∧ Q (Ok tt) (<[to := text]> fs)) →
  total P (link_file from to) Q.
Proof.
  intros H d Hd HP. destruct (H _ HP) as (text & Hfrom & Hto & HQ). unfold link_file, io_bind, exists_file.
  rewrite bool_decide_eq_false_2 by (rewrite Hto; by apply is_Some_None).
  rewrite bool_decide_eq_true_2 by (by eexists). unfold io_try, sys_change. rewrite next_fault_healthy by done.
  eexists _, _. split_and!; [done..|]. simpl. by rewrite Hfrom.
Qed.

Lemma total_sync P : total P sync_directory (λ _, P).
Proof. eapply (total_bind _ _ _ (λ _, P)); [|intros _]; by apply total_check. Qed.

Lemma temporary_not_final sequence : (sequence < 2 ^ 64)%N → temporary_of sequence ≠ final_of sequence.
Proof.
  intros Hs E%record_path_inj. pose proof (record_not_temp sequence) as Hn. rewrite <-E, temp_is_temp in Hn by done. done.
Qed.

Lemma link_record_total sequence bytes :
  (sequence < 2 ^ 64)%N →
  total (λ fs, fs !! temporary_of sequence = None ∧ fs !! final_of sequence = None)
    (link_record (temporary_of sequence) (final_of sequence) bytes) (λ b _, b = true).
Proof.
  intros Hs%temporary_not_final.
  set (ready := λ text (fs : Files), fs !! temporary_of sequence = Some text ∧ fs !! final_of sequence = None).
  eapply (total_bind _ _ _ (λ _, ready "")).
  { apply total_code, total_create. intros fs [Ht Hf]. split; [done|]. split; [apply lookup_insert_eq|]. by rewrite lookup_insert_ne. }
  intros _. eapply (total_bind _ _ _ (λ _, ready bytes)).
  { apply total_code, total_append. intros fs [Ht Hf]. split; [by rewrite lookup_alter_eq, Ht|]. by rewrite lookup_alter_ne. }
  intros _. eapply (total_bind _ _ _ (λ _, ready bytes)); [apply total_code; by apply total_check|].
  intros _. do 2 (eapply (total_bind _ _ _ (λ _, ready bytes)); [by apply total_check|intros _]).
  eapply (total_bind _ _ _ (λ r _, True ∧ r = Ok tt)).
  { apply total_link. intros fs [Ht Hf]. by exists bytes. }
  intros r. apply total_fact. intros ->.
  eapply (total_bind _ _ _ (λ _ _, True)); [apply total_sync|]. intros _. by apply total_ret.
Qed.

Lemma publish_total sequence s payload :
  (sequence < 2 ^ 64)%N → json_stored s = Ok payload →
  total (λ fs, fs !! temporary_of sequence = None ∧ fs !! final_of sequence = None)
    (publish_record json_stored pid nonce store sequence s) (λ b _, b = true).
Proof.
  intros Hs Hjson d Hd HP. unfold publish_record. cbv zeta. rewrite Hjson. rewrite (io_bind_run _ _ d payload d) by done.
  destruct (total_try _ _ _ (link_record_total sequence (payload +:+ newline) Hs) d Hd HP) as (r & d1 & E1 & Hd1 & b & -> & ->).
  rewrite (io_bind_run _ _ _ _ _ E1).
  destruct (total_remove (λ _, True) (temporary_of sequence) (λ r _, r ≠ Err RemoveFailed) ltac:(done) d1 Hd1 I) as (removed & d2 & E2 & Hd2 & Hremoved).
  rewrite (io_bind_run _ _ _ _ _ E2).
  destruct (total_try _ _ _ (total_sync (λ _, True)) d2 Hd2 I) as (r & d3 & E3 & Hd3 & u & -> & _).
  rewrite (io_bind_run _ _ _ _ _ E3). exists true, d3. by destruct removed as [u'|[]].
Qed.

(** ** The whole of [anchor_at] *)

Lemma prepare_healthy d chain peer_uid request now p :
  healthy d → holds (d_files d) chain → check_anchor store peer_uid request now = Ok tt →
  answer_request store chain peer_uid request now = Ok p →
  prepare_anchor parse_stored listed store peer_uid request now d = (Ok p, d).
Proof.
  intros Hd Hh Hcheck Hp. unfold prepare_anchor.
  rewrite (io_bind_run _ _ d () d)
    by (apply live_authority_healthy; [done|]; exact (conj (ho_private _ _ _ _ Hh) (conj (ho_trust _ _ _ _ Hh) (ho_parsed _ _ _ _ Hh)))).
  rewrite Hcheck. rewrite (io_bind_run _ _ d () d) by done.
  rewrite (io_bind_run _ _ _ _ _ (load_chain_healthy _ _ listed_perm _ _ _ Hd Hh)). by rewrite Hp.
Qed.

(** A request that is acceptable is appended. *)
Lemma anchor_appends d chain peer_uid request now sequence checkpoint payload :
  healthy d → holds (d_files d) chain → check_anchor store peer_uid request now = Ok tt →
  answer_request store chain peer_uid request now = Ok (Unpublished sequence checkpoint) →
  json_stored {| st_request := request; st_checkpoint := checkpoint |} = Ok payload →
  d_files d !! temporary_of sequence = None →
  (anchor_at json_stored parse_stored listed pid nonce store peer_uid request now d).1
  = Ok {| an_disposition := Appended; an_checkpoint := checkpoint |}.
Proof.
  intros Hd Hh Hcheck Hans Hjson Htemp. set (new := {| st_request := request; st_checkpoint := checkpoint |}) in *.
  pose proof (answer_continues store identity_loaded public_key_trusted keys_apart _ _ _ _ _ _ Hcheck Hans) as Hc. fold new in Hc.
  assert (sequence < 2 ^ 64)%N as Hs by apply Hc.
  assert (d_files d !! final_of sequence = None) as Hfinal.
  { apply eq_None_not_Some. rewrite (final_is_next store _ _ _ Hc), (holds_next _ _ _ _ _ Hh). lia. }
  destruct (publish_total sequence new payload Hs Hjson d Hd (conj Htemp Hfinal)) as (b & d' & E & Hd' & ->).
  destruct (record_publish_guarded json_stored parse_stored json_line store keys_apart pid nonce chain chain sequence new Hc (reflexivity _) d Hh)
    as [_ Hr]. rewrite E in Hr. destruct Hr as [_ Hh']. simpl in Hh'.
  unfold anchor_at. rewrite (io_bind_run _ _ _ _ _ (prepare_healthy _ _ _ _ _ _ Hd Hh Hcheck Hans)). fold new.
  rewrite (io_bind_run _ _ _ _ _ E). unfold confirm_anchor.
  rewrite (io_bind_run _ _ _ _ _ (load_chain_healthy _ _ listed_perm _ _ _ Hd' Hh')). unfold io_of.
  rewrite last_snoc. cbn [or_err]. subst new. cbn [st_checkpoint st_request]. by rewrite !bool_decide_eq_false_2 by auto.
Qed.

(** A request that is recorded is found. *)
Lemma anchor_finds d chain peer_uid now s :
  healthy d → holds (d_files d) chain → s ∈ chain → check_anchor store peer_uid (st_request s) now = Ok tt →
  anchor_at json_stored parse_stored listed pid nonce store peer_uid (st_request s) now d = (Ok (existing s), d).
Proof.
  intros Hd Hh Hin Hcheck.
  assert (answer_request store chain peer_uid (st_request s) now = Ok (Known (existing s))) as Hans.
  { unfold answer_request. rewrite find_request_in by (done || by eapply ho_ids). unfold same_request. rewrite bool_decide_eq_true_2 by done.
    apply list_elem_of_lookup in Hin as [i Hi].
    rewrite (so_peer _ _ _ _ _ (valid_from_lookup _ _ _ _ _ _ _ (ho_valid _ _ _ _ Hh) Hi)).
    unfold check_anchor in Hcheck. apply bind_unit_Ok in Hcheck as [_ Hcheck]. rewrite !fail_if_Ok in Hcheck.
    destruct Hcheck as (_ & Hpeer%negb_false_iff%N.eqb_eq & _). by rewrite Hpeer, N.eqb_refl. }
  unfold anchor_at. by rewrite (io_bind_run _ _ _ _ _ (prepare_healthy _ _ _ _ _ _ Hd Hh Hcheck Hans)).
Qed.
End retry.
