(* ===== verification/CheckpointIpc.v ===== *)
(** * Talking to the checkpoint authority

    crates/jcode-omnis: protocol.rs (requests, responses, and frames of one line) and
    client.rs (the client, which takes nothing from the server that the trusted key has not
    signed).  The server is whatever answers on the socket; sockets, the serializer and the
    identity of the other end are arguments. *)

From S2P Require Import Prelude RustStr RiskPaths RustText Disk Omnis CheckpointModel CheckpointStore.

Definition IPC_PROTOCOL : string := "jourdanlabs.omnis-checkpoint-ipc.v1".
Definition MAX_FRAME_BYTES : N := 1024 * 1024.

(** ** Messages *)

Inductive Request :=
| StatusRequest (protocol request_id : string)
| AnchoringRequest (protocol : string) (request : AnchorRequest)
| LookupRequest (protocol request_id : string).

Inductive Success :=
| StatusSuccess (authority_id ledger_id receipt_ledger_path signing_key_id : string) (latest : option SignedCheckpoint)
| AnchorSuccess (disposition : AppendDisposition) (checkpoint : SignedCheckpoint).

Record ErrorBody := { eb_code : string; eb_message : string; eb_retryable : bool }.

Inductive Response :=
| OkResponse (protocol request_id : string) (result : Success)
| LookupResponse (protocol request_id : string) (checkpoint : option SignedCheckpoint)
| ErrorResponse (protocol : string) (request_id : option string) (error : ErrorBody).

#[export] Instance Request_eq_dec : EqDecision Request.
Proof. solve_decision. Defined.
#[export] Instance Success_eq_dec : EqDecision Success.
Proof. solve_decision. Defined.
#[export] Instance ErrorBody_eq_dec : EqDecision ErrorBody.
Proof. solve_decision. Defined.
#[export] Instance Response_eq_dec : EqDecision Response.
Proof. solve_decision. Defined.

Record FrameError := { fe_code : string; fe_message : string }.

Definition frame_error (code message : string) : FrameError := {| fe_code := code; fe_message := message |}.

Definition validate_frame_request_id (request_id : string) : result unit FrameError :=
  fail_if negb (is_identity 256 request_id)
    with frame_error "INVALID_REQUEST_ID" "request_id must be 1-256 bounded ASCII identity characters" ;;
  Ok tt.

Definition status_request (request_id : string) : result Request FrameError :=
  let? _ := validate_frame_request_id request_id in Ok (StatusRequest IPC_PROTOCOL request_id).

Definition anchor_request (request : AnchorRequest) : Request := AnchoringRequest IPC_PROTOCOL request.

Definition lookup_request_for (request_id : string) : result Request FrameError :=
  let? _ := validate_frame_request_id request_id in Ok (LookupRequest IPC_PROTOCOL request_id).

Definition request_protocol (request : Request) : string :=
  match request with StatusRequest p _ | AnchoringRequest p _ | LookupRequest p _ => p end.

Definition request_id_of (request : Request) : string :=
  match request with StatusRequest _ id | LookupRequest _ id => id | AnchoringRequest _ request => aq_request_id request end.

Definition validate_envelope (request : Request) : result unit FrameError :=
  fail_if negb (String.eqb (request_protocol request) IPC_PROTOCOL)
    with frame_error "PROTOCOL_MISMATCH" "checkpoint IPC protocol does not match" ;;
  let? _ :=
    match request with
    | AnchoringRequest _ request =>
        match validate_anchor_request request with
        | Ok _ => Ok tt
        | Err error => Err (frame_error "INVALID_ANCHOR_REQUEST" error)
        end
    | _ => Ok tt
    end in
  validate_frame_request_id (request_id_of request).

Definition success_response (request_id : string) (result : Success) : Response := OkResponse IPC_PROTOCOL request_id result.

Definition lookup_success (request_id : string) (checkpoint : option SignedCheckpoint) : Response :=
  LookupResponse IPC_PROTOCOL request_id checkpoint.

Definition error_response (request_id : option string) (code message : string) : Response :=
  ErrorResponse IPC_PROTOCOL request_id {| eb_code := code; eb_message := message; eb_retryable := false |}.

Definition response_protocol (response : Response) : string :=
  match response with OkResponse p _ _ | LookupResponse p _ _ | ErrorResponse p _ _ => p end.

(** ** Frames *)

(** What [write_frame] writes: the serialized value and a newline. *)
Definition frame_payload (json : result string string) : result string FrameError :=
  match json with
  | Err error => Err (frame_error "JSON_ENCODE_FAILED" error)
  | Ok payload =>
      fail_if is_empty payload || (MAX_FRAME_BYTES <? len payload)%N
        with frame_error "FRAME_TOO_LARGE" ("checkpoint frame must contain 1..=" +:+ pretty MAX_FRAME_BYTES +:+ " JSON bytes") ;;
      Ok payload
  end.

(** [read_frame] of the bytes up to the end of the connection ([take] bounds what is kept of a
    frame that is refused). *)
Definition read_frame {T} (parse : string → result T string) (received : result string string) : result T FrameError :=
  match received with
  | Err error => Err (frame_error "FRAME_READ_FAILED" error)
  | Ok bytes =>
      fail_if (MAX_FRAME_BYTES + 1 <? len bytes)%N
        with frame_error "FRAME_TOO_LARGE" ("checkpoint frame exceeds " +:+ pretty MAX_FRAME_BYTES +:+ " JSON bytes") ;;
      match strip_suffix newline bytes with
      | None => Err (frame_error "FRAME_TERMINATION_REQUIRED" "checkpoint frame must end with exactly one newline")
      | Some payload =>
          fail_if is_empty payload with frame_error "EMPTY_FRAME" "checkpoint frame JSON cannot be empty" ;;
          fail_if contains_chr "010" payload || contains_chr "013" payload
            with frame_error "MULTIPLE_FRAMES_REFUSED"
                   "checkpoint connection accepts exactly one newline-delimited JSON value" ;;
          match parse payload with Ok value => Ok value | Err error => Err (frame_error "INVALID_JSON" error) end
      end
  end.

(** [serde_json] on the messages. *)
Class Codec := {
  request_json : Request → result string string;
  request_parse : string → result Request string;
  response_json : Response → result string string;
  response_parse : string → result Response string;
}.

(** ** The client *)

Definition AUTHORITY_ID : string := "jourdanlabs.omnis-checkpoint-authority.v1".

(** [DEFAULT_IO_TIMEOUT], in seconds. *)
Definition DEFAULT_IO_TIMEOUT : N := 5.

Record CheckpointClient := {
  cl_socket_path : string;
  cl_expected_server_uid : N;
  cl_expected_server_gid : N;
  cl_io_timeout : N;
  cl_trusted_public_key : option string;
  cl_allowed_ledger_id : option string;
  cl_receipt_ledger_path : option string;
  cl_activated_client_uid : option N;
}.

Section client.
Context `{!Primitives}.

Definition validate_checkpoint_authority (checkpoint : SignedCheckpoint) (allowed_ledger_id receipt_ledger_path : string)
    (activated_client_uid : N) : result unit string :=
  let record := sc_record checkpoint in
  fail_if negb (String.eqb (cr_authority_id record) AUTHORITY_ID) with "OMNIS_CLIENT_CHECKPOINT_AUTHORITY_ID_MISMATCH" ;;
  fail_if negb (String.eqb (cr_ledger_id record) allowed_ledger_id) with "OMNIS_CLIENT_CHECKPOINT_LEDGER_ID_MISMATCH" ;;
  fail_if negb (path_eq (cr_receipt_ledger_path record) receipt_ledger_path)
    with "OMNIS_CLIENT_CHECKPOINT_RECEIPT_LEDGER_PATH_MISMATCH" ;;
  fail_if negb (cr_peer_uid record =? activated_client_uid)%N with "OMNIS_CLIENT_CHECKPOINT_PEER_UID_MISMATCH" ;;
  Ok tt.

Definition anchor_response_bound (checkpoint : SignedCheckpoint) (request : AnchorRequest) : result bool string :=
  let record := sc_record checkpoint in
  if negb (String.eqb (cr_request_id record) (aq_request_id request)) then Ok false
  else
    let? digest := request_digest request in
    Ok (String.eqb (cr_request_digest record) digest
        && bool_decide (cr_parent_checkpoint_hash record = aq_prior_checkpoint_hash request)
        && (cr_observed_receipt_sequence record =? aq_observed_receipt_sequence request)%N
        && String.eqb (cr_observed_receipt_head record) (aq_observed_receipt_head request)).

Definition same_operation (request : Request) (success : Success) : bool :=
  match request, success with
  | StatusRequest _ _, StatusSuccess _ _ _ _ _ | AnchoringRequest _ _, AnchorSuccess _ _ => true
  | _, _ => false
  end.

Definition validate_trusted_success (client : CheckpointClient) (request : Request) (success : Success) : result unit string :=
  fail_if negb (same_operation request success) with "OMNIS_CLIENT_RESPONSE_OPERATION_MISMATCH" ;;
  match cl_trusted_public_key client, cl_allowed_ledger_id client, cl_receipt_ledger_path client, cl_activated_client_uid client with
  | Some public_key, Some ledger_id, Some ledger_path, Some uid =>
      match success, request with
      | StatusSuccess authority_id response_ledger_id response_ledger_path key_id latest, _ =>
          fail_if negb (String.eqb authority_id AUTHORITY_ID) with "OMNIS_CLIENT_AUTHORITY_ID_MISMATCH" ;;
          fail_if negb (String.eqb response_ledger_id ledger_id) with "OMNIS_CLIENT_LEDGER_ID_MISMATCH" ;;
          fail_if negb (path_eq response_ledger_path ledger_path) with "OMNIS_CLIENT_RECEIPT_LEDGER_PATH_MISMATCH" ;;
          fail_if negb (String.eqb key_id (signing_key_id public_key)) with "OMNIS_CLIENT_SIGNING_KEY_ID_MISMATCH" ;;
          if_some latest (λ checkpoint,
            let? _ := validate_checkpoint_authority checkpoint ledger_id ledger_path uid in
            verify_checkpoint checkpoint public_key)
      | AnchorSuccess _ checkpoint, AnchoringRequest _ request =>
          let? _ := validate_checkpoint_authority checkpoint ledger_id ledger_path uid in
          let? bound := anchor_response_bound checkpoint request in
          fail_if negb bound with "OMNIS_CLIENT_ANCHOR_RESPONSE_BINDING_MISMATCH" ;;
          verify_checkpoint checkpoint public_key
      | AnchorSuccess _ _, _ => Ok tt            (* unreachable: another operation *)
      end
  | _, _, _, _ => Ok tt
  end.

(** [if let Some(checkpoint)] on an answer to a lookup. *)
Definition validate_trusted_lookup (client : CheckpointClient) (request_id : string) (checkpoint : option SignedCheckpoint)
  : result unit string :=
  let? public_key := or_err (cl_trusted_public_key client) "OMNIS_CLIENT_TRUST_NOT_LOADED" in
  let? ledger_id := or_err (cl_allowed_ledger_id client) "OMNIS_CLIENT_LEDGER_AUTHORITY_NOT_LOADED" in
  let? ledger_path := or_err (cl_receipt_ledger_path client) "OMNIS_CLIENT_RECEIPT_LEDGER_AUTHORITY_NOT_LOADED" in
  let? uid := or_err (cl_activated_client_uid client) "OMNIS_CLIENT_ACTIVATED_UID_NOT_LOADED" in
  if_some checkpoint (λ checkpoint,
    let? _ := validate_checkpoint_authority checkpoint ledger_id ledger_path uid in
    fail_if negb (String.eqb (cr_request_id (sc_record checkpoint)) request_id) with "OMNIS_CLIENT_LOOKUP_REQUEST_ID_MISMATCH" ;;
    verify_checkpoint checkpoint public_key).

(** ** Exchanges *)

(** A frame error as an error of a program: its message. *)
Definition frame_io {A} (r : result A FrameError) : Io A :=
  io_of (match r with Ok x => Ok x | Err error => Err (fe_message error) end).

Context `{!Codec}.
(** The user and group at the other end of the socket, and what it answers to the bytes of a
    request until it closes. *)
Context (server_identity : Io (N * N)) (talk : string → Io string).

Definition assert_socket_leaf (path : string) : Io unit := sys_check.

Definition exchange_response (client : CheckpointClient) (request : Request) : Io Response :=
  assert_socket_leaf (cl_socket_path client) ;!
  io_code ("connect checkpoint socket " +:+ cl_socket_path client) sys_check ;!
  sys_check ;! sys_check ;!             (* timeouts *)
  let! peer := server_identity in
  if negb (peer.1 =? cl_expected_server_uid client)%N || negb (peer.2 =? cl_expected_server_gid client)%N then
    io_err ("OMNIS_CLIENT_SERVER_IDENTITY_MISMATCH: expected " +:+ pretty (cl_expected_server_uid client) +:+ ":"
            +:+ pretty (cl_expected_server_gid client) +:+ ", found " +:+ pretty peer.1 +:+ ":" +:+ pretty peer.2)
  else
    let! payload := frame_io (frame_payload (request_json request)) in
    sys_check ;!                        (* [write_all], [flush] *)
    io_code "close checkpoint request write half" sys_check ;!
    let! received := io_try (talk (payload +:+ newline)) in
    io_code "read checkpoint response" (frame_io (read_frame response_parse received)).

(** An error response is refused when it is for another request, and reported otherwise. *)
Definition refused_by_server {A} (request_id : string) (response_id : option string) (error : ErrorBody) : result A string :=
  fail_if match response_id with Some id => negb (String.eqb id request_id) | None => false end
    with "OMNIS_CLIENT_ERROR_REQUEST_ID_MISMATCH" ;;
  Err (eb_code error +:+ ": " +:+ eb_message error).

Definition accept_success (client : CheckpointClient) (request : Request) (response : Response) : result Success string :=
  fail_if negb (String.eqb (response_protocol response) IPC_PROTOCOL) with "OMNIS_CLIENT_PROTOCOL_MISMATCH" ;;
  match response with
  | OkResponse _ response_id success =>
      fail_if negb (String.eqb response_id (request_id_of request)) with "OMNIS_CLIENT_RESPONSE_REQUEST_ID_MISMATCH" ;;
      let? _ := validate_trusted_success client request success in
      Ok success
  | LookupResponse _ _ _ => Err "OMNIS_CLIENT_RESPONSE_OPERATION_MISMATCH"
  | ErrorResponse _ response_id error => refused_by_server (request_id_of request) response_id error
  end.

Definition accept_lookup (client : CheckpointClient) (request_id : string) (response : Response)
  : result (option SignedCheckpoint) string :=
  fail_if negb (String.eqb (response_protocol response) IPC_PROTOCOL) with "OMNIS_CLIENT_PROTOCOL_MISMATCH" ;;
  match response with
  | LookupResponse _ response_id checkpoint =>
      fail_if negb (String.eqb response_id request_id) with "OMNIS_CLIENT_RESPONSE_REQUEST_ID_MISMATCH" ;;
      let? _ := validate_trusted_lookup client request_id checkpoint in
      Ok checkpoint
  | OkResponse _ _ _ => Err "OMNIS_CHECKPOINT_LOOKUP_OPERATION_MISMATCH"
  | ErrorResponse _ response_id error => refused_by_server request_id response_id error
  end.

Definition exchange (client : CheckpointClient) (request : Request) : Io Success :=
  let! _ := frame_io (validate_envelope request) in
  let! response := exchange_response client request in
  io_of (accept_success client request response).

Definition client_status (client : CheckpointClient) (request_id : string) : Io Success :=
  let! request := frame_io (status_request request_id) in
  exchange client request.

Definition client_lookup (client : CheckpointClient) (request_id : string) : Io (option SignedCheckpoint) :=
  let! request := frame_io (lookup_request_for request_id) in
  let! _ := frame_io (validate_envelope request) in
  let! response := exchange_response client request in
  io_of (accept_lookup client (request_id_of request) response).

Definition client_anchor (client : CheckpointClient) (request : AnchorRequest) : Io Success :=
  if match cl_allowed_ledger_id client with Some allowed => negb (String.eqb (aq_ledger_id request) allowed) | None => false end
  then io_err "OMNIS_CLIENT_LEDGER_ID_REFUSED"
  else if match cl_receipt_ledger_path client with
          | Some allowed => negb (path_eq (aq_receipt_ledger_path request) allowed)
          | None => false
          end
  then io_err "OMNIS_CLIENT_RECEIPT_LEDGER_PATH_REFUSED"
  else exchange client (anchor_request request).
End client.
