(* ===== verification/CheckpointDaemon.v ===== *)
(** * The checkpoint daemon

    crates/jcode-omnis/src/daemon.rs: the activation manifest that root installs, and the
    handling of one connection after the other.  A connection is the bytes that the other end
    has sent and the bytes that are sent to it; calls on it fail as calls on files do.  The
    binding of the socket and its recovery are not modelled. *)

From S2P Require Import Prelude RustStr RiskPaths RustText Disk Omnis CheckpointModel CheckpointStore CheckpointIpc.

Definition ACTIVATION_PROTOCOL : string := "jourdanlabs.omnis-checkpoint-activation.v1".
Definition AUTHORITY_ROOT : string := "/Library/Application Support/JourdanLabs/OMNIS Key/Checkpoint Authority/v1".
Definition ACTIVATION_PATH : string :=
  "/Library/Application Support/JourdanLabs/OMNIS Key/Checkpoint Authority/activation.v1.json".
Definition RECORDS_PATH : string := "/Library/Application Support/JourdanLabs/OMNIS Key/Checkpoint Authority/v1/records".
Definition PRIVATE_KEY_PATH : string :=
  "/Library/Application Support/JourdanLabs/OMNIS Key/Checkpoint Authority/v1/authority.ed25519.pk8".
Definition TRUST_PUBLIC_KEY_PATH : string :=
  "/Library/Application Support/JourdanLabs/OMNIS Key/Checkpoint Authority/authority.ed25519.pub".
Definition SOCKET_PATH : string := "/var/run/jourdanlabs/omnis-checkpointd.sock".
Definition ACTIVATION_MAX_BYTES : N := 1024 * 1024.

Record ActivationManifest := {
  am_schema_version : N;
  am_protocol : string;
  am_service_uid : N;
  am_service_primary_gid : N;
  am_service_groups : list N;
  am_allowed_client_uid : N;
  am_allowed_ledger_id : string;
  am_receipt_ledger_path : string;
  am_socket_path : string;
  am_records_path : string;
  am_private_key_path : string;
  am_trust_public_key_path : string;
}.

#[export] Instance ActivationManifest_eq_dec : EqDecision ActivationManifest.
Proof. solve_decision. Defined.

Record DaemonConfig := {
  dc_activation_path : string;
  dc_authority_root : string;
  dc_socket_path : string;
  dc_records_path : string;
  dc_private_key_path : string;
  dc_trust_public_key_path : string;
  dc_activation_owner_uid : N;
  dc_activation_owner_gid : N;
  dc_socket_parent_owner_uid : N;
  dc_enforce_fixed_paths : bool;
  dc_enforce_process_identity : bool;
  dc_enforce_acl : bool;
  dc_allow_same_service_and_client_uid : bool;
}.

(** [DaemonConfig::production]. *)
Definition production_config : DaemonConfig := {|
  dc_activation_path := ACTIVATION_PATH; dc_authority_root := AUTHORITY_ROOT; dc_socket_path := SOCKET_PATH;
  dc_records_path := RECORDS_PATH; dc_private_key_path := PRIVATE_KEY_PATH; dc_trust_public_key_path := TRUST_PUBLIC_KEY_PATH;
  dc_activation_owner_uid := 0; dc_activation_owner_gid := 0; dc_socket_parent_owner_uid := 0;
  dc_enforce_fixed_paths := true; dc_enforce_process_identity := true; dc_enforce_acl := true;
  dc_allow_same_service_and_client_uid := false |}.

Record LoadedActivation := { la_manifest : ActivationManifest; la_bytes : string }.

#[export] Instance LoadedActivation_eq_dec : EqDecision LoadedActivation.
Proof. solve_decision. Defined.

(** ** Activation *)

Record ProcessIdentity := { pi_uid : N; pi_gid : N; pi_groups : list N }.

Fixpoint dedup_sorted (l : list N) : list N :=
  match l with
  | a :: (b :: _) as rest => if (a =? b)%N then dedup_sorted rest else a :: dedup_sorted rest
  | _ => l
  end.

(** [process_identity]: the groups with the effective one, in order and without duplicates. *)
Definition process_identity (uid gid : N) (groups : list N) : ProcessIdentity :=
  {| pi_uid := uid; pi_gid := gid; pi_groups := dedup_sorted (sort_stable N.leb (groups ++ [gid])) |}.

Fixpoint increasing (l : list N) : bool :=
  match l with
  | a :: (b :: _) as rest => (a <? b)%N && increasing rest
  | _ => true
  end.

Definition validate_activation_ledger_id (value : string) : result unit string :=
  fail_if negb (is_identity 256 value) with "OMNIS_ACTIVATION_LEDGER_ID_INVALID" ;; Ok tt.

(** The pairs of a loop over paths that must agree, with their labels. *)
Fixpoint check_paths (code : string) (agree : string → string → bool) (paths : list (string * string * string))
  : result unit string :=
  match paths with
  | [] => Ok tt
  | (actual, expected, label) :: paths =>
      fail_if negb (agree actual expected) with (code +:+ ": " +:+ label) ;; check_paths code agree paths
  end.

Definition validate_activation_contract (config : DaemonConfig) (activation : ActivationManifest) : result unit string :=
  fail_if negb (am_schema_version activation =? 1)%N || negb (String.eqb (am_protocol activation) ACTIVATION_PROTOCOL)
    with "OMNIS_ACTIVATION_SCHEMA_OR_PROTOCOL_MISMATCH" ;;
  fail_if (am_service_uid activation =? 0)%N || (am_service_primary_gid activation =? 0)%N
          || (am_allowed_client_uid activation =? 0)%N
    with "OMNIS_ACTIVATION_ZERO_IDENTITY_REFUSED" ;;
  fail_if negb (dc_allow_same_service_and_client_uid config)
          && (am_allowed_client_uid activation =? am_service_uid activation)%N
    with "OMNIS_ACTIVATION_CLIENT_SERVICE_UID_COLLISION" ;;
  let groups := am_service_groups activation in
  fail_if bool_decide (groups = []) || bool_decide (0%N ∈ groups) || bool_decide (am_service_primary_gid activation ∉ groups)
          || negb (increasing groups)
    with "OMNIS_ACTIVATION_GROUP_VECTOR_INVALID" ;;
  let? _ := validate_activation_ledger_id (am_allowed_ledger_id activation) in
  let? _ := validate_receipt_ledger_path (am_receipt_ledger_path activation) in
  check_paths "OMNIS_ACTIVATION_PATH_DRIFT" String.eqb
    [(am_socket_path activation, dc_socket_path config, "socket");
     (am_records_path activation, dc_records_path config, "records");
     (am_private_key_path activation, dc_private_key_path config, "private key");
     (am_trust_public_key_path activation, dc_trust_public_key_path config, "trust public key")].

Definition assert_fixed_config (config : DaemonConfig) : result unit string :=
  check_paths "OMNIS_PRODUCTION_PATH_DRIFT" path_eq
    [(dc_activation_path config, ACTIVATION_PATH, "activation");
     (dc_authority_root config, AUTHORITY_ROOT, "authority root");
     (dc_socket_path config, SOCKET_PATH, "socket");
     (dc_records_path config, RECORDS_PATH, "records");
     (dc_private_key_path config, PRIVATE_KEY_PATH, "private key");
     (dc_trust_public_key_path config, TRUST_PUBLIC_KEY_PATH, "trust public key")].

(** A call that is made when a flag is set. *)
Definition io_when (b : bool) (m : Io unit) : Io unit := if b then m else io_ret tt.

Section daemon.
Context {prim : Primitives} {codec : Codec}.
(** [serde_json] on manifests and on the files of the store; the identity of the process. *)
Context (parse_activation : string → option ActivationManifest) (identity : Io ProcessIdentity).
Context (json_stored : StoredCheckpoint → result string string) (parse_stored : string → option StoredCheckpoint).
Context (listed : list string → list string).

Definition validate_activation (config : DaemonConfig) (activation : ActivationManifest) : Io unit :=
  let! _ := io_of (validate_activation_contract config activation) in
  if dc_enforce_process_identity config then
    let! process := identity in
    if negb (pi_uid process =? am_service_uid activation)%N || negb (pi_gid process =? am_service_primary_gid activation)%N
       || bool_decide (pi_groups process ≠ am_service_groups activation)
    then io_err "OMNIS_ACTIVATION_PROCESS_IDENTITY_DRIFT" else io_ret tt
  else io_ret tt.

Definition load_activation (config : DaemonConfig) : Io LoadedActivation :=
  io_when (dc_enforce_fixed_paths config) (io_of (assert_fixed_config config) ;! sys_check) ;!
  io_code ("open activation " +:+ dc_activation_path config) (open_file (dc_activation_path config)) ;!
  sys_check ;! sys_check ;!             (* [metadata]; owner and mode *)
  io_when (dc_enforce_acl config) sys_check ;!
  let! bytes := read_file (dc_activation_path config) in
  if (len bytes =? 0)%N || (ACTIVATION_MAX_BYTES <? len bytes)%N then io_err "OMNIS_ACTIVATION_SIZE_REFUSED"
  else
    let! activation := io_of (or_err (parse_activation bytes) "OMNIS_ACTIVATION_INVALID_JSON") in
    validate_activation config activation ;!
    io_ret {| la_manifest := activation; la_bytes := bytes |}.

Definition assert_service_identity (activation : ActivationManifest) : Io unit :=
  let! process := identity in
  if negb (pi_uid process =? am_service_uid activation)%N || negb (pi_gid process =? am_service_primary_gid activation)%N
     || bool_decide (pi_groups process ≠ am_service_groups activation) || bool_decide (0%N ∈ pi_groups process)
  then io_err "OMNIS_ACTIVATION_PROCESS_IDENTITY_DRIFT" else io_ret tt.

Definition store_config (config : DaemonConfig) (activation : ActivationManifest) : StoreConfig := {|
  sc_paths := {| authority_root := dc_authority_root config; records_dir := dc_records_path config;
                 signing_key_path := dc_private_key_path config; trust_public_key_path := dc_trust_public_key_path config |};
  sc_authority_id := AUTHORITY_ID;
  sc_service_uid := am_service_uid activation;
  sc_service_primary_gid := am_service_primary_gid activation;
  sc_trust_owner_uid := dc_activation_owner_uid config;
  sc_trust_owner_gid := dc_activation_owner_gid config;
  sc_allowed_peer_uid := am_allowed_client_uid activation;
  sc_allowed_ledger_id := am_allowed_ledger_id activation;
  sc_allowed_receipt_ledger_path := am_receipt_ledger_path activation |}.

Definition open_store (config : DaemonConfig) (activation : ActivationManifest) : Io AuthorityStore :=
  open_authority parse_stored listed (store_config config activation).

(** ** The client of an activation *)

(** [read_root_owned_file] of client.rs: a path without symbolic links, a regular file of root
    with mode 0444 and without access lists, of a size within bounds. *)
Definition read_root_owned_file (path : string) (maximum_bytes : N) (label : string) : Io string :=
  sys_check ;!
  io_code ("open fixed " +:+ label +:+ " " +:+ path) (open_file path) ;!
  sys_check ;! sys_check ;! sys_check ;!      (* [metadata]; owner and mode; access lists *)
  let! bytes := read_file path in
  if (len bytes =? 0)%N || (maximum_bytes <? len bytes)%N then io_err ("OMNIS_" +:+ label +:+ "_SIZE_REFUSED")
  else io_ret bytes.

(** [CheckpointClient::production], for the effective user. *)
Definition production_client (geteuid : N) : Io CheckpointClient :=
  let config := production_config in
  let! activation_bytes := read_root_owned_file (dc_activation_path config) ACTIVATION_MAX_BYTES "ACTIVATION" in
  let! activation := io_of (or_err (parse_activation activation_bytes) "OMNIS_ACTIVATION_INVALID_JSON") in
  let! _ := io_of (validate_activation_contract config activation) in
  if negb (am_allowed_client_uid activation =? geteuid)%N then io_err "OMNIS_CLIENT_ACTIVATED_UID_MISMATCH"
  else
    let! trust_bytes := read_root_owned_file (dc_trust_public_key_path config) 4096 "TRUST_PUBLIC_KEY" in
    let! trusted_public_key := io_of (parse_public_key trust_bytes) in
    io_ret {| cl_socket_path := dc_socket_path config;
              cl_expected_server_uid := am_service_uid activation;
              cl_expected_server_gid := am_service_primary_gid activation;
              cl_io_timeout := DEFAULT_IO_TIMEOUT;
              cl_trusted_public_key := Some trusted_public_key;
              cl_allowed_ledger_id := Some (am_allowed_ledger_id activation);
              cl_receipt_ledger_path := Some (am_receipt_ledger_path activation);
              cl_activated_client_uid := Some (am_allowed_client_uid activation) |}.

(** ** Connections *)

Record Conn := { cn_disk : Disk; cn_sent : string }.

Definition Serve (A : Type) : Type := Conn → result A string * Conn.

Definition sv_bind {A B} (m : Serve A) (k : A → Serve B) : Serve B := λ c,
  match m c with (Ok x, c) => k x c | (Err e, c) => (Err e, c) end.

Definition sv_ret {A} (x : A) : Serve A := λ c, (Ok x, c).
Definition sv_err {A} (e : string) : Serve A := λ c, (Err e, c).

(** A program on files. *)
Definition sv_io {A} (m : Io A) : Serve A := λ c,
  let '(r, d) := m (cn_disk c) in (r, {| cn_disk := d; cn_sent := cn_sent c |}).

Definition write_all (bytes : string) : Serve unit := λ c,
  match next_fault (cn_disk c) with
  | (Works, d) => (Ok tt, {| cn_disk := d; cn_sent := cn_sent c +:+ bytes |})
  | (FailsAfter n, d) => (Err os_error, {| cn_disk := d; cn_sent := cn_sent c +:+ String.substring 0 n bytes |})
  end.

Definition write_frame (response : Response) : Serve unit :=
  sv_bind (sv_io (frame_io (frame_payload (response_json response)))) (λ payload,
  sv_bind (write_all payload) (λ _,
  sv_bind (write_all newline) (λ _,
  sv_io sys_check))).                   (* [flush] *)

(** A response, after which the connection is shut down for writing. *)
Definition send (response : Response) : Serve unit := sv_bind (write_frame response) (λ _, sv_io sys_check).

Definition send_error (request_id : option string) (code message : string) : Serve unit :=
  send (error_response request_id code message).

Section connection.
Context (config : DaemonConfig) (startup_activation : LoadedActivation) (store : AuthorityStore).
(** The process and its counter of temporary files, the user at the other end, and the clock. *)
Context (pid nonce : N) (peer_credentials : Io N) (unix_time_millis : Io N).
Abbreviation activation := (la_manifest startup_activation).

Definition refuse_operation (request_id error : string) : Serve unit :=
  send_error (Some request_id) "AUTHORITY_OPERATION_REFUSED" error.

(** A request that is in form. *)
Definition operate (peer_uid : N) (request : Request) : Serve unit :=
  let request_id := request_id_of request in
  let finish (result : result Success string) :=
    match result with
    | Ok success => send (success_response request_id success)
    | Err error => refuse_operation request_id error
    end in
  match request with
  | LookupRequest _ lookup_id =>
      sv_bind (sv_io (io_try (lookup_request parse_stored listed store lookup_id))) (λ result,
      match result with
      | Ok checkpoint => send (lookup_success request_id checkpoint)
      | Err error => refuse_operation request_id error
      end)
  | StatusRequest _ _ =>
      sv_bind (sv_io (io_try (latest parse_stored listed store))) (λ result,
      finish (let? latest := result in
              Ok (StatusSuccess AUTHORITY_ID (am_allowed_ledger_id activation) (am_receipt_ledger_path activation)
                    (si_key_id (as_signing_identity store)) latest)))
  | AnchoringRequest _ request =>
      sv_bind (sv_io unix_time_millis) (λ now,
      sv_bind (sv_io (io_try (anchor_at json_stored parse_stored listed pid nonce store peer_uid request now))) (λ result,
      finish (let? outcome := result in Ok (AnchorSuccess (an_disposition outcome) (an_checkpoint outcome)))))
  end.

(** [read_frame(stream)] and what follows. *)
Definition answer_frame (peer_uid : N) (received : result string string) : Serve unit :=
  match read_frame request_parse received with
  | Err error => send_error None (fe_code error) (fe_message error)
  | Ok request =>
      match validate_envelope request with
      | Err error => send_error (Some (request_id_of request)) (fe_code error) (fe_message error)
      | Ok _ => operate peer_uid request
      end
  end.

Definition handle_connection (received : result string string) : Serve unit :=
  sv_bind (sv_io (sys_check ;! sys_check)) (λ _,      (* timeouts *)
  sv_bind (sv_io (load_activation config)) (λ live_activation,
  if bool_decide (live_activation ≠ startup_activation) then sv_err "OMNIS_ACTIVATION_LIVE_DRIFT"
  else
    sv_bind (sv_io (assert_service_identity activation)) (λ _,
    sv_bind (sv_io peer_credentials) (λ peer_uid,
    if negb (peer_uid =? am_allowed_client_uid activation)%N then
      send_error None "PEER_UID_REFUSED"
        ("checkpoint peer UID " +:+ pretty peer_uid +:+ " differs from activated UID")
    else answer_frame peer_uid received)))).

(** One turn of the loop of [run]: what cannot be handled is refused, and what cannot even be
    refused is reported on the terminal. *)
Definition serve_connection (received : result string string) (d : Disk) : string * Disk :=
  let c := {| cn_disk := d; cn_sent := "" |} in
  let c := match handle_connection received c with
           | (Ok _, c) => c
           | (Err error, c) => (send_error None "CONNECTION_REFUSED" error c).2
           end in
  (cn_sent c, cn_disk c).
End connection.
End daemon.
