(* ===== verification/CheckpointCli.v ===== *)
(** * Anchoring the receipt ledger

    src/cli/omnis.rs: the commands that have the receipts of a ledger signed by the checkpoint
    authority, in segments of at most [MAX_CONTINUITY_LINKS], and that compare the ledger
    with the last checkpoint.  The server is whatever answers the client; what is printed is
    returned. *)

From S2P Require Import Prelude RustStr RiskPaths RustText Disk Omnis MutationState CheckpointModel CheckpointStore CheckpointIpc.

Definition SEGMENT_REQUEST_PREFIX : string := "anchor-segment:".

(** What [run_anchor] prints. *)
Record AnchorReport := {
  ar_ledger : string;
  ar_ledger_id : string;
  ar_disposition : AppendDisposition;
  ar_checkpoint : SignedCheckpoint;
  ar_segments_processed : N;
}.

Section cli.
Context {prim : Primitives} {codec : Codec} {J : Type}.
Implicit Types (receipts : list (Receipt J)).

(** ** A checkpoint and the local ledger *)

Definition verify_local_checkpoint (checkpoint : SignedCheckpoint) receipts : result unit string :=
  let record := sc_record checkpoint in
  let? anchored_index := or_err (checked_sub (cr_observed_receipt_sequence record) 1)
                           "OMNIS_CHECKPOINT_INVALID_ANCHORED_SEQUENCE" in
  let? anchored := or_err (receipts !! N.to_nat anchored_index) "OMNIS_CHECKPOINT_LOCAL_ROLLBACK_DETECTED" in
  fail_if negb (r_sequence anchored =? cr_observed_receipt_sequence record)%N
          || negb (String.eqb (r_receipt_hash anchored) (cr_observed_receipt_head record))
    with "OMNIS_CHECKPOINT_LOCAL_CHAIN_DIVERGED" ;;
  Ok tt.

Definition verify_checkpoint_is_local_head (checkpoint : SignedCheckpoint) receipts (mismatch_code : string) : result unit string :=
  let record := sc_record checkpoint in
  let? _ := verify_local_checkpoint checkpoint receipts in
  let? current := or_err (last receipts) "OMNIS_CHECKPOINT_EMPTY_RECEIPT_CHAIN" in
  fail_if negb (r_sequence current =? cr_observed_receipt_sequence record)%N
          || negb (String.eqb (r_receipt_hash current) (cr_observed_receipt_head record))
    with mismatch_code ;;
  Ok tt.

(** ** Requests *)

Definition link_of (receipt : Receipt J) : ReceiptLinkWitness := {|
  lw_sequence := r_sequence receipt; lw_parent_hash := r_parent_hash receipt; lw_receipt_hash := r_receipt_hash receipt |}.

Definition build_anchor_request (request_id ledger_id receipt_ledger_path : string) receipts (latest : option SignedCheckpoint)
  : result AnchorRequest string :=
  fail_if negb (valid_utf8 receipt_ledger_path) with "OMNIS_CHECKPOINT_RECEIPT_LEDGER_PATH_NOT_UTF8" ;;
  let? observed := or_err (last receipts) "OMNIS_CHECKPOINT_EMPTY_RECEIPT_CHAIN" in
  let? start :=
    match latest with
    | Some checkpoint =>
        let? _ := verify_local_checkpoint checkpoint receipts in
        Ok (N.to_nat (cr_observed_receipt_sequence (sc_record checkpoint)))
    | None => Ok 0
    end in
  fail_if length receipts <=? start with "OMNIS_CHECKPOINT_RECEIPT_NO_ADVANCE" ;;
  let request := {|
    aq_protocol := CheckpointModel.PROTOCOL;
    aq_request_id := request_id;
    aq_ledger_id := ledger_id;
    aq_receipt_ledger_path := receipt_ledger_path;
    aq_prior_checkpoint_hash := sc_record_hash <$> latest;
    aq_observed_receipt_sequence := r_sequence observed;
    aq_observed_receipt_head := r_receipt_hash observed;
    aq_continuity := map link_of (drop start receipts) |} in
  let? _ := validate_anchor_request request in
  Ok request.

Definition latest_from_status (success : Success) : result (option SignedCheckpoint) string :=
  match success with
  | StatusSuccess _ _ _ _ latest => Ok latest
  | AnchorSuccess _ _ => Err "OMNIS_CHECKPOINT_STATUS_OPERATION_MISMATCH"
  end.

Definition segment_request_id (request_id : string) (observed_sequence : N) : string :=
  SEGMENT_REQUEST_PREFIX +:+ hex16 observed_sequence +:+ ":"
  +:+ sha256_hex ("jourdanlabs.omnis-checkpoint.cli-segment.v1" +:+ length_prefixed request_id).

(** ** The commands *)

(** The client and its server; the serializers of the ledger. *)
Context (server_identity : Io (N * N)) (talk : string → Io string).
Context (json_bytes : J → result string string) (debug_str : string → string) (receipt_parse : string → result (Receipt J) string).
Context (client : CheckpointClient).

Abbreviation verified_receipts := (verified_receipts json_bytes sha256_hex debug_str receipt_parse).

(** [validate_receipt_ledger_boundary]: the checks of type, owner, mode and access lists may
    fail. *)
Definition validate_receipt_ledger_boundary : Io unit :=
  let! _ := io_of (or_err (cl_receipt_ledger_path client) "OMNIS_CLIENT_RECEIPT_LEDGER_AUTHORITY_NOT_LOADED") in
  let! _ := io_of (or_err (cl_activated_client_uid client) "OMNIS_CLIENT_ACTIVATED_UID_NOT_LOADED") in
  sys_check.

Definition status_latest (request_id : string) : Io (option SignedCheckpoint) :=
  let! success := client_status server_identity talk client request_id in
  io_of (latest_from_status success).

(** Where the receipts begin that no checkpoint covers. *)
Definition segment_start (latest : option SignedCheckpoint) : nat :=
  match latest with Some checkpoint => N.to_nat (cr_observed_receipt_sequence (sc_record checkpoint)) | None => 0 end.

Definition segment_end (start total : nat) : nat := Nat.min (start + N.to_nat MAX_CONTINUITY_LINKS) total.

(** The request of one turn of the loop, and whether it is the last one. *)
Definition segment_request (request_id ledger_id ledger : string) receipts (latest : option SignedCheckpoint)
  : result (AnchorRequest * bool) string :=
  let? _ := if_some latest (λ checkpoint, verify_local_checkpoint checkpoint receipts) in
  let start := segment_start latest in
  fail_if length receipts <=? start with "OMNIS_CHECKPOINT_RECEIPT_NO_ADVANCE" ;;
  let segment := take (segment_end start (length receipts)) receipts in
  let final := segment_end start (length receipts) =? length receipts in
  let segment_id :=
    if final then request_id
    else segment_request_id request_id match last segment with Some receipt => r_sequence receipt | None => 0%N end in
  let? request := build_anchor_request segment_id ledger_id ledger segment latest in
  Ok (request, final).

Definition anchored (success : Success) : result (AppendDisposition * SignedCheckpoint) string :=
  match success with
  | AnchorSuccess disposition checkpoint => Ok (disposition, checkpoint)
  | StatusSuccess _ _ _ _ _ => Err "OMNIS_CHECKPOINT_ANCHOR_OPERATION_MISMATCH"
  end.

(** The loop: [None] without fuel. *)
Fixpoint anchor_segments (fuel : nat) (request_id ledger_id ledger : string) receipts (latest : option SignedCheckpoint)
    (segments_processed : N) : Io (option (AppendDisposition * SignedCheckpoint * N)) :=
  match fuel with
  | O => io_ret None
  | S fuel =>
      let! (request, final) := io_of (segment_request request_id ledger_id ledger receipts latest) in
      let! success := client_anchor server_identity talk client request in
      let! outcome := io_of (anchored success) in
      let! segments_processed := io_of (or_err (checked_add segments_processed 1) "OMNIS_CHECKPOINT_SEGMENT_COUNT_OVERFLOW") in
      if final : bool then io_ret (Some (outcome, segments_processed))
      else anchor_segments fuel request_id ledger_id ledger receipts (Some outcome.2) segments_processed
  end.

(** The answer to a request that was anchored before. *)
Definition replay_anchor (ledger ledger_id : string) (checkpoint : SignedCheckpoint) : Io AnchorReport :=
  let! latest := status_latest "status:anchor-replay" in
  let! latest := io_of (or_err latest "OMNIS_CHECKPOINT_LOOKUP_WITHOUT_CHAIN") in
  validate_receipt_ledger_boundary ;!
  let! after := verified_receipts ledger in
  let! _ := io_of (verify_local_checkpoint latest after) in
  let! _ := io_of (verify_checkpoint_is_local_head checkpoint after "OMNIS_CHECKPOINT_REQUEST_ID_REUSED_FOR_DIFFERENT_LOCAL_HEAD") in
  io_ret {| ar_ledger := ledger; ar_ledger_id := ledger_id; ar_disposition := Existing; ar_checkpoint := checkpoint;
            ar_segments_processed := 0 |}.

(** Enough turns: every turn covers at least one receipt more. *)
Definition anchor_fuel receipts : nat := S (length receipts).

Definition run_anchor (request_id : string) : Io (option AnchorReport) :=
  let! _ := io_of (validate_request_id request_id) in
  if starts_with SEGMENT_REQUEST_PREFIX request_id then io_err "OMNIS_CHECKPOINT_RESERVED_SEGMENT_REQUEST_ID"
  else
    let! ledger_id := io_of (or_err (cl_allowed_ledger_id client) "OMNIS_CLIENT_LEDGER_AUTHORITY_NOT_LOADED") in
    let! ledger := io_of (or_err (cl_receipt_ledger_path client) "OMNIS_CLIENT_RECEIPT_LEDGER_AUTHORITY_NOT_LOADED") in
    validate_receipt_ledger_boundary ;!
    let! before := verified_receipts ledger in
    let! known := client_lookup server_identity talk client request_id in
    match known with
    | Some checkpoint => let! report := replay_anchor ledger ledger_id checkpoint in io_ret (Some report)
    | None =>
        let! latest := status_latest "status:anchor" in
        let! anchored := anchor_segments (anchor_fuel before) request_id ledger_id ledger before latest 0 in
        match anchored with
        | None => io_ret None
        | Some (disposition, checkpoint, segments_processed) =>
            validate_receipt_ledger_boundary ;!
            let! after := verified_receipts ledger in
            let! _ := io_of (verify_checkpoint_is_local_head checkpoint after "OMNIS_CHECKPOINT_LOCAL_CHAIN_ADVANCED_DURING_ANCHOR") in
            io_ret (Some {| ar_ledger := ledger; ar_ledger_id := ledger_id; ar_disposition := disposition;
                            ar_checkpoint := checkpoint; ar_segments_processed := segments_processed |})
        end
    end.

(** [run_verify_anchored]: the checkpoint, and how many receipts there are. *)
Definition run_verify_anchored : Io (SignedCheckpoint * nat) :=
  let! ledger := io_of (or_err (cl_receipt_ledger_path client) "OMNIS_CLIENT_RECEIPT_LEDGER_AUTHORITY_NOT_LOADED") in
  let! latest := status_latest "status:verify-anchored" in
  let! checkpoint := io_of (or_err latest "OMNIS_CHECKPOINT_NOT_YET_ANCHORED") in
  validate_receipt_ledger_boundary ;!
  let! receipts := verified_receipts ledger in
  let! _ := io_of (verify_local_checkpoint checkpoint receipts) in
  io_ret (checkpoint, length receipts).
End cli.
