(* ===== verification/CheckpointClient.v ===== *)
(** * What a client takes from a server, and the local ledger

    A client that has the trusted key accepts an answer only when the key has signed it and it
    belongs to the question.  With that: what the anchoring commands find out about the ledger
    they read, and why their loop over the segments of a long ledger ends. *)

From S2P Require Import Prelude RustStr RiskPaths RustText Disk Omnis OmnisChain CheckpointModel CheckpointStore CheckpointChain CheckpointIpc CheckpointCli.

(** ** Io that succeeded *)

Lemma io_code_Ok {A} c (m : Io A) d y d' : io_code c m d = (Ok y, d') → m d = (Ok y, d').
Proof. unfold io_code. destruct (m d) as [[x|e] d1]; [done|by intros [=]]. Qed.

Lemma frame_io_Ok {A} (r : result A FrameError) d y d' : frame_io r d = (Ok y, d') → r = Ok y ∧ d' = d.
Proof. unfold frame_io. intros [H ->]%io_of_Ok. by destruct r; simplify_eq. Qed.

(** ** Accepted answers *)

Section accepted.
Context {prim : Primitives} {codec : Codec}.
Context (server_identity : Io (N * N)) (talk : string → Io string).
Context (client : CheckpointClient) (public_key ledger_id ledger_path : string) (uid : N).

(** The client has what it needs to check an answer. *)
Record trusting : Prop := {
  tc_key : cl_trusted_public_key client = Some public_key;
  tc_ledger : cl_allowed_ledger_id client = Some ledger_id;
  tc_path : cl_receipt_ledger_path client = Some ledger_path;
  tc_uid : cl_activated_client_uid client = Some uid;
}.

(** A checkpoint of the authority for the client's ledger. *)
Record vouched (c : SignedCheckpoint) : Prop := {
  vo_signed : verify_checkpoint c public_key = Ok tt;
  vo_authority : cr_authority_id (sc_record c) = AUTHORITY_ID;
  vo_ledger : cr_ledger_id (sc_record c) = ledger_id;
  vo_path : path_eq (cr_receipt_ledger_path (sc_record c)) ledger_path = true;
  vo_peer : cr_peer_uid (sc_record c) = uid;
}.

(** A checkpoint of a request. *)
Record answers (request : AnchorRequest) (c : SignedCheckpoint) : Prop := {
  an_id : cr_request_id (sc_record c) = aq_request_id request;
  an_digest : request_digest request = Ok (cr_request_digest (sc_record c));
  an_parent : cr_parent_checkpoint_hash (sc_record c) = aq_prior_checkpoint_hash request;
  an_sequence : cr_observed_receipt_sequence (sc_record c) = aq_observed_receipt_sequence request;
  an_head : cr_observed_receipt_head (sc_record c) = aq_observed_receipt_head request;
}.

Lemma vouched_Ok c :
  validate_checkpoint_authority c ledger_id ledger_path uid = Ok tt ∧ verify_checkpoint c public_key = Ok tt ↔ vouched c.
Proof.
  unfold validate_checkpoint_authority. rewrite !fail_if_Ok, !negb_false_iff, !String.eqb_eq, N.eqb_eq. split.
  - intros [(H1 & H2 & H3 & H4 & _) Hv]. by split.
  - intros []. split_and!; done.
Qed.

Lemma answers_Ok request c : anchor_response_bound c request = Ok true ↔ answers request c.
Proof.
  unfold anchor_response_bound. destruct (String.eqb_spec (cr_request_id (sc_record c)) (aq_request_id request)) as [Hid|Hid]; cbn [negb].
  - rewrite bind_Ok. split.
    + intros (digest & Hd & H). injection H as H. rewrite !andb_true_iff, !String.eqb_eq, N.eqb_eq, bool_decide_eq_true in H.
      destruct H as [[[<- ?] ?] ?]. by split.
    + intros [_ Hd Hp Hs Hh]. eexists. split; [exact Hd|]. f_equal.
      rewrite !andb_true_iff, !String.eqb_eq, N.eqb_eq, bool_decide_eq_true. by split_and!.
  - split; [by intros [=]|]. by intros [].
Qed.

Lemma if_some_vouched latest :
  if_some latest (λ c, let? _ := validate_checkpoint_authority c ledger_id ledger_path uid in verify_checkpoint c public_key) = Ok tt
  ↔ ∀ c, latest = Some c → vouched c.
Proof. rewrite if_some_Ok. by setoid_rewrite bind_unit_Ok; setoid_rewrite vouched_Ok. Qed.

Context (trust : trusting).

Lemma trusted_success_Ok request success :
  validate_trusted_success client request success = Ok tt ↔
  match request, success with
  | StatusRequest _ _, StatusSuccess authority ledger path key latest =>
      authority = AUTHORITY_ID ∧ ledger = ledger_id ∧ path_eq path ledger_path = true ∧ key = signing_key_id public_key
      ∧ ∀ c, latest = Some c → vouched c
  | AnchoringRequest _ request, AnchorSuccess _ c => vouched c ∧ answers request c
  | _, _ => False
  end.
Proof using trust.
  clear server_identity talk. destruct trust as [H1 H2 H3 H4]. unfold validate_trusted_success. rewrite fail_if_Ok, H1, H2, H3, H4.
  destruct request, success; cbn [same_operation negb]; try (split; [by intros []|done]).
  - rewrite !fail_if_Ok, !negb_false_iff, !String.eqb_eq, if_some_vouched. naive_solver.
  - rewrite bind_unit_Ok, bind_Ok, <-vouched_Ok, <-answers_Ok. setoid_rewrite fail_if_Ok. setoid_rewrite negb_false_iff. naive_solver.
Qed.

Lemma accept_success_Ok request response success :
  accept_success client request response = Ok success → validate_trusted_success client request success = Ok tt.
Proof.
  unfold accept_success. intros [_ H]%fail_if_Ok. destruct response as [p id s|p id c|p id e]; [| done |].
  - apply fail_if_Ok in H as [_ H]. by apply bind_unit_Ok in H as [Hv [= ->]].
  - unfold refused_by_server in H. by apply fail_if_Ok in H as [_ H].
Qed.

Lemma exchange_Ok request d success d' :
  exchange server_identity talk client request d = (Ok success, d') →
  validate_trusted_success client request success = Ok tt ∧ validate_envelope request = Ok tt.
Proof.
  unfold exchange. intros ([] & d1 & [Hv ->]%frame_io_Ok & H)%io_bind_Ok.
  apply io_bind_Ok in H as (response & d2 & _ & [H ->]%io_of_Ok). split; [by eapply accept_success_Ok|done].
Qed.

Lemma client_anchor_Ok request d success d' :
  client_anchor server_identity talk client request d = (Ok success, d') →
  ∃ disposition c, success = AnchorSuccess disposition c ∧ vouched c ∧ answers request c.
Proof.
  unfold client_anchor. destruct trust as [_ H2 H3 _]. rewrite H2, H3.
  destruct (negb _); [done|]. destruct (negb _); [done|]. intros [Hv%trusted_success_Ok _]%exchange_Ok.
  unfold anchor_request in Hv. destruct success as [|disposition c]; [done|]. by exists disposition, c.
Qed.

Lemma client_status_Ok id d success d' :
  client_status server_identity talk client id d = (Ok success, d') →
  ∃ path latest, success = StatusSuccess AUTHORITY_ID ledger_id path (signing_key_id public_key) latest
    ∧ path_eq path ledger_path = true ∧ ∀ c, latest = Some c → vouched c.
Proof.
  unfold client_status. intros (request & d1 & [Hr ->]%frame_io_Ok & [Hv%trusted_success_Ok _]%exchange_Ok)%io_bind_Ok.
  unfold status_request in Hr. apply bind_unit_Ok in Hr as [_ [= <-]]. destruct success as [a l p k latest|]; [|done].
  destruct Hv as (-> & -> & Hp & -> & Hl). by exists p, latest.
Qed.

Lemma client_lookup_Ok id d c d' :
  client_lookup server_identity talk client id d = (Ok (Some c), d') → vouched c ∧ cr_request_id (sc_record c) = id.
Proof.
  unfold client_lookup. intros (request & d1 & [Hr ->]%frame_io_Ok & H)%io_bind_Ok.
  unfold lookup_request_for in Hr. apply bind_unit_Ok in Hr as [_ [= <-]].
  apply io_bind_Ok in H as (_ & d2 & _ & H). apply io_bind_Ok in H as (response & d3 & _ & [H ->]%io_of_Ok).
  unfold accept_lookup in H. apply fail_if_Ok in H as [_ H]. destruct response as [|p id' c'|p id' e]; [done| |].
  - apply fail_if_Ok in H as [_ H]. apply bind_unit_Ok in H as [Hv [= ->]].
    unfold validate_trusted_lookup in Hv. destruct trust as [H1 H2 H3 H4]. rewrite H1, H2, H3, H4 in Hv. cbn [or_err if_some] in Hv.
    apply bind_unit_Ok in Hv as [Ha Hv]. apply fail_if_Ok in Hv as [Hid%negb_false_iff%String.eqb_eq Hv]. split; [by apply vouched_Ok|done].
  - unfold refused_by_server in H. by apply fail_if_Ok in H as [_ H].
Qed.
End accepted.

Section local.
Context {prim : Primitives} {J : Type}.
Context (json_bytes : J → result string string) (debug_str : string → string) (receipt_parse : string → result (Receipt J) string).
Implicit Types (rs : list (Receipt J)) (r : Receipt J) (c : SignedCheckpoint).

Abbreviation valid_chain := (valid_chain json_bytes sha256_hex).
Abbreviation chain_ok := (chain_ok json_bytes sha256_hex).
Abbreviation verified_receipts := (verified_receipts json_bytes sha256_hex debug_str receipt_parse).

(** ** The ledger on disk *)

(** The receipts of a ledger file, which is a valid chain. *)
Definition ledger_is (fs : Files) (path : string) rs : Prop :=
  match fs !! path with None => rs = [] | Some text => parse_ledger receipt_parse text = Ok rs end ∧ valid_chain rs.

Lemma ledger_unique fs path rs1 rs2 : ledger_is fs path rs1 → ledger_is fs path rs2 → rs1 = rs2.
Proof. intros [H1 _] [H2 _]. destruct (fs !! path); congruence. Qed.

Lemma reads_context {A} fs (text : string) (m : Io A) R : reads fs m R → reads fs (io_context text m) R.
Proof. intros Hm d Hd. unfold io_context. specialize (Hm d Hd). destruct (m d) as [[x|e] d']; [done|]. by destruct Hm as (? & ? & _). Qed.

Lemma reads_verified_receipts fs path : reads fs (verified_receipts path) (ledger_is fs path).
Proof.
  eapply (reads_bind _ _ _ (λ _, True)); [by apply reads_check|]. intros _ _.
  eapply reads_bind; [by apply (reads_exists _ _ (λ b, b = bool_decide (is_Some (fs !! path))))|].
  intros [|] Hthere; symmetry in Hthere; cbn [negb].
  2:{ apply bool_decide_eq_false in Hthere. apply reads_ret. apply eq_None_not_Some in Hthere. unfold ledger_is. by rewrite Hthere. }
  eapply (reads_bind _ _ _ (λ rs, ∃ text, fs !! path = Some text ∧ parse_ledger receipt_parse text = Ok rs)).
  { eapply reads_bind; [apply reads_context, reads_read|]. intros text Ht. apply reads_of. by exists text. }
  intros rs (text & Ht & Hp). cbv zeta. destruct (v_valid _) eqn:Hv; cbn [negb]; [|apply reads_err]. apply reads_ret. split; [by rewrite Ht|done].
Qed.

Lemma verified_receipts_Ok path d rs d' :
  verified_receipts path d = (Ok rs, d') → d_files d' = d_files d ∧ ledger_is (d_files d') path rs.
Proof.
  intros H. destruct (reads_verified_receipts (d_files d) path d eq_refl) as (Hf & _ & Hr). rewrite H in *. simpl in *.
  rewrite Hf. split; [done|]. by apply Hr.
Qed.

(** A ledger has no more receipts than its file has bytes, and one. *)
Lemma split_chr_length x s : length (split_chr x s) ≤ S (String.length s).
Proof.
  induction s as [|a s IH]; [done|]. cbn [split_chr String.length]. destruct (Ascii.eqb a x); [simpl; lia|].
  destruct (split_chr x s) as [|w ws]; simpl in *; lia.
Qed.

Lemma lines_of_length ps : length (lines_of ps) ≤ length ps.
Proof. induction ps as [|p ps IH]; [done|]. cbn [lines_of]. destruct ps; [case_bool_decide; simpl; lia|cbn [length] in *; lia]. Qed.

Lemma parse_lines_length i ls rs : parse_lines receipt_parse i ls = Ok rs → length rs = length ls.
Proof.
  revert i rs. induction ls as [|l ls IH]; intros i rs; cbn [parse_lines]; [by intros [= <-]|].
  intros (r & _ & H)%bind_Ok. apply bind_Ok in H as (rs' & Hrs & [= <-]). simpl. by rewrite (IH _ _ Hrs).
Qed.

Lemma ledger_bound fs path rs : ledger_is fs path rs → (N.of_nat (length rs) ≤ len (default "" (fs !! path)) + 1)%N.
Proof.
  intros [H _]. destruct (fs !! path) as [text|]; simpl; [|by subst]. unfold parse_ledger in H. apply fail_if_Ok in H as [_ H].
  apply parse_lines_length in H. rewrite H. pose proof (lines_of_length (split_chr "010" text)). pose proof (split_chr_length "010" text).
  unfold lines, len. lia.
Qed.

(** ** Numbers of receipts *)

Lemma chain_ok_sequence k p s rs i r : chain_ok k p s rs → rs !! i = Some r → r_sequence r = sequence_at (k + i).
Proof.
  revert k p s i. induction rs as [|a rs IH]; intros k p s i; [done|]. intros [Ha Hrs] Hi. destruct i as [|i]; simpl in Hi.
  - simplify_eq. rewrite Nat.add_0_r. exact (ok_sequence _ _ _ _ _ _ Ha).
  - rewrite (IH _ _ _ _ Hrs Hi). f_equal. lia.
Qed.

Lemma valid_sequence rs i r : valid_chain rs → rs !! i = Some r → r_sequence r = sequence_at i.
Proof. intros Hv%valid_chain_ok Hi. exact (chain_ok_sequence _ _ _ _ _ _ Hv Hi). Qed.

Lemma chain_ok_take n k p s rs : chain_ok k p s rs → chain_ok k p s (take n rs).
Proof. revert n k p s. induction rs as [|a rs IH]; intros [|n] k p s; try done. intros [Ha Hrs]. split; [done|by apply IH]. Qed.

Lemma valid_take n rs : valid_chain rs → valid_chain (take n rs).
Proof. rewrite !valid_chain_ok. apply chain_ok_take. Qed.

Lemma last_number rs r : valid_chain rs → last rs = Some r → r_sequence r = (N.of_nat (length rs) mod 2 ^ 64)%N.
Proof.
  intros Hv Hl. rewrite last_lookup in Hl. rewrite (valid_sequence _ _ _ Hv Hl). unfold sequence_at. f_equal.
  apply lookup_lt_Some in Hl. lia.
Qed.

(** ** A checkpoint and the ledger *)

Lemma verify_local_Ok c rs :
  verify_local_checkpoint c rs = Ok tt ↔
  ∃ r, (0 < cr_observed_receipt_sequence (sc_record c))%N
    ∧ rs !! N.to_nat (cr_observed_receipt_sequence (sc_record c) - 1) = Some r
    ∧ r_sequence r = cr_observed_receipt_sequence (sc_record c)
    ∧ r_receipt_hash r = cr_observed_receipt_head (sc_record c).
Proof.
  unfold verify_local_checkpoint, checked_sub. rewrite bind_Ok. setoid_rewrite or_err_Ok. setoid_rewrite bind_Ok.
  setoid_rewrite or_err_Ok. setoid_rewrite fail_if_Ok. setoid_rewrite orb_false_iff. setoid_rewrite negb_false_iff.
  setoid_rewrite N.eqb_eq. setoid_rewrite String.eqb_eq.
  destruct (N.leb_spec 1 (cr_observed_receipt_sequence (sc_record c))); [|split; [by intros (? & [=] & _)|intros (? & ? & _); lia]].
  split.
  - intros (i & [= <-] & r & Hr & (Hs & Hh) & _). exists r. split_and!; [lia|done..].
  - intros (r & _ & Hr & Hs & Hh). exists (cr_observed_receipt_sequence (sc_record c) - 1)%N. split; [done|]. by exists r.
Qed.

(** The receipts up to the one that a checkpoint observed, and what they end in. *)
Definition covered c rs : list (Receipt J) := take (N.to_nat (cr_observed_receipt_sequence (sc_record c))) rs.

Lemma covered_head c rs :
  verify_local_checkpoint c rs = Ok tt → head_from None (covered c rs) = Some (cr_observed_receipt_head (sc_record c)).
Proof.
  intros (r & Hpos & Hr & _ & <-)%verify_local_Ok. unfold covered, head_from.
  replace (N.to_nat (cr_observed_receipt_sequence (sc_record c))) with (S (N.to_nat (cr_observed_receipt_sequence (sc_record c) - 1))) by lia.
  by rewrite (take_S_r _ _ _ Hr), last_snoc.
Qed.

(** The checkpoint observed the head of the ledger. *)
Definition at_head c rs : Prop :=
  cr_observed_receipt_sequence (sc_record c) = (N.of_nat (length rs) mod 2 ^ 64)%N
  ∧ head_from None rs = Some (cr_observed_receipt_head (sc_record c)).

Lemma local_head_Ok c rs code : valid_chain rs → verify_checkpoint_is_local_head c rs code = Ok tt → at_head c rs.
Proof.
  intros Hv. unfold verify_checkpoint_is_local_head. intros [_ H]%bind_unit_Ok. apply bind_Ok in H as (r & Hr%or_err_Ok & H).
  apply fail_if_Ok in H as [H _]. apply orb_false_iff in H as [Hs%negb_false_iff%N.eqb_eq Hh%negb_false_iff%String.eqb_eq].
  split; [by rewrite <-(last_number _ _ Hv Hr)|]. unfold head_from. by rewrite Hr, <-Hh.
Qed.

(** Two ledgers that one checkpoint vouches for begin with the same receipts. *)
Lemma one_checkpoint_one_ledger (sha256_length : ∀ s, String.length (sha256_hex s) = 64) c rs1 rs2 :
  valid_chain rs1 → valid_chain rs2 → at_head c rs1 → verify_local_checkpoint c rs2 = Ok tt →
  map committed rs1 = map committed (take (length rs1) rs2) ∨ collision sha256_hex rs1 rs2.
Proof.
  intros Hv1 Hv2 [_ Hh1] Hh2%covered_head. pose proof (valid_take (N.to_nat (cr_observed_receipt_sequence (sc_record c))) _ Hv2) as Hv2'.
  destruct (head_commits_to_the_chain json_bytes sha256_hex sha256_length rs1 (covered c rs2) Hv1 Hv2') as [Heq|(r & s & Hr & Hs & Hne)].
  - by rewrite !verify_head, Hh1, Hh2.
  - left. pose proof (f_equal length Heq) as Hl. rewrite !length_map in Hl. unfold covered in Heq, Hl.
    rewrite length_take in Hl. rewrite Heq. f_equal. destruct (Nat.le_gt_cases (N.to_nat (cr_observed_receipt_sequence (sc_record c))) (length rs2)).
    + f_equal. lia.
    + rewrite !take_ge by lia. done.
  - right. exists r, s. split_and!; [done| |apply Hne..]. unfold covered in Hs. apply elem_of_take in Hs as (i & Hi & _).
    by eapply list_elem_of_lookup_2.
Qed.
End local.

(** ** The loop over segments *)

Section commands.
Context {prim : Primitives} {codec : Codec} {J : Type}.
Context (json_bytes : J → result string string) (debug_str : string → string) (receipt_parse : string → result (Receipt J) string).
Context (server_identity : Io (N * N)) (talk : string → Io string).
Context (client : CheckpointClient) (public_key ledger_id ledger_path : string) (uid : N).
Context (trust : trusting client public_key ledger_id ledger_path uid).
Implicit Types (rs : list (Receipt J)) (c : SignedCheckpoint).

Abbreviation valid_chain := (valid_chain json_bytes sha256_hex).
Abbreviation vouched := (vouched public_key ledger_id ledger_path uid).

Lemma build_anchor_request_Ok id ledger path rs latest request :
  build_anchor_request id ledger path rs latest = Ok request →
  aq_request_id request = id
  ∧ ∃ r, last rs = Some r ∧ aq_observed_receipt_sequence request = r_sequence r ∧ aq_observed_receipt_head request = r_receipt_hash r.
Proof.
  unfold build_anchor_request. intros [_ H]%fail_if_Ok. apply bind_Ok in H as (r & Hr%or_err_Ok & H).
  apply bind_Ok in H as (start & _ & H). apply fail_if_Ok in H as [_ H]. apply bind_unit_Ok in H as [_ [= <-]].
  split; [done|]. by exists r.
Qed.

Lemma segment_request_Ok id ledger path rs latest request final :
  valid_chain rs → segment_request id ledger path rs latest = Ok (request, final) →
  let e := segment_end (segment_start latest) (length rs) in
  segment_start latest < e ≤ length rs ∧ final = (e =? length rs) ∧ (final = true → aq_request_id request = id)
  ∧ aq_observed_receipt_sequence request = (N.of_nat e mod 2 ^ 64)%N
  ∧ head_from None (take e rs) = Some (aq_observed_receipt_head request).
Proof.
  intros Hv. unfold segment_request. intros [_ H]%bind_unit_Ok. apply fail_if_Ok in H as [Hs%Nat.leb_gt H].
  apply bind_Ok in H as (q & Hq & [= <- <-]). apply build_anchor_request_Ok in Hq as (Hid & r & Hr & Hseq & Hhead). cbv zeta.
  set (e := segment_end (segment_start latest) (length rs)) in *.
  assert (segment_start latest < e ≤ length rs) as He by (subst e; unfold segment_end; change (N.to_nat MAX_CONTINUITY_LINKS) with (N.to_nat 4900); lia).
  split_and!; [lia..|done| | |].
  - intros E. by rewrite E in Hid.
  - rewrite Hseq, (last_number _ _ _ (valid_take _ e _ Hv) Hr), length_take_le by lia. done.
  - unfold head_from. by rewrite Hr, Hhead.
Qed.

Abbreviation anchor_segments := (anchor_segments (codec:=codec) server_identity talk client).

(** The loop does not run out of fuel: an accepted answer moves the start to the end of the
    segment. *)
Lemma anchor_segments_end fuel id ledger path rs latest count d :
  valid_chain rs → (N.of_nat (length rs) < 2 ^ 64)%N → length rs - segment_start latest < fuel →
  (anchor_segments fuel id ledger path rs latest count d).1 ≠ Ok None.
Proof.
  intros Hv Hmax. revert latest count d. induction fuel as [|fuel IH]; intros latest count d Hfuel; [lia|].
  cbn [CheckpointCli.anchor_segments]. unfold io_bind at 1, io_of at 1.
  destruct (segment_request _ _ _ _ _) as [[request final]|e] eqn:Eq; [|done].
  destruct (segment_request_Ok _ _ _ _ _ _ _ Hv Eq) as (He & -> & _ & Hseq & _).
  unfold io_bind at 1. destruct (client_anchor _ _ _ _ d) as [[success|e] d1] eqn:Ec; [|done].
  apply (client_anchor_Ok _ _ _ _ _ _ _ trust) in Ec as (disposition & c & -> & _ & Hans).
  unfold io_bind, io_of. cbn [anchored]. destruct (or_err _ _) as [count'|e]; [|done].
  destruct (Nat.eqb_spec (segment_end (segment_start latest) (length rs)) (length rs)) as [|Hne]; [done|].
  apply IH. cbn [segment_start snd]. rewrite (an_sequence _ _ Hans), Hseq, N.mod_small by lia. lia.
Qed.

Lemma anchor_segments_Ok fuel id ledger path rs latest count d disposition c count' d' :
  valid_chain rs → anchor_segments fuel id ledger path rs latest count d = (Ok (Some (disposition, c, count')), d') →
  vouched c ∧ cr_request_id (sc_record c) = id.
Proof.
  intros Hv. revert latest count d. induction fuel as [|fuel IH]; intros latest count d; [done|].
  cbn [CheckpointCli.anchor_segments]. intros ([request final] & d1 & [Eq ->]%io_of_Ok & H)%io_bind_Ok.
  apply io_bind_Ok in H as (success & d2 & Ec & H).
  apply (client_anchor_Ok _ _ _ _ _ _ _ trust) in Ec as (disposition' & c' & -> & Hvo & Hans).
  apply io_bind_Ok in H as (outcome & d3 & [[= <-] ->]%io_of_Ok & H). apply io_bind_Ok in H as (n & d4 & [_ ->]%io_of_Ok & H).
  destruct (segment_request_Ok _ _ _ _ _ _ _ Hv Eq) as (_ & _ & Hid & _). destruct final.
  - injection H as <- <- <- <-. split; [done|]. by rewrite (an_id _ _ Hans), Hid.
  - by eapply IH.
Qed.

(** ** The commands *)

Abbreviation run_anchor := (run_anchor (codec:=codec) server_identity talk json_bytes debug_str receipt_parse client).
Abbreviation run_verify_anchored := (run_verify_anchored (codec:=codec) server_identity talk json_bytes debug_str receipt_parse client).
Abbreviation verified_receipts_Ok := (verified_receipts_Ok json_bytes debug_str receipt_parse).
Abbreviation ledger_is := (ledger_is json_bytes receipt_parse).

Lemma status_latest_Ok id d latest d' :
  status_latest server_identity talk client id d = (Ok latest, d') → ∀ c, latest = Some c → vouched c.
Proof.
  intros (success & d1 & Hs & [Hl ->]%io_of_Ok)%io_bind_Ok.
  apply (client_status_Ok _ _ _ _ _ _ _ trust) in Hs as (path & latest' & -> & _ & Hv). by injection Hl as <-.
Qed.

(** The end of both ways through [run_anchor]: the ledger is read, and compared. *)
Definition reports (id : string) (report : AnchorReport) (fs : Files) : Prop :=
  vouched (ar_checkpoint report) ∧ cr_request_id (sc_record (ar_checkpoint report)) = id
  ∧ ar_ledger report = ledger_path ∧ ar_ledger_id report = ledger_id
  ∧ ∃ rs, ledger_is fs ledger_path rs ∧ at_head (ar_checkpoint report) rs.

Lemma replay_anchor_Ok c d report d' :
  vouched c → replay_anchor server_identity talk json_bytes debug_str receipt_parse client ledger_path ledger_id c d = (Ok report, d') →
  reports (cr_request_id (sc_record c)) report (d_files d').
Proof.
  intros Hc (l & d1 & _ & H)%io_bind_Ok. apply io_bind_Ok in H as (l' & d2 & _ & H). apply io_bind_Ok in H as (? & d3 & _ & H).
  apply io_bind_Ok in H as (rs & d4 & [_ Hl]%verified_receipts_Ok & H). apply io_bind_Ok in H as (? & ? & [_ ->]%io_of_Ok & H).
  apply io_bind_Ok in H as ([] & ? & [Hh ->]%io_of_Ok & H). injection H as <- <-. split_and!; [done..|].
  exists rs. split; [done|]. eapply local_head_Ok; [|exact Hh]. apply Hl.
Qed.

Lemma run_anchor_Ok id d report d' :
  run_anchor id d = (Ok (Some report), d') → reports id report (d_files d').
Proof.
  unfold CheckpointCli.run_anchor. destruct trust as [_ Hledger Hpath _].
  intros (? & ? & [_ ->]%io_of_Ok & H)%io_bind_Ok. destruct (starts_with _ _); [done|]. rewrite Hledger, Hpath in H.
  apply io_bind_Ok in H as (? & ? & [[= <-] ->]%io_of_Ok & H). apply io_bind_Ok in H as (? & ? & [[= <-] ->]%io_of_Ok & H).
  apply io_bind_Ok in H as (? & d1 & _ & H). apply io_bind_Ok in H as (rs & d2 & [_ Hrs]%verified_receipts_Ok & H).
  apply io_bind_Ok in H as ([c|] & d3 & Hc & H).
  - apply (client_lookup_Ok _ _ _ _ _ _ _ trust) in Hc as [Hc <-].
    apply io_bind_Ok in H as (r & d4 & Hr & H). injection H as <- <-. by eapply replay_anchor_Ok.
  - apply io_bind_Ok in H as (latest & d4 & _ & H). apply io_bind_Ok in H as ([[[disposition c] n]|] & d5 & Ha & H); [|done].
    apply anchor_segments_Ok in Ha as [Hvo Hid]; [|apply Hrs]. apply io_bind_Ok in H as (? & d6 & _ & H).
    apply io_bind_Ok in H as (after & d7 & [_ Hafter]%verified_receipts_Ok & H).
    apply io_bind_Ok in H as ([] & ? & [Hh ->]%io_of_Ok & H). injection H as <- <-. split_and!; [done..|].
    exists after. split; [done|]. eapply local_head_Ok; [|exact Hh]. apply Hafter.
Qed.

Lemma boundary_Ok d x d' : validate_receipt_ledger_boundary client d = (Ok x, d') → d_files d' = d_files d.
Proof.
  unfold validate_receipt_ledger_boundary. intros (? & ? & [_ ->]%io_of_Ok & H)%io_bind_Ok.
  apply io_bind_Ok in H as (? & ? & [_ ->]%io_of_Ok & H). by eapply sys_check_Ok.
Qed.

Lemma io_bind_not {A B} (m : Io A) (k : A → Io B) d y :
  (∀ x d', m d = (Ok x, d') → (k x d').1 ≠ Ok y) → (io_bind m k d).1 ≠ Ok y.
Proof. intros H. unfold io_bind. destruct (m d) as [[x|e] d']; [by apply H|done]. Qed.

Lemma run_anchor_end id d :
  (len (default "" (d_files d !! ledger_path)) + 1 < 2 ^ 64)%N → (run_anchor id d).1 ≠ Ok None.
Proof.
  intros Hmax. unfold CheckpointCli.run_anchor. destruct trust as [_ Hledger Hpath _]. rewrite Hledger, Hpath.
  apply io_bind_not. intros ? ? [_ ->]%io_of_Ok. destruct (starts_with _ _); [done|].
  do 2 (apply io_bind_not; intros ? ? [[= <-] ->]%io_of_Ok). apply io_bind_not. intros ? d1 Hb%boundary_Ok.
  apply io_bind_not. intros rs d2 [Hf Hrs]%verified_receipts_Ok. rewrite Hf, Hb in Hrs.
  apply io_bind_not. intros [c|] d3 _; [by apply io_bind_not|]. apply io_bind_not. intros latest d4 _.
  pose proof (ledger_bound _ _ _ _ _ Hrs) as Hlen.
  unfold io_bind at 1. pose proof (anchor_segments_end (anchor_fuel rs) id ledger_id ledger_path rs latest 0 d4) as Hend.
  destruct (anchor_segments _ _ _ _ _ _ _ _) as [[[[[disposition c] n]|]|e] d5]; [| |done].
  - by repeat (apply io_bind_not; intros ? ? _).
  - exfalso. apply Hend; [apply Hrs|lia|unfold anchor_fuel; lia|done].
Qed.

Lemma run_verify_anchored_Ok d c n d' :
  run_verify_anchored d = (Ok (c, n), d') →
  vouched c ∧ ∃ rs, ledger_is (d_files d') ledger_path rs ∧ n = length rs ∧ verify_local_checkpoint c rs = Ok tt.
Proof.
  unfold CheckpointCli.run_verify_anchored. destruct trust as [_ _ Hpath _]. rewrite Hpath.
  intros (? & ? & [[= <-] ->]%io_of_Ok & H)%io_bind_Ok. apply io_bind_Ok in H as (latest & d1 & Hl & H).
  apply io_bind_Ok in H as (c' & ? & [Hc%or_err_Ok ->]%io_of_Ok & H). apply io_bind_Ok in H as (? & d2 & _ & H).
  apply io_bind_Ok in H as (rs & d3 & [_ Hrs]%verified_receipts_Ok & H). apply io_bind_Ok in H as ([] & ? & [Hv ->]%io_of_Ok & H).
  injection H as <- <- <-. split; [by eapply status_latest_Ok|]. by exists rs.
Qed.
End commands.
