(* ===== verification/CheckpointServe.v ===== *)
(** * The client and the daemon together

    On a disk and a connection that work, what a client gets from the daemon is what the
    store does. *)

From S2P Require Import Prelude RustStr RiskPaths RustText Disk Omnis CheckpointModel CheckpointStore CheckpointChain CheckpointDisk CheckpointIpc CheckpointDaemon.

(** ** Frames *)

(** A value that is written in one frame. *)
Definition framed {T} (json : T → result string string) (parse : string → result T string) (value : T) (payload : string) : Prop :=
  json value = Ok payload ∧ one_line payload ∧ (len payload ≤ MAX_FRAME_BYTES)%N ∧ parse payload = Ok value.

Lemma framed_payload {T} json (parse : string → result T string) value payload :
  framed json parse value payload → frame_payload (json value) = Ok payload.
Proof.
  intros (-> & (Hne & _) & Hlen & _). unfold frame_payload. rewrite Hne. by rewrite (proj2 (N.ltb_ge _ _) Hlen).
Qed.

Lemma framed_back {T} json (parse : string → result T string) value payload :
  framed json parse value payload → read_frame parse (Ok (payload +:+ newline)) = Ok value.
Proof.
  intros (_ & (H1 & H2 & H3) & Hlen & Hparse). unfold read_frame.
  rewrite (proj2 (N.ltb_ge _ _)) by (unfold len in *; rewrite str_length_app; change (String.length newline) with 1; lia).
  rewrite strip_suffix_app by done. by rewrite H1, H2, H3, Hparse.
Qed.

(** ** Programs leave a working disk working *)

Definition stays_healthy {A} (m : Io A) : Prop := ∀ d, healthy d → healthy (m d).2.

Section stays.
Context {A : Type}.

Lemma stays_bind {B} (m : Io B) (k : B → Io A) : stays_healthy m → (∀ x, stays_healthy (k x)) → stays_healthy (io_bind m k).
Proof.
  intros Hm Hk d Hd. specialize (Hm d Hd). unfold io_bind. destruct (m d) as [[x|e] d']; simpl in *; [by apply Hk|done].
Qed.

Lemma stays_of (r : result A string) : stays_healthy (io_of r).
Proof. intros d Hd. exact Hd. Qed.

Lemma stays_ret (x : A) : stays_healthy (io_ret x).
Proof. intros d Hd. exact Hd. Qed.

Lemma stays_err e : stays_healthy (io_err (A:=A) e).
Proof. intros d Hd. exact Hd. Qed.

Lemma stays_code c (m : Io A) : stays_healthy m → stays_healthy (io_code c m).
Proof. intros Hm d Hd. specialize (Hm d Hd). unfold io_code. by destruct (m d) as [[x|e] d']. Qed.

Lemma stays_try (m : Io A) : stays_healthy m → stays_healthy (io_try m).
Proof. intros Hm d Hd. specialize (Hm d Hd). unfold io_try. by destruct (m d). Qed.

Lemma stays_get (get : Files → A) : stays_healthy (sys_get get).
Proof. intros d Hd. unfold sys_get. by rewrite next_fault_healthy. Qed.

Lemma stays_if (b : bool) (m n : Io A) : stays_healthy m → stays_healthy n → stays_healthy (if b then m else n).
Proof. by destruct b. Qed.
End stays.

Lemma stays_check : stays_healthy sys_check.
Proof. intros d Hd. unfold sys_check. by rewrite next_fault_healthy. Qed.

Lemma stays_change f : stays_healthy (sys_change f).
Proof. intros d Hd. unfold sys_change. by rewrite next_fault_healthy. Qed.

Lemma stays_append p b : stays_healthy (append_file p b).
Proof. intros d Hd. unfold append_file. by rewrite next_fault_healthy. Qed.

Lemma stays_remove p : stays_healthy (remove_file p).
Proof. intros d Hd. by apply remove_file_healthy. Qed.

Lemma stays_exists p : stays_healthy (exists_file p).
Proof. intros d Hd. exact Hd. Qed.

Create HintDb healthy_disk.
#[export] Hint Resolve stays_bind stays_of stays_ret stays_err stays_code stays_try stays_get stays_if stays_check
  stays_change stays_append stays_remove stays_exists : healthy_disk.

Ltac stays :=
  repeat match goal with
  | |- ∀ _, _ => intro
  | |- stays_healthy (io_bind _ _) => apply stays_bind
  | |- stays_healthy (io_code _ _) => apply stays_code
  | |- stays_healthy (io_try _) => apply stays_try
  | |- stays_healthy (match ?x with _ => _ end) => destruct x
  | |- stays_healthy (open_file _) => unfold open_file
  | |- stays_healthy (read_file _) => unfold read_file
  | |- stays_healthy (create_new_file _) => unfold create_new_file
  | |- stays_healthy _ => solve [eauto 2 with healthy_disk]
  end.

Section store.
Context {prim : Primitives}.
Context (json_stored : StoredCheckpoint → result string string) (parse_stored : string → option StoredCheckpoint).
Context (listed : list string → list string).

Lemma stays_bounded path maximum code : stays_healthy (read_bounded_file path maximum code).
Proof. unfold read_bounded_file. stays. Qed.

Hint Resolve stays_bounded : healthy_disk.

Lemma stays_live store : stays_healthy (validate_live_authority store).
Proof. unfold validate_live_authority, validate_authority_paths. stays. Qed.

Lemma stays_records store index chain ids records : stays_healthy (load_records parse_stored store index chain ids records).
Proof.
  revert index chain ids. induction records as [|[n path] records IH]; intros index chain ids; cbn [load_records]; stays.
Qed.

Hint Resolve stays_live stays_records : healthy_disk.

Lemma stays_load_chain store : stays_healthy (load_chain parse_stored listed store).
Proof. unfold load_chain. stays. Qed.

Lemma stays_link from to : stays_healthy (link_file from to).
Proof. unfold link_file. stays. Qed.

Hint Resolve stays_load_chain stays_link : healthy_disk.

Lemma stays_publish pid nonce store n s : stays_healthy (publish_record json_stored pid nonce store n s).
Proof. unfold publish_record, link_record, sync_directory. cbv zeta. stays. Qed.

Hint Resolve stays_publish : healthy_disk.

Lemma stays_anchor pid nonce store peer_uid request now :
  stays_healthy (anchor_at json_stored parse_stored listed pid nonce store peer_uid request now).
Proof. unfold anchor_at, prepare_anchor, confirm_anchor. stays. Qed.
End store.

(** ** One request over one connection *)

Section serve.
Context {prim : Primitives} {codec : Codec}.
Context (parse_activation : string → option ActivationManifest) (identity : Io ProcessIdentity).
Context (json_stored : StoredCheckpoint → result string string) (parse_stored : string → option StoredCheckpoint).
Context (listed : list string → list string).
Context (config : DaemonConfig) (startup : LoadedActivation) (store : AuthorityStore).
Context (pid nonce uid now : N).
Abbreviation activation := (la_manifest startup).
Abbreviation anchor_at := (anchor_at json_stored parse_stored listed pid nonce store).
Abbreviation operate := (operate json_stored parse_stored listed startup store pid nonce (io_ret now) uid).

(** What the daemon sends to the bytes of one request. *)
Definition daemon (bytes : string) : Io string := λ d,
  let '(sent, d') := serve_connection parse_activation identity json_stored parse_stored listed config startup store pid nonce
                       (io_ret uid) (io_ret now) (Ok bytes) d in (Ok sent, d').

(** The response to a request in form: the result of the store. *)
Definition respond_with (id : string) (r : result Success string) : Response :=
  match r with
  | Ok success => success_response id success
  | Err error => error_response (Some id) "AUTHORITY_OPERATION_REFUSED" error
  end.

Definition status_of (latest : option SignedCheckpoint) : Success :=
  StatusSuccess AUTHORITY_ID (am_allowed_ledger_id activation) (am_receipt_ledger_path activation)
    (si_key_id (as_signing_identity store)) latest.

Definition anchor_of (outcome : AnchorOutcome) : Success := AnchorSuccess (an_disposition outcome) (an_checkpoint outcome).

Definition answer_of (request : Request) (d : Disk) : Response * Disk :=
  match request with
  | LookupRequest _ id =>
      let '(r, d') := lookup_request parse_stored listed store id d in
      (match r with Ok c => lookup_success id c | Err error => error_response (Some id) "AUTHORITY_OPERATION_REFUSED" error end, d')
  | StatusRequest _ id =>
      let '(r, d') := latest parse_stored listed store d in (respond_with id (let? l := r in Ok (status_of l)), d')
  | AnchoringRequest _ request =>
      let '(r, d') := anchor_at uid request now d in
      (respond_with (aq_request_id request) (let? outcome := r in Ok (anchor_of outcome)), d')
  end.

Lemma send_healthy response payload d sent :
  healthy d → framed response_json response_parse response payload →
  send response {| cn_disk := d; cn_sent := sent |} = (Ok tt, {| cn_disk := d; cn_sent := sent +:+ payload +:+ newline |}).
Proof.
  intros Hd Hf. unfold send, write_frame, sv_bind, sv_io, frame_io, io_of. rewrite (framed_payload _ _ _ _ Hf). cbn [cn_disk cn_sent].
  unfold write_all.
  repeat first [rewrite next_fault_healthy by done | rewrite sys_check_healthy by done | progress cbn [cn_disk cn_sent]].
  by rewrite str_app_assoc.
Qed.

Lemma operate_healthy request d payload :
  healthy d → framed response_json response_parse (answer_of request d).1 payload →
  operate request {| cn_disk := d; cn_sent := "" |} = (Ok tt, {| cn_disk := (answer_of request d).2; cn_sent := payload +:+ newline |}).
Proof.
  intros Hd. unfold CheckpointDaemon.operate, answer_of, sv_bind, sv_io, io_try, refuse_operation, send_error. cbn [cn_disk cn_sent].
  destruct request as [p id|p request|p id]; cbn [request_id_of cn_disk cn_sent].
  - pose proof (stays_load_chain parse_stored listed store d Hd) as Hh. unfold latest, io_bind, io_ret. cbn [cn_disk cn_sent].
    destruct (load_chain _ _ _ d) as [[chain|e] d']; cbn [fst snd respond_with cn_disk cn_sent] in *; intros Hf; by rewrite (send_healthy _ payload).
  - pose proof (stays_anchor json_stored parse_stored listed pid nonce store uid request now d Hd) as Hh.
    unfold io_ret. cbn [cn_disk cn_sent].
    destruct (anchor_at uid request now d) as [[outcome|e] d']; cbn [fst snd respond_with cn_disk cn_sent] in *; intros Hf;
      by rewrite (send_healthy _ payload).
  - assert (healthy (lookup_request parse_stored listed store id d).2) as Hh.
    { apply stays_bind; [apply stays_of|intros; apply stays_bind; [apply stays_load_chain|intros; apply stays_ret]|done]. }
    cbn [cn_disk cn_sent]. destruct (lookup_request _ _ _ id d) as [[c|e] d']; cbn [fst snd cn_disk cn_sent] in *; intros Hf; by rewrite (send_healthy _ payload).
Qed.

(** The daemon is activated as it was when it started. *)
Definition activated (d : Disk) : Prop :=
  load_activation parse_activation identity config d = (Ok startup, d)
  ∧ assert_service_identity identity activation d = (Ok tt, d)
  ∧ uid = am_allowed_client_uid activation.

Lemma daemon_answers request bytes payload d :
  healthy d → activated d → validate_envelope request = Ok tt →
  framed request_json request_parse request bytes → framed response_json response_parse (answer_of request d).1 payload →
  daemon (bytes +:+ newline) d = (Ok (payload +:+ newline), (answer_of request d).2).
Proof.
  intros Hd (Hload & Hid & Huid) Henv Hq Hr. unfold daemon, serve_connection, handle_connection, sv_bind.
  assert (∀ A (m : Io A) x, m d = (Ok x, d) → sv_io m {| cn_disk := d; cn_sent := "" |} = (Ok x, {| cn_disk := d; cn_sent := "" |})) as Hio.
  { intros A m x Hm. unfold sv_io. cbn [cn_disk cn_sent]. by rewrite Hm. }
  rewrite (Hio _ _ tt) by (unfold io_bind; by rewrite !sys_check_healthy). rewrite (Hio _ _ _ Hload).
  rewrite bool_decide_eq_false_2 by auto. rewrite (Hio _ _ _ Hid), (Hio _ (io_ret uid) _ eq_refl).
  rewrite (proj2 (N.eqb_eq _ _) Huid). cbn [negb]. unfold answer_frame. rewrite (framed_back _ _ _ _ Hq), Henv. by rewrite (operate_healthy _ _ payload).
Qed.

(** ** The client and the daemon *)

Context (client : CheckpointClient).
Abbreviation server := (io_ret (cl_expected_server_uid client, cl_expected_server_gid client)).

Lemma exchange_with_daemon request bytes payload d :
  healthy d → activated d → validate_envelope request = Ok tt →
  framed request_json request_parse request bytes → framed response_json response_parse (answer_of request d).1 payload →
  exchange_response server daemon client request d = (Ok (answer_of request d).1, (answer_of request d).2).
Proof.
  intros Hd Hact Henv Hq Hr. unfold exchange_response, assert_socket_leaf.
  rewrite (io_bind_run _ _ _ _ _ (sys_check_healthy d Hd)).
  rewrite (io_bind_run _ _ d tt d) by (unfold io_code; by rewrite sys_check_healthy).
  do 2 rewrite (io_bind_run _ _ _ _ _ (sys_check_healthy d Hd)).
  rewrite (io_bind_run _ _ d (cl_expected_server_uid client, cl_expected_server_gid client) d) by done. cbn [fst snd].
  rewrite !N.eqb_refl. cbn [negb orb].
  rewrite (io_bind_run _ _ d bytes d) by (unfold frame_io; by rewrite (framed_payload _ _ _ _ Hq)).
  rewrite (io_bind_run _ _ _ _ _ (sys_check_healthy d Hd)).
  rewrite (io_bind_run _ _ d tt d) by (unfold io_code; by rewrite sys_check_healthy).
  rewrite (io_bind_run _ _ d (Ok (payload +:+ newline)) (answer_of request d).2)
    by (unfold io_try; by rewrite (daemon_answers _ _ _ _ Hd Hact Henv Hq Hr)).
  unfold io_code, frame_io, io_of. by rewrite (framed_back _ _ _ _ Hr).
Qed.
End serve.
