(* ===== verification/CheckpointSample.v ===== *)
(** * A sample authority and a session with its daemon

    Primitives that can be evaluated and keep the laws, an authority, and two requests, at
    which the theorems about checkpoints are applied; then messages and files of tables, an
    activation, and a ledger of one receipt, for the theorems about clients. *)

From S2P Require Import Prelude RustStr RiskPaths RustText Disk Omnis OmnisChain CheckpointModel CheckpointStore CheckpointDisk CheckpointPublish CheckpointIpc CheckpointDaemon CheckpointCli CheckpointServe.

(** ** Primitives *)

Definition nibble (n : N) : chr := Ascii.ascii_of_N (if (n <? 10)%N then 48 + n else 87 + n)%N.

Definition nibble_value (c : chr) : option N :=
  if is_ascii_digit c then Some (byte_of c - 48)%N
  else if byte_between 97 102 c then Some (byte_of c - 87)%N else None.

Fixpoint sample_encode (bytes : string) : string :=
  match bytes with
  | EmptyString => ""
  | String c bytes => String (nibble (byte_of c / 16)) (String (nibble (byte_of c mod 16)) (sample_encode bytes))
  end.

Fixpoint sample_decode (text : string) : option string :=
  match text with
  | EmptyString => Some ""
  | String a (String b text) =>
      x ← nibble_value a; y ← nibble_value b; bytes ← sample_decode text; Some (String (Ascii.ascii_of_N (16 * x + y)) bytes)
  | _ => None
  end.

(** Cut or filled up to a length. *)
Fixpoint fit (n : nat) (s : string) : string :=
  match n, s with
  | O, _ => ""
  | S n, EmptyString => String "0" (fit n "")
  | S n, String c s => String c (fit n s)
  end.

Fixpoint weight (acc : N) (s : string) : N :=
  match s with EmptyString => acc | String c s => weight ((acc * 257 + byte_of c + 1) mod 2 ^ 64) s end.

Definition sample_hash (s : string) : string := padded 64 (weight 0 s).

Definition sample_public_key : string := fit 32 "sample key".

#[export] Instance sample_primitives : Primitives := {
  sha256_hex := sample_hash;
  hex_encode := sample_encode;
  hex_decode := sample_decode;
  pkcs8_key_pair key := if String.eqb key "private" then Some (sample_public_key, fit 64 ∘ sample_hash) else None;
  ed25519_verify key message signature := String.eqb key sample_public_key && String.eqb signature (fit 64 (sample_hash message));
  json_request request := Ok ("request " +:+ aq_request_id request +:+ " " +:+ aq_observed_receipt_head request);
  json_record record := Ok ("record " +:+ cr_request_id record +:+ " " +:+ pretty (cr_issued_at_unix_ms record)
                            +:+ " " +:+ cr_observed_receipt_head record);
}.

Lemma fit_length n s : String.length (fit n s) = n.
Proof. revert s. induction n as [|n IH]; intros s; [done|]. by destruct s; simpl; rewrite IH. Qed.

Lemma nibble_bound n : (n < 16)%N →
  nibble_value (nibble n) = Some n ∧ byte_between 65 90 (nibble n) = false.
Proof.
  intros H. assert (n ∈ map N.of_nat (seq 0 16)) as Hin.
  { apply list_elem_of_fmap. exists (N.to_nat n). split; [lia|]. apply elem_of_seq. lia. }
  revert n H Hin. assert (Forall (λ n, nibble_value (nibble n) = Some n ∧ byte_between 65 90 (nibble n) = false) (map N.of_nat (seq 0 16))) as Hall.
  { repeat constructor. }
  intros n _ Hin. by eapply Forall_forall in Hall.
Qed.

Lemma byte_nibbles c : (byte_of c / 16 < 16)%N ∧ (byte_of c mod 16 < 16)%N ∧ (16 * (byte_of c / 16) + byte_of c mod 16)%N = byte_of c.
Proof.
  pose proof (Ascii.N_ascii_bounded c) as Hb. unfold byte_of. split_and!.
  - apply N.Div0.div_lt_upper_bound. lia.
  - by apply N.mod_lt.
  - symmetry. by apply N.div_mod.
Qed.

Lemma sample_pair key pk sgn : pkcs8_key_pair key = Some (pk, sgn) → pk = sample_public_key ∧ sgn = fit 64 ∘ sample_hash.
Proof.
  unfold pkcs8_key_pair, sample_primitives. destruct (String.eqb key "private"); [|done].
  intros H. by apply (inj Some), pair_equal_spec in H as [<- <-].
Qed.

#[export] Instance sample_laws : PrimitiveLaws.
Proof.
  split.
  - intros bytes. induction bytes as [|c bytes IH]; [done|]. cbn in *. destruct (byte_nibbles c) as (H1 & H2 & H3).
    destruct (nibble_bound _ H1) as [-> _], (nibble_bound _ H2) as [-> _]. cbn. rewrite IH. cbn. rewrite H3.
    by rewrite Ascii.ascii_N_embedding.
  - intros bytes. cbn. induction bytes as [|c bytes IH]; [done|]. cbn. rewrite IH. lia.
  - intros bytes. cbn. induction bytes as [|c bytes IH]; [done|]. cbn [sample_encode any_chr]. destruct (byte_nibbles c) as (H1 & H2 & _).
    destruct (nibble_bound _ H1) as [_ ->], (nibble_bound _ H2) as [_ ->]. done.
  - intros key pk sgn message H. apply sample_pair in H as [_ ->]. apply fit_length.
  - intros key pk sgn message H. apply sample_pair in H as [-> ->]. apply andb_true_intro. split; apply String.eqb_refl.
Qed.

(** ** An authority *)

Definition sample_ledger_path : string := "/home/u/receipts.jsonl".

Definition sample_config : StoreConfig := {|
  sc_paths := {| authority_root := "/a"; records_dir := "/a/records"; signing_key_path := "/a/key";
                 trust_public_key_path := "/trust.pub" |};
  sc_authority_id := "jourdanlabs.omnis-checkpoint-authority.v1"; sc_service_uid := 300; sc_service_primary_gid := 300; sc_trust_owner_uid := 0;
  sc_trust_owner_gid := 0; sc_allowed_peer_uid := 501; sc_allowed_ledger_id := "ledger";
  sc_allowed_receipt_ledger_path := sample_ledger_path |}.

Definition sample_trust : string := "ed25519:" +:+ sample_encode sample_public_key +:+ newline.

Definition sample_identity : SigningIdentity := {|
  si_public_key := sample_public_key; si_sign_bytes := fit 64 ∘ sample_hash; si_key_id := signing_key_id sample_public_key |}.

Definition sample_store : AuthorityStore := {|
  as_config := sample_config; as_signing_identity := sample_identity; as_private_key_bytes := "private";
  as_trust_file_bytes := sample_trust; as_public_key := sample_public_key |}.

Definition sample_digest (s : string) : string := "sha256:" +:+ sample_hash s.

Definition sample_link (n : N) : ReceiptLinkWitness := {|
  lw_sequence := n; lw_parent_hash := if (n =? 1)%N then None else Some (sample_digest (pretty (n - 1)%N));
  lw_receipt_hash := sample_digest (pretty n) |}.

(** A request for the receipts of some numbers. *)
Definition sample_request (id : string) (prior : option string) (receipts : list N) : AnchorRequest := {|
  aq_protocol := PROTOCOL; aq_request_id := id; aq_ledger_id := "ledger"; aq_receipt_ledger_path := sample_ledger_path;
  aq_prior_checkpoint_hash := prior; aq_observed_receipt_sequence := List.last receipts 0%N;
  aq_observed_receipt_head := sample_digest (pretty (List.last receipts 0%N)); aq_continuity := map sample_link receipts |}.

Definition sample_answer (chain : list StoredCheckpoint) (request : AnchorRequest) (now : N) : result Prepared string :=
  answer_request sample_store chain 501 request now.

Definition no_checkpoint : SignedCheckpoint := {|
  sc_record := next_record sample_store [] 0 "" 0 (sample_request "" None []) 0; sc_record_hash := ""; sc_signature_ed25519 := "" |}.

Definition sample_checkpoint (chain : list StoredCheckpoint) (request : AnchorRequest) (now : N) : SignedCheckpoint :=
  match sample_answer chain request now with Ok (Unpublished _ checkpoint) => checkpoint | _ => no_checkpoint end.

Definition request_a : AnchorRequest := sample_request "a" None [1; 2]%N.
Definition stored_a : StoredCheckpoint := {| st_request := request_a; st_checkpoint := sample_checkpoint [] request_a 1000 |}.
Definition request_b : AnchorRequest :=
  sample_request "b" (Some (sc_record_hash (st_checkpoint stored_a))) [3]%N.
Definition stored_b : StoredCheckpoint := {| st_request := request_b; st_checkpoint := sample_checkpoint [stored_a] request_b 2000 |}.

(** The serializer of these two. *)
Definition sample_json (s : StoredCheckpoint) : result string string :=
  if bool_decide (s = stored_a) then Ok "checkpoint a" else if bool_decide (s = stored_b) then Ok "checkpoint b" else Err "not a sample".

Definition sample_parse (text : string) : option StoredCheckpoint :=
  if String.eqb text "checkpoint a" then Some stored_a else if String.eqb text "checkpoint b" then Some stored_b else None.

Definition sample_files (chain : list string) : Files :=
  list_to_map (zip (map (λ i, nth_path sample_store i) (seq 0 (length chain))) (map (λ line, line +:+ newline) chain))
  ∪ <["/a/key" := "private"]> (<["/trust.pub" := sample_trust]> ∅).

Definition sample_disk (faults : list Fault) (chain : list string) : Disk :=
  {| d_files := sample_files chain; d_faults := faults; d_trace := [] |}.

Definition sample_listed (names : list string) : list string := names.

Definition sample_load (d : Disk) := load_chain sample_parse sample_listed sample_store d.
Definition sample_anchor (pid nonce : N) := anchor_at sample_json sample_parse sample_listed pid nonce sample_store 501.

(** What is read from working files is what they hold. *)
Lemma sample_holds chain stored :
  (sample_load (sample_disk [] chain)).1 = Ok stored → holds sample_parse sample_store (sample_files chain) stored.
Proof.
  intros H. pose proof (reads_load_chain sample_parse sample_listed (λ names, reflexivity names) sample_store (sample_files chain)
                          (sample_disk [] chain) eq_refl) as (_ & _ & Hh). by apply Hh.
Qed.

Lemma sample_json_line s payload : sample_json s = Ok payload →
  one_line payload ∧ (len payload < MAX_RECORD_BYTES)%N ∧ sample_parse payload = Some s.
Proof.
  unfold sample_json. destruct (bool_decide_reflect (s = stored_a)) as [->|_].
  { intros H. injection H as <-. by split_and!. }
  destruct (bool_decide_reflect (s = stored_b)) as [->|_]; [|done].
  intros H. injection H as <-. by split_and!.
Qed.

(** ** Serializers of tables *)

Section table.
Context {T : Type} `{!EqDecision T}.

Definition table_name (t : list (string * T)) (x : T) : option string := fst <$> List.find (λ e, bool_decide (e.2 = x)) t.
Definition table_value (t : list (string * T)) (name : string) : option T := snd <$> List.find (λ e, String.eqb e.1 name) t.

Definition fits_line (name : string) : bool :=
  negb (is_empty name) && negb (contains_chr "010" name) && negb (contains_chr "013" name) && (len name <? MAX_FRAME_BYTES)%N.

Definition well_formed (t : list (string * T)) : bool :=
  bool_decide (NoDup (map fst t)) && forallb (fits_line ∘ fst) t.

Lemma table_back t x name :
  well_formed t = true → table_name t x = Some name →
  one_line name ∧ (len name < MAX_FRAME_BYTES)%N ∧ table_value t name = Some x.
Proof.
  unfold well_formed, table_name, table_value. intros [Hnd%bool_decide_eq_true Hall]%andb_true_iff H.
  apply fmap_Some in H as ([n y] & [Hin Hy%bool_decide_eq_true]%find_some & ->). simpl in *. subst y.
  rewrite forallb_forall in Hall. pose proof (Hall _ Hin) as Hfit. unfold fits_line in Hfit. simpl in Hfit.
  apply andb_true_iff in Hfit as [[[H1%negb_true_iff H2%negb_true_iff]%andb_true_iff H3%negb_true_iff]%andb_true_iff H4%N.ltb_lt].
  split_and!; [done..|]. clear Hall. induction t as [|[m z] t IH]; [done|]. cbn [List.find map fst] in *.
  apply NoDup_cons in Hnd as [Hm Hnd]. destruct (String.eqb_spec m n) as [->|Hne].
  - destruct Hin as [[= ->]|Hin]; [done|]. destruct Hm. apply list_elem_of_fmap. exists (n, x). split; [done|by apply list_elem_of_In].
  - apply IH; [done|]. by destruct Hin as [[= -> _]|Hin].
Qed.
End table.

(** ** A session *)

Definition session_uid : N := 501.

Definition session_config : DaemonConfig := {|
  dc_activation_path := "/activation"; dc_authority_root := "/a"; dc_socket_path := "/s/omnis.sock";
  dc_records_path := "/a/records"; dc_private_key_path := "/a/key"; dc_trust_public_key_path := "/trust.pub";
  dc_activation_owner_uid := 0; dc_activation_owner_gid := 0; dc_socket_parent_owner_uid := 0;
  dc_enforce_fixed_paths := false; dc_enforce_process_identity := true; dc_enforce_acl := true;
  dc_allow_same_service_and_client_uid := false |}.

Definition session_activation : ActivationManifest := {|
  am_schema_version := 1; am_protocol := ACTIVATION_PROTOCOL; am_service_uid := 300; am_service_primary_gid := 300;
  am_service_groups := [20; 300]%N; am_allowed_client_uid := session_uid; am_allowed_ledger_id := "ledger";
  am_receipt_ledger_path := sample_ledger_path; am_socket_path := "/s/omnis.sock"; am_records_path := "/a/records";
  am_private_key_path := "/a/key"; am_trust_public_key_path := "/trust.pub" |}.

Definition session_startup : LoadedActivation := {| la_manifest := session_activation; la_bytes := "activation" |}.
Definition session_parse_activation (bytes : string) : option ActivationManifest :=
  if String.eqb bytes "activation" then Some session_activation else None.
Definition session_identity : Io ProcessIdentity := io_ret (process_identity 300 300 [300; 20; 20]%N).

Definition session_client : CheckpointClient := {|
  cl_socket_path := "/s/omnis.sock"; cl_expected_server_uid := 300; cl_expected_server_gid := 300;
  cl_io_timeout := DEFAULT_IO_TIMEOUT; cl_trusted_public_key := Some sample_public_key; cl_allowed_ledger_id := Some "ledger";
  cl_receipt_ledger_path := Some sample_ledger_path; cl_activated_client_uid := Some session_uid |}.

(** A ledger of one receipt. *)
Definition session_draft : Receipt string := {|
  r_protocol := Omnis.PROTOCOL; r_sequence := 1; r_parent_hash := None; r_event_id := None; r_kind := "safety.decision";
  r_subject := "subject"; r_evidence_sha256 := sample_digest "evidence"; r_evidence := None; r_claim_ceiling := LocalRecord;
  r_receipt_hash := "" |}.
Definition session_receipt : Receipt string := with_hash (receipt_hash sample_hash session_draft) session_draft.
Definition session_receipt_parse (line : string) : result (Receipt string) string :=
  if String.eqb line "receipt 1" then Ok session_receipt else Err "not a sample".
Definition session_json_bytes (payload : string) : result string string := Ok payload.
Definition session_debug (s : string) : string := s.

(** The checkpoint that anchors it. *)
Definition session_request : AnchorRequest :=
  match build_anchor_request "anchor:1" "ledger" sample_ledger_path [session_receipt] None with
  | Ok request => request
  | Err _ => request_a
  end.
Definition session_stored : StoredCheckpoint :=
  {| st_request := session_request; st_checkpoint := sample_checkpoint [] session_request 1000 |}.

Definition records_table : list (string * StoredCheckpoint) :=
  [("checkpoint a", stored_a); ("checkpoint b", stored_b); ("checkpoint 1", session_stored)].

Definition session_status (latest : option SignedCheckpoint) : Success := status_of session_startup sample_store latest.

Definition requests_table : list (string * Request) :=
  [("lookup", LookupRequest IPC_PROTOCOL "anchor:1"); ("status", StatusRequest IPC_PROTOCOL "status:anchor");
   ("anchor", anchor_request session_request); ("verify", StatusRequest IPC_PROTOCOL "status:verify-anchored")].

Definition responses_table : list (string * Response) :=
  [("nothing", lookup_success "anchor:1" None); ("empty", success_response "status:anchor" (session_status None));
   ("anchored", success_response "anchor:1" (AnchorSuccess Appended (st_checkpoint session_stored)));
   ("found", lookup_success "anchor:1" (Some (st_checkpoint session_stored)));
   ("latest", success_response "status:verify-anchored" (session_status (Some (st_checkpoint session_stored))))].

Definition no_entry {A} : result A string := Err "not in the table".

#[export] Instance session_codec : Codec := {
  request_json q := match table_name requests_table q with Some name => Ok name | None => no_entry end;
  request_parse name := match table_value requests_table name with Some q => Ok q | None => no_entry end;
  response_json r := match table_name responses_table r with Some name => Ok name | None => no_entry end;
  response_parse name := match table_value responses_table name with Some r => Ok r | None => no_entry end;
}.

Definition session_json (s : StoredCheckpoint) : result string string :=
  match table_name records_table s with Some name => Ok name | None => no_entry end.
Definition session_parse (name : string) : option StoredCheckpoint := table_value records_table name.

(** The disk: keys, activation, ledger, and records by their lines. *)
Definition session_disk (records : list string) : Disk := {|
  d_files := <["/activation" := "activation"]> (<[sample_ledger_path := "receipt 1" +:+ newline]> (sample_files records));
  d_faults := []; d_trace := [] |}.

Definition session_daemon : string → Io string :=
  daemon session_parse_activation session_identity session_json session_parse sample_listed session_config session_startup
    sample_store 7 0 session_uid 1000.

Definition session_server : Io (N * N) := io_ret (300, 300)%N.

Definition session_anchor : Io (option AnchorReport) :=
  run_anchor session_server session_daemon session_json_bytes session_debug session_receipt_parse session_client "anchor:1".
Definition session_verify : Io (SignedCheckpoint * nat) :=
  run_verify_anchored session_server session_daemon session_json_bytes session_debug session_receipt_parse session_client.

(** What the ledger of a session holds. *)
Definition session_ledger : list (Receipt string) := [session_receipt].

Definition session_report : AnchorReport :=
  {| ar_ledger := sample_ledger_path; ar_ledger_id := "ledger"; ar_disposition := Appended;
     ar_checkpoint := st_checkpoint session_stored; ar_segments_processed := 1 |}.

(** ** Laws *)

Lemma weight_bound acc s : (acc < 2 ^ 64)%N → (weight acc s < 2 ^ 64)%N.
Proof. revert acc. induction s as [|c s IH]; intros acc Hacc; [done|]. cbn [weight]. apply IH. by apply N.mod_lt. Qed.

Lemma sample_hash_length s : String.length (sample_hash s) = 64.
Proof.
  unfold sample_hash, padded. rewrite str_length_app, leading_zeros_length.
  assert (String.length (pretty (weight 0 s)) ≤ 20).
  { apply pretty_width. eapply N.lt_trans; [by apply weight_bound|]. done. }
  lia.
Qed.

Lemma session_json_line s payload :
  session_json s = Ok payload → one_line payload ∧ (len payload < MAX_RECORD_BYTES)%N ∧ session_parse payload = Some s.
Proof.
  unfold session_json. destruct (table_name records_table s) as [name|] eqn:E; [|done]. intros [= <-].
  apply table_back in E as (H1 & H2 & H3); [|by vm_compute]. split_and!; [done| |done].
  eapply N.lt_le_trans; [exact H2|]. by vm_compute.
Qed.

Lemma session_request_framed q payload : request_json q = Ok payload → framed request_json request_parse q payload.
Proof.
  intros H. unfold framed. split; [done|]. revert H. unfold request_json, request_parse, session_codec.
  destruct (table_name requests_table q) as [name|] eqn:E; [|done]. intros [= <-].
  apply table_back in E as (H1 & H2 & ->); [|by vm_compute]. split_and!; [done|by apply N.lt_le_incl|done].
Qed.

Lemma session_response_framed r payload : response_json r = Ok payload → framed response_json response_parse r payload.
Proof.
  intros H. unfold framed. split; [done|]. revert H. unfold response_json, response_parse, session_codec.
  destruct (table_name responses_table r) as [name|] eqn:E; [|done]. intros [= <-].
  apply table_back in E as (H1 & H2 & ->); [|by vm_compute]. split_and!; [done|by apply N.lt_le_incl|done].
Qed.
