(* ===== verification/CheckpointTheorems.v ===== *)
(** * Theorems about checkpoints

    What a request must carry, what an accepted directory vouches for, that an anchor happens
    as a whole or not at all and stays, whatever fails and however processes interleave. *)

From S2P Require Import Prelude RustStr RiskPaths RustText Disk Omnis CheckpointModel CheckpointStore CheckpointChain CheckpointDisk CheckpointPublish CheckpointSample.

(** ** Requests *)

(** C18 (functional). A request for a checkpoint is accepted exactly when its fields are in form
    and its links are an unbroken segment of the receipt chain that ends in the observed
    receipt: numbered one after the other, each with the hash of the one before as its
    parent, from receipt 1 without a parent when there is no earlier checkpoint, and from a
    later receipt with a parent when there is one. *)
Theorem anchor_requests_are_receipt_segments request :
  (aq_observed_receipt_sequence request < 2 ^ 64)%N →
  validate_anchor_request request = Ok tt
  ↔ fields_ok request
    ∧ ∃ parent first, segment request parent first ∧ begins (aq_prior_checkpoint_hash request) parent first.
Proof.
  intros Hmax. split.
  - intros (Hf & _ & Hs)%validated_request. done.
  - intros (Hf & parent & first & Hs & Hb). apply validate_anchor_request_split.
    assert (Forall (λ link, validate_link link = Ok tt) (aq_continuity request)
            ∧ (0 < N.of_nat (length (aq_continuity request)))%N) as [Hl Hn] by (unfold fields_ok in Hf; naive_solver lia).
    split_and!; [done| |by eapply validate_segment_complete].
    destruct Hs as (Hc & Hsum & _). destruct (aq_continuity request) as [|a links]; [done|]. destruct Hc as (Ha & _).
    apply Forall_cons in Hl as [Hl _]. unfold validate_link in Hl. apply fail_if_Ok in Hl as [Hpos%N.eqb_neq _]. cbn [length] in *. lia.
Qed.

(** ** Directories *)

Section theorems.
Context {prim : Primitives}.
Context (json_stored : StoredCheckpoint → result string string) (parse_stored : string → option StoredCheckpoint).
Context (listed : list string → list string).
Context (store : AuthorityStore).
Abbreviation config := (as_config store).
Abbreviation holds := (holds parse_stored store).

(** What is relied on: the serializer writes one line that is read back, a directory is listed in
    some order, the key pair is that of the key file and trusted, and neither key file is in
    the directory of records. *)
Record trusted : Prop := {
  tr_json s payload : json_stored s = Ok payload →
    one_line payload ∧ (len payload < MAX_RECORD_BYTES)%N ∧ parse_stored payload = Some s;
  tr_listed names : listed names ≡ₚ names;
  tr_identity : from_pkcs8 (as_private_key_bytes store) = Ok (as_signing_identity store);
  tr_public_key : si_public_key (as_signing_identity store) = as_public_key store;
  tr_apart : entry_name (records_dir (sc_paths config)) (signing_key_path (sc_paths config)) = None
             ∧ entry_name (records_dir (sc_paths config)) (trust_public_key_path (sc_paths config)) = None;
}.

(** C10 (safety). An authority vouches for one receipt chain: in a directory that is accepted, the
    segments of the checkpoints, one after the other, are a single chain of receipts that
    starts at receipt 1, has no gap and no fork, and ends at the receipt that the last
    checkpoint observed; every checkpoint is for the configured ledger and client, has the
    hash of the one before as its parent and its place as its number, and verifies under
    the trusted key. *)
Theorem an_authority_vouches_for_one_receipt_chain d chain d' :
  (∀ names, listed names ≡ₚ names) →
  load_chain parse_stored listed store d = (Ok chain, d') →
  chained None 1 (links_of chain)
  ∧ ∀ i s, chain !! i = Some s →
      let record := sc_record (st_checkpoint s) in
      cr_observed_receipt_sequence record = N.of_nat (length (links_of (take (S i) chain)))
      ∧ end_hash None (links_of (take (S i) chain)) = Some (cr_observed_receipt_head record)
      ∧ cr_checkpoint_sequence record = N.of_nat (S i)
      ∧ cr_parent_checkpoint_hash record = sc_record_hash ∘ st_checkpoint <$> last (take i chain)
      ∧ request_digest (st_request s) = Ok (cr_request_digest record)
      ∧ verify_checkpoint (st_checkpoint s) (as_public_key store) = Ok tt
      ∧ cr_ledger_id record = sc_allowed_ledger_id config ∧ cr_peer_uid record = sc_allowed_peer_uid config.
Proof.
  intros Hperm H. pose proof (reads_load_chain parse_stored listed Hperm store (d_files d) d eq_refl) as (_ & _ & Hh).
  rewrite H in Hh. specialize (Hh _ eq_refl). pose proof (ho_valid _ _ _ _ Hh) as Hv.
  split; [exact (valid_chained _ _ 0 None chain Hv)|]. intros i s Hs record.
  pose proof (take_S_r _ _ _ Hs) as Ht. rewrite <-(take_drop (S i) chain) in Hv. apply valid_from_app in Hv as [Hv _].
  rewrite Ht in Hv |- *. destruct (valid_links _ _ 0 None (take i chain ++ [s]) s Hv (last_snoc _ _)) as [Hend Hsum].
  apply valid_from_snoc in Hv as [_ Hok]. rewrite length_take_le in Hok by (apply lookup_lt_Some in Hs; lia).
  subst record. unfold last_of in Hok. change (sc_record (st_checkpoint s)) with (record_of s).
  split_and!; [simpl in Hsum; lia|exact Hend|by destruct Hok..| | | | |]; try by destruct Hok.
  rewrite (so_parent _ _ _ _ _ Hok). by destruct (last (take i chain)).
Qed.

Context {laws : PrimitiveLaws}.
Abbreviation anchor_at pid nonce := (anchor_at json_stored parse_stored listed pid nonce store).

(** C15 (safety). An anchor happens as a whole or not at all: when any system call fails, and in
    every state of the files in which the process may stop, the directory holds the chain it
    held or that chain and one checkpoint of the request; and when the anchor returns, the
    checkpoint it returns is recorded for the request, as the last one when it was appended
    and in an unchanged chain when it existed. *)
Theorem an_anchor_is_whole_or_absent d chain pid nonce peer_uid request now :
  trusted → holds (d_files d) chain →
  let r := anchor_at pid nonce peer_uid request now d in
  seen_between (anchored_or_not parse_stored store request chain) (d_trace d) (d_trace r.2)
  ∧ anchored_or_not parse_stored store request chain (d_files r.2)
  ∧ ∀ outcome, r.1 = Ok outcome → anchor_result parse_stored store request chain outcome (d_files r.2).
Proof.
  intros [Hjson Hperm Hid Hpk Hapart] Hh r.
  destruct (anchor_guarded json_stored parse_stored listed Hjson Hperm store Hid Hpk Hapart pid nonce peer_uid request now chain d Hh)
    as [Hseen Hr]. fold r in Hseen, Hr. split; [done|]. destruct (r.1) as [outcome|e] eqn:E.
  - split; [|by intros ? [= <-]]. destruct Hr as (chain' & Hh' & Hrec & ->). destruct (an_disposition outcome); [|by left].
    right. by exists {| st_request := request; st_checkpoint := an_checkpoint outcome |}.
  - split; [done|]. by intros ? [=].
Qed.

(** ** Several processes *)

(** A checkpoint that was signed and is not published yet. *)
Record Pending := { pe_request : AnchorRequest; pe_sequence : N; pe_checkpoint : SignedCheckpoint }.

Definition stored_of (p : Pending) : StoredCheckpoint := {| st_request := pe_request p; st_checkpoint := pe_checkpoint p |}.

Definition disk_with (fs : Files) (faults : list Fault) : Disk := {| d_files := fs; d_faults := faults; d_trace := [] |}.

(** Processes of one authority share the directory: one prepares a checkpoint from what it reads,
    or publishes one that it prepared, before or after others did the same; calls may fail,
    and a process may stop in any state that its publishing goes through. *)
Inductive served : Files * list Pending → Files * list Pending → Prop :=
| served_prepare fs ps faults peer_uid request now sequence checkpoint d :
    prepare_anchor parse_stored listed store peer_uid request now (disk_with fs faults) = (Ok (Unpublished sequence checkpoint), d) →
    served (fs, ps) (fs, {| pe_request := request; pe_sequence := sequence; pe_checkpoint := checkpoint |} :: ps)
| served_publish fs ps1 p ps2 faults pid nonce fs' :
    let d := (publish_record json_stored pid nonce store (pe_sequence p) (stored_of p) (disk_with fs faults)).2 in
    fs' = d_files d ∨ fs' ∈ d_trace d → served (fs, ps1 ++ p :: ps2) (fs', ps1 ++ ps2).

Definition serving (chain0 : list StoredCheckpoint) (x : Files * list Pending) : Prop :=
  ∃ chain, holds x.1 chain ∧ chain0 `prefix_of` chain
    ∧ Forall (λ p, ∃ prepared, prepared `prefix_of` chain ∧ continues store prepared (pe_sequence p) (stored_of p)) x.2.

Lemma served_serving chain0 x y : trusted → serving chain0 x → served x y → serving chain0 y.
Proof.
  intros [Hjson Hperm Hid Hpk Hapart] (chain & Hh & Hpre & Hps) Hstep.
  destruct Hstep as [fs ps faults peer_uid request now sequence checkpoint d E|fs ps1 p ps2 faults pid nonce fs' d Hfs'].
  - exists chain. split_and!; [done..|]. apply Forall_cons. split; [|done]. exists chain. split; [done|].
    destruct (reads_prepare parse_stored listed Hperm store Hid Hpk Hapart fs peer_uid request now (disk_with fs faults) eq_refl) as (_ & _ & Hp).
    rewrite E in Hp. destruct (Hp _ eq_refl) as (chain' & Hh' & Hc).
    by pose proof (holds_unique _ _ Hperm _ _ _ _ Hh Hh') as <-.
  - simpl in Hps. apply Forall_app in Hps as [Hps1 [(prepared & Hprep & Hc) Hps2]%Forall_cons].
    destruct (record_publish_guarded json_stored parse_stored Hjson store Hapart pid nonce prepared chain (pe_sequence p) (stored_of p) Hc Hprep
                (disk_with fs faults) Hh) as [(seen & Ht & Hseen) Hend].
    assert (published_or_not parse_stored store prepared chain (stored_of p) fs') as [Hh'|[-> Hh']].
    { destruct Hfs' as [->|Hin].
      - subst d. destruct (publish_record _ _ _ _ _ _ _) as [[[]|e] d']; simpl in *; [by right|destruct Hend; by left|done].
      - subst d. rewrite Ht in Hin. simpl in Hin. by eapply Forall_forall in Hseen. }
    + exists chain. split_and!; [done..|]. by apply Forall_app.
    + exists (prepared ++ [stored_of p]). split_and!; [done|by apply prefix_app_r|].
      apply Forall_app; split; (eapply Forall_impl; [eassumption|]); intros q (pq & Hpq & Hq); exists pq; split; try done; by apply prefix_app_r.
Qed.

(** C16 (invariant). Checkpoints are permanent: however the processes of an authority interleave,
    fail and stop, the directory holds a chain that begins with the one it held before, so
    that a request which was recorded is found with the same checkpoint ever after, by a
    lookup and by repeating the request at any later time. *)
Theorem acknowledged_checkpoints_are_permanent fs0 chain0 fs ps id s :
  trusted → holds fs0 chain0 → rtc served (fs0, []) (fs, ps) → find_request id chain0 = Some s →
  (∃ chain, holds fs chain ∧ chain0 `prefix_of` chain)
  ∧ ∀ d, healthy d → d_files d = fs →
      lookup_request parse_stored listed store id d = (Ok (Some (st_checkpoint s)), d)
      ∧ ∀ pid nonce peer_uid now, check_anchor store peer_uid (st_request s) now = Ok tt →
          anchor_at pid nonce peer_uid (st_request s) now d = (Ok {| an_disposition := Existing; an_checkpoint := st_checkpoint s |}, d).
Proof.
  intros Htr Hh0 Hsteps Hfind.
  assert (serving chain0 (fs, ps)) as (chain & Hh & Hpre & _).
  { apply (rtc_ind_r (serving chain0) (fs0, [])) in Hsteps; [done| |by eauto using served_serving]. exists chain0. by split_and!. }
  split; [by exists chain|]. intros d Hd <-. destruct Hpre as [rest Hrest]. simpl in Hh.
  assert (find_request id chain = Some s) as Hf by (rewrite Hrest; by apply find_request_app).
  destruct (find_request_Some _ _ _ Hf) as [Hin Hid]. pose proof Hin as [i Hi]%list_elem_of_lookup.
  pose proof (valid_from_lookup _ _ _ _ _ _ _ (ho_valid _ _ _ _ Hh) Hi) as Hok.
  pose proof (load_chain_healthy _ _ (tr_listed Htr) store d chain Hd Hh) as Hload. split.
  - unfold lookup_request. assert (validate_request_id id = Ok tt) as ->.
    { pose proof (so_request _ _ _ _ _ Hok) as ((_ & Hr & _) & _)%validated_request. unfold validate_request_id. by rewrite <-Hid, Hr. }
    rewrite (io_bind_run _ _ d () d) by done. rewrite (io_bind_run _ _ _ _ _ Hload). by rewrite Hf.
  - intros pid nonce peer_uid now Hcheck. exact (anchor_finds _ _ _ (tr_listed Htr) _ _ _ _ _ _ _ _ Hd Hh Hin Hcheck).
Qed.

(** C17 (liveness). An anchor that failed can be repeated: whatever failed, and wherever the process
    stopped, once the calls work again an acceptable request is answered with a checkpoint of
    it that is then recorded, by a process whose temporary file is not there: it is appended,
    or it is found when the failed anchor had published it. *)
Theorem a_failed_anchor_can_be_repeated d chain pid nonce pid2 nonce2 peer_uid request now now2 sequence checkpoint payload fs d2 :
  trusted → holds (d_files d) chain →
  (let d' := (anchor_at pid nonce peer_uid request now d).2 in
   ∃ seen, d_trace d' = d_trace d ++ seen ∧ (fs = d_files d' ∨ fs ∈ seen)) →
  check_anchor store peer_uid request now2 = Ok tt →
  answer_request store chain peer_uid request now2 = Ok (Unpublished sequence checkpoint) →
  json_stored {| st_request := request; st_checkpoint := checkpoint |} = Ok payload →
  healthy d2 → d_files d2 = fs → fs !! record_path store (temp_name sequence pid2 nonce2) = None →
  let r := anchor_at pid2 nonce2 peer_uid request now2 d2 in
  ∃ outcome chain', r.1 = Ok outcome ∧ holds (d_files r.2) chain' ∧ chain `prefix_of` chain'
    ∧ find_request (aq_request_id request) chain' = Some {| st_request := request; st_checkpoint := an_checkpoint outcome |}.
Proof.
  intros [Hjson Hperm Hid Hpk Hapart] Hh (seen & Ht & Hfs) Hcheck Hans Hpayload Hd2 <- Htemp r.
  destruct (anchor_guarded json_stored parse_stored listed Hjson Hperm store Hid Hpk Hapart pid nonce peer_uid request now chain d Hh)
    as [(seen' & Ht' & Hseen) Hr]. rewrite Ht in Ht'. apply app_inv_head in Ht' as <-.
  assert (anchored_or_not parse_stored store request chain (d_files d2)) as [Hh2|(s & <- & Hh2)].
  { destruct Hfs as [->|Hin]; [|by eapply Forall_forall in Hseen]. destruct (_.1) as [outcome|e]; [|done].
    destruct Hr as (chain' & Hh' & _ & ->). destruct (an_disposition outcome); [|by left]. right. by eexists {| st_request := request |}. }
  - pose proof (anchor_appends json_stored parse_stored listed Hjson Hperm store Hid Hpk Hapart pid2 nonce2 d2 chain peer_uid request now2
                  sequence checkpoint payload Hd2 Hh2 Hcheck Hans Hpayload Htemp) as E. fold r in E.
    destruct (anchor_guarded json_stored parse_stored listed Hjson Hperm store Hid Hpk Hapart pid2 nonce2 peer_uid request now2 chain d2 Hh2)
      as [_ Hr2]. fold r in Hr2. rewrite E in Hr2. destruct Hr2 as (chain' & Hh' & Hrec & ->).
    eexists _, _. split_and!; [done..|by apply prefix_app_r|done].
  - assert (s ∈ chain ++ [s]) as Hin by (apply elem_of_app; right; by left).
    pose proof (anchor_finds json_stored _ _ Hperm store pid2 nonce2 _ _ _ _ _ Hd2 Hh2 Hin Hcheck) as E. subst r. rewrite E.
    exists (existing s), (chain ++ [s]). split_and!; [done..|by apply prefix_app_r|].
    apply existing_recorded; [|done]. apply find_request_in; [|done]. by eapply ho_ids.
Qed.
End theorems.

(** ** At sample checkpoints *)

Lemma anchor_requests_are_receipt_segments_witness :
  (aq_observed_receipt_sequence request_b < 2 ^ 64)%N
  ∧ (validate_anchor_request request_b = Ok tt
     ↔ fields_ok request_b
       ∧ ∃ parent first, segment request_b parent first ∧ begins (aq_prior_checkpoint_hash request_b) parent first).
Proof. split; [by vm_compute|]. apply (anchor_requests_are_receipt_segments request_b). by vm_compute. Defined.

Lemma an_authority_vouches_for_one_receipt_chain_witness :
  (sample_load (sample_disk [] ["checkpoint a"; "checkpoint b"])).1 = Ok [stored_a; stored_b]
  ∧ chained None 1 (links_of [stored_a; stored_b]).
Proof.
  assert ((sample_load (sample_disk [] ["checkpoint a"; "checkpoint b"])).1 = Ok [stored_a; stored_b]) as E by (vm_compute; reflexivity).
  split; [exact E|].
  apply (an_authority_vouches_for_one_receipt_chain sample_parse sample_listed sample_store
           (sample_disk [] ["checkpoint a"; "checkpoint b"]) [stored_a; stored_b]
           (sample_load (sample_disk [] ["checkpoint a"; "checkpoint b"])).2).
  - reflexivity.
  - rewrite <-E. apply surjective_pairing.
Defined.

Lemma sample_trusted : trusted sample_json sample_parse sample_listed sample_store.
Proof. split; [apply sample_json_line|reflexivity|done|done|done]. Qed.

Definition sample_after_fault : Disk :=
  sample_disk (replicate 25 Works ++ [FailsAfter 0]) ["checkpoint a"].

Lemma an_anchor_is_whole_or_absent_witness :
  trusted sample_json sample_parse sample_listed sample_store
  ∧ holds sample_parse sample_store (d_files sample_after_fault) [stored_a]
  ∧ anchored_or_not sample_parse sample_store request_b [stored_a] (d_files (sample_anchor 7 0 request_b 2000 sample_after_fault).2).
Proof.
  assert (holds sample_parse sample_store (d_files sample_after_fault) [stored_a]) as Hh
    by (apply (sample_holds ["checkpoint a"]); vm_compute; reflexivity).
  split_and!; [apply sample_trusted|exact Hh|].
  apply (an_anchor_is_whole_or_absent sample_json sample_parse sample_listed sample_store sample_after_fault [stored_a] 7 0 501 request_b 2000
           sample_trusted Hh).
Defined.

(** A process prepared a checkpoint and published it. *)
Definition sample_pending : Pending := {| pe_request := request_b; pe_sequence := 2; pe_checkpoint := st_checkpoint stored_b |}.

Definition sample_published : Files :=
  d_files (publish_record sample_json 7 0 sample_store 2 stored_b (disk_with (sample_files ["checkpoint a"]) [])).2.

Lemma sample_served :
  rtc (served sample_json sample_parse sample_listed sample_store) (sample_files ["checkpoint a"], []) (sample_published, []).
Proof.
  eapply rtc_l; [|apply rtc_once].
  - apply (served_prepare _ _ _ _ _ _ [] 501 request_b 2000 2 (st_checkpoint stored_b)
             (disk_with (sample_files ["checkpoint a"]) [])). vm_compute. reflexivity.
  - apply (served_publish _ _ _ _ _ [] sample_pending [] [] 7 0). left. reflexivity.
Qed.

Lemma acknowledged_checkpoints_are_permanent_witness :
  find_request "a" [stored_a] = Some stored_a
  ∧ ∃ chain, holds sample_parse sample_store sample_published chain ∧ [stored_a] `prefix_of` chain.
Proof.
  split; [vm_compute; reflexivity|].
  apply (acknowledged_checkpoints_are_permanent sample_json sample_parse sample_listed sample_store
           (sample_files ["checkpoint a"]) [stored_a] sample_published [] "a" stored_a sample_trusted).
  - apply sample_holds. vm_compute. reflexivity.
  - exact sample_served.
  - vm_compute. reflexivity.
Defined.

(** The anchor published the checkpoint, and a call failed after that. *)
Definition sample_failed : Disk := (sample_anchor 7 0 request_b 2000 sample_after_fault).2.

Lemma a_failed_anchor_can_be_repeated_witness :
  (sample_anchor 7 0 request_b 2000 sample_after_fault).1 = Err os_error
  ∧ ∃ outcome chain', (sample_anchor 8 0 request_b 2000 {| d_files := d_files sample_failed; d_faults := []; d_trace := [] |}).1 = Ok outcome
      ∧ find_request "b" chain' = Some {| st_request := request_b; st_checkpoint := an_checkpoint outcome |}.
Proof.
  split; [vm_compute; reflexivity|].
  destruct (a_failed_anchor_can_be_repeated sample_json sample_parse sample_listed sample_store sample_after_fault [stored_a] 7 0 8 0 501
              request_b 2000 2000 2 (st_checkpoint stored_b) "checkpoint b" (d_files sample_failed)
              {| d_files := d_files sample_failed; d_faults := []; d_trace := [] |} sample_trusted) as (outcome & chain' & H1 & _ & _ & H2).
  - apply (sample_holds ["checkpoint a"]). vm_compute. reflexivity.
  - eexists. split; [|left; reflexivity]. symmetry. apply app_nil_l.
  - vm_compute. reflexivity.
  - vm_compute. reflexivity.
  - vm_compute. reflexivity.
  - reflexivity.
  - reflexivity.
  - vm_compute. reflexivity.
  - exists outcome, chain'. split; [exact H1|exact H2].
Defined.
