(* ===== verification/CheckpointClientTheorems.v ===== *)
(** * Theorems about anchoring the ledger

    Clients, commands and the daemon: what a client believes, when anchoring ends, what it
    protects the ledger from, and that the daemon answers with what the store does. *)

From S2P Require Import Prelude RustStr RiskPaths RustText Disk Omnis OmnisChain CheckpointModel CheckpointStore CheckpointChain CheckpointDisk CheckpointPublish CheckpointIpc CheckpointDaemon CheckpointCli CheckpointClient CheckpointServe CheckpointSample CheckpointTheorems.

(** ** Whatever the server is *)

Section any_server.
Context {prim : Primitives} {codec : Codec} {J : Type}.
Context (json_bytes : J → result string string) (debug_str : string → string) (receipt_parse : string → result (Receipt J) string).
Context (client : CheckpointClient) (public_key ledger_id ledger_path : string) (uid : N).
Abbreviation trusting := (trusting client public_key ledger_id ledger_path uid).
Abbreviation vouched := (vouched public_key ledger_id ledger_path uid).
Abbreviation run_anchor identity talk := (run_anchor (codec:=codec) identity talk json_bytes debug_str receipt_parse client).
Abbreviation run_verify_anchored identity talk :=
  (run_verify_anchored (codec:=codec) identity talk json_bytes debug_str receipt_parse client).

(** Every client of an activation has it. *)
Lemma production_client_trusts parse_activation geteuid d c d' :
  production_client parse_activation geteuid d = (Ok c, d') →
  ∃ key ledger path, CheckpointClient.trusting c key ledger path geteuid.
Proof.
  unfold production_client. cbv zeta. intros (? & d1 & _ & H)%io_bind_Ok. apply io_bind_Ok in H as (a & d2 & _ & H).
  apply io_bind_Ok in H as (? & d3 & _ & H). destruct (N.eqb_spec (am_allowed_client_uid a) geteuid) as [<-|]; [|done]. cbn [negb] in H.
  apply io_bind_Ok in H as (? & d4 & _ & H). apply io_bind_Ok in H as (key & d5 & _ & [= <- _]). by eexists _, _, _.
Qed.

(** C13 (safety). A client that has the trusted key believes nothing that the key has not signed:
    whatever answers on the socket, a checkpoint that an anchor, a lookup or a status returns
    verifies under the key and is one of the authority for the client's ledger and user; an
    anchor returns a checkpoint of exactly its request, and a lookup one of the request that
    it names. *)
Theorem clients_trust_only_signed_answers identity talk :
  trusting →
  (∀ request d success d', client_anchor identity talk client request d = (Ok success, d') →
     ∃ disposition c, success = AnchorSuccess disposition c ∧ vouched c ∧ answers request c)
  ∧ (∀ id d c d', client_lookup identity talk client id d = (Ok (Some c), d') → vouched c ∧ cr_request_id (sc_record c) = id)
  ∧ (∀ id d success d', client_status identity talk client id d = (Ok success, d') →
       ∃ path latest, success = StatusSuccess AUTHORITY_ID ledger_id path (signing_key_id public_key) latest
         ∧ path_eq path ledger_path = true ∧ ∀ c, latest = Some c → vouched c).
Proof.
  intros trust. split_and!; intros.
  - by eapply client_anchor_Ok.
  - by eapply client_lookup_Ok.
  - by eapply client_status_Ok.
Qed.

(** C14 (termination). Anchoring ends: whatever the server answers, the loop over the segments of a
    ledger has at most one turn for each receipt and one more, since an answer that is
    accepted covers the segment that was sent. *)
Theorem anchoring_ends identity talk request_id d :
  trusting → (len (default "" (d_files d !! ledger_path)) + 1 < 2 ^ 64)%N →
  (run_anchor identity talk request_id d).1 ≠ Ok None.
Proof. intros trust. by apply (run_anchor_end _ _ _ _ _ _ _ _ _ _ trust). Qed.

(** C11 (safety). An anchored ledger cannot be rewritten unnoticed: when an anchor has succeeded, the
    checkpoint is signed for its request and observed the head of the ledger that is then on
    disk; and when that checkpoint is later compared with the ledger, by this or another
    server, and the comparison succeeds, the ledger begins with the same receipts in every
    field but their payloads, or two of the receipts show a collision of SHA-256. *)
Theorem an_anchored_ledger_cannot_be_rewritten identity1 talk1 identity2 talk2 request_id d1 report d1' d2 count d2' rs1 rs2 :
  trusting → (∀ s, String.length (sha256_hex s) = 64) →
  run_anchor identity1 talk1 request_id d1 = (Ok (Some report), d1') →
  run_verify_anchored identity2 talk2 d2 = (Ok (ar_checkpoint report, count), d2') →
  ledger_is json_bytes receipt_parse (d_files d1') ledger_path rs1 →
  ledger_is json_bytes receipt_parse (d_files d2') ledger_path rs2 →
  vouched (ar_checkpoint report) ∧ cr_request_id (sc_record (ar_checkpoint report)) = request_id
  ∧ at_head (ar_checkpoint report) rs1 ∧ count = length rs2
  ∧ (map committed rs1 = map committed (take (length rs1) rs2) ∨ collision sha256_hex rs1 rs2).
Proof.
  intros trust Hsha Hrun Hverify H1 H2.
  apply (run_anchor_Ok _ _ _ _ _ _ _ _ _ _ trust) in Hrun as (Hv & Hid & _ & _ & rs & Hrs & Hhead).
  apply (run_verify_anchored_Ok _ _ _ _ _ _ _ _ _ _ trust) in Hverify as (_ & rs' & Hrs' & -> & Hlocal).
  rewrite (ledger_unique _ _ _ _ _ _ Hrs H1) in Hhead. rewrite (ledger_unique _ _ _ _ _ _ Hrs' H2) in Hlocal |- *.
  split_and!; [done..|]. eapply (one_checkpoint_one_ledger json_bytes Hsha); [apply H1|apply H2|done..].
Qed.
End any_server.

(** ** The daemon *)

Section with_daemon.
Context {prim : Primitives} {laws : PrimitiveLaws} {codec : Codec}.
Context (parse_activation : string → option ActivationManifest) (identity : Io ProcessIdentity).
Context (json_stored : StoredCheckpoint → result string string) (parse_stored : string → option StoredCheckpoint).
Context (listed : list string → list string).
Context (config : DaemonConfig) (startup : LoadedActivation) (store : AuthorityStore) (client : CheckpointClient).
Abbreviation activation := (la_manifest startup).
Abbreviation uid := (am_allowed_client_uid activation).
Abbreviation trusted := (trusted json_stored parse_stored listed store).
Abbreviation holds := (holds parse_stored store).
Abbreviation vouched := (vouched (as_public_key store) (am_allowed_ledger_id activation) (am_receipt_ledger_path activation) uid).

(** The serializers of messages write frames that are read back. *)
Record messages_fit : Prop := {
  mf_request q payload : request_json q = Ok payload → framed request_json request_parse q payload;
  mf_response r payload : response_json r = Ok payload → framed response_json response_parse r payload;
}.

(** The daemon opened the store for its activation, and the client was set up by the same
    one. *)
Record together : Prop := {
  to_store : as_config store = store_config config activation;
  to_key : si_key_id (as_signing_identity store) = signing_key_id (as_public_key store);
  to_client : trusting client (as_public_key store) (am_allowed_ledger_id activation) (am_receipt_ledger_path activation) uid;
}.

Lemma path_eq_refl p : path_eq p p = true.
Proof. by apply bool_decide_eq_true. Qed.

Lemma stored_vouched n previous s :
  together → stored_ok (as_config store) (as_public_key store) n previous s →
  vouched (st_checkpoint s) ∧ answers (st_request s) (st_checkpoint s).
Proof.
  intros [Hc _ _] Hok. destruct Hok. unfold record_of in *. rewrite Hc in *. cbn [store_config sc_authority_id sc_allowed_peer_uid
    sc_allowed_ledger_id sc_allowed_receipt_ledger_path] in *. split; split; try congruence.
  rewrite so_path. apply path_eq_refl.
Qed.

Lemma chain_vouched fs chain s :
  together → holds fs chain → s ∈ chain → vouched (st_checkpoint s) ∧ answers (st_request s) (st_checkpoint s)
    ∧ validate_anchor_request (st_request s) = Ok tt.
Proof.
  intros Hto Hh [i Hi]%list_elem_of_lookup. pose proof (valid_from_lookup _ _ _ _ _ _ _ (ho_valid _ _ _ _ Hh) Hi) as Hok.
  destruct (stored_vouched _ _ _ Hto Hok). split_and!; [done..|]. apply Hok.
Qed.

Abbreviation server := (io_ret (cl_expected_server_uid client, cl_expected_server_gid client)).

Section exchanges.
Context (pid nonce now : N) (d : Disk) (chain : list StoredCheckpoint).
Context (Htr : trusted) (Hfit : messages_fit) (Hto : together) (Hd : healthy d) (Hh : holds (d_files d) chain)
  (Hact : activated parse_activation identity config startup uid d).
Abbreviation talk := (daemon parse_activation identity json_stored parse_stored listed config startup store pid nonce uid now).
Abbreviation answer_of := (answer_of json_stored parse_stored listed startup store pid nonce uid now).

Lemma asks request q r :
  validate_envelope request = Ok tt → request_json request = Ok q → response_json (answer_of request d).1 = Ok r →
  exchange_response server talk client request d = (Ok (answer_of request d).1, (answer_of request d).2).
Proof.
  intros Henv Hq Hr. eapply exchange_with_daemon; [done..|by apply (mf_request Hfit)|by apply (mf_response Hfit)].
Qed.

Lemma valid_id id : is_identity 256 id = true → validate_frame_request_id id = Ok tt.
Proof. intros H. unfold validate_frame_request_id. by rewrite H. Qed.

Lemma status_answer id q r :
  is_identity 256 id = true → request_json (StatusRequest IPC_PROTOCOL id) = Ok q →
  response_json (success_response id (status_of startup store (st_checkpoint <$> last chain))) = Ok r →
  client_status server talk client id d = (Ok (status_of startup store (st_checkpoint <$> last chain)), d).
Proof.
  intros Hid Hq Hr. unfold client_status, status_request. rewrite (valid_id _ Hid).
  rewrite (io_bind_run _ _ d (StatusRequest IPC_PROTOCOL id) d) by done. unfold exchange.
  assert (validate_envelope (StatusRequest IPC_PROTOCOL id) = Ok tt) as Henv by exact (valid_id _ Hid).
  rewrite Henv. rewrite (io_bind_run _ _ d () d) by done.
  assert (answer_of (StatusRequest IPC_PROTOCOL id) d
          = (success_response id (status_of startup store (st_checkpoint <$> last chain)), d)) as Hans.
  { unfold CheckpointServe.answer_of, latest.
    by rewrite (io_bind_run _ _ _ _ _ (load_chain_healthy _ _ (tr_listed _ _ _ _ Htr) _ _ _ Hd Hh)). }
  pose proof (asks (StatusRequest IPC_PROTOCOL id) q r Henv Hq) as Hask. rewrite Hans in Hask. cbn [fst snd] in Hask.
  rewrite (io_bind_run _ _ _ _ _ (Hask Hr)). unfold io_of, accept_success, success_response. cbn [response_protocol request_id_of].
  rewrite !String.eqb_refl. cbn [negb].
  assert (validate_trusted_success client (StatusRequest IPC_PROTOCOL id) (status_of startup store (st_checkpoint <$> last chain)) = Ok tt)
    as ->; [|done].
  apply (trusted_success_Ok _ _ _ _ _ (to_client Hto)). unfold status_of. split_and!; [done|done|apply path_eq_refl|apply Hto|].
  intros c Hc. destruct (last chain) as [s|] eqn:El; [|done]. injection Hc as <-. apply last_Some_elem_of in El.
  by apply (chain_vouched _ _ _ Hto Hh El).
Qed.

Lemma lookup_answer id q r :
  is_identity 256 id = true → request_json (LookupRequest IPC_PROTOCOL id) = Ok q →
  response_json (lookup_success id (st_checkpoint <$> find_request id chain)) = Ok r →
  client_lookup server talk client id d = (Ok (st_checkpoint <$> find_request id chain), d).
Proof.
  intros Hid Hq Hr. unfold client_lookup, lookup_request_for. rewrite (valid_id _ Hid).
  rewrite (io_bind_run _ _ d (LookupRequest IPC_PROTOCOL id) d) by done.
  assert (validate_envelope (LookupRequest IPC_PROTOCOL id) = Ok tt) as Henv by exact (valid_id _ Hid).
  rewrite Henv. rewrite (io_bind_run _ _ d () d) by done.
  assert (answer_of (LookupRequest IPC_PROTOCOL id) d = (lookup_success id (st_checkpoint <$> find_request id chain), d)) as Hans.
  { unfold CheckpointServe.answer_of, lookup_request.
    assert (validate_request_id id = Ok tt) as -> by (unfold validate_request_id; change MAX_REQUEST_ID_BYTES with 256%N; by rewrite Hid).
    rewrite (io_bind_run _ _ d () d) by done.
    by rewrite (io_bind_run _ _ _ _ _ (load_chain_healthy _ _ (tr_listed _ _ _ _ Htr) _ _ _ Hd Hh)). }
  pose proof (asks (LookupRequest IPC_PROTOCOL id) q r Henv Hq) as Hask. rewrite Hans in Hask. cbn [fst snd] in Hask.
  rewrite (io_bind_run _ _ _ _ _ (Hask Hr)). unfold io_of, accept_lookup, lookup_success. cbn [response_protocol request_id_of].
  rewrite !String.eqb_refl. cbn [negb]. unfold validate_trusted_lookup. destruct (to_client Hto) as [-> -> -> ->]. cbn [or_err].
  destruct (find_request id chain) as [s|] eqn:Ef; [|done]. cbn [fmap option_fmap option_map if_some].
  apply find_request_Some in Ef as [Hin <-]. destruct (chain_vouched _ _ _ Hto Hh Hin) as (Hv & Ha & _).
  apply vouched_Ok in Hv as [-> ->]. by rewrite (an_id _ _ Ha), String.eqb_refl.
Qed.

Lemma anchor_answer request outcome d' q r :
  anchor_at json_stored parse_stored listed pid nonce store uid request now d = (Ok outcome, d') →
  request_json (anchor_request request) = Ok q →
  response_json (success_response (aq_request_id request) (anchor_of outcome)) = Ok r →
  client_anchor server talk client request d = (Ok (anchor_of outcome), d').
Proof.
  intros Hanchor Hq Hr. destruct Htr as [Hjson Hperm Hidl Hpk Hapart].
  destruct (anchor_guarded json_stored parse_stored listed Hjson Hperm store Hidl Hpk Hapart pid nonce uid request now chain d Hh) as [_ Hres].
  rewrite Hanchor in Hres. destruct Hres as (chain' & Hh' & Hrec & _). apply find_request_Some in Hrec as [Hin _].
  destruct (chain_vouched _ _ _ Hto Hh' Hin) as (Hv & Ha & Hreq). cbn [st_checkpoint st_request] in Hv, Ha, Hreq.
  apply list_elem_of_lookup in Hin as [i Hi]. pose proof (valid_from_lookup _ _ _ _ _ _ _ (ho_valid _ _ _ _ Hh') Hi) as Hok.
  pose proof (so_ledger_bound _ _ _ _ _ Hok) as Hl. rewrite (so_ledger _ _ _ _ _ Hok) in Hl.
  pose proof (so_path_bound _ _ _ _ _ Hok) as Hp. rewrite (so_path _ _ _ _ _ Hok) in Hp. rewrite (to_store Hto) in Hl, Hp.
  cbn [st_request store_config sc_allowed_ledger_id sc_allowed_receipt_ledger_path] in Hl, Hp.
  unfold client_anchor. destruct (to_client Hto) as [_ Hc2 Hc3 _]. rewrite Hc2, Hc3, Hl, Hp, String.eqb_refl, path_eq_refl. cbn [negb].
  assert (validate_envelope (anchor_request request) = Ok tt) as Henv.
  { unfold validate_envelope, anchor_request. cbn [request_protocol request_id_of]. rewrite String.eqb_refl, Hreq. cbn [negb].
    apply valid_id. by apply validated_request in Hreq as ((_ & Hid & _) & _). }
  assert (answer_of (anchor_request request) d = (success_response (aq_request_id request) (anchor_of outcome), d')) as Hans.
  { unfold CheckpointServe.answer_of, anchor_request. by rewrite Hanchor. }
  unfold exchange. rewrite Henv. rewrite (io_bind_run _ _ d () d) by done.
  pose proof (asks (anchor_request request) q r Henv Hq) as Hask. rewrite Hans in Hask. cbn [fst snd] in Hask.
  rewrite (io_bind_run _ _ _ _ _ (Hask Hr)). unfold io_of, accept_success, success_response. cbn [response_protocol request_id_of anchor_request].
  rewrite !String.eqb_refl. cbn [negb].
  assert (validate_trusted_success client (anchor_request request) (anchor_of outcome) = Ok tt) as Hvalid
    by (by apply (trusted_success_Ok _ _ _ _ _ (to_client Hto))).
  by rewrite Hvalid.
Qed.
End exchanges.

(** C12 (refinement). What a client gets from the daemon is what the store does: when nothing fails
    and both were set up by one activation, a status over the socket is the last checkpoint of
    the chain, a lookup is the checkpoint of the request, and an anchor returns what the store
    returns and leaves the files that it leaves; the client refuses none of it. *)
Theorem the_client_gets_what_the_store_does pid nonce now d chain :
  trusted → messages_fit → together → healthy d → holds (d_files d) chain →
  activated parse_activation identity config startup uid d →
  let talk := daemon parse_activation identity json_stored parse_stored listed config startup store pid nonce uid now in
  (∀ id q r, is_identity 256 id = true → request_json (StatusRequest IPC_PROTOCOL id) = Ok q →
     response_json (success_response id (status_of startup store (st_checkpoint <$> last chain))) = Ok r →
     client_status server talk client id d = (Ok (status_of startup store (st_checkpoint <$> last chain)), d))
  ∧ (∀ id q r, is_identity 256 id = true → request_json (LookupRequest IPC_PROTOCOL id) = Ok q →
       response_json (lookup_success id (st_checkpoint <$> find_request id chain)) = Ok r →
       client_lookup server talk client id d = (Ok (st_checkpoint <$> find_request id chain), d))
  ∧ (∀ request outcome d' q r,
       anchor_at json_stored parse_stored listed pid nonce store uid request now d = (Ok outcome, d') →
       request_json (anchor_request request) = Ok q →
       response_json (success_response (aq_request_id request) (anchor_of outcome)) = Ok r →
       client_anchor server talk client request d = (Ok (anchor_of outcome), d')).
Proof.
  intros Htr Hfit Hto Hd Hh Hact talk. split_and!; intros.
  - by eapply status_answer.
  - by eapply lookup_answer.
  - by eapply anchor_answer.
Qed.
End with_daemon.

(** ** A sample session *)

Lemma session_trusting : trusting session_client sample_public_key "ledger" sample_ledger_path session_uid.
Proof. by split. Qed.

Lemma clients_trust_only_signed_answers_witness :
  trusting session_client sample_public_key "ledger" sample_ledger_path session_uid
  ∧ ∀ d c d', client_lookup session_server session_daemon session_client "anchor:1" d = (Ok (Some c), d') →
      verify_checkpoint c sample_public_key = Ok tt ∧ cr_request_id (sc_record c) = "anchor:1".
Proof.
  split; [exact session_trusting|]. intros d c d' H.
  destruct (clients_trust_only_signed_answers session_client sample_public_key "ledger" sample_ledger_path session_uid
              session_server session_daemon session_trusting) as (_ & Hlookup & _).
  destruct (Hlookup _ _ _ _ H) as [Hv Hid]. split; [apply Hv|exact Hid].
Defined.

Lemma anchoring_ends_witness :
  (len (default "" (d_files (session_disk []) !! sample_ledger_path)) + 1 < 2 ^ 64)%N
  ∧ (session_anchor (session_disk [])).1 ≠ Ok None.
Proof.
  split; [by vm_compute|].
  apply (anchoring_ends session_json_bytes session_debug session_receipt_parse session_client sample_public_key "ledger" sample_ledger_path
           session_uid session_server session_daemon "anchor:1" (session_disk []) session_trusting).
  by vm_compute.
Defined.

(** The disk after the anchor. *)
Definition session_anchored : Disk := (session_anchor (session_disk [])).2.

Lemma session_ledger_after :
  ledger_is session_json_bytes session_receipt_parse (d_files session_anchored) sample_ledger_path session_ledger.
Proof.
  assert (d_files session_anchored !! sample_ledger_path = Some ("receipt 1" +:+ newline)) as E by (vm_compute; reflexivity).
  unfold ledger_is. rewrite E. by split; vm_compute.
Qed.

Lemma session_verify_files : d_files (session_verify session_anchored).2 = d_files session_anchored.
Proof. vm_compute. reflexivity. Qed.

Lemma an_anchored_ledger_cannot_be_rewritten_witness :
  (session_anchor (session_disk [])).1 = Ok (Some session_report)
  ∧ (session_verify session_anchored).1 = Ok (ar_checkpoint session_report, 1)
  ∧ at_head (ar_checkpoint session_report) session_ledger.
Proof.
  assert ((session_anchor (session_disk [])).1 = Ok (Some session_report)) as E1 by (vm_compute; reflexivity).
  assert ((session_verify session_anchored).1 = Ok (ar_checkpoint session_report, 1)) as E2 by (vm_compute; reflexivity).
  split; [exact E1|]. split; [exact E2|].
  apply (an_anchored_ledger_cannot_be_rewritten session_json_bytes session_debug session_receipt_parse session_client sample_public_key
           "ledger" sample_ledger_path session_uid session_server session_daemon session_server session_daemon "anchor:1"
           (session_disk []) session_report session_anchored session_anchored 1 (session_verify session_anchored).2
           session_ledger session_ledger session_trusting).
  - exact sample_hash_length.
  - unfold session_anchored. rewrite <-E1. apply surjective_pairing.
  - rewrite <-E2. apply surjective_pairing.
  - exact session_ledger_after.
  - rewrite session_verify_files. exact session_ledger_after.
Defined.

Lemma session_trusted : trusted session_json session_parse sample_listed sample_store.
Proof. split; [apply session_json_line|reflexivity|done|done|done]. Qed.

Lemma session_fits : messages_fit.
Proof. split; [apply session_request_framed|apply session_response_framed]. Qed.

Lemma session_together : together session_config session_startup sample_store session_client.
Proof. by split. Qed.

Lemma the_client_gets_what_the_store_does_witness :
  activated session_parse_activation session_identity session_config session_startup session_uid (session_disk [])
  ∧ client_status session_server session_daemon session_client "status:anchor" (session_disk [])
    = (Ok (session_status None), session_disk []).
Proof.
  assert (activated session_parse_activation session_identity session_config session_startup session_uid (session_disk [])) as Hact.
  { split; [vm_compute; reflexivity|]. split; [vm_compute; reflexivity|reflexivity]. }
  split; [exact Hact|].
  destruct (the_client_gets_what_the_store_does session_parse_activation session_identity session_json session_parse sample_listed
              session_config session_startup sample_store session_client 7 0 1000 (session_disk []) []
              session_trusted session_fits session_together) as (Hstatus & _ & _).
  - reflexivity.
  - destruct (reads_load_chain session_parse sample_listed (λ names, reflexivity names) sample_store (d_files (session_disk []))
                (session_disk []) eq_refl) as (_ & _ & Hh).
    apply Hh. vm_compute. reflexivity.
  - exact Hact.
  - apply (Hstatus "status:anchor" "status" "empty"); vm_compute; reflexivity.
Defined.
