(* ===== verification/Messages.v ===== *)
(** * Messages between the sessions of a swarm

    crates/jcode-app-core/src/server/client_comm_message.rs, client_comm_channels.rs and
    swarm_channels.rs: direct messages, channels and broadcasts.  [idle] says which sessions
    have a live client and an agent that is not at work, so that a turn can be started. *)

From S2P Require Import MutationState.
From S2P Require Import Prelude RustStr RustText PlanTypes SwarmCore SwarmProgress SwarmMembers Effects PlanHandlers.

Inductive CommDeliveryMode := DeliverNotify | DeliverInterrupt | DeliverWake.

(** ** Targets *)

Definition has_name (name : string) (s : SwarmState) (session_id : string) : bool :=
  bool_decide (friendly_name_for_session session_id s = Some name).

(** An exact id, or else a name that one session of the swarm has. *)
Definition resolve_dm_target_session (target : string) (session_ids : list string) (s : SwarmState) : result string string :=
  if existsb (λ sid, bool_decide (sid = target)) session_ids then Ok target
  else
    match merge_sort String.le (List.filter (has_name target s) session_ids) with
    | [sid] => Ok sid
    | [] => Err ("Unknown target '" +:+ target
                 +:+ "' - use an exact session_id or a unique friendly name within the swarm.")
    | matches =>
        Err ("Friendly name '" +:+ target +:+ "' is ambiguous in swarm. Use an exact session id instead. Matches: "
             +:+ join ", " (map (λ sid, target +:+ " [" +:+ sid +:+ "]") matches))
    end.

Definition resolve_comm_delivery_mode (scope : string) (delivery : option CommDeliveryMode) (wake : option bool)
  : CommDeliveryMode :=
  match delivery with
  | Some mode => mode
  | None =>
      if match wake with Some b => b | None => false end then DeliverWake
      else if bool_decide (scope = "dm") then DeliverWake else DeliverNotify
  end.

Definition message_scope (to : option string) (channel : option string) : string :=
  match to with Some _ => "dm" | None => match channel with Some _ => "channel" | None => "broadcast" end end.

(** Whom the message is for: the target, the subscribers of the channel, or, for broadcasts
    and for channels without subscribers, the subtree of the sender. *)
Definition target_sessions (from swarm_id : string) (to channel : option string) (channels : ChannelIndex) (s : SwarmState)
  : list string :=
  match to with
  | Some target => [target]
  | None =>
      match channel with
      | Some name =>
          let subscribers := members channels swarm_id name in
          if bool_decide (subscribers = []) then subtree_targets from swarm_id s
          else List.filter (λ sid, negb (bool_decide (sid = from))) subscribers
      | None => subtree_targets from swarm_id s
      end
  end.

(** ** Delivery *)

(** [friendly_name.unwrap_or(from_session[..8.min(from_session.len())])]: the slice panics
    inside a character. *)
Definition from_label (name : option string) (from : string) : option string :=
  match name with
  | Some n => Some n
  | None =>
      let cut := Nat.min 8 (String.length from) in
      if is_char_boundary from cut then Some (String.substring 0 cut from) else None
  end.

Definition scope_label (scope : string) (channel : option string) : string :=
  match channel with
  | Some name => if bool_decide (scope = "channel") then "#" +:+ name else if bool_decide (scope = "dm") then "DM" else "broadcast"
  | None => if bool_decide (scope = "dm") then "DM" else "broadcast"
  end.

Definition reminder_for (scope : string) (channel : option string) (sender : string) : string :=
  if bool_decide (scope = "dm") then
    "You just received a direct swarm message from " +:+ sender +:+ ". Review it and respond or act if useful."
  else if bool_decide (scope = "channel") then
    "You just received a swarm channel message in #" +:+ match channel with Some c => c | None => "channel" end
    +:+ " from " +:+ sender +:+ ". Review it and respond or act if useful."
  else "You just received a swarm broadcast from " +:+ sender +:+ ". Review it and respond or act if useful.".

Section messages.
Context (idle : string → bool).

Definition deliver (mode : CommDeliveryMode) (message reminder to : string) : list Effect :=
  match mode with
  | DeliverNotify => []
  | DeliverInterrupt => [Interrupt to message]
  | DeliverWake => if idle to then [StartTurn to message reminder] else [Interrupt to message]
  end.

Definition is_deliverable (swarm_id : string) (s : SwarmState) (sid : string) : bool :=
  mem sid (swarm_session_ids swarm_id s) && is_member s sid.

(** [None] is a panic of the handler. *)
Definition handle_comm_message (id : N) (from message : string) (to_session channel : option string)
  (delivery : option CommDeliveryMode) (wake : option bool) (tldr : option string) (channels : ChannelIndex) (s : SwarmState)
  : option (list Effect) :=
  match swarm_id_for from s with
  | None => Some [err id not_in_swarm]
  | Some swarm_id =>
      let name := friendly_name_for_session from s in
      let session_ids := swarm_session_ids swarm_id s in
      let resolved :=
        match to_session with
        | Some target => match resolve_dm_target_session target session_ids s with Ok sid => Ok (Some sid) | Err e => Err e end
        | None => Ok None
        end in
      match resolved with
      | Err message => Some [err id message]
      | Ok to =>
          if match to with Some target => negb (mem target session_ids) | None => false end then
            Some [err id ("DM failed: session '" +:+ default "" to +:+ "' not in swarm")]
          else
            let scope := message_scope to channel in
            let targets := List.filter (is_deliverable swarm_id s) (target_sessions from swarm_id to channel channels s) in
            let mode := resolve_comm_delivery_mode scope delivery wake in
            let reminder := reminder_for scope channel (match name with Some n => n | None => from end) in
            let recorded :=
              [RecordEvent from name (Some swarm_id)
                 (EventNotification (if bool_decide (scope = "channel") then "#" +:+ default "" channel else scope)
                    (truncate_detail message 220));
               Reply (EventDone id)] in
            match targets with
            | [] => Some recorded
            | _ =>
                match from_label name from with
                | None => None
                | Some label =>
                    let text := scope_label scope channel +:+ " from " +:+ label +:+ ": " +:+ message in
                    Some ((targets ≫= λ sid,
                             Notify sid from name (MessageNotice (Some scope) channel tldr) text :: deliver mode text reminder sid)
                          ++ recorded)
                end
            end
      end
  end.
End messages.

(** ** Channels *)

Definition channel_le (a b : string * nat) : Prop := String.le a.1 b.1.

#[export] Instance channel_le_dec : RelDecision channel_le.
Proof. intros a b. unfold channel_le. apply _. Defined.

Definition list_channels (swarm_id : string) (channels : ChannelIndex) : list (string * nat) :=
  let counts := map (λ kv : string * gset string, (kv.1, size kv.2)) (map_to_list (default ∅ (by_swarm_channel channels !! swarm_id))) in
  merge_sort channel_le counts.

Definition handle_comm_list_channels (id : N) (session : string) (channels : ChannelIndex) (s : SwarmState) : list Effect :=
  match swarm_id_for session s with
  | Some swarm_id => [ReplyChannels id (list_channels swarm_id channels)]
  | None => [err id not_in_swarm]
  end.

(** Of the description of each member, only the session is modelled. *)
Definition handle_comm_channel_members (id : N) (session channel : string) (channels : ChannelIndex) (s : SwarmState) : list Effect :=
  match swarm_id_for session s with
  | Some swarm_id => [ReplyMembers id (List.filter (is_member s) (members channels swarm_id channel))]
  | None => [err id not_in_swarm]
  end.

Definition handle_comm_subscribe_channel (id : N) (session channel : string) (s : SwarmState) (channels : ChannelIndex)
  : ChannelIndex * list Effect :=
  match swarm_id_for session s with
  | Some swarm_id =>
      (subscribe channels session swarm_id channel,
       [RecordEvent session None (Some swarm_id) (EventNotification "channel_subscribe" channel); Reply (EventDone id)])
  | None => (channels, [err id "Not in a swarm."])
  end.

Definition handle_comm_unsubscribe_channel (id : N) (session channel : string) (s : SwarmState) (channels : ChannelIndex)
  : ChannelIndex * list Effect :=
  match swarm_id_for session s with
  | Some swarm_id =>
      (unsubscribe channels session swarm_id channel,
       [RecordEvent session None (Some swarm_id) (EventNotification "channel_unsubscribe" channel); Reply (EventDone id)])
  | None => (channels, [err id "Not in a swarm."])
  end.
