(* ===== verification/MessagesTheorems.v ===== *)
(** * Theorems about messages *)

From S2P Require Import MutationState.
From S2P Require Import Prelude RustStr RustText PlanTypes PlanLemmas SwarmCore SwarmProgress SwarmMembers Effects PlanHandlers Messages.

Definition recipients (effects : list Effect) : list string := omap recipient effects.

Lemma elem_of_recipients sid effects : sid ∈ recipients effects ↔ ∃ e, e ∈ effects ∧ recipient e = Some sid.
Proof. apply list_elem_of_omap. Qed.

Section theorems.
Context (idle : string → bool).
Abbreviation handle_comm_message := (handle_comm_message idle).

(** ** Shapes *)

Definition dm_target (to_session : option string) (w : string) (s : SwarmState) : result (option string) string :=
  match to_session with
  | Some target => match resolve_dm_target_session target (swarm_session_ids w s) s with Ok sid => Ok (Some sid) | Err e => Err e end
  | None => Ok None
  end.

Lemma resolve_in target ids s sid : resolve_dm_target_session target ids s = Ok sid → sid ∈ ids.
Proof.
  unfold resolve_dm_target_session. destruct (existsb _ ids) eqn:E.
  - intros [= <-]. apply existsb_elem in E as (x & Hx & ->%bool_decide_eq_true). done.
  - destruct (merge_sort String.le (List.filter (has_name target s) ids)) as [|x [|y l]] eqn:Es; intros [= <-].
    assert (x ∈ merge_sort String.le (List.filter (has_name target s) ids)) as Hx by (rewrite Es; set_solver).
    rewrite merge_sort_Permutation in Hx. by apply elem_of_filterb in Hx as [Hx _].
Qed.

(** The messages to the targets, before the record and the reply. *)
Definition delivered (from message label : string) (to channel : option string) (delivery : option CommDeliveryMode)
  (wake : option bool) (tldr : option string) (w : string) (channels : ChannelIndex) (s : SwarmState) : list Effect :=
  let name := friendly_name_for_session from s in
  let scope := message_scope to channel in
  let text := scope_label scope channel +:+ " from " +:+ label +:+ ": " +:+ message in
  List.filter (is_deliverable w s) (target_sessions from w to channel channels s) ≫= λ sid,
    Notify sid from name (MessageNotice (Some scope) channel tldr) text
    :: deliver idle (resolve_comm_delivery_mode scope delivery wake) text
         (reminder_for scope channel (match name with Some n => n | None => from end)) sid.

Definition recorded (id : N) (from message w : string) (to channel : option string) (s : SwarmState) : list Effect :=
  let scope := message_scope to channel in
  [RecordEvent from (friendly_name_for_session from s) (Some w)
     (EventNotification (if bool_decide (scope = "channel") then "#" +:+ default "" channel else scope) (truncate_detail message 220));
   Reply (EventDone id)].

Lemma handle_cases id from message to_session channel delivery wake tldr channels s w :
  swarm_id_for from s = Some w →
  match dm_target to_session w s with
  | Err e => handle_comm_message id from message to_session channel delivery wake tldr channels s = Some [err id e]
  | Ok to =>
      handle_comm_message id from message to_session channel delivery wake tldr channels s =
        match from_label (friendly_name_for_session from s) from with
        | Some label => Some (delivered from message label to channel delivery wake tldr w channels s ++ recorded id from message w to channel s)
        | None =>
            match List.filter (is_deliverable w s) (target_sessions from w to channel channels s) with
            | [] => Some (recorded id from message w to channel s)
            | _ => None
            end
        end
  end.
Proof.
  intros Hw. unfold Messages.handle_comm_message. rewrite Hw. fold (dm_target to_session w s).
  destruct (dm_target to_session w s) as [to|e] eqn:E; [|done].
  assert (match to with Some target => negb (mem target (swarm_session_ids w s)) | None => false end = false) as ->.
  { destruct to as [sid|]; [|done]. unfold dm_target in E. destruct to_session as [t|]; [|done].
    destruct (resolve_dm_target_session t _ s) eqn:Er; [|done]. simplify_eq. apply resolve_in in Er.
    apply negb_false_iff. by apply mem_true. }
  unfold delivered, recorded.
  destruct (List.filter (is_deliverable w s) (target_sessions from w to channel channels s)) as [|x l];
    by destruct (from_label (friendly_name_for_session from s) from).
Qed.

Lemma recipients_app a b : recipients (a ++ b) = recipients a ++ recipients b.
Proof. apply omap_app. Qed.

Lemma deliver_recipient mode text reminder sid e x :
  e ∈ deliver idle mode text reminder sid → recipient e = Some x → x = sid.
Proof. unfold deliver. destruct mode; [|..|destruct (idle sid)]; set_solver. Qed.

Lemma recipients_delivered from message label to channel delivery wake tldr w channels s sid :
  sid ∈ recipients (delivered from message label to channel delivery wake tldr w channels s) ↔
  is_deliverable w s sid = true ∧ sid ∈ target_sessions from w to channel channels s.
Proof.
  rewrite elem_of_recipients. unfold delivered. split.
  - intros (e & He & Hr). apply list_elem_of_bind in He as (x & He & Hx). apply elem_of_filterb in Hx as [Hx Hd].
    apply elem_of_cons in He as [->|He].
    + simpl in Hr. by simplify_eq.
    + apply (deliver_recipient _ _ _ _ _ _ He) in Hr as ->. done.
  - intros [Hd Ht]. eexists (Notify sid from _ _ _). split; [|done].
    apply list_elem_of_bind. exists sid. split; [by left|]. by apply elem_of_filterb.
Qed.

Lemma recipients_recorded id from message w to channel s : recipients (recorded id from message w to channel s) = [].
Proof. done. Qed.

Lemma elem_of_subtree from w s sid :
  sid ∈ subtree_targets from w s ↔
  sid ∈ swarm_session_ids w s ∧ sid ≠ from
  ∧ ((∃ m, ss_members s !! from = Some m ∧ m_role m = "coordinator") ∨ swarm_is_self_or_ancestor (ss_members s) from sid = true).
Proof.
  unfold subtree_targets. rewrite elem_of_filterb, andb_true_iff, negb_true_iff, bool_decide_eq_false, orb_true_iff.
  destruct (ss_members s !! from) as [m|].
  - rewrite bool_decide_eq_true. naive_solver.
  - naive_solver.
Qed.

Lemma elem_of_members_sorted i w c sid : sid ∈ members i w c ↔ sid ∈ entry_of (by_swarm_channel i) w c.
Proof. unfold members. by rewrite merge_sort_Permutation, elem_of_elements. Qed.

(** Whether a session may be told by a message to nobody in particular. *)
Definition reached (from w : string) (channel : option string) (channels : ChannelIndex) (s : SwarmState) (sid : string) : Prop :=
  sid ≠ from ∧
  match channel with
  | Some c =>
      if bool_decide (members channels w c = []) then
        (∃ m, ss_members s !! from = Some m ∧ m_role m = "coordinator") ∨ swarm_is_self_or_ancestor (ss_members s) from sid = true
      else sid ∈ entry_of (by_swarm_channel channels) w c
  | None =>
      (∃ m, ss_members s !! from = Some m ∧ m_role m = "coordinator") ∨ swarm_is_self_or_ancestor (ss_members s) from sid = true
  end.

Lemma is_deliverable_iff w s sid :
  is_deliverable w s sid = true ↔ sid ∈ swarm_session_ids w s ∧ is_Some (ss_members s !! sid).
Proof.
  unfold is_deliverable, is_member. rewrite andb_true_iff, mem_true. destruct (ss_members s !! sid); naive_solver.
Qed.

Lemma targets_reached from w channel channels s sid :
  is_deliverable w s sid = true →
  sid ∈ target_sessions from w None channel channels s ↔ reached from w channel channels s sid.
Proof.
  rewrite is_deliverable_iff. intros [Hin _]. unfold target_sessions, reached.
  destruct channel as [c|]; [case_bool_decide as Hc|]; rewrite ?elem_of_subtree; [naive_solver| |naive_solver].
  rewrite elem_of_filterb, negb_true_iff, bool_decide_eq_false, elem_of_members_sorted. naive_solver.
Qed.

(** C39 (equivalence). Who hears a broadcast or a channel message: exactly the sessions of the
    sender's swarm that the server knows, other than the sender, that subscribed to the
    channel; and without a channel, or when nobody subscribed, exactly those the sender
    spawned, directly or through others, or everyone when the sender is the coordinator. *)
Theorem broadcasts_reach_the_subtree_or_the_channel id from message channel delivery wake tldr channels s w effects sid :
  swarm_id_for from s = Some w →
  handle_comm_message id from message None channel delivery wake tldr channels s = Some effects →
  sid ∈ recipients effects ↔
    sid ∈ swarm_session_ids w s ∧ is_Some (ss_members s !! sid) ∧ reached from w channel channels s sid.
Proof.
  intros Hw H. pose proof (handle_cases id from message None channel delivery wake tldr channels s w Hw) as Hc.
  simpl in Hc. rewrite Hc in H. clear Hc. rewrite (assoc (∧)), <-is_deliverable_iff.
  destruct (from_label _ from) as [label|].
  - injection H as <-. rewrite recipients_app, recipients_recorded, app_nil_r, recipients_delivered.
    split; intros [Hd Ht]; (split; [done|]); by apply targets_reached.
  - destruct (List.filter _ _) as [|x l] eqn:E; [|done]. injection H as <-. rewrite recipients_recorded.
    split; [set_solver|]. intros [Hd Ht]. apply targets_reached in Ht; [|done].
    assert (sid ∈ List.filter (is_deliverable w s) (target_sessions from w None channel channels s)) as Hin
      by by apply elem_of_filterb. cbn [target_sessions] in Hin. rewrite E in Hin. set_solver.
Qed.

(** Whom a direct message names.  The target is the session with exactly that
    id if the swarm has it, and otherwise the session of the swarm whose friendly name it is,
    provided there is only one; in all other cases the sender is told and nobody else hears
    anything. *)
Theorem direct_messages_name_one_session target s w sid :
  resolve_dm_target_session target (swarm_session_ids w s) s = Ok sid ↔
  (target ∈ swarm_session_ids w s ∧ sid = target)
  ∨ (target ∉ swarm_session_ids w s ∧ sid ∈ swarm_session_ids w s
     ∧ friendly_name_for_session sid s = Some target
     ∧ ∀ x, x ∈ swarm_session_ids w s → friendly_name_for_session x s = Some target → x = sid).
Proof.
  unfold resolve_dm_target_session. destruct (existsb _ _) eqn:E.
  - apply existsb_elem in E as (x & Hx & ->%bool_decide_eq_true). naive_solver.
  - assert (target ∉ swarm_session_ids w s) as Hn.
    { intros Hin. assert (existsb (λ x, bool_decide (x = target)) (swarm_session_ids w s) = true); [|congruence].
      apply existsb_elem. exists target. split; [done|]. by apply bool_decide_eq_true. }
    assert (NoDup (swarm_session_ids w s)) as Hnd by apply NoDup_elements.
    set (l := List.filter (has_name target s) (swarm_session_ids w s)).
    assert (∀ x, x ∈ l ↔ x ∈ swarm_session_ids w s ∧ friendly_name_for_session x s = Some target) as Hl.
    { intros x. unfold l, has_name. by rewrite elem_of_filterb, bool_decide_eq_true. }
    assert (NoDup l) as Hndl by (rewrite <-(map_id l); apply NoDup_map_filterb; by rewrite map_id).
    assert (merge_sort String.le l ≡ₚ l) as Hp by apply merge_sort_Permutation.
    destruct (merge_sort String.le l) as [|x [|y r]].
    + split; [done|]. intros [[? _]|(_ & H1 & H2 & _)]; [done|].
      assert (sid ∈ l) as Hin by by apply Hl. rewrite <-Hp in Hin. set_solver.
    + assert (∀ z, z ∈ l ↔ z = x) as Hx by (intros z; rewrite <-Hp; set_solver). split.
      * intros [= <-]. right. destruct (proj1 (Hl x)) as [H1 H2]; [by apply Hx|]. split_and!; [done|done|done|].
        intros z Hz1 Hz2. by apply Hx, Hl.
      * intros [[? _]|(_ & H1 & H2 & _)]; [done|]. f_equal. symmetry. by apply Hx, Hl.
    + split; [done|]. intros [[? _]|(_ & H1 & H2 & H3)]; [done|]. exfalso.
      rewrite <-Hp in Hndl. apply NoDup_cons in Hndl as [Hxy _]. apply Hxy.
      assert (x ∈ l ∧ y ∈ l) as [Hx Hy] by (rewrite <-Hp; set_solver).
      apply Hl in Hx as [? ?], Hy as [? ?]. rewrite (H3 x), (H3 y) by done. by left.
Qed.

Definition is_panic {A} (o : option A) : bool := match o with None => true | Some _ => false end.

(** When the handler panics: only if the sender has no friendly name and its id
    has a character across the eighth byte, which no ASCII id has, and the message would
    reach someone.  Otherwise a direct message to a known session notifies exactly that
    session and, unless it was asked merely to notify, either starts a turn there, when the
    session is idle, or interrupts it. *)
Theorem direct_messages_arrive id from message target delivery wake tldr channels s w sid :
  swarm_id_for from s = Some w → resolve_dm_target_session target (swarm_session_ids w s) s = Ok sid →
  is_Some (ss_members s !! sid) →
  match handle_comm_message id from message (Some target) None delivery wake tldr channels s with
  | None => friendly_name_for_session from s = None ∧ is_char_boundary from (Nat.min 8 (String.length from)) = false
  | Some effects =>
      ∃ text, effects = Notify sid from (friendly_name_for_session from s) (MessageNotice (Some "dm") None tldr) text
        :: match resolve_comm_delivery_mode "dm" delivery wake with
           | DeliverNotify => []
           | DeliverInterrupt => [Interrupt sid text]
           | DeliverWake => [if idle sid then StartTurn sid text (reminder_for "dm" None (default from (friendly_name_for_session from s)))
                             else Interrupt sid text]
           end ++ recorded id from message w (Some sid) None s
  end.
Proof.
  intros Hw Hr Hm. pose proof (handle_cases id from message (Some target) None delivery wake tldr channels s w Hw) as H.
  unfold dm_target in H. rewrite Hr in H. rewrite H. clear H.
  assert (is_deliverable w s sid = true) as Hd by (apply is_deliverable_iff; split; [by eapply resolve_in|done]).
  destruct (from_label (friendly_name_for_session from s) from) as [label|] eqn:E.
  - eexists. unfold delivered. cbn [target_sessions List.filter]. rewrite Hd. cbn [mbind list_bind app message_scope].
    rewrite app_nil_r. f_equal. f_equal. unfold deliver. destruct (resolve_comm_delivery_mode _ _ _); [done|done|].
    by destruct (idle sid).
  - cbn [target_sessions List.filter]. rewrite Hd. revert E. unfold from_label.
    destruct (friendly_name_for_session from s); [done|].
    by destruct (is_char_boundary from _).
Qed.
End theorems.

(** ** Witnesses *)

Definition crew_member (id name : string) (parent : option string) : SwarmMember := {|
  m_session_id := id; m_swarm_id := Some "w"; m_status := "running"; m_detail := None; m_task_label := None;
  m_friendly_name := Some name; m_report_back_to := parent; m_latest_completion_report := None; m_role := "agent";
  m_joined_at := 0; m_last_status_change := 0; m_is_headless := false; m_output_tail := None; m_elapsed_secs := None |}.

(** Alice spawned Bob; Carol and Dave are on their own, and share a name. *)
Definition crew : SwarmState := {|
  ss_members := list_to_map [("s1", crew_member "s1" "alice" None); ("s2", crew_member "s2" "bob" (Some "s1"));
                             ("s3", crew_member "s3" "carol" None); ("s4", crew_member "s4" "carol" None)];
  ss_swarms := {["w" := {["s1"; "s2"; "s3"; "s4"]}]}; ss_coordinators := ∅; ss_plans := ∅;
  ss_history := []; ss_event_counter := 0; ss_outbox := [] |}.

Definition news : option (list Effect) :=
  handle_comm_message (λ _, true) 1 "s1" "hello" None None None None None
    {| by_swarm_channel := ∅; by_session := ∅ |} crew.

Lemma broadcasts_reach_the_subtree_or_the_channel_witness :
  recipients (default [] news) = ["s2"] ∧ ("s2" ∈ recipients (default [] news) ↔
    "s2" ∈ swarm_session_ids "w" crew ∧ is_Some (ss_members crew !! "s2")
    ∧ reached "s1" "w" None {| by_swarm_channel := ∅; by_session := ∅ |} crew "s2").
Proof.
  split; [vm_compute; reflexivity|].
  apply (broadcasts_reach_the_subtree_or_the_channel (λ _, true) 1 "s1" "hello" None None None None
    {| by_swarm_channel := ∅; by_session := ∅ |} crew "w"); vm_compute; reflexivity.
Defined.

Example a_name_of_two_is_refused :
  resolve_dm_target_session "carol" (swarm_session_ids "w" crew) crew =
    Err "Friendly name 'carol' is ambiguous in swarm. Use an exact session id instead. Matches: carol [s3], carol [s4]".
Proof. vm_compute. reflexivity. Qed.

Definition dm : option (list Effect) :=
  handle_comm_message (λ _, false) 1 "s3" "hello" (Some "bob") None None None None
    {| by_swarm_channel := ∅; by_session := ∅ |} crew.

Lemma direct_messages_arrive_witness :
  ∃ text rest, dm = Some (Notify "s2" "s3" (Some "carol") (MessageNotice (Some "dm") None None) text
    :: Interrupt "s2" text :: rest).
Proof.
  pose proof (direct_messages_arrive (λ _, false) 1 "s3" "hello" "bob" None None None
    {| by_swarm_channel := ∅; by_session := ∅ |} crew "w" "s2" ltac:(vm_compute; reflexivity) ltac:(vm_compute; reflexivity)
    ltac:(vm_compute; eauto)) as H.
  change (handle_comm_message (λ _, false) 1 "s3" "hello" (Some "bob") None None None None
    {| by_swarm_channel := ∅; by_session := ∅ |} crew) with dm in H.
  assert (is_panic dm = false) as Hd by (vm_compute; reflexivity).
  destruct dm as [effects|]; [|done]. destruct H as (text & H). exists text. simpl in H. eexists. by rewrite H.
Defined.
